(* ===== verification/_CoqProject ===== *)
-Q . S2P
Prelude.v
Machine.v
OrderedMap.v
External.v
Instruction.v
Bottleneck.v
GraphDefs.v
DegBuild.v
Interaction.v
Induced.v
LongestPath.v
PathSearch.v
Analyze.v
GraphTheory.v
TraceParse.v
Visualizer.v
Run.v
TopoSort.v
DistFacts.v
LongestFacts.v
Pipeline.v
BuildFacts.v
InteractFacts.v
InducedFacts.v
SearchFacts.v
CriticalFacts.v
CompleteFacts.v
AnalyzeFacts.v
ParseFacts.v
RunFacts.v
Demo.v
AnalysisTheorems.v
BuildTheorems.v
IoTheorems.v
CalipersCache.v
CalipersFacts.v
CalipersCycles.v
CalipersPaths.v
CalipersScoreboard.v
CalipersScoreFacts.v
CalipersO3.v
CalipersO3Facts.v
CalipersO3Steps.v
CalipersO3Window.v
CalipersO3Run.v
CalipersO3Trace.v
CalipersInorder.v
CalipersInorderBoard.v
CalipersInorderEdges.v
CalipersInorderPhases.v
CalipersInorderRun.v
CalipersTheorems.v
CalipersO3Theorems.v
CalipersInorderTheorems.v
Floats.v
FloatText.v
CalipersOpcodes.v
CalipersStream.v
CalipersStreamFacts.v
CalipersStreamPrint.v
CalipersStreamRead.v
CalipersConvert.v
CalipersConvertFacts.v
CalipersModels.v
CalipersReport.v
CalipersMain.v
CalipersReportFacts.v
CalipersMainFacts.v
CalipersStreamTheorems.v
CalipersProgramTheorems.v
CalipersDetailTheorems.v
CalipersReportTheorems.v
CalipersAdvanced.v
CalipersWorklist.v
CalipersAdvancedEdges.v
CalipersAdvancedInv.v
CalipersAdvancedSchedule.v
CalipersAdvancedRun.v
CalipersAdvancedTheorems.v
CalipersDraw.v
