(* ===== verification/Prelude.v ===== *)
(** * ArchExplorer: verification of the critical-path analysers

    ** The program

    ArchExplorer explores processor designs by measuring, for each design, where
    the cycles of a program's critical path go.  Two C++ analysers do that.

    - infras/deg/src, the tool itself: reads a trace of instructions with the time
      of each pipeline event (instruction/), builds the dynamic event-dependence
      graph of the trace (graph/o3.cc), turns it into an induced graph with
      virtual edges, finds a longest path, completes it to a path from the first
      fetch to the last commit, attributes its weight to bottlenecks
      (graph/bottleneck.h and .cc) and writes a report and a drawing (graph/visualizer.h).
    - infras/calipers/src, the analyser it is compared with: takes its options and
      a configuration file (common/main.cpp), converts a gem5 trace to a trace of
      its own (trace/instruction_stream.cpp), reads the instructions back
      (trace/riscv_stream.cpp), models caches and a branch predictor
      (memory/, branch_predictor/), builds a dependence
      graph per window (graph/o3_core_graph.cpp), computes critical paths with a
      breakdown of their cycles (graph/graph.cpp, graph_util.h), orders the
      instructions for issue, adds edges for limited resources with a scoreboard
      (graph/scoreboard.h), and computes the paths again.  A second core
      (graph/inorder_core_graph.cpp) issues in program order, with a scoreboard of
      its own (graph/scoreboard_simple.h), and computes the paths of each
      instruction before it reads the next.  A third one
      (graph/o3_core_graph_advanced.cpp), whose construction main.cpp has commented
      out, issues out of order in a window that slides along the trace and
      propagates every resource edge through the graph as it is added.  The report of
      a window or of a trace is [recordStats] of graph/graph.cpp; with the option
      --view the first core also draws each window (tools/visualizer.h).

    ** Reading the model

    A C++ call is a function to [res]: [Ok] for a normal return, [Stop] for an
    assertion, the error macros, an exception, undefined behaviour, or a recursion
    bound of the model.  Objects are records that the operations take and return.
    Machine integers are integers with their wrap-around written out ([u64],
    [u32]), signed overflow is [Stop Undefined] ([CalG.i64]), a read outside an
    array is [Stop Undefined]; [double] latencies are rounded to 53 bits
    ([lat_add], [lat_sub]); [float], [double] and the [long double] of x86 are
    rationals rounded to 24, 53 and 64 bits (Floats).  Text files are lists of lines.
    A map read with [operator[]] gives the default value for an absent key.  What uninitialised memory holds is an argument.

    ** The DEG analyser, and the files that model it

    - Machine (common/deg_defs.h), OrderedMap (std::map with a comparator),
      External (Boost, as the classes [Boost] and [BoostPicture] with their laws and
      instances, and pictures with one vertex for each key);
    - Instruction and TraceParse (instruction/): the record of an instruction, the
      constructor from a line, the stream;
    - Bottleneck (graph/bottleneck.h and .cc), GraphDefs (graph/graph_utils.h and the
      comparators of graph/o3.h);
    - DegBuild, Interaction, Induced, LongestPath, PathSearch, Analyze: graph/o3.cc
      in the order of [run]: [model], [model_interaction],
      [construct_induced_graph], [longest_path], its completion, profiling and
      report;
    - Visualizer (graph/visualizer.h; the Boost Graph Library is the class
      [BoostPicture]) and Run (options, constructor, main loop, main).

    Facts about them, a file per group: GraphTheory (well-formed graphs, the
    interface between building and analysing), TopoSort, DistFacts and LongestFacts
    (the sort and the dynamic program), Pipeline (the abstract chain of events of an
    instruction), BuildFacts, InteractFacts (the interactions and the graph of a trace),
    InducedFacts, SearchFacts, CriticalFacts, CompleteFacts (the completed path),
    AnalyzeFacts, ParseFacts, RunFacts; Demo is a trace the witnesses use.

    - AnalysisTheorems: the whole program on a parsable trace; the longest path is
      longest; the sort terminates and is topological; the induced graph keeps the
      invariant and joins every skewed edge to the next ones in time and in program
      order; the length is the elapsed time and the sum of the counters; the
      inputs on which the program stops.
    - BuildTheorems: exactly which edges each instruction and each of the eight
      interactions adds.
    - IoTheorems: lines are read back as printed, options, numbers, identities of
      vertices, the picture.

    ** Calipers, and the files that model it

    - CalipersCache ([Cal]): caches with tree pseudo-LRU replacement, recency
      counters, one to three levels; CalipersFacts: their invariants.
    - CalipersCycles ([CalG]): vectors of lengths and [updateCriticalPathCycles];
      CalipersPaths: relaxing edges in a topological order computes longest paths,
      in any order it keeps lengths attained and the breakdown complete.
    - CalipersScoreboard ([CalS]); CalipersScoreFacts: the specification by
      histories of requests ([spec_run]) and the refinement.
    - CalipersO3 ([CalO]): the out-of-order core.  Caches and branch predictor are
      the classes [Cache] and [BranchPredictor], as in the code; the theorems are
      proved against [CacheLaws], which the ideal cache and the two-level cache
      discharge.  CalipersO3Facts, CalipersO3Steps, CalipersO3Window, CalipersO3Run
      and CalipersO3Trace follow an instruction, the reading of a window, the first
      pass, the resources and the second pass, and a whole trace.
    - CalipersInorder ([CalI]): the in-order core; the order in which the language
      lists a hash map is the class [HashOrder].  CalipersInorderBoard: its
      scoreboard refines a history of users; CalipersInorderEdges and
      CalipersInorderPhases: the edges gathered for an instruction are near, fit
      their arrays, or end the program; CalipersInorderRun: one instruction and a
      whole trace.
    - Floats: rounding, reading and printing of binary floating-point numbers;
      FloatText: how much rounding and printing change a number.
    - CalipersOpcodes ([CalT]): the tables of registers and opcodes, row by row;
      CalipersStream ([CalR]): the stream and its parsers; CalipersStreamFacts: the
      parsers by words, without positions; CalipersStreamPrint and
      CalipersStreamRead: printed entries and what the stream delivers of them.
    - CalipersConvert ([CalV]): the conversion of a gem5 trace; CalipersConvertFacts:
      gem5 lines as records, the entries they describe by the tables of the stream,
      and the conversion of any line it can read.
    - CalipersModels ([CalM]): the statistical cache and predictor, the cache from a
      configuration text, and the sum of the cache models, an instance of [Cache].
    - CalipersReport ([CalW]): [recordStats]; CalipersReportFacts: a report is the
      text of a summary.
    - CalipersMain ([CalP]): options, configuration, construction, the loops over
      the stream with their reports, main; CalipersMainFacts: the loops do what the
      cores do on the list of the instructions delivered, and the models satisfy
      [CacheLaws].
    - CalipersAdvanced ([CalA]): the sliding-window core, on the members and the code
      it shares with [CalO].  CalipersWorklist: the worklist leaves every edge
      relaxed, ends if the edges lead up some ranks, and cannot end on a cycle;
      CalipersAdvancedEdges: the edges an instruction adds; CalipersAdvancedInv: the
      invariant [adv_inv], and reading an instruction keeps it;
      CalipersAdvancedSchedule: so do propagating an edge and the requests of an
      instruction; CalipersAdvancedRun: and taking the instruction with the shortest
      path, moving the window, and the main loop.
    - CalipersDraw ([CalD]): the drawing of a window (tools/visualizer.h) and [addEdge]
      on the map it goes through; the map holds the graph of [CalO], and its picture
      shows the edges of the window.
    - CalipersTheorems: the caches and the breakdown.  CalipersO3Theorems: a trace
      is analysed to the end; the first pass computes longest paths; scoreboard and
      resource edges refine their specification; where the analysis falls short.
      CalipersInorderTheorems: the same for the in-order core, with the exact
      condition under which a trace is analysed to the end.
    - CalipersStreamTheorems: the tables are well formed; a line is read within
      the arrays; every trace is read to an end; a printed trace is read back,
      unless branch outcomes are wanted without fetch cycles or memory cycles
      without both. CalipersProgramTheorems: a gem5 trace is converted to the
      entries it describes, compressed branches and floating-point loads apart;
      the whole program, from the command line to the report, for both cores.
      CalipersDetailTheorems: instructions and latencies the conversion gets
      wrong, the share of hits of a statistical model, the reading of a
      configuration. CalipersReportTheorems: the accuracy of a printed share, and
      the counters that no window resets. CalipersAdvancedTheorems: the
      sliding-window core schedules every instruction of a trace and ends as long
      as the dangling pointers of its propagation still read as they were, its
      propagation settles, its state is consistent throughout a run; when it does
      not end, and the empty trace.

    ** Bounds and fuel

    Recursions that are not structural take fuel, and the theorems prove results,
    not only that a result would be right: [topo_loop], [bfs_loop], [find_path] and
    [from_c_to_sink] get two more than the number of edges, each round of theirs
    consumes an edge or moves forward in an acyclic graph; [walk_back] one more
    than the number of vertices; [raw_inner] and [raw_outer] one more than the
    window; [run_loop] one more than the lines left; [num_digits] 400, more than
    the digits of a double; [effec_loop] and [levels_loop] 66, more than the bits of
    the number of ways.  Of Calipers, [operand_loop] gets two more than the
    characters left, each word uses one up; [inorder_loop], [o3_loop] and [read_all]
    one more than the lines of the trace, each call of [next] uses one up; [exp10]
    the bits of numerator and denominator.  Its other loops are structural.  A Calipers
    run is bounded by 56 million instructions: each adds at most 38 relaxations of a weight below
    2^32 to a path, and lengths are 64-bit.  For the in-order core it is 42 million:
    five vertices of at most ten edges each.  The two unbounded loops of the
    sliding-window core take fuel: [update_loop] gets [fuel_for] its window, more than
    all lengths together can grow, [schedule_loop] and [run_loop] the same number,
    which exceeds that of the instructions; with an instruction buffer of [B] and a
    window of [W] a trace of [n] instructions must satisfy (5 B + 11) (n + W) < 2^31.

    ** Not modelled

    Timers, logs and progress output; the assertion library; helpers nothing
    calls. [getopt_long_only] is the list of options it returns, [rand] the list
    of numbers it gives, the order of a hash map a permutation; [stof] and [stold]
    do not accept hexadecimal texts, infinities and NaN here; the in-degrees of
    the sort, [int] in the code, are unbounded; a program counter whose text is
    blank, which the code leaves unset, is 0; the order in which the arguments of
    a call are evaluated is fixed; the texts of the vertices of Calipers are an
    argument of the drawing, the cores do not carry them. The vendored simulators
    (gem5, McPAT) and the Python drivers are other programs. *)

From stdpp Require Export base decidable list gmap strings sorting.
From Stdlib Require Export Ascii ZArith Lia.

#[local] Open Scope Z_scope.

(** ** Outcomes of a C++ call

    [Ok] is a normal return.  [Stop] is every way the program leaves the
    normal path: a failed [PPK_ASSERT] (the handler of
    common/ppk_assert.cc takes over), the [ERROR] macro of common/utils.h
    (log and [std::exit]), a successful [std::exit], an uncaught exception, and
    undefined behaviour.
    [OutOfFuel] is not a behaviour of the program: it marks a recursion bound
    of the model.  The theorems show it is not reached, except where they show that
    the code itself does not end. *)

Inductive abort :=
| AssertFail
| ErrorExit
| SuccessExit
| Uncaught
| Undefined
| OutOfFuel.

Inductive res (A : Type) :=
| Ok (a : A)
| Stop (e : abort).
Arguments Ok {A} a.
Arguments Stop {A} e.

#[global] Instance abort_eq_dec : EqDecision abort.
Proof. solve_decision. Defined.

#[global] Instance res_ret : MRet res := fun A a => Ok a.
#[global] Instance res_bind : MBind res := fun A B f m =>
  match m with Ok a => f a | Stop e => Stop e end.

(** [PPK_ASSERT(b, ...)] of common/ppk_assert.h. *)
Definition ppk_assert (b : bool) : res unit :=
  if b then Ok tt else Stop AssertFail.

(** A [for] loop whose body may leave the normal path. *)
Fixpoint res_fold {A B} (f : A -> B -> res A) (a : A) (l : list B) : res A :=
  match l with
  | [] => Ok a
  | b :: l' => a' ← f a b; res_fold f a' l'
  end.

Lemma res_bind_ok {A B} (f : A -> res B) a : (x ← Ok a; f x) = f a.
Proof. reflexivity. Qed.

Lemma Ok_inj {A} (a b : A) : Ok a = Ok b -> a = b.
Proof. congruence. Qed.

Lemma res_bind_inv {A B} (m : res A) (f : A -> res B) b :
  (x ← m; f x) = Ok b -> exists a, m = Ok a /\ f a = Ok b.
Proof. destruct m; simpl; intros; [eauto | discriminate]. Qed.

Lemma res_fold_app {A B} (f : A -> B -> res A) a l1 l2 :
  res_fold f a (l1 ++ l2) = (a' ← res_fold f a l1; res_fold f a' l2).
Proof.
  revert a; induction l1 as [|b l1 IH]; intros a; [reflexivity|].
  simpl. destruct (f a b); simpl; [apply IH | reflexivity].
Qed.

(** Rule for loops that preserve an invariant and never leave the path. *)
Lemma res_fold_inv {A B} (P : A -> Prop) (f : A -> B -> res A) l a :
  P a ->
  (forall x b, b ∈ l -> P x -> exists y, f x b = Ok y /\ P y) ->
  exists a', res_fold f a l = Ok a' /\ P a'.
Proof.
  revert a; induction l as [|b l IH]; intros a Ha Hf; simpl; [eauto|].
  destruct (Hf a b) as (y & -> & Hy); [set_solver|done|]. simpl.
  apply IH; [done|]. intros x c Hc. apply Hf. set_solver.
Qed.

Lemma foldl_inv {A B} (P : A -> Prop) (f : A -> B -> A) l a :
  P a -> (forall x b, b ∈ l -> P x -> P (f x b)) -> P (foldl f a l).
Proof.
  revert a; induction l as [|b l IH]; intros a Ha Hf; simpl; [done|].
  apply IH; [apply Hf; [set_solver|done]|]. intros x c Hc. apply Hf. set_solver.
Qed.

(** ** Tactics *)

(** Split a successful monadic computation in the context into its steps. *)
Ltac inv_res :=
  repeat match goal with
  | H : Ok _ = Ok _ |- _ => injection H as H; subst
  | H : Stop _ = Ok _ |- _ => discriminate H
  | H : mbind _ _ = Ok _ |- _ =>
      let a := fresh "a" in let H1 := fresh H in
      apply res_bind_inv in H as (a & H1 & H)
  | H : ppk_assert ?b = Ok _ |- _ =>
      unfold ppk_assert in H; destruct b eqn:?; [|discriminate H]
  end.

(** Turn the boolean tests of the code into propositions. *)
Ltac bool_to_prop :=
  repeat match goal with
  | H : (_ && _)%bool = true |- _ => apply andb_true_iff in H as [? ?]
  | H : (_ || _)%bool = false |- _ => apply orb_false_iff in H as [? ?]
  | H : negb _ = true |- _ => apply negb_true_iff in H
  | H : negb _ = false |- _ => apply negb_false_iff in H
  | H : (_ =? _) = true |- _ => apply Z.eqb_eq in H
  | H : (_ =? _) = false |- _ => apply Z.eqb_neq in H
  | H : (_ <? _) = true |- _ => apply Z.ltb_lt in H
  | H : (_ <? _) = false |- _ => apply Z.ltb_ge in H
  | H : (_ <=? _) = true |- _ => apply Z.leb_le in H
  | H : (_ <=? _) = false |- _ => apply Z.leb_gt in H
  | H : bool_decide _ = true |- _ => apply bool_decide_eq_true in H
  | H : bool_decide _ = false |- _ => apply bool_decide_eq_false in H
  end.

Create HintDb deg.
Create Rewrite HintDb deg_len.
#[export] Hint Rewrite @length_app @length_fmap @length_nil : deg_len.

(** ** Lists *)

(** Consecutive elements are related: the shape of a path in a graph. *)
Fixpoint chain {A} (R : A -> A -> Prop) (l : list A) : Prop :=
  match l with
  | x :: ((y :: _) as l') => R x y /\ chain R l'
  | _ => True
  end.

Lemma chain_cons {A} (R : A -> A -> Prop) x l :
  chain R (x :: l) <-> match head l with Some y => R x y | None => True end /\ chain R l.
Proof. destruct l; simpl; tauto. Qed.

Lemma chain_app {A} (R : A -> A -> Prop) l1 l2 :
  chain R (l1 ++ l2) <->
  chain R l1 /\ chain R l2 /\
  match last l1, head l2 with Some x, Some y => R x y | _, _ => True end.
Proof.
  induction l1 as [|x l1 IH]; [simpl; tauto|].
  destruct l1 as [|y l1].
  - simpl app. rewrite chain_cons. simpl. destruct l2; simpl; tauto.
  - change ((x :: y :: l1) ++ l2) with (x :: (y :: l1) ++ l2).
    rewrite (chain_cons R x ((y :: l1) ++ l2)), IH, (chain_cons R x (y :: l1)).
    change (last (x :: y :: l1)) with (last (y :: l1)). simpl head. tauto.
Qed.

Lemma chain_impl {A} (R S : A -> A -> Prop) l :
  (forall x y, x ∈ l -> y ∈ l -> R x y -> S x y) -> chain R l -> chain S l.
Proof.
  induction l as [|x l IH]; [done|]. intros HRS.
  rewrite !chain_cons. intros [H1 H2]. split.
  - destruct l; simpl in *; [done|]. apply HRS; set_solver.
  - apply IH; [|done]. intros; apply HRS; set_solver.
Qed.

Lemma chain_tail {A} (R : A -> A -> Prop) x l : chain R (x :: l) -> chain R l.
Proof. rewrite chain_cons. tauto. Qed.

Lemma chain_fmap {A B} (f : A -> B) (R : B -> B -> Prop) l :
  chain R (f <$> l) <-> chain (fun a b => R (f a) (f b)) l.
Proof. induction l as [|x [|y l] IH]; [done..|]. csimpl in *. by rewrite IH. Qed.

Lemma chain_pred {A} (R : A -> A -> Prop) x l y : chain R (x :: l) -> y ∈ l -> exists a, R a y.
Proof.
  revert x; induction l as [|z l IH]; intros x Hc Hy; [set_solver|].
  destruct Hc as [Hxz Hc]. apply elem_of_cons in Hy as [->|Hy]; [by exists x|by apply (IH z)].
Qed.

(** Along a chain a strictly increasing measure never repeats a vertex. *)
Lemma chain_increasing {A} (R : A -> A -> Prop) (f : A -> Z) l x y :
  (forall a b, R a b -> f a < f b) ->
  chain R (x :: l) -> y ∈ l -> f x < f y.
Proof.
  intros HR. revert x; induction l as [|z l IH]; intros x Hc Hy; [set_solver|].
  destruct Hc as [Hxz Hc]. apply HR in Hxz.
  apply elem_of_cons in Hy as [->|Hy]; [done|].
  pose proof (IH z Hc Hy). lia.
Qed.

Lemma chain_NoDup {A} (R : A -> A -> Prop) (f : A -> Z) l :
  (forall a b, R a b -> f a < f b) -> chain R l -> NoDup l.
Proof.
  intros HR. induction l as [|x l IH]; intros Hc; [constructor|].
  constructor.
  - intros Hx. pose proof (chain_increasing R f l x x HR Hc Hx). lia.
  - apply IH. by apply chain_tail in Hc.
Qed.

Lemma last_elem_of {A} (l : list A) x : last l = Some x -> x ∈ l.
Proof.
  intros H. apply last_Some in H as [l' ->]. set_solver.
Qed.

Lemma head_elem_of {A} (l : list A) x : head l = Some x -> x ∈ l.
Proof. destruct l; simpl; [done|]. intros [= ->]. set_solver. Qed.

(** The consecutive pairs of a list. *)
Fixpoint pairs_of {A} (l : list A) : list (A * A) :=
  match l with
  | x :: ((y :: _) as l') => (x, y) :: pairs_of l'
  | _ => []
  end.

Lemma pairs_of_chain {A} (R : A -> A -> Prop) l :
  chain R l <-> Forall (fun p => R p.1 p.2) (pairs_of l).
Proof.
  induction l as [|x [|y l] IH]; simpl; [split; auto..|].
  rewrite Forall_cons. simpl in *. rewrite IH. done.
Qed.

(** Telescoping: differences along a path add up to the end-to-end one. *)
Lemma pairs_telescope {A} (f : A -> Z) l x y :
  head l = Some x -> last l = Some y ->
  foldr (fun p acc => (f p.2 - f p.1) + acc) 0 (pairs_of l) = f y - f x.
Proof.
  revert x; induction l as [|a [|b l] IH]; intros x Hx Hy; simpl in *.
  - done.
  - simplify_eq. lia.
  - simplify_eq. rewrite (IH b); [lia|done|done].
Qed.

Lemma NoDup_subset_length {A} `{EqDecision A} (l k : list A) :
  NoDup l -> l ⊆ k -> (length l <= length k)%nat.
Proof. intros H1 H2. by apply submseteq_length, NoDup_submseteq. Qed.

Lemma filter_fmap {A B} (f : A -> B) (P : B -> Prop) `{!forall x, Decision (P x)} (l : list A) :
  filter P (f <$> l) = f <$> filter (fun x => P (f x)) l.
Proof.
  induction l as [|x l IH]; [done|]. csimpl. rewrite !filter_cons.
  case_decide; [|done]. csimpl. by rewrite IH.
Qed.
