(* ===== verification/Machine.v ===== *)
(** * Machine arithmetic

    The integer types of common/deg_defs.h ([count_t], [tick] and [addr] are
    [uint64_t], [latency] is [double]) with the arithmetic the analyser does
    on them.  A 64-bit quantity is a [Z] in [0, 2^64) and its subtraction
    wraps.  Every [latency] of the program is an integer-valued double (a
    converted tick difference, a small constant, or a sum of those), so it is
    modelled as the [Z] it denotes, with IEEE 754 round-to-nearest-even to 53
    significant bits applied wherever the hardware would round. *)

From S2P Require Import Prelude.

#[local] Open Scope Z_scope.

(** ** 64-bit unsigned integers *)

Definition u64_size : Z := 2 ^ 64.
Definition u64 (z : Z) : Z := z mod u64_size.
Definition u64_sub (a b : Z) : Z := u64 (a - b).

(** Conversion to [int]. *)
Definition to_int (z : Z) : Z :=
  let r := z mod 2 ^ 32 in if r <? 2 ^ 31 then r else r - 2 ^ 32.

(** ** Integer-valued doubles *)

(** Rounding of an integer to the nearest double, ties to even. *)
Definition rne53 (z : Z) : Z :=
  let a := Z.abs z in
  if a <=? 2 ^ 53 then z
  else
    let e := Z.log2 a - 52 in
    let q := a / 2 ^ e in
    let r := a mod 2 ^ e in
    let half := 2 ^ (e - 1) in
    let q' := if r <? half then q
              else if half <? r then q + 1
              else if Z.even q then q else q + 1 in
    Z.sgn z * (q' * 2 ^ e).

(** [latency weight = a - b;] for two ticks: 64-bit subtraction, then the
    implicit conversion to [double]. *)
Definition lat_sub (a b : Z) : Z := rne53 (u64_sub a b).

(** [x + y] on [latency]. *)
Definition lat_add (x y : Z) : Z := rne53 (x + y).

Lemma u64_range z : 0 <= u64 z < u64_size.
Proof. apply Z.mod_pos_bound. done. Qed.

Lemma to_int_small z : 0 <= z < 2 ^ 31 -> to_int z = z.
Proof. intros Hz. unfold to_int. cbn zeta. rewrite Z.mod_small by lia. by rewrite (proj2 (Z.ltb_lt _ _)) by lia. Qed.

Lemma u64_small z : 0 <= z < u64_size -> u64 z = z.
Proof. apply Z.mod_small. Qed.

Lemma rne53_exact z : Z.abs z <= 2 ^ 53 -> rne53 z = z.
Proof. intros H. unfold rne53. apply Z.leb_le in H. by rewrite H. Qed.

(** The magnitude of a rounded large integer stays within its binade. *)
Lemma rne53_binade z (e := Z.log2 z - 52) :
  2 ^ 53 < z ->
  0 < e /\ exists q', rne53 z = q' * 2 ^ e /\ 2 ^ 52 <= q' <= 2 ^ 53 /\
  z / 2 ^ e <= q' <= z / 2 ^ e + 1 /\
  (q' = z / 2 ^ e \/ 2 ^ (e - 1) <= z mod 2 ^ e).
Proof.
  intros Hz.
  assert (Hl : 53 <= Z.log2 z).
  { change 53 with (Z.log2 (2 ^ 53)). apply Z.log2_le_mono. lia. }
  assert (He : 0 < e) by (unfold e; lia).
  split; [done|]. unfold rne53.
  rewrite Z.abs_eq by lia. destruct (Z.leb_spec z (2 ^ 53)); [lia|].
  rewrite Z.sgn_pos by lia. fold e.
  assert (Hq : 2 ^ 52 <= z / 2 ^ e < 2 ^ 53).
  { destruct (Z.log2_spec z ltac:(lia)) as [H1 H2].
    replace (Z.log2 z) with (52 + e) in H1 by (unfold e; lia).
    replace (Z.succ (Z.log2 z)) with (53 + e) in H2 by (unfold e; lia).
    rewrite Z.pow_add_r in H1, H2 by lia. split.
    - apply Z.div_le_lower_bound; lia.
    - apply Z.div_lt_upper_bound; lia. }
  eexists. split; [by rewrite Z.mul_1_l|].
  repeat case_match; bool_to_prop; lia.
Qed.

Lemma rne53_nonneg z : 0 <= z -> 0 <= rne53 z.
Proof.
  intros Hz. destruct (decide (z <= 2 ^ 53)).
  - rewrite rne53_exact; lia.
  - destruct (rne53_binade z) as (He & q' & -> & Hq & _); [lia|].
    apply Z.mul_nonneg_nonneg; [lia|]. apply Z.pow_nonneg; lia.
Qed.

(** Within one binade the rounded quotients are ordered. *)
Lemma rne53_mono_same a b :
  2 ^ 53 < a -> a <= b -> Z.log2 a = Z.log2 b -> rne53 a <= rne53 b.
Proof.
  intros Ha Hab Hl. unfold rne53.
  rewrite !Z.abs_eq, !Z.sgn_pos, <- Hl by lia.
  destruct (Z.leb_spec a (2 ^ 53)), (Z.leb_spec b (2 ^ 53)); try lia.
  assert (53 <= Z.log2 a).
  { change 53 with (Z.log2 (2 ^ 53)). apply Z.log2_le_mono. lia. }
  set (e := Z.log2 a - 52). assert (He : 0 < 2 ^ e) by (apply Z.pow_pos_nonneg; lia).
  rewrite !Z.mul_1_l. apply Z.mul_le_mono_nonneg_r; [lia|].
  pose proof (Z.div_le_mono a b (2 ^ e) He Hab).
  pose proof (Z.div_mod a (2 ^ e)). pose proof (Z.div_mod b (2 ^ e)).
  destruct (decide (a / 2 ^ e = b / 2 ^ e)) as [Heq|].
  - rewrite Heq. assert (a mod 2 ^ e <= b mod 2 ^ e) by (rewrite Heq in *; lia).
    repeat case_match; bool_to_prop; lia.
  - repeat case_match; lia.
Qed.

Lemma rne53_mono a b : 0 <= a -> a <= b -> rne53 a <= rne53 b.
Proof.
  intros Ha Hab.
  destruct (decide (b <= 2 ^ 53)); [rewrite !rne53_exact; lia|].
  destruct (rne53_binade b) as (Hb & qb & Eb & Hqb & _); [lia|].
  destruct (decide (a <= 2 ^ 53)) as [|Ha'].
  - rewrite (rne53_exact a), Eb by lia. transitivity (2 ^ 52 * 2); [lia|].
    apply Z.mul_le_mono_nonneg; [lia..|].
    change 2 with (2 ^ 1) at 1. apply Z.pow_le_mono_r; lia.
  - pose proof (Z.log2_le_mono a b Hab).
    destruct (decide (Z.log2 a = Z.log2 b)); [apply rne53_mono_same; lia|].
    destruct (rne53_binade a) as (Hae & qa & -> & Hqa & _); [lia|]. rewrite Eb.
    transitivity (2 ^ 53 * 2 ^ (Z.log2 a - 52));
      [apply Z.mul_le_mono_nonneg_r; [apply Z.pow_nonneg; lia|lia]|].
    transitivity (2 ^ 52 * 2 ^ (Z.log2 b - 52));
      [|apply Z.mul_le_mono_nonneg_r; [apply Z.pow_nonneg; lia|lia]].
    rewrite <- !Z.pow_add_r by lia. apply Z.pow_le_mono_r; lia.
Qed.

(** Rounding a rounded value changes nothing. *)
Lemma rne53_multiple q e :
  0 < e -> 2 ^ 52 <= q <= 2 ^ 53 -> rne53 (q * 2 ^ e) = q * 2 ^ e.
Proof.
  intros He Hq. assert (Hp : 0 < 2 ^ e) by (apply Z.pow_pos_nonneg; lia).
  assert (H2 : 2 <= 2 ^ e).
  { change 2 with (2 ^ 1) at 1. apply Z.pow_le_mono_r; lia. }
  assert (Hgt : 2 ^ 53 <= q * 2 ^ e) by nia.
  destruct (decide (q * 2 ^ e = 2 ^ 53)) as [->|Hne]; [by apply rne53_exact|].
  unfold rne53. rewrite Z.abs_eq by lia.
  destruct (Z.leb_spec (q * 2 ^ e) (2 ^ 53)); [lia|].
  rewrite Z.sgn_pos, Z.mul_1_l by lia.
  assert (Hl : Z.log2 (q * 2 ^ e) = Z.log2 q + e) by (rewrite Z.log2_mul_pow2; lia).
  rewrite Hl. destruct (decide (q = 2 ^ 53)) as [->|].
  - change (Z.log2 (2 ^ 53)) with 53. replace (53 + e - 52) with (e + 1) by lia.
    replace (2 ^ 53 * 2 ^ e) with (2 ^ 52 * 2 ^ (e + 1)) by (rewrite Z.pow_add_r; lia).
    rewrite Z.div_mul, Z.mod_mul by (apply Z.pow_nonzero; lia).
    destruct (Z.ltb_spec 0 (2 ^ (e + 1 - 1))) as [|Hn]; [done|].
    pose proof (Z.pow_pos_nonneg 2 (e + 1 - 1)). lia.
  - assert (Hl' : Z.log2 q = 52) by (apply Z.log2_unique; lia).
    rewrite Hl'. replace (52 + e - 52) with e by lia.
    rewrite Z.div_mul, Z.mod_mul by lia.
    destruct (Z.ltb_spec 0 (2 ^ (e - 1))) as [|Hn]; [done|].
    pose proof (Z.pow_pos_nonneg 2 (e - 1)). lia.
Qed.

Lemma rne53_idem z : 0 <= z -> rne53 (rne53 z) = rne53 z.
Proof.
  intros Hz. destruct (decide (z <= 2 ^ 53)).
  - rewrite (rne53_exact z) by lia. apply rne53_exact. lia.
  - destruct (rne53_binade z) as (He & q' & -> & Hq & _); [lia|]. by apply rne53_multiple.
Qed.

Lemma lat_sub_nonneg a b : 0 <= lat_sub a b.
Proof. apply rne53_nonneg, u64_range. Qed.

Lemma lat_add_nonneg x y : 0 <= x -> 0 <= y -> 0 <= lat_add x y.
Proof. intros. apply rne53_nonneg. lia. Qed.

Lemma lat_add_mono x x' y : 0 <= x -> 0 <= y -> x <= x' -> lat_add x y <= lat_add x' y.
Proof. intros. apply rne53_mono; lia. Qed.

(** Without wrap-around, and below 2^53, latencies are exact. *)
Lemma lat_sub_exact a b : 0 <= b <= a -> a < 2 ^ 53 -> lat_sub a b = a - b.
Proof.
  intros. unfold lat_sub, u64_sub. rewrite u64_small by (unfold u64_size; lia).
  apply rne53_exact. lia.
Qed.

Lemma lat_add_exact x y : 0 <= x -> 0 <= y -> x + y <= 2 ^ 53 -> lat_add x y = x + y.
Proof. intros. apply rne53_exact. lia. Qed.

(** A tick difference that goes backwards wraps to nearly 2^64. *)
Lemma lat_sub_wraps a b :
  0 <= a < b -> b < 2 ^ 53 -> 2 ^ 63 < lat_sub a b.
Proof.
  intros. unfold lat_sub, u64_sub, u64.
  rewrite <- (Z.mod_unique (a - b) u64_size (-1) (a - b + u64_size));
    [|left; unfold u64_size; lia|lia].
  apply Z.lt_le_trans with (rne53 (2 ^ 63 + 2 ^ 62)); [by vm_compute|].
  apply rne53_mono; unfold u64_size; lia.
Qed.

#[export] Hint Resolve lat_sub_nonneg lat_add_nonneg : deg.
