(* ===== verification/OrderedMap.v ===== *)
(** * std::map with a comparator

    The analyser keeps its graph, its predecessor map, its two maps of skewed
    edges and the table of longest distances in [std::map]s, each with its own
    comparator (graph/o3.h).  A map is modelled by the list of its entries in
    iteration order.  [om_upd] is [operator[]] followed by an update of the
    entry: an absent key is inserted at its place in the order, a present one
    keeps the key object that was inserted first.  [StrictWeak] states what
    the container requires of a comparator. *)

From S2P Require Import Prelude.

#[local] Open Scope Z_scope.

Class StrictWeak {K} (lt : K -> K -> bool) : Prop := {
  sw_irrefl k : lt k k = false;
  sw_trans a b c : lt a b = true -> lt b c = true -> lt a c = true;
  sw_cotrans a b c : lt a c = true -> lt a b = true \/ lt b c = true
}.

Section omap.
Context {K V : Type} (lt : K -> K -> bool).

(** Keys the container cannot tell apart. *)
Definition om_equiv (a b : K) : Prop := lt a b = false /\ lt b a = false.

Fixpoint om_find (k : K) (m : list (K * V)) : option V :=
  match m with
  | [] => None
  | (k', v) :: m' =>
      if lt k' k then om_find k m'
      else if lt k k' then None else Some v
  end.

Fixpoint om_upd (k : K) (f : option V -> V) (m : list (K * V)) : list (K * V) :=
  match m with
  | [] => [(k, f None)]
  | (k', v) :: m' =>
      if lt k' k then (k', v) :: om_upd k f m'
      else if lt k k' then (k, f None) :: (k', v) :: m'
      else (k', f (Some v)) :: m'
  end.

Definition om_keys (m : list (K * V)) : list K := m.*1.

Definition om_sorted (m : list (K * V)) : Prop :=
  StronglySorted (fun a b => lt a b = true) (om_keys m).

Context `{!StrictWeak lt}.

#[global] Instance om_equiv_equivalence : Equivalence om_equiv.
Proof.
  unfold om_equiv. split.
  - intros a. split; apply sw_irrefl.
  - intros a b [? ?]; done.
  - intros a b c [H1 H2] [H3 H4]. split.
    + destruct (lt a c) eqn:E; [|done].
      destruct (sw_cotrans a b c E); congruence.
    + destruct (lt c a) eqn:E; [|done].
      destruct (sw_cotrans c b a E); congruence.
Qed.

Lemma sw_asym a b : lt a b = true -> lt b a = false.
Proof.
  intros H. destruct (lt b a) eqn:E; [|done].
  pose proof (sw_trans a b a H E). by rewrite sw_irrefl in H0.
Qed.

Lemma om_sorted_cons k v m :
  om_sorted ((k, v) :: m) <->
  Forall (fun k' => lt k k' = true) (om_keys m) /\ om_sorted m.
Proof.
  unfold om_sorted, om_keys. simpl. split.
  - inversion 1; subst. done.
  - intros []. by constructor.
Qed.

Lemma om_upd_keys k f m x :
  x ∈ om_keys (om_upd k f m) -> x = k \/ x ∈ om_keys m.
Proof.
  induction m as [|[k' v] m IH]; simpl; [set_solver|].
  repeat case_match; simpl; set_solver.
Qed.

Lemma om_upd_forall (P : K -> V -> Prop) k f m :
  Forall (fun x => P x.1 x.2) m -> P k (f None) -> (forall k' v, P k' v -> P k' (f (Some v))) ->
  Forall (fun x => P x.1 x.2) (om_upd k f m).
Proof.
  intros Hm HN HS. induction Hm as [|[k' v] m Hv Hm IH]; simpl; [by constructor|].
  repeat case_match; repeat (apply Forall_cons; split); simpl; auto.
Qed.

Lemma om_upd_sorted k f m : om_sorted m -> om_sorted (om_upd k f m).
Proof.
  induction m as [|[k' v] m IH]; intros Hs; simpl.
  - apply om_sorted_cons. split; constructor.
  - pose proof Hs as [Hf Hs']%om_sorted_cons.
    destruct (lt k' k) eqn:E1; [|destruct (lt k k') eqn:E2].
    + apply om_sorted_cons. split; [|by apply IH].
      apply Forall_forall. intros x Hx%om_upd_keys.
      destruct Hx as [->|Hx]; [done|]. by eapply Forall_forall in Hf.
    + apply om_sorted_cons. split; [|done]. simpl. constructor; [done|].
      eapply Forall_impl; [exact Hf|]. simpl. intros x. by apply sw_trans.
    + apply om_sorted_cons. done.
Qed.

(** Reading a map after an update, up to the comparator's equivalence. *)
Lemma om_find_upd_same k k' f m :
  om_equiv k k' -> om_find k' (om_upd k f m) = Some (f (om_find k m)).
Proof.
  intros Hk. assert (Hk' := Hk). destruct Hk' as [H1 H2].
  induction m as [|[k0 v] m IH]; simpl; [by rewrite H1, H2|].
  assert (Hx : forall b, lt k0 k = b -> lt k0 k' = b).
  { intros [] E.
    - destruct (sw_cotrans k0 k' k E); congruence.
    - destruct (lt k0 k') eqn:E'; [|done]. destruct (sw_cotrans k0 k k' E'); congruence. }
  assert (Hy : forall b, lt k k0 = b -> lt k' k0 = b).
  { intros [] E.
    - destruct (sw_cotrans k k' k0 E); congruence.
    - destruct (lt k' k0) eqn:E'; [|done]. destruct (sw_cotrans k' k k0 E'); congruence. }
  destruct (lt k0 k) eqn:E1; [|destruct (lt k k0) eqn:E2]; simpl.
  - by rewrite (Hx _ eq_refl).
  - by rewrite H1, H2.
  - by rewrite (Hx _ eq_refl), (Hy _ eq_refl).
Qed.

Lemma om_find_upd_other k k' f m :
  om_sorted m -> ~ om_equiv k k' -> om_find k' (om_upd k f m) = om_find k' m.
Proof.
  intros Hs Hk. induction m as [|[k0 v] m IH]; simpl.
  - destruct (lt k k') eqn:E1; [done|]. destruct (lt k' k) eqn:E2; [done|].
    by destruct Hk.
  - apply om_sorted_cons in Hs as [Hf Hs]. specialize (IH Hs).
    destruct (lt k0 k) eqn:E1; [|destruct (lt k k0) eqn:E2]; simpl.
    + by rewrite IH.
    + destruct (lt k k') eqn:E3; [done|].
      destruct (lt k' k) eqn:E4; [|by destruct Hk].
      destruct (lt k0 k') eqn:E5.
      * pose proof (sw_trans _ _ _ E5 E4). congruence.
      * by rewrite (sw_trans _ _ _ E4 E2).
    + destruct (lt k0 k') eqn:E3; [done|]. destruct (lt k' k0) eqn:E4; [done|].
      exfalso. apply Hk. transitivity k0; done.
Qed.

(** A sorted map finds exactly its entries. *)
Lemma om_find_elem k m v :
  om_sorted m -> om_find k m = Some v <->
  exists k', om_equiv k k' /\ (k', v) ∈ m.
Proof.
  induction m as [|[k0 v0] m IH]; simpl; intros Hs; [set_solver|].
  apply om_sorted_cons in Hs as [Hf Hs]. specialize (IH Hs).
  rewrite Forall_forall in Hf.
  destruct (lt k0 k) eqn:E1; [|destruct (lt k k0) eqn:E2].
  - rewrite IH. split; intros (k' & Hk & Hin); exists k'; [set_solver|].
    apply elem_of_cons in Hin as [[= -> ->]|]; [|done].
    destruct Hk. congruence.
  - split; [done|]. intros (k' & [Hk1 Hk2] & Hin).
    apply elem_of_cons in Hin as [[= -> ->]|Hin]; [congruence|].
    assert (lt k0 k' = true) by (apply Hf; apply list_elem_of_fmap; by exists (k', v)).
    pose proof (sw_trans _ _ _ E2 H). congruence.
  - split; [intros [= ->]; exists k0; split; [done|]; rewrite elem_of_cons; by eauto|].
    intros (k' & Hk & Hin). apply elem_of_cons in Hin as [[= -> ->]|Hin]; [done|].
    exfalso. assert (lt k0 k' = true) by (apply Hf; apply list_elem_of_fmap; by exists (k', v)).
    assert (Hk0 : om_equiv k0 k') by (transitivity k; done). destruct Hk0. congruence.
Qed.

(** A sorted map holds at most one key of each equivalence class. *)
Lemma om_sorted_unique k1 v1 k2 v2 m :
  om_sorted m -> (k1, v1) ∈ m -> (k2, v2) ∈ m -> om_equiv k1 k2 -> k1 = k2 /\ v1 = v2.
Proof.
  induction m as [|[k0 v0] m IH]; intros Hs H1 H2 He; [set_solver|].
  apply om_sorted_cons in Hs as [Hf Hs]. rewrite Forall_forall in Hf.
  assert (Hlt : forall k v, (k, v) ∈ m -> lt k0 k = true).
  { intros k v Hkv. apply Hf, list_elem_of_fmap. by exists (k, v). }
  apply elem_of_cons in H1 as [[= -> ->]|H1], H2 as [[= -> ->]|H2].
  - done.
  - apply Hlt in H2. destruct He. congruence.
  - apply Hlt in H1. destruct He. congruence.
  - by apply IH.
Qed.

Lemma om_sorted_NoDup m : om_sorted m -> NoDup (om_keys m).
Proof.
  unfold om_sorted. generalize (om_keys m) as l. induction 1 as [|k l ? IH Hf]; [constructor|].
  constructor; [|done]. intros Hk. eapply Forall_forall in Hf; [|exact Hk].
  by rewrite sw_irrefl in Hf.
Qed.

(** [begin()] is the least key. *)
Lemma om_head_least k v m k' :
  om_sorted ((k, v) :: m) -> k' ∈ om_keys ((k, v) :: m) -> lt k' k = false.
Proof.
  intros [Hf _]%om_sorted_cons Hk. rewrite Forall_forall in Hf.
  simpl in Hk. apply elem_of_cons in Hk as [->|Hk]; [apply sw_irrefl|].
  by apply sw_asym, Hf.
Qed.

End omap.

(** Comparators of the shape the code uses: compare one field, then another. *)
Definition lex_lt (a b : Z * Z) : bool :=
  (a.1 <? b.1) || ((a.1 =? b.1) && (a.2 <? b.2)).

Lemma lex_strict_weak {K} (key : K -> Z * Z) lt :
  (forall a b, lt a b = lex_lt (key a) (key b)) -> StrictWeak lt.
Proof.
  intros Hlt. unfold lex_lt in Hlt. split; intros *; rewrite !Hlt; lia.
Qed.

Lemma lex_equiv {K} (key : K -> Z * Z) lt a b :
  (forall a b, lt a b = lex_lt (key a) (key b)) ->
  om_equiv lt a b <-> key a = key b.
Proof.
  intros Hlt. unfold om_equiv. rewrite !Hlt. unfold lex_lt.
  destruct (key a) as [a1 a2], (key b) as [b1 b2]. simpl. split.
  - intros [H1 H2]. f_equal; lia.
  - intros [= -> ->]. lia.
Qed.
