(* ===== verification/External.v ===== *)
(** * The Boost functions the analyser calls

    Boost is not part of the repository, so the functions used from it are
    fields of the class [Boost] and every definition that calls one takes an
    instance.  [BoostLaws] states the documented behaviour that the proofs
    rely on.  [boost_ref] is a concrete instance that satisfies the laws: it is
    what the examples of the library run on, and it shows that the laws can be
    met. *)

From S2P Require Import Prelude.
From stdpp Require Import pretty.

#[local] Open Scope string_scope.
#[local] Open Scope list_scope.
#[local] Open Scope Z_scope.

(** [boost_split line seps] is [boost::split(_, line, boost::is_any_of(seps),
    boost::token_compress_on)], [boost_starts_with s p] is
    [boost::starts_with(s, p)] and [lexical_cast_u64 n] is
    [boost::lexical_cast<std::string>(n)] at type [uint64_t]. *)
Class Boost := {
  boost_split : string -> string -> list string;
  boost_starts_with : string -> string -> bool;
  lexical_cast_u64 : Z -> string
}.

Definition char_of (c : ascii) (s : string) : Prop := c ∈ String.list_ascii_of_string s.

(** Tokens, each after a run of separators: [n] more than one. *)
Fixpoint repeat_char (n : nat) (c : ascii) : string :=
  match n with O => "" | S n' => String c (repeat_char n' c) end.
Fixpoint runs (c : ascii) (l : list (nat * string)) : string :=
  match l with
  | [] => ""
  | (n, t) :: l' => repeat_char (S n) c +:+ t +:+ runs c l'
  end.

Class BoostLaws (B : Boost) : Prop := {
  boost_starts_with_spec s p :
    boost_starts_with s p = true <-> exists r, s = p +:+ r;
  lexical_cast_inj a b :
    0 <= a -> 0 <= b -> lexical_cast_u64 a = lexical_cast_u64 b -> a = b;
  lexical_cast_no_dash n :
    0 <= n -> ~ char_of "-" (lexical_cast_u64 n);
  (** tokens without separator characters, joined by single separators,
      are what splitting gives back *)
  boost_split_join c toks :
    toks <> [] ->
    Forall (fun t => t <> "" /\ ~ char_of c t) toks ->
    boost_split (String.concat (String c "") toks) (String c "") = toks;
  (** adjacent separators count as one; before the first and after the last token
      they leave an empty token *)
  boost_split_runs c t l :
    ~ char_of c t -> Forall (fun p => ~ char_of c p.2) l ->
    Forall (fun p => p.2 <> "") (removelast l) ->
    boost_split (t +:+ runs c l) (String c "") = t :: l.*2
}.

(** ** A concrete instance *)

Definition is_any_of (seps : string) (c : ascii) : bool :=
  existsb (Ascii.eqb c) (String.list_ascii_of_string seps).

(** Splitting with adjacent separators merged: a separator closes the current
    token, and the separators that follow it are skipped. *)
Fixpoint split_go (seps : string) (l : list ascii) (cur : list ascii) (skip : bool)
  : list string :=
  match l with
  | [] => [String.string_of_list_ascii (rev cur)]
  | c :: l' =>
      if is_any_of seps c then
        if skip then split_go seps l' cur true
        else String.string_of_list_ascii (rev cur) :: split_go seps l' [] true
      else split_go seps l' (c :: cur) false
  end.

#[export] Instance boost_ref : Boost := {
  boost_split line seps := split_go seps (String.list_ascii_of_string line) [] false;
  boost_starts_with s p := String.prefix p s;
  lexical_cast_u64 n := pretty (Z.to_N n)
}.

Lemma prefix_spec p s : String.prefix p s = true <-> exists r, s = p +:+ r.
Proof.
  revert s; induction p as [|c p IH]; intros s; simpl.
  - split; [by exists s|by destruct s].
  - destruct s as [|d s]; [split; [discriminate|intros [r Hr]; discriminate]|].
    change (String.prefix (String c p) (String d s))
      with (if Ascii.ascii_dec c d then String.prefix p s else false).
    destruct (Ascii.ascii_dec c d) as [->|]; [rewrite IH|].
    + split; intros [r Hr]; exists r; [by rewrite Hr|by injection Hr].
    + split; [discriminate|]. intros [r Hr]. by injection Hr.
Qed.

Lemma char_of_app c s1 s2 : char_of c (s1 +:+ s2) <-> char_of c s1 \/ char_of c s2.
Proof.
  unfold char_of. induction s1 as [|d s1 IH]; simpl; [set_solver|].
  rewrite !elem_of_cons. rewrite IH. tauto.
Qed.

Lemma pretty_N_go_no_dash x s :
  ~ char_of "-" s -> ~ char_of "-" (pretty_N_go x s).
Proof.
  revert s. induction (N.lt_wf_0 x) as [x _ IH]. intros s Hs.
  destruct (decide (0 < x)%N) as [Hx|Hx].
  - rewrite pretty_N_go_step by done. apply IH; [by apply N.div_lt|].
    unfold char_of in *. simpl. rewrite elem_of_cons. intros [H|H]; [|done].
    revert H. unfold pretty_N_char. repeat case_match; discriminate.
  - replace x with 0%N by lia. by rewrite pretty_N_go_0.
Qed.

Lemma list_ascii_app s1 s2 :
  String.list_ascii_of_string (s1 +:+ s2) =
  String.list_ascii_of_string s1 ++ String.list_ascii_of_string s2.
Proof. induction s1; simpl; [done|]. by rewrite IHs1. Qed.

Lemma is_any_of_single c d : is_any_of (String c "") d = bool_decide (d = c).
Proof.
  unfold is_any_of. simpl. rewrite orb_false_r.
  destruct (Ascii.eqb_spec d c); symmetry;
    [by apply bool_decide_eq_true|by apply bool_decide_eq_false].
Qed.

(** A token is accumulated whole before the next separator is seen. *)
Lemma split_go_token c t rest cur b :
  ~ char_of c t -> (t <> "" \/ b = false) ->
  split_go (String c "") (String.list_ascii_of_string t ++ rest) cur b =
  split_go (String c "") rest (rev (String.list_ascii_of_string t) ++ cur) false.
Proof.
  revert cur b; induction t as [|d t IH]; intros cur b Hc Hb; simpl.
  - destruct Hb as [Hb| ->]; [by destruct Hb|done].
  - rewrite is_any_of_single, bool_decide_false.
    + rewrite IH; [|unfold char_of in *; set_solver|by right].
      by rewrite <- app_assoc.
    + intros ->. apply Hc. unfold char_of. set_solver.
Qed.

Lemma split_go_join c toks b :
  toks <> [] -> Forall (fun t => t <> "" /\ ~ char_of c t) toks ->
  split_go (String c "")
    (String.list_ascii_of_string (String.concat (String c "") toks)) [] b = toks.
Proof.
  revert b; induction toks as [|t toks IH]; intros b Hne Hf; [done|].
  apply Forall_cons in Hf as [[Ht Hc] Hf].
  assert (Hrev : String.string_of_list_ascii (rev (rev (String.list_ascii_of_string t) ++ [])) = t).
  { by rewrite app_nil_r, rev_involutive, String.string_of_list_ascii_of_string. }
  destruct toks as [|t' toks].
  - change (String.concat (String c "") [t]) with t.
    rewrite <- (app_nil_r (String.list_ascii_of_string t)), split_go_token by auto.
    simpl. by rewrite Hrev.
  - change (String.concat (String c "") (t :: t' :: toks))
      with (t +:+ (String c "" +:+ String.concat (String c "") (t' :: toks))).
    rewrite list_ascii_app, split_go_token by auto.
    rewrite list_ascii_app. cbn [app String.list_ascii_of_string split_go].
    rewrite is_any_of_single, bool_decide_true by done.
    rewrite Hrev. f_equal. by apply IH.
Qed.

Lemma split_go_skip c n rest cur :
  split_go (String c "") (String.list_ascii_of_string (repeat_char n c) ++ rest) cur true =
  split_go (String c "") rest cur true.
Proof.
  induction n as [|n IH]; [done|]. cbn [repeat_char String.list_ascii_of_string app split_go].
  by rewrite is_any_of_single, bool_decide_true.
Qed.

Lemma split_go_runs c l cur :
  Forall (fun p => ~ char_of c p.2) l -> Forall (fun p => p.2 <> "") (removelast l) ->
  split_go (String c "") (String.list_ascii_of_string (runs c l)) cur false =
  String.string_of_list_ascii (rev cur) :: l.*2.
Proof.
  revert cur; induction l as [|[n t] l IH]; intros cur Hc Hn; [done|].
  apply Forall_cons in Hc as [Ht Hc]. cbn [snd] in Ht.
  change (runs c ((n, t) :: l)) with (String c (repeat_char n c) +:+ t +:+ runs c l).
  rewrite !list_ascii_app. cbn [String.list_ascii_of_string app split_go].
  rewrite is_any_of_single, bool_decide_true by done. cbn [fmap list_fmap snd]. f_equal.
  rewrite split_go_skip.
  assert (Hrev : String.string_of_list_ascii (rev (rev (String.list_ascii_of_string t) ++ [])) = t).
  { by rewrite app_nil_r, rev_involutive, String.string_of_list_ascii_of_string. }
  destruct l as [|p l].
  - cbn [runs String.list_ascii_of_string]. destruct t as [|d t]; [done|].
    rewrite split_go_token by auto. cbn [split_go]. by rewrite Hrev.
  - change (removelast ((n, t) :: p :: l)) with ((n, t) :: removelast (p :: l)) in Hn.
    apply Forall_cons in Hn as [Hne Hn]. rewrite split_go_token by auto.
    rewrite IH by done. by rewrite Hrev.
Qed.

#[export] Instance boost_ref_laws : BoostLaws boost_ref.
Proof.
  split; simpl.
  - intros s p. apply prefix_spec.
  - intros a b Ha Hb H%(inj pretty). lia.
  - intros n _. unfold pretty, pretty_N. case_decide.
    + unfold char_of. simpl. rewrite list_elem_of_singleton. discriminate.
    + apply pretty_N_go_no_dash. unfold char_of. simpl. set_solver.
  - intros c toks. apply split_go_join.
  - intros c t l Ht Hc Hn. rewrite list_ascii_app, split_go_token by auto.
    rewrite split_go_runs by done.
    by rewrite app_nil_r, rev_involutive, String.string_of_list_ascii_of_string.
Qed.

(** ** Boost.Graph

    [boost::adjacency_list<vecS, vecS, directedS, VP, EP>] with its Graphviz writer,
    and the functions of Boost.Filesystem on paths: vertices in the order of their
    descriptors, edges with their ends. *)
Class BoostPicture (VP EP : Type) := {
  bg_t : Type;
  bg_empty : bg_t;
  bg_vertices : bg_t -> list VP;
  bg_edges : bg_t -> list (nat * nat * EP);
  bg_name : bg_t -> string;
  bg_add_vertex : VP -> bg_t -> nat * bg_t;
  bg_add_edge : nat -> nat -> EP -> bg_t -> bg_t;
  bg_set_name : string -> bg_t -> bg_t;
  bg_write_graphviz : bg_t -> (nat -> string) -> (nat * nat * EP -> string) -> string -> string;
  fs_parent_path : string -> string;
  fs_stem : string -> string
}.

Class BoostPictureLaws {VP EP : Type} (G : BoostPicture VP EP) : Prop := {
  bg_empty_vertices : bg_vertices bg_empty = [];
  bg_empty_edges : bg_edges bg_empty = [];
  bg_add_vertex_id v g : (bg_add_vertex v g).1 = length (bg_vertices g);
  bg_add_vertex_vertices v g : bg_vertices (bg_add_vertex v g).2 = bg_vertices g ++ [v];
  bg_add_vertex_edges v g : bg_edges (bg_add_vertex v g).2 = bg_edges g;
  bg_add_edge_vertices a b e g : bg_vertices (bg_add_edge a b e g) = bg_vertices g;
  bg_add_edge_edges a b e g : bg_edges (bg_add_edge a b e g) ≡ₚ (a, b, e) :: bg_edges g;
  bg_set_name_vertices n g : bg_vertices (bg_set_name n g) = bg_vertices g;
  bg_set_name_edges n g : bg_edges (bg_set_name n g) = bg_edges g;
  bg_set_name_name n g : bg_name (bg_set_name n g) = n
}.

(** Text of the writers. *)
Definition quote : string := String (Ascii.ascii_of_nat 34) "".
Definition backslash_n : string := String (Ascii.ascii_of_nat 92) "n".
Definition newline : string := String (Ascii.ascii_of_nat 10) "".

(** *** Pictures with one vertex for each key *)

Section picture.
Context {VP EP K X : Type} `{G : BoostPicture VP EP} `{HG : !BoostPictureLaws G}.
Context (key : VP -> K) (show : X -> K * K * EP).

(** An edge of the picture with the keys of its ends. *)
Definition shown (vs : list VP) (d : nat * nat * EP) : option K * option K * EP :=
  (key <$> vs !! d.1.1, key <$> vs !! d.1.2, d.2).
Definition to_show (x : X) : option K * option K * EP :=
  (Some (show x).1.1, Some (show x).1.2, (show x).2).

(** Each of [L] is an edge of the picture, between vertices that stand for its ends,
    and no two vertices have the same key. *)
Record drawn (g : bg_t) (L : list X) : Prop := {
  dr_nodup : NoDup (key <$> bg_vertices g);
  dr_range : Forall (fun d => d.1.1 < length (bg_vertices g) /\ d.1.2 < length (bg_vertices g))%nat
               (bg_edges g);
  dr_edges : shown (bg_vertices g) <$> bg_edges g ≡ₚ to_show <$> L
}.

Lemma drawn_empty : drawn bg_empty [].
Proof using HG. split; rewrite ?bg_empty_vertices, ?bg_empty_edges; [constructor|constructor|done]. Qed.

Lemma drawn_perm g L L' : L ≡ₚ L' -> drawn g L -> drawn g L'.
Proof using. intros HL [N1 N2 N3]. split; [done|done|]. by rewrite N3, HL. Qed.

Lemma drawn_same g L L' : show <$> L ≡ₚ show <$> L' -> drawn g L -> drawn g L'.
Proof using.
  intros HL [N1 N2 N3]. split; [done|done|]. rewrite N3.
  change (to_show <$> L) with ((fun d => (Some d.1.1, Some d.1.2, d.2)) ∘ show <$> L).
  change (to_show <$> L') with ((fun d => (Some d.1.1, Some d.1.2, d.2)) ∘ show <$> L').
  by rewrite !list_fmap_compose, HL.
Qed.

Lemma drawn_name n g L : drawn g L -> drawn (bg_set_name n g) L.
Proof using HG.
  intros [N1 N2 N3]. split; rewrite ?bg_set_name_vertices, ?bg_set_name_edges; done.
Qed.

(** Searching for the first vertex with a key. *)
Lemma find_key_some (P : VP -> Prop) `{!forall w, Decision (P w)} x vs k :
  (forall w, P w -> key w = x) -> fst <$> list_find P vs = Some k -> key <$> vs !! k = Some x.
Proof using.
  intros HP. destruct (list_find P vs) as [[k' w]|] eqn:E; [|discriminate]. intros [= <-].
  apply list_find_Some in E as (-> & Hw & _). cbn. by rewrite (HP w Hw).
Qed.
Lemma find_key_none (P : VP -> Prop) `{!forall w, Decision (P w)} x vs :
  (forall w, key w = x -> P w) -> fst <$> list_find P vs = None -> x ∉ key <$> vs.
Proof using.
  intros HP. destruct (list_find P vs) as [|] eqn:E; [discriminate|]. intros _.
  apply list_find_None in E. rewrite Forall_forall in E.
  intros (w & Hk & Hw)%list_elem_of_fmap. by apply (E w Hw), HP.
Qed.

(** A vertex is searched for before it is added. *)
Context (find : VP -> bg_t -> option nat).
Definition place (v : VP) (g : bg_t) : nat * bg_t :=
  match find v g with None => bg_add_vertex v g | Some k => (k, g) end.
Definition connect (g : bg_t) (x : VP * VP * EP) : bg_t :=
  let '(v1, g) := place x.1.1 g in
  let '(v2, g) := place x.1.2 g in
  bg_add_edge v1 v2 x.2 g.

Context (Hsome : forall v g k, find v g = Some k -> key <$> bg_vertices g !! k = Some (key v)).
Context (Hnone : forall v g, find v g = None -> key v ∉ key <$> bg_vertices g).

Lemma place_ok g L v :
  drawn g L ->
  let '(k, g') := place v g in
  drawn g' L /\ key <$> bg_vertices g' !! k = Some (key v) /\ bg_vertices g `prefix_of` bg_vertices g'.
Proof using HG Hsome Hnone.
  intros [H1 H2 H3]. unfold place. destruct (find v g) as [k|] eqn:E.
  - split; [done|]. split; [by apply Hsome|done].
  - pose proof (bg_add_vertex_id v g) as Hid. pose proof (bg_add_vertex_vertices v g) as Hvs.
    pose proof (bg_add_vertex_edges v g) as Hes.
    destruct (bg_add_vertex v g) as [k g']. simpl in *. subst k. split; [split|split].
    + rewrite Hvs, fmap_app. apply NoDup_app. split; [done|]. split; [|apply NoDup_singleton].
      intros x Hx Hv%list_elem_of_singleton. subst x. by apply (Hnone v g E).
    + rewrite Hes, Hvs, length_app. eapply Forall_impl; [exact H2|]. simpl. lia.
    + rewrite Hes, <- H3. apply reflexive_eq. apply list_fmap_ext. intros i d Hd.
      rewrite Forall_forall in H2. apply list_elem_of_lookup_2, H2 in Hd.
      unfold shown. rewrite Hvs, !lookup_app_l by tauto. done.
    + rewrite Hvs, lookup_app_r, Nat.sub_diag by lia. done.
    + rewrite Hvs. by exists [v].
Qed.

Lemma prefix_lookup_key (vs vs' : list VP) k x :
  vs `prefix_of` vs' -> key <$> vs !! k = Some x -> key <$> vs' !! k = Some x.
Proof using.
  intros [r ->] Hk. destruct (vs !! k) as [w|] eqn:E; [|done].
  by rewrite (lookup_app_l_Some _ _ _ _ E).
Qed.

Lemma connect_ok g L x y :
  show y = (key x.1.1, key x.1.2, x.2) -> drawn g L -> drawn (connect g x) (y :: L).
Proof using HG Hsome Hnone.
  intros Hy Hd. unfold connect.
  pose proof (place_ok g L x.1.1 Hd) as H1. destruct (place x.1.1 g) as [v1 g1].
  destruct H1 as (Hd1 & Hk1 & _). pose proof (place_ok g1 L x.1.2 Hd1) as H2.
  destruct (place x.1.2 g1) as [v2 g2].
  destruct H2 as ([N1 N2 N3] & Hk2 & Hpre). apply (prefix_lookup_key _ _ _ _ Hpre) in Hk1. split.
  - by rewrite bg_add_edge_vertices.
  - rewrite bg_add_edge_edges, bg_add_edge_vertices. constructor; [|done]. simpl.
    destruct (bg_vertices g2 !! v1) eqn:E1; [|done]. destruct (bg_vertices g2 !! v2) eqn:E2; [|done].
    split; by eapply lookup_lt_Some.
  - rewrite bg_add_edge_edges, bg_add_edge_vertices. csimpl. rewrite N3.
    unfold shown at 1, to_show at 2. simpl. by rewrite Hk1, Hk2, Hy.
Qed.

(** What holds of both ends holds of every vertex. *)
Lemma connect_all (P : VP -> Prop) g x :
  P x.1.1 -> P x.1.2 -> Forall P (bg_vertices g) -> Forall P (bg_vertices (connect g x)).
Proof using HG.
  assert (Hp : forall v g, P v -> Forall P (bg_vertices g) -> Forall P (bg_vertices (place v g).2)).
  { intros v g' Hv Hg. unfold place. destruct (find v g'); [done|].
    rewrite bg_add_vertex_vertices. by apply Forall_app, conj, Forall_singleton. }
  intros H1 H2 Hg. unfold connect. apply (Hp _ g H1) in Hg. destruct (place x.1.1 g) as [v1 g1].
  apply (Hp _ g1 H2) in Hg. destruct (place x.1.2 g1) as [v2 g2]. by rewrite bg_add_edge_vertices.
Qed.
End picture.

(** *** A concrete instance *)

Record bg_ref (VP EP : Type) := mkBg {
  br_vertices : list VP;
  br_edges : list (nat * nat * EP);
  br_name : string
}.
Arguments mkBg {VP EP}.
Arguments br_vertices {VP EP}.
Arguments br_edges {VP EP}.
Arguments br_name {VP EP}.

#[export] Instance bgl_ref (VP EP : Type) : BoostPicture VP EP := {
  bg_t := bg_ref VP EP;
  bg_empty := mkBg [] [] "";
  bg_vertices := br_vertices;
  bg_edges := br_edges;
  bg_name := br_name;
  bg_add_vertex v g := (length (br_vertices g), mkBg (br_vertices g ++ [v]) (br_edges g) (br_name g));
  bg_add_edge a b e g := mkBg (br_vertices g) (br_edges g ++ [(a, b, e)]) (br_name g);
  bg_set_name n g := mkBg (br_vertices g) (br_edges g) n;
  bg_write_graphviz g vw ew hdr :=
    let newline := String (Ascii.ascii_of_nat 10) "" in
    hdr +:+ String.concat newline (map vw (seq 0 (length (br_vertices g))) ++ map ew (br_edges g));
  fs_parent_path p := ".";
  fs_stem p := p
}.

#[export] Instance bgl_ref_laws VP EP : BoostPictureLaws (bgl_ref VP EP).
Proof.
  split; try done. intros a b e g. simpl. symmetry. apply Permutation_cons_append.
Qed.
