(* ===== verification/Instruction.v ===== *)
(** * Instructions of a trace

    instruction/riscv_instruction.h: the [InstType] of an instruction, the
    [Tick] record of its pipeline events (in cycles), the
    [RiscvInstruction] with its accessors, its classification predicates and
    its equality.  The base class member [line] (the raw text) is not part of
    the record: nothing reads it, copying drops it and [operator==] ignores it. *)

From S2P Require Import Prelude Machine External.

#[local] Open Scope string_scope.
#[local] Open Scope list_scope.
#[local] Open Scope Z_scope.

Inductive InstType :=
| MemRead | FloatMemRead | MemWrite | FloatMemWrite
| IntAlu | IntMult | IntDiv
| FloatAdd | FloatCmp | FloatCvt
| FloatMult | FloatMultAcc | FloatMisc | FloatDiv | FloatSqrt
| NoOpClass.

#[global] Instance InstType_eq_dec : EqDecision InstType.
Proof. solve_decision. Defined.

(** The table [inst_type]. *)
Definition inst_type_name (t : InstType) : string :=
  match t with
  | MemRead => "MemRead" | FloatMemRead => "FloatMemRead"
  | MemWrite => "MemWrite" | FloatMemWrite => "FloatMemWrite"
  | IntAlu => "IntAlu" | IntMult => "IntMult" | IntDiv => "IntDiv"
  | FloatAdd => "FloatAdd" | FloatCmp => "FloatCmp" | FloatCvt => "FloatCvt"
  | FloatMult => "FloatMult" | FloatMultAcc => "FloatMultAcc"
  | FloatMisc => "FloatMisc" | FloatDiv => "FloatDiv" | FloatSqrt => "FloatSqrt"
  | NoOpClass => "NoOpClass"
  end.

Record Tick := mkTick {
  t_fetch_cache_line : Z;
  t_process_cache_completion : Z;
  t_fetch : Z;
  t_decode_sort_insts : Z;
  t_decode : Z;
  t_rename_sort_insts : Z;
  t_block_from_rob : Z;
  t_block_from_rf : Z;
  t_block_from_iq : Z;
  t_block_from_lq : Z;
  t_block_from_sq : Z;
  t_rename : Z;
  t_dispatch : Z;
  t_insert_ready_list : Z;
  t_issue : Z;
  t_memory : Z;
  t_complete : Z;
  t_complete_memory : Z;
  t_commit_head : Z;
  t_commit : Z
}.

Record RiscvInstruction := mkInst {
  inst : string;
  inst_type : InstType;
  pc : Z;
  event_tick : Tick;
  inst_seq : Z;
  src : list Z;
  dst : Z;
  rob : Z;
  lq : Z;
  sq : Z;
  iq : Z;
  fu : Z
}.

#[global] Instance Tick_eq_dec : EqDecision Tick.
Proof. solve_decision. Defined.
#[global] Instance RiscvInstruction_eq_dec : EqDecision RiscvInstruction.
Proof. solve_decision. Defined.

(** ** Event times *)

Definition fetch_cache_line (i : RiscvInstruction) := t_fetch_cache_line (event_tick i).
Definition process_cache_completion (i : RiscvInstruction) := t_process_cache_completion (event_tick i).
Definition fetch (i : RiscvInstruction) := t_fetch (event_tick i).
Definition decode_sort_insts (i : RiscvInstruction) := t_decode_sort_insts (event_tick i).
Definition decode (i : RiscvInstruction) := t_decode (event_tick i).
Definition rename_sort_insts (i : RiscvInstruction) := t_rename_sort_insts (event_tick i).
Definition block_from_rob (i : RiscvInstruction) := t_block_from_rob (event_tick i).
Definition block_from_rf (i : RiscvInstruction) := t_block_from_rf (event_tick i).
Definition block_from_iq (i : RiscvInstruction) := t_block_from_iq (event_tick i).
Definition block_from_lq (i : RiscvInstruction) := t_block_from_lq (event_tick i).
Definition block_from_sq (i : RiscvInstruction) := t_block_from_sq (event_tick i).
Definition rename (i : RiscvInstruction) := t_rename (event_tick i).
Definition dispatch (i : RiscvInstruction) := t_dispatch (event_tick i).
Definition insert_ready_list (i : RiscvInstruction) := t_insert_ready_list (event_tick i).
Definition issue (i : RiscvInstruction) := t_issue (event_tick i).
Definition memory (i : RiscvInstruction) := t_memory (event_tick i).
Definition complete (i : RiscvInstruction) := t_complete (event_tick i).
Definition complete_memory (i : RiscvInstruction) := t_complete_memory (event_tick i).
Definition commit_head (i : RiscvInstruction) := t_commit_head (event_tick i).
Definition commit (i : RiscvInstruction) := t_commit (event_tick i).

(** ** Equality *)

Definition Tick_eqb (a b : Tick) : bool :=
  (t_fetch_cache_line a =? t_fetch_cache_line b) &&
  (t_process_cache_completion a =? t_process_cache_completion b) &&
  (t_fetch a =? t_fetch b) &&
  (t_decode_sort_insts a =? t_decode_sort_insts b) &&
  (t_decode a =? t_decode b) &&
  (t_rename_sort_insts a =? t_rename_sort_insts b) &&
  (t_block_from_rob a =? t_block_from_rob b) &&
  (t_block_from_rf a =? t_block_from_rf b) &&
  (t_block_from_iq a =? t_block_from_iq b) &&
  (t_block_from_lq a =? t_block_from_lq b) &&
  (t_block_from_sq a =? t_block_from_sq b) &&
  (t_rename a =? t_rename b) &&
  (t_dispatch a =? t_dispatch b) &&
  (t_insert_ready_list a =? t_insert_ready_list b) &&
  (t_issue a =? t_issue b) &&
  (t_memory a =? t_memory b) &&
  (t_complete a =? t_complete b) &&
  (t_complete_memory a =? t_complete_memory b) &&
  (t_commit_head a =? t_commit_head b) &&
  (t_commit a =? t_commit b).

Definition inst_eqb (a b : RiscvInstruction) : bool :=
  String.eqb (inst a) (inst b) &&
  bool_decide (inst_type a = inst_type b) &&
  (pc a =? pc b) &&
  Tick_eqb (event_tick a) (event_tick b) &&
  (inst_seq a =? inst_seq b) &&
  bool_decide (src a = src b) &&
  (dst a =? dst b) &&
  (rob a =? rob b) &&
  (lq a =? lq b) &&
  (sq a =? sq b) &&
  (iq a =? iq b) &&
  (fu a =? fu b).

Lemma Tick_eqb_eq a b : Tick_eqb a b = true <-> a = b.
Proof.
  split.
  - intros H. unfold Tick_eqb in H. bool_to_prop.
    destruct a, b; simpl in *. by subst.
  - intros ->. unfold Tick_eqb. by rewrite !Z.eqb_refl.
Qed.

Lemma inst_eqb_eq a b : inst_eqb a b = true <-> a = b.
Proof.
  split.
  - intros H. unfold inst_eqb in H. bool_to_prop.
    repeat match goal with
    | H : Tick_eqb _ _ = true |- _ => apply Tick_eqb_eq in H
    | H : String.eqb _ _ = true |- _ => apply String.eqb_eq in H
    end.
    destruct a, b; simpl in *. by subst.
  - intros ->. unfold inst_eqb.
    rewrite !Z.eqb_refl, String.eqb_refl, (proj2 (Tick_eqb_eq _ _) eq_refl),
      !bool_decide_true by done. done.
Qed.

(** ** Classification *)

Definition type_in (i : RiscvInstruction) (l : list InstType) : bool :=
  bool_decide (inst_type i ∈ l).

Definition is_mem (i : RiscvInstruction) : bool :=
  type_in i [MemRead; FloatMemRead; MemWrite; FloatMemWrite].
Definition is_load (i : RiscvInstruction) : bool :=
  type_in i [MemRead; FloatMemRead].
Definition is_store (i : RiscvInstruction) : bool :=
  type_in i [MemWrite; FloatMemWrite].
Definition use_int_alu (i : RiscvInstruction) : bool :=
  bool_decide (inst_type i = IntAlu).
Definition use_int_mult_div (i : RiscvInstruction) : bool :=
  type_in i [IntMult; IntDiv].
Definition use_fp_alu (i : RiscvInstruction) : bool :=
  type_in i [FloatAdd; FloatCmp; FloatCvt].
Definition use_fp_mult_div (i : RiscvInstruction) : bool :=
  type_in i [FloatMult; FloatMultAcc; FloatMisc; FloatDiv; FloatSqrt].
Definition use_rd_wr_port (i : RiscvInstruction) : bool :=
  type_in i [MemRead; MemWrite; FloatMemRead; FloatMemWrite].
Definition use_int_rf (i : RiscvInstruction) : bool :=
  type_in i [IntAlu; IntMult; IntDiv; MemRead; MemWrite; FloatMemRead; FloatMemWrite].
Definition use_fp_rf (i : RiscvInstruction) : bool :=
  type_in i [FloatAdd; FloatCmp; FloatCvt].

Lemma mem_load_or_store i : is_mem i = is_load i || is_store i.
Proof. unfold is_mem, is_load, is_store, type_in. by destruct (inst_type i). Qed.

Lemma load_not_store i : is_load i = true -> is_store i = false.
Proof. unfold is_load, is_store, type_in. by destruct (inst_type i). Qed.

Section with_boost.
Context `{B : Boost}.

(** [starts_with] of common/utils.cc. *)
Definition starts_with (s p : string) : bool := boost_starts_with s p.

Definition is_control (i : RiscvInstruction) : bool :=
  starts_with (inst i) "beq" || starts_with (inst i) "bne" ||
  starts_with (inst i) "bltu" || starts_with (inst i) "blt" ||
  starts_with (inst i) "bgeu" || starts_with (inst i) "bge" ||
  starts_with (inst i) "jalr" || starts_with (inst i) "jal" ||
  starts_with (inst i) "c_beqz".

Definition use_bpu (i : RiscvInstruction) : bool :=
  starts_with (inst i) "beq" || starts_with (inst i) "bne" ||
  starts_with (inst i) "bltu" || starts_with (inst i) "blt" ||
  starts_with (inst i) "bgeu" || starts_with (inst i) "bge".

Definition use_btb (i : RiscvInstruction) : bool :=
  use_bpu i || (starts_with (inst i) "jal" && negb (starts_with (inst i) "jalr")).

End with_boost.
