(* ===== verification/Bottleneck.v ===== *)
(** * Bottleneck kinds and the bottleneck report

    graph/bottleneck.h and graph/bottleneck.cc.  A [Bottleneck] object is its
    name; the derived classes fix the name.  [register_bottlenecks] lists the
    names in the order of the enumeration [BIdx], which the analyser uses to
    index that list.  A [BottleneckReport] has one [latency] member per kind
    and the path length; the members are kept as one counter per [BIdx]. *)

From S2P Require Import Prelude Machine.

#[local] Open Scope string_scope.
#[local] Open Scope list_scope.
#[local] Open Scope Z_scope.

Inductive BIdx :=
| BTK_Base | BTK_IcacheMiss | BTK_DcacheMiss | BTK_BPMiss
| BTK_ROB | BTK_LQ | BTK_SQ | BTK_IntRF
| BTK_FpRF | BTK_IQ | BTK_IntAlu | BTK_IntMultDiv
| BTK_FpAlu | BTK_FpMultDiv | BTK_RdWrPort | BTK_RAW
| BTK_Virtual.

#[global] Instance BIdx_eq_dec : EqDecision BIdx.
Proof. solve_decision. Defined.

(** The position of an enumerator. *)
Definition BIdx_to_nat (b : BIdx) : nat :=
  match b with
  | BTK_Base => 0
  | BTK_IcacheMiss => 1
  | BTK_DcacheMiss => 2
  | BTK_BPMiss => 3
  | BTK_ROB => 4
  | BTK_LQ => 5
  | BTK_SQ => 6
  | BTK_IntRF => 7
  | BTK_FpRF => 8
  | BTK_IQ => 9
  | BTK_IntAlu => 10
  | BTK_IntMultDiv => 11
  | BTK_FpAlu => 12
  | BTK_FpMultDiv => 13
  | BTK_RdWrPort => 14
  | BTK_RAW => 15
  | BTK_Virtual => 16
  end%nat.

Definition all_BIdx : list BIdx :=
  [BTK_Base; BTK_IcacheMiss; BTK_DcacheMiss; BTK_BPMiss;
   BTK_ROB; BTK_LQ; BTK_SQ; BTK_IntRF;
   BTK_FpRF; BTK_IQ; BTK_IntAlu; BTK_IntMultDiv;
   BTK_FpAlu; BTK_FpMultDiv; BTK_RdWrPort; BTK_RAW;
   BTK_Virtual].

(** A [Bottleneck] is the name it was constructed with; [__repr__] returns
    it. *)
Record Bottleneck := mkBottleneck { name : string }.
Definition __repr__ (b : Bottleneck) : string := name b.

Definition Base : Bottleneck := mkBottleneck "Base".
Definition IcacheMiss : Bottleneck := mkBottleneck "I-cache miss".
Definition DcacheMiss : Bottleneck := mkBottleneck "D-cache miss".
Definition BPMiss : Bottleneck := mkBottleneck "BP miss".
Definition ROB : Bottleneck := mkBottleneck "Lack ROB".
Definition LQ : Bottleneck := mkBottleneck "Lack LQ".
Definition SQ : Bottleneck := mkBottleneck "Lack SQ".
Definition IntRF : Bottleneck := mkBottleneck "Lack INT RF".
Definition FpRF : Bottleneck := mkBottleneck "Lack FP RF".
Definition IQ : Bottleneck := mkBottleneck "Lack IQ".
Definition IntALU : Bottleneck := mkBottleneck "Lack IntAlu".
Definition IntMultDiv : Bottleneck := mkBottleneck "Lack IntMultDiv".
Definition FpAlu : Bottleneck := mkBottleneck "Lack FpAlu".
Definition FpMultDiv : Bottleneck := mkBottleneck "Lack FpMultDiv".
Definition RdWrPort : Bottleneck := mkBottleneck "Lack RdWrPort".
Definition RAW : Bottleneck := mkBottleneck "Read after write dependence".
Definition Virtual : Bottleneck := mkBottleneck "Virtual".

Definition register_bottleneck (bottlenecks : list string) (b : Bottleneck) : list string :=
  bottlenecks ++ [__repr__ b].

Definition register_bottlenecks : list string :=
  let bottlenecks := [] in
  let bottlenecks := register_bottleneck bottlenecks Base in
  let bottlenecks := register_bottleneck bottlenecks IcacheMiss in
  let bottlenecks := register_bottleneck bottlenecks DcacheMiss in
  let bottlenecks := register_bottleneck bottlenecks BPMiss in
  let bottlenecks := register_bottleneck bottlenecks ROB in
  let bottlenecks := register_bottleneck bottlenecks LQ in
  let bottlenecks := register_bottleneck bottlenecks SQ in
  let bottlenecks := register_bottleneck bottlenecks IntRF in
  let bottlenecks := register_bottleneck bottlenecks FpRF in
  let bottlenecks := register_bottleneck bottlenecks IQ in
  let bottlenecks := register_bottleneck bottlenecks IntALU in
  let bottlenecks := register_bottleneck bottlenecks IntMultDiv in
  let bottlenecks := register_bottleneck bottlenecks FpAlu in
  let bottlenecks := register_bottleneck bottlenecks FpMultDiv in
  let bottlenecks := register_bottleneck bottlenecks RdWrPort in
  let bottlenecks := register_bottleneck bottlenecks RAW in
  let bottlenecks := register_bottleneck bottlenecks Virtual in
  bottlenecks.

(** The bottleneck registered at an index. *)
Definition bottleneck_of (b : BIdx) : Bottleneck :=
  match b with
  | BTK_Base => Base
  | BTK_IcacheMiss => IcacheMiss
  | BTK_DcacheMiss => DcacheMiss
  | BTK_BPMiss => BPMiss
  | BTK_ROB => ROB
  | BTK_LQ => LQ
  | BTK_SQ => SQ
  | BTK_IntRF => IntRF
  | BTK_FpRF => FpRF
  | BTK_IQ => IQ
  | BTK_IntAlu => IntALU
  | BTK_IntMultDiv => IntMultDiv
  | BTK_FpAlu => FpAlu
  | BTK_FpMultDiv => FpMultDiv
  | BTK_RdWrPort => RdWrPort
  | BTK_RAW => RAW
  | BTK_Virtual => Virtual
  end.

(** ** The report *)

Record BottleneckReport := mkReport {
  report_length : Z;
  counter : BIdx -> Z
}.

Definition BottleneckReport_new : BottleneckReport := mkReport 0 (fun _ => 0).

Definition bump (b : BIdx) (r : BottleneckReport) (delay : Z) : BottleneckReport :=
  mkReport (report_length r)
    (fun b' => if decide (b' = b) then lat_add (counter r b') delay else counter r b').

Definition incr_base := bump BTK_Base.
Definition incr_icache_miss := bump BTK_IcacheMiss.
Definition incr_dcache_miss := bump BTK_DcacheMiss.
Definition incr_bp_miss := bump BTK_BPMiss.
Definition incr_rob := bump BTK_ROB.
Definition incr_lq := bump BTK_LQ.
Definition incr_sq := bump BTK_SQ.
Definition incr_int_rf := bump BTK_IntRF.
Definition incr_fp_rf := bump BTK_FpRF.
Definition incr_iq := bump BTK_IQ.
Definition incr_int_alu := bump BTK_IntAlu.
Definition incr_int_mult_div := bump BTK_IntMultDiv.
Definition incr_fp_alu := bump BTK_FpAlu.
Definition incr_fp_mult_div := bump BTK_FpMultDiv.
Definition incr_rd_wr_port := bump BTK_RdWrPort.
Definition incr_raw := bump BTK_RAW.
Definition incr_virtual := bump BTK_Virtual.

Definition set_length (r : BottleneckReport) (l : Z) : BottleneckReport :=
  mkReport l (counter r).
Definition get_length (r : BottleneckReport) : Z := report_length r.

Definition get_base (r : BottleneckReport) := counter r BTK_Base.
Definition get_icache_miss (r : BottleneckReport) := counter r BTK_IcacheMiss.
Definition get_dcache_miss (r : BottleneckReport) := counter r BTK_DcacheMiss.
Definition get_bp_miss (r : BottleneckReport) := counter r BTK_BPMiss.
Definition get_lack_rob (r : BottleneckReport) := counter r BTK_ROB.
Definition get_lack_lq (r : BottleneckReport) := counter r BTK_LQ.
Definition get_lack_sq (r : BottleneckReport) := counter r BTK_SQ.
Definition get_lack_int_rf (r : BottleneckReport) := counter r BTK_IntRF.
Definition get_lack_fp_rf (r : BottleneckReport) := counter r BTK_FpRF.
Definition get_lack_iq (r : BottleneckReport) := counter r BTK_IQ.
Definition get_lack_int_alu (r : BottleneckReport) := counter r BTK_IntAlu.
Definition get_lack_int_mult_div (r : BottleneckReport) := counter r BTK_IntMultDiv.
Definition get_lack_fp_alu (r : BottleneckReport) := counter r BTK_FpAlu.
Definition get_lack_fp_mult_div (r : BottleneckReport) := counter r BTK_FpMultDiv.
Definition get_lack_rd_wr_port (r : BottleneckReport) := counter r BTK_RdWrPort.
Definition get_raw (r : BottleneckReport) := counter r BTK_RAW.
Definition get_virtual (r : BottleneckReport) := counter r BTK_Virtual.

(** ** Facts *)

(** The registered list is indexed by the enumeration. *)
Lemma register_bottlenecks_lookup b :
  register_bottlenecks !! BIdx_to_nat b = Some (__repr__ (bottleneck_of b)).
Proof. by destruct b. Qed.

Lemma register_bottlenecks_NoDup : NoDup register_bottlenecks.
Proof. apply (bool_decide_unpack _). by vm_compute. Qed.

Lemma all_BIdx_complete b : b ∈ all_BIdx.
Proof. destruct b; unfold all_BIdx; set_solver. Qed.

Lemma all_BIdx_NoDup : NoDup all_BIdx.
Proof. apply (bool_decide_unpack _). by vm_compute. Qed.

(** Distinct kinds have distinct names. *)
Lemma bottleneck_of_inj a b :
  __repr__ (bottleneck_of a) = __repr__ (bottleneck_of b) -> a = b.
Proof. by destruct a, b. Qed.

Definition counters_total (r : BottleneckReport) : Z :=
  foldr (fun b acc => counter r b + acc) 0 all_BIdx.

Lemma sum_bump (f : BIdx -> Z) b d l :
  NoDup l ->
  foldr (fun b' acc => (if decide (b' = b) then f b' + d else f b') + acc) 0 l =
  foldr (fun b' acc => f b' + acc) 0 l + (if decide (b ∈ l) then d else 0).
Proof.
  induction l as [|x l IH]; intros Hnd.
  - rewrite (decide_False (P := b ∈ [])) by set_solver. done.
  - cbn [foldr]. apply NoDup_cons in Hnd as [Hx Hnd]. rewrite (IH Hnd).
    destruct (decide (x = b)) as [->|Hne].
    + rewrite (decide_False (P := b ∈ l)), (decide_True (P := b ∈ b :: l)) by set_solver. lia.
    + destruct (decide (b ∈ l)) as [Hb|Hb].
      * rewrite (decide_True (P := b ∈ x :: l)) by set_solver. lia.
      * rewrite (decide_False (P := b ∈ x :: l)) by set_solver. lia.
Qed.

(** Adding to one counter adds exactly that much to the total, as long as
    the counter stays in the exact range of [double]. *)
Lemma counters_total_bump b r d :
  0 <= counter r b -> 0 <= d -> counter r b + d <= 2 ^ 53 ->
  counters_total (bump b r d) = counters_total r + d.
Proof.
  intros Hc Hd Hs. unfold counters_total, bump. cbn [counter].
  transitivity (foldr (fun b' acc => (if decide (b' = b) then counter r b' + d
                                      else counter r b') + acc) 0 all_BIdx).
  - apply foldr_ext; [|done|done]. intros x acc. destruct (decide (x = b)) as [->|]; [|done].
    by rewrite lat_add_exact.
  - rewrite sum_bump by apply all_BIdx_NoDup.
    rewrite (decide_True (P := b ∈ all_BIdx)); [done|apply all_BIdx_complete].
Qed.
