(* ===== verification/GraphDefs.v ===== *)
(** * Vertices, edges and their orders

    graph/graph_utils.h and the comparators of graph/o3.h.  A vertex is one
    pipeline event of one instruction; events that happen in the same cycle are
    merged (F2F, DI, MP).  The instruction pointer of a vertex is the
    instruction itself: instructions are never changed after parsing, and
    copying a vertex clones the instruction. *)

From stdpp Require Import countable.
From S2P Require Import Prelude Machine OrderedMap External Instruction Bottleneck.

#[local] Open Scope string_scope.
#[local] Open Scope list_scope.
#[local] Open Scope Z_scope.

Module VertexType.
Inductive t := F1 | F2 | F | F2F | D | R | DS | I | DI | M | P | MP | C.
End VertexType.
Notation VertexType := VertexType.t.
Module VT := VertexType.

#[global] Instance VertexType_eq_dec : EqDecision VertexType.
Proof. solve_decision. Defined.

(** The numeric value of the enumerator. *)
Definition vt_idx (t : VertexType) : Z :=
  match t with
  | VT.F1 => 0 | VT.F2 => 1 | VT.F => 2 | VT.F2F => 3 | VT.D => 4 | VT.R => 5
  | VT.DS => 6 | VT.I => 7 | VT.DI => 8 | VT.M => 9 | VT.P => 10 | VT.MP => 11
  | VT.C => 12
  end.
Definition NumOfVertexType : Z := 13.

Definition name_of_vertex_type (t : VertexType) : string :=
  match t with
  | VT.F1 => "F1" | VT.F2 => "F2" | VT.F => "F" | VT.F2F => "F2F" | VT.D => "D"
  | VT.R => "R" | VT.DS => "DS" | VT.I => "I" | VT.DI => "DI" | VT.M => "M"
  | VT.P => "P" | VT.MP => "MP" | VT.C => "C"
  end.

Record Vertex := mkVertex {
  vtype : VertexType;
  vseq : Z;
  timing : Z;
  vinst : RiscvInstruction
}.

#[global] Instance Vertex_eq_dec : EqDecision Vertex.
Proof. solve_decision. Defined.

(** The cycle of an event. *)
Definition timing_of (t : VertexType) (i : RiscvInstruction) : Z :=
  match t with
  | VT.F1 => fetch_cache_line i
  | VT.F2 => process_cache_completion i
  | VT.F => fetch i
  | VT.F2F => fetch i
  | VT.D => decode i
  | VT.R => rename i
  | VT.DS => dispatch i
  | VT.I => issue i
  | VT.DI => issue i
  | VT.M => memory i
  | VT.P => if is_load i then complete_memory i else complete i
  | VT.MP => memory i
  | VT.C => commit i
  end.

(** [VERTEX::set_timing] with its assertions on merged events. *)
Definition set_timing (t : VertexType) (i : RiscvInstruction) : res Z :=
  match t with
  | VT.F2F =>
      _ ← ppk_assert (process_cache_completion i =? fetch i);
      Ok (timing_of t i)
  | VT.DI =>
      _ ← ppk_assert (dispatch i =? issue i);
      Ok (timing_of t i)
  | VT.MP =>
      _ ← (if is_load i then ppk_assert (memory i =? complete_memory i) else Ok tt);
      Ok (timing_of t i)
  | _ => Ok (timing_of t i)
  end.

(** The constructor [VERTEX(type, inst_seq, inst)]. *)
Definition Vertex_new (t : VertexType) (seq : Z) (i : RiscvInstruction) : res Vertex :=
  tm ← set_timing t i;
  Ok (mkVertex t seq tm i).

Definition Vertex_eqb (a b : Vertex) : bool :=
  bool_decide (vtype a = vtype b) &&
  (vseq a =? vseq b) &&
  (timing a =? timing b) &&
  inst_eqb (vinst a) (vinst b).

Lemma Vertex_eqb_eq a b : Vertex_eqb a b = true <-> a = b.
Proof.
  unfold Vertex_eqb. split.
  - intros H. bool_to_prop.
    match goal with H : inst_eqb _ _ = true |- _ => apply inst_eqb_eq in H end.
    destruct a, b; simpl in *. by subst.
  - intros ->. rewrite !Z.eqb_refl, bool_decide_true, (proj2 (inst_eqb_eq _ _) eq_refl) by done.
    done.
Qed.

Lemma Vertex_eqb_refl a : Vertex_eqb a a = true.
Proof. by apply Vertex_eqb_eq. Qed.

Lemma Vertex_eqb_neq a b : Vertex_eqb a b = false <-> a <> b.
Proof. rewrite <- Vertex_eqb_eq. by destruct (Vertex_eqb a b). Qed.

(** [WINDOW] of common/deg_defs.h, and the hash of a vertex. *)
Definition WINDOW : Z := 10000000.

Definition vertex_hash (v : Vertex) : Z :=
  u64 ((vseq v mod WINDOW) * (NumOfVertexType + 1) + vt_idx (vtype v)).

Record OutgoingEdge := mkEdge {
  child : Vertex;
  weight : Z;
  cost : Z;
  bottleneck : Bottleneck;
  critical : bool;
  is_virtual : bool
}.

Definition OutgoingEdge_new (child : Vertex) (weight cost : Z) (b : Bottleneck) : OutgoingEdge :=
  mkEdge child weight cost b false false.
Definition mask_critical (e : OutgoingEdge) : OutgoingEdge :=
  mkEdge (child e) (weight e) (cost e) (bottleneck e) true (is_virtual e).
Definition mask_virtual (e : OutgoingEdge) : OutgoingEdge :=
  mkEdge (child e) (weight e) (cost e) (bottleneck e) (critical e) true.

Record IngoingEdge := mkIn { parent : Vertex }.

(** ** Comparators *)

Definition VertexCompare (l r : Vertex) : bool :=
  (vt_idx (vtype l) <? vt_idx (vtype r)) ||
  ((vt_idx (vtype l) =? vt_idx (vtype r)) && (vseq l <? vseq r)).
Definition EdgeTimingCompare (l r : Vertex) : bool :=
  (timing l <? timing r) || ((timing l =? timing r) && (vseq l <? vseq r)).
Definition EdgeInstSeqCompare (l r : Vertex) : bool :=
  (vseq l <? vseq r) || ((vseq l =? vseq r) && (timing l <? timing r)).

(** The equalities that go with the hash, of the graph keyed by events, by time
    and by program order; [EdgeTimingHash] and [EdgeInstSeqHash] have the body of
    [vertex_hash]. *)
Definition VertexEqual (l r : Vertex) : bool :=
  bool_decide (vtype l = vtype r) && (vseq l mod WINDOW =? vseq r mod WINDOW).
Definition EdgeTimingEqual (l r : Vertex) : bool :=
  (timing l =? timing r) && (vseq l mod WINDOW =? vseq r mod WINDOW).
Definition EdgeInstSeqEqual (l r : Vertex) : bool :=
  (vseq l =? vseq r) || (vseq l mod WINDOW =? vseq r mod WINDOW).

#[global] Instance VertexCompare_sw : StrictWeak VertexCompare :=
  lex_strict_weak (fun v => (vt_idx (vtype v), vseq v)) _ (fun _ _ => eq_refl).
#[global] Instance EdgeTimingCompare_sw : StrictWeak EdgeTimingCompare :=
  lex_strict_weak (fun v => (timing v, vseq v)) _ (fun _ _ => eq_refl).
#[global] Instance EdgeInstSeqCompare_sw : StrictWeak EdgeInstSeqCompare :=
  lex_strict_weak (fun v => (vseq v, timing v)) _ (fun _ _ => eq_refl).

Lemma vt_idx_inj a b : vt_idx a = vt_idx b -> a = b.
Proof. by destruct a, b. Qed.

Lemma vt_idx_range t : 0 <= vt_idx t < NumOfVertexType.
Proof. by destruct t. Qed.

Lemma VertexCompare_equiv a b :
  om_equiv VertexCompare a b <-> vtype a = vtype b /\ vseq a = vseq b.
Proof.
  rewrite (lex_equiv (fun v => (vt_idx (vtype v), vseq v))) by done. split.
  - intros [= H1%vt_idx_inj H2]. done.
  - intros [-> ->]. done.
Qed.

(** The direction of time in the graph: program order, then pipeline order. *)
Definition rank (v : Vertex) : Z := vseq v * (NumOfVertexType + 1) + vt_idx (vtype v).

Lemma rank_lt_seq u v : vseq u < vseq v -> rank u < rank v.
Proof.
  unfold rank, NumOfVertexType.
  pose proof (vt_idx_range (vtype u)). pose proof (vt_idx_range (vtype v)).
  unfold NumOfVertexType in *. lia.
Qed.

Lemma rank_lt_type u v :
  vseq u = vseq v -> vt_idx (vtype u) < vt_idx (vtype v) -> rank u < rank v.
Proof. unfold rank. intros ->. lia. Qed.

Lemma rank_seq_le u v : rank u < rank v -> vseq u <= vseq v.
Proof.
  intros H. destruct (decide (vseq u <= vseq v)); [done|].
  pose proof (rank_lt_seq v u ltac:(lia)). lia.
Qed.

(** ** Encodings, for maps keyed by vertices *)

#[global] Instance InstType_countable : Countable InstType.
Proof.
  refine (inj_countable'
    (fun t => match t with
      | MemRead => 0 | FloatMemRead => 1 | MemWrite => 2 | FloatMemWrite => 3
      | IntAlu => 4 | IntMult => 5 | IntDiv => 6 | FloatAdd => 7 | FloatCmp => 8
      | FloatCvt => 9 | FloatMult => 10 | FloatMultAcc => 11 | FloatMisc => 12
      | FloatDiv => 13 | FloatSqrt => 14 | NoOpClass => 15 end%nat)
    (fun n => match n with
      | 0 => MemRead | 1 => FloatMemRead | 2 => MemWrite | 3 => FloatMemWrite
      | 4 => IntAlu | 5 => IntMult | 6 => IntDiv | 7 => FloatAdd | 8 => FloatCmp
      | 9 => FloatCvt | 10 => FloatMult | 11 => FloatMultAcc | 12 => FloatMisc
      | 13 => FloatDiv | 14 => FloatSqrt | _ => NoOpClass end%nat) _).
  by intros [].
Defined.

#[global] Instance VertexType_countable : Countable VertexType.
Proof.
  refine (inj_countable' vt_idx
    (fun z =>
       if z =? 0 then VT.F1 else if z =? 1 then VT.F2 else if z =? 2 then VT.F
       else if z =? 3 then VT.F2F else if z =? 4 then VT.D else if z =? 5 then VT.R
       else if z =? 6 then VT.DS else if z =? 7 then VT.I else if z =? 8 then VT.DI
       else if z =? 9 then VT.M else if z =? 10 then VT.P else if z =? 11 then VT.MP
       else VT.C) _).
  by intros [].
Defined.

#[global] Instance Tick_countable : Countable Tick.
Proof.
  refine (inj_countable'
    (fun '(mkTick a b c d e f g h i j k l m n o p q r s t) =>
       [a;b;c;d;e;f;g;h;i;j;k;l;m;n;o;p;q;r;s;t])
    (fun l => match l with
       | [a;b;c;d;e;f;g;h;i;j;k;l;m;n;o;p;q;r;s;t] =>
           mkTick a b c d e f g h i j k l m n o p q r s t
       | _ => mkTick 0 0 0 0 0 0 0 0 0 0 0 0 0 0 0 0 0 0 0 0 end) _).
  by intros [].
Defined.

#[global] Instance RiscvInstruction_countable : Countable RiscvInstruction.
Proof.
  refine (inj_countable'
    (fun '(mkInst a b c d e f g h i j k l) => (a, b, d, f, [c;e;g;h;i;j;k;l]))
    (fun '(a, b, d, f, z) => match z with
       | [c;e;g;h;i;j;k;l] => mkInst a b c d e f g h i j k l
       | _ => mkInst a b 0 d 0 f 0 0 0 0 0 0 end) _).
  by intros [].
Defined.

#[global] Instance Vertex_countable : Countable Vertex.
Proof.
  refine (inj_countable' (fun '(mkVertex a b c d) => (a, b, c, d))
    (fun '(a, b, c, d) => mkVertex a b c d) _).
  by intros [].
Defined.
