(* ===== verification/DegBuild.v ===== *)
(** * The analyser's state and the per-instruction edges

    class O3Graph of graph/o3.h, and of graph/o3.cc: [add_edge], [hash_inst],
    [get_vertex_from_inst], the [from_x_to_y] functions and [model], which adds
    the pipeline events of one instruction.  The wall-clock statistics
    ([time_stats]) and the members nothing reads ([prev_inst_seq],
    [pipeline_width]) are left out; [report_file] is the content of the file
    [output_file] that [generate_report] writes. *)

From S2P Require Import Prelude Machine OrderedMap External Instruction Bottleneck GraphDefs.

#[local] Open Scope string_scope.
#[local] Open Scope list_scope.
#[local] Open Scope Z_scope.

Abbreviation deg_t := (list (Vertex * list OutgoingEdge)).
Abbreviation pred_t := (list (Vertex * list IngoingEdge)).

(** instruction/riscv_instruction.h: the lines still to read, and the number of
    instructions read so far. *)
Record RiscvInstructionStream := mkStream { trace : list string; stream_seq : Z }.

Record O3Graph := mkO3 {
  output_file : string;
  view : bool;
  start : Z;
  end_ : Z;
  inst_stream : RiscvInstructionStream;
  graph : deg_t;
  pred : pred_t;
  inst_to_vertex : gmap string Vertex;
  inst_window : list RiscvInstruction;
  bottlenecks : list string;
  report_file : option (list string)
}.

Definition set_graph (s : O3Graph) (g : deg_t) : O3Graph :=
  mkO3 (output_file s) (view s) (start s) (end_ s) (inst_stream s) g (pred s)
    (inst_to_vertex s) (inst_window s) (bottlenecks s) (report_file s).
Definition set_pred (s : O3Graph) (p : pred_t) : O3Graph :=
  mkO3 (output_file s) (view s) (start s) (end_ s) (inst_stream s) (graph s) p
    (inst_to_vertex s) (inst_window s) (bottlenecks s) (report_file s).
Definition set_inst_to_vertex (s : O3Graph) (m : gmap string Vertex) : O3Graph :=
  mkO3 (output_file s) (view s) (start s) (end_ s) (inst_stream s) (graph s) (pred s)
    m (inst_window s) (bottlenecks s) (report_file s).
Definition set_inst_window (s : O3Graph) (w : list RiscvInstruction) : O3Graph :=
  mkO3 (output_file s) (view s) (start s) (end_ s) (inst_stream s) (graph s) (pred s)
    (inst_to_vertex s) w (bottlenecks s) (report_file s).
Definition set_stream (s : O3Graph) (st : RiscvInstructionStream) : O3Graph :=
  mkO3 (output_file s) (view s) (start s) (end_ s) st (graph s) (pred s)
    (inst_to_vertex s) (inst_window s) (bottlenecks s) (report_file s).
Definition set_report_file (s : O3Graph) (r : list string) : O3Graph :=
  mkO3 (output_file s) (view s) (start s) (end_ s) (inst_stream s) (graph s) (pred s)
    (inst_to_vertex s) (inst_window s) (bottlenecks s) (Some r).

Definition get_inst_seq (s : O3Graph) : Z := stream_seq (inst_stream s).

(** [PipelineDelay]. *)
Definition icache_hit_latency : Z := 2.
Definition dcache_int_latency : Z := 2.

(** [graph[v]] and [pred[v]] as reads: the entry's value, and the map with the
    entry present. *)
Definition children (g : deg_t) (v : Vertex) : list OutgoingEdge :=
  default [] (om_find VertexCompare v g).
Definition touch (g : deg_t) (v : Vertex) : deg_t :=
  om_upd VertexCompare v (default []) g.
Definition parents (p : pred_t) (v : Vertex) : list IngoingEdge :=
  default [] (om_find VertexCompare v p).
Definition touch_pred (p : pred_t) (v : Vertex) : pred_t :=
  om_upd VertexCompare v (default []) p.

Section build.
Context `{B : Boost}.

Definition hash_inst (i : RiscvInstruction) (t : VertexType) : string :=
  lexical_cast_u64 (inst_seq i) +:+ "-" +:+ name_of_vertex_type t.

Definition vertex_repr (v : Vertex) : string :=
  lexical_cast_u64 (vseq v) +:+ "-" +:+ name_of_vertex_type (vtype v).

(** The two overloads of [add_edge]. *)
Definition add_edge_out (s : O3Graph) (parent : Vertex) (e : OutgoingEdge) : O3Graph :=
  let s := set_graph s (om_upd VertexCompare parent (fun o => default [] o ++ [e]) (graph s)) in
  set_inst_to_vertex s (<[hash_inst (vinst parent) (vtype parent) := parent]> (inst_to_vertex s)).
Definition add_edge_in (s : O3Graph) (child : Vertex) (e : IngoingEdge) : O3Graph :=
  set_pred s (om_upd VertexCompare child (fun o => default [] o ++ [e]) (pred s)).

(** The pair of calls that every [from_x_to_y] ends with. *)
Definition connect (s : O3Graph) (u : Vertex) (e : OutgoingEdge) : O3Graph :=
  add_edge_in (add_edge_out s u e) (child e) (mkIn u).

Definition merged_type (t : VertexType) : option VertexType :=
  match t with
  | VT.F2 | VT.F => Some VT.F2F
  | VT.DS | VT.I => Some VT.DI
  | VT.M | VT.P => Some VT.MP
  | _ => None
  end.

Definition get_vertex_from_inst (s : O3Graph) (i : RiscvInstruction) (t : VertexType) : res Vertex :=
  match inst_to_vertex s !! hash_inst i t with
  | Some v => Ok v
  | None =>
      let key := match merged_type t with Some t' => hash_inst i t' | None => "" end in
      match inst_to_vertex s !! key with
      | Some v => Ok v
      | None => Stop ErrorExit
      end
  end.

(** ** Edges inside one instruction *)

Definition from_f1_to_f2f (s : O3Graph) (i : RiscvInstruction) (F1 F2F : Vertex) : O3Graph :=
  let weight := lat_sub (process_cache_completion i) (fetch_cache_line i) in
  let b := if weight =? icache_hit_latency then Base else IcacheMiss in
  connect s F1 (OutgoingEdge_new F2F weight 0 b).
Definition from_f2f_to_d (s : O3Graph) (i : RiscvInstruction) (F2F D : Vertex) : O3Graph :=
  connect s F2F (OutgoingEdge_new D (lat_sub (decode i) (fetch i)) 0 Base).
Definition from_f1_to_f2 (s : O3Graph) (i : RiscvInstruction) (F1 F2 : Vertex) : O3Graph :=
  let weight := lat_sub (process_cache_completion i) (fetch_cache_line i) in
  let b := if weight =? icache_hit_latency then Base else IcacheMiss in
  connect s F1 (OutgoingEdge_new F2 weight 0 b).
Definition from_f2_to_f (s : O3Graph) (i : RiscvInstruction) (F2 F : Vertex) : O3Graph :=
  connect s F2 (OutgoingEdge_new F (lat_sub (fetch i) (process_cache_completion i)) 0 Base).
Definition from_f_to_d (s : O3Graph) (i : RiscvInstruction) (F D : Vertex) : O3Graph :=
  connect s F (OutgoingEdge_new D (lat_sub (decode i) (fetch i)) 0 Base).
Definition from_d_to_r (s : O3Graph) (i : RiscvInstruction) (D R : Vertex) : O3Graph :=
  connect s D (OutgoingEdge_new R (lat_sub (rename i) (decode i)) 0 Base).
Definition from_r_to_di (s : O3Graph) (i : RiscvInstruction) (R DI : Vertex) : O3Graph :=
  connect s R (OutgoingEdge_new DI (lat_sub (issue i) (rename i)) 0 Base).
Definition from_r_to_ds (s : O3Graph) (i : RiscvInstruction) (R DS : Vertex) : O3Graph :=
  connect s R (OutgoingEdge_new DS (lat_sub (dispatch i) (rename i)) 0 Base).
Definition from_ds_to_i (s : O3Graph) (i : RiscvInstruction) (DS I : Vertex) : O3Graph :=
  connect s DS (OutgoingEdge_new I (lat_sub (issue i) (dispatch i)) 0 Base).
Definition from_di_to_mp (s : O3Graph) (i : RiscvInstruction) (DI MP : Vertex) : O3Graph :=
  connect s DI (OutgoingEdge_new MP (lat_sub (memory i) (dispatch i)) 0 Base).
Definition from_i_to_mp (s : O3Graph) (i : RiscvInstruction) (I MP : Vertex) : O3Graph :=
  connect s I (OutgoingEdge_new MP (lat_sub (complete i) (issue i)) 0 Base).
Definition from_di_to_m (s : O3Graph) (i : RiscvInstruction) (DI M : Vertex) : O3Graph :=
  connect s DI (OutgoingEdge_new M (lat_sub (memory i) (issue i)) 0 Base).
Definition from_m_to_p (s : O3Graph) (i : RiscvInstruction) (M P : Vertex) : O3Graph :=
  let weight := lat_sub (complete_memory i) (memory i) in
  let b := if weight =? dcache_int_latency then Base else DcacheMiss in
  connect s M (OutgoingEdge_new P weight 0 b).
Definition from_i_to_m (s : O3Graph) (i : RiscvInstruction) (I M : Vertex) : O3Graph :=
  connect s I (OutgoingEdge_new M (lat_sub (memory i) (issue i)) 0 Base).
Definition from_di_to_p (s : O3Graph) (i : RiscvInstruction) (DI P : Vertex) : O3Graph :=
  connect s DI (OutgoingEdge_new P (lat_sub (complete i) (issue i)) 0 Base).
Definition from_i_to_p (s : O3Graph) (i : RiscvInstruction) (I P : Vertex) : O3Graph :=
  connect s I (OutgoingEdge_new P (lat_sub (complete i) (issue i)) 0 Base).
Definition from_mp_to_c (s : O3Graph) (i : RiscvInstruction) (MP C : Vertex) : O3Graph :=
  connect s MP (OutgoingEdge_new C (lat_sub (commit i) (complete i)) 0 Base).
Definition from_p_to_c (s : O3Graph) (i : RiscvInstruction) (P C : Vertex) : O3Graph :=
  connect s P (OutgoingEdge_new C (lat_sub (commit i) (complete i)) 0 Base).

(** ** One instruction *)

(** F1 -> F2/F -> D or F1 -> F2 -> F -> D. *)
Definition model_front (s : O3Graph) (i : RiscvInstruction) : res O3Graph :=
  let seq := get_inst_seq s in
  if process_cache_completion i =? fetch i then
    F1 ← Vertex_new VT.F1 seq i;
    F2F ← Vertex_new VT.F2F seq i;
    D ← Vertex_new VT.D seq i;
    let s := from_f1_to_f2f s i F1 F2F in
    Ok (from_f2f_to_d s i F2F D)
  else
    F1 ← Vertex_new VT.F1 seq i;
    F2 ← Vertex_new VT.F2 seq i;
    F ← Vertex_new VT.F seq i;
    D ← Vertex_new VT.D seq i;
    let s := from_f1_to_f2 s i F1 F2 in
    let s := from_f2_to_f s i F2 F in
    Ok (from_f_to_d s i F D).

(** D -> R, then R -> D/I or R -> D -> I. *)
Definition model_middle (s : O3Graph) (i : RiscvInstruction) : res O3Graph :=
  let seq := get_inst_seq s in
  D ← Vertex_new VT.D seq i;
  R ← Vertex_new VT.R seq i;
  let s := from_d_to_r s i D R in
  if dispatch i =? issue i then
    R ← Vertex_new VT.R seq i;
    DI ← Vertex_new VT.DI seq i;
    Ok (from_r_to_di s i R DI)
  else
    R ← Vertex_new VT.R seq i;
    DS ← Vertex_new VT.DS seq i;
    I ← Vertex_new VT.I seq i;
    let s := from_r_to_ds s i R DS in
    Ok (from_ds_to_i s i DS I).

(** The six ways from issue to commit. *)
Definition model_back (s : O3Graph) (i : RiscvInstruction) : res O3Graph :=
  let seq := get_inst_seq s in
  if is_mem i then
    if is_store i then
      if dispatch i =? issue i then
        DI ← Vertex_new VT.DI seq i;
        MP ← Vertex_new VT.MP seq i;
        C ← Vertex_new VT.C seq i;
        Ok (from_mp_to_c (from_di_to_mp s i DI MP) i MP C)
      else
        I ← Vertex_new VT.I seq i;
        MP ← Vertex_new VT.MP seq i;
        C ← Vertex_new VT.C seq i;
        Ok (from_mp_to_c (from_i_to_mp s i I MP) i MP C)
    else
      if dispatch i =? issue i then
        if memory i =? complete_memory i then
          DI ← Vertex_new VT.DI seq i;
          MP ← Vertex_new VT.MP seq i;
          C ← Vertex_new VT.C seq i;
          Ok (from_mp_to_c (from_di_to_mp s i DI MP) i MP C)
        else
          DI ← Vertex_new VT.DI seq i;
          M ← Vertex_new VT.M seq i;
          P ← Vertex_new VT.P seq i;
          C ← Vertex_new VT.C seq i;
          Ok (from_p_to_c (from_m_to_p (from_di_to_m s i DI M) i M P) i P C)
      else
        if memory i =? complete_memory i then
          I ← Vertex_new VT.I seq i;
          MP ← Vertex_new VT.MP seq i;
          C ← Vertex_new VT.C seq i;
          Ok (from_mp_to_c (from_i_to_mp s i I MP) i MP C)
        else
          I ← Vertex_new VT.I seq i;
          M ← Vertex_new VT.M seq i;
          P ← Vertex_new VT.P seq i;
          C ← Vertex_new VT.C seq i;
          Ok (from_p_to_c (from_m_to_p (from_i_to_m s i I M) i M P) i P C)
  else
    if dispatch i =? issue i then
      DI ← Vertex_new VT.DI seq i;
      P ← Vertex_new VT.P seq i;
      C ← Vertex_new VT.C seq i;
      Ok (from_p_to_c (from_di_to_p s i DI P) i P C)
    else
      I ← Vertex_new VT.I seq i;
      P ← Vertex_new VT.P seq i;
      C ← Vertex_new VT.C seq i;
      Ok (from_p_to_c (from_i_to_p s i I P) i P C).

Definition model (s : O3Graph) (i : RiscvInstruction) : res O3Graph :=
  s ← model_front s i;
  s ← model_middle s i;
  model_back s i.

End build.
