(* ===== verification/Interaction.v ===== *)
(** * Edges between instructions

    graph/o3.cc, [model_interaction] and the eight functions it calls: each
    finds, in the window of earlier instructions, the one that blocked the
    current instruction on a resource or on data, and adds a skewed edge whose
    cost is its weight. *)

From S2P Require Import Prelude Machine OrderedMap External Instruction Bottleneck GraphDefs.
From S2P Require Import DegBuild.

#[local] Open Scope list_scope.
#[local] Open Scope Z_scope.

Section interaction.
Context `{B : Boost}.

(** ** Skewed edges *)

Definition from_p_to_f1 (s : O3Graph) (P F1 : Vertex) : O3Graph :=
  let weight := lat_sub (fetch_cache_line (vinst F1)) (complete (vinst P)) in
  connect s P (OutgoingEdge_new F1 weight weight BPMiss).
Definition from_r_to_r_rob (s : O3Graph) (R' R : Vertex) : O3Graph :=
  let weight := lat_sub (rename (vinst R)) (rename (vinst R')) in
  connect s R' (OutgoingEdge_new R weight weight ROB).
Definition from_r_to_r_lq (s : O3Graph) (R' R : Vertex) : O3Graph :=
  let weight := lat_sub (rename (vinst R)) (rename (vinst R')) in
  connect s R' (OutgoingEdge_new R weight weight LQ).
Definition from_r_to_r_sq (s : O3Graph) (R' R : Vertex) : O3Graph :=
  let weight := lat_sub (rename (vinst R)) (rename (vinst R')) in
  connect s R' (OutgoingEdge_new R weight weight SQ).
Definition from_r_to_r_rf (s : O3Graph) (R' R : Vertex) (b : Bottleneck) : O3Graph :=
  let weight := lat_sub (rename (vinst R)) (rename (vinst R')) in
  connect s R' (OutgoingEdge_new R weight weight b).
Definition from_r_to_r_iq (s : O3Graph) (R' R : Vertex) : O3Graph :=
  let weight := lat_sub (rename (vinst R)) (rename (vinst R')) in
  connect s R' (OutgoingEdge_new R weight weight IQ).
Definition from_i_to_i_fu (s : O3Graph) (I' I : Vertex) (b : Bottleneck) : O3Graph :=
  let weight := lat_sub (issue (vinst I)) (issue (vinst I')) in
  connect s I' (OutgoingEdge_new I weight weight b).
Definition from_i_to_i_dcache (s : O3Graph) (I' I : Vertex) : O3Graph :=
  let weight := lat_sub (issue (vinst I)) (issue (vinst I')) in
  let b := if weight =? dcache_int_latency then Base else DcacheMiss in
  connect s I' (OutgoingEdge_new I weight weight b).
Definition from_i_to_i_raw (s : O3Graph) (I' I : Vertex) : O3Graph :=
  let weight := lat_sub (issue (vinst I)) (issue (vinst I')) in
  connect s I' (OutgoingEdge_new I weight weight RAW).

(** ** Register dependences *)

Definition raw_dep (tgt src' : RiscvInstruction) : res bool :=
  _ ← ppk_assert (inst_seq src' <? inst_seq tgt);
  Ok (bool_decide (dst src' ∈ src tgt)).
Definition war_dep (tgt src' : RiscvInstruction) : res bool :=
  _ ← ppk_assert (inst_seq src' <? inst_seq tgt);
  Ok (bool_decide (dst tgt ∈ src src')).
Definition wrw_dep (tgt src' : RiscvInstruction) : bool := dst tgt =? dst src'.

(** ** Resources *)

Definition model_miss_bp_interaction_impl (s : O3Graph) (i : RiscvInstruction) : res O3Graph :=
  match inst_window s with
  | [] => Stop Undefined
  | prev :: _ =>
      if is_control prev && (complete prev <? fetch_cache_line i) then
        P ← get_vertex_from_inst s prev VT.P;
        F1 ← get_vertex_from_inst s i VT.F1;
        Ok (from_p_to_f1 s P F1)
      else Ok s
  end.

(** The loops that look for the most recent instruction satisfying a test. *)
Fixpoint find_first {A} (p : A -> bool) (l : list A) : option A :=
  match l with
  | [] => None
  | x :: l' => if p x then Some x else find_first p l'
  end.

(** [link_rename] is the body the ROB, LQ, SQ and IQ loops share: the rename
    events of the two instructions, connected. *)
Definition link_rename (link : O3Graph -> Vertex -> Vertex -> O3Graph)
    (s : O3Graph) (i : RiscvInstruction) (dep : option RiscvInstruction) : res O3Graph :=
  match dep with
  | None => Ok s
  | Some j =>
      R' ← get_vertex_from_inst s j VT.R;
      R ← get_vertex_from_inst s i VT.R;
      Ok (link s R' R)
  end.

Definition model_rob_interaction_impl (s : O3Graph) (i : RiscvInstruction) : res O3Graph :=
  if block_from_rob i =? 0 then Ok s
  else link_rename from_r_to_r_rob s i
         (find_first (fun j => rob j =? rob i) (inst_window s)).
Definition model_lq_interaction_impl (s : O3Graph) (i : RiscvInstruction) : res O3Graph :=
  if negb (block_from_lq i =? 0) && is_load i then
    link_rename from_r_to_r_lq s i
      (find_first (fun j => lq j =? lq i) (inst_window s))
  else Ok s.
Definition model_sq_interaction_impl (s : O3Graph) (i : RiscvInstruction) : res O3Graph :=
  if negb (block_from_sq i =? 0) && is_store i then
    link_rename from_r_to_r_sq s i
      (find_first (fun j => sq j =? sq i) (inst_window s))
  else Ok s.
Definition model_iq_interaction_impl (s : O3Graph) (i : RiscvInstruction) : res O3Graph :=
  if block_from_iq i =? 0 then Ok s
  else link_rename from_r_to_r_iq s i
         (find_first (fun j => iq j =? iq i) (inst_window s)).

Fixpoint find_rf_dep (i : RiscvInstruction) (w : list RiscvInstruction) : res (option RiscvInstruction) :=
  match w with
  | [] => Ok None
  | j :: w' =>
      d ← war_dep i j;
      if d || wrw_dep i j then Ok (Some j) else find_rf_dep i w'
  end.

Definition rf_bottleneck (i : RiscvInstruction) : option Bottleneck :=
  if use_int_rf i then Some IntRF
  else if use_fp_rf i then Some FpRF
  else None.

Definition model_rf_interaction_impl (s : O3Graph) (i : RiscvInstruction) : res O3Graph :=
  if block_from_rf i =? 0 then Ok s
  else
    dep ← find_rf_dep i (inst_window s);
    match dep with
    | None => Ok s
    | Some j =>
        R' ← get_vertex_from_inst s j VT.R;
        R ← get_vertex_from_inst s i VT.R;
        match rf_bottleneck i with
        | Some b => Ok (from_r_to_r_rf s R' R b)
        | None => Ok s
        end
    end.

Definition fu_bottleneck (i : RiscvInstruction) : option Bottleneck :=
  if use_int_alu i then Some IntALU
  else if use_int_mult_div i then Some IntMultDiv
  else if use_fp_alu i then Some FpAlu
  else if use_fp_mult_div i then Some FpMultDiv
  else if use_rd_wr_port i then Some RdWrPort
  else None.

(** Whether the instruction [j] of the window kept a functional unit busy when
    [i] wanted it. *)
Definition fu_dep (i j : RiscvInstruction) : bool :=
  (fu j =? fu i) && (issue j <? issue i) &&
  ((is_load i && (issue i <=? complete_memory j)) || (issue i <=? complete j)).

Fixpoint fu_loop (s : O3Graph) (i : RiscvInstruction) (w : list RiscvInstruction) : res O3Graph :=
  match w with
  | [] => Ok s
  | j :: w' =>
      if fu_dep i j then
        I' ← get_vertex_from_inst s j VT.I;
        I ← get_vertex_from_inst s i VT.I;
        match fu_bottleneck i with
        | Some b => Ok (from_i_to_i_fu s I' I b)
        | None => fu_loop s i w'
        end
      else fu_loop s i w'
  end.

Definition model_fu_interaction_impl (s : O3Graph) (i : RiscvInstruction) : res O3Graph :=
  if insert_ready_list i <? issue i then fu_loop s i (inst_window s) else Ok s.

(** ** Read after write *)

Definition completion (j : RiscvInstruction) : Z :=
  if is_load j then complete_memory j else complete j.

(** The inner [while]: it advances [j] and [i], and tests the same [prev] every
    time round. *)
Fixpoint raw_inner (fuel : nat) (tgt prev : RiscvInstruction) (size j i CONST t : Z)
    (dep : option RiscvInstruction) : res (Z * Z * option RiscvInstruction) :=
  match fuel with
  | O => Stop OutOfFuel
  | S fuel =>
      if (j <? CONST) && (i <? size) then
        d ← raw_dep tgt prev;
        let '(t, dep) :=
          if d && (t <? completion prev) then (completion prev, Some prev) else (t, dep) in
        raw_inner fuel tgt prev size (j + 1) (i + 1) CONST t dep
      else Ok (i, t, dep)
  end.

(** The outer [while]. *)
Fixpoint raw_outer (fuel : nat) (tgt : RiscvInstruction) (w : list RiscvInstruction)
    (i CONST t : Z) (dep : option RiscvInstruction) : res (option RiscvInstruction) :=
  match fuel with
  | O => Stop OutOfFuel
  | S fuel =>
      let size := Z.of_nat (length w) in
      if i <? size then
        match w !! Z.to_nat i with
        | None => Stop Uncaught
        | Some prev =>
            d ← raw_dep tgt prev;
            '(i, t, dep) ←
              (if d : bool then raw_inner (S (length w)) tgt prev size 0 i CONST t dep
               else Ok (i, t, dep));
            match dep with
            | Some _ => Ok dep
            | None => raw_outer fuel tgt w (i + 1) CONST t dep
            end
        end
      else Ok dep
  end.

Definition RAW_CONST : Z := 50.

Definition model_raw_interaction_impl (s : O3Graph) (i : RiscvInstruction) : res O3Graph :=
  if dispatch i <? insert_ready_list i then
    dep ← raw_outer (S (length (inst_window s))) i (inst_window s) 0 RAW_CONST 0 None;
    match dep with
    | None => Ok s
    | Some j =>
        I' ← get_vertex_from_inst s j VT.I;
        I ← get_vertex_from_inst s i VT.I;
        Ok (if is_load j then from_i_to_i_dcache s I' I else from_i_to_i_raw s I' I)
    end
  else Ok s.

(** ** All interactions of one instruction *)

Definition model_interaction_impl (s : O3Graph) (i : RiscvInstruction) : res O3Graph :=
  match inst_window s with
  | [] => Ok s
  | _ =>
      s ← model_miss_bp_interaction_impl s i;
      s ← model_rob_interaction_impl s i;
      s ← model_lq_interaction_impl s i;
      s ← model_sq_interaction_impl s i;
      s ← model_rf_interaction_impl s i;
      s ← model_iq_interaction_impl s i;
      s ← model_fu_interaction_impl s i;
      model_raw_interaction_impl s i
  end.

Definition model_interaction (s : O3Graph) (i : RiscvInstruction) : res O3Graph :=
  s ← model_interaction_impl s i;
  Ok (set_inst_window s (i :: inst_window s)).

(** What the main loop does with an instruction. *)
Definition step_inst (s : O3Graph) (i : RiscvInstruction) : res O3Graph :=
  s ← model s i;
  model_interaction s i.

End interaction.
