(* ===== verification/Induced.v ===== *)
(** * The induced graph

    graph/o3.cc, [if_exist_edge], [add_virtual_edge], [construct_induced_graph]
    and the four functions below it.  The skewed edges (between different
    instructions) are collected in a map ordered by time and in a map ordered by
    program order; from the ends of each one, virtual edges of cost 0 lead to
    the next ones.  An iterator into such a map is the suffix of its entries. *)

From S2P Require Import Prelude Machine OrderedMap External Instruction Bottleneck GraphDefs.
From S2P Require Import DegBuild.

#[local] Open Scope list_scope.
#[local] Open Scope Z_scope.

Definition if_exist_edge (s : O3Graph) (parent child' : Vertex) : bool * O3Graph :=
  (existsb (fun e => Vertex_eqb (child e) child') (children (graph s) parent),
   set_graph s (touch (graph s) parent)).

(** [skewed_edges[i->first].emplace_back( *j)] for every skewed edge, in the
    order of the graph's map. *)
Definition collect_skewed (lt : Vertex -> Vertex -> bool) (g : deg_t) : deg_t :=
  foldl (fun m '(u, es) =>
    foldl (fun m e =>
      if vseq u =? vseq (child e) then m
      else om_upd lt u (fun o => default [] o ++ [e]) m) m es) [] g.

Section induced.
Context `{B : Boost}.

Definition add_virtual_edge (s : O3Graph) (parent child' : Vertex) : O3Graph :=
  if Vertex_eqb parent child' then s
  else
    let '(b, s) := if_exist_edge s parent child' in
    if b then s
    else
      let weight := lat_sub (timing child') (timing parent) in
      connect s parent (mask_virtual (OutgoingEdge_new child' weight 0 Virtual)).

(** ** By time *)

(** The inner loop: further entries with the time just found. *)
Fixpoint timing_same (s : O3Graph) (vertex : Vertex) (early_timing : Z) (j : deg_t) : O3Graph :=
  match j with
  | [] => s
  | (k, _) :: j' =>
      if (vseq vertex <? vseq k) && (early_timing =? timing k)
      then timing_same (add_virtual_edge s vertex k) vertex early_timing j'
      else s
  end.

(** The lambda of [add_virtual_edge_via_timing_impl]. *)
Fixpoint timing_scan (s : O3Graph) (vertex : Vertex) (i : deg_t) : O3Graph :=
  match i with
  | [] => s
  | (k, _) :: i' =>
      if (timing vertex <=? timing k) && (vseq vertex <? vseq k)
      then timing_same (add_virtual_edge s vertex k) vertex (timing k) i'
      else timing_scan s vertex i'
  end.

Definition add_virtual_edge_via_timing_impl (s : O3Graph) (iter : deg_t) : O3Graph :=
  match iter with
  | [] => s
  | (k, es) :: _ =>
      foldl (fun s e => timing_scan s (child e) iter) (timing_scan s k iter) es
  end.

Fixpoint via_timing_loop (s : O3Graph) (iter : deg_t) : O3Graph :=
  match iter with
  | [] => s
  | _ :: iter' => via_timing_loop (add_virtual_edge_via_timing_impl s iter) iter'
  end.

Definition add_virtual_edge_via_timing (s : O3Graph) : O3Graph :=
  via_timing_loop s (collect_skewed EdgeTimingCompare (graph s)).

(** ** By program order *)

(** The lambda of [add_virtual_edge_via_inst_seq_impl]. *)
Fixpoint inst_seq_scan (s : O3Graph) (vertex : Vertex) (i : deg_t) : O3Graph :=
  match i with
  | [] => s
  | (k, _) :: i' =>
      if (vseq vertex <? vseq k) && (timing vertex <=? timing k)
      then add_virtual_edge s vertex k
      else inst_seq_scan s vertex i'
  end.

Definition add_virtual_edge_via_inst_seq_impl (s : O3Graph) (iter : deg_t) : O3Graph :=
  match iter with
  | [] => s
  | (k, es) :: _ =>
      foldl (fun s e => inst_seq_scan s (child e) iter) (inst_seq_scan s k iter) es
  end.

Fixpoint via_inst_seq_loop (s : O3Graph) (iter : deg_t) : O3Graph :=
  match iter with
  | [] => s
  | _ :: iter' => via_inst_seq_loop (add_virtual_edge_via_inst_seq_impl s iter) iter'
  end.

Definition add_virtual_edge_via_inst_seq (s : O3Graph) : O3Graph :=
  via_inst_seq_loop s (collect_skewed EdgeInstSeqCompare (graph s)).

Definition construct_induced_graph (s : O3Graph) : O3Graph :=
  add_virtual_edge_via_inst_seq (add_virtual_edge_via_timing s).

End induced.
