(* ===== verification/LongestPath.v ===== *)
(** * Longest path

    graph/o3.cc, [topological_sort], [get_outgoing_edge], and the body of
    [longest_path_impl] called [longest_path_core]: the table of longest
    distances in topological order, and the way back from the farthest vertex. *)

From S2P Require Import Prelude Machine OrderedMap External Instruction Bottleneck GraphDefs.
From S2P Require Import DegBuild.

#[local] Open Scope list_scope.
#[local] Open Scope Z_scope.

Definition get_outgoing_edge (s : O3Graph) (parent child' : Vertex) : res (OutgoingEdge * O3Graph) :=
  match List.find (fun e => Vertex_eqb (child e) child') (children (graph s) parent) with
  | Some e => Ok (e, set_graph s (touch (graph s) parent))
  | None => Stop ErrorExit
  end.

(** ** Topological sorting *)

(** [indegree_map[iter->first] = iter->second.size()]. *)
Definition set_indegree (m : gmap Vertex Z) (x : Vertex * list IngoingEdge) : gmap Vertex Z :=
  <[x.1 := Z.of_nat (length x.2)]> m.
Definition init_indegree (p : pred_t) : gmap Vertex Z := foldl set_indegree ∅ p.

Definition init_zero (g : deg_t) (m : gmap Vertex Z) : list Vertex :=
  filter (fun v => m !! v = None) (om_keys g).

(** One edge out of the current generation. *)
Definition topo_edge (st : gmap Vertex Z * list Vertex) (e : OutgoingEdge)
  : gmap Vertex Z * list Vertex :=
  let '(m, zero) := st in
  let n := default 0 (m !! child e) - 1 in
  if n =? 0 then (delete (child e) m, zero ++ [child e])
  else (<[child e := n]> m, zero).

(** One vertex of the current generation; [graph[*i]] adds a missing key. *)
Definition topo_vertex (st : deg_t * gmap Vertex Z * list Vertex) (v : Vertex)
  : deg_t * gmap Vertex Z * list Vertex :=
  let '(g, m, zero) := st in
  let '(m, zero) := foldl topo_edge (m, zero) (children g v) in
  (touch g v, m, zero).

Fixpoint topo_loop (fuel : nat) (g : deg_t) (m : gmap Vertex Z) (zero ret : list Vertex)
  : res (deg_t * gmap Vertex Z * list Vertex) :=
  match zero with
  | [] => Ok (g, m, ret)
  | _ =>
      match fuel with
      | O => Stop OutOfFuel
      | S fuel =>
          let '(g, m, zero') := foldl topo_vertex (g, m, []) zero in
          topo_loop fuel g m zero' (ret ++ zero)
      end
  end.

Definition num_edges (g : deg_t) : nat := length (mjoin g.*2).

Definition topological_sort (s : O3Graph) : res (list Vertex * O3Graph) :=
  let m := init_indegree (pred s) in
  let zero := init_zero (graph s) m in
  '(g, m, ret) ← topo_loop (S (S (num_edges (graph s)))) (graph s) m zero [];
  _ ← ppk_assert (Nat.eqb (size m) 0);
  _ ← ppk_assert (Nat.eqb (length ret) (length g));
  Ok (ret, set_graph s g).

(** ** Distances *)

(** Entries of [dist]: a distance and the vertex it comes from.  [None] is the
    default-constructed vertex of an entry that [operator[]] created. *)
Abbreviation dist_t := (list (Vertex * (Z * option Vertex))).

Definition dist_at (d : dist_t) (v : Vertex) : Z * option Vertex :=
  default (0, None) (om_find VertexCompare v d).
Definition dist_touch (d : dist_t) (v : Vertex) : dist_t :=
  om_upd VertexCompare v (default (0, None)) d.
Definition dist_set (d : dist_t) (v : Vertex) (x : Z * option Vertex) : dist_t :=
  om_upd VertexCompare v (fun _ => x) d.

(** The candidate distances through each predecessor. *)
Fixpoint dist_pairs (s : O3Graph) (d : dist_t) (v : Vertex) (ps : list IngoingEdge)
  : res (list (Z * Vertex) * O3Graph * dist_t) :=
  match ps with
  | [] => Ok ([], s, d)
  | p :: ps' =>
      '(e, s) ← get_outgoing_edge s (parent p) v;
      let x := (lat_add (dist_at d (parent p)).1 (cost e), parent p) in
      '(xs, s, d) ← dist_pairs s (dist_touch d (parent p)) v ps';
      Ok (x :: xs, s, d)
  end.

(** The first of the largest candidates. *)
Definition pick_max (l : list (Z * Vertex)) : Z * option Vertex :=
  (foldl (fun '(best, acc) '(x, p) =>
     if best <? x then (x, (x, Some p)) else (best, acc)) (-1, (0, None)) l).2.

Definition update_dist (st : O3Graph * dist_t) (v : Vertex) : res (O3Graph * dist_t) :=
  let '(s, d) := st in
  let ps := parents (pred s) v in
  let s := set_pred s (touch_pred (pred s) v) in
  '(pairs, s, d) ← dist_pairs s d v ps;
  match pairs with
  | [] => Ok (s, dist_set d v (0, Some v))
  | _ => Ok (s, dist_set d v (pick_max pairs))
  end.

(** The first vertex, in map order, of largest distance. *)
Definition farthest (d : dist_t) : Z * option Vertex :=
  foldl (fun '(l, v) '(k, x) => if l <? x.1 then (x.1, Some k) else (l, v)) (-1, None) d.

(** [while (l) { path.push_back(v); l = dist[v].first; v = dist[v].second; }],
    returning the vertices in the order they are pushed. *)
Fixpoint walk_back (fuel : nat) (d : dist_t) (l : Z) (v : option Vertex) : res (list Vertex) :=
  if l =? 0 then Ok []
  else
    match fuel, v with
    | O, _ => Stop OutOfFuel
    | _, None => Stop Undefined
    | S fuel, Some v =>
        let '(l, p) := dist_at d v in
        rest ← walk_back fuel d l p;
        Ok (v :: rest)
    end.

Definition longest_path_core (s : O3Graph) : res (list Vertex * O3Graph) :=
  '(topo, s) ← topological_sort s;
  '(s, d) ← res_fold update_dist (s, []) topo;
  let '(l, v) := farthest d in
  path ← walk_back (S (length d)) d l v;
  Ok (rev path, s).
