(* ===== verification/PathSearch.v ===== *)
(** * Completing the critical path

    graph/o3.cc, [get_source_vertex], [get_sink_vertex], [if_exist_path],
    [find_path], [from_c_to_sink] and the rest of [longest_path_impl], which
    extends the longest path to the first fetch and to the last commit. *)

From S2P Require Import Prelude Machine OrderedMap External Instruction Bottleneck GraphDefs.
From S2P Require Import DegBuild Induced LongestPath.

#[local] Open Scope list_scope.
#[local] Open Scope Z_scope.

Definition get_source_vertex (s : O3Graph) : res Vertex :=
  match graph s with
  | [] => Stop Undefined
  | (v, _) :: _ =>
      _ ← ppk_assert ((vseq v =? 1) && bool_decide (vtype v = VT.F1));
      Ok v
  end.

Definition is_sink (s : O3Graph) (v : Vertex) : bool :=
  (vseq v =? get_inst_seq s) && bool_decide (vtype v = VT.C).

Definition get_sink_vertex (s : O3Graph) : res Vertex :=
  match List.find (is_sink s) (map child (mjoin (graph s).*2)) with
  | Some v => Ok v
  | None => Stop ErrorExit
  end.

(** ** Breadth-first test for a path *)

(** The two inner loops over the edges of one generation: [inl (b, _)] is an
    early [return b], [inr] the next generation. *)
Fixpoint bfs_edges (s : O3Graph) (target : Vertex) (es : list OutgoingEdge)
    (seen next : list Vertex) : (bool * O3Graph) + (O3Graph * list Vertex * list Vertex) :=
  match es with
  | [] => inr (s, seen, next)
  | e :: es' =>
      if inst_seq (vinst target) <? inst_seq (vinst (child e)) then inl (false, s)
      else
        let '(b, s) := if_exist_edge s (child e) target in
        if b then inl (true, s)
        else if existsb (Vertex_eqb (child e)) seen then inl (false, s)
        else bfs_edges s target es' (seen ++ [child e]) (next ++ [child e])
  end.

Fixpoint bfs_loop (fuel : nat) (s : O3Graph) (target : Vertex) (gen seen : list Vertex)
  : res (bool * O3Graph) :=
  match gen with
  | [] => Ok (false, s)
  | _ =>
      match fuel with
      | O => Stop OutOfFuel
      | S fuel =>
          match bfs_edges s target (gen ≫= children (graph s)) seen [] with
          | inl (b, s) => Ok (b, s)
          | inr (s, seen, next) => bfs_loop fuel s target next seen
          end
      end
  end.

Definition if_exist_path (s : O3Graph) (source target : Vertex) : res (bool * O3Graph) :=
  if inst_seq (vinst target) <? inst_seq (vinst source) then Ok (false, s)
  else
    let s := set_graph s (touch (graph s) source) in
    bfs_loop (S (S (num_edges (graph s)))) s target [source] [].

(** ** Depth-first search of a path *)

Section find_path_loop.
Context (rec : O3Graph -> Vertex -> res (bool * list Vertex * O3Graph)).

(** The [for] loop over the children, [path] being the caller's vector. *)
Fixpoint find_path_children (s : O3Graph) (source : Vertex) (es : list OutgoingEdge)
  : res (bool * list Vertex * O3Graph) :=
  match es with
  | [] => Ok (false, [], s)
  | e :: es' =>
      '(b, path, s) ← rec s (child e);
      if b : bool then Ok (true, source :: path, s)
      else find_path_children s source es'
  end.
End find_path_loop.

Fixpoint find_path (fuel : nat) (s : O3Graph) (source target : Vertex)
  : res (bool * list Vertex * O3Graph) :=
  match fuel with
  | O => Stop OutOfFuel
  | S fuel =>
      let '(b, s) := if_exist_edge s source target in
      if b then Ok (true, [source], s)
      else find_path_children (fun s c => find_path fuel s c target) s source
             (children (graph s) source)
  end.

Section complete.
Context `{B : Boost}.

(** [from_c_to_sink]: follow the instruction to its commit, and connect that to
    the sink.  Only the first child of the same instruction is tried. *)
Fixpoint from_c_to_sink (fuel : nat) (s : O3Graph) (vertex sink : Vertex)
  : res (bool * list Vertex * O3Graph) :=
  match fuel with
  | O => Stop OutOfFuel
  | S fuel =>
      let es := children (graph s) vertex in
      let s := set_graph s (touch (graph s) vertex) in
      match List.find (fun e => vseq (child e) =? vseq vertex) es with
      | None => Ok (false, [], s)
      | Some e =>
          if bool_decide (vtype (child e) = VT.C) then
            Ok (true, [vertex; child e], add_virtual_edge s (child e) sink)
          else
            '(b, path, s) ← from_c_to_sink fuel s (child e) sink;
            Ok (b, if b : bool then vertex :: path else path, s)
      end
  end.

(** The part of [longest_path_impl] before the sink: [path[0]] of an empty
    vector is undefined. *)
Definition attach_source (s : O3Graph) (path : list Vertex) : res (list Vertex * O3Graph) :=
  source ← get_source_vertex s;
  match path with
  | [] => Stop Undefined
  | p0 :: _ =>
      '(b, s) ← if_exist_path s source p0;
      if negb b then
        Ok (source :: path, add_virtual_edge s source p0)
      else
        '(_, pre, s) ← find_path (S (S (num_edges (graph s)))) s source p0;
        Ok (pre ++ path, s)
  end.

(** [_path.begin() + 1] of an empty vector is undefined. *)
Definition drop_first (l : list Vertex) : res (list Vertex) :=
  match l with [] => Stop Undefined | _ :: l' => Ok l' end.

Definition attach_sink (s : O3Graph) (path : list Vertex) : res (list Vertex * O3Graph) :=
  sink ← get_sink_vertex s;
  match last path with
  | None => Stop Undefined
  | Some back =>
      '(b, s) ← if_exist_path s back sink;
      '(_, post, s) ←
        (if negb b then from_c_to_sink (S (S (num_edges (graph s)))) s back sink
         else find_path (S (S (num_edges (graph s)))) s back sink);
      post ← drop_first post;
      Ok (path ++ post ++ [sink], s)
  end.

Definition longest_path_impl (s : O3Graph) : res (list Vertex * O3Graph) :=
  '(path, s) ← longest_path_core s;
  '(path, s) ← attach_source s path;
  attach_sink s path.

(** Marking one edge: the reference returned by [get_outgoing_edge]. *)
Fixpoint mask_first (c : Vertex) (es : list OutgoingEdge) : list OutgoingEdge :=
  match es with
  | [] => []
  | e :: es' => if Vertex_eqb (child e) c then mask_critical e :: es' else e :: mask_first c es'
  end.

Definition mask_edge (s : O3Graph) (p : Vertex * Vertex) : res O3Graph :=
  '(_, s) ← get_outgoing_edge s p.1 p.2;
  Ok (set_graph s (om_upd VertexCompare p.1 (fun o => mask_first p.2 (default [] o)) (graph s))).

Definition longest_path (s : O3Graph) : res (list Vertex * O3Graph) :=
  '(path, s) ← longest_path_impl s;
  s ← res_fold mask_edge s (pairs_of path);
  Ok (path, s).

End complete.
