(* ===== verification/Analyze.v ===== *)
(** * Profiling the critical path

    graph/o3.cc, [profiling_critical_path], [generate_report] and
    [analyze_window].  Numbers reach the report through the default formatting
    of [std::ostream] for [double], which keeps six significant digits. *)

From stdpp Require Import pretty.
From S2P Require Import Prelude Machine OrderedMap External Instruction Bottleneck GraphDefs.
From S2P Require Import DegBuild Induced LongestPath PathSearch.

#[local] Open Scope string_scope.
#[local] Open Scope list_scope.
#[local] Open Scope Z_scope.

(** ** Printing a latency *)

Definition show_Z (z : Z) : string := pretty (Z.to_N z).

(** Drop trailing zeros of a positive number. *)
Fixpoint strip_zeros (fuel : nat) (z : Z) : Z :=
  match fuel with
  | O => z
  | S fuel => if z mod 10 =? 0 then strip_zeros fuel (z / 10) else z
  end.

Fixpoint num_digits (fuel : nat) (z : Z) : Z :=
  match fuel with
  | O => 1
  | S fuel => if z <? 10 then 1 else 1 + num_digits fuel (z / 10)
  end.

(** Six significant digits, nearest, ties to even: mantissa and exponent. *)
Definition round6 (z : Z) : Z * Z :=
  let e := num_digits 400 z - 1 in
  let unit := 10 ^ (e - 5) in
  let q := z / unit in
  let r := z mod unit in
  let q := if 2 * r <? unit then q
           else if unit <? 2 * r then q + 1
           else if Z.even q then q else q + 1 in
  if q =? 1000000 then (100000, e + 1) else (q, e).

(** [os << x] for a non-negative integer-valued [double]. *)
Definition show_latency (z : Z) : string :=
  if z <? 1000000 then show_Z z
  else
    let '(q, e) := round6 z in
    let frac := q mod 100000 in
    let stripped := strip_zeros 5 frac in
    let lead := q / 100000 in
    let pad := Z.to_nat (5 - num_digits 6 frac) in
    let zeros := String.concat "" (replicate pad "0") in
    show_Z lead +:+
    (if frac =? 0 then "" else "." +:+ zeros +:+ show_Z stripped) +:+
    "e+" +:+ (if e <? 10 then "0" else "") +:+ show_Z e.

(** ** Attributing the weights *)

(** The if-chain on the registered names. *)
Definition bottleneck_index (names : list string) (n : string) : option BIdx :=
  List.find (fun b => bool_decide (names !! BIdx_to_nat b = Some n)) all_BIdx.

(** The counter a branch of the if-chain increments, and the one it reads. *)
Definition incr_by (b : BIdx) : BottleneckReport -> Z -> BottleneckReport :=
  match b with
  | BTK_Base => incr_base
  | BTK_IcacheMiss => incr_icache_miss
  | BTK_DcacheMiss => incr_dcache_miss
  | BTK_BPMiss => incr_bp_miss
  | BTK_ROB => incr_rob
  | BTK_LQ => incr_lq
  | BTK_SQ => incr_sq
  | BTK_IntRF => incr_int_rf
  | BTK_FpRF => incr_fp_rf
  | BTK_IQ => incr_iq
  | BTK_IntAlu => incr_int_alu
  | BTK_IntMultDiv => incr_int_mult_div
  | BTK_FpAlu => incr_fp_alu
  | BTK_FpMultDiv => incr_fp_mult_div
  | BTK_RdWrPort => incr_rd_wr_port
  | BTK_RAW => incr_raw
  | BTK_Virtual => incr_virtual
  end.
Definition get_by (b : BIdx) : BottleneckReport -> Z :=
  match b with
  | BTK_Base => get_base
  | BTK_IcacheMiss => get_icache_miss
  | BTK_DcacheMiss => get_dcache_miss
  | BTK_BPMiss => get_bp_miss
  | BTK_ROB => get_lack_rob
  | BTK_LQ => get_lack_lq
  | BTK_SQ => get_lack_sq
  | BTK_IntRF => get_lack_int_rf
  | BTK_FpRF => get_lack_fp_rf
  | BTK_IQ => get_lack_iq
  | BTK_IntAlu => get_lack_int_alu
  | BTK_IntMultDiv => get_lack_int_mult_div
  | BTK_FpAlu => get_lack_fp_alu
  | BTK_FpMultDiv => get_lack_fp_mult_div
  | BTK_RdWrPort => get_lack_rd_wr_port
  | BTK_RAW => get_raw
  | BTK_Virtual => get_virtual
  end.

Lemma incr_by_bump b : incr_by b = bump b.
Proof. by destruct b. Qed.
Lemma get_by_counter b r : get_by b r = counter r b.
Proof. by destruct b. Qed.

Fixpoint profile_edges (s : O3Graph) (report : BottleneckReport) (len : Z)
    (ps : list (Vertex * Vertex)) : res (BottleneckReport * Z * O3Graph) :=
  match ps with
  | [] => Ok (report, len, s)
  | p :: ps' =>
      '(e, s) ← get_outgoing_edge s p.1 p.2;
      let n := __repr__ (bottleneck e) in
      let len := lat_add len (weight e) in
      match bottleneck_index (bottlenecks s) n with
      | Some b => profile_edges s (incr_by b report (weight e)) len ps'
      | None => Stop ErrorExit
      end
  end.

Section analyze.
Context `{B : Boost}.

Definition tab : string := String (Ascii.ascii_of_nat 9) "".

Fixpoint report_path (s : O3Graph) (ps : list (Vertex * Vertex)) : res (list string * O3Graph) :=
  match ps with
  | [] => Ok ([], s)
  | p :: ps' =>
      '(e, s) ← get_outgoing_edge s p.1 p.2;
      '(ls, s) ← report_path s ps';
      Ok ((vertex_repr p.1 +:+ " => " +:+ vertex_repr p.2 +:+ tab +:+ ": " +:+
           __repr__ (bottleneck e) +:+ tab +:+ show_latency (weight e)) :: ls, s)
  end.

Fixpoint report_counters (names : list string) (report : BottleneckReport) (l : list string)
  : res (list string) :=
  match l with
  | [] => Ok []
  | n :: l' =>
      match bottleneck_index names n with
      | Some b =>
          ls ← report_counters names report l';
          Ok ((n +:+ ": " +:+ show_latency (get_by b report)) :: ls)
      | None => Stop ErrorExit
      end
  end.

Definition generate_report (s : O3Graph) (report : BottleneckReport) (path : list Vertex)
  : res O3Graph :=
  '(edges, s) ← report_path s (pairs_of path);
  counters ← report_counters (bottlenecks s) report (bottlenecks s);
  Ok (set_report_file s
    ((("critical path: " +:+ show_latency (get_length report)) :: edges) ++
     "" :: "bottleneck: " :: counters)).

Definition profiling_critical_path (s : O3Graph) (path : list Vertex)
  : res (BottleneckReport * O3Graph) :=
  '(report, len, s) ← profile_edges s BottleneckReport_new 0 (pairs_of path);
  let report := set_length report len in
  sink ← get_sink_vertex s;
  source ← get_source_vertex s;
  let golden_length := lat_sub (timing sink) (timing source) in
  _ ← ppk_assert (golden_length =? len);
  s ← generate_report s report path;
  Ok (report, s).

(** [analyze_window]; the path and the report are returned beside the new
    state, which holds the file that was written. *)
Definition analyze_window (s : O3Graph) : res (list Vertex * BottleneckReport * O3Graph) :=
  let s := construct_induced_graph s in
  '(path, s) ← longest_path s;
  '(report, s) ← profiling_critical_path s path;
  Ok (path, report, s).

End analyze.
