(* ===== verification/GraphTheory.v ===== *)
(** * Well-formed dependence graphs

    The interface between building the graph and analysing it.  The edges of a
    [deg_t] are listed by [edges]; [WfDeg V g p] says that the vertices come
    from a set [V] on which the map comparator decides equality, that every edge
    goes forward in [rank] with a non-negative cost, and that the predecessor
    map [p] is the transpose of [g], multiplicities included.  The analysis is
    proved against [WfDeg]; the construction establishes it. *)

From S2P Require Import Prelude Machine OrderedMap External Instruction Bottleneck GraphDefs.
From S2P Require Import DegBuild.

#[local] Open Scope list_scope.
#[local] Open Scope Z_scope.

Definition edges (g : deg_t) : list (Vertex * OutgoingEdge) :=
  g ≫= fun x => (fun e => (x.1, e)) <$> x.2.
Definition pred_edges (p : pred_t) : list (Vertex * Vertex) :=
  p ≫= fun x => (fun q => (parent q, x.1)) <$> x.2.
Definition edge_pair (x : Vertex * OutgoingEdge) : Vertex * Vertex := (x.1, child x.2).

Lemma edges_app g1 g2 : edges (g1 ++ g2) = edges g1 ++ edges g2.
Proof. apply bind_app. Qed.
Lemma edges_cons u es g : edges ((u, es) :: g) = ((fun e => (u, e)) <$> es) ++ edges g.
Proof. done. Qed.
Lemma pred_edges_app p1 p2 : pred_edges (p1 ++ p2) = pred_edges p1 ++ pred_edges p2.
Proof. apply bind_app. Qed.
Lemma pred_edges_cons v ps p :
  pred_edges ((v, ps) :: p) = ((fun q => (parent q, v)) <$> ps) ++ pred_edges p.
Proof. done. Qed.

(** The edge relation. *)
Definition has_edge (g : deg_t) (u v : Vertex) : Prop :=
  exists e, (u, e) ∈ edges g /\ child e = v.

(** A set of vertices in which type and instruction number identify. *)
Class VertexSet (V : Vertex -> Prop) : Prop :=
  vset_inj u v : V u -> V v -> vtype u = vtype v -> vseq u = vseq v -> u = v.

Record WfDeg (V : Vertex -> Prop) (g : deg_t) (p : pred_t) : Prop := {
  wf_gsorted : om_sorted VertexCompare g;
  wf_psorted : om_sorted VertexCompare p;
  wf_gkeys : Forall V (om_keys g);
  wf_pkeys : Forall V (om_keys p);
  wf_edges : Forall (fun x => V (child x.2) /\ rank x.1 < rank (child x.2) /\ 0 <= cost x.2)
               (edges g);
  wf_transpose : edge_pair <$> edges g ≡ₚ pred_edges p
}.

(** ** Updates of one entry *)

Section upd.
Context {A X : Type} (F : Vertex * A -> list X).

Lemma om_upd_bind k (f : option A -> A) (m : list (Vertex * A)) x :
  (forall k', k' ∈ om_keys m -> om_equiv VertexCompare k k' -> k' = k) ->
  F (k, f None) ≡ₚ x ->
  (forall v, F (k, f (Some v)) ≡ₚ x ++ F (k, v)) ->
  (om_upd VertexCompare k f m ≫= F) ≡ₚ x ++ (m ≫= F).
Proof.
  intros Hk HN HS. induction m as [|[k0 v0] m IH]; simpl.
  - by rewrite !app_nil_r.
  - assert (IH' : (om_upd VertexCompare k f m ≫= F) ≡ₚ x ++ (m ≫= F)).
    { apply IH. intros k' Hin. apply Hk. simpl. set_solver. }
    destruct (VertexCompare k0 k) eqn:E1; [|destruct (VertexCompare k k0) eqn:E2]; simpl.
    + rewrite IH'. apply Permutation_app_swap_app.
    + by rewrite HN.
    + assert (k0 = k) as -> by (apply Hk; [simpl; set_solver|done]).
      by rewrite HS, <- app_assoc.
Qed.
End upd.

Section wf.
Context (V : Vertex -> Prop) `{HV : !VertexSet V}.

Lemma vset_equiv u v : V u -> V v -> om_equiv VertexCompare u v -> v = u.
Proof. intros Hu Hv [? ?]%VertexCompare_equiv. symmetry. by apply HV. Qed.

Lemma edges_append g u e :
  Forall V (om_keys g) -> V u ->
  edges (om_upd VertexCompare u (fun o => default [] o ++ [e]) g) ≡ₚ (u, e) :: edges g.
Proof.
  intros Hg Hu. rewrite Forall_forall in Hg. unfold edges.
  rewrite (om_upd_bind _ u _ g [(u, e)]); [done|..].
  - intros k' Hk. by apply vset_equiv, Hg.
  - done.
  - intros v. simpl. rewrite fmap_app. apply Permutation_app_comm.
Qed.

Lemma edges_touch g u :
  Forall V (om_keys g) -> V u -> edges (touch g u) ≡ₚ edges g.
Proof.
  intros Hg Hu. rewrite Forall_forall in Hg. unfold edges, touch.
  rewrite (om_upd_bind _ u _ g []); [done|..].
  - intros k' Hk. by apply vset_equiv, Hg.
  - done.
  - done.
Qed.

Lemma pred_edges_append p u v :
  Forall V (om_keys p) -> V v ->
  pred_edges (om_upd VertexCompare v (fun o => default [] o ++ [mkIn u]) p) ≡ₚ
  (u, v) :: pred_edges p.
Proof.
  intros Hp Hv. rewrite Forall_forall in Hp. unfold pred_edges.
  rewrite (om_upd_bind _ v _ p [(u, v)]); [done|..].
  - intros k' Hk. by apply vset_equiv, Hp.
  - done.
  - intros w. simpl. rewrite fmap_app. apply Permutation_app_comm.
Qed.

Lemma pred_edges_touch p v :
  Forall V (om_keys p) -> V v -> pred_edges (touch_pred p v) ≡ₚ pred_edges p.
Proof.
  intros Hp Hv. rewrite Forall_forall in Hp. unfold pred_edges, touch_pred.
  rewrite (om_upd_bind _ v _ p []); [done|..].
  - intros k' Hk. by apply vset_equiv, Hp.
  - done.
  - done.
Qed.

Lemma keys_upd {A} k (f : option A -> A) m :
  V k -> Forall V (om_keys m) -> Forall V (om_keys (om_upd VertexCompare k f m)).
Proof.
  rewrite !Forall_forall. intros Hk Hm x Hx.
  apply (om_upd_keys VertexCompare) in Hx as [->|Hx]; [done|by apply Hm].
Qed.

(** ** Reading the maps *)

Lemma om_find_vset {A} (m : list (Vertex * A)) u x :
  om_sorted VertexCompare m -> Forall V (om_keys m) -> V u ->
  om_find VertexCompare u m = Some x <-> (u, x) ∈ m.
Proof.
  intros Hs Hm Hu. rewrite Forall_forall in Hm.
  rewrite (om_find_elem VertexCompare) by done. split.
  - intros (k & He & Hin). assert (k = u) as ->; [|done].
    apply vset_equiv; try done. apply Hm, list_elem_of_fmap. by exists (k, x).
  - intros Hin. exists u. split; [done|done].
Qed.

Lemma elem_of_edges g u e : (u, e) ∈ edges g <-> exists es, (u, es) ∈ g /\ e ∈ es.
Proof.
  unfold edges. rewrite list_elem_of_bind. split.
  - intros ([k es] & (e' & [= -> ->] & He)%list_elem_of_fmap & Hin). eauto.
  - intros (es & Hin & He). exists (u, es). split; [|done].
    apply list_elem_of_fmap. eauto.
Qed.

Lemma elem_of_pred_edges p u v :
  (u, v) ∈ pred_edges p <-> exists ps, (v, ps) ∈ p /\ mkIn u ∈ ps.
Proof.
  unfold pred_edges. rewrite list_elem_of_bind. split.
  - intros ([k ps] & ([q] & [= -> ->] & Hq)%list_elem_of_fmap & Hin). eauto.
  - intros (ps & Hin & Hq). exists (v, ps). split; [|done].
    apply list_elem_of_fmap. by exists (mkIn u).
Qed.

Lemma elem_of_children g u e :
  om_sorted VertexCompare g -> Forall V (om_keys g) -> V u ->
  e ∈ children g u <-> (u, e) ∈ edges g.
Proof.
  intros Hs Hg Hu. rewrite elem_of_edges. unfold children.
  setoid_rewrite <- (om_find_vset g u); [|done..].
  destruct (om_find VertexCompare u g) as [es|]; simpl.
  - split; [eauto|]. by intros (? & [= ->] & ?).
  - split; [set_solver|]. by intros (? & [=] & ?).
Qed.

Lemma elem_of_parents p u v :
  om_sorted VertexCompare p -> Forall V (om_keys p) -> V v ->
  mkIn u ∈ parents p v <-> (u, v) ∈ pred_edges p.
Proof.
  intros Hs Hp Hv. rewrite elem_of_pred_edges. unfold parents.
  setoid_rewrite <- (om_find_vset p v); [|done..].
  destruct (om_find VertexCompare v p) as [ps|]; simpl.
  - split; [eauto|]. by intros (? & [= ->] & ?).
  - split; [set_solver|]. by intros (? & [=] & ?).
Qed.

Lemma children_touch g u v :
  om_sorted VertexCompare g -> children (touch g u) v = children g v.
Proof.
  intros Hs. unfold children, touch.
  destruct (decide (vtype u = vtype v /\ vseq u = vseq v)) as [He|He];
    rewrite <- VertexCompare_equiv in He.
  - rewrite (om_find_upd_same _ u v) by done. simpl.
    destruct (om_find VertexCompare u g) as [es|] eqn:E; simpl.
    + apply (om_find_elem VertexCompare) in E as (k & Hk & Hin); [|done].
      rewrite (proj2 (om_find_elem VertexCompare v g es Hs)); [done|].
      exists k. split; [|done]. transitivity u; [by symmetry|done].
    + destruct (om_find VertexCompare v g) as [es|] eqn:E'; [|done].
      apply (om_find_elem VertexCompare) in E' as (k & Hk & Hin); [|done].
      rewrite (proj2 (om_find_elem VertexCompare u g es Hs)) in E; [done|].
      exists k. split; [|done]. by transitivity v.
  - rewrite (om_find_upd_other VertexCompare u v) by done. done.
Qed.

(** ** Consequences of well-formedness *)

Context {g : deg_t} {p : pred_t} (Hwf : WfDeg V g p).

Lemma wf_edge u e :
  (u, e) ∈ edges g -> V u /\ V (child e) /\ rank u < rank (child e) /\ 0 <= cost e.
Proof.
  intros He. split.
  - apply elem_of_edges in He as (es & Hin & _).
    eapply Forall_forall; [apply (wf_gkeys V g p Hwf)|].
    apply list_elem_of_fmap. by exists (u, es).
  - by apply (proj1 (Forall_forall _ _) (wf_edges V g p Hwf) (u, e)).
Qed.

Lemma wf_children u e : V u -> e ∈ children g u <-> (u, e) ∈ edges g.
Proof. apply elem_of_children; apply Hwf. Qed.

Lemma wf_parents u v : V v -> mkIn u ∈ parents p v <-> has_edge g u v.
Proof.
  intros Hv. rewrite elem_of_parents by (done || apply Hwf).
  rewrite <- (wf_transpose V g p Hwf). rewrite list_elem_of_fmap. unfold edge_pair, has_edge. split.
  - intros ([u' e] & [= -> ->] & Hin). eauto.
  - intros (e & Hin & <-). exists (u, e). done.
Qed.

Lemma wf_has_edge u v : has_edge g u v -> V u /\ V v /\ rank u < rank v.
Proof. intros (e & He & <-). apply wf_edge in He. tauto. Qed.

Lemma wf_touch u : V u -> WfDeg V (touch g u) p.
Proof.
  intros Hu. destruct Hwf as [H1 H2 H3 H4 H5 H6].
  assert (He := edges_touch g u H3 Hu). split; try done.
  - by apply om_upd_sorted; [apply _|].
  - by apply keys_upd.
  - by rewrite He.
  - by rewrite He.
Qed.

Lemma wf_touch_pred v : V v -> WfDeg V g (touch_pred p v).
Proof.
  intros Hv. destruct Hwf as [H1 H2 H3 H4 H5 H6].
  split; try done.
  - by apply om_upd_sorted; [apply _|].
  - by apply keys_upd.
  - by rewrite pred_edges_touch.
Qed.

Lemma wf_append u e :
  V u -> V (child e) -> rank u < rank (child e) -> 0 <= cost e ->
  WfDeg V (om_upd VertexCompare u (fun o => default [] o ++ [e]) g)
          (om_upd VertexCompare (child e) (fun o => default [] o ++ [mkIn u]) p).
Proof.
  intros Hu Hc Hr Hcost. destruct Hwf as [H1 H2 H3 H4 H5 H6].
  assert (He := edges_append g u e H3 Hu). split.
  - by apply om_upd_sorted; [apply _|].
  - by apply om_upd_sorted; [apply _|].
  - by apply keys_upd.
  - by apply keys_upd.
  - rewrite He. by constructor.
  - rewrite He, pred_edges_append by done. simpl. by constructor.
Qed.

End wf.

Lemma has_edge_perm g g' u v : edges g ≡ₚ edges g' -> has_edge g u v <-> has_edge g' u v.
Proof. intros H. unfold has_edge. by setoid_rewrite H. Qed.

Lemma num_edges_edges g : length (edges g) = length (mjoin g.*2).
Proof.
  induction g as [|[u es] g IH]; [done|].
  rewrite edges_cons. simpl. by rewrite !length_app, length_fmap, IH.
Qed.

(** ** Vertices, out-edges and in-degrees *)

(** The vertices of a graph: map keys and edge ends. *)
Definition verts (g : deg_t) (v : Vertex) : Prop :=
  v ∈ om_keys g \/ exists u, has_edge g u v.

Definition indeg (L : list (Vertex * Vertex)) (v : Vertex) : nat :=
  length (filter (fun q => q.2 = v) L).

#[global] Instance indeg_proper : Proper ((≡ₚ) ==> (=) ==> (=)) indeg.
Proof. intros L L' HL v ? <-. unfold indeg. by rewrite HL. Qed.

Lemma indeg_cons q L v :
  indeg (q :: L) v = ((if decide (q.2 = v) then 1 else 0) + indeg L v)%nat.
Proof. unfold indeg. rewrite filter_cons. by case_decide. Qed.

Lemma indeg_zero L v : indeg L v = 0%nat <-> forall u, (u, v) ∉ L.
Proof.
  unfold indeg. rewrite length_zero_iff_nil. split.
  - intros H u Hu. assert (Hin : (u, v) ∈ filter (fun q => q.2 = v) L).
    { apply list_elem_of_filter. done. }
    rewrite H in Hin. set_solver.
  - intros H. apply elem_of_nil_inv. intros [u w] [Hw Hin]%list_elem_of_filter.
    simpl in Hw. subst. by destruct (H u).
Qed.

Section degrees.
Context (V : Vertex -> Prop) `{HV : !VertexSet V}.

Lemma keys_upd_iff {A} k (f : option A -> A) m x :
  V k -> Forall V (om_keys m) ->
  x ∈ om_keys (om_upd VertexCompare k f m) <-> x = k \/ x ∈ om_keys m.
Proof.
  intros Hk Hm. split; [apply (om_upd_keys VertexCompare)|].
  induction m as [|[k0 v0] m IH]; simpl; [set_solver|].
  simpl in Hm. apply Forall_cons in Hm as [Hk0 Hm]. specialize (IH Hm).
  destruct (VertexCompare k0 k) eqn:E1; [|destruct (VertexCompare k k0) eqn:E2]; simpl.
  - set_solver.
  - set_solver.
  - assert (k0 = k) as -> by (apply (vset_equiv V); done). set_solver.
Qed.

Lemma edges_from g u :
  om_sorted VertexCompare g -> Forall V (om_keys g) -> V u ->
  filter (fun x => x.1 = u) (edges g) = (fun e => (u, e)) <$> children g u.
Proof.
  intros Hs Hg Hu.
  assert (Hnd := om_sorted_NoDup VertexCompare g Hs).
  assert (Hnone : forall g', u ∉ om_keys g' -> filter (fun x => x.1 = u) (edges g') = []).
  { intros g' Hn. apply elem_of_nil_inv. intros [w e] [Hw Hin]%list_elem_of_filter.
    simpl in Hw. subst w. apply elem_of_edges in Hin as (es & Hin & _).
    apply Hn, list_elem_of_fmap. by exists (u, es). }
  unfold children. destruct (om_find VertexCompare u g) as [es|] eqn:E.
  - apply (om_find_vset V) in E; [|done..].
    apply list_elem_of_split in E as (g1 & g2 & ->).
    unfold om_keys in Hnd. rewrite fmap_app in Hnd. simpl in Hnd.
    apply NoDup_app in Hnd as (_ & Hd & Hnd). apply NoDup_cons in Hnd as [Hn2 _].
    rewrite edges_app, edges_cons, !filter_app.
    rewrite (Hnone g1), (Hnone g2); [|done|intros H; apply (Hd u H); set_solver].
    simpl. rewrite app_nil_r. clear. induction es as [|e es IH]; [done|].
    csimpl. rewrite filter_cons_True by done. by rewrite IH.
  - apply Hnone. intros ([k es] & Hk & Hin)%list_elem_of_fmap. simpl in Hk. subst k.
    apply (om_find_vset V) in Hin; [congruence|done..].
Qed.

Lemma pred_entry_indeg p v ps :
  NoDup (om_keys p) -> (v, ps) ∈ p -> indeg (pred_edges p) v = length ps.
Proof.
  assert (Happ : forall L1 L2, indeg (L1 ++ L2) v = (indeg L1 v + indeg L2 v)%nat).
  { intros. unfold indeg. by rewrite filter_app, length_app. }
  assert (Hsame : forall qs, indeg ((fun q => (parent q, v)) <$> qs) v = length qs).
  { induction qs as [|q qs IH]; [done|].
    csimpl. rewrite indeg_cons, decide_True, IH by done. done. }
  intros Hnd Hin. apply list_elem_of_split in Hin as (p1 & p2 & ->).
  unfold om_keys in Hnd. rewrite fmap_app in Hnd. simpl in Hnd.
  apply NoDup_app in Hnd as (_ & Hd & Hnd). apply NoDup_cons in Hnd as [Hn2 _].
  assert (Hnone : forall p', v ∉ p'.*1 -> indeg (pred_edges p') v = 0%nat).
  { intros p' Hn. apply indeg_zero. intros u (qs & Hin & _)%elem_of_pred_edges.
    apply Hn, list_elem_of_fmap. by exists (v, qs). }
  rewrite pred_edges_app, pred_edges_cons, !Happ, Hsame.
  rewrite (Hnone p1), (Hnone p2); [lia|done|].
  intros H. apply (Hd v H). set_solver.
Qed.

End degrees.
