(* ===== verification/TraceParse.v ===== *)
(** * Reading a trace

    instruction/riscv_instruction.h, the constructor from a line and the
    [set_*] functions; instruction/riscv_instruction.cc, [next]; the string
    helpers of common/utils.cc they use.  A line is split at colons; the
    numbers go through [std::stoull] and [std::stoi], which raise on text
    without a number and on a number out of range.  [operator[]] past the end
    of the segments is undefined. *)

From stdpp Require Import pretty.
From S2P Require Import Prelude Machine External Instruction DegBuild.

#[local] Open Scope string_scope.
#[local] Open Scope list_scope.
#[local] Open Scope Z_scope.

(** ** Characters *)

(** [std::isspace] in the classic locale. *)
Definition isspace (c : ascii) : bool :=
  let n := Ascii.nat_of_ascii c in
  Nat.eqb n 32 || (Nat.leb 9 n && Nat.leb n 13).

Definition digit_val (c : ascii) : option Z :=
  let n := Z.of_nat (Ascii.nat_of_ascii c) in
  if (48 <=? n) && (n <=? 57) then Some (n - 48) else None.

Definition hex_val (c : ascii) : option Z :=
  let n := Z.of_nat (Ascii.nat_of_ascii c) in
  if (48 <=? n) && (n <=? 57) then Some (n - 48)
  else if (97 <=? n) && (n <=? 102) then Some (n - 87)
  else if (65 <=? n) && (n <=? 70) then Some (n - 55)
  else None.

(** ** common/utils.cc *)

Fixpoint lstrip (s : string) : string :=
  match s with
  | "" => ""
  | String c s' => if isspace c then lstrip s' else s
  end.

Fixpoint rstrip (s : string) : string :=
  match s with
  | "" => ""
  | String c s' =>
      match rstrip s' with
      | "" => if isspace c then "" else String c ""
      | r => String c r
      end
  end.

Definition strip (s : string) : string := lstrip (rstrip s).

(** ** std::string and the numeric conversions *)

Fixpoint find_char (c : ascii) (s : string) : option nat :=
  match s with
  | "" => None
  | String d s' => if Ascii.eqb d c then Some 0%nat else S <$> find_char c s'
  end.

Fixpoint drop_str (n : nat) (s : string) : string :=
  match n, s with
  | O, _ => s
  | _, "" => ""
  | S n', String _ s' => drop_str n' s'
  end.

Fixpoint take_str (n : nat) (s : string) : string :=
  match n, s with
  | O, _ | _, "" => ""
  | S n', String c s' => String c (take_str n' s')
  end.

(** [find('=') + 1]: the position after the sign, which wraps to 0 when there
    is none. *)
Definition eq_pos (s : string) : nat :=
  match find_char "=" s with Some k => S k | None => O end.
Definition after_eq (s : string) : string := drop_str (eq_pos s) s.

(** The digits at the front of a string, in base [b]. *)
Fixpoint digits (val : ascii -> option Z) (b acc : Z) (s : string) : Z :=
  match s with
  | "" => acc
  | String c s' => match val c with Some d => digits val b (acc * b + d) s' | None => acc end
  end.
Definition starts_digit (val : ascii -> option Z) (s : string) : bool :=
  match s with "" => false | String c _ => bool_decide (is_Some (val c)) end.

(** An optional sign. *)
Definition sign (s : string) : bool * string :=
  match s with
  | String c s' =>
      if Ascii.eqb c "-" then (true, s') else if Ascii.eqb c "+" then (false, s') else (false, s)
  | "" => (false, s)
  end.

(** Sign and magnitude of the decimal number at the front of a string. *)
Definition strto (s : string) : option (bool * Z) :=
  let '(neg, s) := sign (lstrip s) in
  if starts_digit digit_val s then Some (neg, digits digit_val 10 0 s) else None.

Definition stoull (s : string) : res Z :=
  match strto s with
  | None => Stop Uncaught
  | Some (neg, v) =>
      if v <? 2 ^ 64 then Ok (u64 (if neg : bool then - v else v)) else Stop Uncaught
  end.

Definition stoi (s : string) : res Z :=
  match strto s with
  | None => Stop Uncaught
  | Some (neg, v) =>
      let z := if neg : bool then - v else v in
      if (- 2 ^ 31 <=? z) && (z <? 2 ^ 31) then Ok z else Stop Uncaught
  end.

(** [ss << std::hex << s; ss >> pc]: 0 when there is no number, the largest
    value when it is out of range. *)
Definition read_hex (s : string) : Z :=
  let '(neg, s) := sign (lstrip s) in
  let s := match s with
           | String "0" (String x s') =>
               if Ascii.eqb x "x" || Ascii.eqb x "X" then s' else s
           | _ => s
           end in
  if starts_digit hex_val s then
    let v := digits hex_val 16 0 s in
    if v <? 2 ^ 64 then u64 (if neg : bool then - v else v) else 2 ^ 64 - 1
  else 0.

Section parse.
Context `{B : Boost}.

Definition split (line separator : string) : list string := boost_split line separator.

(** [segments[k]]. *)
Definition seg (l : list string) (k : nat) : res string :=
  match l !! k with Some s => Ok s | None => Stop Undefined end.

Definition CYCLE_PER_TICK : Z := 1000.

Definition set_inst (line : string) : string := strip line.

(** [line.substr(0, line.find("@") - 1)]: the subtraction wraps at 0 and at npos. *)
Definition set_pc (line : string) : Z :=
  read_hex (match find_char "@" line with
            | Some (S k) => take_str k line
            | _ => line
            end).

Definition set_inst_type (line : string) : res InstType :=
  let type := strip line in
  if String.eqb type "MemRead" then Ok MemRead
  else if String.eqb type "FloatMemRead" then Ok FloatMemRead
  else if String.eqb type "MemWrite" then Ok MemWrite
  else if String.eqb type "FloatMemWrite" then Ok FloatMemWrite
  else if String.eqb type "IntAlu" then Ok IntAlu
  else if String.eqb type "IntMult" then Ok IntMult
  else if String.eqb type "IntDiv" then Ok IntDiv
  else if String.eqb type "FloatAdd" then Ok FloatAdd
  else if String.eqb type "FloatCmp" then Ok FloatCmp
  else if String.eqb type "FloatCvt" then Ok FloatCvt
  else if String.eqb type "FloatMult" then Ok FloatMult
  else if String.eqb type "FloatMultAcc" then Ok FloatMultAcc
  else if String.eqb type "FloatMisc" then Ok FloatMisc
  else if String.eqb type "FloatDiv" then Ok FloatDiv
  else if String.eqb type "FloatSqrt" then Ok FloatSqrt
  else
    _ ← ppk_assert (String.eqb type "No_OpClass");
    Ok NoOpClass.

Definition tick_of (line : string) : res Z :=
  v ← stoull (after_eq line);
  Ok (v / CYCLE_PER_TICK).

Definition set_event_tick (segments : list string) : res Tick :=
  let f idx := s ← seg segments idx; tick_of s in
  t7 ← f 7%nat; t8 ← f 8%nat; t9 ← f 9%nat; t10 ← f 10%nat;
  t11 ← f 11%nat; t12 ← f 12%nat; t13 ← f 13%nat; t14 ← f 14%nat;
  t15 ← f 15%nat; t16 ← f 16%nat; t17 ← f 17%nat; t18 ← f 18%nat;
  t19 ← f 19%nat; t20 ← f 20%nat; t21 ← f 21%nat; t22 ← f 22%nat;
  t23 ← f 23%nat; t24 ← f 24%nat; t25 ← f 25%nat; t26 ← f 26%nat;
  Ok (mkTick t7 t8 t9 t10 t11 t12 t13 t14 t15 t16 t17 t18 t19 t20 t21 t22 t23 t24 t25 t26).

(** [set_rob], [set_lq], [set_sq], [set_iq] and [set_fu] share this body. *)
Definition set_int (line : string) : res Z := stoi (after_eq line).

Fixpoint stoi_all (l : list string) : res (list Z) :=
  match l with
  | [] => Ok []
  | s :: l' =>
      if String.eqb s "" then stoi_all l'
      else
        x ← stoi s;
        xs ← stoi_all l';
        Ok (x :: xs)
  end.

Definition set_src_reg (line : string) : res (list Z) :=
  let src_line := after_eq line in
  match find_char "," src_line with
  | Some _ => stoi_all (split (strip src_line) ",")
  | None => stoi_all [strip src_line]
  end.

Definition set_dst_reg (line : string) : res Z :=
  if Nat.eqb (eq_pos line) (String.length line) then Ok (-1)
  else stoi (after_eq line).

(** The constructor from a line of the trace. *)
Definition RiscvInstruction_new (line : string) (seq : Z) : res RiscvInstruction :=
  let segments := split line ":" in
  s4 ← seg segments 4%nat;
  s5 ← seg segments 5%nat; type ← set_inst_type s5;
  s3 ← seg segments 3%nat;
  ticks ← set_event_tick segments;
  s27 ← seg segments 27%nat; rob ← set_int s27;
  s28 ← seg segments 28%nat; lq ← set_int s28;
  s29 ← seg segments 29%nat; sq ← set_int s29;
  s30 ← seg segments 30%nat; iq ← set_int s30;
  s31 ← seg segments 31%nat; fu ← set_int s31;
  s32 ← seg segments 32%nat; src ← set_src_reg s32;
  s33 ← seg segments 33%nat; dst ← set_dst_reg s33;
  Ok (mkInst (set_inst s4) type (set_pc s3) ticks seq src dst rob lq sq iq fu).

(** [RiscvInstructionStream::next]; [None] is the null pointer. *)
Definition next (st : RiscvInstructionStream)
  : res (option RiscvInstruction * RiscvInstructionStream) :=
  match trace st with
  | [] => Ok (None, st)
  | line :: rest =>
      let seq := u64 (stream_seq st + 1) in
      i ← RiscvInstruction_new line seq;
      Ok (Some i, mkStream rest seq)
  end.

(** ** Jump-and-link-register *)

Definition get_rs1_from_jalr (i : RiscvInstruction) : res string :=
  s ← seg (split (inst i) " ") 1%nat;
  Ok (take_str (String.length s - 1) s).

Definition get_rd_from_jalr (i : RiscvInstruction) : res string :=
  v1 ← seg (split (inst i) "(") 1%nat;
  seg (split v1 ")") 0%nat.

Definition is_link (r : string) : bool := String.eqb r "ra" || String.eqb r "t0".

Definition use_ras (i : RiscvInstruction) : res bool :=
  if starts_with (inst i) "jalr" then
    rs1 ← get_rs1_from_jalr i;
    rd ← get_rd_from_jalr i;
    Ok (is_link rs1 || is_link rd)
  else Ok (starts_with (inst i) "jal ra" || starts_with (inst i) "jal t0").

Definition use_ipred (i : RiscvInstruction) : res bool :=
  if starts_with (inst i) "jalr" then
    rs1 ← get_rs1_from_jalr i;
    rd ← get_rd_from_jalr i;
    Ok (negb (is_link rs1) || (is_link rs1 && is_link rd && String.eqb rs1 rd))
  else Ok false.

End parse.

(** ** Numbers read back *)

Lemma digits_pretty x s :
  digits digit_val 10 0 (pretty_N_go x s) = digits digit_val 10 (Z.of_N x) s.
Proof.
  revert s. induction (N.lt_wf_0 x) as [x _ IH]. intros s.
  destruct (decide (0 < x)%N) as [Hx|Hx].
  - rewrite pretty_N_go_step by done. rewrite IH by (by apply N.div_lt).
    cbn [digits].
    assert (Hd : digit_val (pretty_N_char (x `mod` 10)) = Some (Z.of_N (x `mod` 10))).
    { assert (Hlt : (x `mod` 10 < 10)%N) by (by apply N.mod_lt).
      destruct (x `mod` 10)%N as [|p]; [done|].
      do 4 (destruct p as [p|p|]; try done; try lia). }
    rewrite Hd. f_equal. rewrite N2Z.inj_div, N2Z.inj_mod. pose proof (Z.div_mod (Z.of_N x) 10). lia.
  - replace x with 0%N by lia. by rewrite pretty_N_go_0.
Qed.

Lemma digits_pretty_N n : digits digit_val 10 0 (pretty n) = Z.of_N n.
Proof.
  unfold pretty, pretty_N. case_decide as H; [by subst|]. by rewrite digits_pretty.
Qed.
