(* ===== verification/Visualizer.v ===== *)
(** * The picture of the graph

    graph/visualizer.h and [O3Graph::visualize].  Boost.Graph, its Graphviz
    writer and Boost.Filesystem are the class [BoostPicture] of External. *)

From stdpp Require Import pretty.
From S2P Require Import Prelude Machine OrderedMap External Instruction Bottleneck GraphDefs.
From S2P Require Import DegBuild Analyze GraphTheory.

#[local] Open Scope string_scope.
#[local] Open Scope list_scope.
#[local] Open Scope Z_scope.

(** ** Properties *)

Record vertex_property := mkVP {
  vp_type : VertexType;
  vp_inst_seq : Z;
  vp_inst : string;
  vp_pos : Z * Z
}.

Record edge_property := mkEP {
  ep_weight : Z;
  ep_bottleneck : Bottleneck;
  ep_critical : bool;
  ep_virtual : bool;
  ep_dashed : bool
}.

(** The library, for these properties. *)
Notation BoostGraph := (BoostPicture vertex_property edge_property).
Notation BoostGraphLaws := BoostPictureLaws.

Section visualizer.
Context `{G : BoostGraph}.

(** ** Vertices and edges *)

Definition get_vertex (v : vertex_property) (g : bg_t) : option nat :=
  fst <$> list_find (fun w => vp_type v = vp_type w /\ vp_inst_seq v = vp_inst_seq w) (bg_vertices g).

Definition add_vertex_with_property (v : vertex_property) (g : bg_t) : nat * bg_t :=
  match get_vertex v g with
  | None => bg_add_vertex v g
  | Some k => (k, g)
  end.

(** With the default [allow_multiple_edge = true] no edge is refused. *)
Definition add_edge_with_property (from to : nat) (e : edge_property) (g : bg_t) : bg_t :=
  bg_add_edge from to e g.

Definition property_of (v : Vertex) : vertex_property :=
  mkVP (vtype v) (vseq v) (inst (vinst v)) (to_int (timing v), to_int (vseq v)).

Definition in_range (start end_ : Z) (u : Vertex) (e : OutgoingEdge) : bool :=
  ((start <=? vseq u) && (vseq u <=? end_)) ||
  ((start <=? vseq (child e)) && (vseq (child e) <=? end_)).

Definition add_one (start end_ : Z) (u : Vertex) (g : bg_t) (e : OutgoingEdge) : bg_t :=
  if in_range start end_ u e then
    let '(v1, g) := add_vertex_with_property (property_of u) g in
    let '(v2, g) := add_vertex_with_property (property_of (child e)) g in
    add_edge_with_property v1 v2
      (mkEP (weight e) (bottleneck e) (critical e) (is_virtual e) false) g
  else g.

Definition deg2bg (deg : deg_t) (start end_ : Z) : bg_t :=
  bg_set_name "New DEG"
    (foldl (fun g x => foldl (add_one start end_ x.1) g x.2) bg_empty deg).

Definition ULONG_MAX : Z := 2 ^ 64 - 1.

Definition Visualizer_new (deg : deg_t) (start end_ : Z) : bg_t :=
  if (start =? 0) && (end_ =? 0) then deg2bg deg 0 ULONG_MAX else deg2bg deg start end_.

(** ** Writing *)

Definition show_pos (z : Z) : string :=
  if z <? 0 then "-" +:+ show_Z (- z) else show_Z z.

Definition graphviz_encode (s : string) : string := s.

Definition VertexWriter (g : bg_t) (vd : nat) : string :=
  match bg_vertices g !! vd with
  | None => ""
  | Some v =>
      "[label=" +:+ quote +:+
      (if String.eqb (name_of_vertex_type (vp_type v)) "F1" then vp_inst v +:+ backslash_n else "") +:+
      graphviz_encode (show_Z (vp_inst_seq v) +:+ " " +:+ name_of_vertex_type (vp_type v)) +:+
      quote +:+ ",pos=" +:+ quote +:+ show_pos (vp_pos v).1 +:+ "," +:+ show_pos (vp_pos v).2 +:+
      "!" +:+ quote +:+ "]"
  end.

Definition EdgeWriter (ed : nat * nat * edge_property) : string :=
  let e := ed.2 in
  let label := show_latency (ep_weight e) +:+ ", " in
  "[label=" +:+ quote +:+ __repr__ (ep_bottleneck e) +:+ " (" +:+
  graphviz_encode (String.substring 0 (String.length label - 2) label) +:+ ")" +:+ quote +:+
  (if ep_critical e then ", color=" +:+ quote +:+ "red" +:+ quote +:+ "]"
   else if ep_virtual e then
     ", style=" +:+ quote +:+ "dashed" +:+ quote +:+ ",color=" +:+ quote +:+ "blue" +:+ quote +:+ "]"
   else "]").

Definition attr (name value : string) : string := name +:+ "=" +:+ quote +:+ value +:+ quote +:+ " ".

Definition graph_header (g : bg_t) : string :=
  "name=" +:+ quote +:+ bg_name g +:+ quote +:+ ";" +:+ newline +:+
  "graph [" +:+ attr "bgcolor" "#FFFFFF" +:+ attr "color" "#000000" +:+ attr "fontcolor" "#000000" +:+
  "fontname=Times fontsize=10 " +:+ attr "margin" "0,0" +:+ attr "pad" "1.0,0.5" +:+ "rankdir=LR]" +:+ newline +:+
  "node [" +:+ attr "color" "#000000" +:+ attr "fillcolor" "#E8E8E8" +:+ attr "fontcolor" "#000000" +:+
  "fontname=Times fontsize=10 " +:+ attr "margin" "0,0" +:+ "shape=ellipse style=filled]" +:+ newline +:+
  "edge [" +:+ attr "color" "#000000" +:+ attr "fontcolor" "#000000" +:+
  "fontname=Times fontsize=10 style=solid]" +:+ newline.

(** The content [dot] writes to its file. *)
Definition dot (g : bg_t) : string :=
  bg_write_graphviz g (VertexWriter g) EdgeWriter (graph_header g).

Definition get_dir_path (path : string) : string := fs_parent_path path.
Definition get_plain_file_name (path : string) : string := fs_stem path.

(** [O3Graph::visualize]: the file written and its content, with [-v]. *)
Definition visualize (s : O3Graph) : option (string * string) :=
  if view s then
    Some (get_dir_path (output_file s) +:+ "/" +:+ get_plain_file_name (output_file s) +:+ ".dot",
          dot (Visualizer_new (graph s) (start s) (end_ s)))
  else None.

(** ** The picture shows the selected edges *)

Context `{HG : !BoostGraphLaws G}.

Definition vp_key (v : vertex_property) : VertexType * Z := (vp_type v, vp_inst_seq v).
Definition v_key (v : Vertex) : VertexType * Z := (vtype v, vseq v).

Definition ep_of (e : OutgoingEdge) : edge_property :=
  mkEP (weight e) (bottleneck e) (critical e) (is_virtual e) false.
Definition edge_shown (x : Vertex * OutgoingEdge) : (VertexType * Z) * (VertexType * Z) * edge_property :=
  (v_key x.1, v_key (child x.2), ep_of x.2).

(** The picture [g] shows the edges [L]. *)
Definition pictured (g : bg_t) (L : list (Vertex * OutgoingEdge)) : Prop := drawn vp_key edge_shown g L.

Lemma get_vertex_some v g k : get_vertex v g = Some k -> vp_key <$> bg_vertices g !! k = Some (vp_key v).
Proof using. apply find_key_some. intros w [Ht Hs]. unfold vp_key. by rewrite Ht, Hs. Qed.
Lemma get_vertex_none v g : get_vertex v g = None -> vp_key v ∉ vp_key <$> bg_vertices g.
Proof using. apply find_key_none. intros w Hk. unfold vp_key in Hk. by injection Hk. Qed.

Lemma add_one_ok a b u e g L :
  pictured g L -> pictured (add_one a b u g e) (if in_range a b u e then (u, e) :: L else L).
Proof using HG.
  intros Hd. unfold add_one. destruct (in_range a b u e); [|done].
  apply (connect_ok vp_key edge_shown get_vertex get_vertex_some get_vertex_none g L
    (property_of u, property_of (child e), ep_of e) (u, e) eq_refl Hd).
Qed.

(** Every selected edge is drawn once, between the vertices of its ends, and
    no two vertices of the picture stand for the same event. *)
Lemma deg2bg_ok deg a b :
  pictured (deg2bg deg a b) (filter (fun x => in_range a b x.1 x.2 = true) (edges deg)).
Proof using HG.
  assert (Hes : forall es u g L, pictured g L ->
    pictured (foldl (add_one a b u) g es)
      (filter (fun x => in_range a b x.1 x.2 = true) ((fun e => (u, e)) <$> es) ++ L)).
  { induction es as [|e es IH]; intros u g L Hd; [done|]. csimpl.
    pose proof (add_one_ok a b u e g L Hd) as H1. apply (IH u) in H1.
    rewrite filter_cons. simpl. destruct (in_range a b u e); simpl; [|done].
    eapply drawn_perm; [|exact H1]. symmetry. apply Permutation_middle. }
  assert (Hall : forall dg g L, pictured g L ->
    pictured (foldl (fun g x => foldl (add_one a b x.1) g x.2) g dg)
      (filter (fun x => in_range a b x.1 x.2 = true) (edges dg) ++ L)).
  { induction dg as [|[u es] dg IH]; intros g L Hd; [done|]. cbn [foldl].
    apply (Hes es u), (IH _) in Hd. rewrite edges_cons, filter_app.
    eapply drawn_perm; [|exact Hd]. rewrite <- app_assoc. apply Permutation_app_swap_app. }
  unfold deg2bg. apply drawn_name. eapply drawn_perm; [|apply (Hall deg bg_empty [])].
  - by rewrite app_nil_r.
  - apply drawn_empty.
Qed.

End visualizer.
