(* ===== verification/Run.v ===== *)
(** * The program

    graph/o3.cc, the constructor and [run]; common/utils.cc, [parse_args];
    instruction/instruction.cc, opening the trace; main/main.cc.  The command
    line is what [getopt_long] makes of it: a list of option characters with
    their arguments.  The length of the window is a parameter of the loop; the
    program runs it at [WINDOW]. *)

From S2P Require Import Prelude Machine OrderedMap External Instruction Bottleneck GraphDefs.
From S2P Require Import DegBuild Interaction Induced LongestPath PathSearch Analyze TraceParse.
From S2P Require Import Visualizer.

#[local] Open Scope string_scope.
#[local] Open Scope list_scope.
#[local] Open Scope Z_scope.

(** ** Command line *)

Inductive has_arg := no_argument | required_argument | optional_argument.

(** The table of long options: name, argument, and the character returned. *)
Definition long_options : list (string * has_arg * ascii) :=
  [("help", no_argument, "h"%char);
   ("trace", required_argument, "c"%char);
   ("output", required_argument, "o"%char);
   ("view", optional_argument, "v"%char);
   ("start", optional_argument, "s"%char);
   ("end", optional_argument, "e"%char)].

(** [args[key] = optarg]: a null [optarg] is not a string. *)
Definition set_arg (key : string) (optarg : option string) (args : gmap string string)
  : res (gmap string string) :=
  match optarg with
  | Some v => Ok (<[key := v]> args)
  | None => Stop Undefined
  end.

Definition parse_opt (args : gmap string string) (o : ascii * option string)
  : res (gmap string string) :=
  let '(c, optarg) := o in
  if Ascii.eqb c "h" then Stop SuccessExit
  else if Ascii.eqb c "t" then set_arg "trace" optarg args
  else if Ascii.eqb c "o" then set_arg "output" optarg args
  else if Ascii.eqb c "v" then Ok (<["view" := "view"]> args)
  else if Ascii.eqb c "s" then set_arg "start" optarg args
  else if Ascii.eqb c "e" then set_arg "end" optarg args
  else Stop ErrorExit.

Definition parse_args (opts : list (ascii * option string)) : res (gmap string string) :=
  res_fold parse_opt ∅ opts.

(** ** The object *)

(** [InstructionStream(file_name)]: [None] is a file that cannot be opened. *)
Definition RiscvInstructionStream_new (file : option (list string)) : res RiscvInstructionStream :=
  match file with
  | Some lines => Ok (mkStream lines 0)
  | None => Stop ErrorExit
  end.

Definition stoull_arg (args : gmap string string) (key : string) : res Z :=
  match args !! key with Some v => stoull v | None => Ok 0 end.

Definition O3Graph_new (args : gmap string string) (st : RiscvInstructionStream) : res O3Graph :=
  let output := default "" (args !! "output") in
  let view := bool_decide (is_Some (args !! "view")) in
  start ← stoull_arg args "start";
  end_ ← stoull_arg args "end";
  Ok (mkO3 output view start end_ st [] [] ∅ [] register_bottlenecks None).

Section run.
Context `{B : Boost} `{G : BoostGraph}.

(** [analyze_window] as the loop calls it, for its effect. *)
Definition analyze (s : O3Graph) : res O3Graph :=
  '(_, _, s) ← analyze_window s;
  Ok s.

Fixpoint run_loop (fuel : nat) (win : Z) (s : O3Graph) : res O3Graph :=
  match fuel with
  | O => Stop OutOfFuel
  | S fuel =>
      '(inst, st) ← next (inst_stream s);
      let s := set_stream s st in
      s ← (if (0 <? get_inst_seq s) && (get_inst_seq s mod win =? 0) then analyze s else Ok s);
      match inst with
      | None => if negb (get_inst_seq s mod win =? 0) then analyze s else Ok s
      | Some i =>
          s ← step_inst s i;
          run_loop fuel win s
      end
  end.

Definition run (s : O3Graph) : res (O3Graph * option (string * string)) :=
  s ← run_loop (S (length (trace (inst_stream s)))) WINDOW s;
  Ok (s, visualize s).

(** [main], with the file system as a function from names to lines. *)
Definition main (files : string -> option (list string)) (opts : list (ascii * option string))
  : res (O3Graph * option (string * string)) :=
  args ← parse_args opts;
  st ← RiscvInstructionStream_new (files (default "" (args !! "trace")));
  s ← O3Graph_new args st;
  run s.

(** Reading the whole trace without analysing: what the loop does between two
    analyses. *)
Fixpoint read_trace (fuel : nat) (s : O3Graph) : res O3Graph :=
  match fuel with
  | O => Stop OutOfFuel
  | S fuel =>
      '(inst, st) ← next (inst_stream s);
      let s := set_stream s st in
      match inst with
      | None => Ok s
      | Some i => s ← step_inst s i; read_trace fuel s
      end
  end.

End run.
