(* ===== verification/TopoSort.v ===== *)
(** * Correctness of the topological sort

    [topological_sort] processes the vertices generation by generation.  The
    invariant relates the in-degree map to the list of edges not yet removed:
    a vertex is in the map exactly when some edge into it remains, with the
    number of those edges.  On a well-formed graph the sort ends, both
    assertions hold, and the result lists every vertex once, predecessors
    first. *)

From S2P Require Import Prelude Machine OrderedMap External Instruction Bottleneck GraphDefs.
From S2P Require Import DegBuild GraphTheory LongestPath.

#[local] Open Scope list_scope.
#[local] Open Scope Z_scope.

(** Every predecessor of a listed vertex is listed before it. *)
Definition topo_ordered (g : deg_t) (l : list Vertex) : Prop :=
  forall l1 v l2 u, l = l1 ++ v :: l2 -> has_edge g u v -> u ∈ l1.

Lemma topo_ordered_snoc g l v :
  topo_ordered g l -> (forall u, has_edge g u v -> u ∈ l) -> topo_ordered g (l ++ [v]).
Proof.
  intros Hl Hv l1 w l2 u Heq Hu.
  destruct l2 as [|x l2 _] using rev_ind.
  - apply app_inj_tail in Heq as [-> ->]. by apply Hv.
  - rewrite app_comm_cons, app_assoc in Heq. apply app_inj_tail in Heq as [Heq _].
    by eapply Hl.
Qed.

Lemma topo_ordered_app_l g l l' : topo_ordered g (l ++ l') -> topo_ordered g l.
Proof.
  intros H l1 v l2 u -> Hu. apply (H l1 v (l2 ++ l')); [|done].
  by rewrite <- app_assoc.
Qed.

(** The in-degree map counts the edges [R] that remain. *)
Definition counts (m : gmap Vertex Z) (R : list (Vertex * Vertex)) : Prop :=
  forall v, m !! v = if decide (indeg R v = 0%nat) then None else Some (Z.of_nat (indeg R v)).

Lemma counts_size_zero m : counts m [] -> size m = 0%nat.
Proof. intros H. apply map_size_empty_iff, map_empty. intros v. by rewrite H. Qed.

Lemma topo_edge_counts m zero e u R :
  counts m ((u, child e) :: R) ->
  exists m', counts m' R /\
  topo_edge (m, zero) e =
    (m', zero ++ if decide (indeg R (child e) = 0%nat) then [child e] else []).
Proof.
  intros Hm. set (c := child e) in *.
  assert (Hc : default 0 (m !! c) - 1 = Z.of_nat (indeg R c)).
  { rewrite Hm, indeg_cons. cbn [snd]. rewrite (decide_True (P := c = c)) by done.
    rewrite decide_False by lia. simpl. lia. }
  assert (Hne : forall v, v <> c -> m !! v =
    if decide (indeg R v = 0%nat) then None else Some (Z.of_nat (indeg R v))).
  { intros v Hv. rewrite Hm, indeg_cons. cbn [snd]. by rewrite (decide_False (P := c = v)) by done. }
  unfold topo_edge. fold c. rewrite Hc.
  destruct (decide (indeg R c = 0%nat)) as [H0|H0].
  - replace (Z.of_nat (indeg R c) =? 0) with true by lia. eexists. split; [|done].
    intros v. destruct (decide (v = c)) as [->|Hv].
    + by rewrite lookup_delete_eq, decide_True by done.
    + rewrite lookup_delete_ne by done. by apply Hne.
  - replace (Z.of_nat (indeg R c) =? 0) with false by lia. rewrite app_nil_r.
    eexists. split; [|done]. intros v. destruct (decide (v = c)) as [->|Hv].
    + by rewrite lookup_insert_eq, decide_False by done.
    + rewrite lookup_insert_ne by done. by apply Hne.
Qed.

Section kahn.
Context (V : Vertex -> Prop) `{HV : !VertexSet V} {g : deg_t} {p : pred_t} (Hwf : WfDeg V g p).
Context (Hpne : Forall (fun x => x.2 <> []) p).

Let E : list (Vertex * Vertex) := edge_pair <$> edges g.

Lemma E_has_edge u v : (u, v) ∈ E <-> has_edge g u v.
Proof.
  unfold E, has_edge, edge_pair. rewrite list_elem_of_fmap. split.
  - intros ([u' e] & [= -> ->] & He). eauto.
  - intros (e & He & <-). by exists (u, e).
Qed.

(** The state of the sort: [enq] lists the vertices enqueued so far. *)
Record kahn (m : gmap Vertex Z) (enq : list Vertex) (R : list (Vertex * Vertex)) : Prop := {
  k_counts : counts m R;
  k_sub : R ⊆ E;
  k_nodup : NoDup enq;
  k_enq x : x ∈ enq <-> verts g x /\ indeg R x = 0%nat;
  k_src u v : has_edge g u v -> (u, v) ∈ R \/ u ∈ enq;
  k_topo : topo_ordered g enq
}.

Lemma kahn_edge m enq zero e u R :
  kahn m (enq ++ zero) ((u, child e) :: R) -> u ∈ enq ->
  exists m' zero', topo_edge (m, zero) e = (m', zero') /\ kahn m' (enq ++ zero') R /\
    (zero' = [] \/ (length zero' <= length zero + 1)%nat).
Proof.
  intros [Hm Hsub Hnd Henq Hsrc Htopo] Hu.
  destruct (topo_edge_counts m zero e u R Hm) as (m' & Hm' & ->).
  eexists _, _. split; [done|]. set (c := child e) in *.
  assert (Hcv : verts g c).
  { right. exists u. apply E_has_edge, Hsub. set_solver. }
  assert (Hnot : c ∉ enq ++ zero).
  { intros [_ H]%Henq. rewrite indeg_cons in H. simpl in H. by rewrite decide_True in H. }
  assert (Hdec : forall x, indeg ((u, c) :: R) x = 0%nat <-> indeg R x = 0%nat /\ x <> c).
  { intros x. rewrite indeg_cons. simpl. case_decide; naive_solver lia. }
  assert (Hsrc' : forall a b, has_edge g a b -> (a, b) ∈ R \/ a ∈ enq ++ zero).
  { intros a b Hab. destruct (Hsrc a b Hab) as [[[= -> ->]|]%elem_of_cons|]; [|by left|by right].
    right. set_solver. }
  split; [|right; rewrite length_app; case_decide; simpl; lia].
  rewrite app_assoc. destruct (decide (indeg R c = 0%nat)) as [H0|H0].
  - split; [done|set_solver| | | |].
    + apply NoDup_app. split; [done|]. split; [|apply NoDup_singleton].
      intros x Hx ->%list_elem_of_singleton. done.
    + intros x. rewrite elem_of_app, list_elem_of_singleton, Henq, Hdec.
      destruct (decide (x = c)) as [->|]; naive_solver.
    + intros a b Hab. destruct (Hsrc' a b Hab); [by left|right; set_solver].
    + apply topo_ordered_snoc; [done|]. intros a Ha.
      destruct (Hsrc' a c Ha) as [Hin|]; [|done]. by rewrite indeg_zero in H0; destruct (H0 a).
  - rewrite app_nil_r. split; try done; [set_solver|].
    intros x. rewrite Henq, Hdec. naive_solver.
Qed.

(** All out-edges of one vertex. *)
Lemma kahn_edges es m enq zero u R :
  kahn m (enq ++ zero) (((fun e => (u, child e)) <$> es) ++ R) -> u ∈ enq ->
  exists m' zero', foldl topo_edge (m, zero) es = (m', zero') /\ kahn m' (enq ++ zero') R /\
    (length zero' <= length zero + length es)%nat.
Proof.
  revert m zero. induction es as [|e es IH]; intros m zero Hk Hu.
  - eexists _, _. split; [done|]. split; [done|simpl; lia].
  - csimpl in Hk. destruct (kahn_edge m enq zero e u _ Hk Hu) as (m1 & z1 & H1 & Hk1 & Hl1).
    cbn [foldl]. rewrite H1. destruct (IH m1 z1 Hk1 Hu) as (m2 & z2 & -> & Hk2 & Hl2).
    eexists _, _. split; [done|]. split; [done|].
    destruct Hl1 as [->|]; simpl in *; lia.
Qed.

(** The map after some vertices have been read with [operator[]]. *)
Record touched (proc : list Vertex) (g' : deg_t) : Prop := {
  t_sorted : om_sorted VertexCompare g';
  t_keys : Forall V (om_keys g');
  t_children u : children g' u = children g u;
  t_in x : x ∈ om_keys g' <-> x ∈ om_keys g \/ x ∈ proc;
  t_edges : edges g' ≡ₚ edges g
}.

Lemma touched_nil : touched [] g.
Proof. split; try done; [apply Hwf..|]. set_solver. Qed.

Lemma touched_snoc proc g' u :
  touched proc g' -> V u -> touched (proc ++ [u]) (touch g' u).
Proof.
  intros [H1 H2 H3 H4 H5] Hu. split.
  - by apply om_upd_sorted; [apply _|].
  - by apply keys_upd.
  - intros w. by rewrite children_touch.
  - intros x. unfold touch. rewrite (keys_upd_iff V) by done. rewrite H4. set_solver.
  - by rewrite (edges_touch V).
Qed.

Definition remaining (proc : list Vertex) : list (Vertex * Vertex) :=
  filter (fun q => q.1 ∉ proc) E.

Lemma remaining_split proc u :
  V u -> u ∉ proc ->
  remaining proc ≡ₚ ((fun e => (u, child e)) <$> children g u) ++ remaining (proc ++ [u]).
Proof.
  intros Hu Hn.
  assert (Hfrom : (fun e => (u, child e)) <$> children g u = filter (fun q => q.1 = u) E).
  { unfold E. rewrite filter_fmap. cbn [edge_pair fst].
    rewrite (edges_from V) by (done || apply Hwf). by rewrite <- list_fmap_compose. }
  rewrite Hfrom. unfold remaining. generalize E as L. clear -Hn.
  induction L as [|q L IH]; [done|]. rewrite !filter_cons.
  destruct (decide (q.1 = u)) as [Hq|Hq].
  - rewrite decide_True by (by rewrite Hq). rewrite decide_False by set_solver.
    rewrite IH. simpl. done.
  - destruct (decide (q.1 ∈ proc)).
    + rewrite !decide_False by set_solver. done.
    + rewrite !decide_True by set_solver. rewrite IH. apply Permutation_middle.
Qed.

Lemma verts_V x : verts g x -> V x.
Proof.
  intros [Hx|(u & Hu)].
  - eapply Forall_forall; [apply (wf_gkeys V g p Hwf)|done].
  - apply (wf_has_edge V Hwf) in Hu. tauto.
Qed.

Lemma kahn_perm m enq R R' : R ≡ₚ R' -> kahn m enq R -> kahn m enq R'.
Proof.
  intros HR [H1 H2 H3 H4 H5 H6].
  assert (Hi : forall v, indeg R v = indeg R' v) by (intros v; by rewrite HR).
  split; try done.
  - intros v. by rewrite H1, Hi.
  - by rewrite <- HR.
  - intros x. by rewrite <- Hi.
  - intros u v Huv. rewrite <- HR. by apply H5.
Qed.

(** One generation: the vertices [cur], after [proc]. *)
Lemma kahn_generation cur m proc zero g' :
  kahn m (proc ++ cur ++ zero) (remaining proc) -> touched proc g' ->
  exists g2 m2 zero2, foldl topo_vertex (g', m, zero) cur = (g2, m2, zero2) /\
    kahn m2 ((proc ++ cur) ++ zero2) (remaining (proc ++ cur)) /\ touched (proc ++ cur) g2 /\
    (length zero2 + length (remaining (proc ++ cur)) <= length zero + length (remaining proc))%nat.
Proof.
  revert m proc zero g'. induction cur as [|u cur IH]; intros m proc zero g' Hk Ht.
  - rewrite !app_nil_r in *. eexists _, _, _. done.
  - assert (Hu : verts g u) by (apply (k_enq _ _ _ Hk); set_solver).
    assert (HuV := verts_V u Hu).
    assert (Hn : u ∉ proc).
    { assert (Hnd := k_nodup _ _ _ Hk). apply NoDup_app in Hnd as (_ & Hd & _).
      intros Hin. apply (Hd u Hin). set_solver. }
    assert (Hsplit := remaining_split proc u HuV Hn).
    assert (Hk' : kahn m ((proc ++ u :: cur) ++ zero)
      (((fun e => (u, child e)) <$> children g u) ++ remaining (proc ++ [u]))).
    { rewrite <- app_assoc. by eapply kahn_perm. }
    destruct (kahn_edges (children g u) m (proc ++ u :: cur) zero u _ Hk')
      as (m1 & z1 & Hf & Hk1 & Hl); [set_solver|].
    cbn [foldl topo_vertex]. rewrite (t_children _ _ Ht), Hf.
    replace ((proc ++ u :: cur) ++ z1) with ((proc ++ [u]) ++ cur ++ z1) in Hk1
      by (by rewrite <- !app_assoc).
    destruct (IH m1 (proc ++ [u]) z1 (touch g' u) Hk1 (touched_snoc _ _ _ Ht HuV))
      as (g2 & m2 & z2 & -> & Hk2 & Ht2 & Hl2).
    eexists _, _, _. split; [done|].
    replace (proc ++ u :: cur) with ((proc ++ [u]) ++ cur) by (by rewrite <- app_assoc).
    split; [done|]. split; [done|].
    rewrite Hsplit, length_app, length_fmap. lia.
Qed.

(** When nothing is pending, no edge remains: a remaining edge of least rank
    would start at a vertex without remaining predecessors. *)
Lemma kahn_finished m proc :
  kahn m proc (remaining proc) -> remaining proc = [].
Proof.
  intros Hk.
  assert (Hstep : forall u v, (u, v) ∈ remaining proc ->
            exists w, (w, u) ∈ remaining proc /\ rank w < rank u).
  { intros u v [Hn Hin]%list_elem_of_filter. simpl in Hn.
    apply E_has_edge in Hin.
    assert (Huv : verts g u).
    { left. destruct Hin as (e & He & _). apply elem_of_edges in He as (es & He & _).
      apply list_elem_of_fmap. by exists (u, es). }
    destruct (decide (indeg (remaining proc) u = 0%nat)) as [H0|H0].
    { destruct Hn. by apply (k_enq _ _ _ Hk). }
    rewrite indeg_zero in H0. destruct (filter (fun q => q.2 = u) (remaining proc)) as [|[w x] l] eqn:Ef.
    { exfalso. apply H0. intros w Hw. assert (Hx : (w, u) ∈ filter (fun q => q.2 = u) (remaining proc))
        by (by apply list_elem_of_filter). rewrite Ef in Hx. set_solver. }
    assert (Hx : (w, x) ∈ filter (fun q => q.2 = u) (remaining proc)) by (rewrite Ef; set_solver).
    apply list_elem_of_filter in Hx as [Hx Hin']. simpl in Hx. subst x. exists w. split; [done|].
    apply list_elem_of_filter in Hin' as [_ Hin']. apply E_has_edge in Hin'.
    apply (wf_has_edge V Hwf) in Hin'. tauto. }
  assert (Hnone : forall n u v, (u, v) ∈ remaining proc ->
            (rank u - foldr (fun q acc => Z.min (rank q.1) acc) 0 E < Z.of_nat n) -> False).
  { assert (Hlow : forall u v, (u, v) ∈ remaining proc ->
              foldr (fun q acc => Z.min (rank q.1) acc) 0 E <= rank u).
    { intros u v [_ Hin]%list_elem_of_filter. induction E as [|q L IHL]; [set_solver|].
      simpl. apply elem_of_cons in Hin as [<-|Hin]; simpl; [lia|]. apply IHL in Hin. lia. }
    induction n as [|n IH]; intros u v Huv Hr.
    - apply Hlow in Huv. lia.
    - destruct (Hstep u v Huv) as (w & Hw & Hlt). apply (IH w u Hw). lia. }
  apply elem_of_nil_inv. intros [u v] Huv.
  eapply (Hnone (S (Z.to_nat (rank u - foldr (fun q acc => Z.min (rank q.1) acc) 0 E))));
    [done|lia].
Qed.

(** The whole loop, with enough fuel. *)
Lemma topo_loop_ok fuel m proc zero g' :
  kahn m (proc ++ zero) (remaining proc) -> touched proc g' ->
  (length (remaining proc) + (if decide (zero = []) then 0 else 1) <= fuel)%nat ->
  exists g2 m2 ret, topo_loop fuel g' m zero proc = Ok (g2, m2, ret) /\
    kahn m2 ret [] /\ touched ret g2.
Proof.
  revert m proc zero g'. induction fuel as [|fuel IH]; intros m proc zero g' Hk Ht Hf.
  - destruct zero as [|v zero]; [|rewrite decide_False in Hf by done; lia].
    rewrite app_nil_r in Hk. rewrite (kahn_finished m proc Hk) in Hk.
    eexists _, _, _. split; [done|]. done.
  - destruct zero as [|v zero].
    { rewrite app_nil_r in Hk. rewrite (kahn_finished m proc Hk) in Hk.
      eexists _, _, _. split; [done|]. done. }
    rewrite decide_False in Hf by done. cbn [topo_loop].
    destruct (kahn_generation (v :: zero) m proc [] g') as (g2 & m2 & z2 & -> & Hk2 & Ht2 & Hl);
      [by rewrite app_nil_r|done|].
    simpl in Hl. apply IH; [done|done|].
    case_decide as Hz; [lia|]. destruct z2; [done|simpl in Hl; lia].
Qed.

(** ** The start of the loop *)

Lemma init_lookup_out q m0 v :
  v ∉ om_keys q ->
  foldl set_indegree m0 q !! v = m0 !! v.
Proof.
  revert m0. induction q as [|[k ps] q IH]; intros m0 Hv; [done|].
  simpl in Hv. cbn [foldl]. rewrite IH by set_solver. apply lookup_insert_ne. simpl. set_solver.
Qed.

Lemma init_lookup_in q m0 v ps :
  NoDup (om_keys q) -> (v, ps) ∈ q ->
  foldl set_indegree m0 q !! v =
  Some (Z.of_nat (length ps)).
Proof.
  revert m0. induction q as [|[k qs] q IH]; intros m0 Hnd Hv; [set_solver|].
  apply NoDup_cons in Hnd as [Hk Hnd]. cbn [foldl].
  apply elem_of_cons in Hv as [[= -> ->]|Hv]; [|by apply IH].
  rewrite init_lookup_out by done. apply lookup_insert_eq.
Qed.

Lemma init_counts : counts (init_indegree p) E.
Proof.
  assert (HE : forall v, indeg E v = indeg (pred_edges p) v).
  { intros v. unfold E. by rewrite (wf_transpose V g p Hwf). }
  assert (Hnd : NoDup (om_keys p)).
  { apply (om_sorted_NoDup VertexCompare), Hwf. }
  intros v. rewrite !HE. unfold init_indegree.
  destruct (decide (v ∈ om_keys p)) as [Hv|Hv].
  - pose proof Hv as ([k ps] & Hk & Hin)%list_elem_of_fmap. simpl in Hk. subst k.
    rewrite (init_lookup_in _ _ _ ps), (pred_entry_indeg V p v ps) by done.
    rewrite decide_False; [done|].
    rewrite Forall_forall in Hpne. apply Hpne in Hin. by destruct ps.
  - rewrite init_lookup_out by done. rewrite decide_True; [done|].
    apply indeg_zero. intros u (ps & Hin & _)%elem_of_pred_edges.
    apply Hv, list_elem_of_fmap. by exists (v, ps).
Qed.

Lemma init_kahn : kahn (init_indegree p) (init_zero g (init_indegree p)) E.
Proof.
  assert (Hc := init_counts).
  assert (Hnone : forall v, init_indegree p !! v = None <-> indeg E v = 0%nat).
  { intros v. rewrite Hc. case_decide; naive_solver. }
  assert (Henq : forall x, x ∈ init_zero g (init_indegree p) <-> verts g x /\ indeg E x = 0%nat).
  { intros x. unfold init_zero. rewrite list_elem_of_filter, Hnone. split.
    - intros [H1 H2]. split; [by left|done].
    - intros [[H|(u & Hu)] H0]; [done|]. apply E_has_edge in Hu.
      rewrite indeg_zero in H0. by destruct (H0 u). }
  split; try done.
  - apply NoDup_filter, (om_sorted_NoDup VertexCompare), Hwf.
  - intros u v Huv. left. by apply E_has_edge.
  - intros l1 v l2 u Heq Hu. apply E_has_edge in Hu.
    assert (Hv : v ∈ init_zero g (init_indegree p)) by (rewrite Heq; set_solver).
    apply Henq in Hv as [_ H0]. rewrite indeg_zero in H0. by destruct (H0 u).
Qed.

Lemma topological_sort_ok s :
  graph s = g -> pred s = p ->
  exists ret g', topological_sort s = Ok (ret, set_graph s g') /\
    NoDup ret /\ (forall x, x ∈ ret <-> verts g x) /\ topo_ordered g ret /\ touched ret g'.
Proof.
  intros Hg Hp. unfold topological_sort. rewrite Hg, Hp.
  assert (Hrem : remaining [] = E).
  { unfold remaining. generalize E as L. induction L as [|q L IH]; [done|].
    rewrite filter_cons_True by set_solver. by rewrite IH. }
  destruct (topo_loop_ok (S (S (num_edges g))) (init_indegree p) []
              (init_zero g (init_indegree p)) g) as (g2 & m2 & ret & -> & Hk & Ht).
  - rewrite Hrem. apply init_kahn.
  - apply touched_nil.
  - rewrite Hrem. unfold E. rewrite length_fmap, num_edges_edges. fold (num_edges g).
    case_decide; lia.
  - simpl. destruct Hk as [H1 _ H3 H4 _ H6].
    rewrite (counts_size_zero m2 H1). simpl.
    assert (Hx : forall x, x ∈ ret <-> verts g x) by (intros x; rewrite H4; naive_solver).
    assert (Hlen : length ret = length g2).
    { rewrite <- (length_fmap fst g2). apply Permutation_length, NoDup_Permutation; [done| |].
      - apply (om_sorted_NoDup VertexCompare), Ht.
      - intros x. rewrite (t_in _ _ Ht), Hx. unfold verts. naive_solver. }
    rewrite Hlen, Nat.eqb_refl. simpl. eexists _, _. done.
Qed.

End kahn.
