(* ===== verification/DistFacts.v ===== *)
(** * Correctness of the longest-path computation

    [longest_path_core] visits the vertices in topological order and records
    for each the largest cost of a path reaching it, with the predecessor on
    such a path.  On a well-formed graph it returns a path of the graph whose
    accumulated cost is the largest of all paths; the accumulation is the
    floating-point one, edge by edge, and no bound on the latencies is needed. *)

From S2P Require Import Prelude Machine OrderedMap External Instruction Bottleneck GraphDefs.
From S2P Require Import DegBuild GraphTheory LongestPath TopoSort.

#[local] Open Scope list_scope.
#[local] Open Scope Z_scope.

(** ** Costs of paths *)

(** The edge [get_outgoing_edge] returns, and its cost. *)
Definition edge_to (g : deg_t) (u v : Vertex) : option OutgoingEdge :=
  List.find (fun e => Vertex_eqb (child e) v) (children g u).
Definition ecost (g : deg_t) (u v : Vertex) : Z :=
  match edge_to g u v with Some e => cost e | None => 0 end.

(** Cost accumulated along a path, in the order the analyser adds it up. *)
Fixpoint cost_from (g : deg_t) (acc : Z) (u : Vertex) (l : list Vertex) : Z :=
  match l with
  | [] => acc
  | v :: l' => cost_from g (lat_add acc (ecost g u v)) v l'
  end.
Definition path_cost (g : deg_t) (l : list Vertex) : Z :=
  match l with [] => 0 | u :: l' => cost_from g 0 u l' end.

Definition is_path (g : deg_t) (l : list Vertex) : Prop := chain (has_edge g) l.

(** ** Maximum searches *)

Lemma om_upd_present {A} v (x : A) a (m : list (Vertex * A)) :
  om_find VertexCompare v m = Some x -> om_upd VertexCompare v (default a) m = m.
Proof.
  induction m as [|[k y] m IH]; simpl; [done|]. intros H.
  destruct (VertexCompare k v); [by rewrite IH|].
  by destruct (VertexCompare v k).
Qed.

(** The first element of largest value, the pattern of both maximum searches. *)
Definition first_max {A} (f : A -> Z) (l : list A) : option A :=
  foldl (fun o a =>
    if match o with Some b => f b | None => -1 end <? f a then Some a else o) None l.

Lemma first_max_spec {A} (f : A -> Z) l :
  l <> [] -> Forall (fun a => 0 <= f a) l ->
  exists l1 a l2, l = l1 ++ a :: l2 /\ first_max f l = Some a /\
    Forall (fun b => f b < f a) l1 /\ Forall (fun b => f b <= f a) l2.
Proof.
  induction l as [|a l IH] using rev_ind; [done|]. intros _ [Hl Ha]%Forall_app.
  apply Forall_cons in Ha as [Ha _]. unfold first_max in *. rewrite foldl_app.
  destruct (decide (l = [])) as [->|Hne].
  - cbn [foldl]. destruct (Z.ltb_spec (-1) (f a)); [|lia].
    exists [], a, []. done.
  - destruct (IH Hne Hl) as (l1 & b & l2 & -> & -> & H1 & H2). cbn [foldl].
    destruct (Z.ltb_spec (f b) (f a)).
    + exists (l1 ++ b :: l2), a, []. split; [done|]. split; [done|]. split; [|done].
      rewrite Forall_app, Forall_cons. split_and!; [|lia|];
        eapply Forall_impl; [exact H1| |exact H2|]; simpl; lia.
    + exists l1, b, (l2 ++ [a]). rewrite <- app_assoc. split; [done|]. split; [done|].
      split; [done|]. rewrite Forall_app, Forall_cons. split_and!; [done|lia|done].
Qed.

Lemma pick_max_first_max l :
  pick_max l = match first_max fst l with Some a => (a.1, Some a.2) | None => (0, None) end.
Proof.
  unfold pick_max, first_max.
  enough (H : foldl (fun '(best, acc) '(x, p) =>
       if best <? x then (x, (x, Some p)) else (best, acc)) (-1, (0, None)) l =
     match first_max fst l with
     | Some a => (a.1, (a.1, Some a.2)) | None => (-1, (0, None)) end).
  { rewrite H. fold (first_max fst l). by destruct (first_max fst l). }
  unfold first_max. induction l as [|[x p] l IH] using rev_ind; [done|].
  rewrite !foldl_app, IH. cbn [foldl].
  destruct (foldl _ None l) as [[y q]|]; cbn [fst]; by case_match.
Qed.

Lemma farthest_first_max d :
  farthest d =
  match first_max (fun a : Vertex * (Z * option Vertex) => a.2.1) d with
  | Some a => (a.2.1, Some a.1) | None => (-1, None) end.
Proof.
  unfold farthest, first_max. induction d as [|[k x] d IH] using rev_ind; [done|].
  rewrite !foldl_app, IH. cbn [foldl].
  destruct (foldl _ None d) as [[k' x']|]; cbn [fst snd]; by case_match.
Qed.

Definition len_at (d : dist_t) (v : Vertex) : Z := (dist_at d v).1.

(** ** States that agree up to keys read with operator[] *)

Section facts.
Context (V : Vertex -> Prop) `{HV : !VertexSet V}.

Record obs (s s' : O3Graph) : Prop := {
  obs_wf : WfDeg V (graph s') (pred s');
  obs_children u : children (graph s') u = children (graph s) u;
  obs_parents v : parents (pred s') v = parents (pred s) v;
  obs_edges : edges (graph s') ≡ₚ edges (graph s);
  obs_keys x : x ∈ om_keys (graph s) -> x ∈ om_keys (graph s');
  obs_verts x : x ∈ om_keys (graph s') -> verts (graph s) x;
  obs_rest : s' = set_pred (set_graph s (graph s')) (pred s')
}.

Lemma obs_refl s : WfDeg V (graph s) (pred s) -> obs s s.
Proof. intros H. split; try done; [by left|]. by destruct s. Qed.

Lemma obs_has_edge s s' u v : obs s s' -> has_edge (graph s') u v <-> has_edge (graph s) u v.
Proof. intros H. apply has_edge_perm, H. Qed.

Lemma obs_trans s1 s2 s3 : obs s1 s2 -> obs s2 s3 -> obs s1 s3.
Proof.
  intros H1 H2. destruct H1 as [A1 A2 A3 A4 A5 A6 A7] eqn:E1, H2 as [B1 B2 B3 B4 B5 B6 B7].
  split; try done.
  - intros u. by rewrite B2.
  - intros v. by rewrite B3.
  - by rewrite B4.
  - intros x Hx. by apply B5, A5.
  - intros x [Hx|(u & Hu)]%B6; [by apply A6|]. right. exists u. by apply (obs_has_edge s1 s2).
  - rewrite B7 at 1. rewrite A7 at 1. by destruct s1.
Qed.

Lemma obs_verts_iff s s' x : obs s s' -> verts (graph s') x <-> verts (graph s) x.
Proof.
  intros H. unfold verts. setoid_rewrite (obs_has_edge s s'); [|done]. split.
  - intros [Hx|]; [by apply (obs_verts _ _ H)|by right].
  - intros [Hx|]; [left; by apply (obs_keys _ _ H)|by right].
Qed.

Lemma obs_touch s u :
  WfDeg V (graph s) (pred s) -> V u -> verts (graph s) u ->
  obs s (set_graph s (touch (graph s) u)).
Proof.
  intros Hwf HuV Hu. split; simpl.
  - by apply wf_touch.
  - intros w. apply children_touch. apply Hwf.
  - done.
  - apply (edges_touch V); [apply Hwf|done].
  - intros x Hx. apply (keys_upd_iff V); [done|apply Hwf|by right].
  - intros x [->|Hx]%(keys_upd_iff V); [done|by left|done|apply Hwf].
  - by destruct s.
Qed.

Lemma parents_touch_pred p u v :
  om_sorted VertexCompare p -> parents (touch_pred p u) v = parents p v.
Proof.
  intros Hs. unfold parents, touch_pred.
  destruct (decide (vtype u = vtype v /\ vseq u = vseq v)) as [He|He];
    rewrite <- VertexCompare_equiv in He.
  - rewrite (om_find_upd_same _ u v) by done. simpl.
    destruct (om_find VertexCompare u p) as [es|] eqn:E; simpl.
    + apply (om_find_elem VertexCompare) in E as (k & Hk & Hin); [|done].
      rewrite (proj2 (om_find_elem VertexCompare v p es Hs)); [done|].
      exists k. split; [|done]. transitivity u; [by symmetry|done].
    + destruct (om_find VertexCompare v p) as [es|] eqn:E'; [|done].
      apply (om_find_elem VertexCompare) in E' as (k & Hk & Hin); [|done].
      rewrite (proj2 (om_find_elem VertexCompare u p es Hs)) in E; [done|].
      exists k. split; [|done]. by transitivity v.
  - rewrite (om_find_upd_other VertexCompare u v) by done. done.
Qed.

Lemma obs_touch_pred s v :
  WfDeg V (graph s) (pred s) -> V v -> obs s (set_pred s (touch_pred (pred s) v)).
Proof.
  intros Hwf Hv. split; simpl; try done.
  - by apply wf_touch_pred.
  - intros w. apply parents_touch_pred. apply Hwf.
  - by left.
Qed.

Lemma obs_ecost s s' u v : obs s s' -> ecost (graph s') u v = ecost (graph s) u v.
Proof. intros H. unfold ecost, edge_to. by rewrite (obs_children _ _ H). Qed.

Lemma edge_to_spec g p u v :
  WfDeg V g p -> has_edge g u v ->
  exists e, edge_to g u v = Some e /\ child e = v /\ (u, e) ∈ edges g.
Proof.
  intros Hwf (e & He & Hv).
  assert (Hu : V u) by (apply (wf_edge V Hwf) in He; tauto).
  assert (Hin : e ∈ children g u) by (by apply (wf_children V Hwf)).
  unfold edge_to. destruct (List.find _ (children g u)) as [e'|] eqn:Ef.
  - apply List.find_some in Ef as [Hin' Heq]. exists e'. split; [done|].
    split; [by apply Vertex_eqb_eq|]. apply (wf_children V Hwf); [done|].
    by apply list_elem_of_In.
  - apply (List.find_none _ _) with (x := e) in Ef; [|by apply list_elem_of_In].
    apply Vertex_eqb_neq in Ef. done.
Qed.

Lemma ecost_nonneg g p u v : WfDeg V g p -> has_edge g u v -> 0 <= ecost g u v.
Proof.
  intros Hwf Huv. destruct (edge_to_spec g p u v Hwf Huv) as (e & He & _ & Hin).
  unfold ecost. rewrite He. apply (wf_edge V Hwf) in Hin. tauto.
Qed.

Lemma has_edge_verts g u v : has_edge g u v -> verts g u /\ verts g v.
Proof.
  intros Huv. split; [|right; eauto]. left. destruct Huv as (e & He & _).
  apply elem_of_edges in He as (es & He & _). apply list_elem_of_fmap. by exists (u, es).
Qed.

Lemma get_outgoing_edge_ok s u v :
  WfDeg V (graph s) (pred s) -> has_edge (graph s) u v ->
  exists e s', get_outgoing_edge s u v = Ok (e, s') /\ obs s s' /\
    edge_to (graph s) u v = Some e.
Proof.
  intros Hwf Huv. destruct (edge_to_spec _ _ u v Hwf Huv) as (e & He & _ & Hin).
  unfold get_outgoing_edge. fold (edge_to (graph s) u v). rewrite He.
  eexists _, _. split; [done|]. split; [|done]. apply obs_touch; [done|..].
  - apply (wf_edge V Hwf) in Hin. tauto.
  - apply has_edge_verts in Huv. tauto.
Qed.

(** ** The table of distances *)

Lemma dist_at_set_same d v x : dist_at (dist_set d v x) v = x.
Proof.
  unfold dist_at, dist_set.
  by rewrite (om_find_upd_same VertexCompare v v) by (apply VertexCompare_equiv; done).
Qed.

Lemma dist_at_set_other d v x u :
  om_sorted VertexCompare d -> V u -> V v -> u <> v -> dist_at (dist_set d v x) u = dist_at d u.
Proof.
  intros Hs Hu Hv Hne. unfold dist_at, dist_set.
  rewrite (om_find_upd_other VertexCompare v u); [done|done|].
  intros He. by apply Hne, (vset_equiv V).
Qed.

Lemma dist_touch_key d v :
  om_sorted VertexCompare d -> Forall V (om_keys d) -> V v -> v ∈ om_keys d ->
  dist_touch d v = d.
Proof.
  intros Hs Hd Hv ([k x] & -> & Hin)%list_elem_of_fmap. simpl in *.
  apply (om_find_vset V) in Hin; [|done..]. by eapply om_upd_present.
Qed.

(** What the table says of a vertex once it has been visited: an upper bound on
    what its predecessors offer, attained by the one it records. *)
Record settled (g : deg_t) (d : dist_t) (v : Vertex) : Prop := {
  sd_key : v ∈ om_keys d;
  sd_nonneg : 0 <= len_at d v;
  sd_upper u : has_edge g u v ->
    u ∈ om_keys d /\ lat_add (len_at d u) (ecost g u v) <= len_at d v;
  sd_pred : (dist_at d v = (0, Some v) /\ forall u, ~ has_edge g u v) \/
    exists u, has_edge g u v /\ dist_at d v = (lat_add (len_at d u) (ecost g u v), Some u)
}.

Record dist_inv (g : deg_t) (proc : list Vertex) (d : dist_t) : Prop := {
  di_sorted : om_sorted VertexCompare d;
  di_V : Forall V (om_keys d);
  di_keys x : x ∈ om_keys d <-> x ∈ proc;
  di_settled v : v ∈ proc -> settled g d v
}.

Lemma dist_pairs_ok s0 s d v ps :
  WfDeg V (graph s0) (pred s0) -> obs s0 s -> om_sorted VertexCompare d -> Forall V (om_keys d) ->
  Forall (fun q => has_edge (graph s0) (parent q) v /\ parent q ∈ om_keys d) ps ->
  exists s', obs s0 s' /\ dist_pairs s d v ps =
    Ok ((fun q => (lat_add (len_at d (parent q)) (ecost (graph s0) (parent q) v), parent q)) <$> ps,
        s', d).
Proof.
  intros Hwf. revert s. induction ps as [|q ps IH]; intros s Ho Hs Hd Hps; simpl.
  { by exists s. }
  apply Forall_cons in Hps as [[He Hk] Hps].
  destruct (get_outgoing_edge_ok s (parent q) v) as (e & s1 & -> & Ho1 & Hee);
    [apply Ho|by apply (obs_has_edge s0 s)|]. simpl.
  rewrite dist_touch_key; [|done|done| |done].
  2:{ apply (wf_has_edge V Hwf) in He. tauto. }
  destruct (IH s1) as (s2 & Ho2 & ->); [by eapply obs_trans|done..|].
  simpl. exists s2. split; [done|].
  rewrite <- (obs_ecost s0 s) by done. unfold ecost. by rewrite Hee.
Qed.

Lemma settled_set g p d v x w :
  WfDeg V g p -> om_sorted VertexCompare d -> Forall V (om_keys d) -> V v -> v ∉ om_keys d ->
  settled g d w -> settled g (dist_set d v x) w.
Proof.
  intros Hwf Hs Hd Hv Hn [H1 H2 H3 H4].
  assert (Hk : forall u, u ∈ om_keys d -> u ∈ om_keys (dist_set d v x)).
  { intros u Hu. apply (keys_upd_iff V); [done|done|by right]. }
  assert (Hsame : forall u, u ∈ om_keys d -> dist_at (dist_set d v x) u = dist_at d u).
  { intros u Hu. apply dist_at_set_other; [done| |done|by intros ->].
    by eapply Forall_forall in Hd. }
  split.
  - by apply Hk.
  - unfold len_at. by rewrite Hsame.
  - intros u Hu. destruct (H3 u Hu) as [Hku Hle]. split; [by apply Hk|].
    unfold len_at in *. by rewrite !Hsame.
  - rewrite Hsame by done. destruct H4 as [|(u & Hu & Heq)]; [by left|]. right. exists u.
    split; [done|]. unfold len_at. rewrite Hsame; [done|]. by apply H3.
Qed.

(** What the visit of [v] may write: the value is attained and bounds the others. *)
Definition new_entry (g : deg_t) (d : dist_t) (v : Vertex) (x : Z * option Vertex) : Prop :=
  0 <= x.1 /\
  (forall u, has_edge g u v -> lat_add (len_at d u) (ecost g u v) <= x.1) /\
  ((x = (0, Some v) /\ forall u, ~ has_edge g u v) \/
   exists u, has_edge g u v /\ x = (lat_add (len_at d u) (ecost g u v), Some u)).

Lemma dist_inv_set g p proc d v x :
  WfDeg V g p -> dist_inv g proc d -> V v -> v ∉ proc -> (forall u, has_edge g u v -> u ∈ proc) ->
  new_entry g d v x -> dist_inv g (proc ++ [v]) (dist_set d v x).
Proof.
  intros Hwf [Hs Hd Hk Hset] Hv Hn Hpar (Hx0 & Hxu & Hxp).
  assert (Hvk : v ∉ om_keys d) by (by rewrite Hk).
  assert (Hoth : forall u, has_edge g u v -> dist_at (dist_set d v x) u = dist_at d u).
  { intros u Hu. apply dist_at_set_other; [done| |done|].
    - apply (wf_has_edge V Hwf) in Hu. tauto.
    - intros ->. by apply Hn, Hpar. }
  assert (Hkey : forall y, y ∈ om_keys (dist_set d v x) <-> y = v \/ y ∈ om_keys d).
  { intros y. by apply (keys_upd_iff V). }
  split.
  - by apply om_upd_sorted; [apply _|].
  - by apply (keys_upd V).
  - intros y. rewrite Hkey, Hk, elem_of_app, list_elem_of_singleton. tauto.
  - intros w [Hw|Hw%list_elem_of_singleton]%elem_of_app.
    { apply (settled_set _ p); auto. }
    subst w. split; unfold len_at; rewrite ?dist_at_set_same.
    + apply Hkey. by left.
    + done.
    + intros u Hu. split; [apply Hkey; right; by apply Hk, Hpar|].
      rewrite Hoth by done. by apply Hxu.
    + destruct Hxp as [|(u & Hu & ->)]; [by left|]. right. exists u.
      by rewrite Hoth.
Qed.

Lemma pick_max_entry g p d v ps :
  WfDeg V g p -> (forall q, q ∈ ps <-> has_edge g (parent q) v) -> ps <> [] ->
  (forall u, has_edge g u v -> 0 <= len_at d u) ->
  new_entry g d v (pick_max
    ((fun q => (lat_add (len_at d (parent q)) (ecost g (parent q) v), parent q)) <$> ps)).
Proof.
  intros Hwf Hps Hne Hpos. set (cand := fun q => (_, _)).
  rewrite pick_max_first_max.
  destruct (first_max_spec fst (cand <$> ps)) as (l1 & [x u] & l2 & Hsplit & -> & Hl1 & Hl2).
  { by intros ?%fmap_nil_inv. }
  { apply Forall_fmap, Forall_forall. intros q Hq%Hps. simpl.
    apply lat_add_nonneg; [by apply Hpos|by apply (ecost_nonneg _ p)]. }
  assert (Hxu : (x, u) ∈ cand <$> ps) by (rewrite Hsplit; set_solver).
  apply list_elem_of_fmap in Hxu as (q & [= -> ->] & Hq%Hps).
  split_and!; simpl.
  - apply lat_add_nonneg; [by apply Hpos|by apply (ecost_nonneg _ p)].
  - intros u Hu. assert (Hin : cand (mkIn u) ∈ cand <$> ps).
    { apply list_elem_of_fmap_2. by apply Hps. }
    rewrite Hsplit in Hin. rewrite Forall_forall in Hl1, Hl2.
    apply elem_of_app in Hin as [Hin|[Hin|Hin]%elem_of_cons].
    + apply Hl1 in Hin. simpl in Hin. lia.
    + injection Hin as -> _. done.
    + by apply Hl2 in Hin.
  - right. eauto.
Qed.

Lemma update_dist_ok s0 s proc d v :
  WfDeg V (graph s0) (pred s0) -> obs s0 s -> dist_inv (graph s0) proc d ->
  V v -> v ∉ proc -> (forall u, has_edge (graph s0) u v -> u ∈ proc) ->
  exists s' d', update_dist (s, d) v = Ok (s', d') /\ obs s0 s' /\
    dist_inv (graph s0) (proc ++ [v]) d'.
Proof.
  intros Hwf Ho Hinv Hv Hn Hpar. unfold update_dist.
  assert (Hps : forall q, q ∈ parents (pred s) v <-> has_edge (graph s0) (parent q) v).
  { intros [u]. rewrite (obs_parents _ _ Ho). by apply (wf_parents V Hwf). }
  destruct (dist_pairs_ok s0 (set_pred s (touch_pred (pred s) v)) d v (parents (pred s) v))
    as (s1 & Ho1 & ->); [done| |apply Hinv|apply Hinv| |].
  { eapply obs_trans; [done|]. by apply obs_touch_pred; [apply Ho|]. }
  { apply Forall_forall. intros q Hq%Hps. split; [done|]. by apply Hinv, Hpar. }
  simpl. destruct (parents (pred s) v) as [|q ps] eqn:Eps.
  - simpl. eexists _, _. split; [done|]. split; [done|].
    apply (dist_inv_set _ (pred s0)); [done..|].
    assert (Hno : forall u, ~ has_edge (graph s0) u v).
    { intros u Hu. apply (Hps (mkIn u)) in Hu. set_solver. }
    split_and!; [done| |by left]. intros u Hu. by destruct (Hno u).
  - csimpl. eexists _, _. split; [done|]. split; [done|].
    apply (dist_inv_set _ (pred s0)); [done..|].
    apply (pick_max_entry _ (pred s0) d v (q :: ps)); [done..|].
    intros u Hu. by apply Hinv, Hpar.
Qed.

Lemma update_dists_ok s0 s topo proc rest d :
  WfDeg V (graph s0) (pred s0) -> obs s0 s -> dist_inv (graph s0) proc d ->
  topo = proc ++ rest -> NoDup topo -> Forall V topo -> topo_ordered (graph s0) topo ->
  exists s' d', res_fold update_dist (s, d) rest = Ok (s', d') /\ obs s0 s' /\
    dist_inv (graph s0) topo d'.
Proof.
  intros Hwf. revert s proc d. induction rest as [|v rest IH]; intros s proc d Ho Hinv -> Hnd HtV Ht.
  { rewrite app_nil_r. simpl. eauto. }
  destruct (update_dist_ok s0 s proc d v) as (s1 & d1 & Hu & Ho1 & Hinv1); [done..| | | |].
  - apply Forall_app in HtV as [_ HtV]. by apply Forall_cons in HtV as [? _].
  - apply NoDup_app in Hnd as (_ & Hnd & _). intros Hin. apply (Hnd v Hin). set_solver.
  - intros u Hu. by apply (Ht proc v rest u).
  - cbn [res_fold]. rewrite Hu. simpl.
    apply (IH s1 (proc ++ [v]) d1); [done|done|by rewrite <- app_assoc|done..].
Qed.

End facts.
