(* ===== verification/LongestFacts.v ===== *)
(** * The longest path is the longest

    Optimality of the table of distances, termination of the way back, and the
    correctness of [longest_path_core]: on every well-formed non-empty graph it
    returns, and the path it returns has the largest accumulated cost of all
    paths of the graph. *)

From S2P Require Import Prelude Machine OrderedMap External Instruction Bottleneck GraphDefs.
From S2P Require Import DegBuild GraphTheory LongestPath TopoSort DistFacts.

#[local] Open Scope list_scope.
#[local] Open Scope Z_scope.

(** ** Costs along a path *)

Lemma cost_from_snoc g acc u l v :
  cost_from g acc u (l ++ [v]) = lat_add (cost_from g acc u l) (ecost g (default u (last l)) v).
Proof.
  revert acc u. induction l as [|x l IH]; intros acc u; [done|].
  simpl app. cbn [cost_from]. rewrite IH, last_cons. by destruct (last l).
Qed.

Lemma path_cost_snoc g l u v :
  path_cost g (l ++ [u; v]) = lat_add (path_cost g (l ++ [u])) (ecost g u v).
Proof.
  destruct l as [|x l]; [done|]. cbn [path_cost app].
  replace (l ++ [u; v]) with ((l ++ [u]) ++ [v]) by (by rewrite <- app_assoc).
  by rewrite cost_from_snoc, last_snoc.
Qed.

Lemma is_path_snoc g l u v :
  is_path g (l ++ [u; v]) <-> is_path g (l ++ [u]) /\ has_edge g u v.
Proof.
  unfold is_path. change (l ++ [u; v]) with (l ++ [u] ++ [v]).
  rewrite app_assoc, chain_app, last_snoc. simpl. tauto.
Qed.

(** Induction on a path from its end. *)
Lemma path_ind (P : list Vertex -> Prop) :
  P [] -> (forall v, P [v]) -> (forall l u v, P (l ++ [u]) -> P (l ++ [u; v])) ->
  forall l, P l.
Proof.
  intros H0 H1 H2 l. induction l as [|v l IH] using rev_ind; [done|].
  destruct l as [|u l _] using rev_ind; [apply H1|]. rewrite <- app_assoc. by apply H2.
Qed.

Lemma rne53_0 : rne53 0 = 0.
Proof. done. Qed.

Section longest.
Context (V : Vertex -> Prop) `{HV : !VertexSet V} {g : deg_t} {p : pred_t} (Hwf : WfDeg V g p).

Lemma path_cost_nonneg l : is_path g l -> 0 <= path_cost g l.
Proof.
  induction l as [|v|l u v IH] using path_ind; [done..|].
  intros [Hl Huv]%is_path_snoc. rewrite path_cost_snoc.
  apply lat_add_nonneg; [by apply IH|by apply (ecost_nonneg V _ p)].
Qed.

(** Accumulated costs are values a double can hold, so adding 0 keeps them. *)
Lemma path_cost_rounded l : is_path g l -> rne53 (path_cost g l) = path_cost g l.
Proof.
  destruct l as [|v|l u v _] using path_ind; [done..|].
  intros [Hl Huv]%is_path_snoc. rewrite path_cost_snoc. apply rne53_idem.
  pose proof (path_cost_nonneg _ Hl). pose proof (ecost_nonneg V g p u v Hwf Huv). lia.
Qed.

Context {topo : list Vertex} {d : dist_t} (Hinv : dist_inv V g topo d).

Lemma key_settled v : v ∈ om_keys d -> settled g d v.
Proof. intros Hv. apply Hinv. by apply Hinv. Qed.

(** Upper bound: no path to [v] costs more than the table says. *)
Lemma path_bound l v :
  is_path g l -> last l = Some v -> v ∈ om_keys d -> path_cost g l <= len_at d v.
Proof.
  revert v. induction l as [|x|l u x IH] using path_ind; intros v Hl Hlast Hv; [done|..].
  { simpl. by apply key_settled. }
  apply is_path_snoc in Hl as [Hl Huv].
  change (l ++ [u; x]) with (l ++ [u] ++ [x]) in Hlast. rewrite app_assoc, last_snoc in Hlast.
  injection Hlast as <-. rewrite path_cost_snoc.
  destruct (sd_upper _ _ _ (key_settled x Hv) u Huv) as [Hu Hle].
  etransitivity; [|exact Hle]. apply lat_add_mono; [by apply path_cost_nonneg| |].
  - by apply (ecost_nonneg V _ p).
  - apply IH; [done|by rewrite last_snoc|done].
Qed.

(** ** The way back *)

Definition below (v : Vertex) : nat := length (filter (fun k => rank k <= rank v) (om_keys d)).

Lemma below_lt u v : v ∈ om_keys d -> rank u < rank v -> (below u < below v)%nat.
Proof.
  intros Hv Hlt. unfold below.
  apply (NoDup_subset_length (v :: filter (fun k => rank k <= rank u) (om_keys d))).
  - constructor.
    + intros [Hr _]%list_elem_of_filter. lia.
    + apply NoDup_filter, (om_sorted_NoDup VertexCompare), Hinv.
  - intros x [->|[Hr Hx]%list_elem_of_filter]%elem_of_cons; apply list_elem_of_filter.
    + split; [lia|done].
    + split; [lia|done].
Qed.

Lemma walk_back_zero fuel v : walk_back fuel d 0 v = Ok [].
Proof. by destruct fuel. Qed.

(** The edges the way back follows attain the distance of their head. *)
Definition tight (u v : Vertex) : Prop := len_at d v = lat_add (len_at d u) (ecost g u v).

Lemma walk_back_ok fuel l v :
  l <> 0 -> v ∈ om_keys d -> (below v <= fuel)%nat ->
  exists w mid, walk_back fuel d l (Some v) = Ok (rev (w :: mid)) /\
    last (w :: mid) = Some v /\ is_path g (w :: mid) /\ len_at d w = 0 /\
    Forall (fun x => 0 < len_at d x) mid /\ cost_from g 0 w mid = len_at d v /\
    chain tight (w :: mid).
Proof.
  revert l v. induction fuel as [|fuel IH]; intros l v Hl Hv Hb.
  { exfalso. assert (Hin : v ∈ filter (fun k => rank k <= rank v) (om_keys d)).
    { apply list_elem_of_filter. split; [lia|done]. }
    apply list_elem_of_split in Hin as (l1 & l2 & Heq). unfold below in Hb.
    rewrite Heq in Hb. autorewrite with deg_len in Hb. simpl in Hb. lia. }
  cbn [walk_back]. apply Z.eqb_neq in Hl. rewrite Hl.
  pose proof (key_settled v Hv) as Hset.
  destruct (decide (len_at d v = 0)) as [Hz|Hnz].
  - unfold len_at in Hz. destruct (dist_at d v) as [l' p'] eqn:E. simpl in Hz. subst l'.
    rewrite walk_back_zero. exists v, []. cbn. unfold len_at. rewrite E. done.
  - destruct (sd_pred _ _ _ Hset) as [[E _]|(u & Hu & E)];
      [unfold len_at in Hnz; by rewrite E in Hnz|].
    destruct (sd_upper _ _ _ Hset u Hu) as [Hku _].
    pose proof (sd_nonneg _ _ _ Hset) as Hnn.
    rewrite E. unfold len_at in Hnz, Hnn. rewrite E in Hnz, Hnn. simpl in Hnz, Hnn.
    destruct (IH _ u Hnz Hku) as (w & mid & -> & Hlast & Hp & Hw & Hmid & Hc & Ht).
    { pose proof (below_lt u v Hv). apply (wf_has_edge V Hwf) in Hu. lia. }
    exists w, (mid ++ [v]). cbn [mbind res_bind].
    assert (Hlv : len_at d v = lat_add (len_at d u) (ecost g u v)) by (unfold len_at; by rewrite E).
    split_and!.
    + change (w :: mid ++ [v]) with ((w :: mid) ++ [v]). by rewrite rev_unit.
    + change (w :: mid ++ [v]) with ((w :: mid) ++ [v]). by rewrite last_snoc.
    + unfold is_path in *. change (w :: mid ++ [v]) with ((w :: mid) ++ [v]).
      rewrite chain_app, Hlast. done.
    + done.
    + apply Forall_app. split; [done|]. constructor; [|done]. rewrite Hlv. lia.
    + rewrite cost_from_snoc, Hc, Hlv. f_equal. f_equal.
      rewrite last_cons in Hlast. by destruct (last mid); simplify_eq/=.
    + change (w :: mid ++ [v]) with ((w :: mid) ++ [v]). rewrite chain_app, Hlast. done.
Qed.

(** The farthest vertex: largest distance, and the first such in map order. *)
Lemma farthest_ok :
  d <> [] ->
  exists v, farthest d = (len_at d v, Some v) /\ v ∈ om_keys d /\
    forall u, u ∈ om_keys d ->
      len_at d u <= len_at d v /\ (VertexCompare u v = true -> len_at d u < len_at d v).
Proof.
  intros Hne. destruct Hinv as [Hs HdV _ _].
  assert (Hlen : forall k x, (k, x) ∈ d -> x.1 = len_at d k).
  { intros k x Hin. unfold len_at, dist_at. assert (V k).
    { eapply Forall_forall; [exact HdV|]. apply list_elem_of_fmap. by exists (k, x). }
    by rewrite (proj2 (om_find_vset V d k x Hs HdV ltac:(done))). }
  assert (Hkey : forall k x, (k, x) ∈ d -> k ∈ om_keys d).
  { intros k x Hin. apply list_elem_of_fmap. by exists (k, x). }
  destruct (first_max_spec (fun a : Vertex * (Z * option Vertex) => a.2.1) d)
    as (l1 & [v x] & l2 & Heq & Hmax & H1 & H2); [done| |].
  { apply Forall_forall. intros [k x] Hin. simpl. rewrite (Hlen k x Hin).
    by eapply key_settled, Hkey. }
  assert (Hin : (v, x) ∈ d) by (rewrite Heq; set_solver).
  rewrite farthest_first_max, Hmax. cbn [fst snd]. rewrite Forall_forall in H1, H2.
  exists v. split; [by rewrite (Hlen v x Hin)|]. split; [by eapply Hkey|].
  intros u ([u' y] & -> & Hu)%list_elem_of_fmap. cbn [fst].
  rewrite <- (Hlen v x Hin), <- (Hlen u' y Hu).
  rewrite Heq in Hu. apply elem_of_app in Hu as [Hu|[[= -> ->]|Hu]%elem_of_cons].
  - apply H1 in Hu. simpl in Hu. lia.
  - split; [lia|]. by rewrite (sw_irrefl (lt := VertexCompare)).
  - split; [by apply H2 in Hu|]. intros Hlt. exfalso.
    rewrite Heq in Hs. unfold om_sorted, om_keys in Hs.
    rewrite fmap_app in Hs. apply StronglySorted_app in Hs as (_ & _ & Hs).
    cbn in Hs. apply StronglySorted_inv in Hs as [_ Hf].
    rewrite Forall_forall in Hf. assert (Hvu : VertexCompare v u' = true).
    { apply Hf, list_elem_of_fmap. by exists (u', y). }
    rewrite (sw_asym VertexCompare v u' Hvu) in Hlt. done.
Qed.

End longest.

(** ** The whole computation *)

Section core.
Context (V : Vertex -> Prop) `{HV : !VertexSet V}.

Lemma touched_obs s ret g' :
  WfDeg V (graph s) (pred s) -> touched V (g := graph s) ret g' ->
  (forall x, x ∈ ret <-> verts (graph s) x) -> obs V s (set_graph s g').
Proof.
  intros Hwf [H1 H2 H3 H4 H5] Hret. split; simpl; try done.
  - destruct Hwf as [W1 W2 W3 W4 W5 W6]. split; try done; by rewrite H5.
  - intros x Hx. apply H4. by left.
  - intros x [Hx|Hx]%H4; [by left|by apply Hret].
Qed.

(** What [longest_path_core] promises to the rest of [longest_path_impl]. *)
Record longest (g : deg_t) (path : list Vertex) : Prop := {
  lg_path : is_path g path;
  lg_max l : is_path g l -> path_cost g l <= path_cost g path;
  lg_shape : path = [] \/ exists w x mid, path = w :: x :: mid /\ 0 < ecost g w x;
  lg_first v l u : last path = Some v -> is_path g l -> last l = Some u -> verts g u ->
    VertexCompare u v = true -> path_cost g l < path_cost g path
}.

Lemma obs_is_path s s' l : obs V s s' -> is_path (graph s') l <-> is_path (graph s) l.
Proof.
  intros Ho. unfold is_path. split; apply chain_impl; intros u v _ _; by apply (obs_has_edge V s s').
Qed.

Lemma obs_path_cost s s' l : obs V s s' -> path_cost (graph s') l = path_cost (graph s) l.
Proof.
  intros Ho. destruct l as [|u l]; [done|]. simpl. generalize 0.
  revert u. induction l as [|v l IH]; intros u acc; [done|].
  simpl. by rewrite (obs_ecost V s s'), IH.
Qed.

Lemma longest_obs s s' path : obs V s s' -> longest (graph s') path -> longest (graph s) path.
Proof.
  intros Ho [H1 H2 H3 H4].
  pose proof (fun l => obs_is_path s s' l Ho) as Hp.
  pose proof (fun l => obs_path_cost s s' l Ho) as Hc.
  split.
  - by apply Hp.
  - intros l Hl. rewrite <- !Hc. by apply H2, Hp.
  - destruct H3 as [|(w & x & mid & -> & Hpos)]; [by left|]. right. exists w, x, mid.
    by rewrite <- (obs_ecost V s s').
  - intros v l u Hlast Hl Hu Huv Hlt. rewrite <- !Hc. apply (H4 v l u); [done|by apply Hp|done| |done].
    by apply (obs_verts_iff V s s').
Qed.

Lemma longest_nil g p topo d v :
  WfDeg V g p -> dist_inv V g topo d ->
  (forall u, verts g u -> u ∈ om_keys d /\ len_at d u <= len_at d v) ->
  len_at d v = 0 -> longest g [].
Proof.
  intros Hwf Hinv Hmax Hz. split; [done| |by left|done].
  intros l Hl. simpl. destruct l as [|x|l u x _] using path_ind; [done..|].
  pose proof Hl as [_ Hux%has_edge_verts]%is_path_snoc. destruct Hux as [_ Hx].
  destruct (Hmax x Hx) as [Hk Hle].
  enough (path_cost g (l ++ [u; x]) <= len_at d x) by lia.
  apply (path_bound V Hwf Hinv); [done| |done].
  change (l ++ [u; x]) with (l ++ [u] ++ [x]). by rewrite app_assoc, last_snoc.
Qed.

Lemma longest_cons g p topo d v w mid :
  WfDeg V g p -> dist_inv V g topo d ->
  (forall u, verts g u -> u ∈ om_keys d) ->
  (forall u, u ∈ om_keys d ->
     len_at d u <= len_at d v /\ (VertexCompare u v = true -> len_at d u < len_at d v)) ->
  last (w :: mid) = Some v -> is_path g (w :: mid) -> len_at d w = 0 -> len_at d v <> 0 ->
  cost_from g 0 w mid = len_at d v -> Forall (fun x => 0 < len_at d x) mid ->
  chain (tight (g := g) (d := d)) (w :: mid) -> longest g (w :: mid).
Proof.
  intros Hwf Hinv Hverts Hmax Hlast Hp Hw Hv Hc Hmid Ht.
  assert (Hb : forall l u, is_path g l -> last l = Some u -> verts g u -> path_cost g l <= len_at d u).
  { intros l u Hl Hu Huv. by apply (path_bound V Hwf Hinv); [..|apply Hverts]. }
  split; [done|..]; cbn [path_cost].
  - intros l Hl. rewrite Hc. destruct l as [|x|l u x _] using path_ind.
    1,2: simpl; rewrite <- Hc; by apply (path_cost_nonneg V Hwf (w :: mid)).
    pose proof Hl as [_ [_ Hx]%has_edge_verts]%is_path_snoc.
    transitivity (len_at d x); [|by apply Hmax, Hverts]. apply Hb; [done| |done].
    change (l ++ [u; x]) with (l ++ [u] ++ [x]). by rewrite app_assoc, last_snoc.
  - right. destruct mid as [|x mid]; [simpl in Hlast; congruence|].
    exists w, x, mid. split; [done|].
    destruct Hp as [Hwx _]. apply Forall_cons in Hmid as [Hx _].
    destruct Ht as [Ht _]. unfold tight in Ht. rewrite Hw in Ht.
    pose proof (ecost_nonneg V g p w x Hwf Hwx).
    destruct (decide (ecost g w x = 0)) as [E|]; [|lia]. rewrite E in Ht.
    change (lat_add 0 0) with 0 in Ht. lia.
  - intros v' l u [= ->]%(eq_trans (eq_sym Hlast)) Hl Hu Huv Hlt. rewrite Hc.
    eapply Z.le_lt_trans; [by apply (Hb l u)|]. by apply Hmax; [apply Hverts|].
Qed.

Lemma longest_path_core_ok s :
  WfDeg V (graph s) (pred s) -> Forall (fun x => x.2 <> []) (pred s) -> graph s <> [] ->
  exists path s', longest_path_core s = Ok (path, s') /\ obs V s s' /\ longest (graph s) path.
Proof.
  intros Hwf Hne Hg. unfold longest_path_core.
  destruct (topological_sort_ok V Hwf Hne s) as (topo & g' & -> & Hnd & Hin & Hord & Ht);
    [done..|]. cbn [mbind res_bind].
  pose proof (touched_obs s topo g' Hwf Ht Hin) as Ho.
  set (s1 := set_graph s g') in *. pose proof (obs_wf _ _ _ Ho) as Hwf1.
  destruct (update_dists_ok V s1 s1 topo [] topo []) as (s2 & d & -> & Ho2 & Hinv);
    [done|by apply obs_refl| |done|done| | |].
  { split; [constructor|constructor|done|set_solver]. }
  { apply Forall_forall. intros x Hx%Hin. by apply (verts_V V Hwf). }
  { intros l1 v l2 u Heq Hu. apply (Hord l1 v l2); [done|]. by apply (obs_has_edge V s s1). }
  cbn [mbind res_bind].
  assert (Hverts : forall u, verts (graph s1) u -> u ∈ om_keys d).
  { intros u Hu. apply Hinv, Hin. by apply (obs_verts_iff V s s1). }
  destruct (farthest_ok V Hwf1 Hinv) as (v & -> & Hv & Hmax).
  { intros ->. destruct (graph s) as [|[k es] g0] eqn:E; [done|].
    assert (Hk : k ∈ []); [|set_solver]. apply (Hverts k), (obs_verts_iff V s s1); [done|].
    left. rewrite E. simpl. set_solver. }
  assert (Hlong : forall path, longest (graph s1) path -> longest (graph s) path).
  { intros path. by apply longest_obs. }
  pose proof (obs_trans V s s1 s2 Ho Ho2) as Hos.
  destruct (decide (len_at d v = 0)) as [Hz|Hnz].
  - rewrite Hz, walk_back_zero. cbn [mbind res_bind]. eexists [], _. split; [done|].
    split; [done|]. apply Hlong, (longest_nil _ (pred s1) topo d v); [done..| |done].
    intros u Hu. split; [by apply Hverts|]. by apply Hmax, Hverts.
  - destruct (walk_back_ok V Hwf1 Hinv (S (length d)) (len_at d v) v)
      as (w & mid & -> & Hlast & Hp & Hw & Hmid & Hc & Htt); [done..| |].
    { unfold below. etransitivity; [apply length_filter|]. unfold om_keys.
      rewrite length_fmap. lia. }
    cbn [mbind res_bind]. rewrite rev_involutive. eexists _, _. split; [done|].
    split; [done|]. apply Hlong. by apply (longest_cons _ (pred s1) topo d v).
Qed.

End core.
