(* ===== verification/Pipeline.v ===== *)
(** * The graph of a trace

    The specification the construction is proved against.  Each instruction
    contributes a chain of pipeline events ([chain_types]); an edge is one of
    five kinds ([edge_kind]); [Inv] is the invariant every operation on the
    state keeps and [Ext] says a state only gained edges and vertices.
    [trace_ok] collects what a trace must satisfy for the edge weights to be
    the differences of the event times. *)

From S2P Require Import Prelude Machine OrderedMap External Instruction Bottleneck GraphDefs.
From S2P Require Import DegBuild GraphTheory.

#[local] Open Scope string_scope.
#[local] Open Scope list_scope.
#[local] Open Scope Z_scope.

(** ** Events of one instruction *)

Definition front_types (i : RiscvInstruction) : list VertexType :=
  if process_cache_completion i =? fetch i then [VT.F1; VT.F2F; VT.D]
  else [VT.F1; VT.F2; VT.F; VT.D].
Definition issue_types (i : RiscvInstruction) : list VertexType :=
  if dispatch i =? issue i then [VT.DI] else [VT.DS; VT.I].
Definition finish_types (i : RiscvInstruction) : list VertexType :=
  if is_mem i then
    if is_store i || (memory i =? complete_memory i) then [VT.MP] else [VT.M; VT.P]
  else [VT.P].
Definition chain_types (i : RiscvInstruction) : list VertexType :=
  front_types i ++ VT.R :: issue_types i ++ finish_types i ++ [VT.C].

Definition ev (t : VertexType) (i : RiscvInstruction) : Vertex :=
  mkVertex t (inst_seq i) (timing_of t i) i.

Ltac cases_chain i :=
  unfold chain_types, front_types, issue_types, finish_types in *;
  destruct (process_cache_completion i =? fetch i), (dispatch i =? issue i), (is_mem i);
  try destruct (is_store i || (memory i =? complete_memory i)).

Ltac elem_here :=
  first [apply list_elem_of_here | apply list_elem_of_further; elem_here].

(** Events appear in the order of the enumeration, without repetition. *)
Lemma chain_types_increasing i t t' :
  (t, t') ∈ pairs_of (chain_types i) -> vt_idx t < vt_idx t'.
Proof. cases_chain i; simpl; set_solver by (subst; done). Qed.

Lemma chain_types_pairs i t t' :
  (t, t') ∈ pairs_of (chain_types i) -> t ∈ chain_types i /\ t' ∈ chain_types i.
Proof. cases_chain i; simpl; set_solver. Qed.

(** An event has one successor; only the commit has none. *)
Lemma chain_types_next i t :
  t ∈ chain_types i -> t <> VT.C -> exists t', (t, t') ∈ pairs_of (chain_types i).
Proof.
  intros Ht Hc. cases_chain i; simpl in *;
    repeat (apply elem_of_cons in Ht as [->|Ht]; [first [done | eexists; elem_here]|]);
    by apply elem_of_nil in Ht.
Qed.

Lemma chain_types_next_unique i t t1 t2 :
  (t, t1) ∈ pairs_of (chain_types i) -> (t, t2) ∈ pairs_of (chain_types i) -> t1 = t2.
Proof. cases_chain i; simpl; set_solver. Qed.

Lemma chain_types_last i : exists t, (t, VT.C) ∈ pairs_of (chain_types i).
Proof. cases_chain i; eexists; elem_here. Qed.

Lemma chain_types_pairs_NoDup i : NoDup (pairs_of (chain_types i)).
Proof. cases_chain i; apply (bool_decide_unpack _); done. Qed.

Lemma chain_types_prev_unique i t t1 t2 :
  (t1, t) ∈ pairs_of (chain_types i) -> (t2, t) ∈ pairs_of (chain_types i) -> t1 = t2.
Proof. cases_chain i; simpl; set_solver. Qed.

Lemma F1_in_chain i : VT.F1 ∈ chain_types i.
Proof. cases_chain i; simpl; set_solver. Qed.
Lemma C_in_chain i : VT.C ∈ chain_types i.
Proof. cases_chain i; simpl; set_solver. Qed.
Lemma R_in_chain i : VT.R ∈ chain_types i.
Proof. cases_chain i; simpl; set_solver. Qed.

(** Types whose events edges between instructions can join. *)
Definition skew_tail (t : VertexType) : bool :=
  match t with VT.R | VT.I | VT.DI | VT.P | VT.MP => true | _ => false end.
Definition skew_head (t : VertexType) : bool :=
  match t with VT.F1 | VT.R | VT.I | VT.DI => true | _ => false end.
Definition joint (t : VertexType) : bool := skew_tail t || skew_head t.

Ltac registered :=
  repeat case_match;
  first [by exists BTK_Base | by exists BTK_IcacheMiss | by exists BTK_DcacheMiss
        | by exists BTK_BPMiss | by exists BTK_ROB | by exists BTK_LQ | by exists BTK_SQ
        | by exists BTK_IntRF | by exists BTK_FpRF | by exists BTK_IQ | by exists BTK_IntAlu
        | by exists BTK_IntMultDiv | by exists BTK_FpAlu | by exists BTK_FpMultDiv
        | by exists BTK_RdWrPort | by exists BTK_RAW | by exists BTK_Virtual].

(** ** Traces *)

(** Instructions are numbered from 1 in the order they are read. *)
Definition numbered (insts : list RiscvInstruction) : Prop :=
  inst_seq <$> insts = seqZ 1 (Z.of_nat (length insts)).
Existing Class numbered.

(** Times of one instruction follow the pipeline, and fit in a double. *)
Definition ticks_ok (i : RiscvInstruction) : bool :=
  (0 <=? fetch_cache_line i) && (fetch_cache_line i <=? process_cache_completion i) &&
  (process_cache_completion i <=? fetch i) && (fetch i <=? decode i) &&
  (decode i <=? rename i) && (rename i <=? dispatch i) && (dispatch i <=? issue i) &&
  (if is_mem i then (issue i <=? memory i) && (memory i <=? complete i)
   else issue i <=? complete i) &&
  (if is_load i then complete i =? complete_memory i
   else if is_store i then memory i =? complete i else true) &&
  (complete i <=? commit i) && (commit i <? 2 ^ 53).

Lemma ticks_ok_chain i :
  ticks_ok i = true ->
  0 <= fetch_cache_line i <= process_cache_completion i /\
  process_cache_completion i <= fetch i <= decode i /\
  decode i <= rename i <= dispatch i /\ dispatch i <= issue i <= complete i /\
  complete i <= commit i < 2 ^ 53 /\
  (is_mem i = true -> issue i <= memory i <= complete i) /\
  (is_load i = true -> complete i = complete_memory i) /\
  (is_store i = true -> memory i = complete i).
Proof.
  unfold ticks_ok. intros Hok. pose proof (mem_load_or_store i) as Hm.
  pose proof (load_not_store i) as Hls. bool_to_prop.
  destruct (is_mem i), (is_load i), (is_store i); simplify_eq/=; bool_to_prop;
    split_and!; intros; try done; try lia; by discriminate Hls.
Qed.

(** Times are non-negative, bounded by the commit, and not before the fetch. *)
Lemma ev_timing t i :
  ticks_ok i = true -> t ∈ chain_types i ->
  0 <= fetch_cache_line i <= timing_of t i /\ timing_of t i <= commit i < 2 ^ 53.
Proof.
  intros H%ticks_ok_chain Ht. pose proof (mem_load_or_store i) as Hm.
  assert (Hmem : t = VT.M \/ t = VT.MP -> is_mem i = true).
  { destruct (is_mem i) eqn:Em; [done|]. unfold chain_types, front_types, issue_types, finish_types in Ht.
    rewrite Em in Ht. repeat case_match; set_solver. }
  destruct t; simpl; try lia; [|destruct (is_load i); lia|]; rewrite Hmem in * by tauto; lia.
Qed.

(** An earlier instruction [j] is fetched, renamed and committed no later than
    [i], and issued no later when [i] reads what it writes. *)
Definition in_order (j i : RiscvInstruction) : bool :=
  (fetch_cache_line j <=? fetch_cache_line i) && (rename j <=? rename i) &&
  (commit j <=? commit i) && implb (bool_decide (dst j ∈ src i)) (issue j <=? issue i).

Definition trace_ok (insts : list RiscvInstruction) : bool :=
  forallb ticks_ok insts &&
  forallb (fun i => forallb (fun j => implb (inst_seq j <? inst_seq i) (in_order j i)) insts) insts.

Section trace.
Context (insts : list RiscvInstruction) (Hnum : numbered insts).

Lemma numbered_lookup k i : insts !! k = Some i -> inst_seq i = Z.of_nat k + 1.
Proof.
  intros Hk. assert (H : (inst_seq <$> insts) !! k = Some (inst_seq i)).
  { by rewrite list_lookup_fmap, Hk. }
  unfold numbered in Hnum. rewrite Hnum in H. apply lookup_seqZ in H. lia.
Qed.

Lemma numbered_inj i j : i ∈ insts -> j ∈ insts -> inst_seq i = inst_seq j -> i = j.
Proof.
  intros [a Ha]%list_elem_of_lookup [b Hb]%list_elem_of_lookup Heq.
  pose proof (numbered_lookup a i Ha). pose proof (numbered_lookup b j Hb).
  assert (a = b) as -> by lia. congruence.
Qed.

Lemma numbered_range i : i ∈ insts -> 1 <= inst_seq i <= Z.of_nat (length insts).
Proof.
  intros [a Ha]%list_elem_of_lookup. pose proof (numbered_lookup a i Ha).
  apply lookup_lt_Some in Ha. lia.
Qed.

Lemma trace_ok_ticks i : trace_ok insts = true -> i ∈ insts -> ticks_ok i = true.
Proof.
  unfold trace_ok. intros [H _]%andb_true_iff Hi. rewrite forallb_forall in H.
  by apply H, list_elem_of_In.
Qed.

Lemma trace_ok_order j i :
  trace_ok insts = true -> i ∈ insts -> j ∈ insts -> inst_seq j < inst_seq i -> in_order j i = true.
Proof.
  unfold trace_ok. intros [_ H]%andb_true_iff Hi Hj Hlt. rewrite forallb_forall in H.
  apply list_elem_of_In, H in Hi. rewrite forallb_forall in Hi.
  apply list_elem_of_In, Hi in Hj. apply Z.ltb_lt in Hlt. by rewrite Hlt in Hj.
Qed.

(** ** Vertices *)

Definition V (v : Vertex) : Prop :=
  exists i t, i ∈ insts /\ t ∈ chain_types i /\ v = ev t i.

#[global] Instance V_vertex_set : VertexSet V.
Proof.
  intros u v (i & t & Hi & Ht & ->) (j & t' & Hj & Ht' & ->). simpl. intros -> Hs.
  by rewrite (numbered_inj i j).
Qed.

Lemma V_ev t i : i ∈ insts -> t ∈ chain_types i -> V (ev t i).
Proof. intros. by exists i, t. Qed.

Lemma V_timing v :
  trace_ok insts = true -> V v -> 0 <= timing v < 2 ^ 53.
Proof.
  intros Hok (i & t & Hi & Ht & ->). simpl.
  pose proof (ev_timing t i (trace_ok_ticks i Hok Hi) Ht). lia.
Qed.

(** ** Edges

    The last two kinds appear only once the path search has joined the longest
    path to the source and to the sink, which [att] tells. *)

Context (att : bool).

Inductive edge_kind (u : Vertex) (e : OutgoingEdge) : Prop :=
| Horizontal i t t' :
    i ∈ insts -> (t, t') ∈ pairs_of (chain_types i) -> u = ev t i -> child e = ev t' i ->
    cost e = 0 -> edge_kind u e
| Skewed i j t t' :
    i ∈ insts -> j ∈ insts -> inst_seq i < inst_seq j ->
    t ∈ chain_types i -> t' ∈ chain_types j -> skew_tail t = true -> skew_head t' = true ->
    u = ev t i -> child e = ev t' j -> cost e = weight e -> edge_kind u e
| Bridge i j t t' :
    i ∈ insts -> j ∈ insts -> inst_seq i < inst_seq j ->
    t ∈ chain_types i -> t' ∈ chain_types j -> joint t = true -> joint t' = true ->
    u = ev t i -> child e = ev t' j -> cost e = 0 -> edge_kind u e
| FromSource i j t' :
    att = true -> i ∈ insts -> j ∈ insts -> inst_seq i = 1 -> t' ∈ chain_types j -> skew_tail t' = true ->
    u = ev VT.F1 i -> child e = ev t' j -> cost e = 0 -> edge_kind u e
| ToSink i j :
    att = true -> i ∈ insts -> j ∈ insts -> inst_seq i < inst_seq j ->
    inst_seq j = Z.of_nat (length insts) -> u = ev VT.C i -> child e = ev VT.C j ->
    cost e = 0 -> edge_kind u e.

Definition exact_weight (u : Vertex) (e : OutgoingEdge) : Prop :=
  trace_ok insts = true -> timing u <= timing (child e) /\ weight e = timing (child e) - timing u.

Record good_edge (u : Vertex) (e : OutgoingEdge) : Prop := {
  ge_kind : edge_kind u e;
  ge_registered : exists b, bottleneck e = bottleneck_of b;
  ge_nonneg : 0 <= weight e;
  ge_weight : exact_weight u e
}.

Lemma edge_kind_ends u e : edge_kind u e -> V u /\ V (child e) /\ rank u < rank (child e).
Proof.
  destruct 1 as [i t t' Hi Hp -> -> _|i j t t' Hi Hj Hlt Ht Ht' _ _ -> -> _
    |i j t t' Hi Hj Hlt Ht Ht' _ _ -> -> _|i j t' _ Hi Hj H1 Ht' Hs -> -> _|i j _ Hi Hj Hlt _ -> -> _].
  - pose proof (chain_types_pairs i t t' Hp) as [? ?].
    split_and!; [by apply V_ev..|]. apply rank_lt_type; [done|]. by eapply chain_types_increasing.
  - split_and!; [by apply V_ev..|]. by apply rank_lt_seq.
  - split_and!; [by apply V_ev..|]. by apply rank_lt_seq.
  - split_and!; [apply V_ev; [done|apply F1_in_chain]|by apply V_ev|].
    pose proof (numbered_range j Hj). destruct (decide (inst_seq j = 1)) as [E|].
    + apply rank_lt_type; simpl; [lia|]. by destruct t'.
    + apply rank_lt_seq. simpl. lia.
  - split_and!; [apply V_ev; [done|apply C_in_chain]..|]. by apply rank_lt_seq.
Qed.

Lemma good_edge_cost u e : good_edge u e -> 0 <= cost e.
Proof. intros [[] _ Hw _]; lia. Qed.

(** ** The invariant *)

Context `{B : Boost} `{HB : !BoostLaws B}.

(** The edges inside one instruction, as pairs. *)
Definition horizontals (g : deg_t) : list (Vertex * Vertex) :=
  filter (fun q => vseq q.1 = vseq q.2) (edge_pair <$> edges g).

Record Inv (s : O3Graph) : Prop := {
  inv_wf : WfDeg V (graph s) (pred s);
  inv_preds : att = false -> Forall (fun x => x.2 <> []) (pred s);
  inv_single : NoDup (horizontals (graph s));
  inv_edges : Forall (fun x => good_edge x.1 x.2) (edges (graph s));
  inv_map key v : inst_to_vertex s !! key = Some v ->
    exists i t, i ∈ insts /\ t ∈ chain_types i /\ v = ev t i /\ key = hash_inst i t;
  inv_bottlenecks : bottlenecks s = register_bottlenecks
}.

(** A state reached from another by adding edges and touching entries. *)
Record Ext (s s' : O3Graph) : Prop := {
  ext_inv : Inv s';
  ext_edges x : x ∈ edges (graph s) -> x ∈ edges (graph s');
  ext_children u : V u -> exists es, children (graph s') u = children (graph s) u ++ es;
  ext_map key v : inst_to_vertex s !! key = Some v -> inst_to_vertex s' !! key = Some v;
  ext_window : inst_window s' = inst_window s;
  ext_stream : inst_stream s' = inst_stream s
}.

Lemma ext_refl s : Inv s -> Ext s s.
Proof. split; try done. intros u _. exists []. by rewrite app_nil_r. Qed.

Lemma ext_trans s1 s2 s3 : Ext s1 s2 -> Ext s2 s3 -> Ext s1 s3.
Proof.
  intros [] []. split; try done; [by auto| |by auto|congruence..].
  intros u Hu. destruct (ext_children0 u Hu) as [l1 E1], (ext_children1 u Hu) as [l2 E2].
  exists (l1 ++ l2). by rewrite E2, E1, app_assoc.
Qed.

Lemma ext_has_edge s s' u v : Ext s s' -> has_edge (graph s) u v -> has_edge (graph s') u v.
Proof. intros He (e & Hin & Hv). exists e. split; [by apply He|done]. Qed.

(** Keys of the vertex table identify instruction and event. *)
Lemma append_inj_dash a b x y :
  ~ char_of "-" a -> ~ char_of "-" b -> a +:+ "-" +:+ x = b +:+ "-" +:+ y -> a = b /\ x = y.
Proof.
  clear -a b x y. revert b. induction a as [|c a IH]; intros [|d b] Ha Hb Heq; simpl in Heq.
  - by injection Heq.
  - exfalso. injection Heq as <- _. apply Hb. unfold char_of. simpl. set_solver.
  - exfalso. injection Heq as -> _. apply Ha. unfold char_of. simpl. set_solver.
  - injection Heq as <- Heq. destruct (IH b) as [<- <-]; [..|done|done].
    + intros Hc. apply Ha. unfold char_of in *. simpl. set_solver.
    + intros Hc. apply Hb. unfold char_of in *. simpl. set_solver.
Qed.

Lemma hash_inst_inj i j t t' :
  0 <= inst_seq i -> 0 <= inst_seq j -> hash_inst i t = hash_inst j t' ->
  inst_seq i = inst_seq j /\ t = t'.
Proof.
  clear -HB i j t t'. unfold hash_inst. intros Hi Hj [H1 H2]%append_inj_dash; [|by apply lexical_cast_no_dash..].
  split; [by apply lexical_cast_inj|]. by destruct t, t'.
Qed.

Lemma hash_inst_unique i j t t' :
  i ∈ insts -> j ∈ insts -> hash_inst i t = hash_inst j t' -> i = j /\ t = t'.
Proof.
  intros Hi Hj H. pose proof (numbered_range i Hi). pose proof (numbered_range j Hj).
  apply hash_inst_inj in H as [Hs Ht]; [|lia..]. split; [by apply numbered_inj|done].
Qed.

(** ** The two elementary operations *)

Lemma connect_edges s u e :
  Inv s -> good_edge u e -> edges (graph (connect s u e)) ≡ₚ (u, e) :: edges (graph s).
Proof.
  intros Hs [Hk _ _ _]. apply (edges_append V); [apply Hs|].
  apply edge_kind_ends in Hk. tauto.
Qed.

(** Inside an instruction an edge is added once. *)
Definition fresh (s : O3Graph) (u v : Vertex) : Prop :=
  vseq u = vseq v -> ~ has_edge (graph s) u v.

Lemma elem_of_edge_pairs g u v : (u, v) ∈ edge_pair <$> edges g <-> has_edge g u v.
Proof.
  rewrite list_elem_of_fmap. unfold edge_pair, has_edge. split.
  - intros ([u' e] & [= -> ->] & He). eauto.
  - intros (e & He & <-). by exists (u, e).
Qed.

Lemma connect_ext s u e :
  Inv s -> good_edge u e -> fresh s u (child e) -> Ext s (connect s u e).
Proof.
  intros Hs Hg Hfr. pose proof (connect_edges s u e Hs Hg) as Hperm.
  pose proof (edge_kind_ends u e (ge_kind u e Hg)) as (Hu & Hc & Hr).
  assert (Hmap : forall key v, inst_to_vertex (connect s u e) !! key = Some v ->
    inst_to_vertex s !! key = Some v \/ (key = hash_inst (vinst u) (vtype u) /\ v = u)).
  { intros key v. simpl. rewrite lookup_insert_Some. naive_solver. }
  split; [split|..].
  - apply (wf_append V); [apply Hs|done..|by eapply good_edge_cost].
  - intros Ha. apply (om_upd_forall VertexCompare (fun _ l => l <> [])); [by apply Hs|done|].
    intros _ l _ [_ [=]]%app_nil.
  - unfold horizontals. rewrite Hperm. csimpl. rewrite filter_cons.
    case_decide as Hd; [|apply Hs]. constructor; [|apply Hs].
    intros [_ Hin%elem_of_edge_pairs]%list_elem_of_filter. by apply Hfr.
  - rewrite Hperm. constructor; [done|apply Hs].
  - intros key v [Hk|[-> ->]]%Hmap; [by apply Hs|].
    destruct Hu as (i & t & Hi & Ht & ->). by exists i, t.
  - apply Hs.
  - intros x Hx. rewrite Hperm. set_solver.
  - intros x Hx. unfold children. simpl. destruct (decide (u = x)) as [->|Hne].
    + exists [e]. by rewrite (om_find_upd_same VertexCompare x x).
    + exists []. rewrite app_nil_r, (om_find_upd_other VertexCompare u x); [done|apply Hs|].
      intros Heq. by apply Hne; symmetry; apply (vset_equiv V).
  - intros key v Hkey. simpl. destruct (decide (key = hash_inst (vinst u) (vtype u))) as [->|Hne].
    + apply (inv_map s Hs) in Hkey as (i & t & Hi & Ht & -> & Heq).
      destruct Hu as (j & t' & Hj & Ht' & ->). simpl in Heq.
      apply hash_inst_unique in Heq as [-> ->]; [|done..]. by rewrite lookup_insert_eq.
    + by rewrite lookup_insert_ne.
  - done.
  - done.
Qed.

Lemma connect_has_edge_iff s u e x y :
  Inv s -> good_edge u e ->
  has_edge (graph (connect s u e)) x y <-> (x = u /\ y = child e) \/ has_edge (graph s) x y.
Proof.
  intros Hs Hg. rewrite <- !elem_of_edge_pairs, connect_edges by done. csimpl.
  rewrite elem_of_cons. unfold edge_pair at 1. simpl. naive_solver.
Qed.

Lemma connect_has_edge s u e :
  Inv s -> good_edge u e -> has_edge (graph (connect s u e)) u (child e).
Proof. intros Hs Hg. exists e. rewrite connect_edges by done. set_solver. Qed.

Lemma connect_lookup s u e :
  inst_to_vertex (connect s u e) !! hash_inst (vinst u) (vtype u) = Some u.
Proof. simpl. apply lookup_insert_eq. Qed.

Lemma touch_ext s u : Inv s -> V u -> Ext s (set_graph s (touch (graph s) u)).
Proof.
  intros Hs Hu. assert (Hp : edges (touch (graph s) u) ≡ₚ edges (graph s)).
  { apply (edges_touch V); [apply Hs|done]. }
  split; [split|..]; simpl; try done.
  - by apply wf_touch; [apply _|apply Hs|].
  - apply Hs.
  - unfold horizontals. rewrite Hp. apply Hs.
  - rewrite Hp. apply Hs.
  - apply Hs.
  - apply Hs.
  - intros x. by rewrite Hp.
  - intros x _. exists []. rewrite app_nil_r. apply children_touch, Hs.
Qed.

(** Reading the vertex table. *)
Definition recorded (s : O3Graph) (i : RiscvInstruction) : Prop :=
  forall t, t ∈ chain_types i -> t <> VT.C -> inst_to_vertex s !! hash_inst i t = Some (ev t i).

Lemma ext_recorded s s' i : Ext s s' -> recorded s i -> recorded s' i.
Proof. intros He Hr t Ht Hc. by apply He, Hr. Qed.

Lemma lookup_absent s i t :
  Inv s -> i ∈ insts -> t ∉ chain_types i -> inst_to_vertex s !! hash_inst i t = None.
Proof.
  intros Hs Hi Ht. destruct (inst_to_vertex s !! hash_inst i t) as [v|] eqn:E; [|done].
  apply (inv_map s Hs) in E as (j & t' & Hj & Ht' & -> & Heq).
  by apply hash_inst_unique in Heq as [-> ->].
Qed.

(** The vertex found for an event: its own, or the one it was merged into. *)
Lemma get_vertex_ok s i t :
  Inv s -> i ∈ insts -> recorded s i -> t <> VT.C ->
  t ∈ chain_types i \/ (exists t', merged_type t = Some t' /\ t' ∈ chain_types i) ->
  exists t', get_vertex_from_inst s i t = Ok (ev t' i) /\ t' ∈ chain_types i /\
    (t' = t \/ merged_type t = Some t').
Proof.
  intros Hs Hi Hr Hc Ht. unfold get_vertex_from_inst.
  destruct (decide (t ∈ chain_types i)) as [Hin|Hn].
  { rewrite Hr by done. eauto. }
  destruct Ht as [|(t' & Hm & Hin)]; [done|].
  assert (t' <> VT.C) by (by destruct t; simplify_eq/=).
  rewrite lookup_absent, Hm, Hr by done. eauto.
Qed.

End trace.

(** ** Growing the trace *)

Lemma inv_mono insts insts' `{B : Boost} s :
  insts ⊆ insts' -> (trace_ok insts' = true -> trace_ok insts = true) ->
  Inv insts false s -> Inv insts' false s.
Proof.
  intros Hsub Hok [H1 H2 H3 H4 H5 H6].
  assert (HV : forall v, V insts v -> V insts' v).
  { intros v (i & t & Hi & Ht & ->). exists i, t. split; [by apply Hsub|done]. }
  split; try done.
  - destruct H1 as [W1 W2 W3 W4 W5 W6]. split; try done.
    + eapply Forall_impl; [exact W3|]. auto.
    + eapply Forall_impl; [exact W4|]. auto.
    + eapply Forall_impl; [exact W5|]. simpl. intros x (? & ? & ?). auto.
  - eapply Forall_impl; [exact H4|]. intros x [G1 G2 G3 G4]. split; [|done|done|].
    + destruct G1 as [i t t' Hi|i j t t' Hi Hj|i j t t' Hi Hj|? ? ? [=]|? ? [=]].
      * by apply (Horizontal _ _ _ _ i t t'); [apply Hsub|..].
      * by apply (Skewed _ _ _ _ i j t t'); [apply Hsub|apply Hsub|..].
      * by apply (Bridge _ _ _ _ i j t t'); [apply Hsub|apply Hsub|..].
    + intros Ho. by apply G4, Hok.
  - intros key v (i & t & Hi & Ht)%H5. exists i, t. split; [by apply Hsub|done].
Qed.

Lemma trace_ok_app insts i : trace_ok (insts ++ [i]) = true -> trace_ok insts = true.
Proof.
  unfold trace_ok. rewrite !andb_true_iff, !forallb_forall. setoid_rewrite forallb_forall.
  setoid_rewrite in_app_iff. intros [H1 H2]. split; auto.
Qed.

Lemma numbered_app insts i :
  numbered (insts ++ [i]) -> numbered insts /\ inst_seq i = Z.of_nat (length insts) + 1.
Proof.
  intros Hn. split.
  - unfold numbered in *. rewrite length_app in Hn. simpl in Hn.
    rewrite Nat2Z.inj_add, seqZ_app, fmap_app in Hn by lia.
    by apply app_inj_1 in Hn as [? _]; [|rewrite length_fmap, length_seqZ; lia].
  - apply (numbered_lookup _ Hn). by rewrite lookup_app_r, Nat.sub_diag.
Qed.
