(* ===== verification/BuildFacts.v ===== *)
(** * The edges of one instruction

    [model] never fails on an instruction of the trace and adds exactly the
    chain of its events. *)

From S2P Require Import Prelude Machine OrderedMap External Instruction Bottleneck GraphDefs.
From S2P Require Import DegBuild GraphTheory Pipeline.

#[local] Open Scope list_scope.
#[local] Open Scope Z_scope.

Section build.
Context (insts : list RiscvInstruction) (Hnum : numbered insts).
Context `{B : Boost} `{HB : !BoostLaws B}.

(** One horizontal edge: ends, the ticks whose difference is the weight, and
    the reported bottleneck. *)
Record hstep := mkStep {
  hs_from : VertexType; hs_to : VertexType; hs_late : Z; hs_early : Z; hs_kind : Bottleneck
}.
Definition hs_pair (h : hstep) : VertexType * VertexType := (hs_from h, hs_to h).
Definition hs_add (i : RiscvInstruction) (s : O3Graph) (h : hstep) : O3Graph :=
  connect s (ev (hs_from h) i)
    (OutgoingEdge_new (ev (hs_to h) i) (lat_sub (hs_late h) (hs_early h)) 0 (hs_kind h)).

Definition hs_exact (i : RiscvInstruction) (h : hstep) : Prop :=
  (exists b, hs_kind h = bottleneck_of b) /\
  (ticks_ok i = true ->
   0 <= hs_early h <= hs_late h /\ hs_late h < 2 ^ 53 /\
   hs_late h - hs_early h = timing_of (hs_to h) i - timing_of (hs_from h) i).

Lemma hs_good i h :
  i ∈ insts -> hs_pair h ∈ pairs_of (chain_types i) -> hs_exact i h ->
  good_edge insts false (ev (hs_from h) i)
    (OutgoingEdge_new (ev (hs_to h) i) (lat_sub (hs_late h) (hs_early h)) 0 (hs_kind h)).
Proof.
  intros Hi Hp [Hk Hx]. split; simpl; [|done|apply lat_sub_nonneg|].
  - by apply (Horizontal _ _ _ _ i (hs_from h) (hs_to h)).
  - intros Hok. destruct (Hx (trace_ok_ticks insts i Hok Hi)) as (Hb & Hlt & Heq). simpl.
    rewrite lat_sub_exact by lia. lia.
Qed.

Definition linked (s : O3Graph) (i : RiscvInstruction) (ps : list (VertexType * VertexType)) : Prop :=
  Forall (fun p => has_edge (graph s) (ev p.1 i) (ev p.2 i) /\
                   inst_to_vertex s !! hash_inst i p.1 = Some (ev p.1 i)) ps.

Lemma linked_ext s s' i ps : Ext insts false s s' -> linked s i ps -> linked s' i ps.
Proof.
  intros He Hl. eapply Forall_impl; [exact Hl|]. simpl. intros p [H1 H2].
  split; [by eapply ext_has_edge|by apply He].
Qed.

(** None of the pairs is an edge yet. *)
Definition unlinked (s : O3Graph) (i : RiscvInstruction) (ps : list (VertexType * VertexType)) : Prop :=
  Forall (fun p => ~ has_edge (graph s) (ev p.1 i) (ev p.2 i)) ps.

Lemma hs_adds_ok i hs s :
  Inv insts false s -> i ∈ insts -> Forall (hs_exact i) hs ->
  Forall (fun h => hs_pair h ∈ pairs_of (chain_types i)) hs ->
  NoDup (hs_pair <$> hs) -> unlinked s i (hs_pair <$> hs) ->
  Ext insts false s (foldl (hs_add i) s hs) /\ linked (foldl (hs_add i) s hs) i (hs_pair <$> hs).
Proof.
  intros Hs Hi. revert s Hs. induction hs as [|h hs IH]; intros s Hs Hx Hp Hnd Hun.
  { split; [by apply ext_refl|constructor]. }
  apply Forall_cons in Hx as [Hx1 Hx]. apply Forall_cons in Hp as [Hp1 Hp].
  csimpl in Hnd. csimpl in Hun. apply NoDup_cons in Hnd as [Hni Hnd].
  apply Forall_cons in Hun as [Hun1 Hun].
  pose proof (hs_good i h Hi Hp1 Hx1) as Hg.
  assert (He : Ext insts false s (hs_add i s h)) by (apply connect_ext; [done..|by intros _]).
  destruct (IH (hs_add i s h)) as [He2 Hl]; [apply He|done|done|done| |].
  { apply Forall_forall. intros [t t'] Hin. rewrite (connect_has_edge_iff insts Hnum false s _ _ _ _ Hs Hg).
    rewrite Forall_forall in Hun. intros [[[= ->] [= ->]]|Hold]; [done|]. by apply (Hun _ Hin). }
  cbn [foldl]. split; [by eapply ext_trans|]. csimpl. constructor; [|done].
  eapply (linked_ext _ _ _ [hs_pair h]) in He2; [by inversion He2|].
  constructor; [|done]. simpl. split.
  - apply (connect_has_edge insts Hnum false s _ _ Hs Hg).
  - apply lookup_insert_eq.
Qed.

Lemma hs_adds_seq i hs s : get_inst_seq (foldl (hs_add i) s hs) = get_inst_seq s.
Proof. revert s. induction hs as [|h hs IH]; intros s; [done|]. simpl. by rewrite IH. Qed.

(** ** Vertices are created with the assertions satisfied *)

Lemma Vertex_new_ok t i :
  t ∈ chain_types i -> Vertex_new t (inst_seq i) i = Ok (ev t i).
Proof.
  clear HB Hnum insts. clear B.
  intros Ht. unfold Vertex_new, set_timing.
  destruct t; try done; cbn [mbind res_bind];
    unfold chain_types, front_types, issue_types, finish_types in Ht.
  - destruct (process_cache_completion i =? fetch i) eqn:E; [done|].
    repeat case_match; set_solver.
  - destruct (dispatch i =? issue i) eqn:E; [done|]. repeat case_match; set_solver.
  - destruct (is_load i) eqn:El; [|done]. destruct (memory i =? complete_memory i) eqn:E;
      [done|].
    rewrite mem_load_or_store, El, (load_not_store i El) in Ht. repeat case_match; set_solver.
Qed.

(** ** The three parts of [model] *)

(** A part of [model] adds the given pairs, with exact weights. *)
Definition adds (f : O3Graph -> RiscvInstruction -> res O3Graph) (i : RiscvInstruction)
    (ps : list (VertexType * VertexType)) : Prop :=
  exists hs, hs_pair <$> hs = ps /\ Forall (hs_exact i) hs /\
    forall s, get_inst_seq s = inst_seq i -> f s i = Ok (foldl (hs_add i) s hs).

(** The weights of the steps of one branch. *)
Ltac exact_steps :=
  repeat (apply Forall_cons; split; [split; [simpl; registered|]|]); [..|by apply Forall_nil];
  simpl; intros Hok%ticks_ok_chain; bool_to_prop.

Lemma model_front_adds i : adds model_front i (pairs_of (front_types i)).
Proof.
  clear HB Hnum insts.
  assert (Hin : forall t, t ∈ front_types i -> t ∈ chain_types i).
  { intros t Ht. unfold chain_types. set_solver. }
  unfold adds, model_front. unfold front_types in *.
  destruct (process_cache_completion i =? fetch i) eqn:E.
  - eexists [mkStep VT.F1 VT.F2F (process_cache_completion i) (fetch_cache_line i) _;
             mkStep VT.F2F VT.D (decode i) (fetch i) _].
    split; [done|]. split; [|intros s Hseq; rewrite Hseq, !Vertex_new_ok by set_solver; done].
    exact_steps; lia.
  - eexists [mkStep VT.F1 VT.F2 (process_cache_completion i) (fetch_cache_line i) _;
             mkStep VT.F2 VT.F (fetch i) (process_cache_completion i) _;
             mkStep VT.F VT.D (decode i) (fetch i) _].
    split; [done|]. split; [|intros s Hseq; rewrite Hseq, !Vertex_new_ok by set_solver; done].
    exact_steps; lia.
Qed.

Lemma model_middle_adds i : adds model_middle i (pairs_of (VT.D :: VT.R :: issue_types i)).
Proof.
  clear HB Hnum insts.
  assert (HD : VT.D ∈ chain_types i) by (cases_chain i; set_solver).
  assert (Hin : forall t, t ∈ VT.R :: issue_types i -> t ∈ chain_types i).
  { intros t Ht. unfold chain_types. set_solver. }
  unfold adds, model_middle. unfold issue_types in *.
  destruct (dispatch i =? issue i) eqn:E.
  - eexists [mkStep VT.D VT.R (rename i) (decode i) _; mkStep VT.R VT.DI (issue i) (rename i) _].
    split; [done|]. split; [|intros s Hseq; rewrite Hseq, !Vertex_new_ok by set_solver; done].
    exact_steps; lia.
  - eexists [mkStep VT.D VT.R (rename i) (decode i) _; mkStep VT.R VT.DS (dispatch i) (rename i) _;
             mkStep VT.DS VT.I (issue i) (dispatch i) _].
    split; [done|]. split; [|intros s Hseq; rewrite Hseq, !Vertex_new_ok by set_solver; done].
    exact_steps; lia.
Qed.

Definition issued (i : RiscvInstruction) : VertexType :=
  if dispatch i =? issue i then VT.DI else VT.I.

Lemma model_back_adds i :
  adds model_back i (pairs_of (issued i :: finish_types i ++ [VT.C])).
Proof.
  clear HB Hnum insts.
  assert (HI : issued i ∈ chain_types i) by (unfold issued; cases_chain i; set_solver).
  assert (Hin : forall t, t ∈ finish_types i ++ [VT.C] -> t ∈ chain_types i).
  { intros t Ht. unfold chain_types. set_solver. }
  pose proof (mem_load_or_store i) as Hmls.
  unfold adds, model_back. unfold finish_types, issued in *.
  destruct (is_mem i) eqn:Em; [destruct (is_store i) eqn:Es|];
    [|destruct (memory i =? complete_memory i) eqn:Ec|]; destruct (dispatch i =? issue i) eqn:E.
  1,3: eexists [mkStep VT.DI VT.MP (memory i) (dispatch i) _; mkStep VT.MP VT.C (commit i) (complete i) _].
  3,4: eexists [mkStep VT.I VT.MP (complete i) (issue i) _; mkStep VT.MP VT.C (commit i) (complete i) _].
  5: eexists [mkStep VT.DI VT.M (memory i) (issue i) _; mkStep VT.M VT.P (complete_memory i) (memory i) _;
              mkStep VT.P VT.C (commit i) (complete i) _].
  6: eexists [mkStep VT.I VT.M (memory i) (issue i) _; mkStep VT.M VT.P (complete_memory i) (memory i) _;
              mkStep VT.P VT.C (commit i) (complete i) _].
  7: eexists [mkStep VT.DI VT.P (complete i) (issue i) _; mkStep VT.P VT.C (commit i) (complete i) _].
  8: eexists [mkStep VT.I VT.P (complete i) (issue i) _; mkStep VT.P VT.C (commit i) (complete i) _].
  all: split; [done|]; split; [|intros s Hseq; rewrite Hseq, !Vertex_new_ok by set_solver; done].
  all: exact_steps.
  all: destruct (is_load i); simplify_eq/=.
  all: destruct Hok as (? & ? & ? & ? & ? & Hm & Hl & Hst).
  all: try specialize (Hm Em); try specialize (Hl eq_refl); try specialize (Hst Es); lia.
Qed.

Lemma chain_types_parts i :
  pairs_of (chain_types i) =
  pairs_of (front_types i) ++ pairs_of (VT.D :: VT.R :: issue_types i) ++
  pairs_of (issued i :: finish_types i ++ [VT.C]).
Proof. unfold issued. by cases_chain i. Qed.

(** [model] adds the chain of the instruction. *)
Lemma model_ok s i :
  Inv insts false s -> i ∈ insts -> get_inst_seq s = inst_seq i ->
  unlinked s i (pairs_of (chain_types i)) ->
  exists s', model s i = Ok s' /\ Ext insts false s s' /\ linked s' i (pairs_of (chain_types i)).
Proof.
  intros Hs Hi Hseq Hun.
  destruct (model_front_adds i) as (h1 & P1 & X1 & E1).
  destruct (model_middle_adds i) as (h2 & P2 & X2 & E2).
  destruct (model_back_adds i) as (h3 & P3 & X3 & E3).
  unfold model. rewrite E1 by done. cbn [mbind res_bind].
  rewrite E2 by (by rewrite hs_adds_seq). cbn [mbind res_bind].
  rewrite E3 by (by rewrite !hs_adds_seq). rewrite <- !foldl_app.
  assert (Hp : hs_pair <$> ((h1 ++ h2) ++ h3) = pairs_of (chain_types i)).
  { by rewrite !fmap_app, P1, P2, P3, chain_types_parts, app_assoc. }
  pose proof (chain_types_pairs_NoDup i) as Hnd.
  rewrite <- Hp in *. eexists. split; [by rewrite app_assoc|].
  apply hs_adds_ok; [done|done| | |done|done].
  - rewrite !Forall_app. done.
  - rewrite <- Hp. apply Forall_forall. intros h Hh. by apply list_elem_of_fmap_2.
Qed.

(** After [model] the events of the instruction can be found again. *)
Lemma linked_recorded s i : linked s i (pairs_of (chain_types i)) -> recorded s i.
Proof.
  intros Hl t Ht Hc. destruct (chain_types_next i t Ht Hc) as (t' & Hp).
  unfold linked in Hl. rewrite Forall_forall in Hl. by apply (Hl (t, t')).
Qed.

End build.
