(* ===== verification/InteractFacts.v ===== *)
(** * The edges between instructions

    Each of the eight interactions returns, and whatever edge it adds is a
    skewed edge of the trace.  The second half is about the graph of a whole trace. *)

From S2P Require Import Prelude Machine OrderedMap External Instruction Bottleneck GraphDefs.
From S2P Require Import DegBuild GraphTheory Pipeline BuildFacts Interaction.

#[local] Open Scope list_scope.
#[local] Open Scope Z_scope.

Lemma find_first_some {A} (f : A -> bool) l x : find_first f l = Some x -> x ∈ l /\ f x = true.
Proof.
  induction l as [|y l IH]; simpl; [done|]. destruct (f y) eqn:E.
  - intros [= ->]. split; [set_solver|done].
  - intros [? ?]%IH. split; [set_solver|done].
Qed.

Lemma P_timing t i :
  ticks_ok i = true -> t ∈ chain_types i -> t = VT.P \/ t = VT.MP -> timing_of t i = complete i.
Proof.
  intros (_ & _ & _ & _ & _ & Hm & Hl & Hs)%ticks_ok_chain Ht.
  pose proof (mem_load_or_store i) as Hmls.
  intros [->| ->]; simpl.
  - destruct (is_load i); [by rewrite Hl|done].
  - destruct (is_store i) eqn:Es; [by apply Hs|].
    unfold chain_types, front_types, issue_types, finish_types in Ht. rewrite Es in Ht.
    destruct (is_mem i); [|repeat case_match; set_solver].
    destruct (memory i =? complete_memory i) eqn:E; [|repeat case_match; set_solver].
    bool_to_prop. destruct (is_load i); [|done]. by rewrite Hl.
Qed.

Section interact.
Context (insts : list RiscvInstruction) (Hnum : numbered insts).
Context `{B : Boost} `{HB : !BoostLaws B}.
Context (i : RiscvInstruction) (Hi : i ∈ insts).

(** The instruction and those in the window are in the graph, the latter older. *)
Record ready (s : O3Graph) : Prop := {
  rd_inv : Inv insts false s;
  rd_self : recorded s i;
  rd_window j : j ∈ inst_window s -> j ∈ insts /\ inst_seq j < inst_seq i /\ recorded s j
}.

Lemma ext_ready s s' : Ext insts false s s' -> ready s -> ready s'.
Proof.
  intros He [H1 H2 H3]. split; [apply He|by eapply ext_recorded|].
  intros j. rewrite (ext_window _ _ _ _ He). intros (? & ? & ?)%H3.
  split_and!; [done..|by eapply ext_recorded].
Qed.

Definition interacts (f : O3Graph -> RiscvInstruction -> res O3Graph) : Prop :=
  forall s, ready s -> exists s', f s i = Ok s' /\ Ext insts false s s'.

Lemma unchanged s : ready s -> exists s', Ok s = Ok s' /\ Ext insts false s s'.
Proof. intros Hs. exists s. split; [done|apply ext_refl, Hs]. Qed.

(** ** Looking events up *)

Lemma get_R s j : ready s -> j ∈ inst_window s \/ j = i -> get_vertex_from_inst s j VT.R = Ok (ev VT.R j).
Proof.
  intros [H1 H2 H3] Hj. assert (Hr : recorded s j) by (destruct Hj as [(?&?&?)%H3| ->]; done).
  unfold get_vertex_from_inst. by rewrite Hr by (done || apply R_in_chain).
Qed.

Lemma get_F1 s : ready s -> get_vertex_from_inst s i VT.F1 = Ok (ev VT.F1 i).
Proof.
  intros [H1 H2 H3]. unfold get_vertex_from_inst. by rewrite H2 by (done || apply F1_in_chain).
Qed.

Lemma get_merged s j t t' :
  ready s -> j ∈ inst_window s \/ j = i -> t <> VT.C -> merged_type t = Some t' ->
  t ∈ chain_types j \/ t' ∈ chain_types j ->
  exists x, get_vertex_from_inst s j t = Ok (ev x j) /\ x ∈ chain_types j /\ (x = t \/ x = t').
Proof.
  intros [H1 H2 H3] Hj Hc Hm Ht.
  assert (Hr : j ∈ insts /\ recorded s j) by (destruct Hj as [(?&?&?)%H3| ->]; done).
  destruct (get_vertex_ok insts Hnum false s j t) as (x & Hx & Hin & Hor); [done|tauto|tauto|done| |].
  { destruct Ht; eauto. }
  exists x. split_and!; [done..|]. destruct Hor as [|Heq]; [by left|right; congruence].
Qed.

Lemma get_P s j :
  ready s -> j ∈ inst_window s \/ j = i ->
  exists t, get_vertex_from_inst s j VT.P = Ok (ev t j) /\ t ∈ chain_types j /\ (t = VT.P \/ t = VT.MP).
Proof.
  intros Hs Hj. apply get_merged; [done..|]. cases_chain j; simpl; set_solver.
Qed.

Lemma get_I s j :
  ready s -> j ∈ inst_window s \/ j = i ->
  exists t, get_vertex_from_inst s j VT.I = Ok (ev t j) /\ t ∈ chain_types j /\ (t = VT.I \/ t = VT.DI).
Proof.
  intros Hs Hj. apply get_merged; [done..|]. cases_chain j; simpl; set_solver.
Qed.

(** ** Skewed edges *)

Lemma skew_ext s j t t' a b bk :
  ready s -> j ∈ inst_window s -> t ∈ chain_types j -> t' ∈ chain_types i ->
  skew_tail t = true -> skew_head t' = true -> (exists x, bk = bottleneck_of x) ->
  (ticks_ok j = true -> ticks_ok i = true -> in_order j i = true ->
   timing_of t j = b /\ timing_of t' i = a /\ b <= a) ->
  Ext insts false s (connect s (ev t j) (OutgoingEdge_new (ev t' i) (lat_sub a b) (lat_sub a b) bk)).
Proof.
  intros [H1 H2 H3] (Hj & Hlt & _)%H3 Ht Ht' Hst Hsh Hbk Hx. apply connect_ext; [done..| |intros Heq; simpl in Heq; lia].
  split; simpl; [|done|apply lat_sub_nonneg|].
  - by apply (Skewed _ _ _ _ j i t t').
  - intros Hok. pose proof (trace_ok_ticks _ j Hok Hj) as Hoj.
    pose proof (trace_ok_ticks _ i Hok Hi) as Hoi. simpl.
    destruct (Hx Hoj Hoi) as (<- & <- & Hle); [by eapply trace_ok_order|].
    pose proof (ev_timing t j Hoj Ht). pose proof (ev_timing t' i Hoi Ht').
    rewrite lat_sub_exact by lia. lia.
Qed.

Lemma rename_ext s j bk :
  ready s -> j ∈ inst_window s -> (exists x, bk = bottleneck_of x) ->
  let w := lat_sub (rename i) (rename j) in
  Ext insts false s (connect s (ev VT.R j) (OutgoingEdge_new (ev VT.R i) w w bk)).
Proof.
  intros Hs Hj Hbk. apply skew_ext; try done; try apply R_in_chain.
  intros _ _ Ho. unfold in_order in Ho. bool_to_prop. done.
Qed.

(** ** The eight interactions *)

Lemma miss_bp_ok : forall s, ready s -> inst_window s <> [] ->
  exists s', model_miss_bp_interaction_impl s i = Ok s' /\ Ext insts false s s'.
Proof.
  intros s Hs Hne. unfold model_miss_bp_interaction_impl.
  destruct (inst_window s) as [|j w] eqn:Ew; [done|].
  destruct (is_control j && (complete j <? fetch_cache_line i)) eqn:E;
    [|by apply unchanged].
  assert (Hj : j ∈ inst_window s) by (rewrite Ew; set_solver).
  destruct (get_P s j Hs) as (t & -> & Ht & Hor); [by left|]. rewrite get_F1 by done.
  eexists. split; [done|]. apply skew_ext; try done.
  - apply F1_in_chain.
  - by destruct Hor as [->| ->].
  - registered.
  - intros Hoj _ _. bool_to_prop. simpl. split_and!; [by apply P_timing|done|lia].
Qed.

Lemma link_rename_ok s link bk dep :
  ready s -> (forall j, dep = Some j -> j ∈ inst_window s) -> (exists x, bk = bottleneck_of x) ->
  (forall s j, let w := lat_sub (rename i) (rename j) in
     link s (ev VT.R j) (ev VT.R i) = connect s (ev VT.R j) (OutgoingEdge_new (ev VT.R i) w w bk)) ->
  exists s', link_rename link s i dep = Ok s' /\ Ext insts false s s'.
Proof.
  intros Hs Hdep Hbk Hlink. unfold link_rename.
  destruct dep as [j|]; [|by apply unchanged].
  rewrite !get_R by auto. eexists. split; [done|]. rewrite Hlink.
  apply rename_ext; auto.
Qed.

Ltac rename_interaction bk :=
  case_match;
  first [by apply unchanged
        |apply (link_rename_ok _ _ bk); [done|by intros j [? ?]%find_first_some|registered|done]].

Lemma rob_ok : interacts model_rob_interaction_impl.
Proof. intros s Hs. unfold model_rob_interaction_impl. rename_interaction ROB. Qed.
Lemma lq_ok : interacts model_lq_interaction_impl.
Proof. intros s Hs. unfold model_lq_interaction_impl. rename_interaction LQ. Qed.
Lemma sq_ok : interacts model_sq_interaction_impl.
Proof. intros s Hs. unfold model_sq_interaction_impl. rename_interaction SQ. Qed.
Lemma iq_ok : interacts model_iq_interaction_impl.
Proof. intros s Hs. unfold model_iq_interaction_impl. rename_interaction IQ. Qed.

(** The register-file search never meets a younger instruction. *)
Lemma find_rf_dep_ok w :
  Forall (fun j => inst_seq j < inst_seq i) w ->
  exists o, find_rf_dep i w = Ok o /\ forall j, o = Some j -> j ∈ w.
Proof.
  induction 1 as [|j w Hj Hw IH]; simpl; [by exists None|].
  unfold war_dep. apply Z.ltb_lt in Hj. rewrite Hj. simpl. case_match.
  - exists (Some j). split; [done|]. intros ? [= ->]. set_solver.
  - destruct IH as (o & -> & Ho). exists o. split; [done|]. intros. set_solver.
Qed.

Lemma window_older s : ready s -> Forall (fun j => inst_seq j < inst_seq i) (inst_window s).
Proof. intros Hs. apply Forall_forall. intros j Hj. by apply (rd_window s Hs). Qed.

Lemma rf_ok : interacts model_rf_interaction_impl.
Proof.
  intros s Hs. unfold model_rf_interaction_impl.
  case_match; [by apply unchanged|].
  destruct (find_rf_dep_ok (inst_window s)) as (o & -> & Ho); [by apply window_older|].
  cbn [mbind res_bind]. destruct o as [j|]; [|by apply unchanged].
  rewrite !get_R by auto. cbn [mbind res_bind].
  destruct (rf_bottleneck i) as [bk|] eqn:E; [|by apply unchanged].
  eexists. split; [done|]. apply rename_ext; [done|by apply Ho|].
  unfold rf_bottleneck in E. repeat case_match; simplify_eq; registered.
Qed.

Lemma fu_loop_ok s w :
  ready s -> (forall j, j ∈ w -> j ∈ inst_window s) ->
  exists s', fu_loop s i w = Ok s' /\ Ext insts false s s'.
Proof.
  intros Hs. induction w as [|j w IH]; intros Hw; simpl; [by apply unchanged|].
  assert (Hj : j ∈ inst_window s) by (apply Hw; set_solver).
  destruct (fu_dep i j) eqn:E; [|apply IH; set_solver].
  destruct (get_I s j Hs) as (t & -> & Ht & Hor); [by left|].
  destruct (get_I s i Hs) as (t' & -> & Ht' & Hor'); [by right|]. cbn [mbind res_bind].
  destruct (fu_bottleneck i) as [bk|] eqn:Eb; [|apply IH; set_solver].
  eexists. split; [done|]. apply skew_ext; try done.
  - by destruct Hor as [->| ->].
  - by destruct Hor' as [->| ->].
  - unfold fu_bottleneck in Eb. repeat case_match; simplify_eq; registered.
  - intros _ _ _. unfold fu_dep in E. bool_to_prop.
    destruct Hor as [->| ->], Hor' as [->| ->]; simpl; lia.
Qed.

Lemma fu_ok : interacts model_fu_interaction_impl.
Proof.
  intros s Hs. unfold model_fu_interaction_impl.
  case_match; [by apply fu_loop_ok|by apply unchanged].
Qed.

(** ** Read after write *)

Definition reads (j : RiscvInstruction) : bool := bool_decide (dst j ∈ src i).

Lemma raw_dep_ok j : inst_seq j < inst_seq i -> raw_dep i j = Ok (reads j).
Proof. intros Hj%Z.ltb_lt. unfold raw_dep. by rewrite Hj. Qed.

Lemma raw_inner_ok fuel prev size j k CONST t dep :
  inst_seq prev < inst_seq i -> size - k < Z.of_nat fuel -> 0 < Z.of_nat fuel ->
  exists k' t' dep', raw_inner fuel i prev size j k CONST t dep = Ok (k', t', dep') /\
    k <= k' /\ ((dep' = dep /\ t' = t) \/ (dep' = Some prev /\ reads prev = true)).
Proof.
  intros Hp. revert j k t dep. induction fuel as [|fuel IH]; intros j k t dep Hk Hf; [simpl in Hf; lia|].
  cbn [raw_inner]. rewrite raw_dep_ok by done. cbn [mbind res_bind].
  destruct ((j <? CONST) && (k <? size)) eqn:E; [|eexists _, _, _; split; [done|]; split; [lia|by left]].
  bool_to_prop. destruct (reads prev && (t <? completion prev)) eqn:Er.
  - destruct (IH (j + 1) (k + 1) (completion prev) (Some prev)) as (k' & t' & d' & -> & Hle & Hor);
      [lia..|]. eexists _, _, _. split; [done|]. split; [lia|]. right.
    apply andb_true_iff in Er as [Er _]. destruct Hor as [[-> _]|[-> _]]; done.
  - destruct (IH (j + 1) (k + 1) t dep) as (k' & t' & d' & -> & Hle & Hor); [lia..|].
    eexists _, _, _. split; [done|]. split; [lia|done].
Qed.

(** A producer that has completed is taken at once. *)
Lemma raw_inner_hit fuel prev size k CONST :
  inst_seq prev < inst_seq i -> size - k < Z.of_nat fuel -> k < size -> 0 < CONST ->
  reads prev = true -> 0 < completion prev ->
  exists k' t', raw_inner fuel i prev size 0 k CONST 0 None = Ok (k', t', Some prev).
Proof.
  intros Hp Hf Hk HC Hr Hc. destruct fuel as [|fuel]; [simpl in Hf; lia|].
  cbn [raw_inner]. rewrite raw_dep_ok, Hr by done. cbn [mbind res_bind].
  apply Z.ltb_lt in HC, Hk, Hc. rewrite HC, Hk, Hc. cbn [andb]. apply Z.ltb_lt in Hk.
  destruct (raw_inner_ok fuel prev size (0 + 1) (k + 1) CONST (completion prev) (Some prev))
    as (k' & t' & d' & -> & _ & Hor); [done|lia|lia|].
  exists k', t'. by destruct Hor as [[-> _]|[-> _]].
Qed.

Lemma raw_outer_ok fuel w k CONST :
  Forall (fun j => inst_seq j < inst_seq i) w -> 0 <= k ->
  Z.of_nat (length w) - k < Z.of_nat fuel -> 0 < Z.of_nat fuel ->
  exists o, raw_outer fuel i w k CONST 0 None = Ok o /\
    forall j, o = Some j -> j ∈ w /\ reads j = true.
Proof.
  intros Hw. revert k. induction fuel as [|fuel IH]; intros k H0 Hk Hf; [simpl in Hf; lia|].
  cbn [raw_outer]. destruct (k <? Z.of_nat (length w)) eqn:E; [|by exists None]. bool_to_prop.
  destruct (w !! Z.to_nat k) as [prev|] eqn:Ep; [|apply lookup_ge_None in Ep; lia].
  apply list_elem_of_lookup_2 in Ep. rewrite Forall_forall in Hw.
  rewrite raw_dep_ok by (by apply Hw). cbn [mbind res_bind].
  destruct (reads prev) eqn:Er.
  - destruct (raw_inner_ok (S (length w)) prev (Z.of_nat (length w)) 0 k CONST 0 None)
      as (k' & t' & d' & -> & Hle & Hor); [by apply Hw|lia|lia|]. cbn [mbind res_bind].
    destruct Hor as [[-> ->]|[-> _]]; [apply IH; lia|].
    exists (Some prev). split; [done|]. by intros j [= ->].
  - cbn [mbind res_bind]. apply IH; lia.
Qed.

(** With completed producers the search is the first reader-writer pair of the
    window: the constant bound plays no part. *)
Lemma raw_outer_nearest fuel w k CONST :
  Forall (fun j => inst_seq j < inst_seq i /\ 0 < completion j) w -> 0 < CONST ->
  (length w <= k + fuel)%nat -> (0 < fuel)%nat -> (k <= length w)%nat -> (length w - k < fuel)%nat ->
  raw_outer fuel i w (Z.of_nat k) CONST 0 None = Ok (find_first reads (drop k w)).
Proof.
  intros Hw HC. rewrite Forall_forall in Hw. revert k.
  induction fuel as [|fuel IH]; intros k H1 H2 H3 H4; [lia|].
  cbn [raw_outer]. destruct (Z.ltb_spec (Z.of_nat k) (Z.of_nat (length w))).
  - rewrite Nat2Z.id. destruct (w !! k) as [prev|] eqn:Ep; [|apply lookup_ge_None in Ep; lia].
    rewrite (drop_S w prev k Ep). destruct (Hw prev) as [Hlt Hc]; [by eapply list_elem_of_lookup_2|].
    rewrite raw_dep_ok by done. cbn [mbind res_bind find_first].
    destruct (reads prev) eqn:Er.
    + destruct (raw_inner_hit (S (length w)) prev (Z.of_nat (length w)) (Z.of_nat k) CONST)
        as (k' & t' & ->); [done|lia|lia|done..|]. done.
    + cbn [mbind res_bind]. replace (Z.of_nat k + 1) with (Z.of_nat (S k)) by lia.
      apply IH; lia.
  - by rewrite drop_ge by lia.
Qed.

Lemma raw_ok : interacts model_raw_interaction_impl.
Proof.
  intros s Hs. unfold model_raw_interaction_impl.
  case_match; [|by apply unchanged].
  destruct (raw_outer_ok (S (length (inst_window s))) (inst_window s) 0 RAW_CONST)
    as (o & -> & Ho); [by apply window_older|lia..|]. cbn [mbind res_bind].
  destruct o as [j|]; [|by apply unchanged].
  destruct (Ho j eq_refl) as [Hj Hr].
  destruct (get_I s j Hs) as (t & -> & Ht & Hor); [by left|].
  destruct (get_I s i Hs) as (t' & -> & Ht' & Hor'); [by right|]. cbn [mbind res_bind].
  assert (Hx : in_order j i = true -> timing_of t j = issue j /\ timing_of t' i = issue i /\ issue j <= issue i).
  { unfold in_order. intros Hio. bool_to_prop. unfold reads in Hr. rewrite Hr in *. simpl in *.
    bool_to_prop. destruct Hor as [->| ->], Hor' as [->| ->]; done. }
  assert (Hst : skew_tail t = true) by (by destruct Hor as [->| ->]).
  assert (Hsh : skew_head t' = true) by (by destruct Hor' as [->| ->]).
  eexists. split; [done|]. destruct (is_load j); apply skew_ext; try done; try registered; auto.
Qed.

(** ** Together *)

Lemma and_then s f (k : O3Graph -> res O3Graph) :
  interacts f -> ready s ->
  (forall s', Ext insts false s s' -> ready s' -> exists s'', k s' = Ok s'' /\ Ext insts false s' s'') ->
  exists s'', (s' ← f s i; k s') = Ok s'' /\ Ext insts false s s''.
Proof.
  intros Hf Hs Hk. destruct (Hf s Hs) as (s1 & -> & He). cbn [mbind res_bind].
  destruct (Hk s1 He) as (s2 & -> & He2); [by eapply ext_ready|].
  eexists. split; [done|by eapply ext_trans].
Qed.

Lemma model_interaction_impl_ok : interacts model_interaction_impl.
Proof.
  intros s Hs. unfold model_interaction_impl.
  destruct (inst_window s) eqn:Ew; [by apply unchanged|].
  destruct (miss_bp_ok s Hs) as (s1 & -> & He); [by rewrite Ew|]. cbn [mbind res_bind].
  assert (Hs1 : ready s1) by (by eapply ext_ready).
  enough (exists s', (s ← model_rob_interaction_impl s1 i; _) = Ok s' /\ Ext insts false s1 s')
    as (s' & -> & He') by (eexists; split; [done|by eapply ext_trans]).
  apply and_then; [apply rob_ok|done|]. intros ? _ ?.
  apply and_then; [apply lq_ok|done|]. intros ? _ ?.
  apply and_then; [apply sq_ok|done|]. intros ? _ ?.
  apply and_then; [apply rf_ok|done|]. intros ? _ ?.
  apply and_then; [apply iq_ok|done|]. intros ? _ ?.
  apply and_then; [apply fu_ok|done|]. intros ? _ ?.
  by apply raw_ok.
Qed.

End interact.

(** * Building the graph of a trace

    [step_inst] is what the main loop does with one instruction.  Fed with the
    instructions of a numbered trace in order it never fails, and the state
    reached ([Built]) holds the chain of every instruction read so far. *)

#[local] Open Scope string_scope.
#[local] Open Scope list_scope.
#[local] Open Scope Z_scope.

Section trace.
Context `{B : Boost} `{HB : !BoostLaws B}.

(** The state after the instructions [insts]. *)
Record Built (insts : list RiscvInstruction) (s : O3Graph) : Prop := {
  bu_inv : Inv insts false s;
  bu_window : inst_window s = rev insts;
  bu_chains i : i ∈ insts -> linked s i (pairs_of (chain_types i))
}.

Lemma set_window_inv insts s w : Inv insts false s -> Inv insts false (set_inst_window s w).
Proof. by intros [H1 H2 H3 H4 H5 H6]; split. Qed.

(** Nothing in the graph belongs to an instruction that has not been read. *)
Lemma built_unlinked insts i s ps :
  numbered (insts ++ [i]) -> Inv insts false s -> unlinked s i ps.
Proof.
  intros [Hn Hseq]%numbered_app Hs. apply Forall_forall. intros p _ He.
  apply (wf_has_edge _ (inv_wf _ _ _ Hs)) in He as ((j & t & Hj & _ & Heq) & _).
  assert (inst_seq i = inst_seq j) by (by injection Heq).
  pose proof (numbered_range insts Hn j Hj). lia.
Qed.

(** Between [model] and [model_interaction]. *)
Lemma model_built insts s i :
  numbered (insts ++ [i]) -> Built insts s -> get_inst_seq s = inst_seq i ->
  exists s', model s i = Ok s' /\ Ext (insts ++ [i]) false s s' /\
    linked s' i (pairs_of (chain_types i)) /\ ready (insts ++ [i]) i s'.
Proof.
  intros Hnum Hb Hseq. set (insts' := insts ++ [i]) in *.
  pose proof (numbered_app insts i Hnum) as [Hn Hi1].
  assert (Hi : i ∈ insts') by (unfold insts'; set_solver).
  assert (Hs : Inv insts' false s).
  { eapply (inv_mono insts); [unfold insts'; set_solver|by intros ?%trace_ok_app|apply Hb]. }
  destruct (model_ok insts' Hnum s i) as (s1 & Heq & He1 & Hl1); [done..| |].
  { by apply (built_unlinked insts); [|apply Hb]. }
  exists s1. split_and!; [done..|]. split; [apply He1|by apply linked_recorded|].
  intros j. rewrite (ext_window _ _ _ _ He1), (bu_window _ _ Hb), list_elem_of_In, <- in_rev,
    <- list_elem_of_In.
  intros Hj. pose proof (numbered_range insts Hn j Hj).
  split; [unfold insts'; set_solver|]. split; [lia|].
  eapply ext_recorded; [done|]. by apply linked_recorded, Hb.
Qed.

Lemma model_ready insts i s :
  numbered (insts ++ [i]) -> Built insts s -> get_inst_seq s = inst_seq i ->
  exists s', model s i = Ok s' /\ ready (insts ++ [i]) i s'.
Proof. intros Hn Hb Hq. destruct (model_built insts s i Hn Hb Hq) as (s' & ? & _ & _ & ?). eauto. Qed.

Lemma step_inst_ok insts s i :
  numbered (insts ++ [i]) -> Built insts s -> get_inst_seq s = inst_seq i ->
  exists s', step_inst s i = Ok s' /\ Built (insts ++ [i]) s' /\ inst_stream s' = inst_stream s.
Proof.
  intros Hnum Hb Hseq. unfold step_inst.
  destruct (model_built insts s i) as (s1 & -> & He1 & Hl1 & Hready); [done..|].
  set (insts' := insts ++ [i]) in *. cbn [mbind res_bind].
  assert (Hi : i ∈ insts') by (unfold insts'; set_solver).
  destruct (model_interaction_impl_ok insts' Hnum i Hi s1 Hready) as (s2 & Hs2 & He2).
  unfold model_interaction. rewrite Hs2. cbn [mbind res_bind]. eexists. split; [done|]. split.
  - split; simpl.
    + apply set_window_inv, He2.
    + unfold insts'. rewrite rev_app_distr, (ext_window _ _ _ _ He2), (ext_window _ _ _ _ He1).
      by rewrite (bu_window _ _ Hb).
    + assert (He : Ext insts' false s s2) by (by eapply ext_trans).
      intros j [Hj|Hj%list_elem_of_singleton]%elem_of_app.
      * by eapply (linked_ext insts' s s2), Hb.
      * subst. by eapply (linked_ext insts' s1 s2).
  - simpl. by rewrite (ext_stream _ _ _ _ He2), (ext_stream _ _ _ _ He1).
Qed.

(** ** A whole trace *)

Definition O3init : O3Graph :=
  mkO3 "" false 0 0 (mkStream [] 0) [] [] ∅ [] register_bottlenecks None.

(** The instructions fed one after the other, the stream counting them. *)
Definition feed (s : O3Graph) (i : RiscvInstruction) : res O3Graph :=
  step_inst (set_stream s (mkStream [] (inst_seq i))) i.
Definition feed_all (insts : list RiscvInstruction) : res O3Graph := res_fold feed O3init insts.

Lemma built_init out vw st en stream :
  Built [] (mkO3 out vw st en stream [] [] ∅ [] register_bottlenecks None).
Proof.
  split; [split|done|set_solver]; simpl; try done; try constructor; try done; constructor.
Qed.

Lemma set_stream_built insts s st : Built insts s -> Built insts (set_stream s st).
Proof. intros [[H1 H2 H3 H4 H5 H6] H7 H8]. by split; [split|..]. Qed.

Lemma feed_all_ok insts :
  numbered insts ->
  exists s, feed_all insts = Ok s /\ Built insts s /\ get_inst_seq s = Z.of_nat (length insts).
Proof.
  unfold feed_all. induction insts as [|i insts IH] using rev_ind; intros Hn.
  { exists O3init. split; [done|]. split; [apply built_init|done]. }
  pose proof (numbered_app insts i Hn) as [Hn' Hi].
  destruct (IH Hn') as (s & Hs & Hb & Hq). rewrite res_fold_app, Hs. cbn [mbind res_bind res_fold].
  unfold feed. set (s1 := set_stream s _).
  destruct (step_inst_ok insts s1 i Hn) as (s2 & -> & Hb2 & Hst); [by apply set_stream_built|done|].
  exists s2. split; [done|]. split; [done|]. unfold get_inst_seq. rewrite Hst. simpl.
  rewrite Hi, length_app. simpl. lia.
Qed.

End trace.
