(* ===== verification/InducedFacts.v ===== *)
(** * The induced graph is a graph of the trace

    The virtual edges join only events that edges between instructions already
    join, go forward in program order and in time, and cost nothing. *)

From S2P Require Import Prelude Machine OrderedMap External Instruction Bottleneck GraphDefs.
From S2P Require Import DegBuild GraphTheory Pipeline Induced.

#[local] Open Scope list_scope.
#[local] Open Scope Z_scope.

Section induced.
Context (insts : list RiscvInstruction) (Hnum : numbered insts).
Context `{B : Boost} `{HB : !BoostLaws B}.

(** Vertices the bridging edges may start from or lead to. *)
Definition joint_vertex (v : Vertex) : Prop :=
  exists i t, i ∈ insts /\ t ∈ chain_types i /\ joint t = true /\ v = ev t i.

Lemma joint_V v : joint_vertex v -> V insts v.
Proof. intros (i & t & ? & ? & ? & ->). by apply V_ev. Qed.

Definition joint_entry (k : Vertex) (es : list OutgoingEdge) : Prop :=
  joint_vertex k /\ Forall (fun e => joint_vertex (child e)) es.

Definition joint_map (m : deg_t) : Prop := Forall (fun x => joint_entry x.1 x.2) m.

(** An edge between two instructions joins joint vertices. *)
Lemma skewed_joint u e :
  edge_kind insts false u e -> vseq u <> vseq (child e) -> joint_vertex u /\ joint_vertex (child e).
Proof.
  destruct 1 as [i t t' Hi Hp -> -> _|i j t t' Hi Hj Hlt Ht Ht' Hst Hsh -> -> _
    |i j t t' Hi Hj Hlt Ht Ht' Hs Hs' -> -> _|?? ? [=]|? ? [=]]; intros Hne; [done|..].
  - split; [exists i, t|exists j, t']; split_and!; try done; unfold joint; by rewrite ?Hst, ?Hsh, ?orb_true_r.
  - split; [exists i, t|exists j, t']; done.
Qed.

Lemma collect_skewed_joint lt g :
  Forall (fun x => edge_kind insts false x.1 x.2) (edges g) -> joint_map (collect_skewed lt g).
Proof.
  intros Hg. unfold collect_skewed. apply foldl_inv; [constructor|].
  intros m [u es] Hin Hm. apply foldl_inv; [done|]. intros m' e He Hm'.
  destruct (vseq u =? vseq (child e)) eqn:E; [done|]. bool_to_prop.
  assert (Hk : edge_kind insts false u e).
  { rewrite Forall_forall in Hg. apply (Hg (u, e)), elem_of_edges. eauto. }
  destruct (skewed_joint u e Hk E) as [Hu Hc].
  apply (om_upd_forall lt joint_entry); [done| |].
  - split; [done|]. by constructor.
  - intros k es' [H1 H2]. split; [done|]. simpl. apply Forall_app. split; [done|]. by constructor.
Qed.

(** ** One virtual edge *)

(** [add_virtual_edge] between different vertices leaves an edge behind, of
    whichever kind the ends allow. *)
Lemma add_virtual_edge_gen att s u v :
  Inv insts att s -> u <> v -> V insts u ->
  (forall w, edge_kind insts att u (mask_virtual (OutgoingEdge_new v w 0 Virtual))) ->
  (trace_ok insts = true -> timing u <= timing v) ->
  let s' := add_virtual_edge s u v in
  Ext insts att s s' /\ has_edge (graph s') u v /\
  forall x, x ∈ edges (graph s') -> x ∈ edges (graph s) \/
    (x.1 = u /\ child x.2 = v /\ is_virtual x.2 = true /\ cost x.2 = 0).
Proof.
  intros Hs Hne Hu Hk Hle. unfold add_virtual_edge.
  rewrite (proj2 (Vertex_eqb_neq u v) Hne). unfold if_exist_edge.
  pose proof (touch_ext insts Hnum att s u Hs Hu) as He. set (s1 := set_graph s _) in *.
  assert (Hp1 : edges (graph s1) ≡ₚ edges (graph s)) by (apply (edges_touch (V insts)); [apply Hs|done]).
  pose proof (Hk 0) as Hk0. apply (edge_kind_ends insts Hnum) in Hk0 as (_ & Hv & _). simpl in Hv.
  assert (Hin : forall e, e ∈ children (graph s) u -> (u, e) ∈ edges (graph s)).
  { intros e. apply (wf_children (V insts) (inv_wf _ _ _ Hs) u e Hu). }
  destruct (existsb _ _) eqn:E.
  { split; [done|]. split.
    - apply (ext_has_edge insts att s); [done|].
      apply existsb_exists in E as (e & Hc & Heq). exists e.
      split; [by apply Hin, list_elem_of_In|by apply Vertex_eqb_eq].
    - intros x Hx. left. by rewrite Hp1 in Hx. }
  set (e0 := mask_virtual _).
  assert (Hg : good_edge insts att u e0).
  { split; simpl; [apply Hk|registered|apply lat_sub_nonneg|].
    intros Hok. simpl. pose proof (V_timing insts u Hok Hu). pose proof (V_timing insts v Hok Hv).
    specialize (Hle Hok). rewrite lat_sub_exact by lia. lia. }
  assert (Hfr : fresh s1 u v).
  { intros _ (e & He' & Hv'). apply (wf_children (V insts) (inv_wf _ _ _ (ext_inv _ _ _ _ He)) u e Hu) in He'.
    unfold s1 in He'. simpl in He'. rewrite children_touch in He' by apply Hs.
    rewrite <- not_true_iff_false, existsb_exists in E. apply E. exists e.
    split; [by apply list_elem_of_In|by apply Vertex_eqb_eq]. }
  split; [|split].
  - eapply ext_trans; [done|]. by apply connect_ext; [..|apply He| |].
  - apply (connect_has_edge insts Hnum att s1 u e0); [apply He|done].
  - intros x. rewrite (connect_edges insts Hnum att s1 u e0), elem_of_cons, Hp1 by (apply He || done).
    intros [->|Hx]; [by right|by left].
Qed.

(** ** What the two passes add *)

(** A virtual edge forward in program order and in time, at no cost. *)
Definition forward_virtual (x : Vertex * OutgoingEdge) : Prop :=
  is_virtual x.2 = true /\ cost x.2 = 0 /\ vseq x.1 < vseq (child x.2) /\
  timing x.1 <= timing (child x.2).

Record Bridged (s s' : O3Graph) : Prop := {
  br_ext : Ext insts false s s';
  br_new x : x ∈ edges (graph s') -> x ∈ edges (graph s) \/ forward_virtual x
}.

Lemma bridged_refl s : Inv insts false s -> Bridged s s.
Proof. intros Hs. split; [by apply ext_refl|by left]. Qed.

Lemma bridged_trans s1 s2 s3 : Bridged s1 s2 -> Bridged s2 s3 -> Bridged s1 s3.
Proof.
  intros [H1 N1] [H2 N2]. split; [by eapply ext_trans|]. intros x [Hx|]%N2; [by apply N1|by right].
Qed.

Lemma add_virtual_edge_bridged s u v :
  Inv insts false s -> joint_vertex u -> joint_vertex v -> vseq u < vseq v -> timing u <= timing v ->
  Bridged s (add_virtual_edge s u v) /\ has_edge (graph (add_virtual_edge s u v)) u v.
Proof.
  intros Hs Hu Hv Hlt Hle.
  destruct (add_virtual_edge_gen false s u v) as (He & Hedge & Hnew); [done| |by apply joint_V| |done|].
  - intros ->. lia.
  - intros w. destruct Hu as (i & t & ? & ? & ? & ->), Hv as (j & t' & ? & ? & ? & ->).
    by apply (Bridge _ _ _ _ i j t t').
  - split; [|done]. split; [done|]. intros x [|(Hx1 & Hc & ? & ?)]%Hnew; [by left|right].
    unfold forward_virtual. rewrite Hx1, Hc. done.
Qed.

(** ** The scans *)

(** A scan from [vertex] over part of the map only adds bridging edges. *)
Definition scans (f : O3Graph -> O3Graph) : Prop :=
  forall s, Inv insts false s -> Bridged s (f s).

Lemma scans_foldl {A} (f : O3Graph -> A -> O3Graph) l :
  Forall (fun a => scans (fun s => f s a)) l -> scans (fun s => foldl f s l).
Proof.
  intros Hl s Hs. revert s Hs. induction Hl as [|a l Ha Hl IH]; intros s Hs; simpl; [by apply bridged_refl|].
  eapply bridged_trans; [by apply Ha|]. apply IH. by apply Ha.
Qed.

Notation by_time := (om_sorted (V := list OutgoingEdge) EdgeTimingCompare).

Lemma by_time_later k es m : by_time ((k, es) :: m) ->
  Forall (fun x => timing k < timing x.1 \/ (timing k = timing x.1 /\ vseq k < vseq x.1)) m /\ by_time m.
Proof.
  intros [Hf Hs]%om_sorted_cons. split; [|done]. unfold om_keys in Hf. rewrite Forall_fmap in Hf.
  eapply Forall_impl; [exact Hf|]. intros x. unfold compose, EdgeTimingCompare. lia.
Qed.

(** The inner loop links [v] to the entries with the time just found. *)
Lemma timing_same_scans v tm m :
  joint_vertex v -> joint_map m -> timing v <= tm -> by_time m ->
  Forall (fun x => tm < timing x.1 \/ (tm = timing x.1 /\ vseq v < vseq x.1)) m ->
  forall s, Inv insts false s -> Bridged s (timing_same s v tm m) /\
    forall x, x ∈ m -> timing x.1 = tm -> has_edge (graph (timing_same s v tm m)) v x.1.
Proof.
  intros Hv Hm Htm. induction Hm as [|[k es] m [Hk _] Hm IH]; intros Hs Hl s Hi; simpl.
  { split; [by apply bridged_refl|]. intros x Hx. by apply not_elem_of_nil in Hx. }
  apply by_time_later in Hs as [Hlt Hs]. apply Forall_cons in Hl as [Hlk Hl]. cbn [fst] in Hlk.
  destruct ((vseq v <? vseq k) && (tm =? timing k)) eqn:E.
  - bool_to_prop. destruct (add_virtual_edge_bridged s v k) as [He Hedge]; [done..|lia|].
    destruct (IH Hs Hl (add_virtual_edge s v k)) as [He2 Hn2]; [apply He|].
    split; [by eapply bridged_trans|]. intros x [->|Hx]%elem_of_cons Ht; [|by apply Hn2].
    eapply ext_has_edge; [apply He2|done].
  - split; [by apply bridged_refl|]. assert (Hk' : tm < timing k) by lia.
    rewrite Forall_forall in Hlt. intros x [->|Hx]%elem_of_cons Ht; [cbn in Ht; lia|].
    specialize (Hlt x Hx). lia.
Qed.

(** The vertex a scan stops at: later in program order, not earlier in time. *)
Definition follows (v : Vertex) (x : Vertex * list OutgoingEdge) : bool :=
  (timing v <=? timing x.1) && (vseq v <? vseq x.1).

(** A scan links [v] to the first entry that follows it. *)
Definition linked_next (s : O3Graph) (v : Vertex) (m : deg_t) : Prop :=
  forall x, List.find (follows v) m = Some x -> has_edge (graph s) v x.1.

(** A scan by time links it to all entries with the time of that one. *)
Definition linked_times (s : O3Graph) (v : Vertex) (m : deg_t) : Prop :=
  forall x y, List.find (follows v) m = Some x -> y ∈ m -> follows v y = true ->
    timing y.1 = timing x.1 -> has_edge (graph s) v y.1.

Lemma timing_scan_scans v m :
  joint_vertex v -> joint_map m -> by_time m ->
  forall s, Inv insts false s -> Bridged s (timing_scan s v m) /\ linked_times (timing_scan s v m) v m.
Proof.
  intros Hv Hm. induction Hm as [|[k es] m [Hk _] Hm IH]; intros Hso s Hs; simpl; [split; [by apply bridged_refl|done]|].
  apply by_time_later in Hso as [Hlt Hso].
  unfold linked_times. cbn [List.find]. unfold follows at 1. cbn [fst].
  destruct ((timing v <=? timing k) && (vseq v <? vseq k)) eqn:E.
  - bool_to_prop. destruct (add_virtual_edge_bridged s v k) as [He Hedge]; [done..|].
    assert (Hrest : Forall (fun x => timing k < timing x.1 \/ (timing k = timing x.1 /\ vseq v < vseq x.1)) m).
    { eapply Forall_impl; [exact Hlt|]. intros x. cbn. lia. }
    destruct (timing_same_scans v (timing k) m Hv Hm ltac:(done) Hso Hrest (add_virtual_edge s v k))
      as [He2 Hn2]; [apply He|].
    split; [by eapply bridged_trans|]. intros x y [= <-] [->|Hy]%elem_of_cons _ Ht; [|by apply Hn2].
    eapply ext_has_edge; [apply He2|done].
  - destruct (IH Hso s Hs) as [He Hn]. split; [done|]. intros x y Hx [->|Hy]%elem_of_cons Hfy Ht.
    + unfold follows in Hfy. cbn [fst] in Hfy. congruence.
    + by apply (Hn x y).
Qed.

Lemma inst_seq_scan_scans v m :
  joint_vertex v -> joint_map m ->
  forall s, Inv insts false s -> Bridged s (inst_seq_scan s v m) /\ linked_next (inst_seq_scan s v m) v m.
Proof.
  intros Hv Hm. induction Hm as [|[k es] m [Hk _] Hm IH]; intros s Hs; simpl; [split; [by apply bridged_refl|done]|].
  unfold linked_next. cbn [List.find]. unfold follows at 1. cbn [fst]. rewrite andb_comm.
  destruct ((timing v <=? timing k) && (vseq v <? vseq k)) eqn:E; [|by apply IH]. bool_to_prop.
  destruct (add_virtual_edge_bridged s v k) as [He Hedge]; [done..|].
  split; [done|]. by intros x [= <-].
Qed.

Lemma linked_next_ext s s' v m : Ext insts false s s' -> linked_next s v m -> linked_next s' v m.
Proof. intros He Hl x Hx. by eapply ext_has_edge, Hl. Qed.
Lemma linked_times_ext s s' v m : Ext insts false s s' -> linked_times s v m -> linked_times s' v m.
Proof. intros He Hl x y Hx Hy Hf Ht. by eapply ext_has_edge, Hl. Qed.

(** ** The passes *)

Section pass.
Context (scan : O3Graph -> Vertex -> deg_t -> O3Graph).
Context (lt : Vertex -> Vertex -> bool) (linked : O3Graph -> Vertex -> deg_t -> Prop).
Context (Hlinked : forall s s' v m, Ext insts false s s' -> linked s v m -> linked s' v m).
Context (Hscan : forall v m, joint_vertex v -> joint_map m -> om_sorted lt m ->
  forall s, Inv insts false s -> Bridged s (scan s v m) /\ linked (scan s v m) v m).

(** The body of both passes: scans from the key of an entry and from the ends
    of its edges. *)
Definition visit (s : O3Graph) (iter : deg_t) : O3Graph :=
  match iter with
  | [] => s
  | (k, es) :: _ => foldl (fun s e => scan s (child e) iter) (scan s k iter) es
  end.

Fixpoint visits (s : O3Graph) (iter : deg_t) : O3Graph :=
  match iter with
  | [] => s
  | _ :: iter' => visits (visit s iter) iter'
  end.

Lemma visit_ok k es m s :
  joint_map ((k, es) :: m) -> om_sorted lt ((k, es) :: m) -> Inv insts false s ->
  let iter := (k, es) :: m in
  Bridged s (visit s iter) /\ forall v, v = k \/ v ∈ child <$> es -> linked (visit s iter) v iter.
Proof.
  intros Hm Hso Hs. pose proof Hm as [[Hk Hes] _]%Forall_cons. cbn [visit].
  set (iter := (k, es) :: m). destruct (Hscan k iter Hk Hm Hso s Hs) as [He Hl].
  assert (Hgen : forall l s, Forall (fun e => joint_vertex (child e)) l -> Inv insts false s ->
    Bridged s (foldl (fun s e => scan s (child e) iter) s l) /\
    forall v, v ∈ child <$> l -> linked (foldl (fun s e => scan s (child e) iter) s l) v iter).
  { induction l as [|e l IH]; intros s1 Hl1 Hs1; [split; [by apply bridged_refl|set_solver]|].
    apply Forall_cons in Hl1 as [Hj Hl1]. cbn [foldl].
    destruct (Hscan (child e) iter Hj Hm Hso s1 Hs1) as [He1 Hn1].
    destruct (IH (scan s1 (child e) iter) Hl1) as [He2 Hn2]; [apply He1|].
    split; [by eapply bridged_trans|]. intros v. csimpl. intros [->|Hv]%elem_of_cons; [|by apply Hn2].
    eapply Hlinked; [apply He2|done]. }
  destruct (Hgen es (scan s k iter) Hes) as [He2 Hn2]; [apply He|].
  split; [by eapply bridged_trans|]. intros v [->|Hv]; [|by apply Hn2].
  eapply Hlinked; [apply He2|done].
Qed.

Lemma visits_ok m s :
  joint_map m -> om_sorted lt m -> Inv insts false s ->
  Bridged s (visits s m) /\
  forall k es rest v, (k, es) :: rest `suffix_of` m -> v = k \/ v ∈ child <$> es ->
    linked (visits s m) v ((k, es) :: rest).
Proof.
  revert s. induction m as [|[k es] m IH]; intros s Hm Hso Hs.
  { split; [by apply bridged_refl|]. intros k es rest v Hsuf. by apply suffix_nil_inv in Hsuf. }
  destruct (visit_ok k es m s Hm Hso Hs) as [He Hn]. pose proof Hm as [_ Hm']%Forall_cons.
  pose proof Hso as [_ Hso']%om_sorted_cons.
  cbn [visits]. destruct (IH (visit s ((k, es) :: m)) Hm' Hso') as [He2 Hn2]; [apply He|].
  split; [by eapply bridged_trans|]. intros k' es' rest v Hsuf Hv.
  apply suffix_cons_inv in Hsuf as [[= -> -> ->]|Hsuf]; [|by apply Hn2].
  eapply Hlinked; [apply He2|by apply Hn].
Qed.
End pass.

Lemma via_timing_visits s m : via_timing_loop s m = visits timing_scan s m.
Proof. revert s. induction m as [|[k es] m IH]; intros s; [done|]. simpl. by rewrite IH. Qed.

Lemma via_inst_seq_visits s m : via_inst_seq_loop s m = visits inst_seq_scan s m.
Proof. revert s. induction m as [|[k es] m IH]; intros s; [done|]. simpl. by rewrite IH. Qed.

Lemma inv_kinds s : Inv insts false s -> Forall (fun x => edge_kind insts false x.1 x.2) (edges (graph s)).
Proof. intros Hs. eapply Forall_impl; [apply (inv_edges _ _ _ Hs)|]. intros x Hx. apply Hx. Qed.

(** ** The maps of skewed edges *)

(** A skewed edge joins two instructions; [starts] are the vertices with one. *)
Definition skewed (g : deg_t) (u : Vertex) (e : OutgoingEdge) : Prop :=
  (u, e) ∈ edges g /\ vseq u <> vseq (child e).
Definition starts (g : deg_t) (w : Vertex) : Prop := exists e, skewed g w e.

Section collect.
Context (lt : Vertex -> Vertex -> bool) `{!StrictWeak lt}.

Definition collect_step (m : deg_t) (x : Vertex * OutgoingEdge) : deg_t :=
  if vseq x.1 =? vseq (child x.2) then m else om_upd lt x.1 (fun o => default [] o ++ [x.2]) m.
Lemma collect_skewed_edges g : collect_skewed lt g = foldl collect_step [] (edges g).
Proof.
  unfold collect_skewed. generalize (@nil (Vertex * list OutgoingEdge)).
  induction g as [|[u es] g IH]; intros m; [done|]. rewrite edges_cons, foldl_app. cbn [foldl]. rewrite IH.
  f_equal. clear IH. revert m. induction es as [|e es IH]; intros m; [done|]. csimpl. by rewrite IH.
Qed.

(** Keys start skewed edges; every skewed edge is in the entry of its start. *)
Record collected (g : deg_t) (m : deg_t) : Prop := {
  cl_sorted : om_sorted lt m;
  cl_keys : Forall (fun x => starts g x.1) m;
  cl_edges : forall u e, skewed g u e -> exists k es, (k, es) ∈ m /\ om_equiv lt u k /\ e ∈ es
}.
Lemma collect_skewed_collected g : collected g (collect_skewed lt g).
Proof.
  rewrite collect_skewed_edges.
  assert (H : forall xs m, om_sorted lt m -> Forall (fun x => starts g x.1) m -> xs ⊆ edges g ->
    let m' := foldl collect_step m xs in
    om_sorted lt m' /\ Forall (fun x => starts g x.1) m' /\
    (forall u es, om_find lt u m = Some es -> exists es', om_find lt u m' = Some es' /\ es ⊆ es') /\
    (forall u e, (u, e) ∈ xs -> vseq u <> vseq (child e) -> exists es, om_find lt u m' = Some es /\ e ∈ es)).
  { induction xs as [|[u e] xs IH]; intros m Hs Hk Hsub; cbn zeta; cbn [foldl].
    { split_and!; [done|done|eauto|]. intros ? ? Hx. by apply not_elem_of_nil in Hx. }
    assert (Hue : (u, e) ∈ edges g) by (apply Hsub; left).
    set (m1 := collect_step m (u, e)).
    assert (H1 : om_sorted lt m1 /\ Forall (fun x => starts g x.1) m1 /\
      (forall u' es, om_find lt u' m = Some es -> exists es', om_find lt u' m1 = Some es' /\ es ⊆ es') /\
      (vseq u <> vseq (child e) -> exists es, om_find lt u m1 = Some es /\ e ∈ es)).
    { unfold m1, collect_step. cbn [fst snd]. destruct (Z.eqb_spec (vseq u) (vseq (child e))) as [E|E].
      { split_and!; [done|done|eauto|done]. }
      split; [by apply om_upd_sorted|]. split.
      { apply (om_upd_forall lt (fun k _ => starts g k)); [done|by exists e|done]. }
      split.
      - intros u' es Hf. destruct (decide (om_equiv lt u u')) as [Heq|Hne].
        + rewrite om_find_upd_same by done. eexists. split; [done|].
          assert (Hf' : om_find lt u m = Some es).
          { apply om_find_elem in Hf as (k & Hk1 & Hk2); [|done|done]. apply om_find_elem; [done|done|].
            exists k. split; [|done]. by transitivity u'. }
          rewrite Hf'. cbn. set_solver.
        + rewrite om_find_upd_other by done. eauto.
      - intros _. rewrite (om_find_upd_same lt u u) by (split; apply sw_irrefl). eexists. split; [done|]. set_solver. }
    destruct H1 as (S1 & K1 & F1 & E1).
    destruct (IH m1 S1 K1) as (S2 & K2 & F2 & E2); [set_solver|].
    split_and!; [done|done| |].
    - intros u' es Hf. destruct (F1 u' es Hf) as (es1 & Hf1 & Hsub1).
      destruct (F2 u' es1 Hf1) as (es2 & Hf2 & Hsub2). exists es2. split; [done|]. set_solver.
    - intros u' e' [[= -> ->]|Hx]%elem_of_cons Hne; [|by apply E2].
      destruct (E1 Hne) as (es1 & Hf1 & He1). destruct (F2 u es1 Hf1) as (es2 & Hf2 & Hsub2).
      exists es2. split; [done|]. by apply Hsub2. }
  destruct (H (edges g) []) as (S & K & _ & E); [constructor|constructor|done|].
  split; [done|done|]. intros u e [Hin Hne]. destruct (E u e Hin Hne) as (es & Hf & He).
  apply om_find_elem in Hf as (k & Hk & Hm); [|done|done]. by exists k, es.
Qed.

(** What is not before an entry of a sorted map is found from it on. *)
Lemma sorted_from k es rest m (x : Vertex * list OutgoingEdge) :
  om_sorted lt m -> (k, es) :: rest `suffix_of` m -> x ∈ m -> lt x.1 k = false -> x ∈ (k, es) :: rest.
Proof.
  intros Hs [pre ->] Hx Hlt. apply elem_of_app in Hx as [Hx|Hx]; [|done].
  unfold om_sorted, om_keys in Hs. rewrite fmap_app in Hs. csimpl.
  assert (Ht : lt x.1 k = true); [|congruence].
  revert Hs Hx. induction pre as [|y pre IH]; intros Hs Hx; [by apply not_elem_of_nil in Hx|].
  csimpl. apply StronglySorted_inv in Hs as [Hs Hf]. apply elem_of_cons in Hx as [->|Hx]; [|by apply IH].
  rewrite Forall_forall in Hf. apply Hf, elem_of_app. right. apply elem_of_cons. by left.
Qed.
Lemma sorted_suffix m' m : om_sorted lt m -> m' `suffix_of` m -> om_sorted (V := list OutgoingEdge) lt m'.
Proof.
  intros Hs [pre ->]. unfold om_sorted, om_keys in *. rewrite fmap_app in Hs.
  induction pre as [|y pre IH]; [done|]. csimpl. apply StronglySorted_inv in Hs as [Hs _]. by apply IH.
Qed.
(** The first entry with a property comes before the others with it. *)
Lemma find_sorted f m x y :
  om_sorted (V := list OutgoingEdge) lt m -> List.find f m = Some x -> y ∈ m -> f y = true ->
  x = y \/ lt x.1 y.1 = true.
Proof.
  induction m as [|[k es] m IH]; intros Hs Hx Hy Hfy; [done|]. cbn [List.find] in Hx.
  apply om_sorted_cons in Hs as [Hf Hs]. unfold om_keys in Hf. rewrite Forall_fmap, Forall_forall in Hf.
  destruct (f (k, es)) eqn:E.
  - injection Hx as <-. apply elem_of_cons in Hy as [->|Hy]; [by left|]. right. by apply (Hf y).
  - apply elem_of_cons in Hy as [->|Hy]; [congruence|]. by apply IH.
Qed.
End collect.

(** ** The next skewed edges *)

Definition same_moment (a b : Vertex) : Prop := timing a = timing b /\ vseq a = vseq b.
Definition after (v w : Vertex) : Prop := vseq v < vseq w /\ timing v <= timing w.

(** The first in time of the starts after [v], from time [t] on. *)
Definition next_in_time (g : deg_t) (t : Z) (v w : Vertex) : Prop :=
  (starts g w /\ after v w /\ t <= timing w) /\
  forall w', starts g w' -> after v w' -> t <= timing w' -> timing w <= timing w'.

(** Both ends of every skewed edge are joined to all the skewed edges that come next in
    time.  One vertex stands for those of an instruction at one moment. *)
Definition joined_in_time (g : deg_t) (s' : O3Graph) : Prop :=
  forall u e, skewed g u e -> exists k, starts g k /\ same_moment k u /\
    forall v w, v = k \/ v = child e -> next_in_time g (timing u) v w ->
      exists w0, starts g w0 /\ same_moment w0 w /\ has_edge (graph s') v w0.

(** The first in program order of the starts after [v]. *)
Definition next_in_order (g : deg_t) (v w : Vertex) : Prop :=
  (starts g w /\ after v w) /\
  forall w', starts g w' -> after v w' ->
    vseq w < vseq w' \/ (vseq w = vseq w' /\ timing w <= timing w').
Definition joined_in_order (g : deg_t) (s' : O3Graph) : Prop :=
  forall u e, skewed g u e -> exists k, starts g k /\ same_moment k u /\
    forall v w, v = k \/ v = child e -> next_in_order g v w ->
      exists w0, starts g w0 /\ same_moment w0 w /\ has_edge (graph s') v w0.

Lemma timing_equiv a b : om_equiv EdgeTimingCompare a b -> same_moment a b.
Proof. intros H. apply (lex_equiv (fun v => (timing v, vseq v))) in H; [|done]. by injection H. Qed.

Lemma inst_seq_equiv a b : om_equiv EdgeInstSeqCompare a b -> same_moment a b.
Proof. intros H. apply (lex_equiv (fun v => (vseq v, timing v))) in H; [|done]. by injection H. Qed.

Lemma follows_after v (x : Vertex * list OutgoingEdge) : follows v x = true <-> after v x.1.
Proof. unfold follows, after. rewrite andb_true_iff, Z.leb_le, Z.ltb_lt. tauto. Qed.

(** Skewed edges lead forward in program order. *)
Lemma skewed_forward s u e : Inv insts false s -> skewed (graph s) u e -> vseq u < vseq (child e).
Proof.
  intros Hs [Hin Hne]. pose proof (inv_kinds s Hs) as Hk. rewrite Forall_forall in Hk.
  specialize (Hk _ Hin). cbn in Hk.
  destruct Hk as [i t t' Hi Hp -> Hc _|i j t t' Hi Hj Hlt Ht Ht' Hst Hsh -> Hc _
    |i j t t' Hi Hj Hlt Ht Ht' Hs1 Hs2 -> Hc _|?? ? [=]|? ? [=]]; rewrite Hc in *; [done|exact Hlt|exact Hlt].
Qed.

(** The end [v] of a skewed edge in the entry of [k] and the next starts. *)
Lemma joined_entry s s' m k es rest v w :
  collected EdgeTimingCompare (graph s) m -> (k, es) :: rest `suffix_of` m ->
  linked_times s' v ((k, es) :: rest) -> vseq k <= vseq v -> next_in_time (graph s) (timing k) v w ->
  exists w0, starts (graph s) w0 /\ same_moment w0 w /\ has_edge (graph s') v w0.
Proof.
  intros [Cs Ck Ce] Hsuf Hl Hv [([e1 Hw] & Ha & Ht) Hmin].
  assert (Hfrom : forall k1 es1, (k1, es1) ∈ m -> after v k1 -> timing k <= timing k1 ->
    (k1, es1) ∈ (k, es) :: rest).
  { intros k1 es1 Hm [A1 A2] Ht1. eapply (sorted_from EdgeTimingCompare); [exact Cs|exact Hsuf|exact Hm|].
    cbn [fst]. unfold EdgeTimingCompare. lia. }
  destruct (Ce w e1 Hw) as (k1 & es1 & Hk1 & Heq & _). apply timing_equiv in Heq as [E1 E2].
  assert (Ha1 : after v k1) by (unfold after in *; lia).
  assert (Hin1 : (k1, es1) ∈ (k, es) :: rest) by (apply Hfrom; [done|done|lia]).
  rewrite Forall_forall in Ck. exists k1. split; [exact (Ck _ Hk1)|]. split; [done|].
  pose proof (proj2 (follows_after v (k1, es1)) Ha1) as Hf1.
  destruct (List.find (follows v) ((k, es) :: rest)) as [x|] eqn:Ef.
  2: { pose proof (List.find_none _ _ Ef (k1, es1) (proj1 (list_elem_of_In _ _) Hin1)). congruence. }
  apply (Hl x (k1, es1) Ef Hin1 Hf1). cbn [fst].
  pose proof (sorted_suffix _ _ _ Cs Hsuf) as Hso.
  pose proof (List.find_some _ _ Ef) as [Hx Hfx]. apply list_elem_of_In in Hx. apply follows_after in Hfx.
  assert (Hkx : timing k <= timing x.1).
  { apply by_time_later in Hso as [Hf _]. rewrite Forall_forall in Hf.
    apply elem_of_cons in Hx as [->|Hx]; [cbn; lia|]. specialize (Hf x Hx). lia. }
  assert (Hxm : x ∈ m) by (destruct Hsuf as [pre ->]; apply elem_of_app; by right).
  pose proof (Hmin x.1 (Ck x Hxm) Hfx Hkx) as Hle.
  destruct (find_sorted EdgeTimingCompare _ _ _ _ Hso Ef Hin1 Hf1) as [->|Hlt]; [done|].
  cbn [fst] in Hlt. unfold EdgeTimingCompare in Hlt. lia.
Qed.

Lemma entry_forward s u e k v :
  Inv insts false s -> skewed (graph s) u e -> vseq u = vseq k -> v = k \/ v = child e -> vseq k <= vseq v.
Proof. intros Hs Hue E [->| ->]; [lia|]. pose proof (skewed_forward s u e Hs Hue). lia. Qed.
Lemma entry_ends k (es : list OutgoingEdge) e v :
  e ∈ es -> v = k \/ v = child e -> v = k \/ v ∈ child <$> es.
Proof. intros He [->| ->]; [by left|right]. apply list_elem_of_fmap. by exists e. Qed.
Lemma suffix_of_elem {A} (x : A) m : x ∈ m -> exists rest, x :: rest `suffix_of` m.
Proof. intros (pre & rest & ->)%list_elem_of_split. exists rest. by exists pre. Qed.

Lemma joined_order_entry s s' m k es rest v w :
  collected EdgeInstSeqCompare (graph s) m -> (k, es) :: rest `suffix_of` m ->
  linked_next s' v ((k, es) :: rest) -> vseq k <= vseq v -> next_in_order (graph s) v w ->
  exists w0, starts (graph s) w0 /\ same_moment w0 w /\ has_edge (graph s') v w0.
Proof.
  intros [Cs Ck Ce] Hsuf Hl Hv [([e1 Hw] & Ha) Hmin].
  destruct (Ce w e1 Hw) as (k1 & es1 & Hk1 & Heq & _). apply inst_seq_equiv in Heq as [E1 E2].
  assert (Ha1 : after v k1) by (unfold after in *; lia).
  assert (Hin1 : (k1, es1) ∈ (k, es) :: rest).
  { eapply (sorted_from EdgeInstSeqCompare); [exact Cs|exact Hsuf|exact Hk1|].
    cbn [fst]. unfold EdgeInstSeqCompare, after in *. lia. }
  rewrite Forall_forall in Ck. exists k1. split; [exact (Ck _ Hk1)|]. split; [done|].
  pose proof (proj2 (follows_after v (k1, es1)) Ha1) as Hf1.
  destruct (List.find (follows v) ((k, es) :: rest)) as [x|] eqn:Ef.
  2: { pose proof (List.find_none _ _ Ef (k1, es1) (proj1 (list_elem_of_In _ _) Hin1)). congruence. }
  pose proof (sorted_suffix _ _ _ Cs Hsuf) as Hso. pose proof (Hl x Ef) as Hedge.
  pose proof (List.find_some _ _ Ef) as [Hx Hfx]. apply list_elem_of_In in Hx. apply follows_after in Hfx.
  assert (Hxm : x ∈ m) by (destruct Hsuf as [pre ->]; apply elem_of_app; by right).
  pose proof (Hmin x.1 (Ck x Hxm) Hfx) as Hle.
  destruct (find_sorted EdgeInstSeqCompare _ _ _ _ Hso Ef Hin1 Hf1) as [->|Hlt]; [exact Hedge|].
  cbn [fst] in Hlt. unfold EdgeInstSeqCompare in Hlt. lia.
Qed.

Lemma construct_induced_graph_ok s :
  Inv insts false s ->
  Bridged s (construct_induced_graph s) /\ joined_in_time (graph s) (construct_induced_graph s) /\
  joined_in_order (graph (add_virtual_edge_via_timing s)) (construct_induced_graph s).
Proof.
  intros Hs. unfold construct_induced_graph.
  pose proof (collect_skewed_collected EdgeTimingCompare (graph s)) as Hc.
  destruct (visits_ok timing_scan EdgeTimingCompare linked_times linked_times_ext timing_scan_scans
    (collect_skewed EdgeTimingCompare (graph s)) s)
    as [H1 L1]; [by apply collect_skewed_joint, inv_kinds|apply Hc|done|].
  rewrite <- via_timing_visits in H1, L1. fold (add_virtual_edge_via_timing s) in H1, L1.
  set (s1 := add_virtual_edge_via_timing s) in *.
  assert (Hs1 : Inv insts false s1) by apply H1.
  pose proof (collect_skewed_collected EdgeInstSeqCompare (graph s1)) as Hc2.
  destruct (visits_ok inst_seq_scan EdgeInstSeqCompare linked_next linked_next_ext
    (fun v m Hv Hm _ => inst_seq_scan_scans v m Hv Hm)
    (collect_skewed EdgeInstSeqCompare (graph s1)) s1) as [H2 L2];
    [by apply collect_skewed_joint, inv_kinds|apply Hc2|done|].
  rewrite <- via_inst_seq_visits in H2, L2. fold (add_virtual_edge_via_inst_seq s1) in H2, L2.
  split; [by eapply bridged_trans|]. split; intros u e Hue.
  - destruct (cl_edges _ _ _ Hc u e Hue) as (k & es & Hin & [E1 E2]%timing_equiv & He).
    pose proof (cl_keys _ _ _ Hc) as Hkeys. rewrite Forall_forall in Hkeys.
    exists k. split; [exact (Hkeys _ Hin)|]. split; [done|]. intros v w Hv Hw.
    apply suffix_of_elem in Hin as (rest & Hsuf).
    apply (joined_entry s _ _ k es rest v w Hc Hsuf); [|exact (entry_forward s u e k v Hs Hue E2 Hv)|by rewrite <- E1].
    eapply linked_times_ext; [apply H2|]. apply L1; [done|]. by apply (entry_ends k es e).
  - destruct (cl_edges _ _ _ Hc2 u e Hue) as (k & es & Hin & [E1 E2]%inst_seq_equiv & He).
    pose proof (cl_keys _ _ _ Hc2) as Hkeys. rewrite Forall_forall in Hkeys.
    exists k. split; [exact (Hkeys _ Hin)|]. split; [done|]. intros v w Hv Hw.
    apply suffix_of_elem in Hin as (rest & Hsuf).
    apply (joined_order_entry s1 _ _ k es rest v w Hc2 Hsuf); [|exact (entry_forward s1 u e k v Hs1 Hue E2 Hv)|done].
    apply L2; [done|]. by apply (entry_ends k es e).
Qed.

Lemma construct_induced_graph_ext s :
  Inv insts false s -> Ext insts false s (construct_induced_graph s).
Proof. intros Hs. apply construct_induced_graph_ok, Hs. Qed.

End induced.
