(* ===== verification/SearchFacts.v ===== *)
(** * Searching paths

    On a well-formed graph [find_path] always returns, with a path when there
    is one; [if_exist_path] always returns, and is right when it says yes. *)

From S2P Require Import Prelude Machine OrderedMap External Instruction Bottleneck GraphDefs.
From S2P Require Import DegBuild GraphTheory Induced LongestPath PathSearch TopoSort DistFacts.
From S2P Require Import LongestFacts.

#[local] Open Scope list_scope.
#[local] Open Scope Z_scope.

Section search.
Context (V : Vertex -> Prop) `{HV : !VertexSet V}.

Lemma verts_in s x : WfDeg V (graph s) (pred s) -> verts (graph s) x -> V x.
Proof. intros Hwf. by apply (verts_V V Hwf). Qed.

Lemma if_exist_edge_ok s u v :
  WfDeg V (graph s) (pred s) -> verts (graph s) u ->
  exists b s', if_exist_edge s u v = (b, s') /\ obs V s s' /\
    (if b : bool then has_edge (graph s) u v else ~ has_edge (graph s) u v).
Proof.
  intros Hwf Hu. pose proof (verts_in s u Hwf Hu) as HuV.
  eexists _, _. split; [done|]. split; [by apply obs_touch|].
  destruct (existsb _ _) eqn:E.
  - apply existsb_exists in E as (e & He & Hv). apply list_elem_of_In in He.
    exists e. split; [by apply (wf_children V Hwf)|by apply Vertex_eqb_eq].
  - intros (e & He & Hv). apply (wf_children V Hwf) in He; [|done].
    rewrite <- not_true_iff_false, existsb_exists in E. apply E. exists e.
    split; [by apply list_elem_of_In|by apply Vertex_eqb_eq].
Qed.

(** ** Depth-first search *)

(** The outcome of a search from [v] to [t]: a path, without its last vertex,
    or the certainty that there is none. *)
Definition found (g : deg_t) (b : bool) (path : list Vertex) (v t : Vertex) : Prop :=
  if b then is_path g (path ++ [t]) /\ head path = Some v
  else forall l, ~ is_path g (v :: l ++ [t]).

Lemma find_path_children_ok rec s0 source t es :
  (forall s e, e ∈ es -> obs V s0 s -> exists b path s',
     rec s (child e) = Ok (b, path, s') /\ obs V s0 s' /\ found (graph s0) b path (child e) t) ->
  (forall e, e ∈ es -> has_edge (graph s0) source (child e)) ->
  forall s, obs V s0 s -> exists b path s',
    find_path_children rec s source es = Ok (b, path, s') /\ obs V s0 s' /\
    if b : bool then is_path (graph s0) (path ++ [t]) /\ head path = Some source
    else forall e l, e ∈ es -> ~ is_path (graph s0) (child e :: l ++ [t]).
Proof.
  intros Hrec He. induction es as [|e es IH]; intros s Ho; simpl.
  { eexists _, _, _. split; [done|]. split; [done|]. set_solver. }
  destruct (Hrec s e) as (b & path & s1 & -> & Ho1 & Hf); [set_solver|done|].
  cbn [mbind res_bind]. destruct b; simpl in Hf.
  - eexists _, _, _. split; [done|]. split; [done|]. split; [|done].
    destruct Hf as [Hp Hh]. destruct path as [|x path]; [done|]. injection Hh as ->.
    cbn [app]. split; [|done]. apply He. set_solver.
  - destruct IH with (s := s1) as (b & path' & s2 & -> & Ho2 & Hr).
    + intros s' e' He'. apply Hrec. set_solver.
    + intros e' He'. apply He. set_solver.
    + done.
    + eexists _, _, _. split; [done|]. split; [done|]. destruct b; [done|].
      intros e' l [->|He']%elem_of_cons; [done|by apply Hr].
Qed.

(** Edges that start at or after [v]. *)
Definition ahead (g : deg_t) (v : Vertex) : nat :=
  length (filter (fun x => rank v <= rank x.1) (edges g)).

Lemma ahead_le g v : (ahead g v <= num_edges g)%nat.
Proof. unfold ahead, num_edges. rewrite <- num_edges_edges. apply length_filter. Qed.

Lemma ahead_perm g g' v : edges g ≡ₚ edges g' -> ahead g v = ahead g' v.
Proof. intros H. unfold ahead. by rewrite H. Qed.

Lemma ahead_lt g p u v : WfDeg V g p -> has_edge g u v -> (ahead g v < ahead g u)%nat.
Proof.
  intros Hwf Huv. pose proof (wf_has_edge V Hwf u v Huv) as (_ & _ & Hr).
  destruct Huv as (e & He & _). unfold ahead.
  apply list_elem_of_split in He as (l1 & l2 & ->).
  rewrite !filter_app, !filter_cons. simpl.
  rewrite (decide_True (P := rank u <= rank u)), (decide_False (P := rank v <= rank u)) by lia.
  rewrite !length_app. simpl.
  assert (Hle : forall l : list (Vertex * OutgoingEdge),
    (length (filter (fun x => (rank v <= rank x.1)%Z) l) <= length (filter (fun x => (rank u <= rank x.1)%Z) l))%nat).
  { induction l as [|x l IH]; [done|]. rewrite !filter_cons.
    repeat case_decide; simpl; lia. }
  pose proof (Hle l1). pose proof (Hle l2). lia.
Qed.

Lemma find_path_ok fuel s v t :
  WfDeg V (graph s) (pred s) -> verts (graph s) v -> (ahead (graph s) v < fuel)%nat ->
  exists b path s', find_path fuel s v t = Ok (b, path, s') /\ obs V s s' /\
    found (graph s) b path v t.
Proof.
  revert s v. induction fuel as [|fuel IH]; intros s v Hwf Hv Hf; [lia|]. cbn [find_path].
  destruct (if_exist_edge_ok s v t Hwf Hv) as (b & s1 & -> & Ho & Hb). destruct b.
  { eexists _, _, _. split; [done|]. split; [done|]. by split. }
  pose proof (verts_in s v Hwf Hv) as HvV.
  assert (Hch : forall e, e ∈ children (graph s1) v -> has_edge (graph s) v (child e)).
  { intros e He. rewrite (obs_children _ _ _ Ho) in He. exists e.
    split; [by apply (wf_children V Hwf)|done]. }
  destruct (find_path_children_ok (fun s c => find_path fuel s c t) s v t (children (graph s1) v))
    with (s := s1) as (b & path & s2 & -> & Ho2 & Hr); [|done|done|].
  { intros s' e He Ho'. specialize (Hch e He).
    destruct (IH s' (child e)) as (b & path & s2 & Heq & Ho2 & Hfd).
    - apply Ho'.
    - apply (obs_verts_iff V s s'); [done|]. apply has_edge_verts in Hch. tauto.
    - rewrite (ahead_perm _ (graph s)) by apply Ho'. pose proof (ahead_lt _ _ _ _ Hwf Hch). lia.
    - exists b, path, s2. split; [done|]. split; [by eapply obs_trans|].
      destruct b; simpl in *.
      + by rewrite <- (obs_is_path V s s').
      + intros l. rewrite <- (obs_is_path V s s') by done. apply Hfd. }
  eexists _, _, _. split; [done|]. split; [done|]. destruct b; simpl; [done|].
  intros l Hp. destruct l as [|c l].
  - destruct Hp as [Hp _]. done.
  - destruct Hp as [(e & He & <-) Hp]. apply (Hr e l); [|done].
    rewrite (obs_children _ _ _ Ho). by apply (wf_children V Hwf).
Qed.

(** ** Breadth-first search *)

Lemma bfs_edges_ok s0 s t es seen next :
  obs V s0 s -> (forall e, e ∈ es -> verts (graph s0) (child e)) -> NoDup seen ->
  match bfs_edges s t es seen next with
  | inl (b, s') => obs V s0 s' /\ (b = true -> exists e, e ∈ es /\ has_edge (graph s0) (child e) t)
  | inr (s', seen', next') =>
      obs V s0 s' /\ NoDup seen' /\ seen' = seen ++ (child <$> es) /\ next' = next ++ (child <$> es)
  end.
Proof.
  revert s seen next. induction es as [|e es IH]; intros s seen next Ho Hes Hnd.
  { simpl. by rewrite !app_nil_r. }
  cbn [bfs_edges]. destruct (inst_seq (vinst t) <? inst_seq (vinst (child e))); [done|].
  assert (Hv : verts (graph s) (child e)).
  { apply (obs_verts_iff V s0 s); [done|]. apply Hes. set_solver. }
  destruct (if_exist_edge_ok s (child e) t) as (b & s1 & -> & Ho1 & Hb); [apply Ho|done|].
  assert (Ho' : obs V s0 s1) by (by eapply obs_trans).
  destruct b.
  { split; [done|]. intros _. exists e. split; [set_solver|]. by apply (obs_has_edge V s0 s). }
  destruct (existsb (Vertex_eqb (child e)) seen) eqn:Es; [done|].
  specialize (IH s1 (seen ++ [child e]) (next ++ [child e]) Ho').
  assert (Hnd1 : NoDup (seen ++ [child e])).
  { apply NoDup_app. split; [done|]. split; [|apply NoDup_singleton].
    intros x Hx ->%list_elem_of_singleton. rewrite <- not_true_iff_false, existsb_exists in Es.
    apply Es. exists (child e). split; [by apply list_elem_of_In|apply Vertex_eqb_refl]. }
  destruct (bfs_edges s1 t es _ _) as [[b s2]|[[s2 seen'] next']].
  - destruct IH as [Ho2 Hr]; [set_solver|done|].
    split; [done|]. intros Hb2. destruct (Hr Hb2) as (e' & ? & ?). exists e'. set_solver.
  - destruct IH as (Ho2 & Hnd2 & -> & ->); [set_solver|done|].
    rewrite <- !app_assoc in *. done.
Qed.

(** Vertices reached from [src]. *)
Definition reached (g : deg_t) (src x : Vertex) : Prop :=
  exists l, is_path g (src :: l) /\ last (src :: l) = Some x.

Lemma reached_step g src x y : reached g src x -> has_edge g x y -> reached g src y.
Proof.
  intros (l & Hl & Hx) Hxy. exists (l ++ [y]).
  change (src :: l ++ [y]) with ((src :: l) ++ [y]). rewrite last_snoc. split; [|done].
  unfold is_path in *. rewrite chain_app, Hx. done.
Qed.

Definition heads (g : deg_t) : list Vertex := (fun x => child x.2) <$> edges g.

Lemma elem_of_heads g v : v ∈ heads g <-> exists u, has_edge g u v.
Proof.
  unfold heads, has_edge. rewrite list_elem_of_fmap. split.
  - intros ([u e] & -> & He). eauto.
  - intros (u & e & He & <-). by exists (u, e).
Qed.

Lemma heads_length g : length (heads g) = num_edges g.
Proof. unfold heads. by rewrite length_fmap, num_edges_edges. Qed.

Lemma bfs_loop_ok s0 src t fuel s gen seen :
  WfDeg V (graph s0) (pred s0) -> obs V s0 s -> Forall (reached (graph s0) src) gen ->
  Forall (verts (graph s0)) gen -> NoDup seen -> seen ⊆ heads (graph s0) ->
  (num_edges (graph s0) < length seen + fuel)%nat ->
  exists b s', bfs_loop fuel s t gen seen = Ok (b, s') /\ obs V s0 s' /\
    (b = true -> exists l, is_path (graph s0) (src :: l ++ [t])).
Proof.
  intros Hwf. revert s gen seen. induction fuel as [|fuel IH]; intros s gen seen Ho Hr Hv Hnd Hsub Hf.
  { pose proof (NoDup_subset_length _ _ Hnd Hsub) as Hle. rewrite heads_length in Hle. lia. }
  destruct gen as [|x gen]; [by exists false, s|].
  set (G := x :: gen) in *. cbn [bfs_loop].
  change (match G with [] => Ok (false, s) | _ :: _ => ?k end) with k. fold G.
  set (es := G ≫= children (graph s)).
  assert (Hes : forall e, e ∈ es -> exists y, y ∈ G /\ has_edge (graph s0) y (child e)).
  { intros e (y & He & Hy)%list_elem_of_bind. exists y. split; [done|].
    rewrite (obs_children _ _ _ Ho) in He. exists e. split; [|done].
    apply (wf_children V Hwf); [|done]. rewrite Forall_forall in Hv. by apply (verts_in s0), Hv. }
  pose proof (bfs_edges_ok s0 s t es seen [] Ho) as Hb.
  destruct (bfs_edges s t es seen []) as [[b s1]|[[s1 seen'] next]].
  - destruct Hb as [Ho1 Hb]; [|done|].
    { intros e (y & _ & He)%Hes. apply has_edge_verts in He. tauto. }
    exists b, s1. split; [done|]. split; [done|]. intros (e & He & Het)%Hb.
    apply Hes in He as (y & Hy & Hye). rewrite Forall_forall in Hr.
    destruct (reached_step _ _ _ _ (Hr y Hy) Hye) as (l & Hl & Hlast).
    exists l. change (src :: l ++ [t]) with ((src :: l) ++ [t]). unfold is_path in *.
    rewrite chain_app, Hlast. done.
  - destruct Hb as (Ho1 & Hnd' & -> & ->); [|done|].
    { intros e (y & _ & He)%Hes. apply has_edge_verts in He. tauto. }
    simpl. rewrite Forall_forall in Hr.
    destruct (decide (child <$> es = [])) as [Hnil|Hne].
    { rewrite Hnil. exists false, s1. by destruct fuel. }
    apply IH; [done|..|done| |].
    + apply Forall_fmap, Forall_forall. intros e (y & Hy & Hye)%Hes. by eapply reached_step; [apply Hr|].
    + apply Forall_fmap, Forall_forall. intros e (y & _ & He)%Hes. apply has_edge_verts in He. simpl. tauto.
    + intros z [Hz|(e & -> & He)%list_elem_of_fmap]%elem_of_app; [by apply Hsub|].
      apply elem_of_heads. apply Hes in He as (y & _ & He). eauto.
    + rewrite length_app. destruct (child <$> es); [done|]. simpl. lia.
Qed.

Lemma if_exist_path_ok s src t :
  WfDeg V (graph s) (pred s) -> verts (graph s) src ->
  exists b s', if_exist_path s src t = Ok (b, s') /\ obs V s s' /\
    (b = true -> exists l, is_path (graph s) (src :: l ++ [t])).
Proof.
  intros Hwf Hs. unfold if_exist_path.
  case_match; [eexists _, _; split; [done|]; split; [by apply obs_refl|done]|].
  assert (Ho : obs V s (set_graph s (touch (graph s) src))).
  { apply (obs_touch V s src Hwf); [by apply (verts_in s)|done]. }
  apply (bfs_loop_ok s src t); [done|done|..].
  - constructor; [|done]. by exists [].
  - by constructor.
  - constructor.
  - set_solver.
  - simpl. unfold num_edges. rewrite <- !num_edges_edges. rewrite (obs_edges _ _ _ Ho). lia.
Qed.

(** Along a line of vertices with one child each the breadth-first search
    arrives, provided at least one vertex lies in between. *)
Definition only_child (g : deg_t) (u v : Vertex) : Prop :=
  exists e, children g u = [e] /\ child e = v.

Lemma only_child_edge g p u v : WfDeg V g p -> V u -> only_child g u v -> has_edge g u v.
Proof.
  intros Hwf Hu (e & He & Hv). exists e. split; [|done]. apply (wf_children V Hwf); [done|].
  rewrite He. set_solver.
Qed.

Lemma bfs_line s0 t fuel s v l seen :
  WfDeg V (graph s0) (pred s0) -> obs V s0 s -> chain (only_child (graph s0)) (v :: l ++ [t]) ->
  l <> [] -> NoDup l -> (forall x, x ∈ l -> x ∉ seen) -> Forall (verts (graph s0)) l ->
  Forall (fun c => inst_seq (vinst c) <= inst_seq (vinst t)) l -> (length l <= fuel)%nat ->
  exists s', bfs_loop fuel s t [v] seen = Ok (true, s') /\ obs V s0 s'.
Proof.
  intros Hwf. revert v seen s fuel.
  induction l as [|c l IH]; intros v seen s fuel Ho Hch Hne Hnd Hseen Hv Hseq Hf; [done|].
  destruct fuel as [|fuel]; [simpl in Hf; lia|]. cbn [bfs_loop].
  destruct Hch as [(e & He & Hc) Hch]. rewrite <- (obs_children _ _ _ Ho) in He.
  cbn [mbind list_bind app]. rewrite He. cbn [app bfs_edges]. subst c.
  apply Forall_cons in Hv as [Hvc Hv]. apply Forall_cons in Hseq as [Hsc Hseq].
  apply NoDup_cons in Hnd as [Hni Hnd].
  destruct (Z.ltb_spec (inst_seq (vinst t)) (inst_seq (vinst (child e)))); [lia|].
  destruct (if_exist_edge_ok s (child e) t) as (b & s1 & -> & Ho1 & Hb);
    [apply Ho|by apply (obs_verts_iff V s0 s)|].
  assert (Ho' : obs V s0 s1) by (by eapply obs_trans).
  destruct b; [by exists s1|].
  destruct (existsb (Vertex_eqb (child e)) seen) eqn:Es.
  { exfalso. apply existsb_exists in Es as (x & Hx & <-%Vertex_eqb_eq).
    apply (Hseen (child e)); [set_solver|by apply list_elem_of_In]. }
  destruct l as [|c' l].
  { exfalso. apply Hb, (obs_has_edge V s0 s); [done|]. apply (only_child_edge _ (pred s0)); [done|..].
    - by apply (verts_in s0).
    - apply Hch. }
  apply IH; [done|done|done|done| |done|done|simpl in *; lia].
  intros x Hx [Hs| ->%list_elem_of_singleton]%elem_of_app; [|done].
  apply (Hseen x); [set_solver|done].
Qed.

End search.
