(* ===== verification/CriticalFacts.v ===== *)
(** * The ends of the critical path

    Where the graph of a trace starts and ends, what the ends of the longest
    path can be, and the shape of the last instruction's part of the graph. *)

From S2P Require Import Prelude Machine OrderedMap External Instruction Bottleneck GraphDefs.
From S2P Require Import DegBuild GraphTheory Pipeline BuildFacts Induced LongestPath PathSearch.
From S2P Require Import TopoSort DistFacts LongestFacts SearchFacts InducedFacts.

#[local] Open Scope list_scope.
#[local] Open Scope Z_scope.

Section critical.
Context (insts : list RiscvInstruction) (Hnum : numbered insts) (q : Z).
Context `{B : Boost} `{HB : !BoostLaws B}.

(** The state during the analysis: the chains are there, and [q] instructions
    have been read. *)
Record Framed (att : bool) (s : O3Graph) : Prop := {
  fr_inv : Inv insts att s;
  fr_chains i t t' : i ∈ insts -> (t, t') ∈ pairs_of (chain_types i) ->
    has_edge (graph s) (ev t i) (ev t' i);
  fr_seq : get_inst_seq s = q
}.

Lemma framed_ext att s s' : Ext insts att s s' -> Framed att s -> Framed att s'.
Proof.
  intros He [H1 H2 H3]. split; [apply He| |].
  - intros i t t' Hi Hp. by eapply ext_has_edge, H2.
  - unfold get_inst_seq in *. by rewrite (ext_stream _ _ _ _ He).
Qed.

Lemma kind_true att u e : edge_kind insts att u e -> edge_kind insts true u e.
Proof.
  destruct 1 as [i t t'|i j t t'|i j t t'|i j t'|i j].
  - by apply (Horizontal _ _ _ _ i t t').
  - by apply (Skewed _ _ _ _ i j t t').
  - by apply (Bridge _ _ _ _ i j t t').
  - by apply (FromSource _ _ _ _ i j t').
  - by apply (ToSink _ _ _ _ i j).
Qed.

(** Reads keep the frame, except that they may leave empty entries behind. *)
Lemma framed_obs att s s' : obs (V insts) s s' -> Framed att s -> Framed true s'.
Proof.
  intros Ho [[H1 H2 H3 H4 H5 H6] H7 H8].
  assert (Hm : inst_to_vertex s' = inst_to_vertex s) by (by rewrite (obs_rest _ _ _ Ho)).
  assert (Hb : bottlenecks s' = bottlenecks s) by (by rewrite (obs_rest _ _ _ Ho)).
  assert (Hi : inst_stream s' = inst_stream s) by (by rewrite (obs_rest _ _ _ Ho)).
  split; [split|..].
  - apply Ho.
  - done.
  - unfold horizontals. by rewrite (obs_edges _ _ _ Ho).
  - rewrite (obs_edges _ _ _ Ho). eapply Forall_impl; [exact H4|].
    intros x [? ? ? ?]. split; [by eapply kind_true|done..].
  - intros key v. rewrite Hm. apply H5.
  - by rewrite Hb.
  - intros i t t' Hin Hp. apply (obs_has_edge (V insts) s s'); [done|]. by apply H7.
  - unfold get_inst_seq in *. by rewrite Hi.
Qed.

Lemma framed_kind att s u e : Framed att s -> (u, e) ∈ edges (graph s) -> edge_kind insts att u e.
Proof.
  intros [Hs _ _] He. apply (proj1 (Forall_forall _ _) (inv_edges _ _ _ Hs) (u, e) He).
Qed.

(** ** Source and sink *)

Context (first final : RiscvInstruction).
Context (Hfirst : insts !! 0%nat = Some first) (Hfinal : last insts = Some final).

Lemma first_in : first ∈ insts.
Proof. by eapply list_elem_of_lookup_2. Qed.
Lemma final_in : final ∈ insts.
Proof. by apply last_elem_of. Qed.
Lemma first_seq : inst_seq first = 1.
Proof. by rewrite (numbered_lookup insts Hnum 0 first). Qed.
Lemma final_seq : inst_seq final = Z.of_nat (length insts).
Proof.
  rewrite last_lookup in Hfinal. rewrite (numbered_lookup insts Hnum _ final Hfinal).
  apply lookup_lt_Some in Hfinal. lia.
Qed.

Definition source : Vertex := ev VT.F1 first.
Definition sink : Vertex := ev VT.C final.

Lemma V_first v : V insts v -> vtype v = VT.F1 -> vseq v = 1 -> v = source.
Proof.
  intros Hv Ht Hs. apply (V_vertex_set insts Hnum); [done| |done|by rewrite Hs, <- first_seq].
  apply V_ev; [apply first_in|apply F1_in_chain].
Qed.

Lemma V_final v : V insts v -> vtype v = VT.C -> vseq v = Z.of_nat (length insts) -> v = sink.
Proof.
  intros Hv Ht Hs. apply (V_vertex_set insts Hnum); [done| |done|by rewrite Hs, <- final_seq].
  apply V_ev; [apply final_in|apply C_in_chain].
Qed.

Lemma get_source_ok att s : Framed att s -> get_source_vertex s = Ok source.
Proof using Hnum Hfirst.
  intros [Hs Hc _]. unfold get_source_vertex.
  destruct (chain_types_next first VT.F1) as (t' & Hp); [apply F1_in_chain|done|].
  pose proof (Hc first VT.F1 t' first_in Hp) as (e & He & _).
  apply elem_of_edges in He as (es & He & _). pose proof (inv_wf _ _ _ Hs) as Hwf.
  destruct (graph s) as [|[v es'] g] eqn:Eg; [by apply elem_of_nil in He|].
  assert (Hv : V insts v).
  { pose proof (wf_gkeys _ _ _ Hwf) as Hk. simpl in Hk. by apply Forall_cons in Hk as [? _]. }
  assert (Hlt : VertexCompare source v = false).
  { eapply (om_head_least VertexCompare); [apply Hwf|]. apply list_elem_of_fmap. by exists (source, es). }
  unfold VertexCompare, source in Hlt. simpl in Hlt. rewrite first_seq in Hlt.
  assert (v = source) as ->.
  { pose proof Hv as (j & t & Hj & Ht & Heq). pose proof (numbered_range _ Hnum j Hj).
    apply V_first; [done|..]; subst v; cbn [vtype vseq ev] in Hlt |- *;
      destruct t; cbn in Hlt; done || lia. }
  unfold source. simpl. by rewrite first_seq.
Qed.

Lemma get_sink_ok att s :
  Framed att s -> q = Z.of_nat (length insts) -> get_sink_vertex s = Ok sink.
Proof.
  intros [Hs Hc Hseq] Hq. rewrite Hq in Hseq. pose proof (inv_wf _ _ _ Hs) as Hwf. unfold get_sink_vertex.
  assert (Hin : forall v, In v (map child (mjoin (graph s).*2)) <-> exists u, has_edge (graph s) u v).
  { intros v. rewrite in_map_iff. unfold has_edge. setoid_rewrite elem_of_edges. split.
    - intros (e & <- & He%list_elem_of_In). apply list_elem_of_join in He as (es & He & Hes).
      apply list_elem_of_fmap in Hes as ([u es'] & -> & Hu). eauto 6.
    - intros (u & e & (es & Hes & He) & <-). exists e. split; [done|].
      apply list_elem_of_In, list_elem_of_join. exists es. split; [done|].
      apply list_elem_of_fmap. by exists (u, es). }
  assert (Hex : exists u, has_edge (graph s) u sink).
  { destruct (chain_types_last final) as (t & Ht). exists (ev t final). apply Hc; [apply final_in|done]. }
  destruct (List.find (is_sink s) _) as [v|] eqn:Ef.
  - apply List.find_some in Ef as [(u & Hu)%Hin Hsink]. unfold is_sink in Hsink. bool_to_prop.
    apply (wf_has_edge _ Hwf) in Hu as (_ & Hv & _).
    by rewrite (V_final v) by congruence.
  - exfalso. apply Hin in Hex. apply (List.find_none _ _ Ef) in Hex.
    unfold is_sink, sink, ev in Hex. cbn [vseq vtype] in Hex. rewrite Hseq, final_seq in Hex.
    by rewrite Z.eqb_refl, bool_decide_true in Hex.
Qed.

(** ** The longest path *)

Lemma edge_cost_pos att s u v :
  Framed att s -> has_edge (graph s) u v -> 0 < ecost (graph s) u v ->
  skew_tail (vtype u) = true /\ skew_head (vtype v) = true /\ vseq u < vseq v.
Proof.
  intros Hf Huv. pose proof (inv_wf _ _ _ (fr_inv _ _ Hf)) as Hwf.
  destruct (edge_to_spec (V insts) _ _ u v Hwf Huv) as (e & He & Hv & Hin).
  unfold ecost. rewrite He. intros Hpos. apply (framed_kind _ _ _ _ Hf) in Hin.
  destruct Hin as [? ? ? ? ? -> Hc|i j t t' ? ? ? ? ? ? ? -> Hc| | |]; try lia.
  rewrite <- Hv, Hc. done.
Qed.

(** Some vertex a costly edge leads to is reached at the full cost. *)
Lemma last_costly att s l :
  Framed att s -> is_path (graph s) l -> 0 < path_cost (graph s) l ->
  exists l' y, is_path (graph s) (l' ++ [y]) /\ path_cost (graph s) (l' ++ [y]) = path_cost (graph s) l /\
    skew_head (vtype y) = true /\ verts (graph s) y.
Proof.
  intros Hf. pose proof (inv_wf _ _ _ (fr_inv _ _ Hf)) as Hwf.
  induction l as [|v|l u v IH] using path_ind; [done..|]. intros Hl Hpos.
  pose proof Hl as [Hl' Huv]%is_path_snoc.
  pose proof (ecost_nonneg (V insts) _ _ u v Hwf Huv).
  destruct (decide (ecost (graph s) u v = 0)) as [Hz|Hnz].
  - assert (Heq : path_cost (graph s) (l ++ [u; v]) = path_cost (graph s) (l ++ [u])).
    { rewrite path_cost_snoc, Hz. unfold lat_add. rewrite Z.add_0_r.
      by apply (path_cost_rounded (V insts) Hwf). }
    rewrite Heq in *. by apply IH.
  - exists (l ++ [u]), v. rewrite <- app_assoc. simpl.
    split; [done|]. split; [done|]. split.
    + apply (edge_cost_pos att s u v); [done|done|lia].
    + apply has_edge_verts in Huv. tauto.
Qed.

(** The end of the longest path is an event a costly edge may lead to: any other
    is reached at the same cost by an event that comes first in the map. *)
Lemma longest_end att s path l u v :
  Framed att s -> longest (graph s) path -> path = l ++ [u; v] -> 0 < path_cost (graph s) path ->
  skew_head (vtype v) = true.
Proof.
  intros Hf [Hp _ _ Hmin] Heq Hpos. destruct (skew_head (vtype v)) eqn:Hh; [done|exfalso].
  pose proof (inv_wf _ _ _ (fr_inv _ _ Hf)) as Hwf.
  assert (Hlast : last path = Some v).
  { rewrite Heq. change (l ++ [u; v]) with (l ++ [u] ++ [v]). by rewrite app_assoc, last_snoc. }
  pose proof Hp as Hp'. rewrite Heq in Hp'. apply is_path_snoc in Hp' as [Hl Huv].
  assert (Hcost : path_cost (graph s) path = path_cost (graph s) (l ++ [u])).
  { rewrite Heq, path_cost_snoc. pose proof (ecost_nonneg (V insts) _ _ u v Hwf Huv).
    destruct (decide (ecost (graph s) u v = 0)) as [-> |].
    - unfold lat_add. rewrite Z.add_0_r. by apply (path_cost_rounded (V insts) Hwf).
    - destruct (edge_cost_pos att s u v) as (_ & ? & _); [done..|lia|congruence]. }
  assert (Hlater : 8 < vt_idx (vtype v) -> False).
  { intros Hidx. destruct (last_costly att s path Hf Hp Hpos) as (l' & y & Hy & Hcy & Hhy & Hvy).
    enough (path_cost (graph s) (l' ++ [y]) < path_cost (graph s) path) by lia.
    apply (Hmin v _ y); [done|done|by rewrite last_snoc|done|].
    unfold VertexCompare. apply orb_true_iff. left. apply Z.ltb_lt.
    destruct (vtype y); simpl in *; lia || done. }
  pose proof Huv as (e & He & Hev). apply (framed_kind _ _ _ _ Hf) in He.
  destruct He as [i t t' _ Hpair -> Hc _|i j t t' _ _ _ _ _ _ Hsh _ Hc _|i j t t' _ _ _ _ _ _ Hj _ Hc _
    |i j t' _ _ _ _ _ Hj _ Hc _|i j _ _ _ _ _ _ Hc _]; rewrite Hc in Hev; subst v; simpl in *.
  - enough (path_cost (graph s) (l ++ [ev t i]) < path_cost (graph s) path) by lia.
    apply (Hmin (ev t' i) _ (ev t i)); [done|done|by rewrite last_snoc| |].
    + apply has_edge_verts in Huv. tauto.
    + unfold VertexCompare. apply orb_true_iff. left. apply Z.ltb_lt. simpl.
      by eapply chain_types_increasing.
  - congruence.
  - apply Hlater. by destruct t'.
  - apply Hlater. by destruct t'.
  - by apply Hlater.
Qed.

Lemma path_split (l : list Vertex) :
  (2 <= length l)%nat -> exists l' u v, l = l' ++ [u; v].
Proof. destruct l as [|x|l u v _] using path_ind; simpl; [lia..|]. eauto. Qed.

Lemma rne53_pos z : 0 < z -> 0 < rne53 z.
Proof. intros H. pose proof (rne53_mono 1 z). change (rne53 1) with 1 in *. lia. Qed.

(** The longest path starts where a costly edge starts and ends where one may
    end, in a later instruction than the first. *)
Lemma longest_ends att s path :
  Framed att s -> longest (graph s) path -> path <> [] ->
  exists w v rest, path = w :: rest /\ rest <> [] /\ skew_tail (vtype w) = true /\
    last path = Some v /\ skew_head (vtype v) = true /\ 1 < vseq v /\
    verts (graph s) w /\ verts (graph s) v.
Proof.
  intros Hf Hlg Hne. pose proof (inv_wf _ _ _ (fr_inv _ _ Hf)) as Hwf.
  pose proof Hlg as [Hp Hmax [->|(w & x & mid & Heq & Hpos)] _]; [done|]. subst path.
  pose proof Hp as [Hwx Hxp].
  destruct (edge_cost_pos att s w x Hf Hwx Hpos) as (Hw & _ & Hlt).
  destruct (path_split (w :: x :: mid)) as (l & u & v & E); [simpl; lia|]. rewrite E in *.
  assert (Hlast : last (l ++ [u; v]) = Some v).
  { change (l ++ [u; v]) with (l ++ [u] ++ [v]). by rewrite app_assoc, last_snoc. }
  pose proof Hp as [_ Huv]%is_path_snoc.
  exists w, v, (x :: mid). rewrite <- E at 1. split_and!; [done|done|done|done| | | |].
  - apply (longest_end att s (l ++ [u; v]) l u v); [done..|].
    eapply Z.lt_le_trans; [|apply (Hmax [w; x])]; [|done]. simpl. by apply rne53_pos.
  - pose proof (wf_has_edge _ Hwf _ _ Hwx) as ((j & t & Hj & _ & Hwj) & _).
    pose proof (numbered_range insts Hnum j Hj).
    assert (Hw1 : 1 <= vseq w) by (rewrite Hwj; simpl; lia).
    rewrite <- E in Hlast. change (last (w :: x :: mid)) with (last (x :: mid)) in Hlast.
    apply last_elem_of, elem_of_cons in Hlast as [->|Hin]; [lia|].
    assert (Hr : rank x < rank v).
    { apply (chain_increasing (has_edge (graph s)) rank mid); [|done|done].
      intros a b Hab. by apply (wf_has_edge _ Hwf) in Hab as (_ & _ & ?). }
    apply rank_seq_le in Hr. lia.
  - apply has_edge_verts in Hwx. tauto.
  - apply has_edge_verts in Huv. tauto.
Qed.

End critical.
