(* ===== verification/CompleteFacts.v ===== *)
(** * Completing the longest path

    [attach_source] and [attach_sink] extend a longest path to one that starts
    at the first fetch and ends at the last commit. *)

From S2P Require Import Prelude Machine OrderedMap External Instruction Bottleneck GraphDefs.
From S2P Require Import DegBuild GraphTheory Pipeline BuildFacts Induced LongestPath PathSearch.
From S2P Require Import TopoSort DistFacts LongestFacts SearchFacts InducedFacts CriticalFacts.

#[local] Open Scope list_scope.
#[local] Open Scope Z_scope.

(** The events after [t] in a chain. *)
Fixpoint after (t : VertexType) (l : list VertexType) : list VertexType :=
  match l with
  | [] => []
  | x :: l' => if decide (x = t) then l' else after t l'
  end.

Lemma chain_suffix i t :
  t ∈ chain_types i -> skew_head t = true ->
  exists ts, ts <> [] /\ NoDup ts /\ chain (fun a b => (a, b) ∈ pairs_of (chain_types i)) (t :: ts ++ [VT.C]).
Proof.
  intros Ht Hh. exists (removelast (after t (chain_types i))).
  assert (Hcase : t = VT.F1 \/ t = VT.R \/ t = VT.I \/ t = VT.DI) by (destruct t; auto; discriminate Hh).
  destruct Hcase as [->|[->|[->| ->]]]; cases_chain i; simpl in *;
    try (exfalso; set_solver); (split; [done|]); (split; [by apply (bool_decide_unpack _)|]);
    split_and!; try done; elem_here.
Qed.

Lemma is_path_join g l v l' :
  is_path g (l ++ [v]) -> is_path g (v :: l') -> is_path g (l ++ v :: l').
Proof.
  unfold is_path. intros H1 H2. rewrite chain_app in *. destruct H1 as (? & _ & ?). done.
Qed.

Section complete.
Context (insts : list RiscvInstruction) (Hnum : numbered insts) (q : Z).
Context `{B : Boost} `{HB : !BoostLaws B}.
Context (first final : RiscvInstruction).
Context (Hfirst : insts !! 0%nat = Some first) (Hfinal : last insts = Some final).

Abbreviation source := (source first).
Abbreviation sink := (sink final).
Abbreviation Framed := (Framed insts q).

(** ** The last instruction *)

Lemma horizontal_once g p u e1 e2 es :
  WfDeg (V insts) g p -> V insts u -> NoDup (horizontals g) -> children g u = e1 :: e2 :: es ->
  vseq u = vseq (child e1) -> child e1 <> child e2.
Proof.
  intros Hwf Hu Hnd Hch Hs Heq.
  pose proof (edges_from (V insts) g u (wf_gsorted _ _ _ Hwf) (wf_gkeys _ _ _ Hwf) Hu) as Hfr.
  rewrite Hch in Hfr. csimpl in Hfr. unfold horizontals in Hnd.
  rewrite <- (filter_app_complement (fun x => x.1 = u) (edges g)), Hfr in Hnd.
  cbn [app] in Hnd. rewrite !fmap_cons in Hnd.
  assert (Hd : forall e, child e = child e1 -> edge_pair (u, e) = (u, child e1)).
  { intros e He. unfold edge_pair. simpl. by rewrite He. }
  rewrite !Hd, !filter_cons_True in Hnd by done. apply NoDup_cons in Hnd as [Hn _]. set_solver.
Qed.

Lemma final_only_child s t t' :
  Framed true s -> (1 < length insts)%nat -> (t, t') ∈ pairs_of (chain_types final) ->
  only_child (graph s) (ev t final) (ev t' final).
Proof.
  intros Hf Hlen Hp. pose proof (fr_inv _ _ _ _ Hf) as Hs. pose proof (inv_wf _ _ _ Hs) as Hwf.
  pose proof (final_in insts final Hfinal) as Hin. pose proof (chain_types_pairs _ _ _ Hp) as [Ht _].
  assert (HV : V insts (ev t final)) by (by apply V_ev).
  set (u := ev t final) in *.
  assert (Hall : forall e, e ∈ children (graph s) u -> child e = ev t' final).
  { intros e He. apply (wf_children (V insts) Hwf u e HV), (framed_kind insts _ _ _ _ _ Hf) in He.
    pose proof (final_seq insts Hnum final Hfinal) as Hfs.
    assert (Hle : forall j, j ∈ insts -> inst_seq j <= inst_seq final).
    { intros j Hj. pose proof (numbered_range insts Hnum j Hj). lia. }
    destruct He as [i a b Hi Hab Hu Hc _|i j ? ? Hi Hj Hlt _ _ _ _ Hu _ _|i j ? ? Hi Hj Hlt _ _ _ _ Hu _ _
      |i j ? _ Hi Hj H1 _ _ Hu _ _|i j _ Hi Hj Hlt _ Hu _ _]; injection Hu as -> Hseq _ Hii.
    2,3,5: pose proof (Hle j Hj); subst i; lia.
    - subst i. rewrite Hc. by rewrite (chain_types_next_unique final a b t').
    - subst i. lia. }
  destruct (fr_chains _ _ _ _ Hf final t t' Hin Hp) as (e0 & He0 & _).
  apply (wf_children (V insts) Hwf u e0 HV) in He0.
  destruct (children (graph s) u) as [|e1 [|e2 es]] eqn:Ech; [set_solver| |exfalso].
  { exists e1. split; [done|]. apply Hall. set_solver. }
  apply (horizontal_once _ _ u e1 e2 es Hwf HV (inv_single _ _ _ Hs) Ech).
  - rewrite Hall by set_solver. done.
  - rewrite !Hall by set_solver. done.
Qed.

Lemma edges_verts s i t :
  Framed true s -> i ∈ insts -> t ∈ chain_types i -> verts (graph s) (ev t i).
Proof.
  intros Hf Hi Ht. destruct (decide (t = VT.C)) as [->|Hc].
  - destruct (chain_types_last i) as (a & Ha). by apply (has_edge_verts _ (ev a i)), (fr_chains _ _ _ _ Hf).
  - destruct (chain_types_next i t Ht Hc) as (b & Hb).
    by apply (has_edge_verts _ (ev t i) (ev b i)), (fr_chains _ _ _ _ Hf).
Qed.

(** From an event costly edges lead to, the last commit is found at once. *)
Lemma final_reaches_sink s t :
  Framed true s -> (1 < length insts)%nat -> t ∈ chain_types final -> skew_head t = true ->
  exists s', if_exist_path s (ev t final) sink = Ok (true, s') /\ obs (V insts) s s'.
Proof.
  intros Hf Hlen Ht Hh. pose proof (inv_wf _ _ _ (fr_inv _ _ _ _ Hf)) as Hwf.
  pose proof (final_in insts final Hfinal) as Hin.
  destruct (chain_suffix final t Ht Hh) as (ts & Hne & Hnd & Hch).
  assert (Hline : chain (only_child (graph s)) (ev t final :: ((fun x => ev x final) <$> ts) ++ [sink])).
  { change (ev t final :: ((fun x => ev x final) <$> ts) ++ [sink]) with
      (((fun x => ev x final) <$> (t :: ts)) ++ ((fun x => ev x final) <$> [VT.C])).
    rewrite <- fmap_app. apply chain_fmap. eapply chain_impl; [|exact Hch].
    intros a b _ _ Hab. by apply final_only_child. }
  assert (Hhead : forall x, x ∈ ts -> exists a, has_edge (graph s) (ev a final) (ev x final)).
  { intros x Hx. destruct (chain_pred _ _ _ x Hch) as (a & Ha); [set_solver|].
    exists a. by apply (fr_chains _ _ _ _ Hf). }
  set (s1 := set_graph s (touch (graph s) (ev t final))).
  assert (Ho : obs (V insts) s s1).
  { apply (obs_touch (V insts) s); [done|by apply V_ev|by apply edges_verts]. }
  unfold if_exist_path. fold s1.
  replace (_ <? _) with false by (symmetry; apply Z.ltb_ge; simpl; lia).
  apply (bfs_line (V insts) s sink _ s1 (ev t final) ((fun x => ev x final) <$> ts) []);
    [done|done|done|by intros ?%fmap_nil_inv|by apply NoDup_fmap_2; [intros a b [=]|]|set_solver| | |].
  - apply Forall_fmap, Forall_forall. intros x (a & Ha)%Hhead. simpl.
    apply has_edge_verts in Ha. tauto.
  - apply Forall_fmap, Forall_forall. simpl. lia.
  - etransitivity; [apply (NoDup_subset_length _ (heads (graph s1)))|].
    + by apply NoDup_fmap_2; [intros a b [=]|].
    + intros y (x & -> & (a & Ha)%Hhead)%list_elem_of_fmap. apply elem_of_heads. exists (ev a final).
      by apply (obs_has_edge (V insts) s s1).
    + rewrite heads_length. lia.
Qed.

(** ** The source *)

(** What an extension of the state keeps. *)
Lemma is_path_ext s s' l : Ext insts true s s' -> is_path (graph s) l -> is_path (graph s') l.
Proof. intros He. apply chain_impl. intros u v _ _. by eapply ext_has_edge. Qed.

Lemma first_earliest j t :
  trace_ok insts = true -> j ∈ insts -> t ∈ chain_types j -> timing source <= timing_of t j.
Proof.
  intros Hok Hj Ht. pose proof (first_in insts first Hfirst) as Hi.
  pose proof (first_seq insts Hnum first Hfirst) as H1.
  pose proof (ev_timing t j (trace_ok_ticks _ j Hok Hj) Ht). simpl.
  destruct (decide (inst_seq j = 1)) as [Hj1|Hj1].
  - rewrite (numbered_inj insts Hnum first j); [lia|done|done|lia].
  - pose proof (numbered_range insts Hnum j Hj).
    assert (Ho : in_order first j = true) by (apply (trace_ok_order insts); [done..|lia]).
    unfold in_order in Ho. bool_to_prop. lia.
Qed.

Lemma attach_source_ok s w rest v :
  Framed true s -> is_path (graph s) (w :: rest) -> skew_tail (vtype w) = true ->
  verts (graph s) w -> last (w :: rest) = Some v ->
  exists path s', attach_source s (w :: rest) = Ok (path, s') /\ Framed true s' /\
    is_path (graph s') path /\ head path = Some source /\ last path = Some v /\
    exists pre, path = pre ++ w :: rest.
Proof.
  intros Hf Hp Hw Hwv Hlast. pose proof (inv_wf _ _ _ (fr_inv _ _ _ _ Hf)) as Hwf.
  assert (Hsv : verts (graph s) source).
  { apply edges_verts; [done|by apply (first_in insts first Hfirst)|apply F1_in_chain]. }
  unfold attach_source. rewrite (get_source_ok insts Hnum q first Hfirst true s Hf). cbn [mbind res_bind].
  destruct (if_exist_path_ok (V insts) s source w Hwf Hsv) as (b & s1 & -> & Ho & Hb).
  cbn [mbind res_bind]. pose proof (framed_obs insts q true s s1 Ho Hf) as Hf1.
  destruct b; cbn [negb].
  - pose proof (inv_wf _ _ _ (fr_inv _ _ _ _ Hf1)) as Hwf1.
    destruct (find_path_ok (V insts) (S (S (num_edges (graph s1)))) s1 source w) as
      (b & pre & s2 & -> & Ho2 & Hfd).
    + done.
    + by apply (obs_verts_iff (V insts) s s1).
    + pose proof (ahead_le (graph s1) source). lia.
    + cbn [mbind res_bind]. destruct (Hb eq_refl) as (l & Hl).
      destruct b; simpl in Hfd; [|by destruct (Hfd l); apply (obs_is_path (V insts) s s1)].
      destruct Hfd as [Hpre Hh].
      eexists _, _. split; [done|]. split; [by eapply framed_obs|]. split_and!.
      * apply (obs_is_path (V insts) s1 s2); [done|]. apply is_path_join; [done|].
        by apply (obs_is_path (V insts) s s1).
      * by destruct pre.
      * rewrite last_app, Hlast. done.
      * eauto.
  - assert (HwV : V insts w) by (by apply (verts_in (V insts) s)).
    destruct HwV as (j & t & Hj & Ht & ->).
    destruct (add_virtual_edge_gen insts Hnum true s1 source (ev t j)) as (He & Hedge & _).
    + apply Hf1.
    + intros Heq. injection Heq as <-. done.
    + apply V_ev; [by apply (first_in insts first Hfirst)|apply F1_in_chain].
    + intros x. apply (FromSource _ _ _ _ first j t); try done.
      * by apply (first_in insts first Hfirst).
      * by apply (first_seq insts Hnum first Hfirst).
    + intros Hok. by apply first_earliest.
    + eexists _, _. split; [done|]. split; [by eapply framed_ext|].
      split_and!; [|done|done|by exists [source]]. split; [done|]. apply (is_path_ext s1); [done|]. by apply (obs_is_path (V insts) s s1).
Qed.

(** ** The sink *)

(** Outside the first fetch, the edges inside an instruction follow its chain. *)
Lemma same_inst_child s i t e :
  Framed true s -> i ∈ insts -> 1 < inst_seq i -> (ev t i, e) ∈ edges (graph s) ->
  vseq (child e) = inst_seq i ->
  exists t', child e = ev t' i /\ (t, t') ∈ pairs_of (chain_types i).
Proof.
  intros Hf Hi H1 He Hs. apply (framed_kind insts _ _ _ _ _ Hf) in He.
  destruct He as [j a b Hj Hab Hu Hc _|j k ? ? Hj Hk Hlt _ _ _ _ Hu Hc _|j k ? ? Hj Hk Hlt _ _ _ _ Hu Hc _
    |j k ? _ Hj Hk Hj1 _ _ Hu Hc _|j k _ Hj Hk Hlt _ Hu Hc _]; injection Hu as -> _ _ ->;
    rewrite Hc in Hs; simpl in Hs; [eauto|lia..].
Qed.

Lemma to_sink_ok s i :
  Framed true s -> i ∈ insts -> inst_seq i < inst_seq final ->
  let s' := add_virtual_edge s (ev VT.C i) sink in
  Ext insts true s s' /\ has_edge (graph s') (ev VT.C i) sink.
Proof.
  intros Hf Hi Hlt. pose proof (final_in insts final Hfinal) as Hin.
  destruct (add_virtual_edge_gen insts Hnum true s (ev VT.C i) sink) as (? & ? & _); [..|by split].
  - apply Hf.
  - intros Heq. injection Heq as Heq _ _. lia.
  - apply V_ev; [done|apply C_in_chain].
  - intros w. apply (ToSink _ _ _ _ i final); try done. by apply (final_seq insts Hnum).
  - intros Hok. simpl. assert (Ho : in_order i final = true) by (by apply (trace_ok_order insts)).
    unfold in_order in Ho. by bool_to_prop.
Qed.

Lemma from_c_to_sink_ok fuel s i t :
  Framed true s -> i ∈ insts -> t ∈ chain_types i -> t <> VT.C -> 1 < inst_seq i ->
  inst_seq i < inst_seq final -> (ahead (graph s) (ev t i) < fuel)%nat ->
  exists path s', from_c_to_sink fuel s (ev t i) sink = Ok (true, ev t i :: path, s') /\
    Framed true s' /\ (forall u v, has_edge (graph s) u v -> has_edge (graph s') u v) /\
    is_path (graph s') (ev t i :: path ++ [sink]).
Proof.
  revert s t. induction fuel as [|fuel IH]; intros s t Hf Hi Ht Hc H1 Hlt Hfuel; [lia|].
  pose proof (inv_wf _ _ _ (fr_inv _ _ _ _ Hf)) as Hwf. cbn [from_c_to_sink].
  assert (HV : V insts (ev t i)) by (by apply V_ev).
  set (s1 := set_graph s (touch (graph s) (ev t i))).
  assert (Ho : obs (V insts) s s1).
  { apply (obs_touch (V insts) s); [done|done|by apply edges_verts]. }
  assert (Hf1 : Framed true s1) by (by eapply framed_obs).
  assert (Hedge : forall u v, has_edge (graph s) u v -> has_edge (graph s1) u v).
  { intros u v. by apply (obs_has_edge (V insts) s s1). }
  destruct (List.find _ _) as [e|] eqn:Efind.
  2:{ exfalso. destruct (chain_types_next i t Ht Hc) as (t' & Hp).
      destruct (fr_chains _ _ _ _ Hf i t t' Hi Hp) as (e & He & Hce).
      apply (wf_children (V insts) Hwf _ e HV), list_elem_of_In, (List.find_none _ _ Efind) in He.
      rewrite Hce in He. simpl in He. by rewrite Z.eqb_refl in He. }
  apply List.find_some in Efind as [He%list_elem_of_In Hs]. apply Z.eqb_eq in Hs.
  apply (wf_children (V insts) Hwf _ e HV) in He.
  destruct (same_inst_child s i t e Hf Hi H1 He Hs) as (t' & Hct & Hp).
  assert (Hstep : has_edge (graph s) (ev t i) (ev t' i)) by (exists e; done).
  rewrite Hct. cbn [vtype ev]. destruct (bool_decide (t' = VT.C)) eqn:Et; bool_to_prop.
  - subst t'. destruct (to_sink_ok s1 i Hf1 Hi Hlt) as [He2 Hsink].
    eexists [_], _. split; [done|]. split; [by eapply framed_ext|]. split.
    + intros u v Huv. eapply ext_has_edge; [done|]. by apply Hedge.
    + split; [|by split]. eapply ext_has_edge; [done|]. by apply Hedge.
  - destruct (IH s1 t') as (path & s2 & -> & Hf2 & He2 & Hp2); [done|done| |done|done|done| |].
    + by apply chain_types_pairs in Hp as [_ ?].
    + rewrite (ahead_perm _ (graph s)) by apply Ho.
      pose proof (ahead_lt (V insts) _ _ _ _ Hwf Hstep). lia.
    + cbn [mbind res_bind]. eexists (_ :: path), _. split; [done|]. split; [done|].
      split; [by auto|]. split; [|done]. by apply He2, Hedge.
Qed.

(** What the search for the sink delivers, by whichever way. *)
Lemma reach_sink_ok s t i :
  Framed true s -> i ∈ insts -> t ∈ chain_types i -> skew_head t = true -> 1 < inst_seq i ->
  exists b s1 b' post s2, if_exist_path s (ev t i) sink = Ok (b, s1) /\
    (if negb b then from_c_to_sink (S (S (num_edges (graph s1)))) s1 (ev t i) sink
     else find_path (S (S (num_edges (graph s1)))) s1 (ev t i) sink) = Ok (b', ev t i :: post, s2) /\
    Framed true s2 /\ (forall u v, has_edge (graph s) u v -> has_edge (graph s2) u v) /\
    is_path (graph s2) (ev t i :: post ++ [sink]).
Proof.
  intros Hf Hi Ht Hh H1. pose proof (inv_wf _ _ _ (fr_inv _ _ _ _ Hf)) as Hwf.
  pose proof (edges_verts s i t Hf Hi Ht) as Hv.
  destruct (if_exist_path_ok (V insts) s (ev t i) sink Hwf Hv) as (b & s1 & Hb1 & Ho & Hb).
  pose proof (framed_obs insts q true s s1 Ho Hf) as Hf1.
  pose proof (inv_wf _ _ _ (fr_inv _ _ _ _ Hf1)) as Hwf1.
  pose proof (ahead_le (graph s1) (ev t i)).
  assert (Hedge : forall u v, has_edge (graph s) u v -> has_edge (graph s1) u v).
  { intros u v. by apply (obs_has_edge (V insts) s s1). }
  exists b, s1. rewrite Hb1. destruct b; cbn [negb].
  - destruct (find_path_ok (V insts) (S (S (num_edges (graph s1)))) s1 (ev t i) sink)
      as (b' & pre & s2 & -> & Ho2 & Hfd); [done|by apply (obs_verts_iff (V insts) s s1)|lia|].
    destruct (Hb eq_refl) as (l & Hl). destruct b'; simpl in Hfd;
      [|by destruct (Hfd l); apply (obs_is_path (V insts) s s1)].
    destruct Hfd as [Hpre Hhd]. destruct pre as [|x pre]; [done|]. injection Hhd as ->.
    eexists _, _, _. split; [done|]. split; [done|]. split; [by eapply framed_obs|]. split.
    + intros u v Huv. by apply (obs_has_edge (V insts) s1 s2), Hedge.
    + by apply (obs_is_path (V insts) s1 s2).
  - pose proof (numbered_range insts Hnum i Hi). pose proof (final_seq insts Hnum final Hfinal).
    assert (Hlt : inst_seq i < inst_seq final).
    { destruct (decide (inst_seq i = inst_seq final)) as [Heq|]; [|lia]. exfalso.
      apply (numbered_inj insts Hnum) in Heq; [|done|by apply (final_in insts)]. subst i.
      destruct (final_reaches_sink s t Hf) as (s' & Hs' & _); [lia|done|done|]. congruence. }
    destruct (from_c_to_sink_ok (S (S (num_edges (graph s1)))) s1 i t) as (path & s2 & -> & Hf2 & He2 & Hp2);
      [done|done|done|by intros ->|done|done|lia|].
    eexists _, _, _. split; [done|]. split; [done|]. split; [done|]. split; [by auto|done].
Qed.

Lemma attach_sink_ok s path v :
  q = Z.of_nat (length insts) -> Framed true s -> is_path (graph s) path -> last path = Some v ->
  V insts v -> skew_head (vtype v) = true -> 1 < vseq v ->
  exists path' s', attach_sink s path = Ok (path', s') /\ Framed true s' /\
    is_path (graph s') path' /\ head path' = head path /\ last path' = Some sink /\
    exists post, path' = path ++ post.
Proof.
  intros Hq Hf Hp Hlast (i & t & Hi & Ht & ->) Hh H1. simpl in Hh, H1.
  unfold attach_sink. rewrite (get_sink_ok insts Hnum q final Hfinal true s Hf Hq). cbn [mbind res_bind].
  rewrite Hlast.
  destruct (reach_sink_ok s t i) as (b & s1 & b' & post & s2 & -> & Hpost & Hf2 & He2 & Hp2); [done..|].
  cbn [mbind res_bind]. rewrite Hpost. cbn [mbind res_bind drop_first].
  eexists _, _. split; [done|]. split; [done|].
  apply last_Some in Hlast as [l ->]. rewrite <- app_assoc. split_and!.
  - apply is_path_join; [|done]. eapply chain_impl; [|exact Hp]. auto.
  - by destruct l.
  - simpl. rewrite app_comm_cons, app_assoc. by rewrite last_snoc.
  - exists (post ++ [sink]). by rewrite <- app_assoc.
Qed.

(** ** The whole path *)

Lemma longest_path_impl_ok s :
  q = Z.of_nat (length insts) -> Inv insts false s -> Framed false s ->
  (exists u v, has_edge (graph s) u v /\ 0 < ecost (graph s) u v) ->
  exists path s', longest_path_impl s = Ok (path, s') /\ Framed true s' /\
    is_path (graph s') path /\ head path = Some source /\ last path = Some sink /\
    exists pre mid post, path = pre ++ mid ++ post /\ longest (graph s) mid.
Proof.
  intros Hq Hs Hf (a & b & Hab & Hpos). pose proof (inv_wf _ _ _ Hs) as Hwf.
  unfold longest_path_impl.
  destruct (longest_path_core_ok (V insts) s) as (path & s1 & -> & Ho & Hlg); [done|by apply Hs| |].
  { intros Hnil. destruct Hab as (e & He & _). rewrite Hnil in He. set_solver. }
  cbn [mbind res_bind].
  destruct (longest_ends insts Hnum q false s path Hf Hlg) as (w & v & rest & -> & _ & Hw & Hlast & Hv & H1 & Hwv & Hvv).
  { intros ->. pose proof (lg_max _ _ Hlg [a; b]) as Hmax. simpl in Hmax.
    pose proof (rne53_pos (ecost (graph s) a b) Hpos). unfold lat_add in Hmax.
    rewrite Z.add_0_l in Hmax. specialize (Hmax (conj Hab I)). lia. }
  pose proof (framed_obs insts q false s s1 Ho Hf) as Hf1.
  destruct (attach_source_ok s1 w rest v) as (p2 & s2 & -> & Hf2 & Hp2 & Hh2 & Hl2 & pre & ->); [done| |done| |done|].
  { apply (obs_is_path (V insts) s s1); [done|]. apply Hlg. }
  { by apply (obs_verts_iff (V insts) s s1). }
  cbn [mbind res_bind].
  destruct (attach_sink_ok s2 (pre ++ w :: rest) v) as (p3 & s3 & -> & Hf3 & Hp3 & Hh3 & Hl3 & post & ->); [done..| |done|done|].
  { by apply (verts_in (V insts) s). }
  eexists _, _. split; [done|]. split; [done|]. split; [done|].
  split; [by rewrite Hh3|]. split; [done|]. exists pre, (w :: rest), post. by rewrite <- app_assoc.
Qed.

End complete.
