(* ===== verification/AnalyzeFacts.v ===== *)
(** * The report adds up

    Marking the critical edges changes nothing the profile reads; the weights
    along the critical path telescope to the time between the first fetch and
    the last commit, which is what [profiling_critical_path] asserts. *)

From S2P Require Import Prelude Machine OrderedMap External Instruction Bottleneck GraphDefs.
From S2P Require Import DegBuild GraphTheory Pipeline BuildFacts InteractFacts Induced LongestPath.
From S2P Require Import PathSearch Analyze TopoSort DistFacts LongestFacts SearchFacts InducedFacts.
From S2P Require Import CriticalFacts CompleteFacts.

#[local] Open Scope string_scope.
#[local] Open Scope list_scope.
#[local] Open Scope Z_scope.

(** ** Marking *)

Lemma om_upd_split {A} v (x : A) (m : list (Vertex * A)) :
  om_find VertexCompare v m = Some x ->
  exists m1 k m2, m = m1 ++ (k, x) :: m2 /\
    forall f, om_upd VertexCompare v f m = m1 ++ (k, f (Some x)) :: m2.
Proof.
  induction m as [|[k y] m IH]; simpl; [done|].
  destruct (VertexCompare k v) eqn:E1; [|destruct (VertexCompare v k) eqn:E2; [done|]].
  - intros (m1 & k' & m2 & -> & Hf)%IH. exists ((k, y) :: m1), k', m2.
    split; [done|]. intros f. by rewrite Hf.
  - intros [= ->]. by exists [], k, m.
Qed.

Definition same_but_mark (e e' : OutgoingEdge) : Prop := e' = e \/ e' = mask_critical e.

Definition marked (x x' : Vertex * OutgoingEdge) : Prop :=
  x.1 = x'.1 /\ same_but_mark x.2 x'.2.

Lemma mask_first_marks c es : Forall2 same_but_mark es (mask_first c es).
Proof.
  induction es as [|e es IH]; simpl; [constructor|].
  case_match; constructor; [by right| |by left|done].
  clear. induction es; constructor; [by left|done].
Qed.

Lemma Forall2_marks_edges u es es' :
  Forall2 same_but_mark es es' ->
  Forall2 marked
    ((fun e => (u, e)) <$> es) ((fun e => (u, e)) <$> es').
Proof. intros H. apply Forall2_fmap. eapply Forall2_impl; [exact H|]. done. Qed.

Lemma Forall2_refl_marks (L : list (Vertex * OutgoingEdge)) :
  Forall2 marked L L.
Proof. induction L; constructor; [split; [done|by left]|done]. Qed.

Lemma mask_first_find v y es :
  List.find (fun e => Vertex_eqb (child e) y) (mask_first v es) =
  if decide (y = v) then mask_critical <$> List.find (fun e => Vertex_eqb (child e) v) es
  else List.find (fun e => Vertex_eqb (child e) y) es.
Proof.
  induction es as [|e es IH]; simpl; [by case_decide|].
  destruct (Vertex_eqb (child e) v) eqn:Ev; simpl.
  - apply Vertex_eqb_eq in Ev. subst v. case_decide as Hd.
    + subst y. by rewrite Vertex_eqb_refl.
    + by rewrite (proj2 (Vertex_eqb_neq (child e) y)) by done.
  - rewrite IH. destruct (Vertex_eqb (child e) y) eqn:Ey; [|done].
    apply Vertex_eqb_eq in Ey. subst y. apply Vertex_eqb_neq in Ev.
    by rewrite decide_False.
Qed.

(** ** Counters *)

Lemma bottleneck_index_of b :
  bottleneck_index register_bottlenecks (__repr__ (bottleneck_of b)) = Some b.
Proof. by destruct b. Qed.

Definition counters_ok (r : BottleneckReport) : Prop := forall b, 0 <= counter r b.

Lemma foldr_sum_ge (f : BIdx -> Z) b l :
  (forall x, 0 <= f x) -> b ∈ l -> f b <= foldr (fun x acc => f x + acc) 0 l.
Proof.
  intros Hf. assert (H0 : forall l, 0 <= foldr (fun x acc => f x + acc) 0 l).
  { induction l0 as [|x l0 IH]; simpl; [lia|]. specialize (Hf x). lia. }
  induction l as [|x l IH]; [set_solver|]. simpl. pose proof (Hf x). specialize (H0 l).
  intros [->|Hb]%elem_of_cons; [lia|]. specialize (IH Hb). lia.
Qed.

Lemma counter_le_total r b : counters_ok r -> counter r b <= counters_total r.
Proof. intros Hr. apply foldr_sum_ge; [done|apply all_BIdx_complete]. Qed.

Lemma bump_ok b r d :
  counters_ok r -> 0 <= d -> counters_total r + d <= 2 ^ 53 ->
  counters_ok (bump b r d) /\ counters_total (bump b r d) = counters_total r + d.
Proof.
  intros Hr Hd Hle. pose proof (counter_le_total r b Hr). split.
  - intros x. simpl. case_decide; [|apply Hr]. apply lat_add_nonneg; [apply Hr|done].
  - apply counters_total_bump; [apply Hr|done|lia].
Qed.

(** Elapsed time over a list of edges. *)
Definition elapsed (ps : list (Vertex * Vertex)) : Z :=
  foldr (fun p acc => (timing p.2 - timing p.1) + acc) 0 ps.

Section analyze.
Context (insts : list RiscvInstruction) (Hnum : numbered insts) (q : Z).
Context `{B : Boost} `{HB : !BoostLaws B}.

Lemma same_but_mark_child e e' : same_but_mark e e' -> child e' = child e.
Proof. by intros [->| ->]. Qed.

Lemma same_but_mark_good u e e' :
  same_but_mark e e' -> good_edge insts true u e -> good_edge insts true u e'.
Proof.
  intros [->| ->]; [done|]. intros [Hk Hr Hn Hw]. split; [|done|done|done].
  destruct Hk as [i t t'|i j t t'|i j t t'|i j t'|i j].
  - by apply (Horizontal _ _ _ _ i t t').
  - by apply (Skewed _ _ _ _ i j t t').
  - by apply (Bridge _ _ _ _ i j t t').
  - by apply (FromSource _ _ _ _ i j t').
  - by apply (ToSink _ _ _ _ i j).
Qed.

(** A graph whose edges differ in their marks only. *)
Lemma framed_marks s g' :
  Framed insts q true s -> om_keys g' = om_keys (graph s) ->
  Forall2 marked (edges (graph s)) (edges g') ->
  Framed insts q true (set_graph s g') /\ forall u v, has_edge g' u v <-> has_edge (graph s) u v.
Proof.
  intros [Hs Hc Hq] Hk Hm. pose proof (inv_wf _ _ _ Hs) as [W1 W2 W3 W4 W5 W6].
  assert (Hpair : edge_pair <$> edges g' = edge_pair <$> edges (graph s)).
  { clear -Hm. induction Hm as [|[u e] [u' e'] L L' [Hu He] _ IH]; [done|]. csimpl.
    rewrite IH. simpl in *. subst. unfold edge_pair. simpl. by rewrite (same_but_mark_child e e'). }
  assert (Hgood : Forall (fun x => good_edge insts true x.1 x.2) (edges g')).
  { pose proof (inv_edges _ _ _ Hs) as Hg. clear -Hm Hg.
    induction Hm as [|x x' L L' [Hu He] _ IH]; [constructor|].
    apply Forall_cons in Hg as [Hx Hg]. constructor; [|by apply IH].
    rewrite <- Hu. by eapply same_but_mark_good. }
  assert (Hedge : forall u v, has_edge g' u v <-> has_edge (graph s) u v).
  { intros u v. rewrite <- !elem_of_edge_pairs. by rewrite Hpair. }
  split; [|done]. split; [split|..]; simpl; try done.
  - split; try done; [unfold om_sorted; by rewrite Hk|by rewrite Hk| |by rewrite Hpair].
    eapply Forall_impl; [exact Hgood|]. simpl. intros x Hx.
    pose proof (edge_kind_ends insts Hnum true _ _ (ge_kind _ _ _ _ Hx)) as (_ & ? & ?).
    split_and!; [done|done|by eapply good_edge_cost].
  - unfold horizontals. rewrite Hpair. apply Hs.
  - apply Hs.
  - apply Hs.
  - intros i t t' Hi Hp. by apply Hedge, Hc.
Qed.

Lemma mask_edge_ok s u v :
  Framed insts q true s -> has_edge (graph s) u v ->
  exists s', mask_edge s (u, v) = Ok s' /\ Framed insts q true s' /\
    forall x y, has_edge (graph s') x y <-> has_edge (graph s) x y.
Proof.
  intros Hf Huv. unfold mask_edge. cbn [fst snd].
  pose proof (inv_wf _ _ _ (fr_inv _ _ _ _ Hf)) as Hwf.
  destruct (get_outgoing_edge_ok (V insts) s u v Hwf Huv) as (e & s1 & -> & Ho & _).
  cbn [mbind res_bind]. eexists. split; [done|].
  pose proof (framed_obs insts q true s s1 Ho Hf) as Hf1.
  assert (Huv1 : has_edge (graph s1) u v) by (by apply (obs_has_edge (V insts) s s1)).
  pose proof (inv_wf _ _ _ (fr_inv _ _ _ _ Hf1)) as Hwf1.
  pose proof (wf_has_edge _ Hwf1 _ _ Huv1) as (HuV & _ & _).
  destruct Huv1 as (e' & He' & _). apply elem_of_edges in He' as (es & Hes & _).
  apply (om_find_vset (V insts) (graph s1) u es) in Hes; [|apply Hwf1..|done].
  destruct (om_upd_split u es (graph s1) Hes) as (m1 & k & m2 & Hg & Hupd).
  rewrite Hupd. cbn [default].
  destruct (framed_marks s1 (m1 ++ (k, mask_first v es) :: m2) Hf1) as [Hf2 He2].
  - rewrite Hg. unfold om_keys. by rewrite !fmap_app.
  - rewrite Hg, !edges_app, !edges_cons. apply Forall2_app; [apply Forall2_refl_marks|].
    apply Forall2_app; [|apply Forall2_refl_marks]. apply Forall2_marks_edges, mask_first_marks.
  - split; [done|]. intros x y. simpl. rewrite He2. by apply (obs_has_edge (V insts) s s1).
Qed.

(** Exactly the first edge between the two vertices is marked. *)
Lemma mask_edge_marks s u v s' x y :
  Framed insts q true s -> has_edge (graph s) u v -> mask_edge s (u, v) = Ok s' -> V insts x ->
  edge_to (graph s') x y =
  if decide (x = u /\ y = v) then mask_critical <$> edge_to (graph s) u v else edge_to (graph s) x y.
Proof.
  intros Hf Huv Hm Hx. unfold mask_edge in Hm. cbn [fst snd] in Hm.
  pose proof (inv_wf _ _ _ (fr_inv _ _ _ _ Hf)) as Hwf.
  pose proof (wf_has_edge _ Hwf _ _ Huv) as (Hu & _ & _).
  destruct (get_outgoing_edge_ok (V insts) s u v Hwf Huv) as (e & s1 & Hs1 & Ho & _).
  rewrite Hs1 in Hm. cbn [mbind res_bind] in Hm. injection Hm as <-.
  pose proof (obs_wf _ _ _ Ho) as Hwf1. unfold edge_to, children. simpl.
  pose proof (obs_children _ _ _ Ho) as Hch. unfold children in Hch.
  destruct (decide (x = u)) as [->|Hne].
  - rewrite (om_find_upd_same VertexCompare u u) by (by apply VertexCompare_equiv). simpl.
    rewrite Hch, mask_first_find.
    destruct (decide (y = v)) as [->|]; [by rewrite decide_True|by rewrite decide_False by tauto].
  - rewrite (om_find_upd_other VertexCompare u x); [|apply Hwf1|].
    + rewrite Hch, decide_False by tauto. done.
    + intros Heq. by apply Hne, (vset_equiv (V insts)).
Qed.

Definition is_critical (s : O3Graph) (p : Vertex * Vertex) : Prop :=
  exists e, edge_to (graph s) p.1 p.2 = Some e /\ critical e = true.

Lemma mask_fold_marks ps s s' :
  Framed insts q true s -> Forall (fun p => has_edge (graph s) p.1 p.2) ps ->
  res_fold mask_edge s ps = Ok s' ->
  Forall (is_critical s') ps /\
  (forall p, V insts p.1 -> is_critical s p -> is_critical s' p) /\
  (forall p, V insts p.1 -> p ∉ ps -> edge_to (graph s') p.1 p.2 = edge_to (graph s) p.1 p.2).
Proof.
  revert s. induction ps as [|[u v] ps IH]; intros s Hf Hps Hm; simpl in Hm.
  { injection Hm as <-. split; [constructor|done]. }
  apply Forall_cons in Hps as [Huv Hps]. simpl in Huv.
  destruct (mask_edge_ok s u v Hf Huv) as (s1 & Hs1 & Hf1 & Hiff).
  rewrite Hs1 in Hm. cbn [mbind res_bind] in Hm.
  pose proof (fun x y => mask_edge_marks s u v s1 x y Hf Huv Hs1) as Hmark.
  pose proof (inv_wf _ _ _ (fr_inv _ _ _ _ Hf)) as Hwf.
  pose proof (wf_has_edge _ Hwf _ _ Huv) as (Hu & _ & _).
  destruct (IH s1 Hf1) as (H1 & H2 & H3); [|done|].
  { eapply Forall_impl; [exact Hps|]. intros p. by apply Hiff. }
  destruct (edge_to_spec (V insts) _ _ u v Hwf Huv) as (e & He & _).
  assert (Hcuv : is_critical s1 (u, v)).
  { exists (mask_critical e). simpl. rewrite Hmark, decide_True, He by done. done. }
  split_and!.
  - constructor; [by apply H2|done].
  - intros [x y] Hx Hc. apply H2; [done|]. destruct (decide ((x, y) = (u, v))) as [[= -> ->]|Hne]; [done|].
    destruct Hc as (e' & He' & Hc). exists e'. simpl in *. rewrite Hmark by done.
    rewrite decide_False by naive_solver. done.
  - intros [x y] Hx Hni. apply not_elem_of_cons in Hni as [Hne Hni]. simpl in *.
    pose proof (H3 (x, y) Hx Hni) as Hxy. simpl in Hxy. rewrite Hxy, Hmark by done.
    by rewrite decide_False by naive_solver.
Qed.

Lemma mask_edges_ok s path :
  Framed insts q true s -> is_path (graph s) path ->
  exists s', res_fold mask_edge s (pairs_of path) = Ok s' /\ Framed insts q true s' /\
    is_path (graph s') path /\ Forall (is_critical s') (pairs_of path) /\
    forall p, V insts p.1 -> p ∉ pairs_of path ->
      edge_to (graph s') p.1 p.2 = edge_to (graph s) p.1 p.2.
Proof.
  intros Hf Hp. pose proof (mask_fold_marks (pairs_of path) s) as Hmarks.
  destruct (res_fold_inv (fun s => Framed insts q true s /\ is_path (graph s) path) mask_edge
    (pairs_of path) s) as (s' & Hs' & ? & ?); [done| |].
  2:{ exists s'. split; [done|]. split; [done|]. split; [done|].
      destruct (Hmarks s' Hf) as (? & _ & ?); [by apply pairs_of_chain|done|done]. }
  intros s1 [u v] Huv [Hf1 Hp1].
  assert (He : has_edge (graph s1) u v).
  { unfold is_path in Hp1. rewrite pairs_of_chain, Forall_forall in Hp1. by apply (Hp1 (u, v)). }
  destruct (mask_edge_ok s1 u v Hf1 He) as (s2 & -> & Hf2 & Hiff). eexists. split; [done|].
  split; [done|]. eapply chain_impl; [|exact Hp1]. intros x y _ _. by apply Hiff.
Qed.

(** ** Profiling *)

(** The edge read for a pair of the path, under a trace whose times are right. *)
Lemma read_edge_ok s u v :
  trace_ok insts = true -> Framed insts q true s -> has_edge (graph s) u v ->
  exists e s', get_outgoing_edge s u v = Ok (e, s') /\ obs (V insts) s s' /\
    Framed insts q true s' /\ weight e = timing v - timing u /\ timing u <= timing v /\
    (exists b, bottleneck e = bottleneck_of b) /\ edge_to (graph s) u v = Some e.
Proof.
  intros Hok Hf Huv. pose proof (inv_wf _ _ _ (fr_inv _ _ _ _ Hf)) as Hwf.
  destruct (get_outgoing_edge_ok (V insts) s u v Hwf Huv) as (e & s1 & -> & Ho & He).
  destruct (edge_to_spec (V insts) _ _ u v Hwf Huv) as (e' & He' & Hv & Hin).
  rewrite He in He'. injection He' as <-.
  pose proof (proj1 (Forall_forall _ _) (inv_edges _ _ _ (fr_inv _ _ _ _ Hf)) _ Hin) as [_ Hr _ Hw].
  destruct (Hw Hok) as [Hle Heq]. simpl in *. subst v.
  eexists _, _. split; [done|]. split; [done|]. split; [by eapply framed_obs|]. done.
Qed.

Lemma profile_edges_ok ps s r len :
  trace_ok insts = true -> Framed insts q true s ->
  Forall (fun p => has_edge (graph s) p.1 p.2) ps ->
  counters_ok r -> counters_total r = len -> 0 <= len -> len + elapsed ps <= 2 ^ 53 ->
  exists r' s', profile_edges s r len ps = Ok (r', len + elapsed ps, s') /\
    obs (V insts) s s' /\ Framed insts q true s' /\ counters_ok r' /\
    counters_total r' = len + elapsed ps.
Proof.
  intros Hok. revert s r len. induction ps as [|[u v] ps IH]; intros s r len Hf Hps Hr Ht Hl Hle.
  { exists r, s. simpl. rewrite Z.add_0_r. split; [done|]. split; [apply obs_refl, Hf|done]. }
  apply Forall_cons in Hps as [Huv Hps]. simpl in Huv. cbn [profile_edges fst snd].
  destruct (read_edge_ok s u v Hok Hf Huv) as (e & s1 & -> & Ho & Hf1 & Hw & Htm & (b & Hb) & _).
  cbn [mbind res_bind]. rewrite (inv_bottlenecks _ _ _ (fr_inv _ _ _ _ Hf1)), Hb, bottleneck_index_of.
  assert (Hel : forall qs, Forall (fun p => has_edge (graph s) p.1 p.2) qs -> 0 <= elapsed qs).
  { intros qs Hqs. induction Hqs as [|[x y] qs Hxy _ IHq]; simpl; [lia|].
    destruct (read_edge_ok s x y Hok Hf Hxy) as (_ & _ & _ & _ & _ & _ & ? & _). simpl in *. lia. }
  pose proof (Hel ps Hps) as Hps0.
  change (elapsed ((u, v) :: ps)) with ((timing v - timing u) + elapsed ps) in *.
  rewrite Hw, incr_by_bump. destruct (bump_ok b r (timing v - timing u) Hr) as [Hr1 Ht1]; [lia|lia|].
  rewrite (lat_add_exact len) by lia.
  destruct (IH s1 (bump b r (timing v - timing u)) (len + (timing v - timing u)))
    as (r' & s2 & Heq & Ho2 & Hf2 & Hr2 & Ht2); [done| |done|lia|lia|lia|].
  { eapply Forall_impl; [exact Hps|]. intros [x y]. simpl. by apply (obs_has_edge (V insts) s s1). }
  exists r', s2. rewrite Heq. split; [do 3 f_equal; lia|]. split; [by eapply obs_trans|].
  split; [done|]. split; [done|lia].
Qed.

(** ** The report *)

(** The lines of the report: one per edge of the path, one per bottleneck. *)
Definition path_line (g : deg_t) (p : Vertex * Vertex) : string :=
  match edge_to g p.1 p.2 with
  | Some e => vertex_repr p.1 +:+ " => " +:+ vertex_repr p.2 +:+ tab +:+ ": " +:+
      __repr__ (bottleneck e) +:+ tab +:+ show_latency (weight e)
  | None => ""
  end.
Definition counter_line (r : BottleneckReport) (b : BIdx) : string :=
  __repr__ (bottleneck_of b) +:+ ": " +:+ show_latency (counter r b).
Definition report_lines (g : deg_t) (r : BottleneckReport) (path : list Vertex) : list string :=
  ("critical path: " +:+ show_latency (get_length r)) :: (path_line g <$> pairs_of path) ++
  ["" ; "bottleneck: "] ++ (counter_line r <$> all_BIdx).

Lemma report_path_ok ps s :
  trace_ok insts = true -> Framed insts q true s ->
  Forall (fun p => has_edge (graph s) p.1 p.2) ps ->
  exists s', report_path s ps = Ok (path_line (graph s) <$> ps, s') /\ obs (V insts) s s' /\
    Framed insts q true s'.
Proof.
  intros Hok. revert s. induction ps as [|[u v] ps IH]; intros s Hf Hps.
  { exists s. split; [done|]. split; [apply obs_refl, Hf|done]. }
  apply Forall_cons in Hps as [Huv Hps]. simpl in Huv. cbn [report_path fst snd].
  destruct (read_edge_ok s u v Hok Hf Huv) as (e & s1 & -> & Ho & Hf1 & _ & _ & _ & He).
  cbn [mbind res_bind].
  destruct (IH s1) as (s2 & -> & Ho2 & Hf2); [done| |].
  { eapply Forall_impl; [exact Hps|]. intros [x y]. simpl. by apply (obs_has_edge (V insts) s s1). }
  cbn [mbind res_bind]. exists s2. split; [|split; [by eapply obs_trans|done]].
  cbn [fmap list_fmap]. unfold path_line at 2. cbn [fst snd]. rewrite He. do 3 f_equal.
  apply list_fmap_ext. intros _ [x y] _. unfold path_line, edge_to. by rewrite (obs_children _ _ _ Ho).
Qed.

Lemma report_counters_ok r :
  report_counters register_bottlenecks r register_bottlenecks = Ok (counter_line r <$> all_BIdx).
Proof. reflexivity. Qed.

Lemma generate_report_ok s r path :
  trace_ok insts = true -> Framed insts q true s -> is_path (graph s) path ->
  exists s', generate_report s r path = Ok s' /\ is_path (graph s') path /\
    (forall u, children (graph s') u = children (graph s) u) /\
    report_file s' = Some (report_lines (graph s') r path).
Proof.
  intros Hok Hf Hp. unfold generate_report.
  destruct (report_path_ok (pairs_of path) s) as (s1 & -> & Ho & Hf1); [done|done| |].
  { by apply pairs_of_chain. }
  cbn [mbind res_bind]. rewrite (inv_bottlenecks _ _ _ (fr_inv _ _ _ _ Hf1)), report_counters_ok.
  cbn [mbind res_bind]. eexists. split; [done|]. simpl. split; [by apply (obs_is_path (V insts) s s1)|].
  split; [apply Ho|]. unfold report_lines. do 3 f_equal.
  apply list_fmap_ext. intros _ [x y] _. unfold path_line, edge_to. by rewrite (obs_children _ _ _ Ho).
Qed.

Context (first final : RiscvInstruction).
Context (Hfirst : insts !! 0%nat = Some first) (Hfinal : last insts = Some final).
Context (Hq : q = Z.of_nat (length insts)).

Lemma profiling_critical_path_ok s path :
  trace_ok insts = true -> Framed insts q true s -> is_path (graph s) path ->
  head path = Some (source first) -> last path = Some (sink final) ->
  exists r s', profiling_critical_path s path = Ok (r, s') /\ is_path (graph s') path /\
    (forall u, children (graph s') u = children (graph s) u) /\
    get_length r = commit final - fetch_cache_line first /\
    counters_total r = get_length r /\ report_file s' = Some (report_lines (graph s') r path).
Proof.
  intros Hok Hf Hp Hh Hl. unfold profiling_critical_path.
  assert (Hel : elapsed (pairs_of path) = commit final - fetch_cache_line first).
  { unfold elapsed. by rewrite (pairs_telescope timing path (source first) (sink final)). }
  assert (HVk : V insts (sink final)).
  { apply V_ev; [by apply (final_in insts)|apply C_in_chain]. }
  pose proof (V_timing insts _ Hok HVk) as Hsk. simpl in Hsk.
  pose proof (first_earliest insts Hnum first Hfirst final VT.C Hok) as Hfe.
  specialize (Hfe (final_in insts final Hfinal) (C_in_chain final)). simpl in Hfe.
  assert (HVs : V insts (source first)).
  { apply V_ev; [by apply (first_in insts first)|apply F1_in_chain]. }
  pose proof (V_timing insts _ Hok HVs) as Hsr. simpl in Hsr.
  destruct (profile_edges_ok (pairs_of path) s BottleneckReport_new 0)
    as (r & s1 & -> & Ho & Hf1 & Hr & Ht); [done|done|by apply pairs_of_chain|done|done|lia|lia|].
  cbn [mbind res_bind].
  rewrite (get_sink_ok insts Hnum q final Hfinal true s1 Hf1 Hq). cbn [mbind res_bind].
  rewrite (get_source_ok insts Hnum q first Hfirst true s1 Hf1). cbn [mbind res_bind].
  cbn [source sink ev timing timing_of]. rewrite lat_sub_exact by lia.
  rewrite Z.add_0_l, Hel, Z.eqb_refl. cbn [mbind res_bind ppk_assert].
  destruct (generate_report_ok s1 (set_length r (commit final - fetch_cache_line first)) path)
    as (s2 & -> & Hp2 & Hch2 & Hrf); [done|done|by apply (obs_is_path (V insts) s s1)|].
  cbn [mbind res_bind]. eexists _, _. split; [done|]. split; [done|].
  split; [intros u; by rewrite Hch2, (obs_children _ _ _ Ho)|]. split; [done|]. split; [|done]. change (counters_total (set_length r _)) with (counters_total r).
  rewrite Ht, Z.add_0_l, Hel. done.
Qed.

Lemma longest_path_ok s :
  Framed insts q false s -> (exists u v, has_edge (graph s) u v /\ 0 < ecost (graph s) u v) ->
  exists path s', longest_path s = Ok (path, s') /\ Framed insts q true s' /\
    is_path (graph s') path /\ head path = Some (source first) /\ last path = Some (sink final) /\
    (exists pre mid post, path = pre ++ mid ++ post /\ longest (graph s) mid) /\
    Forall (is_critical s') (pairs_of path).
Proof.
  intros Hf Hpos. unfold longest_path.
  destruct (longest_path_impl_ok insts Hnum q first final Hfirst Hfinal s Hq (fr_inv _ _ _ _ Hf) Hf Hpos)
    as (path & s1 & -> & Hf1 & Hp1 & Hh & Hl & Hlg). cbn [mbind res_bind].
  destruct (mask_edges_ok s1 path Hf1 Hp1) as (s2 & -> & Hf2 & Hp2 & Hcr & _). cbn [mbind res_bind].
  eexists _, _. done.
Qed.

(** ** The whole window *)

Lemma built_framed s :
  Built insts s -> get_inst_seq s = q -> Framed insts q false s.
Proof.
  intros [H1 _ H3] Hseq. split; [done| |done]. intros i t t' Hi Hp.
  specialize (H3 i Hi). unfold linked in H3. rewrite Forall_forall in H3. by apply (H3 (t, t')).
Qed.

Lemma ext_ecost att s s' u v :
  Ext insts att s s' -> Inv insts att s -> has_edge (graph s) u v ->
  ecost (graph s') u v = ecost (graph s) u v.
Proof.
  intros He Hs Huv. pose proof (inv_wf _ _ _ Hs) as Hwf.
  destruct (edge_to_spec (V insts) _ _ u v Hwf Huv) as (e & Hf & _ & _).
  pose proof (wf_has_edge _ Hwf _ _ Huv) as (Hu & _ & _).
  destruct (ext_children _ _ _ _ He u Hu) as (es & Hes).
  unfold ecost, edge_to in *. rewrite Hes, Hf.
  assert (Hfa : forall (p : OutgoingEdge -> bool) l1 l2 x,
    List.find p l1 = Some x -> List.find p (l1 ++ l2) = Some x).
  { intros p l1 l2 x. induction l1 as [|y l1 IH]; simpl; [done|]. by destruct (p y). }
  by rewrite (Hfa _ _ _ e).
Qed.

(** Some edge of the graph has a cost: an instruction waited for another. *)
Definition interacting (g : deg_t) : bool :=
  existsb (fun x => existsb (fun e => 0 <? ecost g x.1 (child e)) x.2) g.

Lemma interacting_edge g :
  interacting g = true -> exists u v, has_edge g u v /\ 0 < ecost g u v.
Proof.
  unfold interacting. intros ([u es] & Hu & (e & He & Hc)%existsb_exists)%existsb_exists.
  exists u, (child e). simpl in *. split; [|by apply Z.ltb_lt]. exists e. split; [|done].
  apply elem_of_edges. exists es. split; by apply list_elem_of_In.
Qed.

(** What a successful analysis delivers. *)
Record analysed (s : O3Graph) (path : list Vertex) (r : BottleneckReport) (s' : O3Graph) : Prop := {
  an_path : is_path (graph s') path;
  an_head : head path = Some (source first);
  an_last : last path = Some (sink final);
  an_longest : exists pre mid post, path = pre ++ mid ++ post /\ longest (graph (construct_induced_graph s)) mid;
  an_critical : Forall (is_critical s') (pairs_of path);
  an_length : get_length r = commit final - fetch_cache_line first;
  an_total : counters_total r = get_length r;
  an_report : report_file s' = Some (report_lines (graph s') r path)
}.

Lemma analyze_window_ok s :
  trace_ok insts = true -> Built insts s -> get_inst_seq s = q ->
  (exists u v, has_edge (graph s) u v /\ 0 < ecost (graph s) u v) ->
  exists path r s', analyze_window s = Ok (path, r, s') /\ analysed s path r s'.
Proof.
  intros Hok Hb Hseq (u & v & Huv & Hpos). unfold analyze_window.
  pose proof (bu_inv _ _ Hb) as Hs.
  pose proof (construct_induced_graph_ext insts Hnum s Hs) as He.
  pose proof (framed_ext insts q false s _ He (built_framed s Hb Hseq)) as Hf.
  destruct (longest_path_ok (construct_induced_graph s) Hf) as
    (path & s1 & -> & Hf1 & Hp1 & Hh & Hl & Hlg & Hcr).
  { exists u, v. split; [by eapply ext_has_edge|]. by erewrite ext_ecost. }
  cbn [mbind res_bind].
  destruct (profiling_critical_path_ok s1 path Hok Hf1 Hp1 Hh Hl) as
    (r & s2 & -> & Hp2 & Hch & Hlen & Htot & Hrep).
  cbn [mbind res_bind]. eexists _, _, _. split; [done|]. split; try done.
  eapply Forall_impl; [exact Hcr|]. intros p (e & Hep & Hc). exists e. split; [|done].
  unfold edge_to in *. by rewrite Hch.
Qed.

End analyze.
