(* ===== verification/ParseFacts.v ===== *)
(** * A printed trace line is read back

    [print_line] writes the segments the constructor expects; parsing the line
    gives the instruction that was written. *)

From stdpp Require Import pretty.
From S2P Require Import Prelude Machine External Instruction DegBuild TraceParse.

#[local] Open Scope string_scope.
#[local] Open Scope list_scope.
#[local] Open Scope Z_scope.

(** ** Decimal text *)

Lemma pretty_char_digit x : (x < 10)%N -> is_Some (digit_val (pretty_N_char x)).
Proof.
  intros Hx. destruct x as [|p]; [by eexists|].
  do 4 (destruct p as [p|p|]; try (by eexists); try lia).
Qed.

Lemma pretty_go_first x s :
  (0 < x)%N -> exists c r, pretty_N_go x s = String c r /\ is_Some (digit_val c).
Proof.
  revert s. induction (N.lt_wf_0 x) as [x _ IH]. intros s Hx.
  rewrite pretty_N_go_step by done. destruct (decide (0 < x `div` 10)%N) as [Hd|Hd].
  - apply IH; [by apply N.div_lt|done].
  - assert ((x `div` 10)%N = 0%N) as -> by (by apply N.le_0_r, N.nlt_ge). rewrite pretty_N_go_0. eexists _, _. split; [done|].
    apply pretty_char_digit. by apply N.mod_lt.
Qed.

Lemma pretty_first (n : N) : exists c r, pretty n = String c r /\ is_Some (digit_val c).
Proof.
  unfold pretty, pretty_N. case_decide as H; [by eexists _, _|]. apply pretty_go_first. lia.
Qed.

Lemma pretty_go_no_char c x s :
  digit_val c = None -> ~ char_of c s -> ~ char_of c (pretty_N_go x s).
Proof.
  intros Hc. revert s. induction (N.lt_wf_0 x) as [x _ IH]. intros s Hs.
  destruct (decide (0 < x)%N) as [Hx|Hx].
  - rewrite pretty_N_go_step by done. apply IH; [by apply N.div_lt|].
    unfold char_of in *. simpl. rewrite elem_of_cons. intros [->|]; [|done].
    destruct (pretty_char_digit (x `mod` 10)) as [d Hd]; [by apply N.mod_lt|]. congruence.
  - replace x with 0%N by lia. by rewrite pretty_N_go_0.
Qed.

Lemma pretty_no_char c (n : N) : digit_val c = None -> ~ char_of c (pretty n).
Proof.
  intros Hc. unfold pretty, pretty_N. case_decide.
  - unfold char_of. simpl. rewrite list_elem_of_singleton. by intros ->.
  - apply pretty_go_no_char; [done|]. unfold char_of. simpl. set_solver.
Qed.

Lemma digit_not_space c : is_Some (digit_val c) -> isspace c = false.
Proof.
  intros [d Hd]. unfold digit_val, isspace in *. case_match; [|done]. bool_to_prop.
  apply orb_false_iff. split; [apply Nat.eqb_neq; lia|]. apply andb_false_iff. right.
  apply Nat.leb_gt. lia.
Qed.

Lemma digit_not_sign c : is_Some (digit_val c) -> Ascii.eqb c "-" = false /\ Ascii.eqb c "+" = false.
Proof.
  intros Hd. split; apply Ascii.eqb_neq; intros ->; by destruct Hd.
Qed.

Lemma strto_pretty (n : N) : strto (pretty n) = Some (false, Z.of_N n).
Proof.
  unfold strto. rewrite <- digits_pretty_N.
  destruct (pretty_first n) as (c & r & -> & Hc).
  cbn [lstrip]. rewrite (digit_not_space c Hc). unfold sign.
  destruct (digit_not_sign c Hc) as [-> ->]. cbn [starts_digit].
  by rewrite bool_decide_true.
Qed.

Lemma stoull_pretty (n : N) : Z.of_N n < 2 ^ 64 -> stoull (pretty n) = Ok (Z.of_N n).
Proof.
  intros Hn. unfold stoull. rewrite strto_pretty. apply Z.ltb_lt in Hn as Hb. rewrite Hb.
  rewrite u64_small; [done|]. unfold u64_size. lia.
Qed.

(** ** Signed numbers *)

Definition show_int (z : Z) : string :=
  if z <? 0 then String "-" (pretty (Z.to_N (- z))) else pretty (Z.to_N z).

Lemma strto_show_int z : strto (show_int z) = Some (z <? 0, Z.abs z).
Proof.
  unfold show_int. destruct (Z.ltb_spec z 0).
  - unfold strto. cbn [lstrip]. change (isspace "-") with false. unfold sign.
    change (Ascii.eqb "-" "-") with true. cbv beta iota zeta.
    assert (Hd : starts_digit digit_val (pretty (Z.to_N (- z))) = true).
    { destruct (pretty_first (Z.to_N (- z))) as (c & r & -> & Hc). simpl. by rewrite bool_decide_true. }
    rewrite Hd, digits_pretty_N. do 2 f_equal. lia.
  - rewrite strto_pretty. do 2 f_equal. lia.
Qed.

Definition int32 (z : Z) : Prop := - 2 ^ 31 <= z < 2 ^ 31.

Lemma stoi_show_int z : int32 z -> stoi (show_int z) = Ok z.
Proof.
  intros [Hl Hu]. unfold stoi. rewrite strto_show_int.
  replace (if z <? 0 then - Z.abs z else Z.abs z) with z
    by (destruct (Z.ltb_spec z 0); lia).
  apply Z.leb_le in Hl. apply Z.ltb_lt in Hu. by rewrite Hl, Hu.
Qed.

Lemma show_int_no_char c z : digit_val c = None -> c <> "-"%char -> ~ char_of c (show_int z).
Proof.
  intros Hd Hc. unfold show_int. case_match; [|by apply pretty_no_char].
  unfold char_of. simpl. rewrite elem_of_cons. intros [->|Hin]; [done|].
  by apply (pretty_no_char c (Z.to_N (- z))).
Qed.

Lemma show_int_nonempty z : show_int z <> "".
Proof.
  unfold show_int. case_match; [done|].
  destruct (pretty_first (Z.to_N z)) as (? & ? & -> & _). done.
Qed.

(** ** Fields *)

Lemma find_char_app c s1 s2 :
  ~ char_of c s1 -> find_char c (s1 +:+ String c s2) = Some (String.length s1).
Proof.
  intros Hn. induction s1 as [|d s1 IH]; simpl.
  - by rewrite Ascii.eqb_refl.
  - unfold char_of in *. simpl in Hn. rewrite elem_of_cons in Hn.
    rewrite (proj2 (Ascii.eqb_neq d c)) by naive_solver. by rewrite IH by naive_solver.
Qed.

Lemma find_char_none c s : ~ char_of c s -> find_char c s = None.
Proof.
  intros Hn. induction s as [|d s IH]; [done|]. simpl. unfold char_of in *. simpl in Hn.
  rewrite elem_of_cons in Hn.
  rewrite (proj2 (Ascii.eqb_neq d c)) by naive_solver. by rewrite IH by naive_solver.
Qed.

Lemma drop_str_app s1 s2 : drop_str (String.length s1) (s1 +:+ s2) = s2.
Proof. induction s1 as [|d s1 IH]; [by destruct s2|]. exact IH. Qed.

Definition field (name value : string) : string := name +:+ String "=" value.

Lemma eq_pos_field name value :
  ~ char_of "=" name -> eq_pos (field name value) = S (String.length name).
Proof. intros Hn. unfold eq_pos, field. by rewrite find_char_app. Qed.

Lemma after_eq_field name value : ~ char_of "=" name -> after_eq (field name value) = value.
Proof.
  intros Hn. unfold after_eq. rewrite eq_pos_field by done. unfold field.
  clear Hn. induction name as [|c name IH]; [by destruct value|]. exact IH.
Qed.

(** ** White space *)

Lemma string_app_cons d (a b : string) : String d a +:+ b = String d (a +:+ b).
Proof. done. Qed.

Lemma string_app_assoc (a b c : string) : (a +:+ b) +:+ c = a +:+ b +:+ c.
Proof. induction a as [|d a IH]; [done|]. by rewrite !string_app_cons, IH. Qed.

Lemma string_app_nil_r (a : string) : a +:+ "" = a.
Proof. induction a as [|d a IH]; [done|]. by rewrite string_app_cons, IH. Qed.

Lemma lstrip_spec s :
  exists l, s = l +:+ lstrip s /\ Forall (fun c => isspace c = true) (String.list_ascii_of_string l) /\
    (forall c, head (String.list_ascii_of_string (lstrip s)) = Some c -> isspace c = false).
Proof.
  induction s as [|d s (l & Hl & Hs & Hh)]; simpl; [by exists ""|].
  destruct (isspace d) eqn:E.
  - exists (String d l). split; [by rewrite string_app_cons, <- Hl|]. split; [by constructor|done].
  - exists "". split_and!; [done|constructor|]. by intros c [= <-].
Qed.

Lemma rstrip_spec s :
  exists r, s = rstrip s +:+ r /\ Forall (fun c => isspace c = true) (String.list_ascii_of_string r) /\
    (forall c, last (String.list_ascii_of_string (rstrip s)) = Some c -> isspace c = false).
Proof.
  induction s as [|d s (r & Hr & Hs & Hl)]; simpl; [by exists ""|].
  destruct (rstrip s) as [|d' s'] eqn:E.
  - destruct (isspace d) eqn:Ed.
    + exists (String d r). simpl in Hr. subst s. split; [done|]. split; [by constructor|done].
    + exists r. simpl in Hr. subst s. split; [done|]. split; [done|]. by intros c [= <-].
  - exists r. split; [by rewrite string_app_cons, <- Hr|]. split; [done|]. intros c Hc. apply Hl. exact Hc.
Qed.

Lemma lstrip_id s :
  (forall c, head (String.list_ascii_of_string s) = Some c -> isspace c = false) -> lstrip s = s.
Proof. destruct s as [|d s]; [done|]. simpl. intros H. by rewrite (H d). Qed.

Lemma rev_case {A} (l : list A) : l = [] \/ exists l' x, l = l' ++ [x].
Proof. induction l using rev_ind; [by left|right; eauto]. Qed.

Lemma rstrip_id s :
  (forall c, last (String.list_ascii_of_string s) = Some c -> isspace c = false) -> rstrip s = s.
Proof.
  intros H. destruct (rstrip_spec s) as (r & Hr & Hs & _).
  destruct (rev_case (String.list_ascii_of_string r)) as [E|(cs & c & E)].
  - destruct r; [|done]. rewrite Hr at 2. by rewrite string_app_nil_r.
  - exfalso. specialize (H c). rewrite Hr, list_ascii_app, E, app_assoc, last_snoc in H.
    rewrite E, Forall_app, Forall_singleton in Hs. destruct Hs as [_ Hs]. by rewrite H in Hs.
Qed.

Definition no_space (s : string) : Prop := forall c, char_of c s -> isspace c = false.

Lemma no_space_cons c s : no_space (String c s) <-> isspace c = false /\ no_space s.
Proof. unfold no_space, char_of. simpl. split; [set_solver|]. intros [? ?] d. set_solver. Qed.

Lemma strip_no_space s : no_space s -> strip s = s.
Proof.
  intros Hs. unfold strip. assert (Hr : rstrip s = s).
  { induction s as [|c s IH]; [done|]. apply no_space_cons in Hs as [Hc Hs]. simpl.
    rewrite IH by done. destruct s; [by rewrite Hc|done]. }
  rewrite Hr. destruct s as [|c s]; [done|]. apply no_space_cons in Hs as [Hc _].
  simpl. by rewrite Hc.
Qed.

Lemma show_int_no_space z : no_space (show_int z).
Proof.
  intros c Hc. destruct (digit_val c) as [d|] eqn:E; [by apply digit_not_space|].
  destruct (decide (c = "-"%char)) as [->|Hne]; [done|]. by apply show_int_no_char in Hc.
Qed.

Lemma char_of_concat c sep l :
  char_of c (String.concat (String sep "") l) -> c = sep \/ exists s, s ∈ l /\ char_of c s.
Proof.
  induction l as [|s [|s' l] IH]; simpl.
  - unfold char_of. simpl. set_solver.
  - intros Hc. right. exists s. split; [set_solver|done].
  - change (s +:+ String sep "" +:+ String.concat (String sep "") (s' :: l))
      with (s +:+ (String sep (String.concat (String sep "") (s' :: l)))).
    intros [Hc|Hc]%char_of_app.
    + right. exists s. split; [set_solver|done].
    + unfold char_of in Hc. simpl in Hc. apply elem_of_cons in Hc as [->|Hc]; [by left|].
      destruct (IH Hc) as [->|(t & Ht & Hct)]; [by left|]. right. exists t. split; [set_solver|done].
Qed.

(** ** Printing a line *)

Definition ints (l : list Z) : string := String.concat (String "," "") (show_int <$> l).

Lemma ints_char c l : digit_val c = None -> c <> "-"%char -> c <> ","%char -> ~ char_of c (ints l).
Proof.
  intros Hd H1 H2 [->|(s & (z & -> & _)%list_elem_of_fmap & Hs)]%char_of_concat; [done|].
  by apply show_int_no_char in Hs.
Qed.

Lemma ints_no_space l : no_space (ints l).
Proof.
  intros c [->|(s & (z & -> & _)%list_elem_of_fmap & Hs)]%char_of_concat; [done|].
  by apply (show_int_no_space z).
Qed.

Definition type_text (t : InstType) : string :=
  match t with NoOpClass => "No_OpClass" | _ => inst_type_name t end.

Definition ticks_of (t : Tick) : list Z :=
  [t_fetch_cache_line t; t_process_cache_completion t; t_fetch t; t_decode_sort_insts t;
   t_decode t; t_rename_sort_insts t; t_block_from_rob t; t_block_from_rf t;
   t_block_from_iq t; t_block_from_lq t; t_block_from_sq t; t_rename t;
   t_dispatch t; t_insert_ready_list t; t_issue t; t_memory t;
   t_complete t; t_complete_memory t; t_commit_head t; t_commit t].

(** The texts of a line that do not come from the instruction: the first three
    segments, the program counter and the instruction as printed, the seventh
    segment, and the name of every field. *)
Record LineText := mkText {
  tx_head : string * string * string;
  tx_pc : string;
  tx_inst : string;
  tx_six : string;
  tx_name : nat -> string
}.

Definition tick_text (v : Z) : string := pretty (Z.to_N (v * CYCLE_PER_TICK)).
Definition dst_text (z : Z) : string := if z =? -1 then "" else show_int z.

Definition print_segments (x : LineText) (i : RiscvInstruction) : list string :=
  [(tx_head x).1.1; (tx_head x).1.2; (tx_head x).2; tx_pc x; tx_inst x;
   type_text (inst_type i); tx_six x] ++
  imap (fun k v => field (tx_name x (7 + k)) (tick_text v)) (ticks_of (event_tick i)) ++
  [field (tx_name x 27) (show_int (rob i)); field (tx_name x 28) (show_int (lq i));
   field (tx_name x 29) (show_int (sq i)); field (tx_name x 30) (show_int (iq i));
   field (tx_name x 31) (show_int (fu i)); field (tx_name x 32) (ints (src i));
   field (tx_name x 33) (dst_text (dst i))].

Definition print_line (x : LineText) (i : RiscvInstruction) : string :=
  String.concat (String ":" "") (print_segments x i).

(** Texts that survive splitting. *)
Definition text_ok (s : string) : Prop := s <> "" /\ ~ char_of ":" s.
Definition texts_ok (x : LineText) : Prop :=
  Forall text_ok [(tx_head x).1.1; (tx_head x).1.2; (tx_head x).2; tx_pc x; tx_inst x; tx_six x] /\
  forall k, ~ char_of ":" (tx_name x k) /\ ~ char_of "=" (tx_name x k).

(** Values that fit the types they are read into. *)
Definition printable (i : RiscvInstruction) : Prop :=
  Forall (fun v => 0 <= v /\ v * CYCLE_PER_TICK < 2 ^ 64) (ticks_of (event_tick i)) /\
  Forall int32 ([rob i; lq i; sq i; iq i; fu i; dst i] ++ src i).

Lemma field_text_ok name value :
  ~ char_of ":" name -> ~ char_of ":" value -> text_ok (field name value).
Proof.
  intros Hn Hv. split; [by destruct name|]. unfold field. rewrite char_of_app.
  intros [|Hc]; [done|]. unfold char_of in *. simpl in Hc. apply elem_of_cons in Hc as [|]; done.
Qed.

Section roundtrip.
Context `{B : Boost} `{HB : !BoostLaws B}.

Lemma stoi_all_ints l : Forall int32 l -> stoi_all (show_int <$> l) = Ok l.
Proof.
  induction 1 as [|z l Hz Hl IH]; [done|]. csimpl.
  rewrite (proj2 (String.eqb_neq _ _) (show_int_nonempty z)).
  rewrite stoi_show_int by done. simpl. by rewrite IH.
Qed.

Lemma set_src_field name l :
  ~ char_of "=" name -> Forall int32 l -> set_src_reg (field name (ints l)) = Ok l.
Proof.
  intros Hn Hl. unfold set_src_reg. rewrite after_eq_field by done.
  rewrite strip_no_space by apply ints_no_space.
  destruct l as [|z [|z' l]]; [done|..].
  - change (ints [z]) with (show_int z).
    rewrite find_char_none by (by apply show_int_no_char). by apply (stoi_all_ints [z]).
  - change (ints (z :: z' :: l)) with (show_int z +:+ String "," (ints (z' :: l))) at 1.
    rewrite find_char_app by (by apply show_int_no_char).
    unfold split, ints. rewrite boost_split_join; [by apply stoi_all_ints|done|].
    apply Forall_fmap, Forall_forall. intros y _. simpl.
    split; [apply show_int_nonempty|by apply show_int_no_char].
Qed.

Lemma set_int_field name z : ~ char_of "=" name -> int32 z -> set_int (field name (show_int z)) = Ok z.
Proof. intros Hn Hz. unfold set_int. rewrite after_eq_field by done. by apply stoi_show_int. Qed.

Lemma set_dst_field name z :
  ~ char_of "=" name -> int32 z -> set_dst_reg (field name (dst_text z)) = Ok z.
Proof.
  intros Hn Hz. unfold set_dst_reg. rewrite eq_pos_field, after_eq_field by done.
  assert (Hlen : forall v, String.length (field name v) = S (String.length name + String.length v)).
  { intros v. unfold field. clear. induction name; simpl; [done|]. by rewrite IHname. }
  rewrite Hlen. unfold dst_text. destruct (Z.eqb_spec z (-1)) as [->|].
  - simpl. by rewrite Nat.add_0_r, Nat.eqb_refl.
  - pose proof (show_int_nonempty z). destruct (show_int z) as [|c r] eqn:E; [done|].
    rewrite (proj2 (Nat.eqb_neq _ _)) by (simpl; lia). rewrite <- E. by apply stoi_show_int.
Qed.

Lemma tick_of_field name v :
  ~ char_of "=" name -> 0 <= v /\ v * CYCLE_PER_TICK < 2 ^ 64 ->
  tick_of (field name (tick_text v)) = Ok v.
Proof.
  intros Hn [Hv Hlt]. unfold CYCLE_PER_TICK in *. unfold tick_of, tick_text, CYCLE_PER_TICK.
  rewrite after_eq_field by done.
  rewrite stoull_pretty by lia. simpl. rewrite Z2N.id by lia.
  by rewrite Z.div_mul.
Qed.

Lemma print_segments_ok x i :
  texts_ok x -> Forall text_ok (print_segments x i).
Proof.
  intros [Hx Hn]. rewrite !Forall_cons in Hx. destruct Hx as (? & ? & ? & ? & ? & ? & _).
  assert (Ht : text_ok (type_text (inst_type i))).
  { destruct (inst_type i); (split; [done|]); unfold char_of; simpl; set_solver. }
  unfold print_segments. apply Forall_app.
  split; [repeat (apply Forall_cons; split; [done|]); constructor|].
  apply Forall_app. split.
  - apply Forall_forall. intros s (k & v & -> & _)%elem_of_lookup_imap.
    apply field_text_ok; [apply Hn|by apply pretty_no_char].
  - repeat (apply Forall_cons; split); [..|constructor];
      (apply field_text_ok; [apply Hn|]); try (by apply show_int_no_char); [by apply ints_char|].
    unfold dst_text. case_match; [unfold char_of; simpl; set_solver|by apply show_int_no_char].
Qed.

Lemma print_line_read x i seq :
  texts_ok x -> printable i ->
  RiscvInstruction_new (print_line x i) seq =
  Ok (mkInst (strip (tx_inst x)) (inst_type i) (set_pc (tx_pc x)) (event_tick i) seq
        (src i) (dst i) (rob i) (lq i) (sq i) (iq i) (fu i)).
Proof.
  intros Hx [Htk Hint]. unfold RiscvInstruction_new, split, print_line.
  rewrite boost_split_join; [|done|by apply print_segments_ok].
  destruct Hx as [_ Hn]. assert (He : forall k, ~ char_of "=" (tx_name x k)) by (intros; apply Hn).
  apply Forall_app in Hint as [Hint Hsrc]. rewrite !Forall_cons in Hint.
  destruct Hint as (? & ? & ? & ? & ? & ? & _).
  destruct (event_tick i) as [t0 t1 t2 t3 t4 t5 t6 t7 t8 t9 t10 t11 t12 t13 t14 t15 t16 t17 t18 t19] eqn:Et.
  change (ticks_of _) with [t0; t1; t2; t3; t4; t5; t6; t7; t8; t9; t10; t11; t12; t13; t14; t15;
    t16; t17; t18; t19] in Htk. rewrite !Forall_cons in Htk.
  destruct Htk as (? & ? & ? & ? & ? & ? & ? & ? & ? & ? & ? & ? & ? & ? & ? & ? & ? & ? & ? & ? & _).
  unfold print_segments. rewrite Et. unfold set_event_tick.
  cbn [app imap compose seg lookup list_lookup ticks_of mbind res_bind
       t_fetch_cache_line t_process_cache_completion t_fetch t_decode_sort_insts t_decode
       t_rename_sort_insts t_block_from_rob t_block_from_rf t_block_from_iq t_block_from_lq
       t_block_from_sq t_rename t_dispatch t_insert_ready_list t_issue t_memory t_complete
       t_complete_memory t_commit_head t_commit].
  assert (Hty : set_inst_type (type_text (inst_type i)) = Ok (inst_type i)) by (by destruct (inst_type i)).
  rewrite Hty. cbn [mbind res_bind].
  rewrite !tick_of_field by done. cbn [mbind res_bind].
  rewrite !set_int_field by done. cbn [mbind res_bind].
  rewrite set_src_field by done. cbn [mbind res_bind].
  by rewrite set_dst_field by done.
Qed.

End roundtrip.
