(* ===== verification/RunFacts.v ===== *)
(** * The run of the program

    On a trace shorter than the window the loop reads everything, then
    analyses once; on a longer one it analyses before the last instruction of
    the window is in the graph and stops. *)

From S2P Require Import Prelude Machine OrderedMap External Instruction Bottleneck GraphDefs.
From S2P Require Import DegBuild GraphTheory Interaction Induced LongestPath PathSearch Analyze.
From S2P Require Import TraceParse Visualizer Run Pipeline BuildFacts InteractFacts.
From S2P Require Import TopoSort DistFacts LongestFacts SearchFacts InducedFacts CriticalFacts.
From S2P Require Import CompleteFacts AnalyzeFacts.

#[local] Open Scope list_scope.
#[local] Open Scope Z_scope.

(** ** Parsing the lines of a trace *)

Section run.
Context `{B : Boost} `{HB : !BoostLaws B} `{G : BoostGraph}.

(** The instructions of the lines, [q] having been read before. *)
Fixpoint parse_all (q : Z) (lines : list string) : res (list RiscvInstruction) :=
  match lines with
  | [] => Ok []
  | l :: ls =>
      i ← RiscvInstruction_new l (q + 1);
      js ← parse_all (q + 1) ls;
      Ok (i :: js)
  end.

Lemma parse_all_length q lines insts : parse_all q lines = Ok insts -> length insts = length lines.
Proof.
  revert q insts. induction lines as [|l ls IH]; intros q insts H; simpl in H.
  - by injection H as <-.
  - inv_res. simpl. by erewrite IH.
Qed.

Lemma RiscvInstruction_new_seq line q i : RiscvInstruction_new line q = Ok i -> inst_seq i = q.
Proof. unfold RiscvInstruction_new. intros H. inv_res. done. Qed.

Lemma numbered_snoc insts i :
  numbered insts -> inst_seq i = Z.of_nat (length insts) + 1 -> numbered (insts ++ [i]).
Proof.
  unfold numbered. intros Hn Hi. rewrite fmap_app, Hn, length_app. simpl.
  rewrite Nat2Z.inj_add, seqZ_app by lia. f_equal. simpl. rewrite Hi.
  change (Z.of_nat 1) with 1. rewrite (seqZ_cons _ 1) by lia. by rewrite Z.add_comm.
Qed.

(** ** Reading *)

(** The state between two instructions: [prev] are in the graph, [rest] are the
    lines to come. *)
Record reading (prev : list RiscvInstruction) (rest : list string) (s : O3Graph) : Prop := {
  re_numbered : numbered prev;
  re_built : Built prev s;
  re_stream : inst_stream s = mkStream rest (Z.of_nat (length prev))
}.

Lemma next_ok prev l ls s i :
  reading prev (l :: ls) s -> Z.of_nat (length prev) + 1 < 2 ^ 64 ->
  RiscvInstruction_new l (Z.of_nat (length prev) + 1) = Ok i ->
  next (inst_stream s) = Ok (Some i, mkStream ls (Z.of_nat (length prev) + 1)).
Proof.
  intros [_ _ ->] Hlt Hi. unfold next. simpl. rewrite u64_small by (unfold u64_size; lia).
  by rewrite Hi.
Qed.

Lemma step_ok prev l ls s i :
  reading prev (l :: ls) s -> RiscvInstruction_new l (Z.of_nat (length prev) + 1) = Ok i ->
  exists s', step_inst (set_stream s (mkStream ls (Z.of_nat (length prev) + 1))) i = Ok s' /\
    reading (prev ++ [i]) ls s'.
Proof.
  intros [Hn Hb Hs] Hi. apply RiscvInstruction_new_seq in Hi.
  pose proof (numbered_snoc prev i Hn Hi) as Hn'.
  set (s1 := set_stream s (mkStream ls (Z.of_nat (length prev) + 1))).
  destruct (step_inst_ok prev s1 i) as (s' & -> & Hb' & Hst); [done| |by simpl; rewrite Hi|].
  { by apply set_stream_built. }
  exists s'. split; [done|]. split; [done|done|]. rewrite Hst. simpl. f_equal.
  rewrite length_app. simpl. lia.
Qed.

Lemma read_trace_ok fuel lines rest prev s :
  reading prev lines s -> parse_all (Z.of_nat (length prev)) lines = Ok rest ->
  Z.of_nat (length prev + length lines) < 2 ^ 64 -> (length lines < fuel)%nat ->
  exists s', read_trace fuel s = Ok s' /\ reading (prev ++ rest) [] s'.
Proof.
  revert lines rest prev s. induction fuel as [|fuel IH]; intros lines rest prev s Hr Hp Hlt Hf; [lia|].
  cbn [read_trace]. destruct lines as [|l ls].
  - simpl in Hp. injection Hp as <-. rewrite app_nil_r. unfold next.
    rewrite (re_stream _ _ _ Hr). cbn [trace mbind res_bind].
    eexists. split; [done|]. destruct Hr as [H1 H2 H3]. split; [done|by apply set_stream_built|done].
  - cbn [parse_all] in Hp. apply res_bind_inv in Hp as (i & Hi & Hp).
    apply res_bind_inv in Hp as (js & Hjs & [= <-]). simpl in Hlt, Hf.
    rewrite (next_ok prev l ls s i Hr) by (done || lia). cbn [mbind res_bind].
    destruct (step_ok prev l ls s i Hr Hi) as (s1 & -> & Hr1). cbn [mbind res_bind].
    destruct (IH ls js (prev ++ [i]) s1) as (s2 & -> & Hr2); [done| | |lia|].
    + rewrite length_app. simpl. by rewrite Nat2Z.inj_add.
    + rewrite length_app. simpl. lia.
    + exists s2. split; [done|]. by rewrite <- app_assoc in Hr2.
Qed.

(** ** A trace shorter than the window *)

Lemma mod_lt_neq a n : 0 < a < n -> a mod n =? 0 = false.
Proof. intros H. apply Z.eqb_neq. rewrite Z.mod_small; lia. Qed.

Lemma run_loop_short fuel win lines rest prev s :
  reading prev lines s -> parse_all (Z.of_nat (length prev)) lines = Ok rest ->
  0 < Z.of_nat (length prev + length lines) < win -> win <= 2 ^ 64 -> (length lines < fuel)%nat ->
  run_loop fuel win s = (s ← read_trace fuel s; analyze s).
Proof.
  revert lines rest prev s. induction fuel as [|fuel IH]; intros lines rest prev s Hr Hp Hn Hw Hf; [lia|].
  cbn [read_trace run_loop]. destruct lines as [|l ls].
  - unfold next. rewrite (re_stream _ _ _ Hr). cbn [trace mbind res_bind]. simpl in Hn.
    unfold get_inst_seq. simpl. rewrite mod_lt_neq, andb_false_r by lia.
    cbn [mbind res_bind set_stream inst_stream stream_seq]. by rewrite mod_lt_neq by lia.
  - cbn [parse_all] in Hp. apply res_bind_inv in Hp as (i & Hi & Hp).
    apply res_bind_inv in Hp as (js & Hjs & [= <-]). simpl in Hn, Hf.
    rewrite (next_ok prev l ls s i Hr) by (done || lia). cbn [mbind res_bind].
    unfold get_inst_seq at 1 2. cbn [set_stream inst_stream stream_seq].
    rewrite mod_lt_neq by lia. rewrite andb_false_r. cbn [mbind res_bind].
    destruct (step_ok prev l ls s i Hr Hi) as (s1 & -> & Hr1). cbn [mbind res_bind].
    apply (IH ls js (prev ++ [i]) s1); [done| | |done|lia].
    + rewrite length_app. simpl. by rewrite Nat2Z.inj_add.
    + rewrite length_app. simpl. lia.
Qed.

(** ** The first state *)

Lemma O3Graph_new_reading args lines s :
  O3Graph_new args (mkStream lines 0) = Ok s -> reading [] lines s.
Proof.
  unfold O3Graph_new. intros H. inv_res. split; [done|apply built_init|done].
Qed.

(** ** Analysing too early *)

Lemma get_sink_missing insts q att s :
  numbered insts -> Framed insts q att s -> Z.of_nat (length insts) < q ->
  get_sink_vertex s = Stop ErrorExit.
Proof.
  intros Hn Hf Hq. pose proof (inv_wf _ _ _ (fr_inv _ _ _ _ Hf)) as Hwf. unfold get_sink_vertex.
  destruct (List.find _ _) as [v|] eqn:E; [exfalso|done].
  apply List.find_some in E as [Hin Hs]. unfold is_sink in Hs. bool_to_prop.
  rewrite (fr_seq _ _ _ _ Hf) in *.
  assert (Hv : V insts v).
  { apply in_map_iff in Hin as (e & <- & He%list_elem_of_In).
    apply list_elem_of_join in He as (es & He & Hes).
    apply list_elem_of_fmap in Hes as ([u es'] & -> & Hu).
    assert (Hue : (u, e) ∈ edges (graph s)) by (apply elem_of_edges; eauto).
    apply (wf_edge _ Hwf) in Hue. tauto. }
  destruct Hv as (i & t & Hi & _ & ->). pose proof (numbered_range insts Hn i Hi). simpl in *. lia.
Qed.

Lemma analyze_early insts s :
  numbered insts -> insts <> [] -> Built insts s ->
  get_inst_seq s = Z.of_nat (length insts) + 1 ->
  exists e, analyze_window s = Stop e /\ (e = ErrorExit \/ e = Undefined).
Proof.
  intros Hn Hne Hb Hq. destruct insts as [|first rest] eqn:Ei; [done|]. rewrite <- Ei in *.
  assert (Hfirst : insts !! 0%nat = Some first) by (by rewrite Ei).
  pose proof (construct_induced_graph_ext insts Hn s (bu_inv _ _ Hb)) as He.
  set (s1 := construct_induced_graph s) in *.
  pose proof (framed_ext insts _ false s s1 He (built_framed insts _ s Hb Hq)) as Hf.
  unfold analyze_window. fold s1. unfold longest_path, longest_path_impl.
  pose proof (fr_inv _ _ _ _ Hf) as Hs1.
  destruct (longest_path_core_ok (V insts) s1) as (path & s2 & -> & Ho & Hlg);
    [apply Hs1|by apply Hs1| |].
  { intros Hnil. pose proof (get_source_ok insts Hn _ first Hfirst false s1 Hf) as Hsrc.
    unfold get_source_vertex in Hsrc. by rewrite Hnil in Hsrc. }
  cbn [mbind res_bind]. pose proof (framed_obs insts _ false s1 s2 Ho Hf) as Hf2.
  destruct path as [|w tl] eqn:Ep.
  { unfold attach_source. rewrite (get_source_ok insts Hn _ first Hfirst true s2 Hf2).
    eexists. split; [done|by right]. }
  destruct (longest_ends insts Hn _ false s1 (w :: tl) Hf Hlg) as
    (w' & v & rst & [= <- <-] & _ & Hw & Hlast & _ & _ & Hwv & _); [done|].
  destruct (attach_source_ok insts Hn (Z.of_nat (length insts) + 1) first Hfirst s2 w tl v) as
    (p2 & s3 & -> & Hf3 & _); [done| |done| |done|].
  { apply (obs_is_path (V insts) s1 s2); [done|]. apply Hlg. }
  { by apply (obs_verts_iff (V insts) s1 s2). }
  cbn [mbind res_bind]. unfold attach_sink.
  rewrite (get_sink_missing insts _ true s3 Hn Hf3) by lia. eexists. split; [done|by left].
Qed.

(** The loop on a trace that fills the window. *)
Lemma run_loop_long fuel win lines rest prev s :
  reading prev lines s -> parse_all (Z.of_nat (length prev)) lines = Ok rest ->
  1 < win <= Z.of_nat (length prev + length lines) -> Z.of_nat (length prev) < win ->
  Z.of_nat (length prev + length lines) < 2 ^ 64 -> (length lines < fuel)%nat ->
  exists e, run_loop fuel win s = Stop e /\ (e = ErrorExit \/ e = Undefined).
Proof.
  revert lines rest prev s. induction fuel as [|fuel IH]; intros lines rest prev s Hr Hp Hw Hd H64 Hf; [lia|].
  cbn [run_loop]. destruct lines as [|l ls]; [simpl in Hw; lia|].
  cbn [parse_all] in Hp. apply res_bind_inv in Hp as (i & Hi & Hp).
  apply res_bind_inv in Hp as (js & Hjs & [= <-]). simpl in Hw, Hf, H64.
  rewrite (next_ok prev l ls s i Hr) by (done || lia). cbn [mbind res_bind].
  unfold get_inst_seq at 1 2. cbn [set_stream inst_stream stream_seq].
  destruct (decide (Z.of_nat (length prev) + 1 = win)) as [Heq|Hne].
  - rewrite Heq, Z.mod_same by lia. replace (0 <? win) with true by (symmetry; apply Z.ltb_lt; lia).
    cbn [andb Z.eqb]. unfold analyze. rewrite <- Heq.
    destruct (analyze_early prev (set_stream s (mkStream ls (Z.of_nat (length prev) + 1))))
      as (e & -> & He); [apply Hr|destruct prev; [simpl in *; lia|done]|by apply set_stream_built, Hr|done|].
    exists e. done.
  - rewrite mod_lt_neq by lia. rewrite andb_false_r. cbn [mbind res_bind].
    destruct (step_ok prev l ls s i Hr Hi) as (s1 & -> & Hr1). cbn [mbind res_bind].
    apply (IH ls js (prev ++ [i]) s1); [done| |rewrite length_app; simpl; lia..|lia].
    rewrite length_app. simpl. by rewrite Nat2Z.inj_add.
Qed.

(** ** A trace in which nothing waits *)

Lemma not_interacting_edge g u v :
  interacting g = false -> has_edge g u v -> ecost g u v <= 0.
Proof.
  intros Hi (e & He & Hv). apply Z.nlt_ge. intros Hpos.
  rewrite <- not_true_iff_false in Hi. apply Hi. unfold interacting.
  apply elem_of_edges in He as (es & Hin & He). apply existsb_exists. exists (u, es).
  split; [by apply list_elem_of_In|]. apply existsb_exists. exists e.
  split; [by apply list_elem_of_In|]. simpl. rewrite Hv. by apply Z.ltb_lt.
Qed.

Lemma induced_no_cost insts s u v :
  numbered insts -> Inv insts false s -> interacting (graph s) = false ->
  has_edge (graph (construct_induced_graph s)) u v ->
  ecost (graph (construct_induced_graph s)) u v <= 0.
Proof.
  intros Hn Hs Hi Huv. destruct (construct_induced_graph_ok insts Hn s Hs) as [[He Hnew] _].
  pose proof (inv_wf _ _ _ (ext_inv _ _ _ _ He)) as Hwf.
  destruct (edge_to_spec (V insts) _ _ u v Hwf Huv) as (e & Hto & Hv & Hin).
  destruct (Hnew _ Hin) as [Hold|(_ & Hc & _)].
  - assert (Huv' : has_edge (graph s) u v) by (by exists e).
    rewrite (ext_ecost insts Hn false s _ u v He Hs Huv'). by apply not_interacting_edge.
  - unfold ecost. rewrite Hto. simpl in Hc. lia.
Qed.

Lemma analyze_not_interacting insts s :
  numbered insts -> insts <> [] -> Built insts s ->
  get_inst_seq s = Z.of_nat (length insts) -> interacting (graph s) = false ->
  analyze_window s = Stop Undefined.
Proof.
  intros Hn Hne Hb Hq Hi. destruct insts as [|first rest] eqn:Ei; [done|]. rewrite <- Ei in *.
  assert (Hfirst : insts !! 0%nat = Some first) by (by rewrite Ei).
  pose proof (construct_induced_graph_ext insts Hn s (bu_inv _ _ Hb)) as He.
  pose proof (fun u v => induced_no_cost insts s u v Hn (bu_inv _ _ Hb) Hi) as Hz.
  set (s1 := construct_induced_graph s) in *.
  pose proof (framed_ext insts _ false s s1 He (built_framed insts _ s Hb Hq)) as Hf.
  unfold analyze_window. fold s1. unfold longest_path, longest_path_impl.
  pose proof (fr_inv _ _ _ _ Hf) as Hs1.
  destruct (longest_path_core_ok (V insts) s1) as (path & s2 & -> & Ho & Hlg);
    [apply Hs1|by apply Hs1| |].
  { intros Hnil. pose proof (get_source_ok insts Hn _ first Hfirst false s1 Hf) as Hsrc.
    unfold get_source_vertex in Hsrc. by rewrite Hnil in Hsrc. }
  cbn [mbind res_bind]. pose proof (framed_obs insts _ false s1 s2 Ho Hf) as Hf2.
  destruct (lg_shape _ _ Hlg) as [->|(w & x & mid & -> & Hpos)].
  - unfold attach_source. by rewrite (get_source_ok insts Hn _ first Hfirst true s2 Hf2).
  - pose proof (lg_path _ _ Hlg) as [Hwx _]. specialize (Hz w x Hwx). lia.
Qed.

End run.
