(* ===== verification/Demo.v ===== *)
(** * A small trace

    Five instructions with a blocked rename, a mispredicted branch, a busy
    functional unit and data dependences: the concrete inputs on which the
    theorems of the library are exercised. *)

From S2P Require Import Prelude Machine OrderedMap External Instruction Bottleneck GraphDefs.
From S2P Require Import DegBuild Interaction TraceParse Visualizer Run GraphTheory Pipeline.
From S2P Require Import BuildFacts InteractFacts DistFacts CriticalFacts AnalyzeFacts.
From S2P Require Import ParseFacts.

#[local] Open Scope string_scope.
#[local] Open Scope list_scope.
#[local] Open Scope Z_scope.

(** A decidable fact about concrete values. *)
Ltac by_eval := apply (bool_decide_unpack _); vm_compute; exact I.

Definition demo1 : RiscvInstruction :=
  mkInst "addi a0, a0, 1" IntAlu 65536
    (mkTick 0 2 2 0 3 0 0 0 0 0 0 4 5 5 5 0 6 0 0 8) 1 [1] 2 0 0 0 0 1.
Definition demo2 : RiscvInstruction :=
  mkInst "lw a1, 0(a0)" MemRead 65540
    (mkTick 0 2 2 0 3 0 0 0 0 0 0 4 5 6 6 7 20 20 0 21) 2 [2] 3 1 0 0 1 2.
Definition demo3 : RiscvInstruction :=
  mkInst "sw a1, 0(a0)" MemWrite 65544
    (mkTick 1 3 4 0 5 0 0 0 0 0 0 6 7 19 20 21 21 0 0 22) 3 [3; 2] (-1) 2 0 0 2 2.
Definition demo4 : RiscvInstruction :=
  mkInst "bne a1, a2, 8" IntAlu 65548
    (mkTick 2 4 5 0 6 0 9 0 0 0 0 9 10 10 11 0 12 0 0 23) 4 [5; 7] (-1) 1 0 0 3 1.
Definition demo5 : RiscvInstruction :=
  mkInst "mul a1, a2, a3" IntMult 65552
    (mkTick 20 22 22 0 23 0 0 2 3 0 0 24 25 25 25 0 30 0 0 31) 5 [8] 7 1 0 0 3 1.

Definition demo : list RiscvInstruction := [demo1; demo2; demo3; demo4; demo5].

(** The same trace as text. *)
Definition demo_text (i : RiscvInstruction) (pc : string) : LineText :=
  mkText ("system", "cpu", "T0") pc (inst i) "D" (fun _ => "t").
Definition demo_lines : list string :=
  [print_line (demo_text demo1 "0x10000 @main") demo1;
   print_line (demo_text demo2 "0x10004 @main") demo2;
   print_line (demo_text demo3 "0x10008 @main") demo3;
   print_line (demo_text demo4 "0x1000c @main") demo4;
   print_line (demo_text demo5 "0x10010 @main") demo5].

Lemma demo_numbered : numbered demo.
Proof. reflexivity. Qed.

Lemma demo_trace_ok : trace_ok demo = true.
Proof. vm_compute. reflexivity. Qed.

(** ** The states the trace leads to *)

Definition demo_state : O3Graph := match feed_all demo with Ok s => s | Stop _ => O3init end.

Lemma demo_feed : feed_all demo = Ok demo_state.
Proof. destruct (feed_all_ok demo demo_numbered) as (s & Hs & _). unfold demo_state. by rewrite Hs. Qed.

Lemma demo_built : Built demo demo_state /\ get_inst_seq demo_state = 5.
Proof.
  destruct (feed_all_ok demo demo_numbered) as (s & Hs & Hb & Hq).
  rewrite demo_feed in Hs. apply Ok_inj in Hs as <-. exact (conj Hb Hq).
Qed.

Lemma demo_wf : WfDeg (V demo) (graph demo_state) (pred demo_state).
Proof. exact (inv_wf _ _ _ (bu_inv _ _ (proj1 demo_built))). Qed.

Lemma demo_preds : Forall (fun x => x.2 <> []) (pred demo_state).
Proof. exact (inv_preds _ _ _ (bu_inv _ _ (proj1 demo_built)) eq_refl). Qed.

Lemma demo_nonempty : graph demo_state <> [].
Proof. by vm_compute. Qed.

Lemma demo_source : verts (graph demo_state) (ev VT.F1 demo1).
Proof. left. apply (bool_decide_unpack (_ ∈ _)). by vm_compute. Qed.

Lemma demo_interacting : interacting (graph demo_state) = true.
Proof. by vm_compute. Qed.

(** The instructions [prev] read and the chain of [i] added: the state in which
    the interactions of [i] are modelled. *)
Definition before (prev : list RiscvInstruction) (i : RiscvInstruction) : O3Graph :=
  match feed_all prev with
  | Ok s => match model (set_stream s (mkStream [] (inst_seq i))) i with Ok s => s | Stop _ => O3init end
  | Stop _ => O3init
  end.

Lemma before_ready prev i : numbered (prev ++ [i]) -> ready (prev ++ [i]) i (before prev i).
Proof.
  intros Hn. destruct (feed_all_ok prev (proj1 (numbered_app prev i Hn))) as (s & Hs & Hb & Hq).
  unfold before. rewrite Hs.
  destruct (model_ready prev i (set_stream s (mkStream [] (inst_seq i)))) as (s1 & -> & Hr);
    [exact Hn|by apply set_stream_built|done|done].
Qed.

(** Before the interactions of the third and of the fifth instruction. *)
Definition demo_third : O3Graph := before [demo1; demo2] demo3.
Definition demo_fifth : O3Graph := before [demo1; demo2; demo3; demo4] demo5.

Lemma demo_third_ready : ready [demo1; demo2; demo3] demo3 demo_third.
Proof. exact (before_ready [demo1; demo2] demo3 eq_refl). Qed.
Lemma demo_fifth_ready : ready demo demo5 demo_fifth.
Proof. exact (before_ready [demo1; demo2; demo3; demo4] demo5 eq_refl). Qed.

(** ** The whole program on the trace *)

Definition demo_files (f : string) : option (list string) :=
  if String.eqb f "trace.out" then Some demo_lines else None.
Definition demo_opts : list (ascii * option string) :=
  [("t"%char, Some "trace.out"); ("o"%char, Some "report.txt"); ("v"%char, None); ("e"%char, Some "3")].
Definition demo_args : gmap string string :=
  match parse_args demo_opts with Ok a => a | Stop _ => ∅ end.
Definition demo_start : O3Graph :=
  match O3Graph_new demo_args (mkStream demo_lines 0) with Ok s => s | Stop _ => O3init end.
Definition demo_read : O3Graph :=
  match read_trace (S (length demo_lines)) demo_start with Ok s => s | Stop _ => O3init end.

(** A path of the demo graph from the first fetch to the first commit, and the
    one-instruction trace it belongs to. *)
Definition demo_one : O3Graph := match feed_all [demo1] with Ok s => s | Stop _ => O3init end.
Definition demo_chain : list Vertex := (fun t => ev t demo1) <$> chain_types demo1.

Lemma demo_one_built : Built [demo1] demo_one /\ get_inst_seq demo_one = 1.
Proof.
  destruct (feed_all_ok [demo1] eq_refl) as (s & Hs & Hb & Hq). unfold demo_one. rewrite Hs.
  exact (conj Hb Hq).
Qed.

Lemma demo_one_framed : Framed [demo1] 1 true demo_one.
Proof.
  destruct demo_one_built as [Hb Hq].
  apply (framed_obs [demo1] 1 false demo_one demo_one); [|by apply built_framed].
  apply obs_refl. apply (bu_inv _ _ Hb).
Qed.

Lemma demo_chain_path : is_path (graph demo_one) demo_chain.
Proof.
  destruct demo_one_built as [Hb _].
  pose proof (bu_chains _ _ Hb demo1 ltac:(set_solver)) as Hl. unfold linked in Hl.
  rewrite Forall_forall in Hl.
  assert (Hp : forall t t', (t, t') ∈ pairs_of (chain_types demo1) ->
    has_edge (graph demo_one) (ev t demo1) (ev t' demo1)).
  { intros t t' H. exact (proj1 (Hl (t, t') H)). }
  unfold is_path, demo_chain. cbn. repeat split; apply Hp; by_eval.
Qed.

(** A store that reaches memory one cycle before it completes, right after an
    instruction it waits for. *)
Definition late1 : RiscvInstruction :=
  mkInst "addi a0, a0, 1" IntAlu 65536
    (mkTick 0 2 2 0 3 0 0 0 0 0 0 4 5 5 5 0 6 0 0 8) 1 [1] 2 1 0 0 0 1.
Definition late2 : RiscvInstruction :=
  mkInst "sw a1, 0(a2)" MemWrite 65540
    (mkTick 0 2 2 0 3 0 5 0 0 0 0 6 7 7 7 8 9 0 0 10) 2 [5] (-1) 1 0 0 0 2.
Definition late_state : O3Graph := match feed_all [late1; late2] with Ok s => s | Stop _ => O3init end.
