(* ===== verification/AnalysisTheorems.v ===== *)
(** * Properties of the analysis

    The critical path, the induced graph, the searches and the report, on every
    trace; and what the analyser does with a trace it cannot handle. *)

From S2P Require Import Prelude Machine OrderedMap External Instruction Bottleneck GraphDefs.
From S2P Require Import DegBuild Interaction Induced LongestPath PathSearch Analyze GraphTheory.
From S2P Require Import TraceParse Visualizer Run TopoSort DistFacts LongestFacts Pipeline.
From S2P Require Import BuildFacts InteractFacts InducedFacts SearchFacts CriticalFacts.
From S2P Require Import CompleteFacts AnalyzeFacts RunFacts Demo.

#[local] Open Scope string_scope.
#[local] Open Scope list_scope.
#[local] Open Scope Z_scope.

Section theorems.
Context `{B : Boost} `{HB : !BoostLaws B}.

(** C1: the program as a whole.  Given a command line whose options are
    accepted, a trace file of fewer than [WINDOW] lines that parse to a
    well-timed instruction sequence in which at least one instruction waited for
    another, [main] ends normally: its critical path runs from the fetch of the
    first instruction to the commit of the last, contains a longest path of the
    induced graph, has every edge marked critical, its length is the time
    between the two events and is what the bottleneck counters add up to, and
    the report file lists the length, every edge of the path with its bottleneck
    and weight, and every counter; the drawing is that of the final graph. *)
Theorem main_correct `{G : BoostGraph} files opts args lines insts s0 s first final :
  parse_args opts = Ok args -> files (default "" (args !! "trace")) = Some lines ->
  O3Graph_new args (mkStream lines 0) = Ok s0 ->
  parse_all 0 lines = Ok insts -> Z.of_nat (length lines) < WINDOW -> trace_ok insts = true ->
  head insts = Some first -> last insts = Some final ->
  read_trace (S (length lines)) s0 = Ok s -> interacting (graph s) = true ->
  exists path r s', main files opts = Ok (s', visualize s') /\ analysed first final s path r s'.
Proof.
  intros Ha Hfile H0 Hp Hw Hok Hfirst Hfinal Hrt Hi.
  unfold main. rewrite Ha. cbn [mbind res_bind]. rewrite Hfile.
  cbn [RiscvInstructionStream_new mbind res_bind]. rewrite H0. cbn [mbind res_bind].
  pose proof (O3Graph_new_reading _ _ _ H0) as Hr. pose proof (parse_all_length _ _ _ Hp) as Hlen.
  assert (Hne : (0 < length lines)%nat) by (rewrite <- Hlen; destruct insts; simpl in *; [done|lia]).
  unfold WINDOW in Hw.
  destruct (read_trace_ok (S (length lines)) lines insts [] s0) as (s1 & Hs1 & [Hn Hb Hst]);
    [done|done|simpl; lia|lia|]. rewrite Hrt in Hs1. apply Ok_inj in Hs1 as <-.
  rewrite app_nil_l in *.
  unfold run. rewrite (re_stream _ _ _ Hr). cbn [trace].
  rewrite (run_loop_short _ WINDOW lines insts [] s0) by (done || simpl; unfold WINDOW; lia).
  rewrite Hrt. cbn [mbind res_bind]. unfold analyze.
  destruct (analyze_window_ok insts Hn (Z.of_nat (length insts)) first final) with (s := s)
    as (path & r & s' & -> & Han); try done; [by destruct insts|..].
  { unfold get_inst_seq. by rewrite Hst. }
  { by apply interacting_edge. }
  cbn [mbind res_bind]. by exists path, r, s'.
Qed.

(** C4: one window.  After any well-timed, numbered sequence of instructions in
    which one waited for another, [analyze_window] succeeds and delivers the
    critical path and the report described in C1. *)
Theorem analyze_window_correct insts s first final :
  numbered insts -> feed_all insts = Ok s -> trace_ok insts = true ->
  head insts = Some first -> last insts = Some final -> interacting (graph s) = true ->
  exists path r s', analyze_window s = Ok (path, r, s') /\ analysed first final s path r s'.
Proof.
  intros Hn Hs Hok Hfirst Hfinal Hi.
  destruct (feed_all_ok insts Hn) as (s1 & Hs1 & Hb & Hq). rewrite Hs in Hs1. apply Ok_inj in Hs1 as <-.
  eapply (analyze_window_ok insts Hn (Z.of_nat (length insts))); try done; [by destruct insts|].
  by apply interacting_edge.
Qed.

(** C12: reading instructions never fails.  For every numbered sequence of
    instructions, whatever their times and operands, [model] and
    [model_interaction] pass all their assertions and find all their vertices;
    the resulting graph is acyclic and sorted with matching predecessor lists,
    each edge is of a known kind with a registered bottleneck and, on well-timed
    traces, the exact latency; the window holds the instructions, newest first,
    and every instruction has its chain of pipeline events. *)
Theorem feed_all_correct insts :
  numbered insts ->
  exists s, feed_all insts = Ok s /\ Built insts s /\ get_inst_seq s = Z.of_nat (length insts).
Proof. apply feed_all_ok. Qed.

(** C6: the longest path.  On every acyclic event graph [longest_path_core]
    returns a path of the graph whose total cost no other path exceeds, which
    starts with a costly edge unless no edge has a cost, and whose end is the
    first in map order among the ends of longest paths; it changes the graph
    only by touching entries. *)
Theorem longest_path_core_correct (V : Vertex -> Prop) `{!VertexSet V} s :
  WfDeg V (graph s) (pred s) -> Forall (fun x => x.2 <> []) (pred s) -> graph s <> [] ->
  exists path s', longest_path_core s = Ok (path, s') /\ obs V s s' /\ longest (graph s) path.
Proof. apply longest_path_core_ok; done. Qed.

(** C9: topological sorting.  On every acyclic event graph Kahn's algorithm
    terminates within the bound, passes its two assertions and returns every
    vertex exactly once, each after all its predecessors. *)
Theorem topological_sort_correct (V : Vertex -> Prop) `{!VertexSet V} s :
  WfDeg V (graph s) (pred s) -> Forall (fun x => x.2 <> []) (pred s) ->
  exists ret s', topological_sort s = Ok (ret, s') /\ NoDup ret /\
    (forall x, x ∈ ret <-> verts (graph s) x) /\
    (forall l1 v l2 u, ret = l1 ++ v :: l2 -> has_edge (graph s) u v -> u ∈ l1) /\
    edges (graph s') ≡ₚ edges (graph s).
Proof.
  intros Hwf Hne. destruct (topological_sort_ok V Hwf Hne s eq_refl eq_refl)
    as (ret & g' & -> & Hnd & Hin & Ho & Ht).
  exists ret, (set_graph s g'). split; [done|]. split_and!; [done..|exact Ho|].
  apply (t_edges _ _ _ Ht).
Qed.

(** C22: the induced graph.  [construct_induced_graph] keeps every edge and the
    whole invariant, and adds only virtual edges of cost 0 that lead forward in
    program order and not backward in time.  Both ends of every skewed edge (an edge
    between two instructions) are joined to the skewed edges that come next in time:
    of those that start in a later instruction and no earlier than the end and the edge,
    each with the earliest start; and then, in the graph so extended, to the one next in
    program order.  Vertices of one instruction at one time are not told apart: one of
    them, which starts a skewed edge, is joined in place of the others. *)
Theorem construct_induced_graph_correct insts s :
  numbered insts -> Built insts s ->
  Ext insts false s (construct_induced_graph s) /\
  (forall x, x ∈ edges (graph (construct_induced_graph s)) ->
     x ∈ edges (graph s) \/ forward_virtual x) /\
  joined_in_time (graph s) (construct_induced_graph s) /\
  joined_in_order (graph (add_virtual_edge_via_timing s)) (construct_induced_graph s).
Proof.
  intros Hn Hb. destruct (construct_induced_graph_ok insts Hn s (bu_inv _ _ Hb)) as [[H1 H2] H3].
  by split.
Qed.

(** C27: depth-first search.  With the fuel the analyser's callers give it,
    [find_path] answers [true] with a path from the source to the target, or
    [false] when the graph has none. *)
Theorem find_path_correct (V : Vertex -> Prop) `{!VertexSet V} s v t :
  WfDeg V (graph s) (pred s) -> verts (graph s) v ->
  exists b path s', find_path (S (S (num_edges (graph s)))) s v t = Ok (b, path, s') /\
    obs V s s' /\ found (graph s) b path v t.
Proof.
  intros Hwf Hv. apply (find_path_ok V); [done..|].
  pose proof (ahead_le (graph s) v). lia.
Qed.

(** Breadth-first search.  [if_exist_path] always answers, leaves the edges
    alone, and when it answers [true] there is a path. *)
Theorem if_exist_path_sound (V : Vertex -> Prop) `{!VertexSet V} s src t :
  WfDeg V (graph s) (pred s) -> verts (graph s) src ->
  exists b s', if_exist_path s src t = Ok (b, s') /\ obs V s s' /\
    (b = true -> exists l, is_path (graph s) (src :: l ++ [t])).
Proof. apply if_exist_path_ok; done. Qed.

(** C23: the report adds up on every path.  For any path of the graph from the
    first fetch to the last commit of a well-timed trace, not only the longest,
    [profiling_critical_path] passes its assertion that the weights add up to
    the time between the two events, every edge's bottleneck is known, and the
    counters add up to that length. *)
Theorem profiling_critical_path_correct insts first final s path :
  numbered insts -> head insts = Some first -> last insts = Some final -> trace_ok insts = true ->
  Framed insts (Z.of_nat (length insts)) true s -> is_path (graph s) path ->
  head path = Some (source first) -> last path = Some (sink final) ->
  exists r s', profiling_critical_path s path = Ok (r, s') /\
    get_length r = commit final - fetch_cache_line first /\ counters_total r = get_length r.
Proof.
  intros Hn Hf Hl Hok Hfr Hp Hh Hlast.
  destruct (profiling_critical_path_ok insts Hn (Z.of_nat (length insts)) first final) with (s := s) (path := path)
    as (r & s' & Heq & _ & _ & H1 & H2 & _); try done; [by destruct insts|].
  by exists r, s'.
Qed.

(** A trace in which no instruction waits for another.  The longest path is
    then empty and [longest_path_impl] reads its first element: undefined. *)
Theorem no_interaction_undefined insts s :
  numbered insts -> insts <> [] -> feed_all insts = Ok s -> interacting (graph s) = false ->
  analyze_window s = Stop Undefined.
Proof.
  intros Hn Hne Hs Hi. destruct (feed_all_ok insts Hn) as (s1 & Hs1 & Hb & Hq).
  rewrite Hs in Hs1. apply Ok_inj in Hs1 as <-. by apply (analyze_not_interacting insts).
Qed.

(** A trace that fills the window.  The main loop analyses when the number
    of instructions read reaches the window, before the last one is in the
    graph: the sink is missing and the program stops, for every parsable trace
    of at least [win] lines.  [run] uses [win = WINDOW]. *)
Theorem full_window_stops win args lines insts s :
  O3Graph_new args (mkStream lines 0) = Ok s -> parse_all 0 lines = Ok insts ->
  1 < win <= Z.of_nat (length lines) -> Z.of_nat (length lines) < 2 ^ 64 ->
  exists e, run_loop (S (length lines)) win s = Stop e /\ (e = ErrorExit \/ e = Undefined).
Proof.
  intros H0 Hp Hw H64. pose proof (O3Graph_new_reading _ _ _ H0) as Hr.
  apply (run_loop_long _ win lines insts []); [done|done|simpl; lia|simpl; lia|simpl; lia|lia].
Qed.

(** C26: the main loop on a trace shorter than the window.  It reads the lines to
    the end, numbers the instructions from 1 in the order of the lines, builds
    exactly the graph of that sequence, and analyses it once. *)
Theorem run_loop_reads_all win args lines insts s0 :
  O3Graph_new args (mkStream lines 0) = Ok s0 -> parse_all 0 lines = Ok insts ->
  0 < Z.of_nat (length lines) < win -> win <= 2 ^ 64 ->
  exists s, run_loop (S (length lines)) win s0 = analyze s /\ numbered insts /\ Built insts s /\
    inst_stream s = mkStream [] (Z.of_nat (length insts)).
Proof.
  intros H0 Hp Hl Hw. pose proof (O3Graph_new_reading _ _ _ H0) as Hr.
  destruct (read_trace_ok (S (length lines)) lines insts [] s0) as (s & Hs & [H1 H2 H3]);
    [done|done|simpl; lia|lia|]. rewrite app_nil_l in *. exists s.
  rewrite (run_loop_short _ win lines insts [] s0) by (done || simpl; lia).
  by rewrite Hs.
Qed.

(** Adding a virtual edge twice is adding it once: the edge, or an edge of
    the graph between the same vertices, is found, and the state is the same. *)
Theorem add_virtual_edge_idempotent s u v :
  let s1 := add_virtual_edge s u v in
  add_virtual_edge s1 u v = s1 /\
  (u <> v -> exists e, e ∈ children (graph s1) u /\ child e = v).
Proof.
  intros s1. subst s1. destruct (decide (u = v)) as [->|Hne].
  { unfold add_virtual_edge. by rewrite !Vertex_eqb_refl. }
  assert (Hin : exists es e, om_find VertexCompare u (graph (add_virtual_edge s u v)) = Some es /\
    e ∈ es /\ child e = v).
  { unfold add_virtual_edge, if_exist_edge, touch. rewrite (proj2 (Vertex_eqb_neq u v) Hne).
    destruct (existsb _ _) eqn:E; simpl; rewrite (om_find_upd_same VertexCompare) by done.
    - apply existsb_exists in E as (e & He%list_elem_of_In & Hv%Vertex_eqb_eq).
      eexists _, e. done.
    - eexists _, (mkEdge v _ 0 Virtual false true). split; [done|]. split; [|done].
      apply elem_of_app. right. by apply list_elem_of_singleton. }
  destruct Hin as (es & e & Hes & He & Hv). set (s1 := add_virtual_edge s u v) in *.
  split; [|intros _; exists e; unfold children; by rewrite Hes].
  unfold add_virtual_edge, if_exist_edge. rewrite (proj2 (Vertex_eqb_neq u v) Hne).
  unfold children. rewrite Hes. simpl.
  rewrite (proj2 (existsb_exists _ _)); [|by exists e; rewrite <- list_elem_of_In, Hv, Vertex_eqb_refl].
  unfold touch. rewrite (om_upd_present u es _ _ Hes). by destruct s1.
Qed.

End theorems.

(** ** Witnesses *)

Lemma main_correct_witness :
  exists path r s', main demo_files demo_opts = Ok (s', visualize s') /\
    analysed demo1 demo5 demo_read path r s'.
Proof.
  apply (main_correct demo_files demo_opts demo_args demo_lines demo demo_start demo_read demo1 demo5);
    vm_compute; reflexivity.
Defined.

Lemma analyze_window_correct_witness :
  exists path r s', analyze_window demo_state = Ok (path, r, s') /\
    analysed demo1 demo5 demo_state path r s'.
Proof.
  apply (analyze_window_correct demo demo_state demo1 demo5);
    [exact demo_numbered|exact demo_feed|exact demo_trace_ok|reflexivity..|exact demo_interacting].
Defined.

Lemma feed_all_correct_witness :
  exists s, feed_all demo = Ok s /\ Built demo s /\ get_inst_seq s = Z.of_nat (length demo).
Proof. apply (feed_all_correct demo). reflexivity. Defined.

Lemma longest_path_core_correct_witness :
  exists path s', longest_path_core demo_state = Ok (path, s') /\
    obs (V demo) demo_state s' /\ longest (graph demo_state) path.
Proof.
  apply (longest_path_core_correct (V demo) (VertexSet0 := V_vertex_set demo demo_numbered) demo_state);
    [exact demo_wf|exact demo_preds|exact demo_nonempty].
Defined.

Lemma topological_sort_correct_witness :
  exists ret s', topological_sort demo_state = Ok (ret, s') /\ NoDup ret /\
    (forall x, x ∈ ret <-> verts (graph demo_state) x) /\
    (forall l1 v l2 u, ret = l1 ++ v :: l2 -> has_edge (graph demo_state) u v -> u ∈ l1) /\
    edges (graph s') ≡ₚ edges (graph demo_state).
Proof.
  apply (topological_sort_correct (V demo) (VertexSet0 := V_vertex_set demo demo_numbered) demo_state);
    [exact demo_wf|exact demo_preds].
Defined.

Lemma construct_induced_graph_correct_witness :
  Ext demo false demo_state (construct_induced_graph demo_state) /\
  (forall x, x ∈ edges (graph (construct_induced_graph demo_state)) ->
     x ∈ edges (graph demo_state) \/ forward_virtual x) /\
  joined_in_time (graph demo_state) (construct_induced_graph demo_state) /\
  joined_in_order (graph (add_virtual_edge_via_timing demo_state)) (construct_induced_graph demo_state).
Proof.
  apply (construct_induced_graph_correct demo demo_state);
    [exact demo_numbered|exact (proj1 demo_built)].
Defined.

(** From the first fetch to the last commit. *)
Lemma find_path_correct_witness :
  exists b path s',
    find_path (S (S (num_edges (graph demo_state)))) demo_state (ev VT.F1 demo1) (ev VT.C demo1) =
      Ok (b, path, s') /\
    obs (V demo) demo_state s' /\ found (graph demo_state) b path (ev VT.F1 demo1) (ev VT.C demo1).
Proof.
  apply (find_path_correct (V demo) (VertexSet0 := V_vertex_set demo demo_numbered) demo_state);
    [exact demo_wf|exact demo_source].
Defined.

Lemma if_exist_path_sound_witness :
  exists b s', if_exist_path demo_state (ev VT.F1 demo1) (ev VT.C demo5) = Ok (b, s') /\
    obs (V demo) demo_state s' /\
    (b = true -> exists l, is_path (graph demo_state) (ev VT.F1 demo1 :: l ++ [ev VT.C demo5])).
Proof.
  apply (if_exist_path_sound (V demo) (VertexSet0 := V_vertex_set demo demo_numbered) demo_state);
    [exact demo_wf|exact demo_source].
Defined.

Lemma profiling_critical_path_correct_witness :
  exists r s', profiling_critical_path demo_one demo_chain = Ok (r, s') /\
    get_length r = 8 /\ counters_total r = get_length r.
Proof.
  apply (profiling_critical_path_correct [demo1] demo1 demo1 demo_one demo_chain).
  - reflexivity.
  - reflexivity.
  - reflexivity.
  - vm_compute. reflexivity.
  - exact demo_one_framed.
  - exact demo_chain_path.
  - reflexivity.
  - reflexivity.
Defined.

(** One instruction is enough: it cannot wait for another. *)
Lemma no_interaction_undefined_witness : analyze_window demo_one = Stop Undefined.
Proof.
  apply (no_interaction_undefined [demo1] demo_one).
  - reflexivity.
  - discriminate.
  - vm_compute. reflexivity.
  - vm_compute. reflexivity.
Defined.

Lemma full_window_stops_witness :
  exists e, run_loop (S (length demo_lines)) 3 demo_start = Stop e /\ (e = ErrorExit \/ e = Undefined).
Proof.
  apply (full_window_stops 3 demo_args demo_lines demo demo_start).
  - vm_compute. reflexivity.
  - vm_compute. reflexivity.
  - split; [reflexivity|discriminate].
  - reflexivity.
Defined.

Lemma run_loop_reads_all_witness :
  exists s, run_loop (S (length demo_lines)) WINDOW demo_start = analyze s /\ numbered demo /\
    Built demo s /\ inst_stream s = mkStream [] 5.
Proof.
  apply (run_loop_reads_all WINDOW demo_args demo_lines demo demo_start).
  - vm_compute. reflexivity.
  - vm_compute. reflexivity.
  - split; reflexivity.
  - discriminate.
Defined.

(** ** A store that completes after its memory event *)

(** The weights of a store's edges do not telescope when its memory event
    comes before its completion: on a two-instruction trace with times in
    pipeline order, the assertion on the length of the critical path fails. *)
Theorem store_latency_mismatch :
  numbered [late1; late2] /\ memory late2 < complete late2 <= commit late2 /\
  feed_all [late1; late2] = Ok late_state /\ analyze_window late_state = Stop AssertFail.
Proof. split_and!; by vm_compute. Qed.

(** The breadth-first test looks for an edge from a child of the source to
    the target, so it misses an edge from the source itself. *)
Theorem if_exist_path_misses_edge :
  has_edge (graph demo_one) (ev VT.F1 demo1) (ev VT.F2F demo1) /\
  exists s', if_exist_path demo_one (ev VT.F1 demo1) (ev VT.F2F demo1) = Ok (false, s').
Proof.
  split.
  - exact (proj1 demo_chain_path).
  - eexists. vm_compute. reflexivity.
Qed.
