(* ===== verification/BuildTheorems.v ===== *)
(** * Properties of the event graph's construction

    What [model] and each interaction add for one instruction, exactly; how
    vertices are created, named, ordered and found again. *)

From S2P Require Import Prelude Machine OrderedMap External Instruction Bottleneck GraphDefs.
From S2P Require Import DegBuild Interaction GraphTheory Pipeline BuildFacts InteractFacts.
From S2P Require Import Demo.

#[local] Open Scope string_scope.
#[local] Open Scope list_scope.
#[local] Open Scope Z_scope.

(** ** Specifications of the interactions *)

(** The edge by which instruction [j] delays the rename of [i]. *)
Definition rename_edge `{B : Boost} (s : O3Graph) (j i : RiscvInstruction) (b : Bottleneck) : O3Graph :=
  let w := lat_sub (rename i) (rename j) in
  connect s (ev VT.R j) (OutgoingEdge_new (ev VT.R i) w w b).

(** When blocked, the most recent instruction with the same resource entry
    delays the rename. *)
Definition blocked_on `{B : Boost} (blocked : bool) (entry : RiscvInstruction -> Z) (b : Bottleneck)
    (s : O3Graph) (i : RiscvInstruction) : O3Graph :=
  if blocked then
    match find_first (fun j => entry j =? entry i) (inst_window s) with
    | Some j => rename_edge s j i b
    | None => s
    end
  else s.

(** An edge between the issue events of [j] and [i], each merged with its
    dispatch or not. *)
Definition issue_edge `{B : Boost} (s : O3Graph) (j i : RiscvInstruction) (b : Z -> Bottleneck)
    (s' : O3Graph) : Prop :=
  exists t t', (t = VT.I \/ t = VT.DI) /\ (t' = VT.I \/ t' = VT.DI) /\
    t ∈ chain_types j /\ t' ∈ chain_types i /\
    let w := lat_sub (issue i) (issue j) in
    s' = connect s (ev t j) (OutgoingEdge_new (ev t' i) w w (b w)).

Section theorems.
Context `{B : Boost} `{HB : !BoostLaws B}.

(** C32: [model] adds exactly the chain of pipeline events of the instruction,
    one edge between each two consecutive events, whose weight is the time
    between them when the instruction is well timed; none of its assertions
    fails, whichever events coincide. *)
Theorem model_adds_chain i :
  exists hs, hs_pair <$> hs = pairs_of (chain_types i) /\ Forall (hs_exact i) hs /\
    forall s, get_inst_seq s = inst_seq i -> model s i = Ok (foldl (hs_add i) s hs).
Proof.
  destruct (model_front_adds i) as (h1 & P1 & X1 & E1).
  destruct (model_middle_adds i) as (h2 & P2 & X2 & E2).
  destruct (model_back_adds i) as (h3 & P3 & X3 & E3).
  exists (h1 ++ h2 ++ h3). split; [by rewrite !fmap_app, P1, P2, P3, chain_types_parts|].
  split; [by rewrite !Forall_app|]. intros s Hseq. unfold model.
  rewrite E1 by done. cbn [mbind res_bind]. rewrite E2 by (by rewrite hs_adds_seq).
  cbn [mbind res_bind]. rewrite E3 by (by rewrite !hs_adds_seq). by rewrite !foldl_app.
Qed.

Section ready.
Context (insts : list RiscvInstruction) (Hnum : numbered insts).

Lemma link_rename_exact link b i s dep :
  ready insts i s -> (forall j, dep = Some j -> j ∈ inst_window s) ->
  (forall s j, link s (ev VT.R j) (ev VT.R i) = rename_edge s j i b) ->
  link_rename link s i dep = Ok match dep with Some j => rename_edge s j i b | None => s end.
Proof.
  intros Hs Hd Hl. unfold link_rename. destruct dep as [j|]; [|done].
  rewrite !(get_R insts i s) by auto. cbn [mbind res_bind]. by rewrite Hl.
Qed.

Lemma link_blocked link b i s (blocked : bool) entry :
  ready insts i s -> (forall s j, link s (ev VT.R j) (ev VT.R i) = rename_edge s j i b) ->
  (if blocked then link_rename link s i (find_first (fun j => entry j =? entry i) (inst_window s))
   else Ok s) = Ok (blocked_on blocked entry b s i).
Proof.
  intros Hs Hl. unfold blocked_on. destruct blocked; [|done].
  rewrite (link_rename_exact link b) by (done || by intros j [? ?]%find_first_some).
  by destruct (find_first _ _).
Qed.

(** C33: the reorder buffer, the load queue, the store queue and the instruction
    queue.  When the instruction was blocked on one of them (a load for the load
    queue, a store for the store queue), the most recent earlier instruction
    with the same entry delays its rename, by an edge with that resource's name
    and the time between the two renames; otherwise nothing changes. *)
Theorem resource_interactions_exact i s :
  ready insts i s ->
  model_rob_interaction_impl s i = Ok (blocked_on (negb (block_from_rob i =? 0)) rob ROB s i) /\
  model_lq_interaction_impl s i =
    Ok (blocked_on (negb (block_from_lq i =? 0) && is_load i) lq LQ s i) /\
  model_sq_interaction_impl s i =
    Ok (blocked_on (negb (block_from_sq i =? 0) && is_store i) sq SQ s i) /\
  model_iq_interaction_impl s i = Ok (blocked_on (negb (block_from_iq i =? 0)) iq IQ s i).
Proof.
  intros Hs. split_and!.
  - rewrite <- (link_blocked from_r_to_r_rob) by done. unfold model_rob_interaction_impl.
    by destruct (block_from_rob i =? 0).
  - by rewrite <- (link_blocked from_r_to_r_lq).
  - by rewrite <- (link_blocked from_r_to_r_sq).
  - rewrite <- (link_blocked from_r_to_r_iq) by done. unfold model_iq_interaction_impl.
    by destruct (block_from_iq i =? 0).
Qed.

(** Physical registers.  A blocked instruction is delayed by the most
    recent earlier one that reads or writes its destination register, under the
    name of the register file its type uses; a type that uses neither gets no
    edge. *)
Theorem rf_interaction_exact i s :
  ready insts i s -> block_from_rf i <> 0 ->
  model_rf_interaction_impl s i =
    Ok match find_first (fun j => bool_decide (dst i ∈ src j) || (dst i =? dst j)) (inst_window s),
             rf_bottleneck i with
       | Some j, Some b => rename_edge s j i b
       | _, _ => s
       end.
Proof.
  intros Hs Hb. unfold model_rf_interaction_impl. rewrite (proj2 (Z.eqb_neq _ _) Hb).
  assert (Hf : forall w, (forall j, j ∈ w -> j ∈ inst_window s) -> find_rf_dep i w =
    Ok (find_first (fun j => bool_decide (dst i ∈ src j) || (dst i =? dst j)) w)).
  { induction w as [|j w IH]; intros Hw; [done|]. cbn [find_rf_dep find_first]. unfold war_dep.
    destruct (rd_window _ _ _ Hs j) as (_ & Hlt & _); [apply Hw; set_solver|].
    rewrite (proj2 (Z.ltb_lt _ _) Hlt). cbn [ppk_assert mbind res_bind].
    unfold wrw_dep. case_match; [done|]. apply IH. set_solver. }
  rewrite Hf by done. cbn [mbind res_bind].
  destruct (find_first _ _) as [j|] eqn:E; [|done]. apply find_first_some in E as [Hj _].
  rewrite !(get_R insts i s) by auto. cbn [mbind res_bind]. by destruct (rf_bottleneck i).
Qed.

Lemma get_issue i s j :
  ready insts i s -> i ∈ insts -> j ∈ inst_window s ->
  exists t t', get_vertex_from_inst s j VT.I = Ok (ev t j) /\
    get_vertex_from_inst s i VT.I = Ok (ev t' i) /\
    (t = VT.I \/ t = VT.DI) /\ (t' = VT.I \/ t' = VT.DI) /\ t ∈ chain_types j /\ t' ∈ chain_types i.
Proof using HB Hnum.
  intros Hs Hi Hj. destruct (get_I insts Hnum i Hi s j Hs) as (t & -> & ? & ?); [by left|].
  destruct (get_I insts Hnum i Hi s i Hs) as (t' & -> & ? & ?); [by right|].
  exists t, t'. done.
Qed.

(** Functional units.  An instruction that was ready before it issued is
    delayed by the most recent earlier one on the same unit that issued before
    it and had not completed; the edge joins the two issue events, has the name
    of the unit and the time between the two. *)
Theorem fu_interaction_exact i s j b :
  ready insts i s -> i ∈ insts -> insert_ready_list i < issue i ->
  find_first (fu_dep i) (inst_window s) = Some j -> fu_bottleneck i = Some b ->
  exists s', model_fu_interaction_impl s i = Ok s' /\ issue_edge s j i (fun _ => b) s'.
Proof.
  intros Hs Hi Hlt Hj Hb. unfold model_fu_interaction_impl. rewrite (proj2 (Z.ltb_lt _ _) Hlt).
  destruct (find_first_some _ _ _ Hj) as [Hin _].
  destruct (get_issue i s j Hs Hi Hin) as (t & t' & Gj & Gi & H1 & H2 & H3 & H4).
  exists (connect s (ev t j) (OutgoingEdge_new (ev t' i) (lat_sub (issue i) (issue j))
    (lat_sub (issue i) (issue j)) b)). split; [|by exists t, t'].
  revert Hj. generalize (inst_window s) as w. induction w as [|k w IH]; [done|].
  cbn [find_first fu_loop]. destruct (fu_dep i k); [|apply IH]. intros [= ->].
  rewrite Gj, Gi, Hb. done.
Qed.

(** Data dependences.  An instruction dispatched before its operands were
    ready is delayed by the most recent earlier producer of one of them, with a
    read-after-write edge, or, if that is a load, a cache edge that is a miss
    unless the delay is the hit latency; without a producer nothing changes.
    The latest-completing producer that the code's inner loop and bound of 50
    are meant for plays no part. *)
Theorem raw_interaction_nearest i s :
  ready insts i s -> i ∈ insts -> dispatch i < insert_ready_list i ->
  Forall (fun j => 0 < completion j) (inst_window s) ->
  match find_first (fun j => bool_decide (dst j ∈ src i)) (inst_window s) with
  | None => model_raw_interaction_impl s i = Ok s
  | Some j => exists s', model_raw_interaction_impl s i = Ok s' /\
      issue_edge s j i (fun w => if is_load j then (if w =? 2 then Base else DcacheMiss) else RAW) s'
  end.
Proof.
  intros Hs Hi Hlt Hc. unfold model_raw_interaction_impl. rewrite (proj2 (Z.ltb_lt _ _) Hlt).
  pose proof (raw_outer_nearest i (S (length (inst_window s))) (inst_window s) 0 RAW_CONST) as Hn.
  change (Z.of_nat 0) with 0 in Hn.
  rewrite Hn; [|apply Forall_and; split; [by eapply window_older|done]|done|lia..]. clear Hn.
  cbn [mbind res_bind]. rewrite drop_0. unfold reads.
  destruct (find_first _ _) as [j|] eqn:E; [|done]. apply find_first_some in E as [Hj _].
  destruct (get_issue i s j Hs Hi Hj) as (t & t' & -> & -> & H1 & H2 & H3 & H4).
  cbn [mbind res_bind]. eexists. split; [done|]. exists t, t'. split_and!; [done..|].
  simpl. by destruct (is_load j).
Qed.

(** [j] produces an operand of [i]. *)
Definition produces (i j : RiscvInstruction) : Prop := dst j ∈ src i.
#[global] Instance produces_dec i j : Decision (produces i j) := decide (dst j ∈ src i).
#[global] Typeclasses Opaque produces.
(** Of the producers in the window, [j] completes last. *)
Definition latest_producer (i : RiscvInstruction) (w : list RiscvInstruction) (j : RiscvInstruction) : Prop :=
  j ∈ w /\ produces i j /\ forall k, k ∈ w -> produces i k -> completion k <= completion j.

Lemma latest_is_first i w j :
  StronglySorted (fun j k => completion k < completion j) (filter (produces i) w) ->
  latest_producer i w j -> find_first (fun j => bool_decide (dst j ∈ src i)) w = Some j.
Proof using.
  intros Hs (Hin & Hp & Hl). induction w as [|k w IH]; [by apply not_elem_of_nil in Hin|].
  cbn [find_first]. destruct (decide (produces i k)) as [Hk|Hk].
  - rewrite bool_decide_true by done. rewrite filter_cons_True in Hs by done.
    apply StronglySorted_inv in Hs as [_ Hf]. apply elem_of_cons in Hin as [->|Hin]; [done|].
    rewrite Forall_forall in Hf. specialize (Hf j ltac:(by apply list_elem_of_filter)).
    specialize (Hl k ltac:(left) Hk). lia.
  - rewrite bool_decide_false by done. rewrite filter_cons_False in Hs by done.
    apply IH; [done| |intros; apply Hl; [by right|done]].
    apply elem_of_cons in Hin as [->|?]; done.
Qed.

(** C34: data dependences.  Take an instruction that was dispatched before its
    operands were ready, and suppose that the times of the window are positive and the
    producers of its operands complete in program order.  Then the producer that
    completes last delays its issue: by a read-after-write edge between the two issue
    events, or, if the producer is a load, a cache edge that is a miss unless the delay
    is the hit latency of 2, with the time between the two; without a producer nothing
    changes.  (Where producers do not complete in program order, the code takes the
    most recent one: [raw_interaction_nearest].) *)
Theorem raw_interaction_latest i s :
  ready insts i s -> i ∈ insts -> dispatch i < insert_ready_list i ->
  Forall (fun j => 0 < completion j) (inst_window s) ->
  StronglySorted (fun j k => completion k < completion j) (filter (produces i) (inst_window s)) ->
  (filter (produces i) (inst_window s) = [] -> model_raw_interaction_impl s i = Ok s) /\
  (forall j, latest_producer i (inst_window s) j ->
     exists s', model_raw_interaction_impl s i = Ok s' /\
       issue_edge s j i (fun w => if is_load j then (if w =? 2 then Base else DcacheMiss) else RAW) s').
Proof.
  intros Hs Hi Hlt Hc Hso. pose proof (raw_interaction_nearest i s Hs Hi Hlt Hc) as H. split.
  - intros Hn. destruct (find_first _ _) as [j|] eqn:E; [|done]. exfalso.
    apply find_first_some in E as [Hj Hp]. apply bool_decide_eq_true_1 in Hp.
    assert (Hf : j ∈ filter (produces i) (inst_window s)) by (by apply list_elem_of_filter).
    rewrite Hn in Hf. by apply not_elem_of_nil in Hf.
  - intros j Hj. by rewrite (latest_is_first i (inst_window s) j Hso Hj) in H.
Qed.

(** Branch misprediction.  When the previous instruction is a control
    instruction that completed before this one was fetched, the completion event
    (merged with its memory event or not) delays the fetch, by the time between
    them. *)
Theorem miss_bp_interaction_exact i s j w :
  ready insts i s -> i ∈ insts -> inst_window s = j :: w -> is_control j = true ->
  complete j < fetch_cache_line i ->
  exists t, (t = VT.P \/ t = VT.MP) /\ t ∈ chain_types j /\
    let d := lat_sub (fetch_cache_line i) (complete j) in
    model_miss_bp_interaction_impl s i =
      Ok (connect s (ev t j) (OutgoingEdge_new (ev VT.F1 i) d d BPMiss)).
Proof.
  intros Hs Hi Hw Hc Hlt. unfold model_miss_bp_interaction_impl.
  rewrite Hw, Hc, (proj2 (Z.ltb_lt _ _) Hlt). cbn [andb].
  destruct (get_P insts Hnum i Hi s j Hs) as (t & -> & Ht & Hor); [left; rewrite Hw; set_solver|].
  rewrite (get_F1 insts i s Hs). by exists t.
Qed.

(** All interactions of one instruction succeed, in whatever order their
    edges fall, and only extend the graph: no edge, vertex entry or window
    changes, and the invariant holds again. *)
Theorem model_interaction_extends i s :
  ready insts i s -> i ∈ insts ->
  exists s', model_interaction_impl s i = Ok s' /\ Ext insts false s s'.
Proof. intros Hs Hi. by apply (model_interaction_impl_ok insts Hnum i Hi s). Qed.

(** Looking an event up finds the vertex of that event, or of the merged
    event that stands for it. *)
Theorem get_vertex_from_inst_correct s i t :
  Inv insts false s -> i ∈ insts -> recorded s i -> t <> VT.C ->
  t ∈ chain_types i \/ (exists t', merged_type t = Some t' /\ t' ∈ chain_types i) ->
  exists t', get_vertex_from_inst s i t = Ok (ev t' i) /\ t' ∈ chain_types i /\
    (t' = t \/ merged_type t = Some t').
Proof. by apply get_vertex_ok. Qed.

End ready.
End theorems.

(** ** Witnesses *)

Lemma resource_interactions_exact_witness :
  model_rob_interaction_impl demo_fifth demo5 = Ok (blocked_on false rob ROB demo_fifth demo5) /\
  model_iq_interaction_impl demo_fifth demo5 = Ok (blocked_on true iq IQ demo_fifth demo5).
Proof.
  destruct (resource_interactions_exact demo demo5 demo_fifth demo_fifth_ready) as (H1 & _ & _ & H2).
  exact (conj H1 H2).
Defined.

Lemma rf_interaction_exact_witness :
  block_from_rf demo5 <> 0 /\
  model_rf_interaction_impl demo_fifth demo5 = Ok (rename_edge demo_fifth demo4 demo5 IntRF).
Proof.
  split; [discriminate|].
  assert (Hw : inst_window demo_fifth = [demo4; demo3; demo2; demo1]) by (vm_compute; reflexivity).
  pose proof (rf_interaction_exact demo eq_refl demo5 demo_fifth demo_fifth_ready ltac:(discriminate)) as H.
  rewrite Hw in H. exact H.
Defined.

Lemma fu_interaction_exact_witness :
  exists s', model_fu_interaction_impl demo_third demo3 = Ok s' /\
    issue_edge demo_third demo2 demo3 (fun _ => RdWrPort) s'.
Proof.
  apply (fu_interaction_exact [demo1; demo2; demo3] eq_refl demo3 demo_third demo2 RdWrPort).
  - exact demo_third_ready.
  - by_eval.
  - reflexivity.
  - vm_compute. reflexivity.
  - reflexivity.
Defined.

Lemma raw_interaction_nearest_witness :
  exists s', model_raw_interaction_impl demo_third demo3 = Ok s' /\
    issue_edge demo_third demo2 demo3 (fun w => if w =? 2 then Base else DcacheMiss) s'.
Proof.
  assert (Hw : inst_window demo_third = [demo2; demo1]) by (vm_compute; reflexivity).
  pose proof (raw_interaction_nearest [demo1; demo2; demo3] eq_refl demo3 demo_third demo_third_ready) as H.
  rewrite Hw in H. apply H.
  - by_eval.
  - reflexivity.
  - repeat constructor.
Defined.

Lemma raw_interaction_latest_witness :
  exists s', model_raw_interaction_impl demo_third demo3 = Ok s' /\
    issue_edge demo_third demo2 demo3 (fun w => if w =? 2 then Base else DcacheMiss) s'.
Proof.
  assert (Hw : inst_window demo_third = [demo2; demo1]) by (vm_compute; reflexivity).
  pose proof (raw_interaction_latest [demo1; demo2; demo3] eq_refl demo3 demo_third demo_third_ready) as H.
  rewrite Hw in H.
  assert (Hf : filter (produces demo3) [demo2; demo1] = [demo2; demo1]) by (vm_compute; reflexivity).
  rewrite Hf in H. destruct H as [_ H].
  - by_eval.
  - reflexivity.
  - repeat constructor.
  - repeat constructor.
  - apply (H demo2). split; [left|]. split; [by_eval|]. intros k Hk _.
    apply elem_of_cons in Hk as [->|Hk]; [reflexivity|].
    apply list_elem_of_singleton in Hk as ->. vm_compute. discriminate.
Defined.

Lemma miss_bp_interaction_exact_witness :
  exists t, (t = VT.P \/ t = VT.MP) /\ t ∈ chain_types demo4 /\
    model_miss_bp_interaction_impl demo_fifth demo5 =
      Ok (connect demo_fifth (ev t demo4) (OutgoingEdge_new (ev VT.F1 demo5) 8 8 BPMiss)).
Proof.
  apply (miss_bp_interaction_exact demo eq_refl demo5 demo_fifth demo4 [demo3; demo2; demo1]).
  - exact demo_fifth_ready.
  - by_eval.
  - vm_compute. reflexivity.
  - vm_compute. reflexivity.
  - reflexivity.
Defined.

Lemma model_interaction_extends_witness :
  exists s', model_interaction_impl demo_fifth demo5 = Ok s' /\ Ext demo false demo_fifth s'.
Proof.
  apply (model_interaction_extends demo eq_refl demo5 demo_fifth demo_fifth_ready).
  by_eval.
Defined.

(** The dispatch of the fourth instruction is an event of its own, that of the
    fifth is merged with its issue. *)
Lemma get_vertex_from_inst_correct_witness :
  exists t', get_vertex_from_inst demo_fifth demo5 VT.DS = Ok (ev t' demo5) /\
    t' ∈ chain_types demo5 /\ (t' = VT.DS \/ merged_type VT.DS = Some t').
Proof.
  apply (get_vertex_from_inst_correct demo eq_refl demo_fifth demo5 VT.DS).
  - exact (rd_inv _ _ _ demo_fifth_ready).
  - by_eval.
  - exact (rd_self _ _ _ demo_fifth_ready).
  - discriminate.
  - right. exists VT.DI. split; [reflexivity|]. by_eval.
Defined.
