(* ===== verification/IoTheorems.v ===== *)
(** * Properties of the parts around the graph

    Reading lines, options and numbers; vertices and their identities; latencies
    and counters; the report's numbers; the drawing. *)

From stdpp Require Import pretty.
From S2P Require Import Prelude Machine OrderedMap External Instruction Bottleneck GraphDefs.
From S2P Require Import DegBuild Interaction Analyze GraphTheory TraceParse Visualizer Run Pipeline.
From S2P Require Import BuildFacts InteractFacts ParseFacts Demo.

#[local] Open Scope string_scope.
#[local] Open Scope list_scope.
#[local] Open Scope Z_scope.

(** ** Options *)

(** What an accepted option sets. *)
Definition binding (o : ascii * option string) : option (string * string) :=
  let '(c, optarg) := o in
  if Ascii.eqb c "t" then pair "trace" <$> optarg
  else if Ascii.eqb c "o" then pair "output" <$> optarg
  else if Ascii.eqb c "v" then Some ("view", "view")
  else if Ascii.eqb c "s" then pair "start" <$> optarg
  else if Ascii.eqb c "e" then pair "end" <$> optarg
  else None.

Lemma parse_opt_binding args o k v :
  binding o = Some (k, v) -> parse_opt args o = Ok (<[k := v]> args).
Proof.
  destruct o as [c optarg]. unfold binding, parse_opt. intros H.
  destruct (Ascii.eqb_spec c "h") as [->|_]; [done|].
  repeat case_match; destruct optarg; simplify_eq/=; done.
Qed.

Lemma parse_opts_bindings opts kvs m :
  binding <$> opts = Some <$> kvs ->
  res_fold parse_opt m opts = Ok (foldl (fun m kv => <[kv.1 := kv.2]> m) m kvs).
Proof.
  revert kvs m. induction opts as [|o opts IH]; intros [|[k v] kvs] m H; simplify_eq/=; [done|].
  rewrite (parse_opt_binding m o k v) by done. cbn [mbind res_bind]. by apply IH.
Qed.

Lemma foldl_insert_last (m : gmap string string) kvs k :
  foldl (fun m kv => <[kv.1 := kv.2]> m) m kvs !! k =
  match last (filter (fun kv => kv.1 = k) kvs) with Some kv => Some kv.2 | None => m !! k end.
Proof.
  induction kvs as [|kv kvs IH] using rev_ind; [done|].
  rewrite foldl_app, filter_app. simpl. destruct (decide (kv.1 = k)) as [Hk|Hk].
  - rewrite filter_cons_True, filter_nil by done. rewrite last_snoc, <- Hk. by rewrite lookup_insert_eq.
  - rewrite filter_cons_False, filter_nil by done. rewrite app_nil_r, lookup_insert_ne by done. done.
Qed.

Section theorems.
Context `{B : Boost} `{HB : !BoostLaws B}.

(** C39: reading a trace line back.  A line printed from an instruction, with
    times in ticks of a thousandth of a cycle and any texts around the fields,
    is read as that instruction: every time, operand, resource entry and the
    type; an empty destination is -1. *)
Theorem trace_line_roundtrip x i seq :
  texts_ok x -> printable i ->
  RiscvInstruction_new (print_line x i) seq =
  Ok (mkInst (strip (tx_inst x)) (inst_type i) (set_pc (tx_pc x)) (event_tick i) seq
        (src i) (dst i) (rob i) (lq i) (sq i) (iq i) (fu i)).
Proof. by apply print_line_read. Qed.

(** The key of the vertex table determines the instruction number and the
    event. *)
Theorem hash_inst_injective i j t t' :
  0 <= inst_seq i -> 0 <= inst_seq j -> hash_inst i t = hash_inst j t' ->
  inst_seq i = inst_seq j /\ t = t'.
Proof. by apply hash_inst_inj. Qed.

(** [add_edge] keeps the map of the graph sorted, appends the edge to its
    parent's list, leaves the list of every other event alone, and records the
    parent for look-up. *)
Theorem add_edge_out_correct s u e :
  om_sorted VertexCompare (graph s) ->
  let s' := add_edge_out s u e in
  om_sorted VertexCompare (graph s') /\
  children (graph s') u = children (graph s) u ++ [e] /\
  (forall v, vtype v <> vtype u \/ vseq v <> vseq u -> children (graph s') v = children (graph s) v) /\
  inst_to_vertex s' !! hash_inst (vinst u) (vtype u) = Some u.
Proof.
  intros Hs s'. subst s'. simpl. split_and!.
  - by apply om_upd_sorted; [apply _|].
  - unfold children. rewrite (om_find_upd_same VertexCompare) by done. done.
  - intros v Hv. unfold children. rewrite (om_find_upd_other VertexCompare); [done|done|].
    rewrite VertexCompare_equiv. naive_solver.
  - apply lookup_insert_eq.
Qed.

(** A vertex is created exactly when the events it stands for coincide. *)
Theorem Vertex_new_iff t seq i :
  (exists v, Vertex_new t seq i = Ok v) <->
  match t with
  | VT.F2F => process_cache_completion i = fetch i
  | VT.DI => dispatch i = issue i
  | VT.MP => is_load i = true -> memory i = complete_memory i
  | _ => True
  end.
Proof.
  clear. unfold Vertex_new, set_timing, ppk_assert.
  destruct t; cbn [mbind res_bind]; try (split; [done|by eexists]).
  - destruct (Z.eqb_spec (process_cache_completion i) (fetch i)); naive_solver.
  - destruct (Z.eqb_spec (dispatch i) (issue i)); naive_solver.
  - destruct (is_load i); [destruct (Z.eqb_spec (memory i) (complete_memory i))|]; naive_solver.
Qed.

(** The hash of a vertex identifies it among the vertices of one window,
    and only there: an instruction [WINDOW] later collides. *)
Theorem vertex_hash_window u v :
  1 <= vseq u < WINDOW -> 1 <= vseq v < WINDOW ->
  (vertex_hash u = vertex_hash v <-> vtype u = vtype v /\ vseq u = vseq v) /\
  vertex_hash (mkVertex (vtype u) (vseq u + WINDOW) (timing u) (vinst u)) = vertex_hash u.
Proof.
  intros Hu Hv. unfold vertex_hash, NumOfVertexType. simpl.
  pose proof (vt_idx_range (vtype u)) as Ru. pose proof (vt_idx_range (vtype v)) as Rv.
  unfold NumOfVertexType in *. split.
  - rewrite !(Z.mod_small _ WINDOW) by lia.
    rewrite !u64_small by (unfold u64_size, WINDOW in *; lia). split.
    + intros H. split; [apply vt_idx_inj|]; lia.
    + intros [-> ->]. done.
  - do 3 f_equal. rewrite <- Z.add_mod_idemp_r, Z.mod_same, Z.add_0_r by (unfold WINDOW; lia). done.
Qed.

(** A difference of two times.  In order and below 2^53 it is exact as a
    [double]; out of order the unsigned subtraction wraps to more than 2^63;
    and it is never negative. *)
Theorem latency_difference a b :
  0 <= a < 2 ^ 53 -> 0 <= b < 2 ^ 53 ->
  (b <= a -> lat_sub a b = a - b) /\ (a < b -> 2 ^ 63 < lat_sub a b) /\ 0 <= lat_sub a b.
Proof.
  intros Ha Hb. split_and!.
  - intros. apply lat_sub_exact; lia.
  - intros. apply lat_sub_wraps; lia.
  - apply lat_sub_nonneg.
Qed.

(** One counter of the report grows by the delay, the others stay, and the
    total grows by as much, as long as it stays exact. *)
Theorem bump_exact b r d :
  0 <= counter r b -> 0 <= d -> counter r b + d <= 2 ^ 53 ->
  counter (bump b r d) b = counter r b + d /\
  (forall b', b' <> b -> counter (bump b r d) b' = counter r b') /\
  counters_total (bump b r d) = counters_total r + d.
Proof.
  intros Hc Hd Hs. split_and!.
  - simpl. rewrite decide_True by done. by apply lat_add_exact.
  - intros b' Hb. simpl. by rewrite decide_False.
  - by apply counters_total_bump.
Qed.

(** Latencies below a million are printed exactly: reading the number back
    gives it. *)
Theorem show_latency_roundtrip z : 0 <= z < 1000000 -> stoull (show_latency z) = Ok z.
Proof.
  intros Hz. unfold show_latency, show_Z. rewrite (proj2 (Z.ltb_lt _ _)) by lia.
  rewrite stoull_pretty by lia. by rewrite Z2N.id by lia.
Qed.

(** From a million on the report loses digits: different latencies are
    printed alike. *)
Theorem show_latency_loses_digits :
  show_latency 1234567 = "1.23457e+06" /\ show_latency 1234568 = show_latency 1234567 /\
  show_latency 10000000 = "1e+07" /\ show_latency 1002000 = "1.002e+06".
Proof. split_and!; by vm_compute. Qed.

(** Floating-point multiplies, divides and the like get no register-file
    edge, however long they were blocked. *)
Theorem fp_mult_div_no_rf_edge insts i s :
  numbered insts -> ready insts i s -> i ∈ insts -> use_fp_mult_div i = true ->
  model_rf_interaction_impl s i = Ok s.
Proof.
  intros Hn Hs Hi Hf. destruct (rf_ok insts Hn i Hi s Hs) as (s' & Heq & _). revert Heq.
  assert (Hb : rf_bottleneck i = None).
  { unfold rf_bottleneck, use_int_rf, use_fp_rf, use_fp_mult_div, type_in in *. by destruct (inst_type i). }
  unfold model_rf_interaction_impl. rewrite Hb. intros Heq. case_match; [done|].
  apply res_bind_inv in Heq as (dep & Hd & Heq). rewrite Hd. cbn [mbind res_bind].
  destruct dep as [j|]; [|done]. apply res_bind_inv in Heq as (R' & HR' & Heq).
  apply res_bind_inv in Heq as (R & HR & Heq). by rewrite HR', HR.
Qed.

(** The drawing.  The picture has one edge for each edge of the graph
    with an end in the requested range of instructions, between vertices that
    stand for its ends, and no two vertices for one event. *)
Theorem deg2bg_correct `{G : BoostGraph} `{HG : !BoostGraphLaws G} deg a b :
  pictured (deg2bg deg a b) (filter (fun x => in_range a b x.1 x.2 = true) (edges deg)).
Proof. apply deg2bg_ok. Qed.

(** The order of events used as the key order of the graph is a strict
    total order on the events of a trace: any two distinct ones compare one way. *)
Theorem VertexCompare_total insts u v :
  numbered insts -> V insts u -> V insts v ->
  (u = v <-> VertexCompare u v = false /\ VertexCompare v u = false) /\
  (VertexCompare u v = true -> VertexCompare v u = false).
Proof.
  intros Hn Hu Hv. split.
  - split.
    + intros ->. split; apply sw_irrefl.
    + intros He. by apply eq_sym, (vset_equiv (V insts)).
  - apply sw_asym. apply _.
Qed.

End theorems.

(** The command line.  When every option is one the program knows, with
    its argument, parsing succeeds and each setting has the value of the last
    option that sets it. *)
Theorem parse_args_last opts kvs :
  binding <$> opts = Some <$> kvs ->
  exists args, parse_args opts = Ok args /\
    forall k, args !! k = snd <$> last (filter (fun kv => kv.1 = k) kvs).
Proof.
  intros H. exists (foldl (fun m kv => <[kv.1 := kv.2]> m) ∅ kvs).
  split; [by apply parse_opts_bindings|]. intros k. rewrite foldl_insert_last, lookup_empty.
  by destruct (last _).
Qed.

(** The long option [--trace] is refused.  The table of long options
    returns the character c for it, which the switch does not have, so the
    program exits with an error wherever the option stands. *)
Theorem long_trace_refused pre kvs file post c :
  ("trace", required_argument, c) ∈ long_options -> binding <$> pre = Some <$> kvs ->
  parse_args (pre ++ (c, Some file) :: post) = Stop ErrorExit.
Proof.
  intros Hc Hp. assert (c = "c"%char) as ->.
  { unfold long_options in Hc. rewrite !elem_of_cons, elem_of_nil in Hc. naive_solver. }
  unfold parse_args. rewrite res_fold_app, (parse_opts_bindings pre kvs ∅ Hp). done.
Qed.

(** The equality of events that goes with the hash respects it; the one by time
    does not, as two events of one instruction in one cycle show. *)
Lemma hash_respects_equality :
  (forall u v, VertexEqual u v = true -> vertex_hash u = vertex_hash v) /\
  exists u v, EdgeTimingEqual u v = true /\ vertex_hash u <> vertex_hash v.
Proof.
  split_and!.
  - unfold VertexEqual, vertex_hash. intros u v H. bool_to_prop. by rewrite H, H0.
  - exists (ev VT.I demo5), (ev VT.DS demo5). split; by vm_compute.
Qed.

(** [strip] removes exactly the white space around a string: what is left
    neither starts nor ends with any, what was taken off is nothing else, and
    stripping again changes nothing. *)
Theorem strip_correct s :
  exists l r, s = l +:+ strip s +:+ r /\
    Forall (fun c => isspace c = true) (String.list_ascii_of_string l ++ String.list_ascii_of_string r) /\
    (forall c, head (String.list_ascii_of_string (strip s)) = Some c -> isspace c = false) /\
    (forall c, last (String.list_ascii_of_string (strip s)) = Some c -> isspace c = false) /\
    strip (strip s) = strip s.
Proof.
  destruct (rstrip_spec s) as (r & Hr & Hrs & Hrl). destruct (lstrip_spec (rstrip s)) as (l & Hl & Hls & Hlh).
  exists l, r. unfold strip.
  assert (Hll : forall c, last (String.list_ascii_of_string (lstrip (rstrip s))) = Some c -> isspace c = false).
  { intros c Hc. apply Hrl. rewrite Hl, list_ascii_app, last_app. by rewrite Hc. }
  split_and!; [|by apply Forall_app|done|done|].
  - rewrite Hr at 1. rewrite Hl at 1. by rewrite string_app_assoc.
  - rewrite (rstrip_id (lstrip (rstrip s))) by done. by apply lstrip_id.
Qed.


(** [main] reports what it cannot start with: asking for help exits
    normally, an unknown option or an unreadable trace file exits with an error,
    and an option that needs an argument but has none is undefined. *)
Theorem main_refuses `{B : Boost} `{G : BoostGraph} files pre kvs post :
  binding <$> pre = Some <$> kvs ->
  (forall a, main files (pre ++ ("h"%char, a) :: post) = Stop SuccessExit) /\
  (forall c a, c ∉ String.list_ascii_of_string "htovse" ->
     main files (pre ++ (c, a) :: post) = Stop ErrorExit) /\
  (forall c, c ∈ String.list_ascii_of_string "tose" ->
     main files (pre ++ (c, None) :: post) = Stop Undefined) /\
  ((forall f, files f = None) -> main files pre = Stop ErrorExit).
Proof.
  intros Hp. unfold main, parse_args. rewrite (parse_opts_bindings pre kvs ∅ Hp).
  setoid_rewrite res_fold_app. rewrite (parse_opts_bindings pre kvs ∅ Hp). split_and!.
  - done.
  - intros c a Hc. simpl in Hc. rewrite !not_elem_of_cons in Hc. destruct Hc as (?&?&?&?&?&?&_).
    cbn [mbind res_bind res_fold parse_opt].
    by rewrite !(proj2 (Ascii.eqb_neq c _)) by done.
  - intros c Hc. simpl in Hc. rewrite !elem_of_cons in Hc.
    destruct Hc as [->|[->|[->|[->|Hc%elem_of_nil]]]]; done.
  - intros Hf. cbn [mbind res_bind]. by rewrite Hf.
Qed.

(** Numbers that are not there or do not fit.  A field without a number
    and a value outside the 32-bit range raise an uncaught exception; a line
    with too few fields is undefined; an instruction type that the parser does
    not know, among them the name of the no-operation class in the program's own
    table, fails its assertion. *)
Theorem parse_errors name z :
  ~ char_of "=" name ->
  set_int (field name "") = Stop Uncaught /\
  (~ int32 z -> set_int (field name (show_int z)) = Stop Uncaught) /\
  (forall `{B : Boost} line seq, (length (split line ":") <= 4)%nat ->
     RiscvInstruction_new line seq = Stop Undefined) /\
  set_inst_type (inst_type_name NoOpClass) = Stop AssertFail.
Proof.
  intros Hn. unfold set_int. rewrite !after_eq_field by done. split_and!; [done|..|done].
  - intros Hz. unfold stoi. rewrite strto_show_int.
    destruct (_ && _) eqn:E; [|done]. exfalso. apply Hz. unfold int32. bool_to_prop.
    destruct (z <? 0) eqn:Ez; bool_to_prop; lia.
  - intros B line seq Hl. unfold RiscvInstruction_new, seg.
    by rewrite (proj2 (lookup_ge_None (split line ":") 4)).
Qed.

(** ** Witnesses *)

Lemma demo_texts_ok : texts_ok (demo_text demo2 "0x10004 @main").
Proof.
  split; [|intros k; split; unfold char_of; by_eval].
  repeat (apply Forall_cons; split); try apply Forall_nil; unfold text_ok, char_of; by_eval.
Qed.

Lemma demo_printable : printable demo2.
Proof.
  unfold printable, int32, CYCLE_PER_TICK.
  split; repeat (apply Forall_cons; split); try apply Forall_nil; by_eval.
Qed.

Lemma trace_line_roundtrip_witness :
  RiscvInstruction_new (print_line (demo_text demo2 "0x10004 @main") demo2) 2 = Ok demo2.
Proof.
  apply (trace_line_roundtrip (demo_text demo2 "0x10004 @main") demo2 2).
  - exact demo_texts_ok.
  - exact demo_printable.
Defined.

Lemma hash_inst_injective_witness : inst_seq demo3 = inst_seq demo3 /\ VT.F = VT.F.
Proof. apply (hash_inst_injective demo3 demo3 VT.F VT.F); [discriminate|discriminate|reflexivity]. Defined.

Lemma add_edge_out_correct_witness :
  children (graph (add_edge_out demo_state (ev VT.C demo1) (OutgoingEdge_new (ev VT.C demo5) 23 0 Base)))
    (ev VT.C demo1) = [OutgoingEdge_new (ev VT.C demo5) 23 0 Base].
Proof.
  destruct (add_edge_out_correct demo_state (ev VT.C demo1) (OutgoingEdge_new (ev VT.C demo5) 23 0 Base)
    (wf_gsorted _ _ _ demo_wf)) as (_ & H & _).
  rewrite H. vm_compute. reflexivity.
Defined.

Lemma vertex_hash_window_witness :
  vertex_hash (ev VT.R demo2) = vertex_hash (ev VT.R demo2) <-> VT.R = VT.R /\ 2 = 2.
Proof.
  apply (vertex_hash_window (ev VT.R demo2) (ev VT.R demo2)); split; [discriminate|reflexivity|discriminate|reflexivity].
Defined.

Lemma latency_difference_witness :
  (5 <= 7 -> lat_sub 7 5 = 2) /\ (7 < 5 -> 2 ^ 63 < lat_sub 7 5) /\ 0 <= lat_sub 7 5.
Proof. apply (latency_difference 7 5); split; [discriminate|reflexivity|discriminate|reflexivity]. Defined.

Lemma bump_exact_witness :
  counter (bump BTK_ROB BottleneckReport_new 4) BTK_ROB = 4 /\
  (forall b', b' <> BTK_ROB -> counter (bump BTK_ROB BottleneckReport_new 4) b' = 0) /\
  counters_total (bump BTK_ROB BottleneckReport_new 4) = 4.
Proof. apply (bump_exact BTK_ROB BottleneckReport_new 4); discriminate. Defined.

Lemma show_latency_roundtrip_witness : stoull (show_latency 4711) = Ok 4711.
Proof. apply (show_latency_roundtrip 4711). split; [discriminate|reflexivity]. Defined.

(** A blocked floating-point multiply that overwrites what it reads. *)
Definition fmul : RiscvInstruction :=
  mkInst "fmul.d fa0, fa1, fa2" FloatMult 65540
    (mkTick 0 2 2 0 3 0 0 5 0 0 0 6 7 7 7 0 9 0 0 10) 2 [1] 2 0 0 0 0 3.

Lemma fmul_numbered : numbered [demo1; fmul].
Proof. reflexivity. Qed.

Lemma fp_mult_div_no_rf_edge_witness :
  block_from_rf fmul = 5 /\ model_rf_interaction_impl (before [demo1] fmul) fmul = Ok (before [demo1] fmul).
Proof.
  split; [reflexivity|]. apply (fp_mult_div_no_rf_edge [demo1; fmul]).
  - exact fmul_numbered.
  - exact (before_ready [demo1] fmul fmul_numbered).
  - by_eval.
  - reflexivity.
Defined.

Lemma deg2bg_correct_witness :
  pictured (deg2bg (graph demo_state) 2 4)
    (filter (fun x => in_range 2 4 x.1 x.2 = true) (edges (graph demo_state))).
Proof. apply (deg2bg_correct (graph demo_state) 2 4). Defined.

Lemma VertexCompare_total_witness :
  (ev VT.F1 demo1 = ev VT.C demo5 <->
   VertexCompare (ev VT.F1 demo1) (ev VT.C demo5) = false /\
   VertexCompare (ev VT.C demo5) (ev VT.F1 demo1) = false) /\
  (VertexCompare (ev VT.F1 demo1) (ev VT.C demo5) = true ->
   VertexCompare (ev VT.C demo5) (ev VT.F1 demo1) = false).
Proof.
  apply (VertexCompare_total demo).
  - exact demo_numbered.
  - exists demo1, VT.F1. split_and!; [by_eval|by_eval|reflexivity].
  - exists demo5, VT.C. split_and!; [by_eval|by_eval|reflexivity].
Defined.

Lemma parse_args_last_witness :
  exists args, parse_args [("t"%char, Some "a"); ("v"%char, None); ("t"%char, Some "b")] = Ok args /\
    forall k, args !! k =
      snd <$> last (filter (fun kv => kv.1 = k) [("trace", "a"); ("view", "view"); ("trace", "b")]).
Proof. apply parse_args_last. reflexivity. Defined.

Lemma long_trace_refused_witness :
  parse_args [("o"%char, Some "report"); ("c"%char, Some "trace.out")] = Stop ErrorExit.
Proof.
  apply (long_trace_refused [("o"%char, Some "report")] [("output", "report")] "trace.out" []).
  - unfold long_options. right. left.
  - reflexivity.
Defined.

Lemma main_refuses_witness :
  main demo_files [("t"%char, Some "trace.out"); ("h"%char, None)] = Stop SuccessExit.
Proof.
  apply (main_refuses demo_files [("t"%char, Some "trace.out")] [("trace", "trace.out")] []).
  reflexivity.
Defined.

Lemma parse_errors_witness :
  set_int (field "rob" "") = Stop Uncaught /\
  (~ int32 (2 ^ 31) -> set_int (field "rob" (show_int (2 ^ 31))) = Stop Uncaught).
Proof.
  assert (Hn : ~ char_of "=" "rob") by (unfold char_of; by_eval).
  destruct (parse_errors "rob" (2 ^ 31) Hn) as (H1 & H2 & _). exact (conj H1 H2).
Defined.
