(* ===== verification/CalipersCache.v ===== *)
(** * The cache model of Calipers

    infras/calipers/src/memory/real_cache.h.  A set-associative cache with a
    pseudo-LRU tree per set and a recency stack of sixteen lines for
    statistics; up to three levels.  [new] of arrays of plain records leaves
    their contents unspecified, so the sets, the trees and the last evicted line
    a cache starts with are arguments of [cacheNew]. *)

From S2P Require Import Prelude Machine.

#[local] Open Scope list_scope.
#[local] Open Scope Z_scope.

Module Cal.

Definition MAX_WAYS : Z := 16.
Definition HIT : Z := 1.
Definition MISS : Z := 0.

Record CacheLine := mkLine { valid : Z; dirty : Z; tag : Z }.

Record MyCache := mkCache {
  numSets : Z;
  numWays : Z;
  lineSize : Z;
  sets : list (list CacheLine);
  lastEvictedLine : CacheLine;
  statReadAccess : Z;
  statWriteAccess : Z;
  statReadMiss : Z;
  statWriteMiss : Z;
  statDirtyEvicts : Z;
  plruTree : list Z;
  plruNumLevels : Z;
  plruEffecAssoc : Z;
  lruStack : list (list Z);
  lruStackHit : list Z
}.

(** ** Pseudo-LRU replacement *)

(** The loop of [getVictimInSet], [n] levels to go. *)
Fixpoint victim_walk (n : nat) (tree effec i victim index : Z) : Z :=
  match n with
  | O => victim
  | S n =>
      let bit := Z.land (Z.shiftr tree index) 1 in
      let victim := u64 (victim + (if bit =? 0 then 0 else Z.shiftr effec (i + 1))) in
      let index := if bit =? 0 then index * 2 + 1 else index * 2 + 2 in
      victim_walk n tree effec (i + 1) victim index
  end.

Definition getVictimInSet (c : MyCache) (set : nat) : res Z :=
  match plruTree c !! set with
  | None => Stop Undefined
  | Some tree =>
      let victim := victim_walk (Z.to_nat (plruNumLevels c)) tree (plruEffecAssoc c) 0 0 0 in
      Ok (if u64 (numWays c - 1) <? victim then u64 (numWays c - 1) else victim)
  end.

(** The loop of [updateReplacementState], over the levels below [n]. *)
Fixpoint update_walk (n : nat) (way tree index : Z) : Z :=
  match n with
  | O => tree
  | S i =>
      let bit := Z.land (Z.shiftr way (Z.of_nat i)) 1 in
      let tree := if bit =? 0 then Z.lor tree (Z.shiftl 1 index)
                  else Z.land tree (Z.lnot (Z.shiftl 1 index)) in
      let index := if bit =? 0 then index * 2 + 1 else index * 2 + 2 in
      update_walk i way tree index
  end.

Definition set_tree (c : MyCache) (t : list Z) : MyCache :=
  mkCache (numSets c) (numWays c) (lineSize c) (sets c) (lastEvictedLine c) (statReadAccess c)
    (statWriteAccess c) (statReadMiss c) (statWriteMiss c) (statDirtyEvicts c) t
    (plruNumLevels c) (plruEffecAssoc c) (lruStack c) (lruStackHit c).

Definition updateReplacementState (c : MyCache) (set : nat) (way : Z) : res MyCache :=
  match plruTree c !! set with
  | None => Stop Undefined
  | Some tree =>
      Ok (set_tree c (<[set := update_walk (Z.to_nat (plruNumLevels c)) way tree 0]> (plruTree c)))
  end.

(** The two loops of [initReplacementState]. *)
Fixpoint effec_loop (fuel : nat) (effec ways : Z) : res Z :=
  match fuel with
  | O => Stop OutOfFuel
  | S fuel => if effec <? ways then effec_loop fuel (u64 (Z.shiftl effec 1)) ways else Ok effec
  end.
Fixpoint levels_loop (fuel : nat) (assoc levels : Z) : res Z :=
  match fuel with
  | O => Stop OutOfFuel
  | S fuel =>
      let assoc := assoc / 2 in
      if assoc =? 0 then Ok levels else levels_loop fuel assoc (levels + 1)
  end.

(** [cacheNew] with [initReplacementState]; [mem_*] is what the fresh memory
    holds. *)
Definition cacheNew (mem_sets : list (list CacheLine)) (mem_tree : list Z) (mem_line : CacheLine)
    (size assoc line_size : Z) : res MyCache :=
  if MAX_WAYS <? assoc then Stop ErrorExit
  else if u64 (line_size * assoc) =? 0 then Stop Undefined
  else
    let numSets := size / u64 (line_size * assoc) in
    effec ← effec_loop 66 1 assoc;
    levels ← levels_loop 66 assoc 0;
    Ok (mkCache numSets assoc line_size mem_sets mem_line 0 0 0 0 0 mem_tree levels effec
          (replicate (Z.to_nat numSets) []) (replicate 16 0)).

(** ** One access *)

(** The recency stack: depth of the line if it was found, and the new stack. *)
Fixpoint lru_scan (ctr : nat) (seen rest : list Z) (line_addr : Z) : option nat * list Z :=
  match rest with
  | [] => (None, seen)
  | x :: rest' =>
      if x =? line_addr then
        (Some ctr, if Nat.eqb ctr 0 then x :: rest' else line_addr :: seen ++ rest')
      else if Nat.eqb (S ctr) 16 then (None, seen ++ rest')
      else lru_scan (S ctr) (seen ++ [x]) rest' line_addr
  end.

Definition lru_update (c : MyCache) (set : nat) (line_addr : Z) : res MyCache :=
  match lruStack c !! set with
  | None => Stop Undefined
  | Some stack =>
      let '(depth, stack') := lru_scan 0 [] stack line_addr in
      let stack' := match depth with Some _ => stack' | None => line_addr :: stack' end in
      let hits := match depth with
                  | Some d => alter (fun n => u64 (n + 1)) d (lruStackHit c)
                  | None => lruStackHit c
                  end in
      Ok (mkCache (numSets c) (numWays c) (lineSize c) (sets c) (lastEvictedLine c)
            (statReadAccess c) (statWriteAccess c) (statReadMiss c) (statWriteMiss c)
            (statDirtyEvicts c) (plruTree c) (plruNumLevels c) (plruEffecAssoc c)
            (<[set := stack']> (lruStack c)) hits)
  end.

(** The first of the [numWays] ways that holds the line. *)
Definition holds (line_addr : Z) (l : CacheLine) : bool :=
  negb (valid l =? 0) && (tag l =? line_addr).
Fixpoint find_way (line_addr : Z) (lines : list CacheLine) (ii : nat) : option nat :=
  match lines with
  | [] => None
  | l :: ls => if holds line_addr l then Some ii else find_way line_addr ls (S ii)
  end.

Definition set_line (c : MyCache) (set way : nat) (f : CacheLine -> CacheLine) : MyCache :=
  mkCache (numSets c) (numWays c) (lineSize c) (alter (alter f way) set (sets c))
    (lastEvictedLine c) (statReadAccess c) (statWriteAccess c) (statReadMiss c) (statWriteMiss c)
    (statDirtyEvicts c) (plruTree c) (plruNumLevels c) (plruEffecAssoc c) (lruStack c)
    (lruStackHit c).

Definition count_access (c : MyCache) (type : Z) : MyCache :=
  let bump n := u64 (n + 1) in
  mkCache (numSets c) (numWays c) (lineSize c) (sets c) (lastEvictedLine c)
    (if type =? 0 then bump (statReadAccess c) else statReadAccess c)
    (if type =? 0 then statWriteAccess c else bump (statWriteAccess c))
    (statReadMiss c) (statWriteMiss c) (statDirtyEvicts c) (plruTree c) (plruNumLevels c)
    (plruEffecAssoc c) (lruStack c) (lruStackHit c).

Definition count_miss (c : MyCache) (type : Z) : MyCache :=
  let bump n := u64 (n + 1) in
  mkCache (numSets c) (numWays c) (lineSize c) (sets c) (lastEvictedLine c)
    (statReadAccess c) (statWriteAccess c)
    (if type =? 0 then bump (statReadMiss c) else statReadMiss c)
    (if type =? 0 then statWriteMiss c else bump (statWriteMiss c))
    (statDirtyEvicts c) (plruTree c) (plruNumLevels c) (plruEffecAssoc c) (lruStack c)
    (lruStackHit c).

(** Remember the victim, and count it if it was dirty. *)
Definition evict (c : MyCache) (victim : CacheLine) : MyCache :=
  mkCache (numSets c) (numWays c) (lineSize c) (sets c) victim (statReadAccess c)
    (statWriteAccess c) (statReadMiss c) (statWriteMiss c)
    (if dirty victim =? 0 then statDirtyEvicts c else u64 (statDirtyEvicts c + 1)) (plruTree c)
    (plruNumLevels c) (plruEffecAssoc c) (lruStack c) (lruStackHit c).

Definition writes (type : Z) : bool := (type =? 1) || (type =? 2).

Definition cacheAccessInstall (c : MyCache) (p_addr type : Z) : res (Z * MyCache) :=
  if (lineSize c =? 0) || (numSets c =? 0) then Stop Undefined
  else
    let line_addr := p_addr / lineSize c in
    let set := Z.to_nat ((p_addr / lineSize c) mod numSets c) in
    let c := count_access c type in
    match sets c !! set with
    | None => Stop Undefined
    | Some lines =>
        let hit := find_way line_addr (take (Z.to_nat (numWays c)) lines) 0 in
        c ← lru_update c set line_addr;
        match hit with
        | Some ii =>
            let c := if writes type
                     then set_line c set ii (fun l => mkLine (valid l) 1 (tag l)) else c in
            c ← updateReplacementState c set (Z.of_nat ii);
            Ok (HIT, c)
        | None =>
            victim_way ← getVictimInSet c set;
            c ← (if victim_way <? numWays c then
                   match lines !! Z.to_nat victim_way with
                   | None => Stop Undefined
                   | Some victim =>
                       let c := evict c victim in
                       let c := set_line c set (Z.to_nat victim_way)
                                  (fun _ => mkLine 1 (if writes type then 1 else 0) line_addr) in
                       updateReplacementState c set victim_way
                   end
                 else Ok c);
            Ok (MISS, count_miss c type)
        end
    end.

(** ** Levels *)

Record CacheInternals := mkInternals {
  pCacheConfig : Z;
  l1cache : option MyCache;
  l2cache : option MyCache;
  l3cache : option MyCache
}.

(** What [new] hands out for one cache: sets, trees and the line last evicted. *)
Record Fresh := mkFresh {
  fresh_sets : list (list CacheLine);
  fresh_tree : list Z;
  fresh_line : CacheLine
}.
Definition new_cache (m : Fresh) (size assoc line_size : Z) : res MyCache :=
  cacheNew (fresh_sets m) (fresh_tree m) (fresh_line m) size assoc line_size.

(** The constructor; [m1], [m2] and [m3] are the memory of the three caches. *)
Definition CacheInternals_new (m1 m2 m3 : Fresh)
    (cache_config l1_size l1_assoc l2_size l2_assoc : Z) : res CacheInternals :=
  if cache_config =? 2 then
    l1 ← new_cache m1 (32 * 1024) 4 64;
    Ok (mkInternals cache_config (Some l1) None None)
  else if cache_config =? 3 then
    l1 ← new_cache m1 l1_size l1_assoc 64;
    l2 ← new_cache m2 l2_size l2_assoc 64;
    Ok (mkInternals cache_config (Some l1) (Some l2) None)
  else if cache_config =? 4 then
    l1 ← new_cache m1 (32 * 1024) 4 64;
    l2 ← new_cache m2 (256 * 1024) 8 64;
    l3 ← new_cache m3 (2 * 1024 * 1024) 8 64;
    Ok (mkInternals cache_config (Some l1) (Some l2) (Some l3))
  else Ok (mkInternals cache_config None None None).

(** A pointer the constructor did not set is not a cache. *)
Definition deref (c : option MyCache) : res MyCache :=
  match c with Some c => Ok c | None => Stop Undefined end.

Definition set_l1 (ci : CacheInternals) (c : MyCache) :=
  mkInternals (pCacheConfig ci) (Some c) (l2cache ci) (l3cache ci).
Definition set_l2 (ci : CacheInternals) (c : MyCache) :=
  mkInternals (pCacheConfig ci) (l1cache ci) (Some c) (l3cache ci).
Definition set_l3 (ci : CacheInternals) (c : MyCache) :=
  mkInternals (pCacheConfig ci) (l1cache ci) (l2cache ci) (Some c).

Definition access_l1 (ci : CacheInternals) (addr type : Z) : res (Z * CacheInternals) :=
  c ← deref (l1cache ci); '(o, c) ← cacheAccessInstall c addr type; Ok (o, set_l1 ci c).
Definition access_l2 (ci : CacheInternals) (addr type : Z) : res (Z * CacheInternals) :=
  c ← deref (l2cache ci); '(o, c) ← cacheAccessInstall c addr type; Ok (o, set_l2 ci c).
Definition access_l3 (ci : CacheInternals) (addr type : Z) : res (Z * CacheInternals) :=
  c ← deref (l3cache ci); '(o, c) ← cacheAccessInstall c addr type; Ok (o, set_l3 ci c).

(** A valid, dirty line to write back, as an address. *)
Definition write_back (c : MyCache) : option Z :=
  let l := lastEvictedLine c in
  if negb (valid l =? 0) && negb (dirty l =? 0) then Some (u64 (tag l * lineSize c)) else None.

Definition write_back_l1_l2 (ci : CacheInternals) : res CacheInternals :=
  c ← deref (l1cache ci);
  match write_back c with
  | Some a => '(_, ci) ← access_l2 ci a 2; Ok ci
  | None => Ok ci
  end.
Definition write_back_l2_l3 (ci : CacheInternals) : res CacheInternals :=
  c ← deref (l2cache ci);
  match write_back c with
  | Some a => '(_, ci) ← access_l3 ci a 2; Ok ci
  | None => Ok ci
  end.

Definition memoryAccess (ci : CacheInternals) (addr type : Z) : res (Z * CacheInternals) :=
  if pCacheConfig ci =? 0 then Ok (0, ci)
  else if pCacheConfig ci =? 1 then Ok (1, ci)
  else if pCacheConfig ci =? 2 then
    '(outcome, ci) ← access_l1 ci addr type;
    if type =? 1 then Ok (1, ci)
    else if negb (outcome =? 0) then Ok (1, ci) else Ok (2, ci)
  else if pCacheConfig ci =? 3 then
    '(outcome, ci) ← access_l1 ci addr type;
    if type =? 1 then Ok (1, ci)
    else if negb (outcome =? 0) then Ok (1, ci)
    else
      '(outcome, ci) ← access_l2 ci addr 0;
      let hit_level := if negb (outcome =? 0) then 2 else 3 in
      ci ← write_back_l1_l2 ci;
      Ok (hit_level, ci)
  else if pCacheConfig ci =? 4 then
    '(outcome, ci) ← access_l1 ci addr type;
    if type =? 1 then Ok (1, ci)
    else if negb (outcome =? 0) then Ok (1, ci)
    else
      '(outcome, ci) ← access_l2 ci addr 0;
      '(hit_level, ci) ←
        (if negb (outcome =? 0) then Ok (2, ci)
         else
           '(outcome, ci) ← access_l3 ci addr 0;
           let hit_level := if negb (outcome =? 0) then 3 else 4 in
           ci ← write_back_l2_l3 ci;
           Ok (hit_level, ci));
      c ← deref (l1cache ci);
      ci ← match write_back c with
           | Some a =>
               '(outcome, ci) ← access_l2 ci a 2;
               if outcome =? 0 then write_back_l2_l3 ci else Ok ci
           | None => Ok ci
           end;
      Ok (hit_level, ci)
  else Stop ErrorExit.

(** ** The two-level cache of the tool *)

Record RealCache := mkReal {
  cacheInternals : CacheInternals;
  l1LoadHitCycles : Z;
  l2LoadHitCycles : Z;
  l2LoadMissCycles : Z;
  l1StoreHitCycles : Z;
  l2StoreHitCycles : Z;
  l2StoreMissCycles : Z
}.

Definition set_internals (r : RealCache) (ci : CacheInternals) : RealCache :=
  mkReal ci (l1LoadHitCycles r) (l2LoadHitCycles r) (l2LoadMissCycles r) (l1StoreHitCycles r)
    (l2StoreHitCycles r) (l2StoreMissCycles r).

Definition loadCycles (r : RealCache) (base : Z) : res (Z * RealCache) :=
  '(hit_level, ci) ← memoryAccess (cacheInternals r) base 0;
  Ok (if hit_level =? 1 then l1LoadHitCycles r
      else if hit_level =? 2 then l2LoadHitCycles r
      else l2LoadMissCycles r, set_internals r ci).

Definition storeCycles (r : RealCache) (base : Z) : res (Z * RealCache) :=
  '(hit_level, ci) ← memoryAccess (cacheInternals r) base 1;
  Ok (if hit_level =? 1 then l1StoreHitCycles r
      else if hit_level =? 2 then l2StoreHitCycles r
      else l2StoreMissCycles r, set_internals r ci).

End Cal.
