(* ===== verification/CalipersFacts.v ===== *)
(** * Facts about the Calipers caches

    The pseudo-LRU tree, the recency stack, what one access does to a cache,
    and the invariant it keeps. *)

From S2P Require Import Prelude Machine CalipersCache.

#[local] Open Scope list_scope.
#[local] Open Scope Z_scope.

Import Cal.

(** ** The pseudo-LRU tree *)

(** The walk below a node stays in that node's block of ways. *)
Lemma victim_walk_block n tree effec i victim index :
  (n < 60)%nat -> 0 <= i -> effec = 2 ^ (i + Z.of_nat n) ->
  0 <= victim -> victim + 2 ^ Z.of_nat n <= 2 ^ 62 ->
  victim <= victim_walk n tree effec i victim index < victim + 2 ^ Z.of_nat n.
Proof.
  revert i victim index. induction n as [|n IH]; intros i victim index Hn Hi -> Hv Hb;
    [simpl; lia|].
  assert (Hp : 2 ^ Z.of_nat (S n) = 2 * 2 ^ Z.of_nat n)
    by (rewrite Nat2Z.inj_succ, Z.pow_succ_r; lia).
  assert (Hs : Z.shiftr (2 ^ (i + Z.of_nat (S n))) (i + 1) = 2 ^ Z.of_nat n).
  { rewrite Z.shiftr_div_pow2, <- Z.pow_sub_r by lia. f_equal. lia. }
  cbn [victim_walk]. rewrite Hs.
  assert (0 < 2 ^ Z.of_nat n) by (apply Z.pow_pos_nonneg; lia).
  assert (He : 2 ^ (i + Z.of_nat (S n)) = 2 ^ (i + 1 + Z.of_nat n)) by (f_equal; lia).
  destruct (_ =? 0); rewrite u64_small by (unfold u64_size; lia).
  - specialize (IH (i + 1) (victim + 0) (index * 2 + 1)). lia.
  - specialize (IH (i + 1) (victim + 2 ^ Z.of_nat n) (index * 2 + 2)). lia.
Qed.

Lemma testbit_land1 a i : (Z.land (Z.shiftr a i) 1 =? 0) = negb (Z.testbit a i) \/ i < 0.
Proof.
  destruct (decide (0 <= i)); [left|right; lia].
  change 1 with (Z.ones 1). rewrite Z.land_ones, Z.pow_1_r by lia.
  rewrite <- Z.bit0_mod, Z.shiftr_spec, Z.add_0_l by lia. by destruct (Z.testbit a i).
Qed.

Lemma bit_test a i : 0 <= i -> (Z.land (Z.shiftr a i) 1 =? 0) = negb (Z.testbit a i).
Proof. intros. destruct (testbit_land1 a i); [done|lia]. Qed.

(** Updating below a node leaves the bits before it alone. *)
Lemma update_walk_keeps n way tree index k :
  0 <= k < index -> Z.testbit (update_walk n way tree index) k = Z.testbit tree k.
Proof.
  revert tree index. induction n as [|n IH]; intros tree index Hk; [done|].
  cbn [update_walk]. destruct (_ =? 0).
  - rewrite IH, Z.lor_spec, Z.shiftl_spec by lia.
    rewrite (Z.testbit_neg_r 1) by lia. apply orb_false_r.
  - rewrite IH, Z.land_spec, Z.lnot_spec, Z.shiftl_spec by lia.
    rewrite (Z.testbit_neg_r 1) by lia. apply andb_true_r.
Qed.

(** After a way was touched, the root points away from its half. *)
Lemma update_walk_root n way tree :
  Z.testbit (update_walk (S n) way tree 0) 0 = negb (Z.testbit way (Z.of_nat n)).
Proof.
  cbn [update_walk]. rewrite bit_test by lia.
  destruct (Z.testbit way (Z.of_nat n)); cbn [negb].
  - rewrite update_walk_keeps, Z.land_spec, Z.lnot_spec by lia. apply andb_false_r.
  - rewrite update_walk_keeps, Z.lor_spec by lia. apply orb_true_r.
Qed.

Lemma testbit_top n way :
  0 <= way < 2 ^ Z.of_nat (S n) -> Z.testbit way (Z.of_nat n) = (2 ^ Z.of_nat n <=? way).
Proof.
  intros Hw. rewrite Nat2Z.inj_succ, Z.pow_succ_r in Hw by lia.
  assert (0 < 2 ^ Z.of_nat n) by (apply Z.pow_pos_nonneg; lia).
  rewrite Z.testbit_eqb by lia. destruct (Z.leb_spec (2 ^ Z.of_nat n) way).
  - by rewrite <- (Z.div_unique way (2 ^ Z.of_nat n) 1 (way - 2 ^ Z.of_nat n)) by lia.
  - rewrite Z.div_small by lia. done.
Qed.

(** With a power of two of ways, the next victim is in the half the last
    touched way is not in. *)
Lemma victim_other_half n way tree :
  (n < 59)%nat -> 0 <= way < 2 ^ Z.of_nat (S n) ->
  let v := victim_walk (S n) (update_walk (S n) way tree 0) (2 ^ Z.of_nat (S n)) 0 0 0 in
  0 <= v < 2 ^ Z.of_nat (S n) /\ (2 ^ Z.of_nat n <=? v) = negb (2 ^ Z.of_nat n <=? way).
Proof.
  intros Hn Hw v.
  assert (Hp : 2 ^ Z.of_nat (S n) = 2 * 2 ^ Z.of_nat n)
    by (rewrite Nat2Z.inj_succ, Z.pow_succ_r; lia).
  assert (0 < 2 ^ Z.of_nat n) by (apply Z.pow_pos_nonneg; lia).
  assert (2 ^ Z.of_nat n <= 2 ^ 58) by (apply Z.pow_le_mono_r; lia).
  assert (Hs : Z.shiftr (2 ^ Z.of_nat (S n)) (0 + 1) = 2 ^ Z.of_nat n).
  { rewrite Z.shiftr_div_pow2, Hp, Z.mul_comm by lia. by apply Z.div_mul. }
  unfold v. cbn [victim_walk]. rewrite bit_test, update_walk_root, negb_involutive by lia.
  rewrite Hs, <- (testbit_top n way) by done.
  assert (He : 2 ^ Z.of_nat (S n) = 2 ^ (0 + 1 + Z.of_nat n)) by (f_equal; lia).
  destruct (Z.testbit way (Z.of_nat n)); cbn [negb];
    rewrite u64_small by (unfold u64_size; lia).
  - pose proof (victim_walk_block n (update_walk (S n) way tree 0) _ (0 + 1) (0 + 0) (0 * 2 + 1)
      ltac:(lia) ltac:(lia) He ltac:(lia) ltac:(lia)) as Hv.
    split; [lia|]. apply Z.leb_gt. lia.
  - pose proof (victim_walk_block n (update_walk (S n) way tree 0) _ (0 + 1)
      (0 + 2 ^ Z.of_nat n) (0 * 2 + 2) ltac:(lia) ltac:(lia) He ltac:(lia) ltac:(lia)) as Hv.
    split; [lia|]. apply Z.leb_le. lia.
Qed.

(** The loops of [initReplacementState], for the ways [cacheNew] accepts. *)
Lemma init_loops assoc :
  1 <= assoc <= 16 ->
  effec_loop 66 1 assoc = Ok (2 ^ Z.log2_up assoc) /\ levels_loop 66 assoc 0 = Ok (Z.log2 assoc).
Proof.
  intros H. destruct assoc as [|p|p]; [lia| |lia].
  do 5 (destruct p as [p|p|]; try (split; reflexivity); try lia).
Qed.

(** ** The recency stack *)

(** All lines ever accessed, most recent first. *)
Definition touch (line : Z) (r : list Z) : list Z := line :: filter (.≠ line) r.

Lemma touch_NoDup line r : NoDup r -> NoDup (touch line r).
Proof.
  intros H. constructor; [|by apply NoDup_filter]. rewrite list_elem_of_filter. naive_solver.
Qed.

Lemma filter_neq_id (line : Z) (r : list Z) : line ∉ r -> filter (.≠ line) r = r.
Proof.
  induction r as [|x r IH]; intros H; [done|].
  rewrite filter_cons_True, IH; set_solver.
Qed.

Lemma filter_neq_split (line : Z) (a b : list Z) :
  NoDup (a ++ line :: b) -> filter (.≠ line) (a ++ line :: b) = a ++ b.
Proof.
  intros H. apply NoDup_app in H as (_ & H1 & [H2 _]%NoDup_cons).
  rewrite filter_app, filter_cons_False by auto.
  rewrite !filter_neq_id; [done|done|]. intros Ha. by apply (H1 line Ha), list_elem_of_here.
Qed.

Lemma lru_scan_found a b seen line :
  line ∉ a -> (length (seen ++ a ++ line :: b) <= 16)%nat ->
  lru_scan (length seen) seen (a ++ line :: b) line =
  (Some (length seen + length a)%nat, line :: seen ++ a ++ b).
Proof.
  revert seen. induction a as [|x a IH]; intros seen Ha Hl.
  - cbn. rewrite Z.eqb_refl. f_equal; [f_equal; lia|]. by destruct seen.
  - rewrite !length_app in Hl. simpl in Hl.
    cbn [lru_scan app]. destruct (Z.eqb_spec x line) as [->|]; [set_solver|].
    destruct (Nat.eqb_spec (S (length seen)) 16); [lia|].
    replace (S (length seen)) with (length (seen ++ [x])) by (rewrite length_app; simpl; lia).
    rewrite IH; [|set_solver|rewrite !length_app; simpl; lia].
    rewrite length_app, <- !app_assoc. simpl. do 2 f_equal. lia.
Qed.

Lemma lru_scan_missed rest seen line :
  line ∉ rest -> (length (seen ++ rest) <= 16)%nat -> (length seen <= 15)%nat ->
  lru_scan (length seen) seen rest line = (None, take 15 (seen ++ rest)).
Proof.
  revert seen. induction rest as [|x rest IH]; intros seen Hn Hl Hs.
  - cbn. rewrite app_nil_r, take_ge by lia. done.
  - rewrite length_app in Hl. simpl in Hl. cbn [lru_scan].
    destruct (Z.eqb_spec x line) as [->|]; [set_solver|].
    destruct (Nat.eqb_spec (S (length seen)) 16).
    + assert (rest = []) as -> by (destruct rest; [done|simpl in *; lia]).
      rewrite app_nil_r, take_app_le, take_ge by lia. done.
    + replace (S (length seen)) with (length (seen ++ [x])) by (rewrite length_app; simpl; lia).
      rewrite IH; [by rewrite <- app_assoc|set_solver|rewrite !length_app; simpl; lia|].
      rewrite length_app; simpl; lia.
Qed.

(** The stack after an access, and the depth the line was found at. *)
Definition lru_push (line : Z) (stack : list Z) : list Z :=
  let '(d, st) := lru_scan 0 [] stack line in match d with Some _ => st | None => line :: st end.
Definition lru_depth (line : Z) (stack : list Z) : option nat := fst (lru_scan 0 [] stack line).

Lemma lru_push_touch line r :
  NoDup r -> lru_push line (take 16 r) = take 16 (touch line r).
Proof.
  intros Hr. unfold lru_push, touch.
  assert (Hr' : NoDup (take 16 r ++ drop 16 r)) by by rewrite take_drop.
  assert (Hlen : (length (take 16 r) <= 16)%nat) by (rewrite length_take; lia).
  assert (Hd : (length (take 16 r) < 16)%nat -> drop 16 r = []).
  { rewrite length_take. intros. apply drop_ge. lia. }
  rewrite <- (take_drop 16 r) at 2. remember (take 16 r) as s. remember (drop 16 r) as d.
  clear Heqs Heqd. destruct (decide (line ∈ s)) as [(a & b & ->)%list_elem_of_split|Hn].
  - pose proof Hr' as (Hs & _)%NoDup_app. pose proof Hs as (_ & Ha & _)%NoDup_app.
    rewrite (lru_scan_found a b []);
      [|intros Hin; by apply (Ha line Hin), list_elem_of_here|simpl; lia].
    rewrite <- app_assoc in Hr' |- *. simpl in Hr' |- *.
    rewrite filter_neq_split, app_assoc by done.
    rewrite length_app in Hlen, Hd; simpl in Hlen, Hd.
    destruct (decide (length a + S (length b) = 16)%nat).
    + rewrite take_app_le, take_ge by (rewrite length_app; lia). done.
    + rewrite Hd, app_nil_r, take_ge by (rewrite ?length_app; lia). done.
  - rewrite (lru_scan_missed s []) by (done || simpl; lia). cbn [app firstn].
    rewrite filter_app, (filter_neq_id line s) by done. f_equal.
    destruct (decide (length s = 16)%nat).
    + by rewrite take_app_le by lia.
    + rewrite Hd by lia. by rewrite app_nil_r.
Qed.

(** The depth counted is the number of lines accessed since. *)
Lemma lru_depth_spec line r d :
  NoDup r -> lru_depth line (take 16 r) = Some d <-> r !! d = Some line /\ (d < 16)%nat.
Proof.
  intros Hr. unfold lru_depth.
  assert (Hlen : (length (take 16 r) <= 16)%nat) by (rewrite length_take; lia).
  assert (Hlk : forall k, take 16 r !! k = Some line <-> r !! k = Some line /\ (k < 16)%nat)
    by (intros; apply lookup_take_Some).
  rewrite <- Hlk.
  assert (Hs : NoDup (take 16 r)) by (eapply sublist_NoDup; [done|apply sublist_take]).
  remember (take 16 r) as s. clear Heqs Hlk Hr r.
  destruct (decide (line ∈ s)) as [(a & b & ->)%list_elem_of_split|Hn].
  - pose proof Hs as (_ & Ha & _)%NoDup_app.
    rewrite (lru_scan_found a b []);
      [|intros Hin; by apply (Ha line Hin), list_elem_of_here|simpl; lia].
    assert (Hat : (a ++ line :: b) !! length a = Some line)
      by (rewrite lookup_app_r, Nat.sub_diag; [done|lia]).
    simpl. split; [intros [= <-]; done|].
    intros Hd. f_equal. by apply (NoDup_lookup _ _ _ _ Hs Hat).
  - rewrite (lru_scan_missed s []) by (done || simpl; lia). split; [done|].
    intros Hd. by apply list_elem_of_lookup_2 in Hd.
Qed.

(** ** Caches *)

Definition set_of (c : MyCache) (line : Z) : nat := Z.to_nat (line mod numSets c).

(** The way a line is found in. *)
Definition resident_way (c : MyCache) (line : Z) : option nat :=
  match sets c !! set_of c line with
  | Some lines => find_way line (take (Z.to_nat (numWays c)) lines) 0
  | None => None
  end.
Definition resident (c : MyCache) (line : Z) : bool := bool_decide (is_Some (resident_way c line)).

(** Well-formed caches: the geometry is the one [cacheNew] sets up, and the
    arrays have the sizes they were allocated with. *)
Record wf_cache (c : MyCache) : Prop := {
  wf_sets : 0 < numSets c;
  wf_line : 0 < lineSize c;
  wf_ways : 1 <= numWays c <= 16;
  wf_levels : plruNumLevels c = Z.log2 (numWays c);
  wf_effec : plruEffecAssoc c = 2 ^ Z.log2_up (numWays c);
  wf_sets_len : length (sets c) = Z.to_nat (numSets c);
  wf_lines_len : Forall (fun ls => length ls = 16%nat) (sets c);
  wf_tree_len : length (plruTree c) = Z.to_nat (numSets c);
  wf_stack_len : length (lruStack c) = Z.to_nat (numSets c)
}.

(** A valid line sits in the set its address selects, and in one way only. *)
Definition coherent (c : MyCache) : Prop :=
  (forall s ls w l, sets c !! s = Some ls -> ls !! w = Some l -> (w < Z.to_nat (numWays c))%nat ->
     valid l <> 0 -> set_of c (tag l) = s) /\
  (forall s ls w w' l l', sets c !! s = Some ls -> ls !! w = Some l -> ls !! w' = Some l' ->
     (w < Z.to_nat (numWays c))%nat -> (w' < Z.to_nat (numWays c))%nat ->
     valid l <> 0 -> valid l' <> 0 -> tag l = tag l' -> w = w').

Lemma find_way_Some line ls k i :
  find_way line ls k = Some i ->
  exists j x, i = (k + j)%nat /\ ls !! j = Some x /\ holds line x = true.
Proof.
  revert k; induction ls as [|l ls IH]; intros k; simpl; [done|].
  destruct (holds line l) eqn:E.
  - intros [= <-]. exists 0%nat, l. split; [lia|done].
  - intros (j & x & -> & Hj & Hx)%IH. exists (S j), x. split; [lia|done].
Qed.

Lemma find_way_None line ls k :
  find_way line ls k = None <-> Forall (fun l => holds line l = false) ls.
Proof.
  revert k; induction ls as [|l ls IH]; intros k; simpl; [by split|].
  destruct (holds line l) eqn:E.
  - split; [done|]. intros H. inversion H; congruence.
  - rewrite IH, Forall_cons. tauto.
Qed.

Lemma holds_spec line l : holds line l = true <-> valid l <> 0 /\ tag l = line.
Proof. unfold holds. rewrite andb_true_iff, negb_true_iff, Z.eqb_neq, Z.eqb_eq. done. Qed.

(** A line is resident when one of the usable ways of its set holds it. *)
Lemma resident_spec c line :
  resident c line = true <->
  exists ls w l, sets c !! set_of c line = Some ls /\ ls !! w = Some l /\
    (w < Z.to_nat (numWays c))%nat /\ valid l <> 0 /\ tag l = line.
Proof.
  unfold resident, resident_way. rewrite bool_decide_eq_true.
  destruct (sets c !! set_of c line) as [ls|] eqn:Hs.
  - split.
    + intros [i Hi]. apply find_way_Some in Hi as (j & x & _ & Hj & Hx%holds_spec).
      apply lookup_take_Some in Hj as [Hj Hlt]. eauto 10.
    + intros (ls' & w & l & [= <-] & Hw & Hlt & Hv).
      destruct (find_way _ _ _) eqn:E; [eauto|].
      apply find_way_None in E. rewrite Forall_lookup in E.
      assert (Hf : holds line l = false) by (apply (E w), lookup_take_Some; done).
      apply holds_spec in Hv. congruence.
  - split; [intros [? [=]]|]. intros (? & ? & ? & [=] & _).
Qed.

Lemma wf_set_lookup c line :
  wf_cache c -> 0 <= line ->
  exists ls tree stack, sets c !! set_of c line = Some ls /\ length ls = 16%nat /\
    plruTree c !! set_of c line = Some tree /\ lruStack c !! set_of c line = Some stack.
Proof.
  intros H Hl. pose proof (wf_sets c H).
  assert (Hlt : (set_of c line < Z.to_nat (numSets c))%nat).
  { unfold set_of. pose proof (Z.mod_pos_bound line (numSets c)). lia. }
  destruct (lookup_lt_is_Some_2 (sets c) (set_of c line)) as [ls Hls];
    [rewrite wf_sets_len by done; lia|].
  destruct (lookup_lt_is_Some_2 (plruTree c) (set_of c line)) as [t Ht];
    [rewrite wf_tree_len by done; lia|].
  destruct (lookup_lt_is_Some_2 (lruStack c) (set_of c line)) as [st Hst];
    [rewrite wf_stack_len by done; lia|].
  exists ls, t, st. split_and!; try done. pose proof (wf_lines_len c H) as Hf.
  by apply (Forall_lookup_1 _ _ _ _ Hf Hls).
Qed.

(** A victim is always one of the ways, so a miss always installs. *)
Lemma getVictimInSet_ways c s tree :
  wf_cache c -> plruTree c !! s = Some tree ->
  exists v, getVictimInSet c s = Ok v /\ 0 <= v < numWays c.
Proof.
  intros H Ht. unfold getVictimInSet. rewrite Ht. eexists; split; [done|].
  pose proof (wf_ways c H). rewrite u64_small by (unfold u64_size; lia).
  assert (Hp : forall n e i v ix, 0 <= v -> 0 <= victim_walk n tree e i v ix).
  { intros n; induction n as [|n IH]; intros; cbn [victim_walk]; [done|].
    apply IH, u64_range. }
  pose proof (Hp (Z.to_nat (plruNumLevels c)) (plruEffecAssoc c) 0 0 0 ltac:(lia)).
  destruct (Z.ltb_spec (numWays c - 1)
    (victim_walk (Z.to_nat (plruNumLevels c)) tree (plruEffecAssoc c) 0 0 0)); lia.
Qed.

Lemma alter_as_insert {A} (f : A -> A) i (l : list A) x :
  l !! i = Some x -> alter f i l = <[i := f x]> l.
Proof. revert i; induction l as [|y l IH]; intros [|i] H; simplify_eq/=; [done|by rewrite IH]. Qed.

(** ** What one access does *)

Record accessed (c : MyCache) (line type o : Z) (c' : MyCache) (w : nat) : Prop := {
  ac_geom : numSets c' = numSets c /\ numWays c' = numWays c /\ lineSize c' = lineSize c /\
    plruNumLevels c' = plruNumLevels c /\ plruEffecAssoc c' = plruEffecAssoc c;
  ac_way : (w < Z.to_nat (numWays c))%nat;
  ac_line : exists ls l l',
    sets c !! set_of c line = Some ls /\ ls !! w = Some l /\
    sets c' = <[set_of c line := <[w := l']> ls]> (sets c) /\
    valid l' <> 0 /\ tag l' = line /\
    ((o = HIT /\ resident c line = true /\ valid l <> 0 /\ tag l = line /\
      dirty l' = (if writes type then 1 else dirty l) /\ lastEvictedLine c' = lastEvictedLine c) \/
     (o = MISS /\ resident c line = false /\ dirty l' = (if writes type then 1 else 0) /\
      lastEvictedLine c' = l /\ getVictimInSet c (set_of c line) = Ok (Z.of_nat w)));
  ac_tree : exists t, plruTree c !! set_of c line = Some t /\
    plruTree c' =
    <[set_of c line := update_walk (Z.to_nat (plruNumLevels c)) (Z.of_nat w) t 0]> (plruTree c);
  ac_stack : exists st, lruStack c !! set_of c line = Some st /\
    lruStack c' = <[set_of c line := lru_push line st]> (lruStack c) /\
    lruStackHit c' = match lru_depth line st with
                     | Some d => alter (fun n => u64 (n + 1)) d (lruStackHit c)
                     | None => lruStackHit c
                     end;
  ac_stats :
    statReadAccess c' = (if type =? 0 then u64 (statReadAccess c + 1) else statReadAccess c) /\
    statWriteAccess c' = (if type =? 0 then statWriteAccess c else u64 (statWriteAccess c + 1)) /\
    statReadMiss c' =
      (if (type =? 0) && (o =? MISS) then u64 (statReadMiss c + 1) else statReadMiss c) /\
    statWriteMiss c' =
      (if negb (type =? 0) && (o =? MISS) then u64 (statWriteMiss c + 1) else statWriteMiss c)
}.

(** The cache once the access was counted and pushed on the recency stack. *)
Definition counted (c : MyCache) (type line : Z) (stack : list Z) : MyCache :=
  let c := count_access c type in
  mkCache (numSets c) (numWays c) (lineSize c) (sets c) (lastEvictedLine c)
    (statReadAccess c) (statWriteAccess c) (statReadMiss c) (statWriteMiss c)
    (statDirtyEvicts c) (plruTree c) (plruNumLevels c) (plruEffecAssoc c)
    (<[set_of c line := lru_push line stack]> (lruStack c))
    (match lru_depth line stack with
     | Some d => alter (fun n => u64 (n + 1)) d (lruStackHit c)
     | None => lruStackHit c
     end).

Lemma lru_update_counted c type line stack :
  lruStack c !! set_of c line = Some stack ->
  lru_update (count_access c type) (set_of c line) line = Ok (counted c type line stack).
Proof.
  intros Hs. unfold lru_update. cbn [lruStack count_access]. rewrite Hs.
  unfold counted, lru_push, lru_depth. by destruct (lru_scan 0 [] stack line) as [[d|] st].
Qed.

Lemma access_hit c addr type w stack tree ls l :
  let line := addr / lineSize c in
  lineSize c <> 0 -> numSets c <> 0 ->
  sets c !! set_of c line = Some ls -> plruTree c !! set_of c line = Some tree ->
  lruStack c !! set_of c line = Some stack ->
  find_way line (take (Z.to_nat (numWays c)) ls) 0 = Some w -> ls !! w = Some l ->
  exists c', cacheAccessInstall c addr type = Ok (HIT, c') /\ accessed c line type HIT c' w.
Proof.
  intros line Hls Hns Hl Ht Hst Hf Hw. unfold cacheAccessInstall.
  rewrite (proj2 (Z.eqb_neq _ _) Hls), (proj2 (Z.eqb_neq _ _) Hns). cbn [orb].
  fold line. fold (set_of c line). cbn [sets count_access].
  rewrite Hl, lru_update_counted with (stack := stack) by done. cbn [mbind res_bind].
  cbn [numWays count_access]. rewrite Hf.
  assert (Hr : resident c line = true).
  { unfold resident, resident_way. rewrite Hl, Hf. by apply bool_decide_eq_true. }
  apply find_way_Some in Hf as (j & x & -> & [Hj Hlt]%lookup_take_Some & [Hv Htag]%holds_spec).
  simpl in Hw, Hlt |- *. assert (x = l) as -> by congruence.
  unfold updateReplacementState.
  destruct (writes type) eqn:Hwr; cbn [plruTree set_line counted count_access]; rewrite Ht;
    cbn [mbind res_bind]; eexists; (split; [reflexivity|]).
  - split; cbn; rewrite ?andb_false_r; [done|done| |eauto|eauto|done].
    exists ls, l, (mkLine (valid l) 1 (tag l)).
    rewrite (alter_as_insert _ _ _ ls), (alter_as_insert _ _ _ l) by done.
    rewrite Hwr. split_and!; try done. left. done.
  - split; cbn; rewrite ?andb_false_r; [done|done| |eauto|eauto|done].
    exists ls, l, l. rewrite (list_insert_id ls), (list_insert_id (sets c)) by done.
    rewrite Hwr. split_and!; try done. left. done.
Qed.

Lemma access_miss c addr type stack tree ls w l :
  let line := addr / lineSize c in
  lineSize c <> 0 -> numSets c <> 0 ->
  sets c !! set_of c line = Some ls -> plruTree c !! set_of c line = Some tree ->
  lruStack c !! set_of c line = Some stack ->
  find_way line (take (Z.to_nat (numWays c)) ls) 0 = None ->
  getVictimInSet c (set_of c line) = Ok (Z.of_nat w) -> Z.of_nat w < numWays c ->
  ls !! w = Some l ->
  exists c', cacheAccessInstall c addr type = Ok (MISS, c') /\ accessed c line type MISS c' w.
Proof.
  intros line Hls Hns Hl Ht Hst Hf Hv Hlt Hw. unfold cacheAccessInstall.
  rewrite (proj2 (Z.eqb_neq _ _) Hls), (proj2 (Z.eqb_neq _ _) Hns). cbn [orb].
  fold line. fold (set_of c line). cbn [sets count_access].
  rewrite Hl, lru_update_counted with (stack := stack) by done. cbn [mbind res_bind].
  cbn [numWays count_access]. rewrite Hf.
  assert (Hr : resident c line = false).
  { unfold resident, resident_way. rewrite Hl, Hf. apply bool_decide_eq_false. by intros []. }
  replace (getVictimInSet (counted c type line stack) (set_of c line))
    with (getVictimInSet c (set_of c line)) by done.
  rewrite Hv. cbn [mbind res_bind numWays counted count_access].
  rewrite (proj2 (Z.ltb_lt _ _) Hlt), Nat2Z.id, Hw. unfold updateReplacementState.
  cbn [plruTree set_line evict counted count_access]. rewrite Ht. cbn [mbind res_bind].
  eexists; (split; [reflexivity|]). split; cbn; rewrite ?andb_true_r; [done|lia| |eauto|eauto|].
  - exists ls, l, (mkLine 1 (if writes type then 1 else 0) line).
    rewrite (alter_as_insert _ _ _ ls), (alter_as_insert _ _ _ l) by done.
    split_and!; try done. right. done.
  - by destruct (type =? 0).
Qed.

(** An access to a well-formed cache always completes. *)
Lemma access_total c addr type :
  wf_cache c -> 0 <= addr ->
  exists o c' w, cacheAccessInstall c addr type = Ok (o, c') /\
    accessed c (addr / lineSize c) type o c' w.
Proof.
  intros H Ha. pose proof (wf_sets c H). pose proof (wf_line c H). pose proof (wf_ways c H).
  assert (0 <= addr / lineSize c) by (apply Z.div_pos; lia).
  destruct (wf_set_lookup c (addr / lineSize c)) as (ls & t & st & Hls & Hlen & Ht & Hst);
    [done..|].
  destruct (find_way (addr / lineSize c) (take (Z.to_nat (numWays c)) ls) 0) as [w|] eqn:Hf.
  - pose proof Hf as (j & x & -> & [Hj _]%lookup_take_Some & _)%find_way_Some.
    destruct (access_hit c addr type (0 + j)%nat st t ls x) as (c' & Hc' & Hac); eauto; lia.
  - destruct (getVictimInSet_ways c _ t H Ht) as (v & Hv & Hvr).
    destruct (lookup_lt_is_Some_2 ls (Z.to_nat v)) as [l Hl]; [lia|].
    rewrite <- (Z2Nat.id v) in Hv by lia.
    destruct (access_miss c addr type st t ls (Z.to_nat v) l) as (c' & Hc' & Hac);
      try done; try lia. eauto.
Qed.

Section Accessed.
Context (c : MyCache) (line type o : Z) (c' : MyCache) (w : nat).
Context (Hac : accessed c line type o c' w).

Lemma accessed_set_of l : set_of c' l = set_of c l.
Proof. unfold set_of. by destruct (ac_geom _ _ _ _ _ _ Hac) as (-> & _). Qed.

Lemma accessed_wf : wf_cache c -> wf_cache c'.
Proof.
  intros H. destruct (ac_geom _ _ _ _ _ _ Hac) as (G1 & G2 & G3 & G4 & G5).
  destruct (ac_line _ _ _ _ _ _ Hac) as (ls & l & l' & Hls & Hl & Hs & _).
  destruct (ac_tree _ _ _ _ _ _ Hac) as (t & _ & Ht).
  destruct (ac_stack _ _ _ _ _ _ Hac) as (st & _ & Hst & _).
  destruct H as [W1 W2 W3 W4 W5 W6 W7 W8 W9]. split; rewrite ?G1, ?G2, ?G3, ?G4, ?G5; try done.
  - by rewrite Hs, length_insert.
  - rewrite Hs. apply Forall_insert; [done|]. rewrite length_insert.
    by apply (Forall_lookup_1 _ _ _ _ W7 Hls).
  - by rewrite Ht, length_insert.
  - by rewrite Hst, length_insert.
Qed.

(** The lines of the new cache, way by way. *)
Lemma accessed_lookup s ls' w' x :
  sets c' !! s = Some ls' -> ls' !! w' = Some x ->
  (s = set_of c line /\ w' = w /\ valid x <> 0 /\ tag x = line) \/
  (~ (s = set_of c line /\ w' = w) /\ exists ls, sets c !! s = Some ls /\ ls !! w' = Some x).
Proof.
  destruct (ac_line _ _ _ _ _ _ Hac) as (ls & l & l' & Hls & Hl & -> & Hv & Ht & _).
  intros Hs Hx. destruct (decide (s = set_of c line)) as [->|Hne].
  - rewrite list_lookup_insert_eq in Hs by (by eapply lookup_lt_Some). injection Hs as <-.
    destruct (decide (w' = w)) as [->|Hw].
    + rewrite list_lookup_insert_eq in Hx by (by eapply lookup_lt_Some). injection Hx as <-. auto.
    + rewrite list_lookup_insert_ne in Hx by done. right. split; [naive_solver|eauto].
  - rewrite list_lookup_insert_ne in Hs by done. right. split; [naive_solver|eauto].
Qed.

(** And every old way but the one written is still there. *)
Lemma accessed_keeps s ls w' x :
  sets c !! s = Some ls -> ls !! w' = Some x -> ~ (s = set_of c line /\ w' = w) ->
  exists ls', sets c' !! s = Some ls' /\ ls' !! w' = Some x.
Proof.
  destruct (ac_line _ _ _ _ _ _ Hac) as (ls0 & l & l' & Hls & Hl & -> & _).
  intros Hs Hx Hne. destruct (decide (s = set_of c line)) as [->|Hns].
  - rewrite list_lookup_insert_eq by (by eapply lookup_lt_Some). eexists; split; [done|].
    rewrite list_lookup_insert_ne; [congruence|naive_solver].
  - rewrite list_lookup_insert_ne by done. eauto.
Qed.

(** The way written holds the line. *)
Lemma accessed_here :
  exists ls l, sets c' !! set_of c line = Some ls /\ ls !! w = Some l /\
    (w < Z.to_nat (numWays c'))%nat /\ valid l <> 0 /\ tag l = line.
Proof.
  destruct (ac_geom _ _ _ _ _ _ Hac) as (_ & -> & _).
  destruct (ac_line _ _ _ _ _ _ Hac) as (ls & l & l' & Hls & Hl & -> & Hv & Ht & _).
  exists (<[w:=l']> ls), l'. rewrite !list_lookup_insert_eq by (by eapply lookup_lt_Some).
  pose proof (ac_way _ _ _ _ _ _ Hac). done.
Qed.

Lemma accessed_resident : resident c' line = true.
Proof.
  destruct accessed_here as (ls & l & H). apply resident_spec. rewrite accessed_set_of. eauto.
Qed.

(** Nothing becomes resident but the line accessed. *)
Lemma accessed_no_new l : l <> line -> resident c' l = true -> resident c l = true.
Proof.
  destruct (ac_geom _ _ _ _ _ _ Hac) as (_ & G2 & _).
  rewrite !resident_spec, accessed_set_of, G2. intros Hne (ls & w' & x & Hs & Hx & Hlt & Hv & Ht).
  destruct (accessed_lookup _ _ _ _ Hs Hx) as [(_ & _ & _ & ?)|(_ & ls0 & Hs0 & Hx0)];
    [congruence|]. eauto 10.
Qed.

(** A way other than the one written keeps its line resident. *)
Lemma accessed_stays ls w' x :
  sets c !! set_of c (tag x) = Some ls -> ls !! w' = Some x -> (w' < Z.to_nat (numWays c))%nat ->
  valid x <> 0 -> ~ (set_of c (tag x) = set_of c line /\ w' = w) -> resident c' (tag x) = true.
Proof.
  intros Hs Hx Hlt Hv Hne. destruct (ac_geom _ _ _ _ _ _ Hac) as (_ & G2 & _).
  destruct (accessed_keeps _ _ _ _ Hs Hx Hne) as (ls' & Hs' & Hx').
  apply resident_spec. rewrite accessed_set_of, G2. eauto 10.
Qed.

(** What leaves the cache is the line the access evicted. *)
Lemma accessed_evicts l :
  resident c l = true -> resident c' l = false ->
  o = MISS /\ valid (lastEvictedLine c') <> 0 /\ tag (lastEvictedLine c') = l.
Proof.
  intros (ls & w' & x & Hs & Hx & Hlt & Hv & <-)%resident_spec Hnr.
  destruct (decide (set_of c (tag x) = set_of c line /\ w' = w)) as [[He ->]|Hne];
    [|rewrite (accessed_stays ls w' x) in Hnr; done].
  destruct (ac_line _ _ _ _ _ _ Hac) as (ls0 & l0 & l' & Hls & Hl & _ & _ & _ & Hcase).
  rewrite He in Hs. assert (l0 = x) as -> by congruence.
  destruct Hcase as [(_ & _ & _ & Ht & _)|(-> & _ & _ & -> & _)]; [|done].
  pose proof accessed_resident. congruence.
Qed.

Lemma accessed_coherent : coherent c -> coherent c'.
Proof.
  intros [Hhome Huniq]. destruct (ac_geom _ _ _ _ _ _ Hac) as (_ & G2 & _).
  destruct (ac_line _ _ _ _ _ _ Hac) as (ls0 & l0 & l' & Hls & Hl & _ & _ & _ & Hcase).
  pose proof (ac_way _ _ _ _ _ _ Hac) as Hw.
  assert (Hother : forall ls w' x, sets c !! set_of c line = Some ls -> ls !! w' = Some x ->
    (w' < Z.to_nat (numWays c))%nat -> valid x <> 0 -> tag x = line -> w' = w).
  { intros ls w' x Hs Hx Hlt Hv Ht. assert (ls0 = ls) as -> by congruence.
    destruct Hcase as [(_ & _ & Hv0 & Ht0 & _)|(_ & Hr & _)].
    - eapply (Huniq _ ls w' w x l0); eauto. congruence.
    - enough (resident c line = true) by congruence. apply resident_spec. eauto 10. }
  split; rewrite ?G2.
  - intros s ls w' x Hs Hx Hlt Hv. rewrite accessed_set_of.
    destruct (accessed_lookup _ _ _ _ Hs Hx) as [(-> & _ & _ & ->)|(_ & ls1 & Hs1 & Hx1)]; eauto.
  - intros s ls w1 w2 x1 x2 Hs H1 H2 Hl1 Hl2 Hv1 Hv2 Ht.
    destruct (accessed_lookup _ _ _ _ Hs H1) as [(-> & -> & _ & Ht1)|(Hn1 & ls1 & Hs1 & Hx1)];
    destruct (accessed_lookup _ _ _ _ Hs H2) as [(Hs' & -> & _ & Ht2)|(Hn2 & ls2 & Hs2 & Hx2)];
    try done.
    + symmetry. eapply (Hother ls2 w2 x2); eauto. congruence.
    + subst s. eapply (Hother ls1 w1 x1); eauto. congruence.
    + assert (ls1 = ls2) as -> by congruence. eapply (Huniq s ls2 w1 w2 x1 x2); eauto.
Qed.

End Accessed.

(** With a power of two of ways the way just used is not the next victim. *)
Lemma victim_not_mru c line type o c' w v k :
  wf_cache c -> accessed c line type o c' w -> 1 <= k -> numWays c = 2 ^ k ->
  getVictimInSet c' (set_of c line) = Ok v -> v <> Z.of_nat w.
Proof.
  intros H Hac Hk Hw. pose proof (wf_ways c H). pose proof (ac_way _ _ _ _ _ _ Hac).
  destruct (ac_geom _ _ _ _ _ _ Hac) as (_ & G2 & _ & G4 & G5).
  destruct (ac_tree _ _ _ _ _ _ Hac) as (t & Ht & Ht').
  unfold getVictimInSet. rewrite Ht', list_lookup_insert_eq by (by eapply lookup_lt_Some).
  rewrite G4, G5, G2, (wf_levels c H), (wf_effec c H), Hw, Z.log2_pow2, Z.log2_up_pow2 by lia.
  assert (Hk4 : k <= 4) by (apply (Z.pow_le_mono_r_iff 2); lia).
  replace (Z.to_nat k) with (S (Z.to_nat (k - 1))) by lia.
  pose proof (victim_other_half (Z.to_nat (k - 1)) (Z.of_nat w) t) as Hv.
  replace (Z.of_nat (S (Z.to_nat (k - 1)))) with k in * by lia.
  destruct Hv as [Hr Hne]; [lia..|].
  rewrite u64_small by (unfold u64_size; lia).
  remember (victim_walk (S (Z.to_nat (k - 1))) _ _ _ _ _) as vw eqn:Evw. clear Evw.
  destruct (Z.ltb_spec (2 ^ k - 1) vw); [lia|]. intros [= <-] ->.
  by destruct (2 ^ Z.of_nat (Z.to_nat (k - 1)) <=? Z.of_nat w).
Qed.

(** So the line accessed last survives the next access, whatever it is. *)
Lemma mru_survives c l1 t1 o1 c1 w1 l2 t2 o2 c2 w2 k :
  wf_cache c -> accessed c l1 t1 o1 c1 w1 -> accessed c1 l2 t2 o2 c2 w2 ->
  1 <= k -> numWays c = 2 ^ k -> resident c2 l1 = true.
Proof.
  intros H H1 H2 Hk Hw. destruct (decide (l1 = l2)) as [<-|Hne];
    [by eapply accessed_resident|].
  destruct (ac_geom _ _ _ _ _ _ H1) as (_ & G2 & _).
  destruct (ac_line _ _ _ _ _ _ H1) as (ls & l & l' & Hls & Hl & Hs & Hv & <- & _).
  assert (Hnew : sets c1 !! set_of c1 (tag l') = Some (<[w1 := l']> ls)).
  { rewrite (accessed_set_of _ _ _ _ _ _ H1), Hs.
    by rewrite list_lookup_insert_eq by (by eapply lookup_lt_Some). }
  assert (Hat : (<[w1 := l']> ls) !! w1 = Some l')
    by (by rewrite list_lookup_insert_eq by (by eapply lookup_lt_Some)).
  pose proof (ac_way _ _ _ _ _ _ H1).
  apply (accessed_stays _ _ _ _ _ _ H2 _ w1 _ Hnew Hat); [by rewrite G2|done|].
  intros [Hset ->].
  destruct (ac_line _ _ _ _ _ _ H2) as (ls2 & x & x' & Hls2 & Hx & _ & _ & _ & Hcase).
  rewrite <- Hset, Hnew in Hls2. injection Hls2 as <-. rewrite Hat in Hx. injection Hx as <-.
  destruct Hcase as [(_ & _ & _ & Ht & _)|(_ & _ & _ & _ & Hvic)]; [congruence|].
  rewrite <- Hset, (accessed_set_of _ _ _ _ _ _ H1) in Hvic.
  by apply (victim_not_mru _ _ _ _ _ _ _ k H H1 Hk Hw Hvic).
Qed.

(** ** Three ways *)

Lemma three_ways_victims c s v :
  wf_cache c -> numWays c = 3 -> getVictimInSet c s = Ok v ->
  v = if Z.testbit (plruTree c !!! s) 0 then 2 else 0.
Proof.
  intros H Hw. unfold getVictimInSet. rewrite list_lookup_total_alt.
  destruct (plruTree c !! s) as [t|]; [|done]. simpl default.
  rewrite (wf_levels c H), (wf_effec c H), Hw.
  change (Z.to_nat (Z.log2 3)) with 1%nat. cbn [victim_walk]. rewrite bit_test by lia.
  intros Hv. apply Ok_inj in Hv. subst v. by destruct (Z.testbit t 0).
Qed.

(** The way the line was put in, seen from outside. *)
Lemma accessed_way c line type o c' w :
  accessed c line type o c' w -> coherent c -> resident_way c' line = Some w.
Proof.
  intros Hac Hco. pose proof (accessed_coherent _ _ _ _ _ _ Hac Hco) as [_ Hu].
  pose proof (accessed_resident _ _ _ _ _ _ Hac) as Hr.
  destruct (accessed_here _ _ _ _ _ _ Hac) as (ls & l & Hs & Hl & Hlt & Hv & Ht).
  unfold resident, resident_way in *. rewrite (accessed_set_of _ _ _ _ _ _ Hac), Hs in *.
  apply bool_decide_eq_true in Hr as [i Hi]. rewrite Hi. f_equal.
  apply find_way_Some in Hi as (j & x & -> & [Hj Hjl]%lookup_take_Some & [Hvx Htx]%holds_spec).
  simpl. eapply (Hu _ _ _ _ x l Hs Hj Hl); try done. congruence.
Qed.

Lemma three_ways_next c l1 t1 o1 c1 l2 t2 o2 c2 w2 :
  wf_cache c -> coherent c -> numWays c = 3 ->
  accessed c l1 t1 o1 c1 2 -> accessed c1 l2 t2 o2 c2 w2 ->
  set_of c l2 = set_of c l1 -> resident c1 l2 = false -> resident c2 l1 = false.
Proof.
  intros H Hco Hw H1 H2 Hset Hmiss.
  pose proof (accessed_coherent _ _ _ _ _ _ H1 Hco) as Hco1.
  pose proof (accessed_wf _ _ _ _ _ _ H1 H) as Hwf1.
  pose proof (accessed_resident _ _ _ _ _ _ H1) as Hr1.
  destruct (ac_geom _ _ _ _ _ _ H1) as (_ & G2 & _ & G4 & _).
  destruct (ac_tree _ _ _ _ _ _ H1) as (t & Ht & Ht').
  assert (l1 <> l2) as Hne by congruence.
  destruct (ac_line _ _ _ _ _ _ H2) as (ls & l & l' & Hls & Hl & _ & _ & _ & Hcase).
  destruct Hcase as [(_ & Hr & _)|(_ & _ & _ & _ & Hv)]; [congruence|].
  rewrite (accessed_set_of _ _ _ _ _ _ H1), Hset in Hv.
  apply three_ways_victims in Hv; [|done|congruence].
  rewrite list_lookup_total_alt, Ht', list_lookup_insert_eq in Hv by (by eapply lookup_lt_Some).
  rewrite (wf_levels c H), Hw in Hv. change (Z.to_nat (Z.log2 3)) with 1%nat in Hv.
  change (default _ (Some ?x)) with x in Hv. rewrite (update_walk_root 0 (Z.of_nat 2) t) in Hv.
  change (Z.of_nat w2 = 2) in Hv.
  assert (w2 = 2%nat) as -> by lia.
  apply not_true_is_false. intros Hr2.
  apply resident_spec in Hr2 as (ls2 & w' & x & Hs2 & Hx & Hlt & Hvx & Htx).
  rewrite (accessed_set_of _ _ _ _ _ _ H2), (accessed_set_of _ _ _ _ _ _ H1) in Hs2.
  destruct (accessed_lookup _ _ _ _ _ _ H2 _ _ _ _ Hs2 Hx)
    as [(_ & _ & _ & ?)|(Hn & ls1 & Hs1 & Hx1)]; [congruence|].
  destruct (accessed_here _ _ _ _ _ _ H1) as (lsa & y & Hsa & Hy & Hly & Hvy & Hty).
  apply Hn. rewrite (accessed_set_of _ _ _ _ _ _ H1), Hset. split; [done|].
  destruct (ac_geom _ _ _ _ _ _ H2) as (_ & G2' & _). rewrite G2' in Hlt.
  assert (lsa = ls1) as -> by congruence.
  destruct Hco1 as [_ Hu]. eapply (Hu _ _ _ _ x y Hs1 Hx1 Hy); try done. congruence.
Qed.

(** ** A fresh cache and sequences of accesses *)

Lemma cacheNew_wf ms mt ml size assoc ls n :
  1 <= assoc <= 16 -> 0 < ls -> ls * assoc < 2 ^ 64 -> n = size / (ls * assoc) -> 0 < n ->
  length ms = Z.to_nat n -> Forall (fun l => length l = 16%nat) ms -> length mt = Z.to_nat n ->
  exists c, cacheNew ms mt ml size assoc ls = Ok c /\ wf_cache c /\
    sets c = ms /\ numSets c = n /\ numWays c = assoc /\ lineSize c = ls /\
    lruStack c = replicate (Z.to_nat n) [].
Proof.
  intros Ha Hl Hb Hn Hpos Hms Hf Hmt. unfold cacheNew, MAX_WAYS.
  destruct (Z.ltb_spec 16 assoc); [lia|].
  rewrite u64_small by (unfold u64_size; nia).
  destruct (Z.eqb_spec (ls * assoc) 0); [nia|].
  destruct (init_loops assoc Ha) as [-> ->]. cbn [mbind res_bind]. rewrite <- Hn.
  eexists; split; [done|]. split; [|done].
  split; cbn; try done. by rewrite length_replicate.
Qed.

Lemma invalid_coherent c :
  Forall (Forall (fun l => valid l = 0)) (sets c) -> coherent c.
Proof.
  intros Hf.
  assert (Hi : forall s ls w l, sets c !! s = Some ls -> ls !! w = Some l -> valid l = 0).
  { intros s ls w l Hs Hl. apply (Forall_lookup_1 _ _ _ _ (Forall_lookup_1 _ _ _ _ Hf Hs) Hl). }
  split; intros; exfalso; eauto.
Qed.

(** A sequence of accesses: address and type. *)
Definition accesses (c : MyCache) (ops : list (Z * Z)) : res MyCache :=
  res_fold (fun c op => '(_, c) ← cacheAccessInstall c op.1 op.2; Ok c) c ops.

(** The lines of one set, most recently accessed first. *)
Definition recency (n : Z) (s : nat) (lines : list Z) : list Z :=
  foldl (fun r l => if decide (Z.to_nat (l mod n) = s) then touch l r else r) [] lines.

Lemma recency_snoc n s lines l :
  recency n s (lines ++ [l]) =
  if decide (Z.to_nat (l mod n) = s) then touch l (recency n s lines) else recency n s lines.
Proof. unfold recency. by rewrite foldl_app. Qed.

Lemma recency_NoDup n s lines : NoDup (recency n s lines).
Proof.
  induction lines as [|l lines IH] using rev_ind; [constructor|].
  rewrite recency_snoc. case_decide; [by apply touch_NoDup|done].
Qed.

(** Every run completes, keeps the invariants and the recency stacks. *)
Lemma accesses_run c ops :
  wf_cache c -> coherent c -> lruStack c = replicate (Z.to_nat (numSets c)) [] ->
  Forall (fun op => 0 <= op.1) ops ->
  exists c', accesses c ops = Ok c' /\ wf_cache c' /\ coherent c' /\
    numSets c' = numSets c /\ numWays c' = numWays c /\ lineSize c' = lineSize c /\
    forall s, (s < Z.to_nat (numSets c))%nat ->
      lruStack c' !! s =
      Some (take 16 (recency (numSets c) s ((fun op => op.1 / lineSize c) <$> ops))).
Proof.
  intros Hwf Hco Hst. induction ops as [|op ops IH] using rev_ind; intros Hf.
  - exists c. split_and!; try done. intros s Hs. rewrite Hst. by apply lookup_replicate.
  - apply Forall_app in Hf as [Hf [Hop _]%Forall_cons].
    destruct IH as (c1 & Hc1 & W1 & C1 & G1 & G2 & G3 & S1); [done|].
    destruct (access_total c1 op.1 op.2 W1 Hop) as (o & c2 & w & Hc2 & Hac).
    exists c2. destruct (ac_geom _ _ _ _ _ _ Hac) as (E1 & E2 & E3 & _).
    split; [|split; [by eapply accessed_wf|split; [by eapply accessed_coherent|]]].
    + unfold accesses in *. rewrite res_fold_app, Hc1. cbn [mbind res_bind res_fold].
      by rewrite Hc2.
    + rewrite E1, E2, E3, G1, G2, G3. split_and!; try done. intros s Hs.
      destruct (ac_stack _ _ _ _ _ _ Hac) as (st & Hlk & Hst2 & _).
      rewrite fmap_app. change (_ <$> [op]) with [op.1 / lineSize c]. rewrite recency_snoc.
      unfold set_of in *. rewrite G1, G3 in *. rewrite Hst2.
      case_decide as Hd.
      * rewrite <- Hd in *. rewrite S1 in Hlk by done. injection Hlk as <-.
        rewrite list_lookup_insert_eq, lru_push_touch; [done|apply recency_NoDup|].
        by rewrite (wf_stack_len c1 W1), G1.
      * rewrite list_lookup_insert_ne by done. by apply S1.
Qed.

(** ** Two levels *)

(** The addresses of the lines a cache holds are 64-bit addresses. *)
Definition tags_fit (c : MyCache) : Prop :=
  forall s ls w l, sets c !! s = Some ls -> ls !! w = Some l -> (w < Z.to_nat (numWays c))%nat ->
    valid l <> 0 -> 0 <= tag l /\ tag l * lineSize c < 2 ^ 64.

Lemma accessed_fit c addr type o c' w :
  0 < lineSize c -> 0 <= addr < 2 ^ 64 -> accessed c (addr / lineSize c) type o c' w ->
  tags_fit c -> tags_fit c'.
Proof.
  intros Hl Ha Hac Hf s ls w' l Hs Hw Hlt Hv.
  destruct (ac_geom _ _ _ _ _ _ Hac) as (_ & G2 & G3 & _). rewrite G2 in Hlt. rewrite G3.
  destruct (accessed_lookup _ _ _ _ _ _ Hac _ _ _ _ Hs Hw) as [(_ & _ & _ & ->)|(_ & ls1 & H1 & H2)];
    [|by apply (Hf s ls1 w' l)].
  pose proof (Z.mul_div_le addr (lineSize c)). pose proof (Z.div_pos addr (lineSize c)). lia.
Qed.

Lemma accessed_last_fit c line type c' w :
  accessed c line type MISS c' w -> tags_fit c -> valid (lastEvictedLine c') <> 0 ->
  0 <= tag (lastEvictedLine c') /\ tag (lastEvictedLine c') * lineSize c' < 2 ^ 64.
Proof.
  intros Hac Hf Hv. destruct (ac_geom _ _ _ _ _ _ Hac) as (_ & _ & -> & _).
  destruct (ac_line _ _ _ _ _ _ Hac) as (ls & l & l' & Hls & Hl & _ & _ & _ & Hcase).
  destruct Hcase as [([=] & _)|(_ & _ & _ & He & _)]. rewrite He in *.
  apply (Hf _ _ _ _ Hls Hl); [apply Hac|done].
Qed.

Lemma accessed_outcome c line type o c' w :
  accessed c line type o c' w -> o = (if resident c line then HIT else MISS).
Proof.
  intros Hac. destruct (ac_line _ _ _ _ _ _ Hac) as (ls & l & l' & _ & _ & _ & _ & _ & Hcase).
  by destruct Hcase as [(-> & -> & _)|(-> & -> & _)].
Qed.

(** Writing the evicted line back into the second level. *)
Lemma write_back_spec ci c1 c1' c2 line type w :
  accessed c1 line type MISS c1' w -> tags_fit c1 -> 0 < lineSize c1 ->
  lineSize c2 = lineSize c1 -> wf_cache c2 ->
  l1cache ci = Some c1' -> l2cache ci = Some c2 ->
  exists c2', write_back_l1_l2 ci = Ok (set_l2 ci c2') /\ wf_cache c2' /\
    ((c2' = c2 /\ ~ (valid (lastEvictedLine c1') <> 0 /\ dirty (lastEvictedLine c1') <> 0)) \/
     exists o w', accessed c2 (tag (lastEvictedLine c1')) 2 o c2' w').
Proof.
  intros Hac Hf Hl HL Hwf H1 H2. unfold write_back_l1_l2, write_back. rewrite H1.
  cbn [deref mbind res_bind].
  destruct (Z.eqb_spec (valid (lastEvictedLine c1')) 0) as [|Hv]; cbn [negb andb];
    [exists c2; split_and!; [|done|naive_solver]; destruct ci; simplify_eq/=; done|].
  destruct (Z.eqb_spec (dirty (lastEvictedLine c1')) 0) as [|Hd]; cbn [negb];
    [exists c2; split_and!; [|done|naive_solver]; destruct ci; simplify_eq/=; done|].
  destruct (accessed_last_fit _ _ _ _ _ Hac Hf Hv) as [Hp Hb].
  destruct (ac_geom _ _ _ _ _ _ Hac) as (_ & _ & G3 & _). rewrite G3 in *.
  rewrite u64_small by (unfold u64_size; nia).
  destruct (access_total c2 (tag (lastEvictedLine c1') * lineSize c1) 2 Hwf ltac:(nia))
    as (o & c2' & w' & He & Hac2).
  rewrite HL, Z.div_mul in Hac2 by lia.
  exists c2'. split_and!; [|by eapply accessed_wf|eauto].
  unfold access_l2. rewrite H2. cbn [deref mbind res_bind]. by rewrite He.
Qed.

(** Both levels well formed, with the same line size. *)
Record two_levels (ci : CacheInternals) (c1 c2 : MyCache) : Prop := {
  tl_config : pCacheConfig ci = 3;
  tl_l1 : l1cache ci = Some c1;
  tl_l2 : l2cache ci = Some c2;
  tl_wf1 : wf_cache c1;
  tl_wf2 : wf_cache c2;
  tl_fit : tags_fit c1;
  tl_size : lineSize c2 = lineSize c1
}.

(** A load that misses the first level. *)
Lemma load_miss_l1 ci c1 c2 addr type k :
  two_levels ci c1 c2 -> 0 <= addr < 2 ^ 64 -> type <> 1 -> 1 <= k -> numWays c2 = 2 ^ k ->
  let line := addr / lineSize c1 in
  resident c1 line = false ->
  exists c1' c2', memoryAccess ci addr type =
      Ok (if resident c2 line then 2 else 3, mkInternals 3 (Some c1') (Some c2') (l3cache ci)) /\
    two_levels (mkInternals 3 (Some c1') (Some c2') (l3cache ci)) c1' c2' /\
    resident c1' line = true /\ resident c2' line = true /\
    (valid (lastEvictedLine c1') <> 0 -> dirty (lastEvictedLine c1') <> 0 ->
     resident c2' (tag (lastEvictedLine c1')) = true) /\ numWays c2' = numWays c2.
Proof.
  intros [T0 T1 T2 W1 W2 F1 TL] Ha Ht Hk Hw line Hr.
  destruct (access_total c1 addr type W1 ltac:(lia)) as (o1 & c1' & w1 & E1 & A1).
  destruct (access_total c2 addr 0 W2 ltac:(lia)) as (o2 & c2a & w2 & E2 & A2).
  pose proof (accessed_outcome _ _ _ _ _ _ A1) as O1. fold line in O1. rewrite Hr in O1.
  pose proof (accessed_outcome _ _ _ _ _ _ A2) as O2. rewrite TL in A2, O2. fold line in A2, O2.
  pose proof (accessed_wf _ _ _ _ _ _ A1 W1) as W1'.
  pose proof (accessed_wf _ _ _ _ _ _ A2 W2) as W2a.
  pose proof (wf_line c1 W1) as Hlp. subst o1.
  destruct (ac_geom _ _ _ _ _ _ A1) as (_ & _ & G1 & _).
  destruct (ac_geom _ _ _ _ _ _ A2) as (_ & N2 & G2 & _).
  set (ci2 := mkInternals (pCacheConfig ci) (Some c1') (Some c2a) (l3cache ci)).
  destruct (write_back_spec ci2 c1 c1' c2a _ type w1 A1 F1 Hlp ltac:(congruence) W2a eq_refl eq_refl)
    as (c2' & Hwb & W2' & Hcase).
  exists c1', c2'.
  assert (HL2 : lineSize c2' = lineSize c1' /\ numWays c2' = numWays c2).
  { destruct Hcase as [[-> _]|(o & w & Hac)]; [split; congruence|].
    destruct (ac_geom _ _ _ _ _ _ Hac) as (_ & -> & -> & _). split; congruence. }
  destruct HL2 as [HL2 HN2].
  assert (Hstay : resident c2' line = true).
  { destruct Hcase as [[-> _]|(o & w & Hac)]; [by eapply accessed_resident|].
    by apply (mru_survives _ _ _ _ _ _ _ _ _ _ _ k W2 A2 Hac). }
  split_and!; [|split; try done; by eapply accessed_fit|by eapply accessed_resident|done| |done].
  - unfold memoryAccess. rewrite T0. cbn [Z.eqb Pos.eqb].
    unfold access_l1. rewrite T1. cbn [deref mbind res_bind]. rewrite E1. cbn [mbind res_bind].
    rewrite (proj2 (Z.eqb_neq _ _) Ht). cbn [MISS Z.eqb negb].
    unfold access_l2 at 1. cbn [l2cache set_l1]. rewrite T2. cbn [deref mbind res_bind].
    rewrite E2. cbn [mbind res_bind].
    change (set_l2 (set_l1 ci c1') c2a) with ci2. rewrite Hwb. cbn [mbind res_bind].
    unfold ci2, set_l2. cbn. rewrite T0, O2. by destruct (resident c2 line).
  - intros Hv Hd. destruct Hcase as [[_ Hn]|(o & w & Hac)]; [tauto|by eapply accessed_resident].
Qed.

(** An access to both levels, on every branch. *)
Lemma two_level_access ci c1 c2 addr type k :
  two_levels ci c1 c2 -> 0 <= addr < 2 ^ 64 -> 1 <= k -> numWays c2 = 2 ^ k ->
  let line := addr / lineSize c1 in
  exists h c1' c2',
    memoryAccess ci addr type = Ok (h, mkInternals 3 (Some c1') (Some c2') (l3cache ci)) /\
    two_levels (mkInternals 3 (Some c1') (Some c2') (l3cache ci)) c1' c2' /\
    h = (if type =? 1 then 1 else if resident c1 line then 1
         else if resident c2 line then 2 else 3) /\
    resident c1' line = true /\
    (h = 1 -> c2' = c2) /\
    (h <> 1 -> resident c2' line = true /\
       (valid (lastEvictedLine c1') <> 0 -> dirty (lastEvictedLine c1') <> 0 ->
        resident c2' (tag (lastEvictedLine c1')) = true)) /\
    numWays c2' = numWays c2.
Proof.
  intros HT Ha Hk Hw line. destruct (decide (type <> 1 /\ resident c1 line = false)) as [[Ht Hr]|Hn].
  - destruct (load_miss_l1 ci c1 c2 addr type k HT Ha Ht Hk Hw Hr)
      as (c1' & c2' & He & HT' & R1 & R2 & Hd & HN).
    exists (if resident c2 line then 2 else 3), c1', c2'.
    rewrite (proj2 (Z.eqb_neq _ _) Ht), Hr. split_and!; try done. by destruct (resident c2 line).
  - destruct HT as [T0 T1 T2 W1 W2 F1 TL].
    destruct (access_total c1 addr type W1 ltac:(lia)) as (o1 & c1' & w1 & E1 & A1).
    pose proof (accessed_outcome _ _ _ _ _ _ A1) as O1. fold line in O1.
    destruct (ac_geom _ _ _ _ _ _ A1) as (_ & _ & G1 & _). pose proof (wf_line c1 W1).
    exists 1, c1', c2. split_and!; try done; [| | |by eapply accessed_resident].
    + unfold memoryAccess. rewrite T0. cbn [Z.eqb Pos.eqb].
      unfold access_l1. rewrite T1. cbn [deref mbind res_bind]. rewrite E1. cbn [mbind res_bind].
      unfold set_l1. rewrite T0, T2. destruct (Z.eqb_spec type 1); [done|].
      destruct (resident c1 line); [by rewrite O1|tauto].
    + split; try done; [by eapply accessed_wf|by eapply accessed_fit|congruence].
    + destruct (Z.eqb_spec type 1); [done|]. destruct (resident c1 line); [done|tauto].
Qed.
