(* ===== verification/CalipersCycles.v ===== *)
(** * Critical paths in Calipers

    infras/calipers/src/graph/graph_util.h, graph/graph.h, graph/graph.cpp and
    the enumerations of common/calipers_types.h: vectors of 64-bit lengths, one
    lane per scenario, and [updateCriticalPathCycles], which relaxes one edge and
    carries along the breakdown of the critical path into kinds of cycles and
    kinds of instructions.  The structs of counters are functions from their
    fields; a map that is only read through [operator[]] gives a
    default-constructed value for an absent key.  Every call passes
    [VECTOR_WIDTH] as the width, so the width tests are not repeated here. *)

From S2P Require Import Prelude Machine.

#[local] Open Scope list_scope.
#[local] Open Scope Z_scope.

Module CalG.

(** ** Vectors *)

Definition VECTOR_WIDTH : nat := 1.
Definition INT64_MAX : Z := 2 ^ 63 - 1.
Definition INT64_MIN : Z := - 2 ^ 63.

(** A signed 64-bit result; overflow is undefined. *)
Definition i64 (z : Z) : res Z :=
  if (INT64_MIN <=? z) && (z <=? INT64_MAX) then Ok z else Stop Undefined.

Definition Vector : Type := list Z.
Definition mask_t : Type := list bool.

(** The loops over the lanes. *)
Fixpoint lanes {A C} (f : A -> res C) (xs : list A) : res (list C) :=
  match xs with
  | [] => Ok []
  | x :: xs => y ← f x; ys ← lanes f xs; Ok (y :: ys)
  end.

(** The constructors: one value in every lane, one value in one lane and no
    edge in the others, and a vector less an offset. *)
Definition Vector_all (val : Z) : Vector := replicate VECTOR_WIDTH val.
Definition Vector_lane (val : Z) (idx : nat) : res Vector :=
  if Nat.ltb idx VECTOR_WIDTH then Ok (<[idx := val]> (replicate VECTOR_WIDTH INT64_MAX))
  else Stop ErrorExit.
Definition Vector_offset (v_in : Vector) (offset : Z) : res Vector :=
  lanes (fun x => i64 (x - offset)) v_in.

Definition Vector_get (v : Vector) (idx : nat) : res Z :=
  match v !! idx with Some x => Ok x | None => Stop ErrorExit end.

(** [update] with an output mask: the new length where it is no shorter. *)
Definition update_lane (x : Z) (ab : Z * Z) : res (Z * bool) :=
  let '(a, b) := ab in
  if b =? INT64_MAX then Ok (x, false)
  else s ← i64 (a + b); Ok (if x <=? s then (s, true) else (x, false)).
Definition update_masked (v v_in1 v_in2 : Vector) : res (Vector * mask_t) :=
  r ← lanes (fun xab => update_lane xab.1 xab.2) (zip v (zip v_in1 v_in2));
  Ok (r.*1, r.*2).

(** [update] without one: only where it is longer. *)
Definition update (v v_in1 v_in2 : Vector) : res Vector :=
  lanes (fun xab => let '(x, (a, b)) := xab in
           if b =? INT64_MAX then Ok x else s ← i64 (a + b); Ok (if x <? s then s else x))
    (zip v (zip v_in1 v_in2)).

Definition maskedSet (v v_in : Vector) (mask : mask_t) : Vector :=
  (fun '(x, (y, m)) => if (m : bool) then y else x) <$> zip v (zip v_in mask).
Definition maskedAdd (v v_in : Vector) (mask : mask_t) : res Vector :=
  lanes (fun '(x, (y, m)) => if (m : bool) then i64 (x + y) else Ok x) (zip v (zip v_in mask)).

Definition largerThan (v : Vector) (val : Z) (mask : mask_t) : mask_t :=
  (fun '(x, m) => m && (val <? x)) <$> zip v mask.
Definition smallerThanOrEqual (v : Vector) (val : Z) (mask : mask_t) : mask_t :=
  (fun '(x, m) => m && (x <=? val)) <$> zip v mask.
Definition between (v : Vector) (val1 val2 : Z) (mask : mask_t) : mask_t :=
  (fun '(x, m) => m && ((val1 <? x) && (x <=? val2))) <$> zip v mask.

(** ** Vertices, edges and counters *)

Inductive VertexType := InstrFetch | InstrDispatch | InstrExecute | MemExecute | InstrCommit.
#[global] Instance VertexType_eq_dec : EqDecision VertexType.
Proof. solve_decision. Defined.

(** The number of a vertex type. *)
Definition vt_num (t : VertexType) : Z :=
  match t with
  | InstrFetch => 0 | InstrDispatch => 1 | InstrExecute => 2 | MemExecute => 3 | InstrCommit => 4
  end.

Record Vertex := mkVertex { type : VertexType; instrNum : Z }.
Record OutgoingEdge := mkEdge { child : Vertex; weight : Vector }.

(** The values of the [executionType] map; -1 marks an invalid entry. *)
Inductive ExecutionType :=
| IntBase | IntMul | IntDiv | FpBase | FpMul | FpDiv | Load | Store
| BranchCond | BranchUncond | Syscall | Atomic | Other | Invalid.

(** The fields of [InstructionTypes] and [CycleTypes]. *)
Inductive InstructionField :=
| intInstructions | fpInstructions | loadInstructions | storeInstructions
| branchInstructions | otherInstructions.
Inductive CycleField :=
| goodFetchHitCycles | goodFetchMissCycles | badFetchHitCycles | badFetchMissCycles
| decodeCycles | dispatchCycles | intCycles | fpCycles | lsCycles
| loadL1HitCycles | loadL2HitCycles | loadMissCycles
| storeL1HitCycles | storeL2HitCycles | storeMissCycles
| branchCycles | syscallCycles | atomicCycles | otherCycles | commitCycles.
#[global] Instance InstructionField_eq_dec : EqDecision InstructionField.
Proof. solve_decision. Defined.
#[global] Instance CycleField_eq_dec : EqDecision CycleField.
Proof. solve_decision. Defined.

Definition InstructionTypes : Type := InstructionField -> Vector.
Definition CycleTypes : Type := CycleField -> Vector.

(** The keys [VertexHash] and [VertexEqual] make of a vertex. *)
Definition key : Type := Z * Z.

Record Graph := mkGraph {
  AnalysisWindow : Z;
  l2iThreshold : Z;
  l1dThreshold : Z;
  l2dThreshold : Z;
  intAluTotalCycles : Z;
  executionType : gmap Z ExecutionType;
  length : gmap key Vector;
  criticalPathCycles : gmap key CycleTypes;
  criticalPathInstructions : gmap key InstructionTypes
}.

Definition VertexKey (g : Graph) (v : Vertex) : key :=
  (vt_num (type v), instrNum v mod AnalysisWindow g).

(** [operator[]] of the maps. *)
Definition length_at (g : Graph) (k : key) : Vector := default (Vector_all 0) (length g !! k).
Definition cycles_at (g : Graph) (k : key) : CycleTypes :=
  default (fun _ => Vector_all 0) (criticalPathCycles g !! k).
Definition instructions_at (g : Graph) (k : key) : InstructionTypes :=
  default (fun _ => Vector_all 0) (criticalPathInstructions g !! k).
Definition type_at (g : Graph) (n : Z) : ExecutionType :=
  default IntBase (executionType g !! (n mod AnalysisWindow g)).

Definition set_length (g : Graph) (k : key) (v : Vector) : Graph :=
  mkGraph (AnalysisWindow g) (l2iThreshold g) (l1dThreshold g) (l2dThreshold g)
    (intAluTotalCycles g) (executionType g) (<[k := v]> (length g)) (criticalPathCycles g)
    (criticalPathInstructions g).
Definition set_cycles (g : Graph) (k : key) (c : CycleTypes) : Graph :=
  mkGraph (AnalysisWindow g) (l2iThreshold g) (l1dThreshold g) (l2dThreshold g)
    (intAluTotalCycles g) (executionType g) (length g) (<[k := c]> (criticalPathCycles g))
    (criticalPathInstructions g).
Definition set_instructions (g : Graph) (k : key) (c : InstructionTypes) : Graph :=
  mkGraph (AnalysisWindow g) (l2iThreshold g) (l1dThreshold g) (l2dThreshold g)
    (intAluTotalCycles g) (executionType g) (length g) (criticalPathCycles g)
    (<[k := c]> (criticalPathInstructions g)).

(** [criticalPathCycles[child].f.maskedAdd(v, mask)], and for instructions. *)
Definition add_cycles (g : Graph) (k : key) (f : CycleField) (v : Vector) (mask : mask_t)
    : res Graph :=
  v' ← maskedAdd (cycles_at g k f) v mask;
  Ok (set_cycles g k (fun f' => if decide (f' = f) then v' else cycles_at g k f')).
Definition add_instructions (g : Graph) (k : key) (f : InstructionField) (v : Vector)
    (mask : mask_t) : res Graph :=
  v' ← maskedAdd (instructions_at g k f) v mask;
  Ok (set_instructions g k (fun f' => if decide (f' = f) then v' else instructions_at g k f')).

(** ** Relaxing an edge *)

(** The two switches on the execution type of the parent. *)
Definition instruction_field (t : ExecutionType) : InstructionField :=
  match t with
  | IntBase | IntMul | IntDiv => intInstructions
  | FpBase | FpMul | FpDiv => fpInstructions
  | Load => loadInstructions
  | Store => storeInstructions
  | BranchCond | BranchUncond => branchInstructions
  | _ => otherInstructions
  end.
Definition execute_field (t : ExecutionType) : CycleField :=
  match t with
  | IntBase | IntMul | IntDiv => intCycles
  | FpBase | FpMul | FpDiv => fpCycles
  | Load | Store => lsCycles
  | BranchCond | BranchUncond => branchCycles
  | Syscall => syscallCycles
  | Atomic => atomicCycles
  | _ => otherCycles
  end.

(** The counters of the child become those of the parent where the path through
    the edge is taken. *)
Definition inherit (g : Graph) (pk ck : key) (mask : mask_t) : Graph :=
  let g := set_instructions g ck
             (fun f => maskedSet (instructions_at g ck f) (instructions_at g pk f) mask) in
  set_cycles g ck (fun f => maskedSet (cycles_at g ck f) (cycles_at g pk f) mask).

(** An instruction whose execution the edge completes. *)
Definition counts_instruction (parent ch : VertexType) : bool :=
  match parent, ch with
  | InstrExecute, MemExecute => false
  | InstrExecute, _ => true
  | MemExecute, _ => true
  | _, _ => false
  end.

Definition count_instruction (g : Graph) (parent : Vertex) (e : OutgoingEdge) (mask : mask_t)
    : res Graph :=
  if counts_instruction (type parent) (type (child e)) then
    add_instructions g (VertexKey g (child e))
      (instruction_field (type_at g (instrNum parent))) (Vector_all 1) mask
  else Ok g.

(** The weight split at a threshold into hits and misses. *)
Definition split_fetch (g : Graph) (ck : key) (w : Vector) (mask : mask_t) (hit miss : CycleField)
    : res Graph :=
  g ← add_cycles g ck hit w (smallerThanOrEqual w (l2iThreshold g) mask);
  add_cycles g ck miss w (largerThan w (l2iThreshold g) mask).
Definition split_memory (g : Graph) (ck : key) (w : Vector) (mask : mask_t)
    (l1 l2 miss : CycleField) : res Graph :=
  g ← add_cycles g ck l1 w (smallerThanOrEqual w (l1dThreshold g) mask);
  g ← add_cycles g ck l2 w (between w (l1dThreshold g) (l2dThreshold g) mask);
  add_cycles g ck miss w (largerThan w (l2dThreshold g) mask).

(** A misprediction: the branch's own cycles, then the fetch that follows. *)
Definition charge_misprediction (g : Graph) (ck : key) (w : Vector) (mask : mask_t) : res Graph :=
  g ← add_cycles g ck branchCycles (Vector_all (intAluTotalCycles g)) mask;
  fetch_weight ← Vector_offset w (intAluTotalCycles g);
  split_fetch g ck fetch_weight mask badFetchHitCycles badFetchMissCycles.

(** Charge the weight of the edge to the kind of cycles it stands for. *)
Definition charge_cycles (g : Graph) (parent : Vertex) (e : OutgoingEdge) (mask : mask_t)
    : res Graph :=
  let ck := VertexKey g (child e) in
  let w := weight e in
  match type parent, type (child e) with
  | InstrFetch, InstrFetch => split_fetch g ck w mask goodFetchHitCycles goodFetchMissCycles
  | InstrFetch, _ => add_cycles g ck decodeCycles w mask
  | InstrDispatch, _ => add_cycles g ck dispatchCycles w mask
  | InstrExecute, InstrFetch => charge_misprediction g ck w mask
  | InstrExecute, _ => add_cycles g ck (execute_field (type_at g (instrNum parent))) w mask
  | MemExecute, _ =>
      match type_at g (instrNum parent) with
      | Load => split_memory g ck w mask loadL1HitCycles loadL2HitCycles loadMissCycles
      | _ => split_memory g ck w mask storeL1HitCycles storeL2HitCycles storeMissCycles
      end
  | InstrCommit, _ => add_cycles g ck commitCycles w mask
  end.

Definition updateCriticalPathCycles (g : Graph) (parent : Vertex) (e : OutgoingEdge)
    : res Graph :=
  let pk := VertexKey g parent in
  let ck := VertexKey g (child e) in
  '(len, mask) ← update_masked (length_at g ck) (length_at g pk) (weight e);
  let g := inherit (set_length g ck len) pk ck mask in
  g ← count_instruction g parent e mask;
  charge_cycles g parent e mask.

End CalG.
