(* ===== verification/CalipersPaths.v ===== *)
(** * Facts about Calipers' critical paths

    What relaxing one edge does to the lengths and to the breakdown, and what a
    sequence of relaxations computes. *)

From S2P Require Import Prelude Machine CalipersCycles.

#[local] Open Scope list_scope.
#[local] Open Scope Z_scope.

Import CalG.

Lemma i64_ok z : INT64_MIN <= z <= INT64_MAX -> i64 z = Ok z.
Proof.
  intros H. unfold i64. destruct (Z.leb_spec INT64_MIN z), (Z.leb_spec z INT64_MAX); done || lia.
Qed.

(** The cycles of all kinds together, in the one lane there is. *)
Definition lane (v : Vector) : Z := hd 0 v.
Definition all_cycles : list CycleField :=
  [goodFetchHitCycles; goodFetchMissCycles; badFetchHitCycles; badFetchMissCycles;
   decodeCycles; dispatchCycles; intCycles; fpCycles; lsCycles;
   loadL1HitCycles; loadL2HitCycles; loadMissCycles;
   storeL1HitCycles; storeL2HitCycles; storeMissCycles;
   branchCycles; syscallCycles; atomicCycles; otherCycles; commitCycles].
Definition sum_z : list Z -> Z := foldr Z.add 0.
Definition total (c : CycleTypes) : Z := sum_z ((fun f => lane (c f)) <$> all_cycles).

Lemma all_cycles_complete f : f ∈ all_cycles.
Proof. unfold all_cycles. rewrite !elem_of_cons. destruct f; tauto. Qed.
Lemma all_cycles_NoDup : NoDup all_cycles.
Proof. apply (bool_decide_unpack _). vm_compute. exact I. Qed.

Lemma sum_insert (c : CycleTypes) f v l :
  NoDup l -> f ∈ l ->
  sum_z ((fun f' => lane (if decide (f' = f) then v else c f')) <$> l) =
  sum_z ((fun f' => lane (c f')) <$> l) - lane (c f) + lane v.
Proof.
  intros Hn Hf. induction l as [|x l IH]; [by apply not_elem_of_nil in Hf|].
  apply NoDup_cons in Hn as [Hx Hn]. cbn. case_decide as Hd.
  - subst x. enough (He : sum_z ((fun f' => lane (if decide (f' = f) then v else c f')) <$> l) =
      sum_z ((fun f' => lane (c f')) <$> l)) by (unfold sum_z, fmap in *; lia).
    f_equal. apply list_fmap_ext. intros i y Hy. rewrite decide_False; [done|].
    intros ->. by apply list_elem_of_lookup_2 in Hy.
  - apply elem_of_cons in Hf as [->|Hf]; [done|].
    specialize (IH Hn Hf). unfold sum_z, fmap in *. lia.
Qed.

Lemma total_insert (c : CycleTypes) f v :
  total (fun f' => if decide (f' = f) then v else c f') = total c - lane (c f) + lane v.
Proof. apply sum_insert; [apply all_cycles_NoDup|apply all_cycles_complete]. Qed.

Lemma total_ge (c : CycleTypes) f : (forall f', 0 <= lane (c f')) -> lane (c f) <= total c.
Proof.
  intros H. unfold total. pose proof (all_cycles_complete f) as Hf.
  assert (Hpos : forall l, 0 <= sum_z ((fun f => lane (c f)) <$> l)).
  { intros l; induction l as [|x l IH]; cbn; [lia|]. specialize (H x).
    unfold sum_z, fmap in *. lia. }
  induction all_cycles as [|x l IH]; [by apply not_elem_of_nil in Hf|]. cbn.
  specialize (Hpos l). apply elem_of_cons in Hf as [->|Hf].
  - unfold sum_z, fmap in *. lia.
  - specialize (IH Hf). specialize (H x). unfold sum_z, fmap in *. lia.
Qed.

Lemma total_ext (c c' : CycleTypes) : (forall f, c f = c' f) -> total c = total c'.
Proof. intros H. unfold total. f_equal. apply list_fmap_ext. intros _ f _. by rewrite H. Qed.

(** ** Charging a weight *)

Definition fields_ok (c : CycleTypes) : Prop := forall f, exists x, c f = [x] /\ 0 <= x.

Record charged (g g' : Graph) (k : key) (w : Z) : Prop := {
  ch_config : AnalysisWindow g' = AnalysisWindow g /\ l2iThreshold g' = l2iThreshold g /\
    l1dThreshold g' = l1dThreshold g /\ l2dThreshold g' = l2dThreshold g /\
    intAluTotalCycles g' = intAluTotalCycles g /\ executionType g' = executionType g;
  ch_length : length g' = length g;
  ch_instr : criticalPathInstructions g' = criticalPathInstructions g;
  ch_other : forall k', k' <> k -> cycles_at g' k' = cycles_at g k';
  ch_fields : fields_ok (cycles_at g' k);
  ch_total : total (cycles_at g' k) = total (cycles_at g k) + w
}.

Lemma charged_trans g1 g2 g3 k a b :
  charged g1 g2 k a -> charged g2 g3 k b -> charged g1 g3 k (a + b).
Proof.
  intros [C1 L1 I1 O1 F1 T1] [C2 L2 I2 O2 F2 T2].
  destruct C1 as (? & ? & ? & ? & ? & ?), C2 as (? & ? & ? & ? & ? & ?).
  split; [split_and!; congruence|congruence|congruence| |done|lia].
  intros k' Hk. rewrite O2, O1; done.
Qed.

Lemma fields_lane c f : fields_ok c -> c f = [lane (c f)] /\ 0 <= lane (c f).
Proof. intros H. destruct (H f) as (x & -> & ?). done. Qed.

Lemma cycles_at_set g k c k' :
  cycles_at (set_cycles g k c) k' = if decide (k' = k) then c else cycles_at g k'.
Proof.
  unfold cycles_at, set_cycles. cbn [criticalPathCycles].
  case_decide as H; [subst; by rewrite lookup_insert_eq|].
  by rewrite lookup_insert_ne.
Qed.

Lemma add_charged g k f w (m : bool) :
  fields_ok (cycles_at g k) -> 0 <= w ->
  total (cycles_at g k) + (if m then w else 0) <= INT64_MAX ->
  exists g', add_cycles g k f [w] [m] = Ok g' /\ charged g g' k (if m then w else 0).
Proof.
  intros Hf Hw Hb. destruct (fields_lane _ f Hf) as [Ef Hpos].
  assert (Hle : lane (cycles_at g k f) <= total (cycles_at g k)).
  { apply total_ge. intros f'. by destruct (fields_lane _ f' Hf). }
  unfold add_cycles, maskedAdd. rewrite Ef. cbn.
  assert (Hnew : (if m then i64 (lane (cycles_at g k f) + w) else Ok (lane (cycles_at g k f)))
                 = Ok (lane (cycles_at g k f) + (if m then w else 0))).
  { destruct m; [|by rewrite Z.add_0_r].
    apply i64_ok. unfold INT64_MIN, INT64_MAX in *. lia. }
  rewrite Hnew. cbn. eexists; split; [done|]. split; try done.
  - intros k' Hk. rewrite cycles_at_set. by rewrite decide_False.
  - rewrite cycles_at_set, decide_True by done. intros f'. case_decide; [|apply Hf].
    eexists; split; [done|]. destruct m; lia.
  - rewrite cycles_at_set, decide_True by done. rewrite total_insert. cbn. destruct m; lia.
Qed.

(** One threshold splits a weight in two, and both parts together are charged. *)
Lemma split_fetch_charged g k w (m : bool) hit miss :
  fields_ok (cycles_at g k) -> 0 <= w ->
  total (cycles_at g k) + (if m then w else 0) <= INT64_MAX ->
  exists g', split_fetch g k [w] [m] hit miss = Ok g' /\ charged g g' k (if m then w else 0).
Proof.
  intros Hf Hw Hb. unfold split_fetch, smallerThanOrEqual, largerThan.
  cbn [zip zip_with fmap list_fmap]. set (t := l2iThreshold g).
  assert (Hsplit : (if m && (w <=? t) then w else 0) + (if m && (t <? w) then w else 0) =
                   (if m then w else 0)).
  { destruct m, (Z.leb_spec w t), (Z.ltb_spec t w); simpl; lia. }
  assert (Hpos : 0 <= (if m && (t <? w) then w else 0)) by (destruct (m && (t <? w)); lia).
  destruct (add_charged g k hit w (m && (w <=? t)) Hf Hw ltac:(lia)) as (g1 & E1 & C1).
  rewrite E1. cbn [mbind res_bind]. pose proof (ch_config _ _ _ _ C1) as (_ & -> & _). fold t.
  pose proof (ch_total _ _ _ _ C1).
  destruct (add_charged g1 k miss w (m && (t <? w)) (ch_fields _ _ _ _ C1) Hw ltac:(lia))
    as (g2 & E2 & C2).
  exists g2. split; [done|]. rewrite <- Hsplit. by eapply charged_trans.
Qed.

(** Two thresholds in order split it in three. *)
Lemma split_memory_charged g k w (m : bool) l1 l2 miss :
  fields_ok (cycles_at g k) -> 0 <= w -> l1dThreshold g <= l2dThreshold g ->
  total (cycles_at g k) + (if m then w else 0) <= INT64_MAX ->
  exists g', split_memory g k [w] [m] l1 l2 miss = Ok g' /\ charged g g' k (if m then w else 0).
Proof.
  intros Hf Hw Ht Hb. unfold split_memory, smallerThanOrEqual, between, largerThan.
  cbn [zip zip_with fmap list_fmap]. set (t1 := l1dThreshold g) in *. set (t2 := l2dThreshold g) in *.
  set (m1 := m && (w <=? t1)). set (m2 := m && ((t1 <? w) && (w <=? t2))).
  set (m3 := m && (t2 <? w)).
  assert (Hsplit : (if m1 then w else 0) + (if m2 then w else 0) + (if m3 then w else 0) =
                   (if m then w else 0)).
  { unfold m1, m2, m3. destruct m, (Z.leb_spec w t1), (Z.ltb_spec t1 w), (Z.leb_spec w t2),
      (Z.ltb_spec t2 w); simpl; lia. }
  assert (0 <= (if m2 then w else 0)) by (destruct m2; lia).
  assert (0 <= (if m3 then w else 0)) by (destruct m3; lia).
  destruct (add_charged g k l1 w m1 Hf Hw ltac:(lia)) as (g1 & E1 & C1).
  rewrite E1. cbn [mbind res_bind].
  pose proof (ch_config _ _ _ _ C1) as (_ & _ & -> & -> & _). fold t1 t2 m2.
  pose proof (ch_total _ _ _ _ C1).
  destruct (add_charged g1 k l2 w m2 (ch_fields _ _ _ _ C1) Hw ltac:(lia)) as (g2 & E2 & C2).
  rewrite E2. cbn [mbind res_bind]. pose proof (charged_trans _ _ _ _ _ _ C1 C2) as C12.
  pose proof (ch_config _ _ _ _ C12) as (_ & _ & _ & -> & _). fold t2 m3.
  pose proof (ch_total _ _ _ _ C12).
  destruct (add_charged g2 k miss w m3 (ch_fields _ _ _ _ C2) Hw ltac:(lia)) as (g3 & E3 & C3).
  exists g3. split; [done|]. rewrite <- Hsplit. by eapply charged_trans.
Qed.

Lemma charge_misprediction_charged g k w (m : bool) :
  fields_ok (cycles_at g k) -> 0 <= intAluTotalCycles g <= w -> w <= INT64_MAX ->
  total (cycles_at g k) + (if m then w else 0) <= INT64_MAX ->
  exists g', charge_misprediction g k [w] [m] = Ok g' /\ charged g g' k (if m then w else 0).
Proof.
  intros Hf Hw Hm Hb. unfold charge_misprediction. set (a := intAluTotalCycles g) in *.
  assert (0 <= (if m then w - a else 0)) by (destruct m; lia).
  assert (Hsplit : (if m then a else 0) + (if m then w - a else 0) = (if m then w else 0))
    by (destruct m; lia).
  change (Vector_all a) with [a].
  destruct (add_charged g k branchCycles a m Hf ltac:(lia) ltac:(lia)) as (g1 & E1 & C1).
  rewrite E1. cbn [mbind res_bind].
  pose proof (ch_config _ _ _ _ C1) as (_ & _ & _ & _ & -> & _). fold a.
  unfold Vector_offset. cbn [lanes]. rewrite i64_ok by (unfold INT64_MIN; lia).
  cbn [mbind res_bind]. pose proof (ch_total _ _ _ _ C1).
  destruct (split_fetch_charged g1 k (w - a) m badFetchHitCycles badFetchMissCycles
    (ch_fields _ _ _ _ C1) ltac:(lia) ltac:(lia)) as (g2 & E2 & C2).
  exists g2. split; [done|]. rewrite <- Hsplit. by eapply charged_trans.
Qed.

(** An edge with one lane and a weight the breakdown can account for. *)
Definition edge_ok (g : Graph) (parent : Vertex) (e : OutgoingEdge) (w : Z) : Prop :=
  weight e = [w] /\ 0 <= w <= INT64_MAX /\
  (type parent = InstrExecute -> type (child e) = InstrFetch -> intAluTotalCycles g <= w).

Definition config_ok (g : Graph) : Prop :=
  0 <= intAluTotalCycles g /\ l1dThreshold g <= l2dThreshold g.

Lemma charge_cycles_charged g parent e w (m : bool) :
  let k := VertexKey g (child e) in
  config_ok g -> edge_ok g parent e w -> fields_ok (cycles_at g k) ->
  total (cycles_at g k) + (if m then w else 0) <= INT64_MAX ->
  exists g', charge_cycles g parent e [m] = Ok g' /\ charged g g' k (if m then w else 0).
Proof.
  intros k [Hc1 Hc2] (Hw & Hr & Hbr) Hf Hb. unfold charge_cycles. fold k. rewrite Hw.
  destruct (type parent); [destruct (type (child e))| |destruct (type (child e))| |];
    try (apply add_charged; done || lia).
  - apply split_fetch_charged; done || lia.
  - apply charge_misprediction_charged; try done; try lia. specialize (Hbr eq_refl eq_refl). lia.
  - destruct (type_at g (instrNum parent)); apply split_memory_charged; done || lia.
Qed.

(** ** Relaxing an edge *)

(** The breakdown accounts for the whole length of every critical path, and the
    counters of instructions at [k] are at most [N k]. *)
Record accounted (N : key -> Z) (g : Graph) : Prop := {
  bal_length : forall k, exists x, length_at g k = [x] /\ 0 <= x;
  bal_fields : forall k, fields_ok (cycles_at g k);
  bal_total : forall k, total (cycles_at g k) = lane (length_at g k);
  bal_instr : forall k f, exists x, instructions_at g k f = [x] /\ 0 <= x <= N k
}.
Definition balanced (n : Z) : Graph -> Prop := accounted (fun _ => n).

Lemma accounted_mono N N' g : (forall k, N k <= N' k) -> accounted N g -> accounted N' g.
Proof.
  intros HN [B1 B2 B3 B4]. split; try done. intros k f. destruct (B4 k f) as (x & E & Hx).
  exists x. split; [done|]. specialize (HN k). lia.
Qed.

(** A graph whose critical paths are all empty. *)
Definition fresh (g : Graph) : Prop := balanced 0 g /\ forall k, length_at g k = [0].

Lemma empty_fresh g :
  length g = ∅ -> criticalPathCycles g = ∅ -> criticalPathInstructions g = ∅ -> fresh g.
Proof.
  intros H1 H2 H3.
  split; [split|]; intros k;
    unfold length_at, cycles_at, instructions_at, fields_ok; rewrite ?H1, ?H2, ?H3, !lookup_empty;
    cbn; eauto with lia.
Qed.

Lemma length_at_set g k v k' :
  length_at (set_length g k v) k' = if decide (k' = k) then v else length_at g k'.
Proof.
  unfold length_at, set_length. cbn [length].
  case_decide as H; [subst; by rewrite lookup_insert_eq|by rewrite lookup_insert_ne].
Qed.
Lemma instructions_at_set g k c k' :
  instructions_at (set_instructions g k c) k' = if decide (k' = k) then c else instructions_at g k'.
Proof.
  unfold instructions_at, set_instructions. cbn [criticalPathInstructions].
  case_decide as H; [subst; by rewrite lookup_insert_eq|by rewrite lookup_insert_ne].
Qed.

Lemma maskedSet_lane x y (m : bool) : maskedSet [x] [y] [m] = [if m then y else x].
Proof. by destruct m. Qed.

Definition same_config (g g' : Graph) : Prop :=
  AnalysisWindow g' = AnalysisWindow g /\ l2iThreshold g' = l2iThreshold g /\
  l1dThreshold g' = l1dThreshold g /\ l2dThreshold g' = l2dThreshold g /\
  intAluTotalCycles g' = intAluTotalCycles g /\ executionType g' = executionType g.

Lemma same_config_key g g' v : same_config g g' -> VertexKey g' v = VertexKey g v.
Proof. intros (H & _). unfold VertexKey. by rewrite H. Qed.

(** Counting the instruction touches only its counter at the child. *)
Lemma count_instruction_ok g parent e (m : bool) n :
  let k := VertexKey g (child e) in
  (forall f, exists x, instructions_at g k f = [x] /\ 0 <= x <= n) -> n < INT64_MAX ->
  exists g', count_instruction g parent e [m] = Ok g' /\ same_config g g' /\
    length g' = length g /\ criticalPathCycles g' = criticalPathCycles g /\
    (forall k', k' <> k -> instructions_at g' k' = instructions_at g k') /\
    (forall f, exists x, instructions_at g' k f = [x] /\ 0 <= x <= n + if m then 1 else 0).
Proof.
  intros k Hf Hn. unfold count_instruction. fold k.
  destruct (counts_instruction _ _).
  - set (f := instruction_field _). destruct (Hf f) as (x & Hx & Hr).
    unfold add_instructions, maskedAdd. rewrite Hx. cbn.
    assert (Hnew : (if m then i64 (x + 1) else Ok x) = Ok (x + if m then 1 else 0)).
    { destruct m; [apply i64_ok; unfold INT64_MIN, INT64_MAX in *; lia|by rewrite Z.add_0_r]. }
    rewrite Hnew. cbn. eexists; split; [done|]. split; [done|]. do 2 (split; [done|]). split.
    + intros k' Hk. by rewrite instructions_at_set, decide_False.
    + intros f'. rewrite instructions_at_set, decide_True by done. case_decide.
      * eexists; split; [done|]. destruct m; lia.
      * destruct (Hf f') as (y & -> & ?). eexists; split; [done|destruct m; lia].
  - exists g. do 5 (split; [done|]). intros f. destruct (Hf f) as (y & -> & ?).
    eexists; split; [done|destruct m; lia].
Qed.

(** The new length of the child, and whether the path through the edge won. *)
Definition relaxed (old parent w : Z) : Z :=
  if w =? INT64_MAX then old else Z.max old (parent + w).

Lemma update_masked_lane x a w :
  0 <= a -> 0 <= w -> (w <> INT64_MAX -> a + w <= INT64_MAX) ->
  let m := negb (w =? INT64_MAX) && (x <=? a + w) in
  update_masked [x] [a] [w] = Ok ([relaxed x a w], [m]) /\
  (if m then a + w else x) = relaxed x a w /\ (m = true -> a + w <= INT64_MAX).
Proof.
  intros Ha Hw Hb m. unfold update_masked, update_lane, relaxed, m. cbn.
  destruct (Z.eqb_spec w INT64_MAX) as [->|Hne]; cbn; [done|].
  specialize (Hb Hne). rewrite i64_ok by (unfold INT64_MIN; lia). cbn.
  destruct (Z.leb_spec x (a + w)); cbn; rewrite ?Z.max_r, ?Z.max_l by lia; done.
Qed.

Lemma maskedSet_fields (c c' : CycleTypes) f (m : bool) :
  fields_ok c -> fields_ok c' -> maskedSet (c f) (c' f) [m] = (if m then c' else c) f.
Proof.
  intros H H'. destruct (H f) as (x & Hx & _), (H' f) as (y & Hy & _).
  rewrite Hx, Hy, maskedSet_lane. by destruct m.
Qed.

(** The state after the length was set and the counters inherited. *)
Lemma inherit_ok g pk ck len (m : bool) N :
  accounted N g ->
  let g1 := inherit (set_length g ck [len]) pk ck [m] in
  same_config g g1 /\
  (forall k, length_at g1 k = if decide (k = ck) then [len] else length_at g k) /\
  (forall k, k <> ck -> cycles_at g1 k = cycles_at g k /\
     instructions_at g1 k = instructions_at g k) /\
  fields_ok (cycles_at g1 ck) /\
  total (cycles_at g1 ck) = lane (length_at g (if m then pk else ck)) /\
  (forall f, exists x, instructions_at g1 ck f = [x] /\ 0 <= x <= if m then N pk else N ck).
Proof.
  intros [BL BF BT BI] g1.
  assert (HC : forall k, cycles_at g1 k = if decide (k = ck)
      then (fun f => maskedSet (cycles_at g ck f) (cycles_at g pk f) [m]) else cycles_at g k)
    by (intros k; apply (cycles_at_set (set_instructions (set_length g ck _) ck _) ck)).
  assert (HI : forall k, instructions_at g1 k = if decide (k = ck)
      then (fun f => maskedSet (instructions_at g ck f) (instructions_at g pk f) [m])
      else instructions_at g k)
    by (intros k; apply (instructions_at_set (set_length g ck _) ck)).
  split_and!.
  - done.
  - intros k. apply (length_at_set g ck).
  - intros k Hk. by rewrite HC, HI, !decide_False.
  - rewrite HC, decide_True by done. intros f. rewrite maskedSet_fields by done. destruct m; apply BF.
  - rewrite HC, decide_True, <- BT by done. apply total_ext. intros f.
    rewrite maskedSet_fields by done. by destruct m.
  - intros f. rewrite HI, decide_True by done.
    destruct (BI ck f) as (x & -> & ?), (BI pk f) as (y & -> & ?).
    rewrite maskedSet_lane. destruct m; eauto.
Qed.

Lemma relax_accounted g parent e w N :
  let pk := VertexKey g parent in let ck := VertexKey g (child e) in
  let n := Z.max (N ck) (N pk) in
  config_ok g -> accounted N g -> edge_ok g parent e w -> n < INT64_MAX ->
  (w <> INT64_MAX -> lane (length_at g pk) + w <= INT64_MAX) ->
  lane (length_at g ck) <= INT64_MAX ->
  exists g', updateCriticalPathCycles g parent e = Ok g' /\ same_config g g' /\
    accounted (fun k => if decide (k = ck) then Z.max (N ck) (N pk + 1) else N k) g' /\
    (forall k, length_at g' k =
       if decide (k = ck) then [relaxed (lane (length_at g ck)) (lane (length_at g pk)) w]
       else length_at g k).
Proof.
  intros pk ck n Hcfg Hbal He Hn Hb Hck. unfold updateCriticalPathCycles. fold pk ck.
  destruct (bal_length _ _ Hbal ck) as (x & Hx & Hx0), (bal_length _ _ Hbal pk) as (a & Ha & Ha0).
  rewrite Ha in Hb. rewrite Hx in Hck. rewrite Hx, Ha. cbn [lane hd] in Hb, Hck |- *.
  pose proof He as (Hwe & Hw & _). rewrite Hwe.
  destruct (update_masked_lane x a w Ha0 (proj1 Hw) Hb) as (E1 & Hm & Hmb).
  set (m := negb (w =? INT64_MAX) && (x <=? a + w)) in *.
  rewrite E1. cbn [mbind res_bind].
  destruct (inherit_ok g pk ck (relaxed x a w) m N Hbal) as (S1 & L1 & O1 & F1 & T1 & I1).
  set (g1 := inherit (set_length g ck [relaxed x a w]) pk ck [m]) in *.
  assert (K1 : VertexKey g1 (child e) = ck) by (by apply same_config_key).
  destruct (count_instruction_ok g1 parent e m (if m then N pk else N ck))
    as (g2 & E2 & S2 & L2 & C2 & O2 & I2); rewrite ?K1 in *; [done|destruct m; lia|]. rewrite E2. cbn [mbind res_bind].
  assert (K2 : VertexKey g2 (child e) = ck) by (rewrite <- K1; by apply same_config_key).
  assert (HC2 : forall k, cycles_at g2 k = cycles_at g1 k) by (intros k; unfold cycles_at; by rewrite C2).
  assert (Tx : lane (length_at g (if m then pk else ck)) = if m then a else x)
    by (destruct m; [by rewrite Ha|by rewrite Hx]).
  destruct (charge_cycles_charged g2 parent e w m) as (g3 & E3 & CH); rewrite ?K2, ?HC2 in *.
  - destruct S1 as (_ & _ & ? & ? & ? & _), S2 as (_ & _ & ? & ? & ? & _), Hcfg.
    split; congruence.
  - destruct S1 as (_ & _ & _ & _ & ? & _), S2 as (_ & _ & _ & _ & ? & _), He as (? & ? & Hbr).
    split_and!; try tauto. intros. replace (intAluTotalCycles g2) with (intAluTotalCycles g) by congruence. auto.
  - done.
  - rewrite T1, Tx. destruct m; [auto|lia].
  - exists g3. split; [done|]. destruct CH as [C3 L3 I3 O3 F3 T3].
    assert (HL3 : forall k, length_at g3 k = length_at g1 k)
      by (intros k; unfold length_at; by rewrite L3, L2).
    assert (HI3 : forall k, instructions_at g3 k = instructions_at g2 k)
      by (intros k; unfold instructions_at; by rewrite I3).
    assert (HLk : forall k, length_at g3 k = if decide (k = ck) then [relaxed x a w] else length_at g k)
      by (intros k; by rewrite HL3).
    split; [|split; [|done]].
    + unfold same_config in *. destruct S1 as (? & ? & ? & ? & ? & ?), S2 as (? & ? & ? & ? & ? & ?),
        C3 as (? & ? & ? & ? & ? & ?). split_and!; congruence.
    + split.
      * intros k. rewrite HLk. case_decide; [|apply Hbal].
        eexists; split; [done|]. rewrite <- Hm. destruct m; lia.
      * intros k. destruct (decide (k = ck)) as [->|Hk]; [done|].
        rewrite O3, HC2 by done. destruct (O1 k Hk) as [-> _]. apply Hbal.
      * intros k. rewrite HLk. case_decide as Hk.
        -- subst k. rewrite T3, HC2, T1, Tx, <- Hm. cbn. destruct m; lia.
        -- rewrite O3, HC2 by done. destruct (O1 k Hk) as [-> _]. apply Hbal.
      * intros k f. rewrite HI3. destruct (decide (k = ck)) as [->|Hk].
        -- destruct (I2 f) as (y & -> & Hy). exists y. split; [done|]. destruct m; lia.
        -- rewrite O2 by done. destruct (O1 k Hk) as [_ ->]. apply Hbal.
Qed.

(** With one bound for all vertices. *)
Lemma relax_edge g parent e w n :
  let pk := VertexKey g parent in let ck := VertexKey g (child e) in
  config_ok g -> balanced n g -> edge_ok g parent e w -> n < INT64_MAX ->
  (w <> INT64_MAX -> lane (length_at g pk) + w <= INT64_MAX) ->
  lane (length_at g ck) <= INT64_MAX ->
  exists g', updateCriticalPathCycles g parent e = Ok g' /\ same_config g g' /\
    balanced (n + 1) g' /\
    (forall k, length_at g' k =
       if decide (k = ck) then [relaxed (lane (length_at g ck)) (lane (length_at g pk)) w]
       else length_at g k).
Proof.
  intros pk ck Hcfg Hbal He Hn Hb Hck.
  destruct (relax_accounted g parent e w (fun _ => n)) as (g' & E & S & B & L); try done; [lia|].
  exists g'. split_and!; try done. eapply accounted_mono; [|exact B]. intros k. cbn.
  case_decide; lia.
Qed.

(** ** Sequences of relaxations *)

Definition relax_all (g : Graph) (es : list (Vertex * OutgoingEdge)) : res Graph :=
  res_fold (fun g pe => updateCriticalPathCycles g pe.1 pe.2) g es.

(** An edge between the keys of its ends. *)
Record link := mkLink { l_from : key; l_to : key; l_cost : Z }.
Definition link_of (g : Graph) (pe : Vertex * OutgoingEdge) : link :=
  mkLink (VertexKey g pe.1) (VertexKey g (child pe.2)) (lane (weight pe.2)).

Definition cost (p : list link) : Z := sum_z (l_cost <$> p).

(** A path made of given links that ends at a key; the empty path ends anywhere. *)
Definition path_to (ls : list link) (k : key) (p : list link) : Prop :=
  chain (fun a b => l_to a = l_from b) p /\ Forall (fun l => l ∈ ls) p /\
  match last p with Some l => l_to l = k | None => True end.

(** The order relaxes an edge into a vertex before any edge out of it. *)
Definition in_order (ls : list link) : Prop :=
  forall i j a b, ls !! i = Some a -> ls !! j = Some b -> (i <= j)%nat -> l_from a <> l_to b.

Lemma cost_snoc p l : cost (p ++ [l]) = cost p + l_cost l.
Proof.
  unfold cost. induction p as [|x p IH]; cbn in *; [lia|]. unfold sum_z, fmap in *. lia.
Qed.

Lemma in_order_app ls l : in_order (ls ++ [l]) -> in_order ls.
Proof. intros H i j a b Ha Hb. apply (H i j); by apply lookup_app_l_Some. Qed.

(** In that order a path through the last link ends with it. *)
Lemma path_last_link ls l k p :
  in_order (ls ++ [l]) -> path_to (ls ++ [l]) k p ->
  path_to ls k p \/ exists q, p = q ++ [l] /\ l_to l = k /\ path_to ls (l_from l) q.
Proof.
  intros Ho (Hc & Hf & Hl).
  assert (Hafter : forall x, x ∈ ls ++ [l] -> l_from x <> l_to l).
  { intros x [i Hi]%list_elem_of_lookup. apply (Ho i (List.length ls) x l Hi).
    - by apply list_lookup_middle.
    - apply lookup_lt_Some in Hi. rewrite length_app in Hi. simpl in Hi. lia. }
  destruct p as [|y q' _] using rev_ind; [by left|].
  apply chain_app in Hc as (Hc & _ & Hj). apply Forall_app in Hf as [Hf [Hy _]%Forall_cons].
  assert (Hq : Forall (fun x => x ∈ ls) q').
  { clear Hl. assert (Hn : match last q' with Some x => x <> l | None => True end).
    { destruct (last q') as [z|]; [|done]. simpl in Hj. intros ->. by apply (Hafter y). }
    clear Hj. induction q' as [|x q' IH]; [done|]. apply Forall_cons in Hf as [Hx Hf].
    apply Forall_cons. split.
    - apply elem_of_app in Hx as [|Hx]; [done|]. apply list_elem_of_singleton in Hx as ->.
      destruct q' as [|z q']; [done|]. apply chain_cons in Hc as [Hz _]. simpl in Hz.
      exfalso. apply (Hafter z); [by apply Forall_cons in Hf as []|done].
    - apply chain_cons in Hc as [_ Hc]. apply IH; [done|done|]. by destruct q'. }
  rewrite last_snoc in Hl. apply elem_of_app in Hy as [Hy|Hy].
  - left. split_and!.
    + apply chain_app. split_and!; done.
    + apply Forall_app. split; [done|]. by apply Forall_singleton.
    + by rewrite last_snoc.
  - apply list_elem_of_singleton in Hy as ->. right. exists q'. split; [done|]. split; [done|].
    split_and!; [done|done|]. by destruct (last q').
Qed.

Lemma path_mono ls ls' k p : ls ⊆ ls' -> path_to ls k p -> path_to ls' k p.
Proof.
  intros Hs (Hc & Hf & Hl). split_and!; [done| |done]. eapply Forall_impl; [done|]. auto.
Qed.

(** Extending a path by a link from where it ends. *)
Lemma path_snoc ls l q :
  path_to ls (l_from l) q -> path_to (ls ++ [l]) (l_to l) (q ++ [l]).
Proof.
  intros (Hc & Hf & Hl). split_and!.
  - apply chain_app. split_and!; [done|done|]. simpl. by destruct (last q).
  - apply Forall_app. split; [|apply Forall_singleton; set_solver].
    eapply Forall_impl; [done|]. set_solver.
  - by rewrite last_snoc.
Qed.

(** The lengths are those of longest paths over the links. *)
Definition longest (ls : list link) (len : key -> Z) : Prop :=
  forall k, len k <= cost ls /\
    (exists p, path_to ls k p /\ cost p = len k) /\ (forall p, path_to ls k p -> cost p <= len k).

(** One more link, relaxed after the others, keeps them longest. *)
Lemma longest_snoc ls l len len' :
  in_order (ls ++ [l]) -> 0 <= l_cost l -> longest ls len ->
  (forall k, len' k =
     if decide (k = l_to l) then Z.max (len (l_to l)) (len (l_from l) + l_cost l) else len k) ->
  longest (ls ++ [l]) len'.
Proof.
  intros Ho Hw HP HL k. rewrite HL, cost_snoc.
  pose proof (HP (l_from l)) as (Bp & (qp & Hqp & Cp) & Lp). pose proof (HP k) as (Bk & (q & Hq & Cq) & Lk).
  assert (Hmono : ls ⊆ ls ++ [l]) by set_solver.
  case_decide as Hk.
  - subst k. split; [lia|]. split.
    + destruct (Z.max_spec (len (l_to l)) (len (l_from l) + l_cost l)) as [[_ ->]|[_ ->]].
      * exists (qp ++ [l]). split; [by apply path_snoc|]. rewrite cost_snoc. lia.
      * exists q. split; [by eapply path_mono|done].
    + intros p Hp. destruct (path_last_link ls l _ p Ho Hp) as [Hp'|(q' & -> & _ & Hq')].
      * specialize (Lk p Hp'). lia.
      * specialize (Lp q' Hq'). rewrite cost_snoc. lia.
  - split; [lia|]. split; [exists q; split; [by eapply path_mono|done]|].
    intros p Hp. destruct (path_last_link ls l _ p Ho Hp) as [Hp'|(q' & _ & ? & _)]; [|done].
    by apply Lk.
Qed.

(** The order of the links does not matter for what is longest. *)
Lemma cost_perm ls ls' : ls ≡ₚ ls' -> cost ls = cost ls'.
Proof.
  unfold cost. induction 1; cbn; unfold sum_z, fmap in *; lia.
Qed.

Lemma longest_perm ls ls' len : ls ≡ₚ ls' -> longest ls len -> longest ls' len.
Proof.
  intros Hp HL k. destruct (HL k) as (H1 & (p & Hp1 & Hp2) & H3).
  assert (Hc : cost ls = cost ls') by (by apply cost_perm).
  assert (Hpath : forall q, path_to ls k q <-> path_to ls' k q).
  { intros q. unfold path_to. setoid_rewrite Hp. done. }
  rewrite <- Hc. split; [done|]. split; [exists p; by rewrite <- Hpath|].
  intros q Hq. apply H3. by rewrite Hpath.
Qed.

Lemma links_longest_nil len : (forall k, len k = 0) -> longest [] len.
Proof.
  intros H k. rewrite H. split; [done|]. split; [by exists []|].
  intros p (_ & Hf & _). destruct p as [|x p]; [done|].
  apply Forall_cons in Hf as [Hx _]. by apply not_elem_of_nil in Hx.
Qed.

Lemma same_config_trans g1 g2 g3 : same_config g1 g2 -> same_config g2 g3 -> same_config g1 g3.
Proof.
  intros (? & ? & ? & ? & ? & ?) (? & ? & ? & ? & ? & ?). unfold same_config. split_and!; congruence.
Qed.

Lemma same_config_ok g g' : same_config g g' -> config_ok g -> config_ok g'.
Proof. intros (_ & _ & ? & ? & ? & _) []. split; congruence. Qed.

Lemma same_config_edge g g' v e w : same_config g g' -> edge_ok g v e w -> edge_ok g' v e w.
Proof. intros (_ & _ & _ & _ & Ha & _) (? & ? & ?). unfold edge_ok. by rewrite Ha. Qed.

(** Relaxing every edge once, in order, computes longest paths. *)
Lemma relax_all_longest g es :
  let ls := link_of g <$> es in
  fresh g -> config_ok g ->
  Forall (fun pe => exists w, edge_ok g pe.1 pe.2 w /\ w < INT64_MAX) es ->
  cost ls <= INT64_MAX -> Z.of_nat (List.length es) <= INT64_MAX -> in_order ls ->
  exists g', relax_all g es = Ok g' /\ same_config g g' /\
    balanced (Z.of_nat (List.length es)) g' /\ longest ls (fun k => lane (length_at g' k)).
Proof.
  intros ls Hfr Hcfg. subst ls. induction es as [|pe es IH] using rev_ind; intros Hok Hb Hn Ho.
  - exists g. split; [done|]. split; [done|]. split; [by apply Hfr|]. apply links_longest_nil.
    intros k. destruct Hfr as [_ Hz]. by rewrite Hz.
  - rewrite fmap_app in *. change (link_of g <$> [pe]) with [link_of g pe] in *.
    rewrite length_app in *. cbn [List.length] in *. rewrite cost_snoc in *.
    apply Forall_app in Hok as [Hok [(w & He & Hw) _]%Forall_cons].
    assert (Hcost : l_cost (link_of g pe) = w) by (cbn; destruct He as (-> & _); done).
    assert (0 <= w) by (destruct He as (_ & ? & _); lia). rewrite Hcost in *.
    destruct IH as (g1 & E1 & S1 & B1 & P1); [done|lia|lia|by eapply in_order_app|].
    set (ls := link_of g <$> es) in *. set (l := link_of g pe) in *.
    assert (Kp : VertexKey g1 pe.1 = l_from l) by (by apply same_config_key).
    assert (Kc : VertexKey g1 (child pe.2) = l_to l) by (by apply same_config_key).
    pose proof (P1 (l_from l)) as (Bp & _). pose proof (P1 (l_to l)) as (Bc & _). cbn beta in Bp, Bc.
    destruct (relax_edge g1 pe.1 pe.2 w (Z.of_nat (List.length es))) as (g2 & E2 & S2 & B2 & L2);
      rewrite ?Kp, ?Kc in *;
      [by eapply same_config_ok|done|by eapply same_config_edge|lia|lia|lia|].
    exists g2. split; [unfold relax_all in *; rewrite res_fold_app, E1; cbn; by rewrite E2|].
    split; [by eapply same_config_trans|].
    split; [by replace (Z.of_nat (List.length es + 1)) with (Z.of_nat (List.length es) + 1) by lia|].
    eapply longest_snoc; [done|lia|done|]. cbn beta. intros k. rewrite L2, Hcost.
    unfold relaxed. destruct (Z.eqb_spec w INT64_MAX); [lia|]. by case_decide.
Qed.

(** ** Relaxing in any order *)

(** Every length is that of a path over the links. *)
Definition attained (ls : list link) (g : Graph) : Prop :=
  forall k, exists p, path_to ls k p /\ cost p = lane (length_at g k).

Lemma fresh_attained g : fresh g -> attained [] g.
Proof. intros [_ Hz] k. exists []. by rewrite Hz. Qed.

Lemma attained_mono ls ls' g : ls ⊆ ls' -> attained ls g -> attained ls' g.
Proof. intros Hs HA k. destruct (HA k) as (p & Hp & Hc). exists p. split; [by eapply path_mono|done]. Qed.

(** Relaxing a link keeps the lengths attained. *)
Lemma relaxed_attained ls l g g' :
  l ∈ ls -> attained ls g ->
  (forall k, lane (length_at g' k) = if decide (k = l_to l)
     then relaxed (lane (length_at g k)) (lane (length_at g (l_from l))) (l_cost l)
     else lane (length_at g k)) -> attained ls g'.
Proof.
  intros Hl HA HL k. rewrite HL. case_decide as Hk; [|apply HA]. unfold relaxed.
  destruct (_ =? _); [apply HA|].
  destruct (Z.max_spec (lane (length_at g k)) (lane (length_at g (l_from l)) + l_cost l))
    as [[_ ->]|[_ ->]]; [|apply HA].
  destruct (HA (l_from l)) as (p & Hp & Hc). exists (p ++ [l]). rewrite cost_snoc, Hc, Hk.
  split; [|done]. eapply path_mono; [|by apply path_snoc]. set_solver.
Qed.

(** Whatever the order and the start, relaxing keeps the breakdown, never
    shortens a path, and no path grows by more than the weights relaxed. *)
Lemma relax_all_bounded g es n B :
  config_ok g -> balanced n g -> (forall k, lane (length_at g k) <= B) -> 0 <= B ->
  Forall (fun pe => exists w, edge_ok g pe.1 pe.2 w /\ w < INT64_MAX) es ->
  B + cost (link_of g <$> es) <= INT64_MAX -> n + Z.of_nat (List.length es) <= INT64_MAX ->
  exists g', relax_all g es = Ok g' /\ same_config g g' /\
    balanced (n + Z.of_nat (List.length es)) g' /\
    (forall k, lane (length_at g k) <= lane (length_at g' k) <= B + cost (link_of g <$> es)) /\
    (forall ls, link_of g <$> es ⊆ ls -> attained ls g -> attained ls g').
Proof.
  revert g n B. induction es as [|pe es IH]; intros g n B Hcfg Hbal HB HB0 Hok Hb Hn.
  - exists g. cbn in *. rewrite Z.add_0_r. split_and!; try done. intros k. specialize (HB k). unfold cost. cbn. lia.
  - apply Forall_cons in Hok as [(w & He & Hw) Hok].
    assert (Hcost : l_cost (link_of g pe) = w) by (cbn; destruct He as (-> & _); done).
    assert (Hw0 : 0 <= w) by (destruct He as (_ & ? & _); lia).
    assert (Hc : cost (link_of g <$> pe :: es) = w + cost (link_of g <$> es))
      by (unfold cost; cbn; unfold l_cost, link_of in Hcost; rewrite Hcost; reflexivity).
    rewrite Hc in *. cbn [List.length] in *.
    assert (Hpos : 0 <= cost (link_of g <$> es)).
    { clear -Hok. induction es as [|x es IH]; [done|]. apply Forall_cons in Hok as [(w' & (E & ? & _) & _) Hok].
      specialize (IH Hok). unfold cost in *. cbn. rewrite E. cbn. unfold sum_z, fmap in *. lia. }
    pose proof (HB (VertexKey g pe.1)). pose proof (HB (VertexKey g (child pe.2))).
    destruct (relax_edge g pe.1 pe.2 w n) as (g1 & E1 & S1 & B1 & L1); try done; try lia.
    assert (Hl : link_of g1 <$> es = link_of g <$> es).
    { apply list_fmap_ext. intros _ x _. unfold link_of. by rewrite !(same_config_key g g1). }
    assert (HL : forall k, lane (length_at g k) <= lane (length_at g1 k) <= B + w).
    { intros k. specialize (HB k). rewrite L1. unfold relaxed.
      destruct (Z.eqb_spec w INT64_MAX); [lia|]. case_decide as Hk; [subst k; cbn [lane hd]|]; lia. }
    destruct (IH g1 (n + 1) (B + w)) as (g2 & E2 & S2 & B2 & L2 & A2); rewrite ?Hl in *.
    + by eapply same_config_ok.
    + done.
    + intros k. apply HL.
    + lia.
    + eapply Forall_impl; [done|]. intros x (w' & ? & ?). exists w'. split; [|done].
      by eapply same_config_edge.
    + lia.
    + lia.
    + exists g2. split; [cbn; by rewrite E1|]. split; [by eapply same_config_trans|].
      replace (n + Z.of_nat (S (List.length es))) with (n + 1 + Z.of_nat (List.length es)) by lia.
      split; [done|]. split; [intros k; specialize (HL k); specialize (L2 k); lia|].
      intros ls Hls HA. apply A2; [set_solver|].
      apply (relaxed_attained ls (link_of g pe) g); [set_solver|done|]. intros k.
      rewrite L1, Hcost. cbn [l_to l_from link_of].
      case_decide as Hk; [by subst k|done].
Qed.

(** ** Lengths elsewhere *)

Lemma add_cycles_length g k f v m g' :
  add_cycles g k f v m = Ok g' -> length g' = length g /\ AnalysisWindow g' = AnalysisWindow g.
Proof. unfold add_cycles. intros H. inv_res. done. Qed.

Lemma charge_cycles_length g parent e m g' :
  charge_cycles g parent e m = Ok g' -> length g' = length g /\ AnalysisWindow g' = AnalysisWindow g.
Proof.
  unfold charge_cycles, charge_misprediction, split_fetch, split_memory. intros H.
  repeat case_match; inv_res;
    repeat match goal with
    | H : add_cycles _ _ _ _ _ = Ok _ |- _ => apply add_cycles_length in H as [? ?]
    end; split; congruence.
Qed.

Lemma count_instruction_length g parent e m g' :
  count_instruction g parent e m = Ok g' ->
  length g' = length g /\ AnalysisWindow g' = AnalysisWindow g.
Proof.
  unfold count_instruction, add_instructions. intros H. case_match; inv_res; done.
Qed.

(** Relaxing an edge leaves the lengths of other vertices alone. *)
Lemma update_other g parent e g' k :
  updateCriticalPathCycles g parent e = Ok g' -> VertexKey g (child e) <> k ->
  length_at g' k = length_at g k /\ AnalysisWindow g' = AnalysisWindow g.
Proof.
  unfold updateCriticalPathCycles. intros H Hk.
  apply res_bind_inv in H as ([len mask] & _ & H). inv_res.
  apply count_instruction_length in H0 as [L1 A1]. apply charge_cycles_length in H as [L2 A2].
  unfold length_at. rewrite L2, L1, A2, A1. cbn. split; [|done]. by rewrite lookup_insert_ne.
Qed.

Lemma relax_all_other g es g' k :
  relax_all g es = Ok g' -> Forall (fun pe => VertexKey g (child pe.2) <> k) es ->
  length_at g' k = length_at g k.
Proof.
  revert g. induction es as [|pe es IH]; intros g H Hf; [by injection H as <-|].
  apply Forall_cons in Hf as [Hk Hf]. cbn in H. apply res_bind_inv in H as (g1 & H1 & H).
  destruct (update_other _ _ _ _ _ H1 Hk) as [L A]. rewrite (IH g1 H); [done|].
  eapply Forall_impl; [exact Hf|]. intros x. unfold VertexKey. by rewrite A.
Qed.
