(* ===== verification/CalipersScoreboard.v ===== *)
(** * The scoreboard of Calipers

    infras/calipers/src/graph/scoreboard.h: which instruction last used each
    execution unit and each queue entry.  Units and entries are taken round
    robin, so the one handed out was last used [count] requests ago.  A unit that
    does a mixture of operations also remembers which operation it did; that
    array is allocated without being cleared, so what it holds at first is an
    argument of [setMixedOperation].  [operator[]] of an absent entry gives a
    zeroed one. *)

From S2P Require Import Prelude Machine.

#[local] Open Scope list_scope.
#[local] Open Scope Z_scope.

Module CalS.

Definition UINT64_MAX : Z := 2 ^ 64 - 1.
Definition UINT32_MAX : Z := 2 ^ 32 - 1.
Definition u32 (z : Z) : Z := z mod 2 ^ 32.

(** enum Resource and enum QueueResource of common/calipers_types.h. *)
Definition RscFetch : Z := 0.
Definition RscDispatch : Z := 1.
Definition RscIssue : Z := 2.
Definition RscMemIssue : Z := 3.
Definition RscCommit : Z := 4.
Definition RscMemCommit : Z := 5.
Definition RscIntAlu : Z := 6.
Definition RscIntMul : Z := 7.
Definition RscIntDiv : Z := 8.
Definition RscIntMulDiv : Z := 9.
Definition RscFpu : Z := 10.
Definition RscFpAlu : Z := 11.
Definition RscFpMul : Z := 12.
Definition RscFpDiv : Z := 13.
Definition RscFpMulDiv : Z := 14.
Definition RscLsu : Z := 15.
Definition RscInstrQ : Z := 0.
Definition RscLQ : Z := 1.
Definition RscSQ : Z := 2.

Record ResourceInstance := mkResource {
  count : Z;
  latency : Z;
  pipelined : bool;
  nextAvailable : Z;
  assignedInstrNum : list Z;
  assignedOp : option (list Z)
}.
Record QueueInstance := mkQueue {
  q_size : Z;
  q_latency : list Z;
  q_nextAvailable : Z;
  q_assignedInstrNum : list Z
}.

Record Scoreboard := mkScoreboard {
  resources : gmap Z ResourceInstance;
  mixedOperationResource : gmap Z Z;
  mixedOperationSpec : gmap Z (Z * bool);
  queues : gmap Z QueueInstance
}.
Definition Scoreboard_new : Scoreboard := mkScoreboard ∅ ∅ ∅ ∅.

(** [operator[]]. *)
Definition resource_at (s : Scoreboard) (t : Z) : ResourceInstance :=
  default (mkResource 0 0 false 0 [] None) (resources s !! t).
Definition queue_at (s : Scoreboard) (t : Z) : QueueInstance :=
  default (mkQueue 0 [] 0 []) (queues s !! t).
Definition spec_at (s : Scoreboard) (t : Z) : Z * bool :=
  default (0, false) (mixedOperationSpec s !! t).

Definition set_resource (s : Scoreboard) (t : Z) (r : ResourceInstance) : Scoreboard :=
  mkScoreboard (<[t := r]> (resources s)) (mixedOperationResource s) (mixedOperationSpec s)
    (queues s).
Definition set_queue (s : Scoreboard) (t : Z) (q : QueueInstance) : Scoreboard :=
  mkScoreboard (resources s) (mixedOperationResource s) (mixedOperationSpec s)
    (<[t := q]> (queues s)).

(** ** Set-up *)

(** [mem] is what the new array of operations holds. *)
Definition setMixedOperation (mem : list Z) (s : Scoreboard) (operation_type resource_type : Z)
    (lat : Z) (pipe : bool) : res Scoreboard :=
  match resources s !! resource_type with
  | None => Stop ErrorExit
  | Some r =>
      let r := match assignedOp r with
               | None => mkResource (count r) (latency r) (pipelined r) (nextAvailable r)
                           (assignedInstrNum r) (Some mem)
               | Some _ => r
               end in
      Ok (mkScoreboard (<[resource_type := r]> (resources s))
            (<[operation_type := resource_type]> (mixedOperationResource s))
            (<[operation_type := (lat, pipe)]> (mixedOperationSpec s)) (queues s))
  end.

Definition resetResource (s : Scoreboard) (t : Z) : Scoreboard :=
  let r := resource_at s t in
  set_resource s t (mkResource (count r) (latency r) (pipelined r) 0
                      (replicate (Z.to_nat (count r)) UINT64_MAX) (assignedOp r)).

Definition initResource (s : Scoreboard) (t cnt lat : Z) (pipe : bool) : res Scoreboard :=
  match resources s !! t with
  | Some _ => Stop ErrorExit
  | None => Ok (resetResource (set_resource s t (mkResource cnt lat pipe 0 [] None)) t)
  end.

Definition resetQueue (s : Scoreboard) (t : Z) : Scoreboard :=
  let q := queue_at s t in
  set_queue s t (mkQueue (q_size q) (replicate (Z.to_nat (q_size q)) 0) 0
                   (replicate (Z.to_nat (q_size q)) UINT64_MAX)).

Definition initQueue (s : Scoreboard) (t size : Z) : res Scoreboard :=
  match queues s !! t with
  | Some _ => Stop ErrorExit
  | None => Ok (resetQueue (set_queue s t (mkQueue size [] 0 [])) t)
  end.

(** ** Requests *)

(** An element of an array; outside it there is nothing to read. *)
Definition elem (l : list Z) (i : Z) : res Z :=
  match l !! Z.to_nat i with Some x => Ok x | None => Stop Undefined end.

(** The unit gets the instruction, and the next one is up. *)
Definition occupy (r : ResourceInstance) (ops : option (list Z)) (instr_num : Z)
    : res ResourceInstance :=
  if count r =? 0 then Stop Undefined
  else Ok (mkResource (count r) (latency r) (pipelined r)
             (u32 (nextAvailable r + 1) mod count r)
             (<[Z.to_nat (nextAvailable r) := instr_num]> (assignedInstrNum r)) ops).

(** Returns the previous user and the cycles to wait for it. *)
Definition scheduleResource (s : Scoreboard) (operation_type instr_num : Z)
    : res (Z * Z * Scoreboard) :=
  match mixedOperationResource s !! operation_type with
  | None =>
      let r := resource_at s operation_type in
      previous_instr ← elem (assignedInstrNum r) (nextAvailable r);
      r' ← occupy r (assignedOp r) instr_num;
      Ok (previous_instr, if pipelined r then 1 else latency r, set_resource s operation_type r')
  | Some resource_type =>
      let r := resource_at s resource_type in
      match assignedOp r with
      | None => Stop Undefined
      | Some ops =>
          previous_operation_type ← elem ops (nextAvailable r);
          let '(lat, pipe) := spec_at s previous_operation_type in
          previous_instr ← elem (assignedInstrNum r) (nextAvailable r);
          r' ← occupy r (Some (<[Z.to_nat (nextAvailable r) := operation_type]> ops)) instr_num;
          Ok (previous_instr, if (pipe : bool) then 1 else lat, set_resource s resource_type r')
      end
  end.

Definition scheduleQueue (s : Scoreboard) (t instr_num lat : Z) : res (Z * Z * Scoreboard) :=
  let q := queue_at s t in
  let entry := q_nextAvailable q in
  previous_instr ← elem (q_assignedInstrNum q) entry;
  wait_cycles ← elem (q_latency q) entry;
  if q_size q =? 0 then Stop Undefined
  else Ok (previous_instr, u32 wait_cycles,
           set_queue s t (mkQueue (q_size q) (<[Z.to_nat entry := lat]> (q_latency q))
                            (u32 (entry + 1) mod q_size q)
                            (<[Z.to_nat entry := instr_num]> (q_assignedInstrNum q)))).

Definition getResourceCount (s : Scoreboard) (t : Z) : Z := count (resource_at s t).
Definition getResourceLatency (s : Scoreboard) (t : Z) : Z :=
  match mixedOperationResource s !! t with
  | None => latency (resource_at s t)
  | Some _ => (spec_at s t).1
  end.
Definition getQueueSize (s : Scoreboard) (t : Z) : Z := q_size (queue_at s t).

End CalS.
