(* ===== verification/CalipersScoreFacts.v ===== *)
(** * The scoreboard implements a history

    What a user of the scoreboard may rely on: a unit with [n] copies, or a queue
    of [n] entries, makes the next instruction wait for the one that asked [n]
    requests before it, and nothing else.  The specification keeps, for each unit
    and queue, the list of all requests since the last reset; the round-robin
    arrays refine it, whatever the uninitialised array of operations held. *)

From S2P Require Import Prelude Machine CalipersScoreboard.

#[local] Open Scope list_scope.
#[local] Open Scope Z_scope.

Import CalS.

(** ** Round-robin arrays *)

(** Where the entry written [j + 1] requests ago is, when [next] is up. *)
Definition ring_at (size next j : nat) : nat :=
  if Nat.ltb j next then (next - 1 - j)%nat else (next + size - 1 - j)%nat.
Definition ring_next (size next : nat) : nat :=
  if Nat.eqb (S next) size then 0%nat else S next.

(** The array holds the most recent requests of the history. *)
Record ring (size next : nat) (arr h : list Z) : Prop := {
  ring_len : length arr = size;
  ring_lt : (next < size)%nat;
  ring_val : forall j x, (j < size)%nat -> h !! j = Some x -> arr !! ring_at size next j = Some x
}.
(** And a default where nothing was written yet. *)
Definition blank (size next : nat) (arr h : list Z) (d : Z) : Prop :=
  forall j, (length h <= j < size)%nat -> arr !! ring_at size next j = Some d.

Lemma ring_at_oldest size next : (next < size)%nat -> ring_at size next (size - 1) = next.
Proof. unfold ring_at. destruct (Nat.ltb_spec (size - 1) next); lia. Qed.

Lemma ring_at_first size next : (next < size)%nat -> ring_at size (ring_next size next) 0 = next.
Proof.
  unfold ring_at, ring_next. destruct (Nat.eqb_spec (S next) size); simpl.
  - intros. destruct (Nat.ltb_spec 0 0); lia.
  - destruct (Nat.ltb_spec 0 (S next)); lia.
Qed.

Lemma ring_at_shift size next j :
  (next < size)%nat -> (S j < size)%nat ->
  ring_at size (ring_next size next) (S j) = ring_at size next j /\ ring_at size next j <> next.
Proof.
  unfold ring_at, ring_next. intros.
  destruct (Nat.eqb_spec (S next) size), (Nat.ltb_spec j next);
    repeat match goal with |- context [Nat.ltb ?a ?b] => destruct (Nat.ltb_spec a b) end; lia.
Qed.

Lemma ring_push size next arr h x :
  ring size next arr h -> ring size (ring_next size next) (<[next := x]> arr) (x :: h).
Proof.
  intros [HL Hn HV]. split.
  - by rewrite length_insert.
  - unfold ring_next. destruct (Nat.eqb_spec (S next) size); lia.
  - intros [|j] y Hj Hy; simpl in Hy.
    + injection Hy as <-. rewrite ring_at_first by done. apply list_lookup_insert_eq. lia.
    + destruct (ring_at_shift size next j Hn Hj) as [-> Hne].
      rewrite list_lookup_insert_ne by done. apply HV; [lia|done].
Qed.

Lemma blank_push size next arr h x d :
  ring size next arr h -> blank size next arr h d ->
  blank size (ring_next size next) (<[next := x]> arr) (x :: h) d.
Proof.
  intros [HL Hn HV] HB [|j] Hj; simpl in Hj; [lia|].
  destruct (ring_at_shift size next j Hn ltac:(lia)) as [-> Hne].
  rewrite list_lookup_insert_ne by done. apply HB. lia.
Qed.

(** The entry handed out is the one of [size] requests ago, if there is one. *)
Lemma ring_oldest size next arr h d :
  ring size next arr h -> blank size next arr h d ->
  arr !! next = Some (default d (h !! (size - 1)%nat)).
Proof.
  intros [HL Hn HV] HB. rewrite <- (ring_at_oldest size next) at 1 by done.
  destruct (h !! (size - 1)%nat) as [x|] eqn:E; simpl.
  - apply HV; [lia|done].
  - apply lookup_ge_None in E. apply HB. lia.
Qed.

Lemma ring_replicate size d : (0 < size)%nat -> ring size 0 (replicate size d) [] /\
  blank size 0 (replicate size d) [] d.
Proof.
  intros H. split.
  - split; [by rewrite length_replicate|done|intros j x _ Hx; by rewrite lookup_nil in Hx].
  - intros j Hj. apply lookup_replicate. split; [done|].
    unfold ring_at. destruct (Nat.ltb_spec j 0); simpl in *; lia.
Qed.

(** ** The specification *)

(** A request of a unit for an operation, or of a queue entry. *)
Inductive request :=
| Unit (operation instr : Z)
| Entry (queue instr lat : Z).

(** The previous user the request has to wait for, and for how long. *)
Definition answer : Type := option (Z * Z).

(** The requests so far, newest first: instruction and operation, or instruction
    and latency. *)
Record History := mkHistory { units : Z -> list (Z * Z); entries : Z -> list (Z * Z) }.

Definition target (s : Scoreboard) (operation : Z) : Z :=
  default operation (mixedOperationResource s !! operation).
(** How long an operation keeps its unit. *)
Definition op_wait (s : Scoreboard) (operation : Z) : Z :=
  match mixedOperationResource s !! operation with
  | Some _ => let '(lat, pipe) := spec_at s operation in if (pipe : bool) then 1 else lat
  | None => let r := resource_at s operation in if pipelined r then 1 else latency r
  end.

Definition upd (f : Z -> list (Z * Z)) (k : Z) (v : list (Z * Z)) : Z -> list (Z * Z) :=
  fun k' => if decide (k' = k) then v else f k'.

Definition spec_step (s : Scoreboard) (h : History) (r : request) : answer * History :=
  match r with
  | Unit o i =>
      let t := target s o in
      (match units h t !! (Z.to_nat (getResourceCount s t) - 1)%nat with
       | Some (i', o') => Some (i', op_wait s o')
       | None => None
       end, mkHistory (upd (units h) t ((i, o) :: units h t)) (entries h))
  | Entry q i lat =>
      (entries h q !! (Z.to_nat (getQueueSize s q) - 1)%nat,
       mkHistory (units h) (upd (entries h) q ((i, lat) :: entries h q)))
  end.
Fixpoint spec_run (s : Scoreboard) (h : History) (rs : list request) : list answer * History :=
  match rs with
  | [] => ([], h)
  | r :: rs => let '(a, h) := spec_step s h r in
               let '(l, h) := spec_run s h rs in (a :: l, h)
  end.

(** The scoreboard's own answer; [UINT64_MAX] means there is no previous user. *)
Definition request_step (s : Scoreboard) (r : request) : res (answer * Scoreboard) :=
  '(p, s) ← match r with
            | Unit o i => scheduleResource s o i
            | Entry q i lat => scheduleQueue s q i lat
            end;
  Ok (if p.1 =? UINT64_MAX then None else Some p, s).
Fixpoint request_run (s : Scoreboard) (rs : list request) : res (list answer * Scoreboard) :=
  match rs with
  | [] => Ok ([], s)
  | r :: rs => '(a, s) ← request_step s r; '(l, s) ← request_run s rs; Ok (a :: l, s)
  end.

(** ** Refinement *)

Definition unit_refines (r : ResourceInstance) (h : list (Z * Z)) : Prop :=
  let n := Z.to_nat (count r) in let k := Z.to_nat (nextAvailable r) in
  0 < count r < 2 ^ 32 /\ 0 <= nextAvailable r /\
  ring n k (assignedInstrNum r) h.*1 /\ blank n k (assignedInstrNum r) h.*1 UINT64_MAX /\
  Forall (fun i => 0 <= i < UINT64_MAX) h.*1 /\
  match assignedOp r with Some ops => ring n k ops h.*2 | None => True end.

Definition queue_refines (q : QueueInstance) (h : list (Z * Z)) : Prop :=
  let n := Z.to_nat (q_size q) in let k := Z.to_nat (q_nextAvailable q) in
  0 < q_size q < 2 ^ 32 /\ 0 <= q_nextAvailable q /\
  ring n k (q_assignedInstrNum q) h.*1 /\ blank n k (q_assignedInstrNum q) h.*1 UINT64_MAX /\
  Forall (fun i => 0 <= i < UINT64_MAX) h.*1 /\
  ring n k (q_latency q) h.*2 /\ blank n k (q_latency q) h.*2 0 /\
  Forall (fun l => 0 <= l < 2 ^ 32) h.*2.

(** Every unit and queue that was set up refines its history; a unit without an
    array of operations only ever did its own. *)
Record refines (s : Scoreboard) (h : History) : Prop := {
  rf_units : forall t r, resources s !! t = Some r -> unit_refines r (units h t);
  rf_queues : forall t q, queues s !! t = Some q -> queue_refines q (entries h t);
  rf_plain : forall t r, resources s !! t = Some r -> assignedOp r = None ->
    Forall (fun io => io.2 = t) (units h t);
  rf_mixed : forall t r ops, resources s !! t = Some r -> assignedOp r = Some ops ->
    Forall (fun io => mixedOperationResource s !! io.2 = Some t) (units h t)
}.

(** A request of something that was set up, by a proper instruction. *)
Definition request_ok (s : Scoreboard) (r : request) : Prop :=
  match r with
  | Unit o i => 0 <= i < UINT64_MAX /\
      match mixedOperationResource s !! o with
      | Some t => exists x ops, resources s !! t = Some x /\ assignedOp x = Some ops
      | None => exists x, resources s !! o = Some x /\ assignedOp x = None
      end
  | Entry q i lat => 0 <= i < UINT64_MAX /\ 0 <= lat < 2 ^ 32 /\ is_Some (queues s !! q)
  end.

Lemma next_ring k n :
  0 <= k < n -> n < 2 ^ 32 ->
  0 <= u32 (k + 1) mod n /\ Z.to_nat (u32 (k + 1) mod n) = ring_next (Z.to_nat n) (Z.to_nat k).
Proof.
  intros Hk Hn. unfold u32, ring_next. rewrite (Z.mod_small (k + 1) (2 ^ 32)) by lia.
  pose proof (Z.mod_pos_bound (k + 1) n). split; [lia|].
  destruct (Nat.eqb_spec (S (Z.to_nat k)) (Z.to_nat n)) as [E|E].
  - replace (k + 1) with n by lia. by rewrite Z.mod_same by lia.
  - rewrite Z.mod_small; lia.
Qed.

Lemma elem_ok l i x : l !! Z.to_nat i = Some x -> elem l i = Ok x.
Proof. intros H. unfold elem. by rewrite H. Qed.

(** What stays of a scoreboard whatever is requested. *)
Definition setup_of (r : ResourceInstance) : Z * Z * bool * bool :=
  (count r, latency r, pipelined r, bool_decide (is_Some (assignedOp r))).
Record same_setup (s s' : Scoreboard) : Prop := {
  ss_mixed : mixedOperationResource s' = mixedOperationResource s;
  ss_spec : mixedOperationSpec s' = mixedOperationSpec s;
  ss_units : forall t, setup_of <$> resources s' !! t = setup_of <$> resources s !! t;
  ss_queues : forall t, q_size <$> queues s' !! t = q_size <$> queues s !! t
}.

Lemma same_setup_refl s : same_setup s s.
Proof. done. Qed.

Lemma same_setup_set_resource s t r r' :
  resources s !! t = Some r -> setup_of r' = setup_of r -> same_setup s (set_resource s t r').
Proof.
  intros Hr He. split; try done. intros t'. cbn. destruct (decide (t' = t)) as [->|Hne].
  - by rewrite lookup_insert_eq, Hr; cbn; rewrite He.
  - by rewrite lookup_insert_ne.
Qed.

Lemma same_setup_set_queue s t q q' :
  queues s !! t = Some q -> q_size q' = q_size q -> same_setup s (set_queue s t q').
Proof.
  intros Hr He. split; try done. intros t'. cbn. destruct (decide (t' = t)) as [->|Hne].
  - by rewrite lookup_insert_eq, Hr; cbn; rewrite He.
  - by rewrite lookup_insert_ne.
Qed.

Lemma setup_resource s s' t :
  same_setup s s' -> setup_of (resource_at s' t) = setup_of (resource_at s t).
Proof.
  intros H. pose proof (ss_units _ _ H t) as E. unfold resource_at.
  destruct (resources s' !! t), (resources s !! t); cbn in *; congruence.
Qed.

Lemma setup_spec s s' h r : same_setup s s' -> spec_step s' h r = spec_step s h r.
Proof.
  intros H. destruct r as [o i|q i lat]; cbn.
  - unfold target, getResourceCount. rewrite (ss_mixed _ _ H).
    pose proof (setup_resource _ _ (default o (mixedOperationResource s !! o)) H) as E.
    injection E as Ec _ _ _. rewrite Ec. destruct (units h _ !! _) as [[i' o']|]; [|done].
    do 3 f_equal. unfold op_wait, spec_at. rewrite (ss_mixed _ _ H), (ss_spec _ _ H).
    case_match; [done|]. pose proof (setup_resource _ _ o' H) as E'. injection E' as _ El Ep _.
    by rewrite El, Ep.
  - unfold getQueueSize, queue_at. pose proof (ss_queues _ _ H q) as E.
    destruct (queues s' !! q), (queues s !! q); cbn in *; congruence.
Qed.

Lemma setup_request s s' r : same_setup s s' -> request_ok s r -> request_ok s' r.
Proof.
  intros H. destruct r as [o i|q i lat]; cbn.
  - rewrite (ss_mixed _ _ H). intros [Hi Hm]. split; [done|].
    destruct (mixedOperationResource s !! o) as [t|].
    + destruct Hm as (x & ops & Hx & Ho). pose proof (ss_units _ _ H t) as E. rewrite Hx in E.
      destruct (resources s' !! t) as [x'|] eqn:Hx'; [|done]. cbn in E. injection E as _ _ _ E.
      rewrite Ho in E.
      rewrite (bool_decide_eq_true_2 (is_Some (Some ops))) in E by done.
      apply bool_decide_eq_true in E as [ops' ?]. eauto.
    + destruct Hm as (x & Hx & Ho). pose proof (ss_units _ _ H o) as E. rewrite Hx in E.
      destruct (resources s' !! o) as [x'|] eqn:Hx'; [|done]. cbn in E. injection E as _ _ _ E.
      rewrite Ho in E.
      rewrite (bool_decide_eq_false_2 (is_Some None)) in E by (by intros []).
      apply bool_decide_eq_false in E. exists x'. split; [done|].
      destruct (assignedOp x'); [by destruct E|done].
  - intros (Hi & Hl & Hq). split_and!; try done; try lia.
    pose proof (ss_queues _ _ H q) as E. destruct Hq as [x Hx]. rewrite Hx in E.
    destruct (queues s' !! q); [eauto|done].
Qed.

Lemma same_setup_trans s1 s2 s3 : same_setup s1 s2 -> same_setup s2 s3 -> same_setup s1 s3.
Proof. intros [] []. split; try congruence; intros; congruence. Qed.

(** One unit after a request. *)
Lemma unit_refines_push r h i o ops ops' r' :
  unit_refines r h -> 0 <= i < UINT64_MAX -> assignedOp r = ops ->
  ops' = match ops with
         | Some l => Some (<[Z.to_nat (nextAvailable r) := o]> l) | None => None end ->
  occupy r ops' i = Ok r' -> unit_refines r' ((i, o) :: h) /\ setup_of r' = setup_of r.
Proof.
  intros (Hc & Hk & HR & HB & HF & HO) Hi Ho -> Hoc. unfold occupy in Hoc.
  destruct (Z.eqb_spec (count r) 0); [lia|]. injection Hoc as <-.
  pose proof (ring_lt _ _ _ _ HR) as Hlt.
  destruct (next_ring (nextAvailable r) (count r)) as [Hn1 Hn2]; [lia|lia|].
  split.
  - unfold unit_refines. cbn [count nextAvailable assignedInstrNum assignedOp fmap list_fmap fst snd].
    rewrite Hn2. split_and!; try done; try lia.
    + by apply ring_push.
    + by apply (blank_push _ _ _ h.*1).
    + by apply Forall_cons.
    + rewrite Ho in HO. destruct ops; [by apply ring_push|done].
  - unfold setup_of. cbn. rewrite Ho. by destruct ops.
Qed.

Lemma fst_lookup (h : list (Z * Z)) n : h.*1 !! n = fst <$> h !! n.
Proof. apply list_lookup_fmap. Qed.
Lemma snd_lookup (h : list (Z * Z)) n : h.*2 !! n = snd <$> h !! n.
Proof. apply list_lookup_fmap. Qed.

Definition old_instr (old : option (Z * Z)) : Z :=
  match old with Some io => io.1 | None => UINT64_MAX end.

(** The unit's oldest user, as the arrays give it. *)
Lemma unit_oldest r h :
  unit_refines r h ->
  let old := h !! (Z.to_nat (count r) - 1)%nat in
  elem (assignedInstrNum r) (nextAvailable r) = Ok (old_instr old) /\
  (forall ops, assignedOp r = Some ops -> exists o, elem ops (nextAvailable r) = Ok o /\
     forall io, old = Some io -> o = io.2) /\
  (forall io, old = Some io -> io.1 <> UINT64_MAX).
Proof.
  intros (Hc & Hk & HR & HB & HF & HO) old. split_and!.
  - apply elem_ok. rewrite (ring_oldest _ _ _ _ _ HR HB), fst_lookup. fold old. by destruct old.
  - intros ops Ho. rewrite Ho in HO.
    destruct (lookup_lt_is_Some_2 ops (Z.to_nat (nextAvailable r))) as [x Hx].
    { rewrite (ring_len _ _ _ _ HO). apply HO. }
    exists x. split; [by apply elem_ok|]. intros io Hio.
    pose proof (ring_lt _ _ _ _ HO) as Hlt.
    pose proof (ring_val _ _ _ _ HO (Z.to_nat (count r) - 1)%nat io.2) as Hv.
    unfold old in Hio. rewrite ring_at_oldest, snd_lookup, Hio in Hv by done. specialize (Hv ltac:(lia) eq_refl).
    congruence.
  - intros io Hio. rewrite Forall_forall in HF.
    enough (0 <= io.1 < UINT64_MAX) by lia. apply HF.
    apply list_elem_of_fmap. exists io. split; [done|]. by eapply list_elem_of_lookup_2.
Qed.

(** The answer for the oldest user. *)
Lemma answer_default (old : option (Z * Z)) (w : Z) :
  (forall io, old = Some io -> io.1 <> UINT64_MAX) ->
  (if (old_instr old =? UINT64_MAX) then None
   else Some (old_instr old, w)) =
  match old with Some io => Some (io.1, w) | None => None end.
Proof.
  intros H. destruct old as [io|]; cbn; [|done].
  by rewrite (proj2 (Z.eqb_neq _ _) (H io eq_refl)).
Qed.

Section Requests.
Context (s : Scoreboard) (h : History) (HR : refines s h).

(** Recording a request at one unit keeps the refinement. *)
Lemma refines_set_unit t r r' i o :
  resources s !! t = Some r -> setup_of r' = setup_of r -> unit_refines r' ((i, o) :: units h t) ->
  (assignedOp r = None -> o = t) ->
  (is_Some (assignedOp r) -> mixedOperationResource s !! o = Some t) ->
  refines (set_resource s t r') (mkHistory (upd (units h) t ((i, o) :: units h t)) (entries h)).
Proof using HR.
  intros Hr He Hu Hp Hm. injection He as _ _ _ He.
  assert (Hop : forall b, bool_decide (is_Some (assignedOp r')) = b ->
                          bool_decide (is_Some (assignedOp r)) = b) by congruence.
  destruct HR as [RU RQ RP RM]. split; cbn; [|exact RQ| |]; intros t' x.
  - unfold upd. destruct (decide (t' = t)) as [->|Hne].
    + rewrite lookup_insert_eq. intros [= <-]. done.
    + rewrite lookup_insert_ne by done. apply RU.
  - unfold upd. destruct (decide (t' = t)) as [->|Hne].
    + rewrite lookup_insert_eq. intros [= <-] Ho. rewrite Ho in Hop.
      specialize (Hop false eq_refl). apply bool_decide_eq_false in Hop.
      assert (assignedOp r = None) as Hn by (destruct (assignedOp r); [by destruct Hop|done]).
      apply Forall_cons. split; [by apply Hp|by eapply RP].
    + rewrite lookup_insert_ne by done. apply RP.
  - unfold upd. intros ops. destruct (decide (t' = t)) as [->|Hne].
    + rewrite lookup_insert_eq. intros [= <-] Ho. rewrite Ho in Hop.
      specialize (Hop true eq_refl). apply bool_decide_eq_true in Hop as [l Hl].
      apply Forall_cons. split; [by apply Hm; eauto|by eapply RM].
    + rewrite lookup_insert_ne by done. apply RM.
Qed.

Lemma unit_step_refines o i :
  request_ok s (Unit o i) ->
  exists s', request_step s (Unit o i) = Ok ((spec_step s h (Unit o i)).1, s') /\
    refines s' (spec_step s h (Unit o i)).2 /\ same_setup s s'.
Proof using HR.
  intros [Hi Hm]. unfold request_step, scheduleResource, spec_step, target, getResourceCount.
  destruct (mixedOperationResource s !! o) as [t|] eqn:Eo; cbn [from_option id].
  - destruct Hm as (r & ops & Hr & Hops). unfold resource_at. rewrite Hr. cbn [from_option id].
    pose proof (rf_units _ _ HR t r Hr) as Hu.
    destruct (unit_oldest r _ Hu) as (E1 & E2 & E3). destruct (E2 ops Hops) as (po & Epo & Hpo).
    rewrite Hops, Epo. cbn [mbind res_bind].
    destruct (spec_at s po) as [lat pipe] eqn:Esp. rewrite E1. cbn [mbind res_bind].
    destruct (occupy r (Some (<[Z.to_nat (nextAvailable r):=o]> ops)) i) as [r'|e] eqn:Eoc;
      [|unfold occupy in Eoc; destruct Hu as (? & _); destruct (Z.eqb_spec (count r) 0); [lia|done]].
    destruct (unit_refines_push r _ i o _ _ r' Hu Hi Hops eq_refl Eoc) as [Hu' Hset].
    cbn [mbind res_bind]. eexists. split; [|split].
    + cbn [fst]. rewrite answer_default by done. do 2 f_equal.
      destruct (units h t !! _) as [[i' o']|] eqn:El; [|done].
      specialize (Hpo _ eq_refl). cbn in Hpo. subst po. unfold op_wait. rewrite Esp.
      pose proof (rf_mixed _ _ HR t r ops Hr Hops) as HF.
      pose proof (Forall_lookup_1 _ _ _ _ HF El) as Ho'. cbn in Ho'. rewrite Ho'. by destruct pipe.
    + cbn [snd]. apply (refines_set_unit t r); try done. congruence.
    + by apply (same_setup_set_resource s t r).
  - destruct Hm as (r & Hr & Hops). unfold resource_at. rewrite Hr. cbn [from_option id].
    pose proof (rf_units _ _ HR o r Hr) as Hu. destruct (unit_oldest r _ Hu) as (E1 & _ & E3).
    rewrite E1, Hops. cbn [mbind res_bind].
    destruct (occupy r None i) as [r'|e] eqn:Eoc;
      [|unfold occupy in Eoc; destruct Hu as (? & _); destruct (Z.eqb_spec (count r) 0); [lia|done]].
    destruct (unit_refines_push r _ i o _ _ r' Hu Hi Hops eq_refl Eoc) as [Hu' Hset].
    cbn [mbind res_bind]. eexists. split; [|split].
    + cbn [fst]. rewrite answer_default by done. do 2 f_equal.
      destruct (units h o !! _) as [[i' o']|] eqn:El; [|done].
      pose proof (rf_plain _ _ HR o r Hr Hops) as HF.
      pose proof (Forall_lookup_1 _ _ _ _ HF El) as Ho'. cbn in Ho'. subst o'.
      unfold op_wait, resource_at. by rewrite Eo, Hr.
    + cbn [snd]. apply (refines_set_unit o r); try done. rewrite Hops. by intros [].
    + by apply (same_setup_set_resource s o r).
Qed.

Lemma queue_step_refines q i lat :
  request_ok s (Entry q i lat) ->
  exists s', request_step s (Entry q i lat) = Ok ((spec_step s h (Entry q i lat)).1, s') /\
    refines s' (spec_step s h (Entry q i lat)).2 /\ same_setup s s'.
Proof using HR.
  intros (Hi & Hl & x & Hx). unfold request_step, scheduleQueue, spec_step, getQueueSize, queue_at.
  rewrite Hx. cbn [from_option id].
  pose proof (rf_queues _ _ HR q x Hx) as Hq.
  pose proof Hq as (Hc & Hk & QR & QB & QF & QR2 & QB2 & QF2).
  pose proof (ring_lt _ _ _ _ QR) as Hlt.
  rewrite (elem_ok _ _ _ (ring_oldest _ _ _ _ _ QR QB)). cbn [mbind res_bind].
  rewrite (elem_ok _ _ _ (ring_oldest _ _ _ _ _ QR2 QB2)). cbn [mbind res_bind].
  destruct (Z.eqb_spec (q_size x) 0); [lia|]. cbn [mbind res_bind fst].
  rewrite fst_lookup, snd_lookup.
  destruct (next_ring (q_nextAvailable x) (q_size x)) as [Hn1 Hn2]; [lia|lia|].
  eexists. split; [|split].
  - do 2 f_equal. destruct (entries h q !! _) as [[i' l']|] eqn:El; cbn; [|done].
    rewrite Forall_forall in QF, QF2. apply list_elem_of_lookup_2 in El.
    assert (0 <= i' < UINT64_MAX) by (apply QF, list_elem_of_fmap; by exists (i', l')).
    assert (0 <= l' < 2 ^ 32) by (apply QF2, list_elem_of_fmap; by exists (i', l')).
    rewrite (proj2 (Z.eqb_neq i' UINT64_MAX)) by lia. unfold u32. by rewrite Z.mod_small.
  - destruct HR as [RU RQ RP RM]. split; cbn; try done. intros t y. unfold upd.
    destruct (decide (t = q)) as [->|Hne].
    + rewrite lookup_insert_eq. intros [= <-]. unfold queue_refines.
      cbn [q_size q_nextAvailable q_assignedInstrNum q_latency fmap list_fmap fst snd].
      rewrite Hn2. split_and!; try done; try lia.
      * by apply ring_push.
      * by apply (blank_push _ _ _ (entries h q).*1).
      * by apply Forall_cons.
      * by apply ring_push.
      * by apply (blank_push _ _ _ (entries h q).*2).
      * by apply Forall_cons.
    + rewrite lookup_insert_ne by done. apply RQ.
  - by apply (same_setup_set_queue s q x).
Qed.

End Requests.

(** Every sequence of requests is answered as the specification says. *)
Lemma request_run_refines s h rs :
  refines s h -> Forall (request_ok s) rs ->
  exists s', request_run s rs = Ok ((spec_run s h rs).1, s') /\
    refines s' (spec_run s h rs).2 /\ same_setup s s'.
Proof.
  revert s h. induction rs as [|r rs IH]; intros s h HR Hok; [by exists s|].
  apply Forall_cons in Hok as [Hr Hok].
  assert (exists s1, request_step s r = Ok ((spec_step s h r).1, s1) /\
    refines s1 (spec_step s h r).2 /\ same_setup s s1) as (s1 & E1 & R1 & S1)
    by (destruct r; [by apply unit_step_refines|by apply queue_step_refines]).
  destruct (IH s1 (spec_step s h r).2 R1) as (s2 & E2 & R2 & S2).
  { eapply Forall_impl; [done|]. intros x. by apply setup_request. }
  assert (Hsp : forall h', spec_run s1 h' rs = spec_run s h' rs).
  { clear -S1. induction rs as [|x rs IH]; intros h'; [done|]. cbn.
    rewrite (setup_spec _ _ _ _ S1). destruct (spec_step s h' x). by rewrite IH. }
  exists s2. cbn. rewrite E1. cbn [mbind res_bind]. rewrite E2. cbn [mbind res_bind].
  rewrite Hsp in *. destruct (spec_step s h r) as [a h1]. cbn [fst snd] in *.
  destruct (spec_run s h1 rs). split_and!; try done. by eapply same_setup_trans.
Qed.

(** ** Set-up *)

Definition no_requests : History := mkHistory (fun _ => []) (fun _ => []).

(** A scoreboard set up by the operations below, before any request. *)
Record ready (s : Scoreboard) : Prop := {
  rd_units : forall t r, resources s !! t = Some r ->
    0 < count r < 2 ^ 32 /\ nextAvailable r = 0 /\
    assignedInstrNum r = replicate (Z.to_nat (count r)) UINT64_MAX /\
    match assignedOp r with Some ops => length ops = Z.to_nat (count r) | None => True end;
  rd_queues : forall t q, queues s !! t = Some q ->
    0 < q_size q < 2 ^ 32 /\ q_nextAvailable q = 0 /\
    q_assignedInstrNum q = replicate (Z.to_nat (q_size q)) UINT64_MAX /\
    q_latency q = replicate (Z.to_nat (q_size q)) 0
}.

Lemma ready_refines s : ready s -> refines s no_requests.
Proof.
  intros [HU HQ]. split; cbn.
  - intros t r Hr. destruct (HU t r Hr) as (Hc & Hn & Ha & Ho).
    destruct (ring_replicate (Z.to_nat (count r)) UINT64_MAX ltac:(lia)) as [R1 B1].
    unfold unit_refines. rewrite Hn, Ha. split_and!; try done; try lia.
    destruct (assignedOp r) as [ops|]; [|done]. cbn.
    split; [done|simpl; lia|intros j x _ Hx; by rewrite lookup_nil in Hx].
  - intros t q Hq. destruct (HQ t q Hq) as (Hc & Hn & Ha & Hl).
    destruct (ring_replicate (Z.to_nat (q_size q)) UINT64_MAX ltac:(lia)) as [R1 B1].
    destruct (ring_replicate (Z.to_nat (q_size q)) 0 ltac:(lia)) as [R2 B2].
    unfold queue_refines. rewrite Hn, Ha, Hl. split_and!; try done; lia.
  - done.
  - done.
Qed.

Lemma ready_new : ready Scoreboard_new.
Proof. split; intros t x; cbn; by rewrite lookup_empty. Qed.

Lemma init_resource_ready s t cnt lat pipe :
  ready s -> 0 < cnt < 2 ^ 32 -> resources s !! t = None ->
  exists s', initResource s t cnt lat pipe = Ok s' /\ ready s' /\
    resources s' = <[t := mkResource cnt lat pipe 0 (replicate (Z.to_nat cnt) UINT64_MAX) None]>
                     (resources s) /\
    mixedOperationResource s' = mixedOperationResource s /\
    mixedOperationSpec s' = mixedOperationSpec s /\ queues s' = queues s.
Proof.
  intros [HU HQ] Hc Ht. unfold initResource. rewrite Ht. eexists; split; [done|].
  unfold resetResource, resource_at, set_resource. cbn. rewrite lookup_insert_eq. cbn.
  rewrite insert_insert_eq. split; [|done]. split; cbn; [|exact HQ]. intros t' r.
  destruct (decide (t' = t)) as [->|Hne].
  - rewrite lookup_insert_eq. intros [= <-]. cbn. split_and!; done || lia.
  - rewrite lookup_insert_ne by done. apply HU.
Qed.

Lemma init_queue_ready s t size :
  ready s -> 0 < size < 2 ^ 32 -> queues s !! t = None ->
  exists s', initQueue s t size = Ok s' /\ ready s' /\
    queues s' = <[t := mkQueue size (replicate (Z.to_nat size) 0) 0
                         (replicate (Z.to_nat size) UINT64_MAX)]> (queues s) /\
    resources s' = resources s /\ mixedOperationResource s' = mixedOperationResource s /\
    mixedOperationSpec s' = mixedOperationSpec s.
Proof.
  intros [HU HQ] Hc Ht. unfold initQueue. rewrite Ht. eexists; split; [done|].
  unfold resetQueue, queue_at, set_queue. cbn. rewrite lookup_insert_eq. cbn.
  rewrite insert_insert_eq. split; [|done]. split; cbn; [exact HU|]. intros t' q.
  destruct (decide (t' = t)) as [->|Hne].
  - rewrite lookup_insert_eq. intros [= <-]. cbn. split_and!; done || lia.
  - rewrite lookup_insert_ne by done. apply HQ.
Qed.
