(* ===== verification/CalipersO3.v ===== *)
(** * The out-of-order core of Calipers

    infras/calipers/src/graph/o3_core_graph.cpp and .h: the dependence graph of a
    window of instructions, a first critical-path pass that orders the
    instructions for issue, the edges for limited resources along that order, and
    a second pass.  The edges an operation adds are returned in the order of the
    calls of [addEdge] and added together, since adding an edge touches nothing
    but the graph.  Caches and the branch predictor are the abstract classes
    [Cache] and [BranchPredictor] of the code, here type classes. *)

From S2P Require Import Prelude Machine CalipersCache CalipersCycles CalipersScoreboard.

#[local] Open Scope list_scope.
#[local] Open Scope Z_scope.

(** ** Interfaces *)

(** memory/cache.h: the cycles of an access, and the cache after it. *)
Class Cache (C : Type) := {
  cache_load : C -> Z -> Z -> res (Z * C);
  cache_store : C -> Z -> Z -> res (Z * C)
}.
(** branch_predictor/branch_predictor.h. *)
Class BranchPredictor (P : Type) := { mispredicted : P -> Z -> bool * P }.

(** memory/ideal_cache.h, and the two-level cache of memory/real_cache.h. *)
#[export] Instance IdealCache : Cache unit :=
  { cache_load := fun c _ _ => Ok (1, c); cache_store := fun c _ _ => Ok (1, c) }.
#[export] Instance RealCache_cache : Cache Cal.RealCache :=
  { cache_load := fun c base _ => Cal.loadCycles c base;
    cache_store := fun c base _ => Cal.storeCycles c base }.

Module CalO.
Import CalG CalS.

(** ** Instructions *)

(** The struct INSTRUCTION; an array with its count is the list of the elements
    in use.  The text kept for the drawing is left out. *)
Record Instruction := mkInstruction {
  pc : Z;
  bytes : Z;
  fetchCycles : Z;
  i_lsCycles : Z;
  i_mispredicted : bool;
  i_executionType : ExecutionType;
  regRead : list Z;
  regWrite : list Z;
  memLoadCount : Z;
  memLoadBase : Z;
  memLoadLength : Z;
  memStoreCount : Z;
  memStoreBase : Z;
  memStoreLength : Z
}.

(** ** State *)

Record Params := mkParams {
  instrBufferSize : Z;
  fetchBandwidth : Z;
  dispatchBandwidth : Z;
  commitBandwidth : Z;
  p_decodeCycles : Z;
  p_dispatchCycles : Z;
  executeToCommitCycles : Z;
  predictionCycles : Z;
  mispredictionPenalty : Z;
  memIssueBandwidth : Z;
  memCommitBandwidth : Z
}.

(** Set by the constructor of [Graph], beside the thresholds of [Graph]. *)
Definition l1iThreshold : Z := 5.

(** What the model of one instruction remembers for the next. *)
Record Book := mkBook {
  currentIcacheLine : Z;
  lastMisprediction : Z;
  lastBranch : Z;
  previousInstrMispredicted : bool;
  previousWasBranch : bool;
  linearPC : Z;
  lastMemLdSt : Z;
  regLastWrittenBy : gmap Z (Z * Z);
  regLastWrittenByLoad : gmap Z bool;
  ldStWindow : list (Z * (Z * Z));
  ldStWindowType : list bool;
  ldStWindowPointer : Z;
  lsCyclesOf : gmap Z Z;
  executionCyclesOf : gmap Z Z
}.

Record Stats := mkStats {
  instructionMix : list Z;
  l1iMisses : Z;
  l2iMisses : Z;
  l1dMisses : Z;
  l2dMisses : Z;
  bpMisses : Z;
  branchCount : Z
}.

(** A vertex with its outgoing edges; an entry of the schedule. *)
Notation adjacency := (gmap key (list OutgoingEdge)).
Definition Edge : Type := Vertex * OutgoingEdge.

Section O3.
Context {CI CD BP : Type} `{Cache CI} `{Cache CD} `{BranchPredictor BP}.

Record O3CoreGraph := mkO3 {
  params : Params;
  base : Graph;
  scoreboard : Scoreboard;
  book : Book;
  stats : Stats;
  graph : adjacency;
  scheduleOrder : list (Z * Z);
  instrCount : Z;
  analyzedWindows : Z;
  icache : option CI;
  dcache : option CD;
  bp : option BP
}.

Definition window (s : O3CoreGraph) : Z := AnalysisWindow (base s).
Definition set_graph (s : O3CoreGraph) (g : adjacency) : O3CoreGraph :=
  mkO3 (params s) (base s) (scoreboard s) (book s) (stats s) g (scheduleOrder s) (instrCount s)
    (analyzedWindows s) (icache s) (dcache s) (bp s).
Definition set_base (s : O3CoreGraph) (b : Graph) : O3CoreGraph :=
  mkO3 (params s) b (scoreboard s) (book s) (stats s) (graph s) (scheduleOrder s) (instrCount s)
    (analyzedWindows s) (icache s) (dcache s) (bp s).
Definition set_book (s : O3CoreGraph) (b : Book) : O3CoreGraph :=
  mkO3 (params s) (base s) (scoreboard s) b (stats s) (graph s) (scheduleOrder s) (instrCount s)
    (analyzedWindows s) (icache s) (dcache s) (bp s).
Definition set_stats (s : O3CoreGraph) (t : Stats) : O3CoreGraph :=
  mkO3 (params s) (base s) (scoreboard s) (book s) t (graph s) (scheduleOrder s) (instrCount s)
    (analyzedWindows s) (icache s) (dcache s) (bp s).
Definition set_scoreboard (s : O3CoreGraph) (b : Scoreboard) : O3CoreGraph :=
  mkO3 (params s) (base s) b (book s) (stats s) (graph s) (scheduleOrder s) (instrCount s)
    (analyzedWindows s) (icache s) (dcache s) (bp s).
Definition set_schedule (s : O3CoreGraph) (l : list (Z * Z)) : O3CoreGraph :=
  mkO3 (params s) (base s) (scoreboard s) (book s) (stats s) (graph s) l (instrCount s)
    (analyzedWindows s) (icache s) (dcache s) (bp s).
Definition set_icache (s : O3CoreGraph) (c : option CI) : O3CoreGraph :=
  mkO3 (params s) (base s) (scoreboard s) (book s) (stats s) (graph s) (scheduleOrder s)
    (instrCount s) (analyzedWindows s) c (dcache s) (bp s).
Definition set_dcache (s : O3CoreGraph) (c : option CD) : O3CoreGraph :=
  mkO3 (params s) (base s) (scoreboard s) (book s) (stats s) (graph s) (scheduleOrder s)
    (instrCount s) (analyzedWindows s) (icache s) c (bp s).
Definition set_bp (s : O3CoreGraph) (p : option BP) : O3CoreGraph :=
  mkO3 (params s) (base s) (scoreboard s) (book s) (stats s) (graph s) (scheduleOrder s)
    (instrCount s) (analyzedWindows s) (icache s) (dcache s) p.
Definition set_counts (s : O3CoreGraph) (n w : Z) : O3CoreGraph :=
  mkO3 (params s) (base s) (scoreboard s) (book s) (stats s) (graph s) (scheduleOrder s) n w
    (icache s) (dcache s) (bp s).

(** ** Edges *)

Definition edge_at (g : adjacency) (k : key) : list OutgoingEdge := default [] (g !! k).

Definition addEdge (s : O3CoreGraph) (pe : Edge) : O3CoreGraph :=
  let pk := VertexKey (base s) pe.1 in
  let ck := VertexKey (base s) (child pe.2) in
  let g := <[pk := edge_at (graph s) pk ++ [pe.2]]> (graph s) in
  set_graph s (<[ck := edge_at g ck]> g).
Definition addEdges (s : O3CoreGraph) (es : list Edge) : O3CoreGraph := foldl addEdge s es.

(** An edge with the same weight in every lane. *)
Definition edge (p : VertexType) (i : Z) (c : VertexType) (j : Z) (w : Z) : Edge :=
  (mkVertex p i, mkEdge (mkVertex c j) (Vector_all w)).

(** ** One instruction *)

Definition is_load (i : Instruction) : bool := memLoadCount i =? 1.
Definition is_store (i : Instruction) : bool := memStoreCount i =? 1.
Definition is_branch (i : Instruction) : bool :=
  match i_executionType i with BranchCond | BranchUncond => true | _ => false end.

(** Which counter of [instructionMix] the instruction is counted in. *)
Definition mix_index (i : Instruction) : nat :=
  match i_executionType i with
  | BranchCond | BranchUncond => 4
  | IntBase | IntMul | IntDiv => 0
  | FpBase | FpMul | FpDiv => 1
  | _ => if is_load i then 2 else if is_store i then 3 else 5
  end%nat.

(** The loop of [modelMemoryOrderConstraint] over the window of loads and
    stores, youngest first; [n] entries to go. *)
Definition common (base length prev_base prev_length : Z) : bool :=
  ((prev_base <=? base) && (base <? u64 (prev_base + prev_length))) ||
  ((prev_base <? u64 (base + length)) && (u64 (base + length) <=? u64 (prev_base + prev_length))).

Fixpoint order_scan (n : nat) (b : Book) (size index : Z) (load : bool) (base length : Z)
    : res (option (Z * bool)) :=
  match n with
  | O => Ok None
  | S n =>
      match ldStWindow b !! Z.to_nat index with
      | None => Stop Undefined
      | Some (previous_ld_st_num, (prev_base, prev_length)) =>
          if previous_ld_st_num =? UINT64_MAX then Ok None
          else
            match ldStWindowType b !! Z.to_nat index with
            | None => Stop Undefined
            | Some is_prev_load =>
                let common := common base length prev_base prev_length in
                if common && negb is_prev_load && load then Ok (Some (previous_ld_st_num, true))
                else if common && negb load then Ok (Some (previous_ld_st_num, false))
                else order_scan n b size (u32 (index + size - 1) mod size) load base length
            end
      end
  end.

(** Returns the edges and whether a store forwards its value. *)
Definition modelMemoryOrderConstraint (s : O3CoreGraph) (instr : Instruction)
    : res (list Edge * bool) :=
  let n := instrCount s in
  let load := negb (memLoadCount instr =? 0) in
  let size := u32 (getQueueSize (scoreboard s) RscLQ + getQueueSize (scoreboard s) RscSQ) in
  let '(base, length) := if load then (memLoadBase instr, memLoadLength instr)
                         else (memStoreBase instr, memStoreLength instr) in
  if size =? 0 then Stop Undefined
  else
    let ptr := ldStWindowPointer (book s) in
    match ldStWindow (book s) !!
            Z.to_nat (u32 (ptr + size - memIssueBandwidth (params s)) mod size) with
    | None => Stop Undefined
    | Some (previous_ld_st_num, _) =>
        let bw := if previous_ld_st_num =? UINT64_MAX then []
                  else [edge MemExecute previous_ld_st_num MemExecute n 0] in
        r ← order_scan (Z.to_nat size) (book s) size (u32 (ptr + size - 1) mod size) load base length;
        match r with
        | Some (prev, forward) => Ok (bw ++ [edge MemExecute prev MemExecute n 0], forward)
        | None => Ok (bw, false)
        end
    end.

(** Register dependences, one edge per source register with a recent producer. *)
Definition register_edge (s : O3CoreGraph) (reg_read : Z) : list Edge :=
  let n := instrCount s in
  match regLastWrittenBy (book s) !! reg_read with
  | Some (writer, w) =>
      if u64 (n - writer) <? instrBufferSize (params s) then
        [if default false (regLastWrittenByLoad (book s) !! reg_read)
         then edge MemExecute writer InstrExecute n w
         else edge InstrExecute writer InstrExecute n w]
      else []
  | None => []
  end.
Definition trackDataDependencies (s : O3CoreGraph) (instr : Instruction) : list Edge :=
  mjoin (register_edge s <$> regRead instr).

(** A limit of [n] per cycle links each instruction to the one [n] before it. *)
Definition bandwidth_applies (s : O3CoreGraph) (limit : Z) : bool :=
  (limit <=? instrCount s mod window s) &&
  ((lastMisprediction (book s) =? UINT64_MAX) ||
   (limit <? u64 (instrCount s - lastMisprediction (book s)))).
Definition bandwidth_edge (s : O3CoreGraph) (t : VertexType) (limit : Z) : list Edge :=
  if bandwidth_applies s limit
  then [edge t (u64 (instrCount s - limit)) t (instrCount s) 1] else [].
Definition mem_commit_applies (s : O3CoreGraph) : bool :=
  negb (lastMemLdSt (book s) =? UINT64_MAX) &&
  (u64 (instrCount s - lastMemLdSt (book s)) =? memCommitBandwidth (params s)) &&
  ((lastMisprediction (book s) =? UINT64_MAX) ||
   (memCommitBandwidth (params s) <? u64 (instrCount s - lastMisprediction (book s)))).

(** The stages of the instruction itself. *)
Definition stage_edges (s : O3CoreGraph) (instr : Instruction) (execution_cycles : Z)
    : list Edge :=
  let n := instrCount s in
  let lsu := getResourceLatency (scoreboard s) RscLsu in
  [edge InstrFetch n InstrDispatch n (p_decodeCycles (params s));
   edge InstrDispatch n InstrExecute n (p_dispatchCycles (params s))] ++
  if is_load instr || is_store instr then
    [edge InstrExecute n MemExecute n lsu;
     edge MemExecute n InstrCommit n
       (u32 (execution_cycles - lsu + executeToCommitCycles (params s)))]
  else [edge InstrExecute n InstrCommit n
          (u32 (execution_cycles + executeToCommitCycles (params s)))].

(** Fetch, dispatch and commit in program order, or after a misprediction. *)
Definition order_edges (s : O3CoreGraph) (mispred : bool) (fetch_cycles : Z)
    (no_need_for_ino_commit : bool) : list Edge :=
  let n := instrCount s in
  let p := params s in
  if mispred then
    [edge InstrExecute (u64 (n - 1)) InstrFetch n
       (u32 (getResourceLatency (scoreboard s) RscIntAlu + mispredictionPenalty p + fetch_cycles))]
  else
    (if n mod window s =? 0 then []
     else [edge InstrFetch (u64 (n - 1)) InstrFetch n
             (if previousWasBranch (book s) then u32 (predictionCycles p + fetch_cycles)
              else fetch_cycles)]) ++
    (if (n mod window s =? 0) || (dispatchBandwidth p =? 1) then []
     else [edge InstrDispatch (u64 (n - 1)) InstrDispatch n 0]) ++
    (if no_need_for_ino_commit then []
     else [edge InstrCommit (u64 (n - 1)) InstrCommit n 0]).

Definition pipeline_edges (s : O3CoreGraph) (instr : Instruction) (execution_cycles : Z)
    (mispred : bool) (fetch_cycles : Z) : list Edge :=
  let n := instrCount s in
  let p := params s in
  let no_need := (n mod window s =? 0) || (commitBandwidth p =? 1) in
  stage_edges s instr execution_cycles ++
  bandwidth_edge s InstrFetch (fetchBandwidth p) ++
  bandwidth_edge s InstrDispatch (dispatchBandwidth p) ++
  bandwidth_edge s InstrCommit (commitBandwidth p) ++
  (if mem_commit_applies s
   then [edge InstrCommit (lastMemLdSt (book s)) InstrCommit n 1] else []) ++
  order_edges s mispred fetch_cycles
    (no_need || (mem_commit_applies s && (u64 (n - lastMemLdSt (book s)) =? 1))) ++
  (if instrBufferSize p <=? n mod window s
   then [edge InstrCommit (u64 (n - instrBufferSize p)) InstrFetch n 0] else []).

(** The field updates of [Book] and [Stats] the operations make. *)
Definition book_fetch (b : Book) (line : Z) (mispred : bool) (last : Z) : Book :=
  mkBook line last (lastBranch b) mispred (previousWasBranch b) (linearPC b) (lastMemLdSt b)
    (regLastWrittenBy b) (regLastWrittenByLoad b) (ldStWindow b) (ldStWindowType b)
    (ldStWindowPointer b) (lsCyclesOf b) (executionCyclesOf b).
Definition book_cycles (b : Book) (ls ex : gmap Z Z) : Book :=
  mkBook (currentIcacheLine b) (lastMisprediction b) (lastBranch b) (previousInstrMispredicted b)
    (previousWasBranch b) (linearPC b) (lastMemLdSt b) (regLastWrittenBy b)
    (regLastWrittenByLoad b) (ldStWindow b) (ldStWindowType b) (ldStWindowPointer b) ls ex.
Definition book_memory (b : Book) (last : Z) (w : list (Z * (Z * Z))) (t : list bool) (ptr : Z)
    : Book :=
  mkBook (currentIcacheLine b) (lastMisprediction b) (lastBranch b) (previousInstrMispredicted b)
    (previousWasBranch b) (linearPC b) last (regLastWrittenBy b) (regLastWrittenByLoad b) w t ptr
    (lsCyclesOf b) (executionCyclesOf b).
Definition book_branch (b : Book) (last : Z) (was : bool) (lpc : Z) : Book :=
  mkBook (currentIcacheLine b) (lastMisprediction b) last (previousInstrMispredicted b) was lpc
    (lastMemLdSt b) (regLastWrittenBy b) (regLastWrittenByLoad b) (ldStWindow b)
    (ldStWindowType b) (ldStWindowPointer b) (lsCyclesOf b) (executionCyclesOf b).
Definition book_register (b : Book) (r : Z) (by_instr : Z * Z) (load : bool) : Book :=
  mkBook (currentIcacheLine b) (lastMisprediction b) (lastBranch b) (previousInstrMispredicted b)
    (previousWasBranch b) (linearPC b) (lastMemLdSt b) (<[r := by_instr]> (regLastWrittenBy b))
    (<[r := load]> (regLastWrittenByLoad b)) (ldStWindow b) (ldStWindowType b)
    (ldStWindowPointer b) (lsCyclesOf b) (executionCyclesOf b).

Definition bump (n : Z) : Z := u64 (n + 1).
Definition count_mix (t : Stats) (k : nat) : Stats :=
  mkStats (alter bump k (instructionMix t)) (l1iMisses t) (l2iMisses t) (l1dMisses t)
    (l2dMisses t) (bpMisses t) (branchCount t).
Definition count_branch (t : Stats) (branch mispred : bool) : Stats :=
  mkStats (instructionMix t) (l1iMisses t) (l2iMisses t) (l1dMisses t) (l2dMisses t)
    (if branch && mispred then bump (bpMisses t) else bpMisses t)
    (if branch then bump (branchCount t) else branchCount t).
Definition count_fetch (t : Stats) (l1 l2 cycles : Z) : Stats :=
  mkStats (instructionMix t)
    (if negb (l2 <? cycles) && (l1 <? cycles) then bump (l1iMisses t) else l1iMisses t)
    (if l2 <? cycles then bump (l2iMisses t) else l2iMisses t)
    (l1dMisses t) (l2dMisses t) (bpMisses t) (branchCount t).
Definition count_memory (t : Stats) (l1 l2 cycles : Z) : Stats :=
  mkStats (instructionMix t) (l1iMisses t) (l2iMisses t)
    (if negb (l2 <? cycles) && (l1 <? cycles) then bump (l1dMisses t) else l1dMisses t)
    (if l2 <? cycles then bump (l2dMisses t) else l2dMisses t) (bpMisses t) (branchCount t).

(** The branch predictor's verdict on this instruction. *)
Definition predict (s : O3CoreGraph) (instr : Instruction) : bool * O3CoreGraph :=
  match bp s with
  | None => (i_mispredicted instr, s)
  | Some p =>
      if is_branch instr then let '(m, p) := mispredicted p (pc instr) in (m, set_bp s (Some p))
      else (false, s)
  end.

Definition cache_line (a : Z) : Z := Z.land a (u64 (Z.shiftl UINT64_MAX 6)).

(** The cycles of the instruction's fetch. *)
Definition fetch (s : O3CoreGraph) (instr : Instruction) : res (Z * O3CoreGraph) :=
  match icache s with
  | None => Ok (fetchCycles instr, s)
  | Some c =>
      if currentIcacheLine (book s) =? cache_line (pc instr) then Ok (0, s)
      else '(cycles, c) ← cache_load c (pc instr) 64; Ok (cycles, set_icache s (Some c))
  end.

Definition modelPipeline (s : O3CoreGraph) (instr : Instruction) (execution_cycles : Z)
    : res O3CoreGraph :=
  let mispred := previousInstrMispredicted (book s) in
  let '(previous, s) := predict s instr in
  let s := set_stats s (count_branch (stats s) (is_branch instr) previous) in
  '(fetch_cycles, s) ← fetch s instr;
  let s := set_stats s
             (count_fetch (stats s) l1iThreshold (l2iThreshold (base s)) fetch_cycles) in
  let es := pipeline_edges s instr execution_cycles mispred fetch_cycles in
  let last := if mispred then u64 (instrCount s - 1) else lastMisprediction (book s) in
  let s := set_book s (book_fetch (book s) (cache_line (pc instr)) previous last) in
  Ok (addEdges s es).

(** The data-cache access, and the cycles until the value is there. *)
Definition access_memory (s : O3CoreGraph) (instr : Instruction) (forward : bool)
    : res (Z * O3CoreGraph) :=
  match dcache s with
  | None => Ok (i_lsCycles instr, s)
  | Some c =>
      if is_load instr then
        if forward then Ok (0, s)
        else '(n, c) ← cache_load c (memLoadBase instr) (memLoadLength instr);
             Ok (n, set_dcache s (Some c))
      else '(n, c) ← cache_store c (memStoreBase instr) (memStoreLength instr);
           Ok (n, set_dcache s (Some c))
  end.

Definition execution_latency (s : O3CoreGraph) (instr : Instruction) (ls_cycles : Z) : Z :=
  let lat t := getResourceLatency (scoreboard s) t in
  if is_load instr then u32 (lat RscLsu + ls_cycles)
  else if is_store instr then lat RscLsu
  else match i_executionType instr with
       | IntBase | BranchCond | BranchUncond => lat RscIntAlu
       | IntMul => lat RscIntMul
       | IntDiv => lat RscIntDiv
       | FpBase => lat RscFpAlu
       | FpMul => lat RscFpMul
       | FpDiv => lat RscFpDiv
       | _ => 1
       end.

(** The bookkeeping after a load or a store. *)
Definition record_memory (s : O3CoreGraph) (instr : Instruction) (ls_cycles : Z)
    : res O3CoreGraph :=
  let b := book s in
  let ptr := Z.to_nat (ldStWindowPointer b) in
  let size := u32 (getQueueSize (scoreboard s) RscLQ + getQueueSize (scoreboard s) RscSQ) in
  let entry := (instrCount s,
                if is_load instr then (memLoadBase instr, memLoadLength instr)
                else (memStoreBase instr, memStoreLength instr)) in
  if negb (Nat.ltb ptr (List.length (ldStWindow b))) || (size =? 0) then Stop Undefined
  else
    let s := set_book s (book_memory b (instrCount s) (<[ptr := entry]> (ldStWindow b))
               (<[ptr := is_load instr]> (ldStWindowType b))
               (u32 (ldStWindowPointer b + 1) mod size)) in
    Ok (set_stats s (count_memory (stats s) (l1dThreshold (base s)) (l2dThreshold (base s))
                       ls_cycles)).

Definition record_registers (s : O3CoreGraph) (instr : Instruction) (cycles : Z) : O3CoreGraph :=
  foldl (fun s r => set_book s (book_register (book s) r (instrCount s, cycles) (is_load instr)))
    s (regWrite instr).

Definition set_type (g : Graph) (n : Z) (t : ExecutionType) : Graph :=
  mkGraph (AnalysisWindow g) (l2iThreshold g) (l1dThreshold g) (l2dThreshold g)
    (intAluTotalCycles g) (<[n mod AnalysisWindow g := t]> (executionType g)) (length g)
    (criticalPathCycles g) (criticalPathInstructions g).

Definition load_store (instr : Instruction) : bool := is_load instr || is_store instr.

(** The parts of [model]: the instruction's type and the instruction mix, *)
Definition count_instr (s : O3CoreGraph) (instr : Instruction) : O3CoreGraph :=
  set_stats (set_base s (set_type (base s) (instrCount s) (i_executionType instr)))
    (count_mix (stats s) (mix_index instr)).

(** memory order and the data cache, *)
Definition model_access (s : O3CoreGraph) (instr : Instruction) : res (Z * O3CoreGraph) :=
  '(es, forward) ← (if load_store instr && bool_decide (is_Some (dcache s))
                    then modelMemoryOrderConstraint s instr else Ok ([], false));
  let s := addEdges s es in
  if load_store instr then access_memory s instr forward else Ok (0, s).

(** the cycles recorded for the issue of resources, *)
Definition record_cycles (s : O3CoreGraph) (instr : Instruction) (ls_cycles execution_cycles : Z)
    : O3CoreGraph :=
  let slot := instrCount s mod window s in
  set_book s (book_cycles (book s)
    (if load_store instr then <[slot := ls_cycles]> (lsCyclesOf (book s)) else lsCyclesOf (book s))
    (<[slot := execution_cycles]> (executionCyclesOf (book s)))).

(** and the bookkeeping for later instructions. *)
Definition finish_instr (s : O3CoreGraph) (instr : Instruction) (ls_cycles execution_cycles : Z)
    : res O3CoreGraph :=
  s ← (if load_store instr then record_memory s instr ls_cycles else Ok s);
  let s := set_book s (book_branch (book s)
             (if is_branch instr then instrCount s else lastBranch (book s)) (is_branch instr)
             (u64 (pc instr + bytes instr))) in
  Ok (record_registers s instr (if is_load instr then ls_cycles else execution_cycles)).

Definition model (s : O3CoreGraph) (instr : Instruction) : res O3CoreGraph :=
  '(ls_cycles, s) ← model_access (count_instr s instr) instr;
  let execution_cycles := execution_latency s instr ls_cycles in
  s ← modelPipeline (record_cycles s instr ls_cycles execution_cycles) instr execution_cycles;
  finish_instr (addEdges s (trackDataDependencies s instr)) instr ls_cycles execution_cycles.

(** ** Analysing a window *)

(** [ScheduleComparison], and insertion into the ordered set. *)
Definition ScheduleComparison (lhs rhs : Z * Z) : bool :=
  if lhs.2 =? rhs.2 then lhs.1 <? rhs.1 else lhs.2 <? rhs.2.
Fixpoint schedule_insert (x : Z * Z) (l : list (Z * Z)) : list (Z * Z) :=
  match l with
  | [] => [x]
  | y :: l' =>
      if ScheduleComparison x y then x :: l
      else if ScheduleComparison y x then y :: schedule_insert x l'
      else l
  end.

Definition all_types : list VertexType :=
  [InstrFetch; InstrDispatch; InstrExecute; MemExecute; InstrCommit].

(** Relax the edges out of one vertex. *)
Definition relax_vertex (s : O3CoreGraph) (parent : Vertex) : res O3CoreGraph :=
  b ← res_fold (fun b e => updateCriticalPathCycles b parent e) (base s)
        (edge_at (graph s) (VertexKey (base s) parent));
  Ok (set_base s b).

Definition schedule_vertex (s : O3CoreGraph) (i : Z) (t : VertexType) : res O3CoreGraph :=
  let parent := mkVertex t i in
  s ← (if decide (t = InstrExecute) then
         len ← Vector_get (length_at (base s) (VertexKey (base s) parent)) 0;
         Ok (set_schedule s (schedule_insert (i, len) (scheduleOrder s)))
       else Ok s);
  relax_vertex s parent.

(** The instructions of the window being analysed. *)
Definition window_instrs (s : O3CoreGraph) : list Z :=
  let first := analyzedWindows s * window s in seqZ first (instrCount s - first).

Definition calculateCriticalPathForScheduling (s : O3CoreGraph) : res O3CoreGraph :=
  res_fold (fun s i => res_fold (fun s t => schedule_vertex s i t) s all_types) s (window_instrs s).

(** The unit an instruction needs, and its load or store queue. *)
Definition operation_of (t : ExecutionType) : option (Z * option Z) :=
  match t with
  | IntBase | BranchCond | BranchUncond => Some (RscIntAlu, None)
  | IntMul => Some (RscIntMul, None)
  | IntDiv => Some (RscIntDiv, None)
  | FpBase => Some (RscFpAlu, None)
  | FpMul => Some (RscFpMul, None)
  | FpDiv => Some (RscFpDiv, None)
  | Load => Some (RscLsu, Some RscLQ)
  | Store => Some (RscLsu, Some RscSQ)
  | _ => None
  end.

Definition unsigned_diff (a b : Z) : Z := if b <? a then u64 (a - b) else u64 (b - a).

(** Add the edge from the previous user of a resource, if there is one and it is
    near enough. *)
Definition resource_edge (s : O3CoreGraph) (t : VertexType) (curr prev wait_cycles : Z)
    (near : bool) : res O3CoreGraph :=
  if negb (prev =? UINT64_MAX) &&
     (negb near || (unsigned_diff curr prev <? instrBufferSize (params s))) then
    w ← Vector_lane wait_cycles 0;
    Ok (addEdge s (mkVertex t prev, mkEdge (mkVertex t curr) w))
  else Ok s.

Definition request_unit (s : O3CoreGraph) (op curr : Z) (near : bool) : res O3CoreGraph :=
  '(prev, wait_cycles, sb) ← scheduleResource (scoreboard s) op curr;
  resource_edge (set_scoreboard s sb) InstrExecute curr prev wait_cycles near.
Definition request_entry (s : O3CoreGraph) (t : VertexType) (q curr cycles : Z) (near : bool)
    : res O3CoreGraph :=
  '(prev, wait_cycles, sb) ← scheduleQueue (scoreboard s) q curr cycles;
  resource_edge (set_scoreboard s sb) t curr prev wait_cycles near.

Definition schedule_instr (s : O3CoreGraph) (curr : Z) : res O3CoreGraph :=
  let slot := curr mod window s in
  match operation_of (type_at (base s) curr) with
  | None => Ok s
  | Some (operation_type, lsq_type) =>
      s ← request_unit s RscIssue curr false;
      let execution_cycles := default 0 (executionCyclesOf (book s) !! slot) in
      if execution_cycles =? UINT32_MAX then Stop ErrorExit
      else
        s ← request_entry s InstrExecute RscInstrQ curr execution_cycles false;
        s ← request_unit s operation_type curr true;
        match lsq_type with
        | None => Ok s
        | Some q =>
            let ls_cycles := default 0 (lsCyclesOf (book s) !! slot) in
            if ls_cycles =? UINT32_MAX then Stop ErrorExit
            else request_entry s MemExecute q curr ls_cycles true
        end
  end.

Definition modelResourceDependencies (s : O3CoreGraph) : res O3CoreGraph :=
  res_fold (fun s x => schedule_instr s x.1) s (scheduleOrder s).

Definition calculateFinalCriticalPath (s : O3CoreGraph) : res O3CoreGraph :=
  s ← res_fold (fun s x =>
        res_fold (fun s t => relax_vertex s (mkVertex t x.1)) s
          [InstrExecute; MemExecute; InstrCommit]) s (scheduleOrder s);
  Ok (set_schedule s []).

(** The report (CalipersReport) and the drawing (CalipersDraw) are outputs; the rest
    of [anaylzeWindow]. *)
Definition anaylzeWindow (s : O3CoreGraph) : res O3CoreGraph :=
  s ← calculateCriticalPathForScheduling s;
  s ← modelResourceDependencies s;
  s ← calculateFinalCriticalPath s;
  Ok (set_counts s (instrCount s) (analyzedWindows s + 1)).

(** ** Set-up and the main loop *)

Definition reset_first (g : Graph) : Graph :=
  let k := VertexKey g (mkVertex InstrFetch 0) in
  let g := set_length g k (Vector_all 0) in
  let g := set_cycles g k (fun _ => Vector_all 0) in
  set_instructions g k (fun _ => Vector_all 0).

Definition reset_types (g : Graph) : Graph :=
  mkGraph (AnalysisWindow g) (l2iThreshold g) (l1dThreshold g) (l2dThreshold g)
    (intAluTotalCycles g)
    (foldl (fun m i => <[i := Invalid]> m) (executionType g) (seqZ 0 (AnalysisWindow g)))
    (length g) (criticalPathCycles g) (criticalPathInstructions g).

Definition reset_slots (m : gmap Z Z) (n : Z) : gmap Z Z :=
  foldl (fun m i => <[i := UINT32_MAX]> m) m (seqZ 0 n).

Definition reset_scoreboard (b : Scoreboard) : Scoreboard :=
  let b := foldl resetResource b
             [RscIssue; RscIntAlu; RscIntMulDiv; RscFpAlu; RscFpMulDiv; RscLsu] in
  foldl resetQueue b [RscInstrQ; RscLQ; RscSQ].

Definition reset_ld_st (w : list (Z * (Z * Z))) (n : Z) : list (Z * (Z * Z)) :=
  imap (fun i e => if Nat.ltb i (Z.to_nat n) then (UINT64_MAX, e.2) else e) w.

Definition initBookKeeping (s : O3CoreGraph) : O3CoreGraph :=
  let b := book s in
  let size := u32 (getQueueSize (scoreboard s) RscLQ + getQueueSize (scoreboard s) RscSQ) in
  let s := set_book s
    (mkBook UINT64_MAX UINT64_MAX UINT64_MAX false false (linearPC b) UINT64_MAX ∅ ∅
       (reset_ld_st (ldStWindow b) size) (ldStWindowType b) 0
       (reset_slots (lsCyclesOf b) (window s)) (reset_slots (executionCyclesOf b) (window s))) in
  let s := set_base s (reset_types (reset_first (base s))) in
  let s := set_graph s ∅ in
  set_scoreboard s (reset_scoreboard (scoreboard s)).

(** The loop of [run] over the instructions of the trace. *)
Fixpoint run_loop (s : O3CoreGraph) (trace : list Instruction) : res O3CoreGraph :=
  s ← (if (0 <? instrCount s) && (instrCount s mod window s =? 0)
       then s ← anaylzeWindow s; Ok (initBookKeeping s) else Ok s);
  match trace with
  | [] => if instrCount s mod window s =? 0 then Ok s else anaylzeWindow s
  | instr :: trace =>
      s ← model s instr;
      run_loop (set_counts s (u64 (instrCount s + 1)) (analyzedWindows s)) trace
  end.
Definition run (s : O3CoreGraph) (trace : list Instruction) : res O3CoreGraph := run_loop s trace.

End O3.

(** *** Construction *)

Record Sizes := mkSizes {
  instr_queue_size : Z;
  issue_bandwidth : Z;
  int_alu_count : Z;
  int_mul_div_count : Z;
  fp_alu_count : Z;
  fp_mul_div_count : Z;
  lsu_count : Z;
  lq_size : Z;
  sq_size : Z
}.

(** [mem_int] and [mem_fp] are what the arrays of operations hold. *)
Definition init_scoreboard (mem_int mem_fp : list Z) (z : Sizes) : res Scoreboard :=
  b ← initResource Scoreboard_new RscIssue (issue_bandwidth z) 1 true;
  b ← initResource b RscIntAlu (int_alu_count z) 1 true;
  b ← initResource b RscIntMulDiv (int_mul_div_count z) 0 false;
  b ← setMixedOperation mem_int b RscIntMul RscIntMulDiv 3 true;
  b ← setMixedOperation mem_int b RscIntDiv RscIntMulDiv 20 false;
  b ← initResource b RscFpAlu (fp_alu_count z) 2 true;
  b ← initResource b RscFpMulDiv (fp_mul_div_count z) 0 false;
  b ← setMixedOperation mem_fp b RscFpMul RscFpMulDiv 4 true;
  b ← setMixedOperation mem_fp b RscFpDiv RscFpMulDiv 12 false;
  b ← initResource b RscLsu (lsu_count z) 1 true;
  b ← initQueue b RscInstrQ (instr_queue_size z);
  b ← initQueue b RscLQ (lq_size z);
  initQueue b RscSQ (sq_size z).

(** The constructor, with the thresholds of [Graph::Graph]; [mem_mix] and
    [mem_types] are what the members and arrays it does not set hold. *)
Definition O3CoreGraph_new {CI CD BP} (mem_int mem_fp mem_mix : list Z) (mem_types : list bool)
    (analysis_window : Z) (p : Params) (z : Sizes)
    (ic : option CI) (dc : option CD) (pred : option BP) : res (@O3CoreGraph CI CD BP) :=
  b ← init_scoreboard mem_int mem_fp z;
  let g := mkGraph analysis_window 20 5 20 (getResourceLatency b RscIntAlu) ∅ ∅ ∅ ∅ in
  let book := mkBook 0 0 0 false false 0 0 ∅ ∅
                (replicate (Z.to_nat (u32 (lq_size z + sq_size z))) (0, (0, 0))) mem_types 0 ∅ ∅ in
  let s := mkO3 p g b book (mkStats mem_mix 0 0 0 0 0 0) ∅ [] 0 0 ic dc pred in
  Ok (initBookKeeping s).

End CalO.
