(* ===== verification/CalipersO3Facts.v ===== *)
(** * Facts about Calipers' out-of-order graph

    The edges an instruction adds lead forward within its window, so the first
    pass visits the vertices in a topological order. *)

From S2P Require Import Prelude Machine CalipersCache CalipersFacts CalipersCycles CalipersPaths.
From S2P Require Import CalipersScoreboard CalipersScoreFacts CalipersO3.

#[local] Open Scope list_scope.
#[local] Open Scope Z_scope.

Import CalG CalS CalO.

(** ** What the analysis relies on from a cache *)

Class CacheLaws (C : Type) `{Cache C} := {
  cache_ok : C -> Prop;
  cache_load_ok : forall c base len, cache_ok c -> 0 <= base < 2 ^ 64 ->
    exists n c', cache_load c base len = Ok (n, c') /\ 0 <= n < 2 ^ 30 /\ cache_ok c';
  cache_store_ok : forall c base len, cache_ok c -> 0 <= base < 2 ^ 64 ->
    exists n c', cache_store c base len = Ok (n, c') /\ 0 <= n < 2 ^ 30 /\ cache_ok c'
}.

#[export] Instance IdealCache_laws : CacheLaws unit.
Proof.
  refine {| cache_ok := fun _ => True |}; intros c b l _ _; exists 1, c; (split; [done|]); lia.
Defined.

(** The two-level cache, with a power of two of ways in the second level. *)
Definition real_ok (r : Cal.RealCache) : Prop :=
  (exists c1 c2 k, two_levels (Cal.cacheInternals r) c1 c2 /\ 1 <= k /\ Cal.numWays c2 = 2 ^ k) /\
  Forall (fun n => 0 <= n < 2 ^ 30)
    [Cal.l1LoadHitCycles r; Cal.l2LoadHitCycles r; Cal.l2LoadMissCycles r; Cal.l1StoreHitCycles r].

Lemma two_level_step r base type :
  real_ok r -> 0 <= base < 2 ^ 64 ->
  exists h ci, Cal.memoryAccess (Cal.cacheInternals r) base type = Ok (h, ci) /\
    (type = 1 -> h = 1) /\ real_ok (Cal.set_internals r ci).
Proof.
  intros [(c1 & c2 & k & HT & Hk & Hw) Hc] Hb.
  destruct (two_level_access (Cal.cacheInternals r) c1 c2 base type k HT Hb Hk Hw)
    as (h & c1' & c2' & E & HT' & Hh & _ & _ & _ & HN).
  exists h. eexists. split; [exact E|]. split; [by intros ->|]. split; [|done].
  exists c1', c2', k. split; [done|]. split; [done|].
  congruence.
Qed.

#[export] Instance RealCache_laws : CacheLaws Cal.RealCache.
Proof.
  refine {| cache_ok := real_ok |}; intros c b l Hc Hb; cbn.
  - destruct (two_level_step c b 0 Hc Hb) as (h & ci & E & _ & Hr).
    unfold Cal.loadCycles. rewrite E. cbn [mbind res_bind]. do 2 eexists. split; [done|].
    split; [|done]. destruct Hc as [_ Hc]. rewrite !Forall_cons in Hc.
    destruct (h =? 1); [tauto|]. destruct (h =? 2); tauto.
  - destruct (two_level_step c b 1 Hc Hb) as (h & ci & E & Hh & Hr).
    unfold Cal.storeCycles. rewrite E. cbn [mbind res_bind]. do 2 eexists. split; [done|].
    split; [|done]. rewrite (Hh eq_refl). cbn. destruct Hc as [_ Hc]. rewrite !Forall_cons in Hc.
    tauto.
Defined.

(** ** The set-up of the scoreboard *)

(** What the constructor sets up: copies, latency, pipelining, mixed or not. *)
Definition unit_setup (z : Sizes) (t : Z) : option (Z * Z * bool * bool) :=
  if t =? RscIssue then Some (issue_bandwidth z, 1, true, false)
  else if t =? RscIntAlu then Some (int_alu_count z, 1, true, false)
  else if t =? RscIntMulDiv then Some (int_mul_div_count z, 0, false, true)
  else if t =? RscFpAlu then Some (fp_alu_count z, 2, true, false)
  else if t =? RscFpMulDiv then Some (fp_mul_div_count z, 0, false, true)
  else if t =? RscLsu then Some (lsu_count z, 1, true, false)
  else None.
Definition queue_setup (z : Sizes) (t : Z) : option Z :=
  if t =? RscInstrQ then Some (instr_queue_size z)
  else if t =? RscLQ then Some (lq_size z)
  else if t =? RscSQ then Some (sq_size z)
  else None.
Definition mixed_setup : gmap Z Z :=
  {[RscFpDiv := RscFpMulDiv; RscFpMul := RscFpMulDiv;
    RscIntDiv := RscIntMulDiv; RscIntMul := RscIntMulDiv]}.
Definition spec_setup : gmap Z (Z * bool) :=
  {[RscFpDiv := (12, false); RscFpMul := (4, true);
    RscIntDiv := (20, false); RscIntMul := (3, true)]}.

Record set_up (z : Sizes) (b : Scoreboard) : Prop := {
  su_units : forall t, setup_of <$> resources b !! t = unit_setup z t;
  su_queues : forall t, q_size <$> queues b !! t = queue_setup z t;
  su_mixed : mixedOperationResource b = mixed_setup;
  su_spec : mixedOperationSpec b = spec_setup
}.

Lemma set_up_same z b b' : set_up z b -> same_setup b b' -> set_up z b'.
Proof. intros [U Q M S] [M' S' U' Q']. split; [intros; by rewrite U'|intros; by rewrite Q'|congruence..]. Qed.

Definition sizes_ok (z : Sizes) : Prop :=
  Forall (fun n => 0 < n < 2 ^ 32)
    [issue_bandwidth z; int_alu_count z; int_mul_div_count z; fp_alu_count z; fp_mul_div_count z;
     lsu_count z; instr_queue_size z; lq_size z; sq_size z] /\ lq_size z + sq_size z < 2 ^ 32.

(** The scoreboard the constructor makes. *)
Definition blank_unit (n lat : Z) (pipe : bool) (ops : option (list Z)) : ResourceInstance :=
  mkResource n lat pipe 0 (replicate (Z.to_nat n) UINT64_MAX) ops.
Definition blank_queue (n : Z) : QueueInstance :=
  mkQueue n (replicate (Z.to_nat n) 0) 0 (replicate (Z.to_nat n) UINT64_MAX).
Definition board (mem_int mem_fp : list Z) (z : Sizes) : Scoreboard :=
  mkScoreboard
    (<[RscIssue := blank_unit (issue_bandwidth z) 1 true None]>
     (<[RscIntAlu := blank_unit (int_alu_count z) 1 true None]>
      (<[RscIntMulDiv := blank_unit (int_mul_div_count z) 0 false (Some mem_int)]>
       (<[RscFpAlu := blank_unit (fp_alu_count z) 2 true None]>
        (<[RscFpMulDiv := blank_unit (fp_mul_div_count z) 0 false (Some mem_fp)]>
         (<[RscLsu := blank_unit (lsu_count z) 1 true None]> ∅))))))
    mixed_setup spec_setup
    (<[RscInstrQ := blank_queue (instr_queue_size z)]>
     (<[RscLQ := blank_queue (lq_size z)]> (<[RscSQ := blank_queue (sq_size z)]> ∅))).

Lemma init_scoreboard_board mem_int mem_fp z :
  init_scoreboard mem_int mem_fp z = Ok (board mem_int mem_fp z).
Proof. reflexivity. Qed.

(** Look a key up in a map given by its entries. *)
Ltac by_key t :=
  repeat match goal with
  | |- context [(<[?k := _]> _) !! t] =>
      destruct (decide (t = k)) as [->|?];
      [rewrite lookup_insert_eq|rewrite lookup_insert_ne by congruence]
  end; try rewrite lookup_empty.

Lemma board_set_up mem_int mem_fp z : set_up z (board mem_int mem_fp z).
Proof.
  split; [intros t|intros t|done|done]; cbn [resources queues board].
  - by_key t; try reflexivity. unfold unit_setup.
    repeat match goal with |- context [t =? ?k] => destruct (Z.eqb_spec t k); [congruence|] end. done.
  - by_key t; try reflexivity. unfold queue_setup.
    repeat match goal with |- context [t =? ?k] => destruct (Z.eqb_spec t k); [congruence|] end. done.
Qed.

Lemma board_ready mem_int mem_fp z :
  sizes_ok z -> List.length mem_int = Z.to_nat (int_mul_div_count z) ->
  List.length mem_fp = Z.to_nat (fp_mul_div_count z) -> ready (board mem_int mem_fp z).
Proof.
  intros [Hs _] Hi Hf. rewrite !Forall_cons in Hs.
  destruct Hs as (H1 & H2 & H3 & H4 & H5 & H6 & H7 & H8 & H9 & _).
  split; intros t x; cbn [resources queues board]; by_key t; intros [= <-]; cbn; auto.
Qed.

Section SetUp.
Context (z : Sizes) (b : Scoreboard) (Hb : set_up z b).

Lemma unit_lookup t c l p m :
  unit_setup z t = Some (c, l, p, m) ->
  exists r, resources b !! t = Some r /\ count r = c /\ latency r = l /\ pipelined r = p /\
    bool_decide (is_Some (assignedOp r)) = m.
Proof using Hb.
  intros Hs. pose proof (su_units z b Hb t) as E. rewrite Hs in E.
  destruct (resources b !! t) as [r|]; [|done]. injection E as <- <- <- <-. eauto 10.
Qed.

Lemma queue_lookup t n :
  queue_setup z t = Some n -> exists q, queues b !! t = Some q /\ q_size q = n.
Proof using Hb.
  intros Hs. pose proof (su_queues z b Hb t) as E. rewrite Hs in E.
  destruct (queues b !! t) as [q|]; [|done]. injection E as <-. eauto.
Qed.

(** The latencies the model uses. *)
Lemma latency_plain t c l p m :
  unit_setup z t = Some (c, l, p, m) -> mixed_setup !! t = None -> getResourceLatency b t = l.
Proof using Hb.
  intros Hs Hm. unfold getResourceLatency, resource_at. rewrite (su_mixed z b Hb), Hm.
  destruct (unit_lookup t c l p m Hs) as (r & -> & _ & <- & _). done.
Qed.
Lemma latency_mixed t k l p :
  mixed_setup !! t = Some k -> spec_setup !! t = Some (l, p) -> getResourceLatency b t = l.
Proof using Hb.
  intros Hm Hs. unfold getResourceLatency, spec_at.
  rewrite (su_mixed z b Hb), Hm, (su_spec z b Hb), Hs. done.
Qed.
Lemma queue_size_setup t n : queue_setup z t = Some n -> getQueueSize b t = n.
Proof using Hb.
  intros Hs. unfold getQueueSize, queue_at. destruct (queue_lookup t n Hs) as (q & -> & <-). done.
Qed.

Lemma lsu_latency : getResourceLatency b RscLsu = 1.
Proof using Hb. by eapply latency_plain. Qed.
Lemma alu_latency : getResourceLatency b RscIntAlu = 1.
Proof using Hb. by eapply latency_plain. Qed.
Lemma lsq_sizes :
  getQueueSize b RscLQ = lq_size z /\ getQueueSize b RscSQ = sq_size z.
Proof using Hb. split; by apply queue_size_setup. Qed.

End SetUp.

(** ** Edges *)

(** Edges within a window: from an earlier vertex to a later one. *)
Definition before (p c : Vertex) : Prop :=
  instrNum p < instrNum c \/ (instrNum p = instrNum c /\ vt_num (type p) < vt_num (type c)).

Record forward (st n : Z) (pe : Edge) : Prop := {
  fw_start : st <= instrNum pe.1;
  fw_before : before pe.1 (child pe.2);
  fw_end : instrNum (child pe.2) <= n;
  fw_weight : exists w, weight pe.2 = [w] /\ 0 <= w < 2 ^ 32 /\
    (type pe.1 = InstrExecute -> type (child pe.2) = InstrFetch -> 1 <= w)
}.

Lemma forward_edge st n t i t' j w :
  st <= i -> j <= n -> (i < j \/ (i = j /\ vt_num t < vt_num t')) -> 0 <= w < 2 ^ 32 ->
  (t = InstrExecute -> t' = InstrFetch -> 1 <= w) -> forward st n (edge t i t' j w).
Proof. intros. split; cbn; try done. exists w. done. Qed.

Lemma forward_mono st n n' pe : n <= n' -> forward st n pe -> forward st n' pe.
Proof. intros ? []. split; try done. lia. Qed.

Section Edges.
Context {CI CD BP : Type}.
Notation O3 := (@O3CoreGraph CI CD BP).

(** The edges of a vertex, from the list of all edges added. *)
Definition out_edges (g : Graph) (es : list Edge) (k : key) : list OutgoingEdge :=
  (filter (fun pe => VertexKey g pe.1 = k) es).*2.

Lemma out_edges_app g es es' k : out_edges g (es ++ es') k = out_edges g es k ++ out_edges g es' k.
Proof. unfold out_edges. by rewrite filter_app, fmap_app. Qed.

Lemma addEdge_out (s : O3) pe k :
  edge_at (graph (addEdge s pe)) k = edge_at (graph s) k ++ out_edges (base s) [pe] k.
Proof.
  unfold addEdge, out_edges, edge_at. cbn [graph set_graph].
  set (pk := VertexKey (base s) pe.1). set (ck := VertexKey (base s) (child pe.2)).
  set (g := <[pk := default [] (graph s !! pk) ++ [pe.2]]> (graph s)).
  assert (Hc : default [] (<[ck := default [] (g !! ck)]> g !! k) = default [] (g !! k)).
  { destruct (decide (k = ck)) as [->|]; [by rewrite lookup_insert_eq|by rewrite lookup_insert_ne]. }
  rewrite Hc. unfold g. destruct (decide (pk = k)) as [<-|Hne].
  - by rewrite lookup_insert_eq, filter_cons_True.
  - rewrite lookup_insert_ne by done. rewrite filter_cons_False by done. by rewrite app_nil_r.
Qed.

(** Adding edges changes nothing but the graph. *)
Lemma addEdges_spec (s : O3) es :
  exists g, addEdges s es = set_graph s g /\
    forall k, edge_at g k = edge_at (graph s) k ++ out_edges (base s) es k.
Proof.
  revert s. induction es as [|pe es IH]; intros s.
  - exists (graph s). split; [by destruct s|]. intros k. cbn. by rewrite app_nil_r.
  - destruct (IH (addEdge s pe)) as (g & Hg & Hk). exists g. split; [done|].
    intros k. rewrite Hk, addEdge_out, <- app_assoc.
    change (base (addEdge s pe)) with (base s). by rewrite <- out_edges_app.
Qed.
End Edges.

(** ** The instruction's edges lead forward *)

Definition params_ok (p : Params) : Prop :=
  Forall (fun n => 1 <= n < 2 ^ 28)
    [instrBufferSize p; fetchBandwidth p; dispatchBandwidth p; commitBandwidth p;
     memCommitBandwidth p] /\
  Forall (fun n => 0 <= n < 2 ^ 28)
    [p_decodeCycles p; p_dispatchCycles p; executeToCommitCycles p; predictionCycles p;
     mispredictionPenalty p] /\
  0 <= memIssueBandwidth p < 2 ^ 32.

Record instr_ok (i : Instruction) : Prop := {
  io_fetch : 0 <= fetchCycles i < 2 ^ 30;
  io_ls : 0 <= i_lsCycles i < 2 ^ 30;
  io_load : i_executionType i = Load -> is_load i = true;
  io_store : i_executionType i = Store -> is_store i = true;
  io_reads : (List.length (regRead i) <= 3)%nat;
  io_pc : 0 <= pc i < 2 ^ 64;
  io_bases : 0 <= memLoadBase i < 2 ^ 64 /\ 0 <= memStoreBase i < 2 ^ 64
}.

(** An instruction number of the window before [n], or none. *)
Definition earlier (st n x : Z) : Prop := x = UINT64_MAX \/ st <= x < n.

Lemma earlier_mono st n n' x : n <= n' -> earlier st n x -> earlier st n' x.
Proof. unfold earlier. lia. Qed.

Record book_ok (z : Sizes) (W st n : Z) (b : Book) : Prop := {
  bo_mispred : earlier st n (lastMisprediction b);
  bo_prev : previousInstrMispredicted b = true -> st < n;
  bo_mem : earlier st n (lastMemLdSt b);
  bo_regs : forall r i w, regLastWrittenBy b !! r = Some (i, w) -> st <= i < n /\ 0 <= w < 2 ^ 32;
  bo_window : Forall (fun e => earlier st n e.1) (ldStWindow b);
  bo_size : List.length (ldStWindow b) = Z.to_nat (lq_size z + sq_size z) /\
            List.length (ldStWindowType b) = Z.to_nat (lq_size z + sq_size z);
  bo_ptr : 0 <= ldStWindowPointer b < lq_size z + sq_size z;
  bo_exec : forall i, st <= i < n -> exists c,
    executionCyclesOf b !! (i mod W) = Some c /\ 0 <= c < UINT32_MAX
}.

Section Window.
Context {CI CD BP : Type} `{!Cache CI} `{!Cache CD} `{!BranchPredictor BP}.
Notation O3 := (@O3CoreGraph CI CD BP).
Context (z : Sizes) (W st : Z).

(** The state while a window is read: [n] is the next instruction. *)
Record reading (s : O3) : Prop := {
  re_window : window s = W /\ 0 < W /\ 0 <= st /\ st mod W = 0;
  re_count : st <= instrCount s <= st + W /\ st + W < 2 ^ 62;
  re_sizes : sizes_ok z;
  re_params : params_ok (params s);
  re_board : set_up z (scoreboard s);
  re_book : book_ok z W st (instrCount s) (book s)
}.

Lemma slot_of n : 0 < W -> 0 <= st -> st mod W = 0 -> st <= n < st + W -> n mod W = n - st.
Proof.
  intros HW Hs Hm Hn. apply Z.mod_divide in Hm as [a ->]; [|lia].
  replace n with (n - a * W + a * W) at 1 by lia. rewrite Z.mod_add by lia. apply Z.mod_small. lia.
Qed.

Section Instr.
Context (s : O3) (Hs : reading s) (Hn : instrCount s < st + W).
Let n := instrCount s.

Lemma reading_slot : n mod window s = n - st.
Proof using Hs Hn.
  destruct (re_window s Hs) as (-> & ? & ? & ?), (re_count s Hs). apply slot_of; done || lia.
Qed.

Lemma reading_sub limit : 0 <= limit <= n -> u64 (n - limit) = n - limit.
Proof using Hs Hn.
  intros. destruct (re_window s Hs) as (_ & ? & ? & _), (re_count s Hs).
  apply u64_small. unfold u64_size, n in *. lia.
Qed.

Lemma bandwidth_forward t limit :
  1 <= limit < 2 ^ 28 -> Forall (forward st n) (bandwidth_edge s t limit) /\
  (List.length (bandwidth_edge s t limit) <= 1)%nat.
Proof using Hs Hn.
  intros Hl. unfold bandwidth_edge, bandwidth_applies. fold n. rewrite reading_slot.
  destruct (re_count s Hs) as [Hc _]. destruct (re_window s Hs) as (_ & _ & H0 & _). fold n in Hc.
  destruct (Z.leb_spec limit (n - st)); cbn [andb]; [|split; [done|simpl; lia]].
  destruct (_ || _); [|split; [done|simpl; lia]]. split; [|simpl; lia].
  apply Forall_singleton. rewrite reading_sub by lia.
  apply forward_edge; lia.
Qed.

Lemma stage_forward instr cycles :
  0 <= cycles < 2 ^ 31 -> (is_load instr || is_store instr = true -> 1 <= cycles) ->
  Forall (forward st n) (stage_edges s instr cycles) /\
  (List.length (stage_edges s instr cycles) <= 4)%nat.
Proof using Hs Hn.
  intros Hcy Hls. destruct (re_count s Hs) as [Hc _]. fold n in Hc.
  destruct (re_params s Hs) as (_ & HP & _). rewrite !Forall_cons in HP.
  destruct HP as (Hd & Hi & He & _). unfold stage_edges. fold n.
  rewrite (lsu_latency z _ (re_board s Hs)).
  assert (Hsm : forall x, 0 <= x < 2 ^ 32 -> 0 <= u32 x < 2 ^ 32) by (intros; apply Z.mod_pos_bound; lia).
  destruct (is_load instr || is_store instr); (split; [|simpl; lia]);
    repeat (apply Forall_cons; split); try (apply Forall_nil; done);
    apply forward_edge; cbn; try lia; try discriminate; apply Z.mod_pos_bound; lia.
Qed.

Lemma order_forward mispred cycles no_need :
  (mispred = true -> st < n) -> 0 <= cycles < 2 ^ 30 -> (no_need = false -> n <> st) ->
  Forall (forward st n) (order_edges s mispred cycles no_need) /\
  (List.length (order_edges s mispred cycles no_need) <= 3)%nat.
Proof using Hs Hn.
  intros Hm Hcy Hnn. destruct (re_count s Hs) as [Hc _]. fold n in Hc.
  destruct (re_window s Hs) as (_ & _ & H0 & _).
  destruct (re_params s Hs) as (_ & HP & _). rewrite !Forall_cons in HP.
  destruct HP as (_ & _ & _ & Hpr & Hpe & _). unfold order_edges. fold n.
  rewrite reading_slot, (alu_latency z _ (re_board s Hs)).
  destruct mispred.
  - specialize (Hm eq_refl). split; [|simpl; lia]. apply Forall_singleton.
    rewrite reading_sub by lia. unfold u32. rewrite Z.mod_small by lia. apply forward_edge; lia.
  - destruct (Z.eqb_spec (n - st) 0) as [E|E]; cbn [orb].
    + destruct no_need; [split; [done|simpl; lia]|]. specialize (Hnn eq_refl). lia.
    + rewrite reading_sub by lia. split.
      * repeat (apply Forall_app; split); repeat case_match; try done; apply Forall_singleton;
          apply forward_edge; try lia; try discriminate; apply Z.mod_pos_bound; lia.
      * repeat case_match; simpl; lia.
Qed.

Lemma pipeline_forward instr cycles mispred fetch_cycles :
  0 <= cycles < 2 ^ 31 -> (is_load instr || is_store instr = true -> 1 <= cycles) ->
  0 <= fetch_cycles < 2 ^ 30 -> (mispred = true -> st < n) ->
  let es := pipeline_edges s instr cycles mispred fetch_cycles in
  Forall (forward st n) es /\ (List.length es <= 12)%nat.
Proof using Hs Hn.
  intros Hcy Hls Hf Hm es. unfold es, pipeline_edges. fold n. rewrite reading_slot.
  destruct (re_params s Hs) as (HP & _ & _). rewrite !Forall_cons in HP.
  destruct HP as (Hib & Hfb & Hdb & Hcb & Hmb & _).
  destruct (re_count s Hs) as [Hc _]. fold n in Hc. destruct (re_window s Hs) as (_ & _ & H0 & _).
  destruct (stage_forward instr cycles Hcy Hls) as [F1 L1].
  destruct (bandwidth_forward InstrFetch _ Hfb) as [F2 L2].
  destruct (bandwidth_forward InstrDispatch _ Hdb) as [F3 L3].
  destruct (bandwidth_forward InstrCommit _ Hcb) as [F4 L4].
  set (mc := if mem_commit_applies s then _ else _).
  assert (Forall (forward st n) mc /\ (List.length mc <= 1)%nat) as [F5 L5].
  { unfold mc, mem_commit_applies. destruct (Z.eqb_spec (lastMemLdSt (book s)) UINT64_MAX) as [|Hne];
      [split; [done|simpl; lia]|]. cbn [negb andb].
    pose proof (bo_mem _ _ _ _ _ (re_book s Hs)) as [|Hmem]; [done|]. fold n in Hmem.
    destruct (_ && _); (split; [|simpl; lia]); [|done].
    apply Forall_singleton, forward_edge; lia || discriminate. }
  set (nn := _ || (mem_commit_applies s && _)).
  destruct (order_forward mispred fetch_cycles nn Hm Hf) as [F6 L6].
  { unfold nn. intros Hnn ->. rewrite Z.sub_diag in Hnn. done. }
  set (ib := if instrBufferSize (params s) <=? n - st then _ else _).
  assert (Forall (forward st n) ib /\ (List.length ib <= 1)%nat) as [F7 L7].
  { unfold ib. destruct (Z.leb_spec (instrBufferSize (params s)) (n - st));
      (split; [|simpl; lia]); [|done].
    rewrite reading_sub by lia. apply Forall_singleton, forward_edge; lia || discriminate. }
  rewrite !Forall_app, !length_app. split; [tauto|lia].
Qed.

Lemma data_forward instr :
  instr_ok instr -> Forall (forward st n) (trackDataDependencies s instr) /\
  (List.length (trackDataDependencies s instr) <= 3)%nat.
Proof using Hs Hn.
  intros Hi. pose proof (io_reads instr Hi) as Hr. unfold trackDataDependencies.
  assert (Hone : forall r, Forall (forward st n) (register_edge s r) /\
    (List.length (register_edge s r) <= 1)%nat).
  { intros r. unfold register_edge. fold n.
    destruct (regLastWrittenBy (book s) !! r) as [[i w]|] eqn:E; [|split; [done|simpl; lia]].
    destruct (bo_regs _ _ _ _ _ (re_book s Hs) r i w E) as [Hi' Hw]. fold n in Hi'.
    destruct (_ <? _); (split; [|simpl; lia]); [|done].
    apply Forall_singleton. destruct (default false _); apply forward_edge; try lia; discriminate. }
  revert Hr. generalize (regRead instr). intros l Hl. split.
  - clear Hl. induction l as [|r l IH]; [done|]. cbn. apply Forall_app. split; [apply Hone|done].
  - transitivity (List.length l); [|done]. clear Hl. induction l as [|r l IH]; [done|].
    change (mjoin (register_edge s <$> r :: l))
      with (register_edge s r ++ mjoin (register_edge s <$> l)).
    rewrite length_app. destruct (Hone r). cbn [List.length]. lia.
Qed.

(** *** Memory order *)

Lemma order_scan_ok k size index load base len :
  size = lq_size z + sq_size z -> 0 <= index < size -> size < 2 ^ 32 ->
  exists r, order_scan k (book s) size index load base len = Ok r /\
    match r with Some (prev, _) => st <= prev < n | None => True end.
Proof using Hs.
  intros Hsz. revert index. induction k as [|k IH]; intros index Hi Hsm; cbn [order_scan];
    [by exists None|].
  destruct (bo_size _ _ _ _ _ (re_book s Hs)) as [L1 L2].
  destruct (lookup_lt_is_Some_2 (ldStWindow (book s)) (Z.to_nat index)) as [[x [pb pl]] Hx]; [lia|].
  destruct (lookup_lt_is_Some_2 (ldStWindowType (book s)) (Z.to_nat index)) as [t Ht]; [lia|].
  rewrite Hx, Ht. destruct (Z.eqb_spec x UINT64_MAX) as [|Hne]; [by exists None|].
  pose proof (bo_window _ _ _ _ _ (re_book s Hs)) as HW.
  pose proof (Forall_lookup_1 _ _ _ _ HW Hx) as [|Hx']; [done|]. cbn in Hx'.
  destruct (_ && _ && _); [by eexists|]. destruct (_ && _); [by eexists|].
  apply IH; [|done]. apply Z.mod_pos_bound. lia.
Qed.

Lemma memory_order_ok instr :
  exists es fwd, modelMemoryOrderConstraint s instr = Ok (es, fwd) /\
    Forall (forward st n) es /\ (List.length es <= 2)%nat.
Proof using Hs Hn.
  unfold modelMemoryOrderConstraint. destruct (lsq_sizes z _ (re_board s Hs)) as [-> ->].
  destruct (re_sizes s Hs) as [HF Hsm]. rewrite !Forall_cons in HF.
  destruct HF as (_ & _ & _ & _ & _ & _ & _ & Hlq & Hsq & _).
  assert (Hu : u32 (lq_size z + sq_size z) = lq_size z + sq_size z) by (apply Z.mod_small; lia).
  rewrite !Hu. set (size := lq_size z + sq_size z) in *. fold n.
  destruct (Z.eqb_spec size 0) as [|_]; [lia|].
  destruct (if negb (memLoadCount instr =? 0) then _ else _) as [base len].
  set (ix := u32 (ldStWindowPointer (book s) + size - memIssueBandwidth (params s)) mod size).
  assert (Hix : 0 <= ix < size) by (apply Z.mod_pos_bound; lia).
  destruct (bo_size _ _ _ _ _ (re_book s Hs)) as [L1 _]. fold size in L1.
  destruct (lookup_lt_is_Some_2 (ldStWindow (book s)) (Z.to_nat ix)) as [[x y] Hx]; [lia|].
  rewrite Hx. pose proof (bo_window _ _ _ _ _ (re_book s Hs)) as HW.
  pose proof (Forall_lookup_1 _ _ _ _ HW Hx) as Hx'. cbn in Hx'. fold n in Hx'.
  set (bw := if x =? UINT64_MAX then _ else _).
  assert (Forall (forward st n) bw /\ (List.length bw <= 1)%nat) as [F1 N1].
  { unfold bw. destruct (Z.eqb_spec x UINT64_MAX); (split; [|simpl; lia]); [done|].
    destruct Hx' as [|Hx']; [done|]. apply Forall_singleton, forward_edge; lia || discriminate. }
  destruct (order_scan_ok (Z.to_nat size) size
    (u32 (ldStWindowPointer (book s) + size - 1) mod size) (negb (memLoadCount instr =? 0))
    base len eq_refl ltac:(apply Z.mod_pos_bound; lia) Hsm) as (r & Hr & Hprev).
  rewrite Hr. cbn [mbind res_bind]. destruct r as [[prev fwd]|]; do 2 eexists;
    (split; [done|]); [|split; [done|lia]].
  rewrite Forall_app, length_app. split; [|simpl; lia]. split; [done|].
  apply Forall_singleton, forward_edge; lia || discriminate.
Qed.
End Instr.

End Window.
