(* ===== verification/CalipersO3Steps.v ===== *)
(** * Reading a window in Calipers

    Every instruction is modelled without leaving the normal path, and the graph
    is exactly the list of edges its steps add. *)

From S2P Require Import Prelude Machine CalipersCache CalipersFacts CalipersCycles CalipersPaths.
From S2P Require Import CalipersScoreboard CalipersScoreFacts CalipersO3 CalipersO3Facts.

#[local] Open Scope list_scope.
#[local] Open Scope Z_scope.

Import CalG CalS CalO.

(** ** The bookkeeping, step by step *)

Section Book.
Context (z : Sizes) (W st n : Z).

Lemma book_ok_mono b n' :
  n <= n' -> (forall i, n <= i < n' -> exists c,
    executionCyclesOf b !! (i mod W) = Some c /\ 0 <= c < UINT32_MAX) ->
  book_ok z W st n b -> book_ok z W st n' b.
Proof.
  intros Hn He [B1 B2 B3 B4 B5 B6 B7 B8]. split; try done.
  - by eapply earlier_mono.
  - intros Hp. specialize (B2 Hp). lia.
  - by eapply earlier_mono.
  - intros r i w Hr. specialize (B4 r i w Hr). lia.
  - eapply Forall_impl; [exact B5|]. intros e. by apply earlier_mono.
  - intros i Hi. destruct (decide (i < n)); [apply B8; lia|apply He; lia].
Qed.

(** Recording the cycles of the current instruction. *)
Lemma book_cycles_ok b ls c :
  0 < W -> 0 <= st -> st mod W = 0 -> st <= n < st + W -> 0 <= c < UINT32_MAX ->
  book_ok z W st n b ->
  let b' := book_cycles b ls (<[n mod W := c]> (executionCyclesOf b)) in
  book_ok z W st n b' /\ executionCyclesOf b' !! (n mod W) = Some c.
Proof.
  intros HW H0 Hm Hn Hc [B1 B2 B3 B4 B5 B6 B7 B8] b'. split; [split; try done|]; cbn.
  - intros i Hi. rewrite lookup_insert_ne; [by apply B8|].
    rewrite !(slot_of W st) by (done || lia). lia.
  - apply lookup_insert_eq.
Qed.

(** After the fetch the book is that of the next instruction. *)
Lemma book_fetch_ok b line prev last c :
  st <= n -> book_ok z W st n b -> executionCyclesOf b !! (n mod W) = Some c -> 0 <= c < UINT32_MAX ->
  earlier st (n + 1) last -> book_ok z W st (n + 1) (book_fetch b line prev last).
Proof.
  intros Hn Hb He Hc Hl.
  apply (book_ok_mono _ (n + 1)) in Hb as [B1 B2 B3 B4 B5 B6 B7 B8]; [|lia|].
  - split; try done. intros _. lia.
  - intros i Hi. replace i with n by lia. eauto.
Qed.

Lemma book_memory_ok b entry t ptr :
  book_ok z W st (n + 1) b -> st <= n -> entry.1 = n ->
  0 <= ptr < lq_size z + sq_size z ->
  book_ok z W st (n + 1)
    (book_memory b n (<[Z.to_nat (ldStWindowPointer b) := entry]> (ldStWindow b))
       (<[Z.to_nat (ldStWindowPointer b) := t]> (ldStWindowType b)) ptr).
Proof.
  intros [B1 B2 B3 B4 B5 B6 B7 B8] Hn He Hp. split; try done; cbn.
  - right. lia.
  - apply Forall_insert; [done|]. right. lia.
  - by rewrite !length_insert.
Qed.

Lemma book_branch_ok b last was lpc :
  book_ok z W st (n + 1) b -> book_ok z W st (n + 1) (book_branch b last was lpc).
Proof. intros []. by split. Qed.

Lemma book_register_ok b r w load :
  st <= n -> 0 <= w < 2 ^ 32 -> book_ok z W st (n + 1) b ->
  book_ok z W st (n + 1) (book_register b r (n, w) load).
Proof.
  intros Hn Hw [B1 B2 B3 B4 B5 B6 B7 B8]. split; try done; cbn.
  intros r' i w'. destruct (decide (r' = r)) as [->|].
  - rewrite lookup_insert_eq. intros [= <- <-]. lia.
  - rewrite lookup_insert_ne by done. apply B4.
Qed.
End Book.

(** ** One instruction *)

Section Model.
Context {CI CD BP : Type} `{!Cache CI} `{!Cache CD} `{!CacheLaws CI} `{!CacheLaws CD}.
Context `{!BranchPredictor BP}.
Notation O3 := (@O3CoreGraph CI CD BP).
Context (z : Sizes) (W st : Z).

Definition option_ok {C} `{CacheLaws C} (o : option C) : Prop :=
  match o with Some c => cache_ok c | None => True end.

(** What the steps below leave alone. *)
Record frame (s s' : O3) : Prop := {
  fr_params : params s' = params s;
  fr_board : scoreboard s' = scoreboard s;
  fr_base : base s' = base s;
  fr_sched : scheduleOrder s' = scheduleOrder s;
  fr_count : instrCount s' = instrCount s;
  fr_windows : analyzedWindows s' = analyzedWindows s;
  fr_icache : option_ok (icache s) -> option_ok (icache s');
  fr_dcache : option_ok (dcache s) -> option_ok (dcache s')
}.

Lemma frame_trans s1 s2 s3 : frame s1 s2 -> frame s2 s3 -> frame s1 s3.
Proof. intros [] []. split; try congruence; auto. Qed.

Lemma frame_reading s s' : frame s s' -> book s' = book s -> reading z W st s -> reading z W st s'.
Proof.
  intros [F1 F2 F3 _ F5 _ _ _] Hb [R1 R2 R3 R4 R5 R6].
  split; unfold window in *; rewrite ?F1, ?F2, ?F3, ?F5, ?Hb; done.
Qed.

Lemma frame_refl s : frame s s.
Proof. by split. Qed.

Lemma predict_frame s instr p s' :
  predict s instr = (p, s') -> frame s s' /\ book s' = book s /\ graph s' = graph s.
Proof.
  unfold predict. destruct (bp s) as [q|]; [|intros [= <- <-]; split_and!; done || apply frame_refl].
  destruct (is_branch instr); [|intros [= <- <-]; split_and!; done || apply frame_refl].
  destruct (mispredicted q (pc instr)) as [m q']. intros [= <- <-]. split_and!; done || by split.
Qed.

Lemma fetch_frame s instr :
  instr_ok instr -> option_ok (icache s) ->
  exists c s', fetch s instr = Ok (c, s') /\ 0 <= c < 2 ^ 30 /\ frame s s' /\
    book s' = book s /\ graph s' = graph s.
Proof.
  intros Hi Hc. unfold fetch. destruct (icache s) as [c|] eqn:E.
  - destruct (_ =? _).
    + exists 0, s. split; [done|]. split; [lia|]. split_and!; done || apply frame_refl.
    + destruct (cache_load_ok c (pc instr) 64 Hc (io_pc _ Hi)) as (k & c' & -> & Hk & Hc').
      cbn [mbind res_bind]. do 2 eexists. split; [done|]. split; [done|].
      split_and!; done || by split.
  - exists (fetchCycles instr), s. split; [done|]. split; [apply Hi|]. split_and!; done || apply frame_refl.
Qed.

Lemma access_frame s instr forward :
  instr_ok instr -> option_ok (dcache s) ->
  exists c s', access_memory s instr forward = Ok (c, s') /\ 0 <= c < 2 ^ 30 /\ frame s s' /\
    book s' = book s /\ graph s' = graph s.
Proof.
  intros Hi Hc. unfold access_memory. destruct (io_bases _ Hi).
  destruct (dcache s) as [c|] eqn:E.
  - destruct (is_load instr); [destruct forward|].
    + exists 0, s. split; [done|]. split; [lia|]. split_and!; done || apply frame_refl.
    + destruct (cache_load_ok c (memLoadBase instr) (memLoadLength instr)) as (k & c' & -> & Hk & Hc');
        [done..|].
      cbn [mbind res_bind]. do 2 eexists. split; [done|]. split; [done|].
      split_and!; done || by split.
    + destruct (cache_store_ok c (memStoreBase instr) (memStoreLength instr))
        as (k & c' & -> & Hk & Hc'); [done..|].
      cbn [mbind res_bind]. do 2 eexists. split; [done|]. split; [done|].
      split_and!; done || by split.
  - exists (i_lsCycles instr), s. split; [done|]. split; [apply Hi|]. split_and!; done || apply frame_refl.
Qed.

Lemma execution_latency_ok (s : O3) instr ls :
  set_up z (scoreboard s) -> 0 <= ls < 2 ^ 30 ->
  0 <= execution_latency s instr ls < 2 ^ 31 /\
  (is_load instr || is_store instr = true -> 1 <= execution_latency s instr ls).
Proof.
  intros Hb Hls. unfold execution_latency. cbn.
  rewrite (lsu_latency z _ Hb), (alu_latency z _ Hb).
  rewrite (latency_mixed z _ Hb RscIntMul RscIntMulDiv 3 true) by reflexivity.
  rewrite (latency_mixed z _ Hb RscIntDiv RscIntMulDiv 20 false) by reflexivity.
  rewrite (latency_mixed z _ Hb RscFpMul RscFpMulDiv 4 true) by reflexivity.
  rewrite (latency_mixed z _ Hb RscFpDiv RscFpMulDiv 12 false) by reflexivity.
  rewrite (latency_plain z _ Hb RscFpAlu (fp_alu_count z) 2 true false) by reflexivity.
  destruct (is_load instr); [unfold u32; rewrite Z.mod_small; lia|].
  destruct (is_store instr); [lia|]. split; [|done].
  destruct (i_executionType instr); lia.
Qed.

(** The graph grew by a list of edges. *)
Definition grown (s s' : O3) (es : list Edge) : Prop :=
  forall k, edge_at (graph s') k = edge_at (graph s) k ++ out_edges (base s) es k.

Lemma addEdges_frame (s : O3) es :
  frame s (addEdges s es) /\ book (addEdges s es) = book s /\ grown s (addEdges s es) es.
Proof.
  destruct (addEdges_spec s es) as (g & -> & Hg). split; [by split|]. split; [done|]. exact Hg.
Qed.

Lemma grown_trans s1 s2 s3 es1 es2 :
  base s2 = base s1 -> grown s1 s2 es1 -> grown s2 s3 es2 -> grown s1 s3 (es1 ++ es2).
Proof. intros Hb H1 H2 k. by rewrite H2, H1, Hb, out_edges_app, <- app_assoc. Qed.

Lemma modelPipeline_ok (s : O3) instr cycles :
  let n := instrCount s in
  reading z W st s -> n < st + W -> instr_ok instr -> option_ok (icache s) ->
  0 <= cycles < 2 ^ 31 -> (is_load instr || is_store instr = true -> 1 <= cycles) ->
  executionCyclesOf (book s) !! (n mod W) = Some cycles ->
  exists es s', modelPipeline s instr cycles = Ok s' /\ frame s s' /\ grown s s' es /\
    Forall (forward st n) es /\ (List.length es <= 12)%nat /\
    book_ok z W st (n + 1) (book s') /\ lsCyclesOf (book s') = lsCyclesOf (book s) /\
    regLastWrittenBy (book s') = regLastWrittenBy (book s) /\
    regLastWrittenByLoad (book s') = regLastWrittenByLoad (book s).
Proof.
  intros n Hr Hn Hi Hc Hcy Hls Hex. unfold modelPipeline.
  destruct (predict s instr) as [previous s1] eqn:Ep.
  destruct (predict_frame _ _ _ _ Ep) as (F1 & B1 & G1).
  set (s1' := set_stats s1 _).
  assert (F1' : frame s s1') by (eapply frame_trans; [exact F1|by split]).
  destruct (fetch_frame s1' instr Hi (fr_icache _ _ F1' Hc)) as (fc & s2 & -> & Hfc & F2 & B2 & G2).
  cbn [mbind res_bind]. set (s2' := set_stats s2 _).
  assert (F2' : frame s s2') by (eapply frame_trans; [exact F1'|eapply frame_trans; [exact F2|by split]]).
  assert (Hb2 : book s2' = book s) by (cbn; rewrite B2; exact B1).
  assert (Hr2 : reading z W st s2') by (by apply (frame_reading s)).
  assert (Hn2 : instrCount s2' = n) by apply F2'.
  destruct (pipeline_forward z W st s2' Hr2 ltac:(lia) instr cycles
    (previousInstrMispredicted (book s)) fc Hcy Hls Hfc) as [FE LE].
  { rewrite Hn2. apply (re_book z W st s Hr). }
  rewrite Hn2 in FE. destruct (re_window z W st s Hr) as (_ & HW & H0 & Hm).
  destruct (re_count z W st s Hr) as [Hc1 Hc2]. fold n in Hc1.
  set (es := pipeline_edges _ _ _ _ _) in *. set (b3 := book_fetch _ _ _ _).
  destruct (addEdges_frame (set_book s2' b3) es) as (F3 & B3 & G3).
  exists es. eexists. split; [reflexivity|]. rewrite B3.
  split; [eapply frame_trans; [exact F2'|eapply frame_trans; [|exact F3]; by split]|].
  split; [intros k; rewrite G3; f_equal;
    [change (edge_at (graph s2) k = edge_at (graph s) k); rewrite G2; unfold s1'; cbn; by rewrite G1|by rewrite <- (fr_base _ _ F2')]|].
  split; [done|]. split; [done|]. cbn [set_book book]. split; [|by rewrite <- Hb2].
  unfold b3.
  rewrite Hb2, Hn2. apply (book_fetch_ok z W st n _ _ _ _ cycles); [lia|apply Hr|done|unfold UINT32_MAX; lia|].
  destruct (previousInstrMispredicted (book s)) eqn:Em.
  - pose proof (bo_prev _ _ _ _ _ (re_book z W st s Hr) Em). right.
    rewrite u64_small by (unfold u64_size; lia). lia.
  - eapply earlier_mono; [|apply (re_book z W st s Hr)]. lia.
Qed.

Lemma record_memory_ok (s : O3) instr ls :
  let n := instrCount s in
  set_up z (scoreboard s) -> sizes_ok z -> st <= n -> book_ok z W st (n + 1) (book s) ->
  exists s', record_memory s instr ls = Ok s' /\ frame s s' /\ graph s' = graph s /\
    book_ok z W st (n + 1) (book s') /\ lsCyclesOf (book s') = lsCyclesOf (book s).
Proof.
  intros n Hb [HF Hsm] Hn Hbk. unfold record_memory.
  destruct (lsq_sizes z _ Hb) as [-> ->]. rewrite !Forall_cons in HF.
  destruct HF as (_ & _ & _ & _ & _ & _ & _ & Hlq & Hsq & _).
  assert (Hu : u32 (lq_size z + sq_size z) = lq_size z + sq_size z) by (apply Z.mod_small; lia).
  rewrite Hu. pose proof (bo_size _ _ _ _ _ Hbk) as [L1 _]. pose proof (bo_ptr _ _ _ _ _ Hbk).
  destruct (Nat.ltb_spec (Z.to_nat (ldStWindowPointer (book s))) (List.length (ldStWindow (book s))));
    [|lia]. destruct (Z.eqb_spec (lq_size z + sq_size z) 0); [lia|]. cbn [negb orb].
  eexists. split; [done|]. split; [by split|]. split; [done|]. split; [|done]. cbn.
  apply book_memory_ok; try done. apply Z.mod_pos_bound. lia.
Qed.

Lemma record_registers_ok (s : O3) instr c :
  let n := instrCount s in
  st <= n -> 0 <= c < 2 ^ 32 -> book_ok z W st (n + 1) (book s) ->
  let s' := record_registers s instr c in
  frame s s' /\ graph s' = graph s /\ book_ok z W st (n + 1) (book s') /\
  lsCyclesOf (book s') = lsCyclesOf (book s).
Proof.
  intros n Hn Hc Hb s'. unfold s', record_registers.
  apply (foldl_inv (fun x => frame s x /\ graph x = graph s /\ book_ok z W st (n + 1) (book x) /\
    lsCyclesOf (book x) = lsCyclesOf (book s))); [split_and!; done || apply frame_refl|].
  intros x r _ (F & G & B & L). split_and!; try done.
  - eapply frame_trans; [exact F|by split].
  - cbn. rewrite (fr_count _ _ F). by apply book_register_ok.
Qed.

(** The state after reading part of a window: [es] are the edges so far, [b0] the
    critical paths the window started from. *)
Record window_inv (b0 : Graph) (es : list Edge) (s : O3) : Prop := {
  wi_reading : reading z W st s;
  wi_ready : ready (scoreboard s);
  wi_edges : Forall (forward st (instrCount s - 1)) es;
  wi_graph : forall k, edge_at (graph s) k = out_edges (base s) es k;
  wi_len : Z.of_nat (List.length es) <= 17 * (instrCount s - st);
  wi_cycles : forall i, st <= i < instrCount s ->
    type_at (base s) i = Load \/ type_at (base s) i = Store ->
    exists c, lsCyclesOf (book s) !! (i mod W) = Some c /\ 0 <= c < UINT32_MAX;
  wi_base : base s = mkGraph W (l2iThreshold b0) (l1dThreshold b0) (l2dThreshold b0)
    (intAluTotalCycles b0) (executionType (base s)) (length b0) (criticalPathCycles b0)
    (criticalPathInstructions b0);
  wi_icache : option_ok (icache s);
  wi_dcache : option_ok (dcache s);
  wi_sched : scheduleOrder s = [];
  wi_windows : analyzedWindows s * W = st
}.

Lemma model_access_ok (s : O3) instr :
  let n := instrCount s in
  reading z W st s -> n < st + W -> instr_ok instr -> option_ok (dcache s) ->
  exists es ls s', model_access s instr = Ok (ls, s') /\ 0 <= ls < 2 ^ 30 /\ frame s s' /\
    book s' = book s /\ grown s s' es /\ Forall (forward st n) es /\ (List.length es <= 2)%nat.
Proof.
  intros n Hr Hn Hi Hdc. unfold model_access.
  assert (exists es fwd, (if load_store instr && bool_decide (is_Some (dcache s))
      then modelMemoryOrderConstraint s instr else Ok ([], false)) = Ok (es, fwd) /\
    Forall (forward st n) es /\ (List.length es <= 2)%nat) as (es & fwd & -> & FE & LE).
  { destruct (_ && _); [by apply (memory_order_ok z W st s Hr)|].
    exists [], false. split_and!; done || (simpl; lia). }
  cbn [mbind res_bind]. destruct (addEdges_frame s es) as (F1 & B1 & G1).
  set (s1 := addEdges s es) in *. exists es.
  destruct (load_store instr).
  - destruct (access_frame s1 instr fwd Hi (fr_dcache _ _ F1 Hdc)) as (ls & s2 & E & Hls & F2 & B2 & G2).
    exists ls, s2. split; [done|]. split; [done|]. split; [by eapply frame_trans|].
    split; [congruence|]. split; [|done]. intros k. by rewrite G2.
  - exists 0, s1. split; [done|]. split; [lia|]. done.
Qed.

Lemma finish_instr_ok (s : O3) instr ls c :
  let n := instrCount s in
  set_up z (scoreboard s) -> sizes_ok z -> st <= n -> 0 <= ls < 2 ^ 30 -> 0 <= c < 2 ^ 31 ->
  book_ok z W st (n + 1) (book s) ->
  exists s', finish_instr s instr ls c = Ok s' /\ frame s s' /\ graph s' = graph s /\
    book_ok z W st (n + 1) (book s') /\ lsCyclesOf (book s') = lsCyclesOf (book s).
Proof.
  intros n Hsu Hsz Hn Hls Hc Hb. unfold finish_instr.
  assert (exists s1, (if load_store instr then record_memory s instr ls else Ok s) = Ok s1 /\
    frame s s1 /\ graph s1 = graph s /\ book_ok z W st (n + 1) (book s1) /\
    lsCyclesOf (book s1) = lsCyclesOf (book s)) as (s1 & -> & F1 & G1 & B1 & L1).
  { destruct (load_store instr); [by apply record_memory_ok|].
    exists s. split_and!; done || apply frame_refl. }
  cbn [mbind res_bind]. set (s2 := set_book s1 _).
  assert (F2 : frame s s2) by (eapply frame_trans; [exact F1|by split]).
  destruct (record_registers_ok s2 instr (if is_load instr then ls else c)) as (F3 & G3 & B3 & L3).
  - by rewrite (fr_count _ _ F2).
  - destruct (is_load instr); lia.
  - rewrite (fr_count _ _ F2). by apply book_branch_ok.
  - rewrite (fr_count _ _ F2) in B3. eexists. split; [done|].
    split; [by eapply frame_trans|]. split; [by rewrite G3|]. split; [exact B3|].
    rewrite L3. exact L1.
Qed.

Lemma model_core (s : O3) instr :
  let n := instrCount s in
  reading z W st s -> n < st + W -> instr_ok instr -> option_ok (icache s) ->
  option_ok (dcache s) ->
  exists es s', model s instr = Ok s' /\ frame (count_instr s instr) s' /\
    grown (count_instr s instr) s' es /\ Forall (forward st n) es /\ (List.length es <= 17)%nat /\
    book_ok z W st (n + 1) (book s') /\
    (if load_store instr
     then exists ls, lsCyclesOf (book s') = <[n mod W := ls]> (lsCyclesOf (book s)) /\ 0 <= ls < 2 ^ 30
     else lsCyclesOf (book s') = lsCyclesOf (book s)).
Proof.
  intros n Hr Hn Hi Hic Hdc. unfold model. set (s0 := count_instr s instr).
  assert (Hr0 : reading z W st s0) by (destruct Hr; by split).
  destruct (re_window z W st s Hr) as (HwW & HW & H0 & Hm).
  destruct (re_count z W st s Hr) as [Hc1 Hc2]. fold n in Hc1.
  destruct (model_access_ok s0 instr Hr0 Hn Hi Hdc) as (es1 & ls & s2 & -> & Hls & F2 & Hb2 & G2 & FE1 & LE1).
  cbn [mbind res_bind]. change (instrCount s0) with n in FE1.
  destruct (execution_latency_ok s2 instr ls) as [Hec Hec1];
    [by rewrite (fr_board _ _ F2); apply Hr|done|]. fold (load_store instr) in Hec1.
  set (ec := execution_latency s2 instr ls) in *.
  set (s3 := record_cycles s2 instr ls ec).
  assert (F3 : frame s0 s3) by (eapply frame_trans; [exact F2|by split]).
  assert (Hn2 : instrCount s2 = n) by apply F2. assert (Hn3 : instrCount s3 = n) by apply F3.
  assert (Hw2 : window s2 = W) by (unfold window; rewrite (fr_base _ _ F2); exact HwW).
  destruct (book_cycles_ok z W st n (book s)
    (if load_store instr then <[n mod W := ls]> (lsCyclesOf (book s)) else lsCyclesOf (book s)) ec)
    as [Hb3 Hex]; try done; [lia|unfold UINT32_MAX; lia|apply Hr|].
  assert (Eb3 : book s3 = book_cycles (book s)
    (if load_store instr then <[n mod W := ls]> (lsCyclesOf (book s)) else lsCyclesOf (book s))
    (<[n mod W := ec]> (executionCyclesOf (book s)))).
  { unfold s3, record_cycles. cbn. by rewrite Hn2, Hw2, Hb2. }
  rewrite <- Eb3 in Hb3, Hex.
  assert (Hr3 : reading z W st s3).
  { destruct F3 as [P1 P2 P3 _ P5 _ _ _], Hr0 as [R1 R2 R3 R4 R5 R6].
    split; unfold window in *; rewrite ?P1, ?P2, ?P3, ?P5; done. }
  destruct (modelPipeline_ok s3 instr ec) as (es2 & s4 & -> & F4 & G4 & FE2 & LE2 & B4 & L4 & W4 & V4);
    rewrite ?Hn3; try done.
  { by apply (fr_icache _ _ F3). }
  cbn [mbind res_bind]. rewrite Hn3 in *.
  assert (Htd : trackDataDependencies s4 instr = trackDataDependencies s3 instr).
  { unfold trackDataDependencies, register_edge.
    by rewrite W4, V4, (fr_count _ _ F4), (fr_params _ _ F4). }
  rewrite Htd. destruct (data_forward z W st s3 Hr3 ltac:(lia) instr Hi) as [FE3 LE3]. rewrite Hn3 in FE3.
  set (es3 := trackDataDependencies s3 instr) in *.
  destruct (addEdges_frame s4 es3) as (F5 & B5 & G5). set (s5 := addEdges s4 es3) in *.
  assert (F05 : frame s0 s5) by (eapply frame_trans; [exact F3|by eapply frame_trans]).
  assert (Hn5 : instrCount s5 = n) by apply F05.
  destruct (finish_instr_ok s5 instr ls ec) as (s6 & -> & F6 & G6 & B6 & L6); rewrite ?Hn5, ?B5 in *;
    try done; [rewrite (fr_board _ _ F05); apply Hr|apply Hr|lia|].
  exists (es1 ++ es2 ++ es3), s6. split; [done|]. split; [by eapply frame_trans|].
  split; [|split; [by rewrite !Forall_app|split; [rewrite !length_app; lia|split; [done|]]]].
  - assert (G35 : grown s3 s6 (es2 ++ es3)).
    { intros k. rewrite G6. by apply (grown_trans s3 s4 s5); [apply F4|done|done]. }
    eapply (grown_trans s0 s3); [apply F3| |exact G35]. exact G2.
  - rewrite L6, L4, Eb3. cbn. destruct (load_store instr); [by exists ls|done].
Qed.

Lemma out_edges_window g g' es k :
  AnalysisWindow g' = AnalysisWindow g -> out_edges g' es k = out_edges g es k.
Proof. intros H. unfold out_edges, VertexKey. by rewrite H. Qed.

(** The next instruction of the window. *)
Definition advance (s : O3) : O3 := set_counts s (u64 (instrCount s + 1)) (analyzedWindows s).

Lemma model_step b0 es (s : O3) instr :
  window_inv b0 es s -> instrCount s < st + W -> instr_ok instr ->
  exists es' s', model s instr = Ok s' /\ window_inv b0 (es ++ es') (advance s') /\
    instrCount (advance s') = instrCount s + 1.
Proof.
  intros [Hr Hrd HE HG HL HC HB Hic Hdc Hs Hw] Hn Hi.
  destruct (model_core s instr Hr Hn Hi Hic Hdc) as (es' & s' & E & F & G & FE & LE & B & L).
  exists es', s'. split; [done|].
  destruct (re_window z W st s Hr) as (HwW & HW & H0 & Hm).
  destruct (re_count z W st s Hr) as [Hc1 Hc2].
  assert (Hn' : instrCount (advance s') = instrCount s + 1).
  { cbn. rewrite (fr_count _ _ F). apply u64_small. unfold u64_size. cbn. lia. }
  split; [|done].
  assert (Hbase : base (advance s') = set_type (base s) (instrCount s) (i_executionType instr))
    by apply F.
  assert (Haw : AnalysisWindow (base s) = W) by exact HwW.
  split; rewrite ?Hn'.
  - destruct Hr as [R1 R2 R3 R4 R5 R6].
    split; rewrite ?Hn'; unfold window; rewrite ?Hbase; try done; [lia|..]; cbn.
    + by rewrite (fr_params _ _ F).
    + by rewrite (fr_board _ _ F).
  - cbn. by rewrite (fr_board _ _ F).
  - rewrite Z.add_simpl_r. apply Forall_app. split; [|done]. eapply Forall_impl; [exact HE|].
    intros pe. apply forward_mono. lia.
  - intros k. rewrite Hbase. cbn [graph advance set_counts]. rewrite G, out_edges_app.
    f_equal. cbn. rewrite HG. by apply out_edges_window.
  - rewrite length_app. lia.
  - intros i Hi'. cbn [book advance set_counts]. unfold type_at. rewrite Hbase. cbn. rewrite Haw.
    destruct (decide (i = instrCount s)) as [->|Hne].
    + rewrite lookup_insert_eq. cbn. intros Ht. unfold load_store in L.
      destruct (is_load instr || is_store instr) eqn:Els.
      * destruct L as (ls & -> & Hls). exists ls. split; [apply lookup_insert_eq|].
        unfold UINT32_MAX. lia.
      * apply orb_false_iff in Els as [El Es]. destruct Ht as [Ht|Ht].
        -- rewrite (io_load _ Hi Ht) in El. done.
        -- rewrite (io_store _ Hi Ht) in Es. done.
    + assert (Hslot : i mod W <> instrCount s mod W)
        by (rewrite !(slot_of W st) by (done || lia); lia).
      rewrite lookup_insert_ne by done. intros Ht.
      destruct (HC i ltac:(lia)) as (c & Hc & Hcr).
      { unfold type_at. rewrite Haw. exact Ht. }
      exists c. split; [|done]. destruct (load_store instr).
      * destruct L as (ls & -> & _). by rewrite lookup_insert_ne.
      * by rewrite L.
  - rewrite Hbase, HB. reflexivity.
  - apply (fr_icache _ _ F Hic).
  - apply (fr_dcache _ _ F Hdc).
  - cbn. by rewrite (fr_sched _ _ F).
  - cbn. by rewrite (fr_windows _ _ F).
Qed.

(** Reading a whole part of the trace. *)
Fixpoint model_all (s : O3) (trace : list Instruction) : res O3 :=
  match trace with
  | [] => Ok s
  | instr :: trace => s ← model s instr; model_all (advance s) trace
  end.

Lemma model_all_ok b0 es (s : O3) trace :
  window_inv b0 es s -> instrCount s + Z.of_nat (List.length trace) <= st + W ->
  Forall instr_ok trace ->
  exists es' s', model_all s trace = Ok s' /\ window_inv b0 (es ++ es') s' /\
    instrCount s' = instrCount s + Z.of_nat (List.length trace).
Proof.
  revert es s. induction trace as [|instr trace IH]; intros es s Hw Hn Hok.
  - exists [], s. rewrite app_nil_r. split; [done|]. split; [done|]. simpl. lia.
  - apply Forall_cons in Hok as [Hi Hok]. cbn [List.length] in Hn.
    destruct (model_step b0 es s instr Hw ltac:(lia) Hi) as (es1 & s1 & E1 & W1 & N1).
    destruct (IH (es ++ es1) (advance s1) W1 ltac:(lia) Hok) as (es2 & s2 & E2 & W2 & N2).
    exists (es1 ++ es2), s2. cbn. rewrite E1. cbn [mbind res_bind]. rewrite app_assoc.
    split; [done|]. split; [done|]. rewrite N2, N1. lia.
Qed.
End Model.
