(* ===== verification/CalipersO3Window.v ===== *)
(** * Analysing a window in Calipers

    The first pass computes longest paths; the schedule lists every instruction
    once, in order; the resource edges follow the scoreboard's specification; both
    passes keep the breakdown. *)

From S2P Require Import Prelude Machine CalipersCache CalipersFacts CalipersCycles CalipersPaths.
From S2P Require Import CalipersScoreboard CalipersScoreFacts CalipersO3 CalipersO3Facts.
From S2P Require Import CalipersO3Steps.

#[local] Open Scope list_scope.
#[local] Open Scope Z_scope.

Import CalG CalS CalO.

(** ** Lists *)

Lemma res_fold_fmap {A B C} (f : A -> B -> res A) (g : C -> B) a l :
  res_fold f a (g <$> l) = res_fold (fun a c => f a (g c)) a l.
Proof.
  revert a. induction l as [|c l IH]; intros a; [done|]. cbn. destruct (f a (g c)); cbn; [|done].
  apply IH.
Qed.

Lemma res_fold_join {A B} (f : A -> B -> res A) a (ll : list (list B)) :
  res_fold (fun a l => res_fold f a l) a ll = res_fold f a (mjoin ll).
Proof.
  revert a. induction ll as [|l ll IH]; intros a; [done|]. cbn.
  change (mjoin (l :: ll)) with (l ++ mjoin ll). rewrite res_fold_app.
  destruct (res_fold f a l); cbn; [apply IH|done].
Qed.

Lemma join_cons {A} (l : list A) ll : mjoin (l :: ll) = l ++ mjoin ll.
Proof. reflexivity. Qed.

(** The members of a list grouped by a key with finitely many values. *)
Lemma group_perm {A K} `{EqDecision K} (f : A -> K) (ks : list K) (l : list A) :
  NoDup ks -> (forall x, x ∈ l -> f x ∈ ks) ->
  mjoin ((fun k => filter (fun x => f x = k) l) <$> ks) ≡ₚ l.
Proof.
  revert l. induction ks as [|k ks IH]; intros l Hn Hk.
  - destruct l as [|x l]; [done|]. specialize (Hk x ltac:(left)). by apply not_elem_of_nil in Hk.
  - apply NoDup_cons in Hn as [Hni Hn].
    change (mjoin ((fun k => filter (fun x => f x = k) l) <$> k :: ks))
      with (filter (fun x => f x = k) l ++ mjoin ((fun k => filter (fun x => f x = k) l) <$> ks)).
    assert (He : (fun k' => filter (fun x => f x = k') l) <$> ks =
                 (fun k' => filter (fun x => f x = k') (filter (fun x => f x <> k) l)) <$> ks).
    { apply list_fmap_ext. intros i k' Hk'. apply list_elem_of_lookup_2 in Hk'.
      clear -Hk' Hni. induction l as [|x l IHl]; [done|].
      rewrite (filter_cons _ x l), (filter_cons (fun x => f x <> k)).
      destruct (decide (f x = k')) as [E|E], (decide (f x <> k)) as [E'|E'];
        rewrite ?filter_cons_True, ?filter_cons_False, <- ?IHl by done; try done.
      exfalso. apply E'. intros Hfk. apply Hni. by rewrite <- Hfk, E. }
    rewrite He, IH; [|done|].
    + clear. induction l as [|x l IHl]; [done|]. rewrite !filter_cons.
      destruct (decide (f x = k)) as [E|E], (decide (f x <> k)) as [E'|E'].
      * by destruct E'.
      * by rewrite <- app_comm_cons, IHl.
      * by rewrite <- Permutation_middle, IHl.
      * by destruct E'.
    + intros x [Hx Hin]%list_elem_of_filter. specialize (Hk x Hin).
      apply elem_of_cons in Hk as [Hfx|]; [by destruct Hx|done].
Qed.

(** ** Vertices of a window *)

Section Keys.
Context (W st : Z) (g : Graph).
Context (HW : 0 < W) (H0 : 0 <= st) (Hm : st mod W = 0) (Hg : AnalysisWindow g = W).

Lemma vt_num_inj t t' : vt_num t = vt_num t' -> t = t'.
Proof. by destruct t, t'. Qed.

(** Within a window the keys of vertices are distinct. *)
Lemma key_inj u v :
  st <= instrNum u < st + W -> st <= instrNum v < st + W ->
  VertexKey g u = VertexKey g v -> u = v.
Proof using HW H0 Hm Hg.
  destruct u as [t i], v as [t' j]. cbn. intros Hi Hj [= Ht Hij].
  rewrite Hg, !(slot_of W st) in Hij by done. apply vt_num_inj in Ht. f_equal; [done|lia].
Qed.

Lemma before_trans u v w : before u v -> before v w -> before u w.
Proof. unfold before. lia. Qed.
Lemma before_irrefl u : ~ before u u.
Proof. unfold before. lia. Qed.
End Keys.

(** The vertices in the order both loops of the first pass visit them. *)
Definition vertices (ns : list Z) : list Vertex :=
  mjoin ((fun i => (fun t => mkVertex t i) <$> all_types) <$> ns).

Lemma vertices_elem ns v : v ∈ vertices ns <-> instrNum v ∈ ns.
Proof.
  unfold vertices. induction ns as [|i ns IH]; [set_solver|].
  change (mjoin _) with (((fun t => mkVertex t i) <$> all_types) ++ vertices ns).
  rewrite elem_of_app, elem_of_cons, list_elem_of_fmap. fold (vertices ns) in IH. rewrite IH.
  split; intros [H|H]; auto.
  - destruct H as (t & -> & _). by left.
  - left. destruct v as [t j]. cbn in H. subst j. exists t. split; [done|].
    destruct t; unfold all_types; set_solver.
Qed.

Lemma vertices_cons i ns :
  vertices (i :: ns) = ((fun t => mkVertex t i) <$> all_types) ++ vertices ns.
Proof. done. Qed.

Lemma vertices_sorted a k : StronglySorted before (vertices (seqZ a (Z.of_nat k))).
Proof.
  revert a. induction k as [|k IH]; intros a; [constructor|].
  rewrite seqZ_cons by lia. replace (Z.pred (Z.of_nat (S k))) with (Z.of_nat k) by lia.
  rewrite vertices_cons.
  assert (Hlt : forall t, Forall (before (mkVertex t a)) (vertices (seqZ (Z.succ a) (Z.of_nat k)))).
  { intros t. apply Forall_forall. intros v Hv. apply vertices_elem, elem_of_seqZ in Hv.
    left. cbn. lia. }
  cbn. repeat (constructor; [|repeat (apply Forall_cons; split; [right; cbn; lia|]); apply Hlt]).
  apply IH.
Qed.

(** ** The schedule *)

Definition sched_lt (x y : Z * Z) : Prop := x.2 < y.2 \/ (x.2 = y.2 /\ x.1 < y.1).

Lemma ScheduleComparison_spec x y : ScheduleComparison x y = true <-> sched_lt x y.
Proof.
  unfold ScheduleComparison, sched_lt. destruct (Z.eqb_spec x.2 y.2); rewrite Z.ltb_lt; lia.
Qed.

Lemma schedule_insert_perm x l : x.1 ∉ l.*1 -> schedule_insert x l ≡ₚ x :: l.
Proof.
  induction l as [|y l IH]; intros Hx; [done|]. cbn in *.
  destruct (ScheduleComparison x y) eqn:E1; [done|].
  destruct (ScheduleComparison y x) eqn:E2.
  - rewrite IH by set_solver. apply Permutation_swap.
  - exfalso. apply Hx, elem_of_cons. left.
    assert (~ sched_lt x y) as N1 by (rewrite <- ScheduleComparison_spec; congruence).
    assert (~ sched_lt y x) as N2 by (rewrite <- ScheduleComparison_spec; congruence).
    unfold sched_lt in *. lia.
Qed.

Lemma schedule_insert_sorted x l :
  x.1 ∉ l.*1 -> StronglySorted sched_lt l -> StronglySorted sched_lt (schedule_insert x l).
Proof.
  intros Hx Hs. induction Hs as [|y l Hl IH Hy]; [repeat constructor|]. cbn in *.
  destruct (ScheduleComparison x y) eqn:E1.
  - apply ScheduleComparison_spec in E1. constructor; [by constructor|].
    apply Forall_cons. split; [done|]. eapply Forall_impl; [exact Hy|].
    unfold sched_lt in *. lia.
  - destruct (ScheduleComparison y x) eqn:E2; [|by constructor].
    apply ScheduleComparison_spec in E2. constructor; [apply IH; set_solver|].
    rewrite schedule_insert_perm by set_solver. by apply Forall_cons.
Qed.

(** ** The first pass *)

Section Pass.
Context {CI CD BP : Type} `{!Cache CI} `{!Cache CD} `{!BranchPredictor BP}.
Notation O3 := (@O3CoreGraph CI CD BP).

(** The edges relaxed when the vertices are visited in turn. *)
Definition visit_edges (s : O3) (vs : list Vertex) : list Edge :=
  mjoin ((fun v => pair v <$> edge_at (graph s) (VertexKey (base s) v)) <$> vs).

(** What the passes leave alone. *)
Record passes (s s' : O3) : Prop := {
  ps_params : params s' = params s;
  ps_board : scoreboard s' = scoreboard s;
  ps_book : book s' = book s;
  ps_stats : stats s' = stats s;
  ps_graph : graph s' = graph s;
  ps_counts : instrCount s' = instrCount s /\ analyzedWindows s' = analyzedWindows s;
  ps_caches : icache s' = icache s /\ dcache s' = dcache s /\ bp s' = bp s;
  ps_config : same_config (base s) (base s')
}.

Lemma passes_trans s1 s2 s3 : passes s1 s2 -> passes s2 s3 -> passes s1 s3.
Proof.
  intros [] []. split; try congruence; [split; intuition congruence|intuition congruence|].
  by eapply same_config_trans.
Qed.

Lemma same_config_refl g : same_config g g.
Proof. done. Qed.

Lemma passes_refl s : passes s s.
Proof. by split. Qed.

Lemma visit_edges_same s s' vs : passes s s' -> visit_edges s' vs = visit_edges s vs.
Proof.
  intros Hp. unfold visit_edges. f_equal. apply list_fmap_ext. intros _ v _.
  by rewrite (ps_graph _ _ Hp), (same_config_key _ _ _ (ps_config _ _ Hp)).
Qed.

Lemma relax_vertex_eq (s : O3) v :
  relax_vertex s v = (b ← relax_all (base s) (visit_edges s [v]); Ok (set_base s b)).
Proof.
  unfold relax_vertex, relax_all, visit_edges. cbn. by rewrite app_nil_r, res_fold_fmap.
Qed.

Lemma relax_all_app g es es' :
  relax_all g (es ++ es') = (g' ← relax_all g es; relax_all g' es').
Proof. apply res_fold_app. Qed.

Lemma cost_app p q : cost (p ++ q) = cost p + cost q.
Proof.
  unfold cost. induction p as [|x p IH]; cbn; [done|]. unfold sum_z, fmap in *. lia.
Qed.

Definition edges_ok (g : Graph) (es : list Edge) : Prop :=
  Forall (fun pe => exists w, edge_ok g pe.1 pe.2 w /\ w < INT64_MAX) es.

Lemma edges_ok_same g g' es : same_config g g' -> edges_ok g es -> edges_ok g' es.
Proof.
  intros Hs Hok. eapply Forall_impl; [exact Hok|]. intros pe (w & ? & ?). exists w. split; [|done].
  by eapply same_config_edge.
Qed.

Lemma link_of_same g g' (es : list Edge) : same_config g g' -> link_of g' <$> es = link_of g <$> es.
Proof.
  intros Hs. apply list_fmap_ext. intros _ x _. unfold link_of. by rewrite !(same_config_key g g').
Qed.

Lemma cost_nonneg g es : edges_ok g es -> 0 <= cost (link_of g <$> es).
Proof.
  induction es as [|x es IH]; intros Hok; [done|].
  apply Forall_cons in Hok as [(w & (E & ? & _) & _) Hok]. specialize (IH Hok).
  unfold cost in *. cbn. rewrite E. cbn. unfold sum_z, fmap in *. lia.
Qed.

(** A state whose paths have a bounded length and a complete breakdown. *)
Record sound (n B : Z) (g : Graph) : Prop := {
  so_config : config_ok g;
  so_balanced : balanced n g;
  so_bound : forall k, lane (length_at g k) <= B;
  so_pos : 0 <= B
}.

Lemma relax_sound g es n B :
  sound n B g -> edges_ok g es -> B + cost (link_of g <$> es) <= INT64_MAX ->
  n + Z.of_nat (List.length es) <= INT64_MAX ->
  exists g', relax_all g es = Ok g' /\ same_config g g' /\
    sound (n + Z.of_nat (List.length es)) (B + cost (link_of g <$> es)) g' /\
    (forall k, lane (length_at g k) <= lane (length_at g' k)) /\
    (forall ls, link_of g <$> es ⊆ ls -> attained ls g -> attained ls g').
Proof.
  intros [S1 S2 S3 S4] Hok Hb Hn.
  destruct (relax_all_bounded g es n B S1 S2 S3 S4 Hok Hb Hn) as (g' & E & C & B' & L & A).
  exists g'. split; [done|]. split; [done|]. split.
  - split; [by eapply same_config_ok|done|intros k; apply L|].
    pose proof (cost_nonneg _ _ Hok). lia.
  - split; [|done]. intros k. apply L.
Qed.

Lemma sound_lane n B g k : sound n B g -> exists x, length_at g k = [x] /\ 0 <= x <= B.
Proof.
  intros [_ Hb Hl _]. destruct (bal_length _ _ Hb k) as (x & Hx & ?). exists x.
  specialize (Hl k). rewrite Hx in Hl. done.
Qed.

(** Visiting one vertex of the first pass. *)
Lemma schedule_vertex_ok (s : O3) v n B :
  let es := visit_edges s [v] in
  sound n B (base s) -> edges_ok (base s) es ->
  B + cost (link_of (base s) <$> es) <= INT64_MAX -> n + Z.of_nat (List.length es) <= INT64_MAX ->
  exists s', schedule_vertex s (instrNum v) (type v) = Ok s' /\ passes s s' /\
    relax_all (base s) es = Ok (base s') /\
    sound (n + Z.of_nat (List.length es)) (B + cost (link_of (base s) <$> es)) (base s') /\
    scheduleOrder s' = (if decide (type v = InstrExecute)
      then schedule_insert (instrNum v, lane (length_at (base s) (VertexKey (base s) v)))
             (scheduleOrder s) else scheduleOrder s).
Proof.
  intros es Hs Hok Hb Hn.
  destruct (relax_sound _ _ _ _ Hs Hok Hb Hn) as (g' & E & C & S' & _).
  unfold schedule_vertex. replace (mkVertex (type v) (instrNum v)) with v by (by destruct v).
  destruct (decide (type v = InstrExecute)).
  - destruct (sound_lane _ _ _ (VertexKey (base s) v) Hs) as (x & Hx & _). rewrite Hx. cbn [mbind res_bind Vector_get].
    cbn. rewrite relax_vertex_eq. cbn [base set_schedule].
    change (visit_edges (set_schedule s _) [v]) with es. rewrite E. cbn.
    eexists. split; [done|]. split; [by split|]. done.
  - cbn [mbind res_bind]. rewrite relax_vertex_eq. fold es. rewrite E. cbn.
    eexists. split; [done|]. split; [by split|]. done.
Qed.
End Pass.

(** ** Visiting the vertices in turn *)

Section Visit.
Context {CI CD BP : Type} `{!Cache CI} `{!Cache CD} `{!BranchPredictor BP}.
Notation O3 := (@O3CoreGraph CI CD BP).

Definition execs (vs : list Vertex) : list Z :=
  instrNum <$> filter (fun v => type v = InstrExecute) vs.

Lemma visit_edges_cons (s : O3) v vs :
  visit_edges s (v :: vs) = visit_edges s [v] ++ visit_edges s vs.
Proof. unfold visit_edges. cbn. by rewrite app_nil_r. Qed.

Lemma execs_cons v vs :
  execs (v :: vs) = (if decide (type v = InstrExecute) then [instrNum v] else []) ++ execs vs.
Proof.
  unfold execs. rewrite filter_cons. by case_decide.
Qed.

Lemma visit_vertices_ok (s : O3) vs n B :
  let es := visit_edges s vs in
  sound n B (base s) -> edges_ok (base s) es ->
  B + cost (link_of (base s) <$> es) <= INT64_MAX -> n + Z.of_nat (List.length es) <= INT64_MAX ->
  NoDup (execs vs ++ (scheduleOrder s).*1) -> StronglySorted sched_lt (scheduleOrder s) ->
  exists s', res_fold (fun s v => schedule_vertex s (instrNum v) (type v)) s vs = Ok s' /\
    passes s s' /\ relax_all (base s) es = Ok (base s') /\
    sound (n + Z.of_nat (List.length es)) (B + cost (link_of (base s) <$> es)) (base s') /\
    (scheduleOrder s').*1 ≡ₚ execs vs ++ (scheduleOrder s).*1 /\
    StronglySorted sched_lt (scheduleOrder s').
Proof.
  revert s n B. induction vs as [|v vs IH]; intros s n B es Hs Hok Hb Hn Hnd Hso.
  - exists s. unfold es, visit_edges. cbn. rewrite !Z.add_0_r. split; [done|].
    split; [apply passes_refl|]. done.
  - subst es. cbn beta in *. rewrite visit_edges_cons in *.
    set (e1 := visit_edges s [v]) in *. set (e2 := visit_edges s vs) in *.
    rewrite fmap_app, cost_app in *. rewrite length_app in *.
    apply Forall_app in Hok as [Hok1 Hok2].
    pose proof (cost_nonneg _ _ Hok1). pose proof (cost_nonneg _ _ Hok2).
    destruct (schedule_vertex_ok s v n B Hs Hok1 ltac:(fold e1; lia) ltac:(fold e1; lia))
      as (s1 & E1 & P1 & R1 & S1 & O1).
    fold e1 in R1, S1. cbn [res_fold]. rewrite E1. cbn [mbind res_bind].
    pose proof (visit_edges_same s s1 vs P1) as HV. fold e2 in HV.
    pose proof (link_of_same _ _ e2 (ps_config _ _ P1)) as HL.
    rewrite execs_cons in *.
    assert (Hsch : (scheduleOrder s1).*1 ≡ₚ
      (if decide (type v = InstrExecute) then [instrNum v] else []) ++ (scheduleOrder s).*1 /\
      StronglySorted sched_lt (scheduleOrder s1)).
    { rewrite O1. case_decide; [|done].
      assert (instrNum v ∉ (scheduleOrder s).*1).
      { cbn in Hnd. apply NoDup_cons in Hnd as [Hni _]. set_solver. }
      split; [|by apply schedule_insert_sorted]. by rewrite schedule_insert_perm. }
    destruct Hsch as [Hp1 Hso1].
    destruct (IH s1 (n + Z.of_nat (List.length e1)) (B + cost (link_of (base s) <$> e1)))
      as (s2 & E2 & P2 & R2 & S2 & O2 & Q2); rewrite ?HV, ?HL in *.
    + done.
    + eapply edges_ok_same; [apply P1|done].
    + lia.
    + lia.
    + rewrite Hp1. eapply NoDup_Permutation_proper; [|exact Hnd].
      rewrite <- !app_assoc. apply Permutation_app_swap_app.
    + done.
    + exists s2. split; [done|]. split; [by eapply passes_trans|]. split.
      * by rewrite relax_all_app, R1.
      * split; [by rewrite Nat2Z.inj_add, !Z.add_assoc|]. split; [|done].
        rewrite O2, Hp1, <- app_assoc. apply Permutation_app_swap_app.
Qed.

(** The loops of the first pass, flattened. *)
Lemma first_pass_visits (s : O3) :
  calculateCriticalPathForScheduling s =
  res_fold (fun s v => schedule_vertex s (instrNum v) (type v)) s (vertices (window_instrs s)).
Proof.
  unfold calculateCriticalPathForScheduling, vertices. rewrite <- res_fold_join, res_fold_fmap.
  reflexivity.
Qed.
End Visit.

#[global] Instance Vertex_eq_dec : EqDecision Vertex.
Proof. solve_decision. Defined.

Lemma forward_ok g st n es :
  intAluTotalCycles g = 1 -> Forall (forward st n) es -> edges_ok g es.
Proof.
  intros Ha Hf. eapply Forall_impl; [exact Hf|]. intros pe [_ _ _ (w & Hw & Hr & Hb)].
  exists w. split; [|unfold INT64_MAX; lia]. split; [done|]. split; [unfold INT64_MAX; lia|].
  intros H1 H2. rewrite Ha. by apply Hb.
Qed.

Lemma forward_cost g st n es :
  Forall (forward st n) es -> cost (link_of g <$> es) <= 2 ^ 32 * Z.of_nat (List.length es).
Proof.
  induction es as [|pe es IH]; intros Hf; [done|]. apply Forall_cons in Hf as [[_ _ _ (w & Hw & Hr & _)] Hf].
  specialize (IH Hf). unfold cost in *. cbn. rewrite Hw. cbn. unfold sum_z, fmap in *. lia.
Qed.

(** Visiting every vertex of a window relaxes each of its edges once. *)
Lemma visit_all {CI CD BP} (s : @O3CoreGraph CI CD BP) W st n es :
  0 < W -> 0 <= st -> st mod W = 0 -> AnalysisWindow (base s) = W -> st <= n <= st + W ->
  (forall k, edge_at (graph s) k = out_edges (base s) es k) ->
  (forall pe, pe ∈ es -> st <= instrNum pe.1 < n) ->
  visit_edges s (vertices (seqZ st (n - st))) ≡ₚ es.
Proof.
  intros HW H0 Hm Ha Hn Hg Hin. set (vs := vertices (seqZ st (n - st))).
  assert (Hv : forall v, v ∈ vs <-> st <= instrNum v < n).
  { intros v. unfold vs. rewrite vertices_elem, elem_of_seqZ. lia. }
  etransitivity; [|apply (group_perm fst vs es)].
  - enough (He : visit_edges s vs = mjoin ((fun v => filter (fun pe => pe.1 = v) es) <$> vs))
      by (by rewrite He).
    unfold visit_edges. f_equal. apply list_fmap_ext. intros i v Hi.
    apply list_elem_of_lookup_2, Hv in Hi. rewrite Hg. unfold out_edges.
    clear -Hin Hi HW H0 Hm Ha Hn. induction es as [|pe l IH]; [done|].
    assert (Hiff : VertexKey (base s) pe.1 = VertexKey (base s) v <-> pe.1 = v).
    { split; [|by intros ->]. specialize (Hin pe ltac:(left)).
      apply (key_inj W st); done || lia. }
    rewrite !filter_cons. destruct (decide (pe.1 = v)) as [E|E].
    + rewrite decide_True by (by apply Hiff). cbn. f_equal; [by destruct pe; cbn in *; subst|].
      apply IH. intros x Hx. apply Hin. by right.
    + rewrite decide_False by (by rewrite Hiff). apply IH. intros x Hx. apply Hin. by right.
  - unfold vs. replace (n - st) with (Z.of_nat (Z.to_nat (n - st))) by lia.
    assert (Hsrt := vertices_sorted st (Z.to_nat (n - st))).
    clear -Hsrt. induction Hsrt as [|v l Hvs IH Hv]; constructor; [|done].
    intros Hin. rewrite Forall_forall in Hv. by apply (before_irrefl v), Hv.
  - intros pe Hpe. apply Hv. by apply Hin.
Qed.

Section FirstPass.
Context {CI CD BP : Type} `{!Cache CI} `{!Cache CD} `{!CacheLaws CI} `{!CacheLaws CD}.
Context `{!BranchPredictor BP}.
Notation O3 := (@O3CoreGraph CI CD BP).
Context (z : Sizes) (W st : Z) (b0 : Graph) (es : list Edge) (s : O3).
Context (Hw : window_inv z W st b0 es s).
Let n := instrCount s.

Lemma window_facts : 0 < W /\ 0 <= st /\ st mod W = 0 /\ AnalysisWindow (base s) = W /\
  st <= n <= st + W.
Proof using Hw.
  destruct (re_window _ _ _ _ (wi_reading _ _ _ _ _ _ Hw)) as (H1 & H2 & H3 & H4).
  destruct (re_count _ _ _ _ (wi_reading _ _ _ _ _ _ Hw)) as [H5 _]. done.
Qed.

Lemma window_instrs_eq : window_instrs s = seqZ st (Z.of_nat (Z.to_nat (n - st))).
Proof using Hw.
  destruct window_facts as (_ & _ & _ & Ha & Hn). unfold window_instrs, window.
  rewrite Ha, (wi_windows _ _ _ _ _ _ Hw), Z2Nat.id by lia. done.
Qed.

Lemma window_vertex v : v ∈ vertices (window_instrs s) <-> st <= instrNum v < n.
Proof using Hw.
  destruct window_facts as (_ & _ & _ & _ & Hn).
  rewrite vertices_elem, window_instrs_eq, elem_of_seqZ. lia.
Qed.

(** An edge of the window joins two of its vertices. *)
Lemma edge_inside pe : pe ∈ es ->
  st <= instrNum pe.1 < n /\ st <= instrNum (child pe.2) < n /\ before pe.1 (child pe.2).
Proof using Hw.
  intros Hin. pose proof (wi_edges _ _ _ _ _ _ Hw) as HF. rewrite Forall_forall in HF.
  destruct (HF pe Hin) as [F1 F2 F3 _]. fold n in F3. unfold before in F2. split_and!; try lia. done.
Qed.

(** The edges relaxed are the edges of the window, each once. *)
Lemma visit_perm : visit_edges s (vertices (window_instrs s)) ≡ₚ es.
Proof using Hw.
  destruct window_facts as (HW & H0 & Hm & Ha & Hn).
  rewrite window_instrs_eq, Z2Nat.id by lia.
  apply (visit_all s W st n es); try done; [apply (wi_graph _ _ _ _ _ _ Hw)|].
  intros pe Hin. by destruct (edge_inside pe Hin).
Qed.

(** And they are relaxed in a topological order. *)
Lemma visit_in_order :
  in_order (link_of (base s) <$> visit_edges s (vertices (window_instrs s))).
Proof using Hw.
  destruct window_facts as (HW & H0 & Hm & Ha & Hn).
  assert (Hsrt : StronglySorted before (vertices (window_instrs s)))
    by (rewrite window_instrs_eq; apply vertices_sorted).
  assert (Hin : forall pe, pe ∈ visit_edges s (vertices (window_instrs s)) ->
    st <= instrNum pe.1 < n /\ st <= instrNum (child pe.2) < n /\ before pe.1 (child pe.2))
    by (intros pe Hpe; apply edge_inside; by rewrite <- visit_perm).
  assert (Hord : forall i j a b, visit_edges s (vertices (window_instrs s)) !! i = Some a ->
    visit_edges s (vertices (window_instrs s)) !! j = Some b -> (i <= j)%nat ->
    a.1 = b.1 \/ before a.1 b.1).
  { clear Hin. induction Hsrt as [|v vs Hvs IH Hv]; [intros i j a b Hi;
      change (visit_edges s []) with (@nil Edge) in Hi; by rewrite lookup_nil in Hi|].
    rewrite visit_edges_cons. intros i j a b Hi Hj Hij.
    assert (Hfst : forall pe, pe ∈ visit_edges s [v] -> pe.1 = v).
    { unfold visit_edges. cbn. rewrite app_nil_r. intros pe (e & -> & _)%list_elem_of_fmap. done. }
    assert (Hrest : forall pe, pe ∈ visit_edges s vs -> before v pe.1).
    { intros pe Hpe. rewrite Forall_forall in Hv. apply Hv. unfold visit_edges in Hpe.
      apply list_elem_of_join in Hpe as (l & Hpe & (u & -> & Hu)%list_elem_of_fmap).
      apply list_elem_of_fmap in Hpe as (e & -> & _). done. }
    apply lookup_app_Some in Hi as [Hi|[Hi1 Hi]]; apply lookup_app_Some in Hj as [Hj|[Hj1 Hj]].
    - left. apply list_elem_of_lookup_2 in Hi, Hj. by rewrite (Hfst a Hi), (Hfst b Hj).
    - right. apply list_elem_of_lookup_2 in Hi, Hj. rewrite (Hfst a Hi). by apply Hrest.
    - apply lookup_lt_Some in Hj. lia.
    - eapply IH; [exact Hi|exact Hj|lia]. }
  intros i j a b Hi Hj Hij. rewrite list_lookup_fmap in Hi, Hj.
  apply fmap_Some in Hi as (pa & Ea & ->). apply fmap_Some in Hj as (pb & Eb & ->).
  cbn. intros Hk.
  specialize (Hord i j pa pb Ea Eb Hij).
  apply list_elem_of_lookup_2, Hin in Ea as (A1 & _ & _).
  apply list_elem_of_lookup_2, Hin in Eb as (_ & B2 & B3).
  apply (key_inj W st) in Hk; [|done|done|done|done|lia|lia].
  rewrite <- Hk in B3. destruct Hord as [Ho|Ho].
  - rewrite Ho in B3. by apply before_irrefl in B3.
  - apply (before_irrefl pa.1). by eapply before_trans.
Qed.
End FirstPass.

(** ** The lengths in the schedule *)

Section Schedule.
Context {CI CD BP : Type} `{!Cache CI} `{!Cache CD} `{!BranchPredictor BP}.
Notation O3 := (@O3CoreGraph CI CD BP).

Lemma schedule_insert_elem x y l : y ∈ schedule_insert x l -> y = x \/ y ∈ l.
Proof.
  induction l as [|w l IH]; cbn; [set_solver|].
  destruct (ScheduleComparison x w); [set_solver|].
  destruct (ScheduleComparison w x); [|set_solver].
  intros [->|H]%elem_of_cons; [set_solver|]. destruct (IH H); set_solver.
Qed.

Lemma relax_all_window g es g' : relax_all g es = Ok g' -> AnalysisWindow g' = AnalysisWindow g.
Proof.
  revert g. induction es as [|pe es IH]; intros g H; [by injection H as <-|].
  cbn in H. apply res_bind_inv in H as (g1 & H1 & H). rewrite (IH g1 H).
  apply (update_other _ _ _ _ (-1, 0)) in H1 as [_ H1]; [done|].
  intros E. pose proof (f_equal fst E) as E'. cbn in E'. by destruct (type (child pe.2)).
Qed.

Lemma schedule_vertex_inv (s s1 : O3) v :
  schedule_vertex s (instrNum v) (type v) = Ok s1 ->
  relax_all (base s) (visit_edges s [v]) = Ok (base s1) /\ graph s1 = graph s /\
  forall x, x ∈ scheduleOrder s1 -> x ∈ scheduleOrder s \/
    (type v = InstrExecute /\ x = (instrNum v, lane (length_at (base s) (VertexKey (base s) v)))).
Proof.
  unfold schedule_vertex. replace (mkVertex (type v) (instrNum v)) with v by (by destruct v).
  destruct (decide (type v = InstrExecute)) as [Ht|Ht]; intros H.
  - apply res_bind_inv in H as (s0 & H0 & H). apply res_bind_inv in H0 as (len & Hl & H0).
    apply Ok_inj in H0. subst s0. rewrite relax_vertex_eq in H.
    apply res_bind_inv in H as (b & Hb & H). apply Ok_inj in H. subst s1. cbn in *.
    split; [done|]. split; [done|]. intros x Hx. apply schedule_insert_elem in Hx as [->|Hx]; [|auto].
    right. split; [done|]. f_equal. unfold Vector_get in Hl.
    destruct (length_at _ _) as [|y l]; [done|]. by injection Hl.
  - cbn [mbind res_bind] in H. rewrite relax_vertex_eq in H.
    apply res_bind_inv in H as (b & Hb & H). apply Ok_inj in H. subst s1. cbn. auto.
Qed.

(** What is scheduled with a vertex is the length its path has in the end. *)
Lemma visit_lengths (s s' : O3) vs :
  (forall vs1 v vs2, vs = vs1 ++ v :: vs2 ->
     Forall (fun pe => VertexKey (base s) (child pe.2) <> VertexKey (base s) v)
       (visit_edges s (v :: vs2))) ->
  res_fold (fun s v => schedule_vertex s (instrNum v) (type v)) s vs = Ok s' ->
  relax_all (base s) (visit_edges s vs) = Ok (base s') /\
  forall x, x ∈ scheduleOrder s' -> x ∈ scheduleOrder s \/
    exists v, v ∈ vs /\ type v = InstrExecute /\
      x = (instrNum v, lane (length_at (base s') (VertexKey (base s) v))).
Proof.
  revert s. induction vs as [|v vs IH]; intros s Ho H.
  - injection H as <-. split; [done|]. auto.
  - cbn in H. apply res_bind_inv in H as (s1 & H1 & H).
    destruct (schedule_vertex_inv s s1 v H1) as (R1 & G1 & S1).
    assert (Hk : forall u, VertexKey (base s1) u = VertexKey (base s) u).
    { intros u. unfold VertexKey. by rewrite (relax_all_window _ _ _ R1). }
    assert (HV : forall l, visit_edges s1 l = visit_edges s l).
    { intros l. unfold visit_edges. f_equal. apply list_fmap_ext. intros _ u _. by rewrite G1, Hk. }
    destruct (IH s1) as (R2 & S2); [|done|].
    { intros vs1 u vs2 ->. rewrite HV, Hk. eapply Forall_impl; [apply (Ho (v :: vs1)); done|].
      intros pe. by rewrite Hk. }
    rewrite HV in R2.
    assert (R : relax_all (base s) (visit_edges s (v :: vs)) = Ok (base s'))
      by (by rewrite visit_edges_cons, relax_all_app, R1).
    split; [done|]. intros x Hx. destruct (S2 x Hx) as [Hx1|(u & Hu & Ht & ->)].
    + destruct (S1 x Hx1) as [|[Ht ->]]; [auto|]. right. exists v. split; [left|].
      split; [done|]. do 2 f_equal. symmetry.
      by apply (relax_all_other _ _ _ _ R), (Ho [] v vs).
    + right. exists u. split; [by right|]. split; [done|]. by rewrite Hk.
Qed.
End Schedule.

Lemma execs_vertices ns : execs (vertices ns) = ns.
Proof.
  unfold execs. induction ns as [|i ns IH]; [done|]. rewrite vertices_cons, filter_app, fmap_app, IH.
  reflexivity.
Qed.

(** ** The first pass *)

Section FirstPassOk.
Context {CI CD BP : Type} `{!Cache CI} `{!Cache CD} `{!CacheLaws CI} `{!CacheLaws CD}.
Context `{!BranchPredictor BP}.
Notation O3 := (@O3CoreGraph CI CD BP).
Context (z : Sizes) (W st : Z) (b0 : Graph) (es : list Edge) (s : O3).
Context (Hw : window_inv z W st b0 es s).
Let n := instrCount s.

Definition exec_key (g : Graph) (i : Z) : key := VertexKey g (mkVertex InstrExecute i).

(** The schedule: every instruction of the window once, in the order of the
    length of the path to its execution, then of its number. *)
Record scheduled (g : Graph) (l : list (Z * Z)) : Prop := {
  sc_all : l.*1 ≡ₚ seqZ st (n - st);
  sc_sorted : StronglySorted sched_lt l;
  sc_length : Forall (fun x => x.2 = lane (length_at g (exec_key g x.1))) l
}.

Lemma visit_cost g :
  cost (link_of g <$> visit_edges s (vertices (window_instrs s))) = cost (link_of g <$> es) /\
  List.length (visit_edges s (vertices (window_instrs s))) = List.length es.
Proof using Hw.
  pose proof (visit_perm z W st b0 es s Hw) as Hp. split; [|by rewrite Hp].
  apply cost_perm. by rewrite Hp.
Qed.

(** Once a vertex is visited no edge into it is left. *)
Lemma visit_ahead vs1 v vs2 :
  vertices (window_instrs s) = vs1 ++ v :: vs2 ->
  Forall (fun pe => VertexKey (base s) (child pe.2) <> VertexKey (base s) v)
    (visit_edges s (v :: vs2)).
Proof using Hw.
  intros Hvs. destruct (window_facts z W st b0 es s Hw) as (HW & H0 & Hm & Haw & Hcn).
  assert (Hsrt : StronglySorted before (v :: vs2)).
  { apply (StronglySorted_app_1_r before vs1). rewrite <- Hvs, (window_instrs_eq z W st b0 es s Hw).
    apply vertices_sorted. }
  apply StronglySorted_inv in Hsrt as [_ Hv]. rewrite Forall_forall in Hv.
  apply Forall_forall. intros pe Hpe Hk.
  assert (Hfst : pe.1 = v \/ before v pe.1).
  { unfold visit_edges in Hpe.
    apply list_elem_of_join in Hpe as (l & Hpe & (u & -> & Hu)%list_elem_of_fmap).
    apply list_elem_of_fmap in Hpe as (e & -> & _). cbn.
    apply elem_of_cons in Hu as [->|Hu]; auto. }
  assert (Hin : pe ∈ es).
  { rewrite <- (visit_perm z W st b0 es s Hw), Hvs. unfold visit_edges.
    rewrite fmap_app, join_app. apply elem_of_app. by right. }
  assert (Hvn : st <= instrNum v < n).
  { apply (window_vertex z W st b0 es s Hw). rewrite Hvs. set_solver. }
  destruct (edge_inside z W st b0 es s Hw pe Hin) as (_ & Hc & Hb). fold n in Hc, Hcn.
  apply (key_inj W st) in Hk; [|done|done|done|done|lia|lia]. subst v.
  destruct Hfst as [E|E]; [rewrite E in Hb; by apply before_irrefl in Hb|].
  apply (before_irrefl pe.1). by eapply before_trans.
Qed.

Lemma first_pass_ok m B :
  sound m B (base s) -> intAluTotalCycles (base s) = 1 ->
  B + cost (link_of (base s) <$> es) <= INT64_MAX -> m + Z.of_nat (List.length es) <= INT64_MAX ->
  exists s', calculateCriticalPathForScheduling s = Ok s' /\ passes s s' /\
    sound (m + Z.of_nat (List.length es)) (B + cost (link_of (base s) <$> es)) (base s') /\
    scheduled (base s') (scheduleOrder s') /\
    (fresh (base s) -> longest (link_of (base s) <$> es) (fun k => lane (length_at (base s') k))).
Proof using Hw.
  intros Hs Ha Hb Hn. rewrite first_pass_visits.
  set (vs := vertices (window_instrs s)).
  destruct (window_facts z W st b0 es s Hw) as (HW & H0 & Hm & Haw & Hcn). fold n in Hcn.
  pose proof (visit_perm z W st b0 es s Hw) as Hp. fold vs in Hp.
  destruct (visit_cost (base s)) as [Hcost Hlen]. fold vs in Hcost, Hlen.
  assert (Hok : edges_ok (base s) (visit_edges s vs)).
  { unfold edges_ok. rewrite Hp. eapply forward_ok; [done|apply (wi_edges _ _ _ _ _ _ Hw)]. }
  assert (Hws : window_instrs s = seqZ st (n - st)).
  { rewrite (window_instrs_eq z W st b0 es s Hw). fold n. by rewrite Z2Nat.id by lia. }
  assert (Hnd : NoDup (execs vs ++ (scheduleOrder s).*1)).
  { unfold vs. rewrite execs_vertices, (wi_sched _ _ _ _ _ _ Hw), app_nil_r, Hws. apply NoDup_seqZ. }
  destruct (visit_vertices_ok s vs m B Hs Hok) as (s' & E & P & R & S' & O & Q);
    rewrite ?Hcost, ?Hlen in *; try done.
  { rewrite (wi_sched _ _ _ _ _ _ Hw). constructor. }
  exists s'. split; [done|]. split; [done|]. split; [done|].
  destruct (visit_lengths s s' vs) as [_ HL]; [|done|].
  { intros vs1 v vs2. apply visit_ahead. }
  split.
  - split; [|done|].
    + rewrite O, (wi_sched _ _ _ _ _ _ Hw), app_nil_r. unfold vs. by rewrite execs_vertices, Hws.
    + apply Forall_forall. intros x Hx. destruct (HL x Hx) as [Hx'|(v & _ & Ht & ->)].
      * rewrite (wi_sched _ _ _ _ _ _ Hw) in Hx'. by apply not_elem_of_nil in Hx'.
      * cbn. unfold exec_key. rewrite (same_config_key _ _ _ (ps_config _ _ P)).
        do 3 f_equal. destruct v; cbn in *; by subst.
  - intros Hf. destruct (relax_all_longest (base s) (visit_edges s vs)) as (g' & R' & _ & _ & HLo);
      rewrite ?Hcost, ?Hlen; try done; [apply Hs|pose proof (so_pos _ _ _ Hs); lia| |
        apply (visit_in_order z W st b0 es s Hw)|].
    + destruct (bal_instr _ _ (so_balanced _ _ _ Hs) (0, 0) intInstructions) as (? & _ & ?). unfold Edge in *. lia.
    + rewrite R in R'. apply Ok_inj in R'. subst g'. eapply longest_perm; [|exact HLo]. by rewrite Hp.
Qed.
End FirstPassOk.
