(* ===== verification/CalipersO3Run.v ===== *)
(** * Resource edges and whole runs in Calipers

    The edges for limited resources are those the scoreboard's specification asks
    for along the schedule; a window is analysed without leaving the normal path;
    so is a whole trace. *)

From S2P Require Import Prelude Machine CalipersCache CalipersFacts CalipersCycles CalipersPaths.
From S2P Require Import CalipersScoreboard CalipersScoreFacts CalipersO3 CalipersO3Facts.
From S2P Require Import CalipersO3Steps CalipersO3Window.

#[local] Open Scope list_scope.
#[local] Open Scope Z_scope.

Import CalG CalS CalO.

(** ** The specification of the resource edges *)

(** A request an instruction makes, and the edge its answer leads to. *)
Record demand := mkDemand { d_request : request; d_type : VertexType; d_near : bool }.
Definition user (r : request) : Z := match r with Unit _ i => i | Entry _ i _ => i end.

(** The requests of one instruction: issue, instruction queue, unit, and the load
    or store queue. *)
Definition demands (b : Book) (g : Graph) (curr : Z) : list demand :=
  let slot := curr mod AnalysisWindow g in
  let execution_cycles := default 0 (executionCyclesOf b !! slot) in
  let ls_cycles := default 0 (lsCyclesOf b !! slot) in
  match operation_of (type_at g curr) with
  | None => []
  | Some (op, lsq) =>
      [mkDemand (Unit RscIssue curr) InstrExecute false;
       mkDemand (Entry RscInstrQ curr execution_cycles) InstrExecute false;
       mkDemand (Unit op curr) InstrExecute true] ++
      match lsq with
      | Some q => [mkDemand (Entry q curr ls_cycles) MemExecute true]
      | None => []
      end
  end.

Definition demand_edges (buffer : Z) (d : demand) (a : answer) : list Edge :=
  match a with
  | Some (prev, w) =>
      let curr := user (d_request d) in
      if negb (d_near d) || (unsigned_diff curr prev <? buffer)
      then [edge (d_type d) prev (d_type d) curr w] else []
  | None => []
  end.
Definition spec_edges (buffer : Z) (ds : list demand) (l : list answer) : list Edge :=
  mjoin (zip_with (demand_edges buffer) ds l).

Lemma spec_run_app b h rs rs' :
  let r := spec_run b h rs in
  spec_run b h (rs ++ rs') = (r.1 ++ (spec_run b r.2 rs').1, (spec_run b r.2 rs').2).
Proof.
  revert h. induction rs as [|x rs IH]; intros h; cbn; [by destruct (spec_run b h rs')|].
  destruct (spec_step b h x) as [a h1]. specialize (IH h1). cbn in IH. rewrite IH.
  destruct (spec_run b h1 rs). done.
Qed.

Lemma spec_run_length b h rs : List.length (spec_run b h rs).1 = List.length rs.
Proof.
  revert h. induction rs as [|x rs IH]; intros h; cbn; [done|].
  destruct (spec_step b h x) as [a h1]. specialize (IH h1). destruct (spec_run b h1 rs).
  cbn in *. by rewrite IH.
Qed.

Lemma spec_run_setup b b' h rs : same_setup b b' -> spec_run b' h rs = spec_run b h rs.
Proof.
  intros Hs. revert h. induction rs as [|x rs IH]; intros h; [done|]. cbn.
  rewrite (setup_spec _ _ _ _ Hs). destruct (spec_step b h x). by rewrite IH.
Qed.

Lemma spec_edges_app buffer ds ds' l l' :
  List.length ds = List.length l ->
  spec_edges buffer (ds ++ ds') (l ++ l') = spec_edges buffer ds l ++ spec_edges buffer ds' l'.
Proof. intros Hl. unfold spec_edges. by rewrite zip_with_app, join_app by done. Qed.

Section Resources.
Context {CI CD BP : Type} `{!Cache CI} `{!Cache CD} `{!BranchPredictor BP}.
Notation O3 := (@O3CoreGraph CI CD BP).

(** Both kinds of request. *)
Definition serve (s : O3) (d : demand) : res O3 :=
  match d_request d with
  | Unit o i => request_unit s o i (d_near d)
  | Entry q i l => request_entry s (d_type d) q i l (d_near d)
  end.

(** The state after some requests: the scoreboard and the edges are those of the
    specification. *)
Definition served (s : O3) (h : History) (ds : list demand) (s' : O3) : Prop :=
  let r := spec_run (scoreboard s) h (d_request <$> ds) in
  exists sb, s' = addEdges (set_scoreboard s sb)
                    (spec_edges (instrBufferSize (params s)) ds r.1) /\
    refines sb r.2 /\ same_setup (scoreboard s) sb.

Lemma addEdges_board (s : O3) sb es :
  set_scoreboard (addEdges s es) sb = addEdges (set_scoreboard s sb) es.
Proof. revert s. induction es as [|e es IH]; intros s; [done|]. apply (IH (addEdge s e)). Qed.

Lemma addEdges_app (s : O3) es es' : addEdges (addEdges s es) es' = addEdges s (es ++ es').
Proof. unfold addEdges. by rewrite foldl_app. Qed.

Lemma addEdges_same (s : O3) es :
  let s' := addEdges s es in
  params s' = params s /\ base s' = base s /\ scoreboard s' = scoreboard s /\ book s' = book s /\
  stats s' = stats s /\ scheduleOrder s' = scheduleOrder s /\ instrCount s' = instrCount s /\
  analyzedWindows s' = analyzedWindows s /\ icache s' = icache s /\ dcache s' = dcache s.
Proof. destruct (addEdges_spec s es) as (g & -> & _). done. Qed.

Lemma served_nil s h : refines (scoreboard s) h -> served s h [] s.
Proof.
  intros Hr. exists (scoreboard s). split; [by destruct s|]. split; [done|]. apply same_setup_refl.
Qed.

Lemma served_app s h ds s1 ds' s2 :
  served s h ds s1 ->
  served s1 (spec_run (scoreboard s) h (d_request <$> ds)).2 ds' s2 -> served s h (ds ++ ds') s2.
Proof.
  intros (sb1 & -> & R1 & C1) (sb2 & -> & R2 & C2).
  destruct (addEdges_same (set_scoreboard s sb1)
    (spec_edges (instrBufferSize (params s)) ds (spec_run (scoreboard s) h (d_request <$> ds)).1))
    as (Ep & _ & Esb & _). rewrite Ep, Esb in *. cbn [params scoreboard set_scoreboard] in *.
  rewrite (spec_run_setup _ _ _ _ C1) in *. unfold served.
  rewrite fmap_app, spec_run_app. cbn [fst snd]. exists sb2. split; [|split; [done|]].
  - rewrite addEdges_board, addEdges_app, spec_edges_app; [done|].
    by rewrite spec_run_length, length_fmap.
  - by eapply same_setup_trans.
Qed.

Lemma serve_ok s h d :
  refines (scoreboard s) h -> request_ok (scoreboard s) (d_request d) ->
  (forall o i, d_request d = Unit o i -> d_type d = InstrExecute) ->
  exists s', serve s d = Ok s' /\ served s h [d] s'.
Proof.
  intros HR Hok Ht.
  assert (exists s1, request_step (scoreboard s) (d_request d) =
      Ok ((spec_step (scoreboard s) h (d_request d)).1, s1) /\
    refines s1 (spec_step (scoreboard s) h (d_request d)).2 /\ same_setup (scoreboard s) s1)
    as (sb & E & R & C)
    by (destruct (d_request d); [by apply unit_step_refines|by apply queue_step_refines]).
  enough (serve s d = Ok (addEdges (set_scoreboard s sb)
    (demand_edges (instrBufferSize (params s)) d (spec_step (scoreboard s) h (d_request d)).1))) as ->.
  { eexists. split; [done|]. unfold served. cbn.
    destruct (spec_step (scoreboard s) h (d_request d)) as [a h1]. cbn. exists sb.
    unfold spec_edges. cbn. rewrite app_nil_r. done. }
  unfold serve, request_step in *. set (a := (spec_step _ _ _).1) in *.
  assert (Hedge : forall prev w sb', (if prev =? UINT64_MAX then None else Some (prev, w)) = a ->
    sb' = sb -> resource_edge (set_scoreboard s sb') (d_type d) (user (d_request d)) prev w (d_near d) =
      Ok (addEdges (set_scoreboard s sb) (demand_edges (instrBufferSize (params s)) d a))).
  { intros prev w sb' <- ->. unfold resource_edge. cbn.
    destruct (prev =? UINT64_MAX); cbn [negb andb]; [done|]. unfold demand_edges.
    destruct (_ || _); [|done]. done. }
  destruct d as [[o i|q i l] t near]; cbn in *.
  - unfold request_unit. pose proof (Ht o i eq_refl) as ->.
    destruct (scheduleResource _ o i) as [[[prev w] sb']|]; [|done]. cbn [mbind res_bind] in *.
    apply Ok_inj in E. injection E as Ea Esb. cbn in Ea. by apply Hedge.
  - unfold request_entry.
    destruct (scheduleQueue _ q i l) as [[[prev w] sb']|]; [|done]. cbn [mbind res_bind] in *.
    apply Ok_inj in E. injection E as Ea Esb. cbn in Ea. by apply Hedge.
Qed.

(** *** Along the schedule *)

(** An instruction whose requests can be made. *)
Definition demands_ok (s : O3) (curr : Z) : Prop :=
  let slot := curr mod window s in
  forall op lsq, operation_of (type_at (base s) curr) = Some (op, lsq) ->
    default 0 (executionCyclesOf (book s) !! slot) <> UINT32_MAX /\
    (is_Some lsq -> default 0 (lsCyclesOf (book s) !! slot) <> UINT32_MAX) /\
    Forall (fun d => request_ok (scoreboard s) (d_request d)) (demands (book s) (base s) curr).

Lemma served_frame s h ds s' :
  served s h ds s' ->
  params s' = params s /\ base s' = base s /\ book s' = book s /\ scheduleOrder s' = scheduleOrder s /\
  same_setup (scoreboard s) (scoreboard s').
Proof.
  intros (sb & -> & _ & C).
  destruct (addEdges_same (set_scoreboard s sb)
    (spec_edges (instrBufferSize (params s)) ds (spec_run (scoreboard s) h (d_request <$> ds)).1))
    as (-> & -> & -> & -> & _ & -> & _). done.
Qed.

Lemma served_refines s h ds s' :
  served s h ds s' -> refines (scoreboard s') (spec_run (scoreboard s) h (d_request <$> ds)).2.
Proof.
  intros (sb & -> & R & _).
  by destruct (addEdges_same (set_scoreboard s sb)
    (spec_edges (instrBufferSize (params s)) ds (spec_run (scoreboard s) h (d_request <$> ds)).1))
    as (_ & _ & -> & _).
Qed.

Lemma serve_next s h ds s1 d :
  served s h ds s1 -> request_ok (scoreboard s) (d_request d) ->
  (forall o i, d_request d = Unit o i -> d_type d = InstrExecute) ->
  exists s2, serve s1 d = Ok s2 /\ served s h (ds ++ [d]) s2.
Proof.
  intros HS Hok Ht. destruct (served_frame _ _ _ _ HS) as (_ & _ & _ & _ & C).
  destruct (serve_ok s1 _ d (served_refines _ _ _ _ HS)) as (s2 & E & S2).
  - by eapply setup_request.
  - done.
  - exists s2. split; [done|]. by eapply served_app.
Qed.

Lemma schedule_instr_ok s h ds s1 curr :
  served s h ds s1 -> demands_ok s curr ->
  exists s2, schedule_instr s1 curr = Ok s2 /\
    served s h (ds ++ demands (book s) (base s) curr) s2.
Proof.
  intros HS Hd. destruct (served_frame _ _ _ _ HS) as (_ & Eb & Ek & _ & _).
  unfold schedule_instr, demands_ok, demands, window in *. rewrite Eb.
  destruct (operation_of _) as [[op lsq]|]; [|exists s1; rewrite app_nil_r; done].
  destruct (Hd op lsq eq_refl) as (N1 & N2 & HF). clear Hd.
  apply Forall_app in HF as [HF HF4]. rewrite !Forall_cons in HF. destruct HF as (H1 & H2 & H3 & _).
  destruct (serve_next s h ds s1 _ HS H1) as (s2 & E2 & S2); [done|].
  unfold serve in E2. cbn in E2. rewrite E2. cbn [mbind res_bind].
  destruct (served_frame _ _ _ _ S2) as (_ & _ & -> & _ & _). rewrite (proj2 (Z.eqb_neq _ _) N1).
  destruct (serve_next s h _ s2 _ S2 H2) as (s3 & E3 & S3); [done|].
  unfold serve in E3. cbn in E3. rewrite E3. cbn [mbind res_bind].
  destruct (serve_next s h _ s3 _ S3 H3) as (s4 & E4 & S4); [done|].
  unfold serve in E4. cbn in E4. rewrite E4. cbn [mbind res_bind].
  rewrite <- !app_assoc in S4. destruct lsq as [q|]; [|by exists s4].
  destruct (served_frame _ _ _ _ S4) as (_ & _ & -> & _ & _).
  rewrite (proj2 (Z.eqb_neq _ _) (N2 ltac:(done))).
  apply Forall_cons in HF4 as [HF4 _].
  destruct (serve_next s h _ s4 _ S4 HF4) as (s5 & E5 & S5); [done|].
  unfold serve in E5. cbn in E5. rewrite <- !app_assoc in S5. by exists s5.
Qed.

(** The requests of the whole schedule, in its order. *)
Definition schedule_demands (s : O3) : list demand :=
  mjoin (demands (book s) (base s) <$> (scheduleOrder s).*1).

Lemma modelResourceDependencies_ok (s : O3) h :
  refines (scoreboard s) h -> Forall (demands_ok s) (scheduleOrder s).*1 ->
  exists s', modelResourceDependencies s = Ok s' /\ served s h (schedule_demands s) s'.
Proof.
  intros HR. unfold modelResourceDependencies, schedule_demands. generalize (scheduleOrder s).
  intros l Hok.
  enough (HG : forall ds s1, served s h ds s1 -> exists s',
    res_fold (fun s x => schedule_instr s x.1) s1 l = Ok s' /\
    served s h (ds ++ mjoin (demands (book s) (base s) <$> l.*1)) s').
  { by apply (HG []), served_nil. }
  induction l as [|[i len] l IH]; intros ds s1 HS; cbn [res_fold].
  - exists s1. cbn. by rewrite app_nil_r.
  - apply Forall_cons in Hok as [H1 Hok].
    destruct (schedule_instr_ok s h ds s1 i HS H1) as (s2 & E2 & S2). cbn [fst].
    rewrite E2. cbn [mbind res_bind]. destruct (IH Hok _ _ S2) as (s3 & E3 & S3).
    exists s3. split; [done|]. by rewrite <- app_assoc in S3.
Qed.
End Resources.

(** ** What the resource edges look like *)

(** Every wait is short, and what was requested is remembered as it was. *)
Definition history_ok (P : Z -> Prop) (b : Scoreboard) (h : History) : Prop :=
  (forall t, Forall (fun io => P io.1 /\ 0 <= op_wait b io.2 < 2 ^ 32) (units h t)) /\
  (forall q, Forall (fun il => P il.1 /\ 0 <= il.2 < 2 ^ 32) (entries h q)).

Definition answer_ok (P : Z -> Prop) (a : answer) : Prop :=
  match a with Some (i, w) => P i /\ 0 <= w < 2 ^ 32 | None => True end.

Definition demand_ok (P : Z -> Prop) (r : request) : Prop :=
  P (user r) /\ match r with Unit _ _ => True | Entry _ _ l => 0 <= l < 2 ^ 32 end.

(** However a scoreboard is set up for the core, an operation waits 20 cycles at most. *)
Lemma op_wait_ok z b o : set_up z b -> 0 <= op_wait b o <= 20.
Proof.
  intros Hb. unfold op_wait, spec_at, resource_at. rewrite (su_mixed z b Hb), (su_spec z b Hb).
  destruct (mixed_setup !! o) as [t|].
  - unfold spec_setup. rewrite <- insert_empty. by_key o; cbn; lia.
  - pose proof (su_units z b Hb o) as E. destruct (resources b !! o) as [r|]; cbn; [|lia].
    cbn in E. unfold setup_of in E. destruct (pipelined r) eqn:Ep; [lia|].
    unfold unit_setup in E. repeat case_match; simplify_eq/=; lia.
Qed.

Lemma spec_step_ok P z b h r :
  set_up z b -> history_ok P b h -> demand_ok P r ->
  answer_ok P (spec_step b h r).1 /\ history_ok P b (spec_step b h r).2.
Proof.
  intros Hb [HU HE] [HP Hl]. destruct r as [o i|q i l]; cbn in *.
  - pose proof (op_wait_ok z b o Hb). split; [|split; [|done]].
    + destruct (units h _ !! _) as [[i' o']|] eqn:El; [|done].
      apply (Forall_lookup_1 _ _ _ _ (HU _) El).
    + intros t. unfold upd. cbn. case_decide; [|done]. apply Forall_cons. split; [split; [done|cbn; lia]|done].
  - split; [|split; [done|]].
    + destruct (entries h q !! _) as [[i' l']|] eqn:El; [|done].
      apply (Forall_lookup_1 _ _ _ _ (HE _) El).
    + intros t. unfold upd. cbn. case_decide; [|done]. by apply Forall_cons.
Qed.

Lemma spec_run_ok P z b h rs :
  set_up z b -> history_ok P b h -> Forall (demand_ok P) rs ->
  Forall (answer_ok P) (spec_run b h rs).1.
Proof.
  intros Hb. revert h. induction rs as [|r rs IH]; intros h Hh Hok; [done|].
  apply Forall_cons in Hok as [Hr Hok]. cbn.
  destruct (spec_step_ok P z b h r Hb Hh Hr) as [Ha Hh1].
  destruct (spec_step b h r) as [a h1]. specialize (IH h1 Hh1 Hok).
  destruct (spec_run b h1 rs). by apply Forall_cons.
Qed.

Lemma no_requests_ok P b : history_ok P b no_requests.
Proof. by split. Qed.

(** A resource edge joins two executions of the window. *)
Record resource_edge_ok (st n : Z) (pe : Edge) : Prop := {
  rk_from : st <= instrNum pe.1 < n;
  rk_to : st <= instrNum (child pe.2) < n;
  rk_type : type pe.1 = type (child pe.2);
  rk_weight : exists w, weight pe.2 = [w] /\ 0 <= w < 2 ^ 32
}.

Lemma spec_edges_ok st n buffer ds l :
  Forall (fun d => st <= user (d_request d) < n) ds ->
  Forall (answer_ok (fun i => st <= i < n)) l ->
  Forall (resource_edge_ok st n) (spec_edges buffer ds l) /\
  (List.length (spec_edges buffer ds l) <= List.length ds)%nat.
Proof.
  revert l. induction ds as [|d ds IH]; intros [|a l] Hd Hl; try (by split; [|simpl; lia]).
  apply Forall_cons in Hd as [Hd Hds]. apply Forall_cons in Hl as [Ha Hl].
  destruct (IH l Hds Hl) as [IHe IHl].
  change (spec_edges buffer (d :: ds) (a :: l)) with (demand_edges buffer d a ++ spec_edges buffer ds l).
  rewrite Forall_app, length_app. cbn [List.length].
  enough (Forall (resource_edge_ok st n) (demand_edges buffer d a) /\
    (List.length (demand_edges buffer d a) <= 1)%nat) as [? ?] by (split; [done|lia]).
  unfold demand_edges. destruct a as [[prev w]|]; [|by split; [|simpl; lia]].
  destruct Ha as [Hp Hw]. destruct (_ || _); (split; [|simpl; lia]); [|done].
  apply Forall_singleton. split; cbn; try done. by exists w.
Qed.

Lemma demands_user b g curr : Forall (fun d => user (d_request d) = curr) (demands b g curr).
Proof.
  unfold demands. destruct (operation_of _) as [[op lsq]|]; [|done].
  repeat (apply Forall_cons; split; [done|]). by destruct lsq; repeat constructor.
Qed.

Lemma demands_length b g curr : (List.length (demands b g curr) <= 4)%nat.
Proof.
  unfold demands. destruct (operation_of _) as [[op lsq]|]; [|simpl; lia].
  destruct lsq; simpl; lia.
Qed.

(** ** The second pass *)

Lemma join_fmap_perm {A B} (f : A -> list B) l l' :
  l ≡ₚ l' -> mjoin (f <$> l) ≡ₚ mjoin (f <$> l').
Proof.
  induction 1 as [|x l l' _ IH|x y l|l1 l2 l3 _ IH1 _ IH2]; cbn.
  - done.
  - by rewrite IH.
  - apply Permutation_app_swap_app.
  - by rewrite IH1.
Qed.

Definition final_types : list VertexType := [InstrExecute; MemExecute; InstrCommit].
Definition typed (ts : list VertexType) (ns : list Z) : list Vertex :=
  mjoin ((fun i => (fun t => mkVertex t i) <$> ts) <$> ns).

(** The vertices the second pass leaves out are the fetches and the dispatches. *)
Lemma typed_split ns : vertices ns ≡ₚ typed final_types ns ++ typed [InstrFetch; InstrDispatch] ns.
Proof.
  induction ns as [|i ns IH]; [done|]. rewrite vertices_cons, IH. cbn.
  fold (typed final_types ns) (typed [InstrFetch; InstrDispatch] ns). solve_Permutation.
Qed.

Section Final.
Context {CI CD BP : Type} `{!Cache CI} `{!Cache CD} `{!BranchPredictor BP}.
Notation O3 := (@O3CoreGraph CI CD BP).

(** Relaxing the edges of some vertices in turn. *)
Lemma relax_visit (s : O3) vs g' :
  relax_all (base s) (visit_edges s vs) = Ok g' ->
  res_fold (fun s v => relax_vertex s v) s vs = Ok (set_base s g').
Proof.
  revert s. induction vs as [|v vs IH]; intros s H.
  - apply Ok_inj in H. subst g'. by destruct s.
  - rewrite visit_edges_cons, relax_all_app in H. apply res_bind_inv in H as (g1 & H1 & H).
    cbn [res_fold]. rewrite relax_vertex_eq, H1. cbn [mbind res_bind].
    rewrite (IH (set_base s g1)); [done|]. cbn [base set_base]. rewrite <- H. f_equal.
    unfold visit_edges. f_equal. apply list_fmap_ext. intros _ u _. unfold VertexKey. cbn.
    by rewrite (relax_all_window _ _ _ H1).
Qed.

Lemma second_pass_visits (s : O3) :
  calculateFinalCriticalPath s =
  (s' ← res_fold (fun s v => relax_vertex s v) s (typed final_types (scheduleOrder s).*1);
   Ok (set_schedule s' [])).
Proof.
  unfold calculateFinalCriticalPath, typed. rewrite <- res_fold_join, !res_fold_fmap. reflexivity.
Qed.

Lemma final_edges (s : O3) ns ns' es :
  ns ≡ₚ ns' -> visit_edges s (vertices ns') ≡ₚ es ->
  exists rest, visit_edges s (typed final_types ns) ++ rest ≡ₚ es.
Proof.
  intros Hp He. exists (visit_edges s (typed [InstrFetch; InstrDispatch] ns)). rewrite <- He.
  unfold visit_edges. rewrite <- join_app, <- fmap_app, <- typed_split.
  unfold vertices. by apply join_fmap_perm, join_fmap_perm.
Qed.

Lemma sound_mono n n' B B' g : n <= n' -> B <= B' -> sound n B g -> sound n' B' g.
Proof.
  intros Hn HB [S1 [B1 B2 B3 B4] S3 S4]. split; try done; [split; try done| |lia].
  - intros k f. destruct (B4 k f) as (x & ? & ?). exists x. split; [done|lia].
  - intros k. specialize (S3 k). lia.
Qed.

(** Relaxing some of the edges of a window after the first pass. *)
Lemma second_pass_ok (s : O3) st n W es m B :
  0 < W -> 0 <= st -> st mod W = 0 -> AnalysisWindow (base s) = W -> st <= n <= st + W ->
  (forall k, edge_at (graph s) k = out_edges (base s) es k) ->
  (forall pe, pe ∈ es -> st <= instrNum pe.1 < n) ->
  (scheduleOrder s).*1 ≡ₚ seqZ st (n - st) ->
  sound m B (base s) -> edges_ok (base s) es ->
  B + cost (link_of (base s) <$> es) <= INT64_MAX -> m + Z.of_nat (List.length es) <= INT64_MAX ->
  exists s', calculateFinalCriticalPath s = Ok s' /\ passes s s' /\ scheduleOrder s' = [] /\
    sound (m + Z.of_nat (List.length es)) (B + cost (link_of (base s) <$> es)) (base s') /\
    (forall k, lane (length_at (base s) k) <= lane (length_at (base s') k)) /\
    (forall ls, link_of (base s) <$> es ⊆ ls -> attained ls (base s) -> attained ls (base s')).
Proof.
  intros HW H0 Hm Ha Hn Hg Hin Hsch Hs Hok Hb Hl.
  destruct (final_edges s _ _ es Hsch (visit_all s W st n es HW H0 Hm Ha Hn Hg Hin)) as (rest & Hp).
  set (fe := visit_edges s _) in *.
  unfold edges_ok in Hok. rewrite <- Hp in Hok. apply Forall_app in Hok as [Hok1 Hok2].
  pose proof (cost_nonneg (base s) rest Hok2) as Hc2.
  assert (Hcost : cost (link_of (base s) <$> es) = cost (link_of (base s) <$> fe) + cost (link_of (base s) <$> rest)).
  { rewrite <- cost_app, <- fmap_app. apply cost_perm. by rewrite Hp. }
  assert (Hlen : List.length es = (List.length fe + List.length rest)%nat)
    by (by rewrite <- length_app, Hp).
  destruct (relax_sound (base s) fe m B Hs Hok1) as (g' & E & C & S' & L & A);
    [lia|unfold Edge in *; lia|].
  rewrite second_pass_visits, (relax_visit s _ g' E). cbn [mbind res_bind].
  eexists. split; [done|]. split; [by split|]. split; [done|]. cbn [base set_schedule set_base].
  split; [eapply sound_mono; [| |exact S']; unfold Edge in *; lia|]. split; [done|].
  intros ls Hls. apply A. intros x Hx. apply Hls. apply list_elem_of_fmap in Hx as (pe & -> & Hpe).
  apply list_elem_of_fmap. exists pe. split; [done|]. rewrite <- Hp. set_solver.
Qed.
End Final.
