(* ===== verification/CalipersO3Trace.v ===== *)
(** * Whole traces in Calipers

    A window is read, analysed and cleared; the next one starts from a state that
    satisfies the same invariant, so a run over any trace within the bounds
    completes, with a complete breakdown of every critical path. *)

From S2P Require Import Prelude Machine CalipersCache CalipersFacts CalipersCycles CalipersPaths.
From S2P Require Import CalipersScoreboard CalipersScoreFacts CalipersO3 CalipersO3Facts.
From S2P Require Import CalipersO3Steps CalipersO3Window CalipersO3Run.

#[local] Open Scope list_scope.
#[local] Open Scope Z_scope.

Import CalG CalS CalO.

(** ** Requests of a window *)

(** What the constructor sets up can be requested. *)
Lemma unit_request z b o i c l p (m : bool) :
  set_up z b -> 0 <= i < UINT64_MAX ->
  (if m then exists t, mixed_setup !! o = Some t /\ unit_setup z t = Some (c, l, p, true)
   else mixed_setup !! o = None /\ unit_setup z o = Some (c, l, p, false)) ->
  request_ok b (Unit o i).
Proof.
  intros Hb Hi Hs. split; [done|]. rewrite (su_mixed z b Hb). destruct m.
  - destruct Hs as (t & -> & Hs). destruct (unit_lookup z b Hb t _ _ _ _ Hs) as (r & Hr & _ & _ & _ & Ho).
    apply bool_decide_eq_true in Ho as [ops Ho]. eauto.
  - destruct Hs as [-> Hs]. destruct (unit_lookup z b Hb o _ _ _ _ Hs) as (r & Hr & _ & _ & _ & Ho).
    apply bool_decide_eq_false in Ho. exists r. split; [done|]. by destruct (assignedOp r); [destruct Ho|].
Qed.

Lemma queue_request z b q n i lat :
  set_up z b -> 0 <= i < UINT64_MAX -> 0 <= lat < 2 ^ 32 -> queue_setup z q = Some n ->
  request_ok b (Entry q i lat).
Proof.
  intros Hb Hi Hl Hq. split; [done|]. split; [done|].
  destruct (queue_lookup z b Hb q n Hq) as (x & -> & _). eauto.
Qed.

Lemma operation_request z b t op lsq i :
  set_up z b -> 0 <= i < UINT64_MAX -> operation_of t = Some (op, lsq) -> request_ok b (Unit op i).
Proof.
  intros Hb Hi Ho.
  destruct t; try discriminate Ho; injection Ho as <- <-;
    first [eapply (unit_request z b _ i _ _ _ false Hb Hi); split; reflexivity
          |eapply (unit_request z b _ i _ _ _ true Hb Hi); eexists; split; reflexivity].
Qed.

Section Analyse.
Context {CI CD BP : Type} `{!Cache CI} `{!Cache CD} `{!CacheLaws CI} `{!CacheLaws CD}.
Context `{!BranchPredictor BP}.
Notation O3 := (@O3CoreGraph CI CD BP).
Context (z : Sizes) (W st : Z) (b0 : Graph) (es : list Edge) (s : O3).
Context (Hw : window_inv z W st b0 es s).
Let n := instrCount s.

Lemma window_cycles curr : st <= curr < n ->
  exists c, executionCyclesOf (book s) !! (curr mod window s) = Some c /\ 0 <= c < UINT32_MAX.
Proof using Hw.
  intros Hc. destruct (re_window _ _ _ _ (wi_reading _ _ _ _ _ _ Hw)) as (-> & _).
  by apply (bo_exec _ _ _ _ _ (re_book _ _ _ _ (wi_reading _ _ _ _ _ _ Hw))).
Qed.

(** Every instruction of the window has what its requests need. *)
Lemma window_demands curr : st <= curr < n -> demands_ok s curr.
Proof using Hw.
  intros Hc op lsq Ho. destruct (window_facts z W st b0 es s Hw) as (HW & H0 & Hm & Ha & Hn).
  fold n in Hn. destruct (re_count _ _ _ _ (wi_reading _ _ _ _ _ _ Hw)) as [_ Hmax].
  pose proof (re_board _ _ _ _ (wi_reading _ _ _ _ _ _ Hw)) as Hb.
  assert (Hi : 0 <= curr < UINT64_MAX) by (unfold UINT64_MAX; lia).
  destruct (window_cycles curr Hc) as (c & Ec & Hcr).
  assert (Hls : forall q, lsq = Some q -> (exists k, queue_setup z q = Some k) /\
    exists l, lsCyclesOf (book s) !! (curr mod window s) = Some l /\ 0 <= l < UINT32_MAX).
  { intros q ->. unfold window. rewrite Ha.
    split; [|apply (wi_cycles _ _ _ _ _ _ Hw curr Hc)];
      destruct (type_at (base s) curr); try discriminate Ho; auto;
      injection Ho as <- <-; eexists; reflexivity. }
  unfold demands. change (AnalysisWindow (base s)) with (window s).
  rewrite Ec, Ho. cbn [from_option id]. unfold UINT32_MAX in *. split; [lia|]. split.
  - intros [q Hq]. destruct (Hls q Hq) as (_ & l & -> & ?). cbn. lia.
  - repeat (apply Forall_cons; split).
    + eapply (unit_request z _ _ _ _ _ _ false Hb Hi). split; reflexivity.
    + eapply (queue_request z _ _ _ _ _ Hb Hi); [lia|reflexivity].
    + by eapply operation_request.
    + destruct lsq as [q|]; [|done]. destruct (Hls q eq_refl) as ((k & Hk) & l & -> & ?).
      apply Forall_singleton. eapply (queue_request z _ _ _ _ _ Hb Hi); [cbn; lia|exact Hk].
Qed.

Lemma passes_demands (s1 : O3) curr :
  passes s s1 -> demands_ok s curr ->
  demands_ok s1 curr /\ demands (book s1) (base s1) curr = demands (book s) (base s) curr.
Proof using.
  intros P Hd. destruct (ps_config _ _ P) as (Ea & _ & _ & _ & _ & Et).
  assert (Ety : type_at (base s1) curr = type_at (base s) curr)
    by (unfold type_at; by rewrite Ea, Et).
  assert (Ed : demands (book s1) (base s1) curr = demands (book s) (base s) curr)
    by (unfold demands; by rewrite Ety, Ea, (ps_book _ _ P)).
  split; [|done]. unfold demands_ok, window in *.
  by rewrite Ed, Ety, Ea, (ps_book _ _ P), (ps_board _ _ P).
Qed.

Lemma passes_list (s1 : O3) l :
  passes s s1 -> Forall (demands_ok s) l ->
  Forall (demands_ok s1) l /\
  mjoin (demands (book s1) (base s1) <$> l) = mjoin (demands (book s) (base s) <$> l).
Proof using.
  intros P HF. induction HF as [|x l Hx _ [IH1 IH2]]; [done|].
  destruct (passes_demands s1 x P Hx) as [H1 H2].
  split; [by apply Forall_cons|]. by rewrite !fmap_cons, !join_cons, H2, IH2.
Qed.

(** The resource edges of a schedule, as the specification has them. *)
Definition resource_edges (l : list (Z * Z)) : list Edge :=
  let ds := mjoin (demands (book s) (base s) <$> l.*1) in
  spec_edges (instrBufferSize (params s)) ds
    (spec_run (scoreboard s) no_requests (d_request <$> ds)).1.

Lemma demand_request b r i : request_ok b r -> user r = i -> st <= i < n ->
  demand_ok (fun i => st <= i < n) r.
Proof using.
  intros Hr <- Hi. split; [done|]. destruct r; cbn in *; tauto.
Qed.

Lemma resource_edges_ok (l : list (Z * Z)) :
  Forall (fun x => st <= x.1 < n) l ->
  Forall (resource_edge_ok st n) (resource_edges l) /\
  (List.length (resource_edges l) <= 4 * List.length l)%nat.
Proof using Hw.
  intros Hl. pose proof (re_board _ _ _ _ (wi_reading _ _ _ _ _ _ Hw)) as Hb.
  set (ds := mjoin (demands (book s) (base s) <$> l.*1)).
  assert (Hds : Forall (fun d => st <= user (d_request d) < n) ds /\
    Forall (fun d => demand_ok (fun i => st <= i < n) (d_request d)) ds /\
    (List.length ds <= 4 * List.length l)%nat).
  { unfold ds. clear ds. induction Hl as [|[i len] l Hi _ (IH1 & IH2 & IH3)]; [split_and!; done || simpl; lia|].
    rewrite !fmap_cons. cbn [fst] in *.
    rewrite join_cons, !Forall_app, length_app.
    pose proof (demands_user (book s) (base s) i) as HU.
    pose proof (demands_length (book s) (base s) i) as HL.
    assert (HR : Forall (fun d => request_ok (scoreboard s) (d_request d)) (demands (book s) (base s) i)).
    { pose proof (window_demands i Hi) as Hd. unfold demands_ok in Hd.
      destruct (operation_of (type_at (base s) i)) as [[op lsq]|] eqn:Eo;
        [by destruct (Hd op lsq eq_refl) as (_ & _ & ?)|]. unfold demands. by rewrite Eo. }
    split_and!; try done.
    - eapply Forall_impl; [exact HU|]. by intros d ->.
    - rewrite Forall_forall in *. intros d Hd'. by apply (demand_request (scoreboard s) _ i); auto.
    - cbn [List.length]. lia. }
  destruct Hds as (D1 & D2 & D3). unfold resource_edges. fold ds.
  destruct (spec_edges_ok st n (instrBufferSize (params s)) ds
    (spec_run (scoreboard s) no_requests (d_request <$> ds)).1 D1) as [E1 E2].
  - eapply spec_run_ok; [exact Hb|apply no_requests_ok|]. by apply Forall_fmap.
  - split; [done|]. lia.
Qed.
End Analyse.

(** ** Analysing a window *)

Section AnalyseOk.
Context {CI CD BP : Type} `{!Cache CI} `{!Cache CD} `{!CacheLaws CI} `{!CacheLaws CD}.
Context `{!BranchPredictor BP}.
Notation O3 := (@O3CoreGraph CI CD BP).

(** What the analysis of a window leaves. *)
Record analysed (s s' : O3) (m B : Z) : Prop := {
  an_params : params s' = params s;
  an_config : same_config (base s) (base s');
  an_sound : sound m B (base s');
  an_board : same_setup (scoreboard s) (scoreboard s');
  an_refines : exists h, refines (scoreboard s') h;
  an_book : book s' = book s;
  an_sched : scheduleOrder s' = [];
  an_counts : instrCount s' = instrCount s /\ analyzedWindows s' = analyzedWindows s + 1;
  an_caches : icache s' = icache s /\ dcache s' = dcache s
}.

Lemma resource_edges_forward_ok g st n rs :
  Forall (resource_edge_ok st n) rs -> edges_ok g rs /\
  cost (link_of g <$> rs) <= 2 ^ 32 * Z.of_nat (List.length rs).
Proof.
  induction 1 as [|pe rs [_ _ Ht (w & Ew & Hw)] _ [IH1 IH2]]; [split; [constructor|cbn; lia]|]. split.
  - apply Forall_cons. split; [|done]. exists w. unfold INT64_MAX.
    split; [|lia]. split; [done|]. unfold INT64_MAX. split; [lia|]. rewrite Ht. congruence.
  - unfold cost in *. cbn. rewrite Ew. cbn. unfold sum_z, fmap in *. lia.
Qed.

Context (z : Sizes) (W st : Z) (b0 : Graph) (es : list Edge) (s : O3).
Context (Hw : window_inv z W st b0 es s).
Let n := instrCount s.
Let K := n - st.

Lemma scheduled_inside g l : scheduled st s g l ->
  Forall (fun x => st <= x.1 < n) l /\ Z.of_nat (List.length l) = K.
Proof using Hw.
  destruct (window_facts z W st b0 es s Hw) as (_ & _ & _ & _ & Hn). fold n in Hn.
  intros [Hp _ _]. fold n in Hp. split.
  - apply Forall_forall. intros x Hx.
    assert (Hin : x.1 ∈ seqZ st (n - st)) by (rewrite <- Hp; apply list_elem_of_fmap; eauto).
    apply elem_of_seqZ in Hin. lia.
  - rewrite <- (length_fmap fst), Hp, length_seqZ. unfold K. lia.
Qed.

(** The edges of the resources added after the first pass. *)
Lemma resource_pass_ok (s1 : O3) :
  passes s s1 -> Forall (fun x => st <= x.1 < n) (scheduleOrder s1) ->
  exists s2, modelResourceDependencies s1 = Ok s2 /\
    (forall k, edge_at (graph s2) k =
       edge_at (graph s1) k ++ out_edges (base s1) (resource_edges s (scheduleOrder s1)) k) /\
    (exists h, refines (scoreboard s2) h) /\ same_setup (scoreboard s) (scoreboard s2) /\
    base s2 = base s1 /\ scheduleOrder s2 = scheduleOrder s1 /\
    params s2 = params s1 /\ book s2 = book s1 /\ instrCount s2 = instrCount s1 /\
    analyzedWindows s2 = analyzedWindows s1 /\ icache s2 = icache s1 /\ dcache s2 = dcache s1.
Proof using Hw.
  intros P1 Hin. set (l := scheduleOrder s1) in *.
  destruct (passes_list s s1 l.*1 P1) as [D1 D2].
  { apply Forall_fmap. eapply Forall_impl; [exact Hin|]. intros x Hx. by apply (window_demands z W st b0 es). }
  pose proof (ready_refines _ (wi_ready _ _ _ _ _ _ Hw)) as HR.
  destruct (modelResourceDependencies_ok s1 no_requests) as (s2 & E2 & V2);
    [by rewrite (ps_board _ _ P1)|done|].
  pose proof (served_refines _ _ _ _ V2) as R2.
  destruct (served_frame _ _ _ _ V2) as (Fp & Fb & Fk & Fs & Fc). rewrite (ps_board _ _ P1) in Fc.
  assert (Hrs : exists sb, s2 = addEdges (set_scoreboard s1 sb) (resource_edges s l)).
  { destruct V2 as (sb & -> & _ & _). exists sb. unfold resource_edges, schedule_demands.
    fold l. by rewrite D2, (ps_params _ _ P1), (ps_board _ _ P1). }
  destruct Hrs as (sb & Es2).
  destruct (addEdges_same (set_scoreboard s1 sb) (resource_edges s l))
    as (_ & _ & _ & _ & _ & _ & I1 & I2 & I3 & I4). rewrite <- Es2 in I1, I2, I3, I4.
  exists s2. split; [done|]. split; [|split_and!; eauto].
  intros k. rewrite Es2.
  by destruct (addEdges_spec (set_scoreboard s1 sb) (resource_edges s l)) as (g & -> & ->).
Qed.

Lemma analyse_ok m B :
  sound m B (base s) -> intAluTotalCycles (base s) = 1 ->
  B + 2 ^ 32 * (38 * K) <= INT64_MAX -> m + 38 * K <= INT64_MAX ->
  exists g1 l s', anaylzeWindow s = Ok s' /\ scheduled st s g1 l /\
    (fresh (base s) -> longest (link_of (base s) <$> es) (fun k => lane (length_at g1 k))) /\
    (forall k, lane (length_at g1 k) <= lane (length_at (base s') k)) /\
    (fresh (base s) -> attained (link_of (base s) <$> es ++ resource_edges s l) (base s')) /\
    (forall k, edge_at (graph s') k = out_edges (base s') (es ++ resource_edges s l) k) /\
    analysed s s' (m + 38 * K) (B + 2 ^ 32 * (38 * K)).
Proof using Hw.
  intros Hs Ha HB Hm.
  destruct (window_facts z W st b0 es s Hw) as (HW & H0 & Hmod & Haw & Hn). fold n in Hn.
  pose proof (wi_edges _ _ _ _ _ _ Hw) as HE.
  pose proof (wi_len _ _ _ _ _ _ Hw) as HL. fold n K in HL.
  pose proof (forward_cost (base s) _ _ _ HE) as HC.
  destruct (first_pass_ok z W st b0 es s Hw m B Hs Ha) as (s1 & E1 & P1 & S1 & Sc1 & Lo1); [lia..|].
  set (l := scheduleOrder s1) in *.
  destruct (scheduled_inside _ _ Sc1) as [Hin Hlen].
  destruct (resource_pass_ok s1 P1 Hin)
    as (s2 & E2 & G2 & R2 & Fc & Fb & Fs & Fp & Fk & I1 & I2 & I3 & I4).
  fold l in G2, Fs. set (rs := resource_edges s l) in *.
  assert (Hg2 : forall k, edge_at (graph s2) k = out_edges (base s2) (es ++ rs) k).
  { intros k. rewrite Fb, out_edges_app, G2. f_equal.
    rewrite (ps_graph _ _ P1), (wi_graph _ _ _ _ _ _ Hw k). symmetry.
    apply out_edges_window. apply (ps_config _ _ P1). }
  destruct (resource_edges_ok z W st b0 es s Hw l Hin) as [RE RL]. fold rs in RE, RL.
  destruct (resource_edges_forward_ok (base s2) _ _ _ RE) as [RO RC].
  assert (HlB : link_of (base s2) <$> es = link_of (base s) <$> es).
  { rewrite Fb. apply link_of_same, P1. }
  assert (HlR : link_of (base s2) <$> rs = link_of (base s) <$> rs).
  { rewrite Fb. apply link_of_same, P1. }
  assert (Hc : cost (link_of (base s2) <$> es ++ rs) <= 2 ^ 32 * (21 * K)).
  { rewrite fmap_app, cost_app, HlB. lia. }
  assert (HKl : Z.of_nat (List.length (es ++ rs)) <= 21 * K) by (rewrite length_app; lia).
  assert (Ha2 : intAluTotalCycles (base s2) = 1).
  { rewrite Fb. destruct (ps_config _ _ P1) as (_ & _ & _ & _ & -> & _). done. }
  destruct (second_pass_ok s2 st n W (es ++ rs) (m + Z.of_nat (List.length es))
    (B + cost (link_of (base s) <$> es))) as (s3 & E3 & P3 & Sc3 & S3 & L3 & A3); try done; try lia.
  - rewrite Fb. destruct (ps_config _ _ P1) as (-> & _). done.
  - intros pe [Hpe|Hpe]%elem_of_app.
    + by destruct (edge_inside z W st b0 es s Hw pe Hpe).
    + rewrite Forall_forall in RE. by destruct (RE pe Hpe).
  - rewrite Fs. apply Sc1.
  - by rewrite Fb.
  - apply Forall_app. split; [|done]. by eapply forward_ok.
  - exists (base s1), l. eexists. split.
    { unfold anaylzeWindow. rewrite E1. cbn [mbind res_bind]. rewrite E2. cbn [mbind res_bind].
      rewrite E3. cbn [mbind res_bind]. done. }
    split; [done|]. split; [done|]. cbn [base set_counts].
    split; [by rewrite <- Fb|]. split.
    + intros Hf. specialize (Lo1 Hf). apply A3; [by rewrite !fmap_app, HlB, HlR|].
      rewrite Fb, fmap_app. apply (attained_mono (link_of (base s) <$> es)); [set_solver|].
      intros k. apply Lo1.
    + split.
      { intros k. cbn [graph set_counts]. rewrite (ps_graph _ _ P3), Hg2. symmetry.
        apply out_edges_window, P3. }
      destruct P1 as [P1a P1b P1c _ _ [P1d P1e] (P1f & P1g & _) P1h].
      destruct P3 as [P3a P3b P3c _ _ [P3d P3e] (P3f & P3g & _) P3h].
      split; cbn; try congruence.
      * rewrite Fb in P3h. by eapply same_config_trans.
      * eapply sound_mono; [| |exact S3]; lia.
      * by rewrite P3b.
      * split; congruence.
      * split; congruence.
Qed.
End AnalyseOk.

(** ** Clearing for the next window *)

Definition reset_unit (r : ResourceInstance) : ResourceInstance :=
  mkResource (count r) (latency r) (pipelined r) 0 (replicate (Z.to_nat (count r)) UINT64_MAX)
    (assignedOp r).
Definition reset_entries (q : QueueInstance) : QueueInstance :=
  mkQueue (q_size q) (replicate (Z.to_nat (q_size q)) 0) 0
    (replicate (Z.to_nat (q_size q)) UINT64_MAX).

Lemma reset_units b ts t :
  Forall (fun t => is_Some (resources b !! t)) ts ->
  resources (foldl resetResource b ts) !! t =
  (if decide (t ∈ ts) then reset_unit <$> resources b !! t else resources b !! t) /\
  queues (foldl resetResource b ts) = queues b /\
  mixedOperationResource (foldl resetResource b ts) = mixedOperationResource b /\
  mixedOperationSpec (foldl resetResource b ts) = mixedOperationSpec b.
Proof.
  revert b. induction ts as [|x ts IH]; intros b HF; [by rewrite decide_False by apply not_elem_of_nil|].
  apply Forall_cons in HF as [[r Hr] HF].
  assert (Hb : resources (resetResource b x) = <[x := reset_unit r]> (resources b)).
  { unfold resetResource, resource_at. by rewrite Hr. }
  destruct (IH (resetResource b x)) as (I1 & I2 & I3 & I4).
  { eapply Forall_impl; [exact HF|]. intros y Hy. rewrite Hb.
    destruct (decide (y = x)) as [->|]; [by rewrite lookup_insert_eq|by rewrite lookup_insert_ne]. }
  cbn [foldl]. rewrite I1, I2, I3, I4, Hb. split; [|done].
  destruct (decide (t = x)) as [->|Hne].
  - rewrite lookup_insert_eq, Hr, (decide_True (P := x ∈ x :: ts)) by set_solver. by case_decide.
  - rewrite lookup_insert_ne by done. destruct (decide (t ∈ ts)).
    + by rewrite decide_True by set_solver.
    + by rewrite decide_False by set_solver.
Qed.

Lemma reset_queues b ts t :
  Forall (fun t => is_Some (queues b !! t)) ts ->
  queues (foldl resetQueue b ts) !! t =
  (if decide (t ∈ ts) then reset_entries <$> queues b !! t else queues b !! t) /\
  resources (foldl resetQueue b ts) = resources b /\
  mixedOperationResource (foldl resetQueue b ts) = mixedOperationResource b /\
  mixedOperationSpec (foldl resetQueue b ts) = mixedOperationSpec b.
Proof.
  revert b. induction ts as [|x ts IH]; intros b HF; [by rewrite decide_False by apply not_elem_of_nil|].
  apply Forall_cons in HF as [[q Hq] HF].
  assert (Hb : queues (resetQueue b x) = <[x := reset_entries q]> (queues b)).
  { unfold resetQueue, queue_at. by rewrite Hq. }
  destruct (IH (resetQueue b x)) as (I1 & I2 & I3 & I4).
  { eapply Forall_impl; [exact HF|]. intros y Hy. rewrite Hb.
    destruct (decide (y = x)) as [->|]; [by rewrite lookup_insert_eq|by rewrite lookup_insert_ne]. }
  cbn [foldl]. rewrite I1, I2, I3, I4, Hb. split; [|done].
  destruct (decide (t = x)) as [->|Hne].
  - rewrite lookup_insert_eq, Hq, (decide_True (P := x ∈ x :: ts)) by set_solver. by case_decide.
  - rewrite lookup_insert_ne by done. destruct (decide (t ∈ ts)).
    + by rewrite decide_True by set_solver.
    + by rewrite decide_False by set_solver.
Qed.

Definition all_units : list Z :=
  [RscIssue; RscIntAlu; RscIntMulDiv; RscFpAlu; RscFpMulDiv; RscLsu].
Definition all_queues : list Z := [RscInstrQ; RscLQ; RscSQ].

Lemma all_units_setup z t : is_Some (unit_setup z t) <-> t ∈ all_units.
Proof.
  unfold unit_setup, all_units. rewrite !elem_of_cons, elem_of_nil. split.
  - intros H. repeat match goal with
    | H : context [t =? ?k] |- _ => destruct (Z.eqb_spec t k); [tauto|]
    end. by destruct H.
  - intros H. repeat match goal with
    | |- context [t =? ?k] => destruct (Z.eqb_spec t k); [by eexists|]
    end. tauto.
Qed.
Lemma all_queues_setup z t : is_Some (queue_setup z t) <-> t ∈ all_queues.
Proof.
  unfold queue_setup, all_queues. rewrite !elem_of_cons, elem_of_nil. split.
  - intros H. repeat match goal with
    | H : context [t =? ?k] |- _ => destruct (Z.eqb_spec t k); [tauto|]
    end. by destruct H.
  - intros H. repeat match goal with
    | |- context [t =? ?k] => destruct (Z.eqb_spec t k); [by eexists|]
    end. tauto.
Qed.

(** Every unit and every queue of the core is reset. *)
Lemma reset_scoreboard_all z b :
  set_up z b -> forall t,
  resources (reset_scoreboard b) !! t = reset_unit <$> resources b !! t /\
  queues (reset_scoreboard b) !! t = reset_entries <$> queues b !! t /\
  mixedOperationResource (reset_scoreboard b) = mixedOperationResource b /\
  mixedOperationSpec (reset_scoreboard b) = mixedOperationSpec b.
Proof.
  intros Hb t.
  assert (Hts : forall t, t ∈ all_units <-> is_Some (resources b !! t)).
  { intros u. by rewrite <- (fmap_is_Some setup_of), (su_units z b Hb), all_units_setup. }
  assert (Hqs : forall t, t ∈ all_queues <-> is_Some (queues b !! t)).
  { intros u. by rewrite <- (fmap_is_Some q_size), (su_queues z b Hb), all_queues_setup. }
  unfold reset_scoreboard. fold all_units all_queues.
  destruct (reset_units b all_units t) as (U & Q & M & S); [apply Forall_forall; intros u; apply Hts|].
  destruct (reset_queues (foldl resetResource b all_units) all_queues t) as (Q' & U' & M' & S').
  { rewrite Q. apply Forall_forall. intros u. apply Hqs. }
  rewrite U', U, Q', Q, M', M, S', S. specialize (Hts t). specialize (Hqs t). split; [|split; [|done]].
  - destruct (decide (t ∈ all_units)) as [|Hin]; [done|].
    destruct (resources b !! t) as [r|]; [|done]. destruct Hin. by apply Hts.
  - destruct (decide (t ∈ all_queues)) as [|Hin]; [done|].
    destruct (queues b !! t) as [q|]; [|done]. destruct Hin. by apply Hqs.
Qed.

Lemma reset_ready z b h :
  set_up z b -> refines b h -> set_up z (reset_scoreboard b) /\ ready (reset_scoreboard b).
Proof.
  intros Hb HR. pose proof (reset_scoreboard_all z b Hb) as HA. split; split.
  - intros t. destruct (HA t) as (-> & _). rewrite <- (su_units z b Hb). by destruct (resources b !! t).
  - intros t. destruct (HA t) as (_ & -> & _). rewrite <- (su_queues z b Hb). by destruct (queues b !! t).
  - destruct (HA 0) as (_ & _ & -> & _). apply Hb.
  - destruct (HA 0) as (_ & _ & _ & ->). apply Hb.
  - intros t r. destruct (HA t) as (-> & _). intros (r' & Hr & ->)%fmap_Some. cbn.
    destruct (rf_units _ _ HR t r' Hr) as (Hc & _ & _ & _ & _ & Ho). split; [lia|]. do 2 (split; [done|]).
    destruct (assignedOp r'); [apply Ho|done].
  - intros t q. destruct (HA t) as (_ & -> & _). intros (q' & Hq & ->)%fmap_Some. cbn.
    destruct (rf_queues _ _ HR t q' Hq) as (Hc & _). split; [lia|done].
Qed.

Lemma reset_first_at g k :
  let fk := VertexKey g (mkVertex InstrFetch 0) in
  length_at (reset_types (reset_first g)) k = (if decide (k = fk) then [0] else length_at g k) /\
  cycles_at (reset_types (reset_first g)) k = (if decide (k = fk) then fun _ => [0] else cycles_at g k) /\
  instructions_at (reset_types (reset_first g)) k =
    (if decide (k = fk) then fun _ => [0] else instructions_at g k).
Proof.
  intros fk. unfold reset_types, reset_first, length_at, cycles_at, instructions_at. cbn. fold fk.
  destruct (decide (k = fk)) as [->|]; [by rewrite !lookup_insert_eq|by rewrite !lookup_insert_ne].
Qed.

Lemma zero_vector m : 0 <= m -> exists x, [0] = [x] /\ 0 <= x <= m.
Proof. exists 0. done. Qed.

(** Clearing the first vertex keeps the breakdown complete. *)
Lemma reset_balanced m g : 0 <= m -> balanced m g -> balanced m (reset_types (reset_first g)).
Proof.
  intros Hm [B1 B2 B3 B4]. split; intros k; destruct (reset_first_at g k) as (H1 & H2 & H3);
    rewrite ?H1, ?H2, ?H3; case_decide; try done.
  - by exists 0.
  - intros f. by exists 0.
  - intros f. by apply zero_vector.
Qed.

Lemma reset_sound m B g : 0 <= m -> sound m B g -> sound m B (reset_types (reset_first g)).
Proof.
  intros Hm [S1 S2 S3 S4]. split; [done|by apply reset_balanced| |done]. intros k.
  destruct (reset_first_at g k) as (-> & _). by case_decide.
Qed.

Lemma reset_fresh g : fresh g -> fresh (reset_types (reset_first g)).
Proof.
  intros [HB Hz]. split; [by apply reset_balanced|]. intros k.
  destruct (reset_first_at g k) as (-> & _). by case_decide.
Qed.

Lemma reset_ld_st_none w k :
  (List.length w <= Z.to_nat k)%nat ->
  List.length (reset_ld_st w k) = List.length w /\
  Forall (fun e => e.1 = UINT64_MAX) (reset_ld_st w k).
Proof.
  intros Hl. unfold reset_ld_st. rewrite length_imap. split; [done|].
  apply Forall_lookup_2. intros i e He. apply list_lookup_imap_Some in He as (x & Hx & ->).
  apply lookup_lt_Some in Hx. destruct (Nat.ltb_spec i (Z.to_nat k)); [done|lia].
Qed.

Section Next.
Context {CI CD BP : Type} `{!Cache CI} `{!Cache CD} `{!CacheLaws CI} `{!CacheLaws CD}.
Context `{!BranchPredictor BP}.
Notation O3 := (@O3CoreGraph CI CD BP).

(** A window can start from any state that is set up for it. *)
Lemma init_window z W (s : O3) :
  let st := instrCount s in
  window s = W -> 0 < W -> 0 <= st -> st mod W = 0 -> st + W < 2 ^ 62 ->
  analyzedWindows s * W = st -> sizes_ok z -> params_ok (params s) -> set_up z (scoreboard s) ->
  set_up z (reset_scoreboard (scoreboard s)) -> ready (reset_scoreboard (scoreboard s)) ->
  List.length (ldStWindow (book s)) = Z.to_nat (lq_size z + sq_size z) ->
  List.length (ldStWindowType (book s)) = Z.to_nat (lq_size z + sq_size z) ->
  option_ok (icache s) -> option_ok (dcache s) -> scheduleOrder s = [] ->
  window_inv z W st (base (initBookKeeping s)) [] (initBookKeeping s).
Proof.
  intros st Hw HW H0 Hm Hb Ha Hz Hp Hsu Hsr Hrd L1 L2 Hic Hdc Hsch.
  pose proof Hz as [HF Hsm]. rewrite !Forall_cons in HF.
  destruct HF as (_ & _ & _ & _ & _ & _ & _ & Hlq & Hsq & _).
  assert (Hn : forall i, ~ (st <= i < st)) by (intros; lia).
  destruct (lsq_sizes z _ Hsu) as [Elq Esq].
  destruct (reset_ld_st_none (ldStWindow (book s)) (lq_size z + sq_size z)) as [RL RF]; [lia|].
  assert (Hu : u32 (lq_size z + sq_size z) = lq_size z + sq_size z) by (apply Z.mod_small; lia).
  split; cbn [initBookKeeping set_scoreboard set_graph set_base set_book instrCount scoreboard graph
    base icache dcache scheduleOrder analyzedWindows]; try done.
  - split; cbn [initBookKeeping set_scoreboard set_graph set_base set_book instrCount scoreboard book
      params]; try done; [fold st; lia|].
    rewrite Elq, Esq, Hu. split; cbn; try done; try (by left); try lia.
    eapply Forall_impl; [exact RF|]. intros e He. by left.
  - cbn. lia.
  - intros i Hi. by destruct (Hn i).
  - cbn. by rewrite <- Hw.
Qed.

(** After a full window has been analysed the next one starts. *)
Lemma next_window z W st b0 es (s s' : O3) m B :
  window_inv z W st b0 es s -> analysed s s' m B -> instrCount s = st + W -> st + W + W < 2 ^ 62 ->
  0 <= m ->
  window_inv z W (st + W) (base (initBookKeeping s')) [] (initBookKeeping s') /\
  sound m B (base (initBookKeeping s')).
Proof.
  intros Hw [A1 A2 A3 A4 [h A5] A6 A7 [A8 A9] [A10 A11]] Hn Hmax Hm.
  destruct (wi_reading _ _ _ _ _ _ Hw) as [(R1 & R2 & R3 & R4) R5 R6 R7 R8 R9].
  assert (Hsu : set_up z (scoreboard s')) by (by eapply set_up_same).
  destruct (reset_ready z _ h Hsu A5) as [Hsr Hrd]. split; [|by apply reset_sound].
  rewrite <- Hn, <- A8. apply init_window; rewrite ?A8, ?A1, ?A6, ?Hn; try done; try lia.
  - unfold window in *. destruct A2 as (-> & _). done.
  - rewrite Z.add_mod, R4, Z.mod_same, Z.mod_0_l by lia. reflexivity.
  - rewrite A9, Z.mul_add_distr_r, (wi_windows _ _ _ _ _ _ Hw). lia.
  - apply R9.
  - apply R9.
  - rewrite A10. apply Hw.
  - rewrite A11. apply Hw.
Qed.
End Next.

(** ** Whole traces *)

Lemma window_base {CI CD BP} `{!Cache CI} `{!Cache CD} `{!CacheLaws CI} `{!CacheLaws CD}
    `{!BranchPredictor BP} z W st b0 es (s : @O3CoreGraph CI CD BP) :
  window_inv z W st b0 es s ->
  (forall m B, sound m B b0 -> sound m B (base s)) /\ (fresh b0 -> fresh (base s)) /\
  intAluTotalCycles (base s) = intAluTotalCycles b0.
Proof.
  intros Hw. rewrite (wi_base _ _ _ _ _ _ Hw). split; [|split; [|done]].
  - intros m B [[C1 C2] [B1 B2 B3 B4] S3 S4]. by repeat split.
  - intros [[B1 B2 B3 B4] Hz]. by repeat split.
Qed.

Section Trace.
Context {CI CD BP : Type} `{!Cache CI} `{!Cache CD} `{!CacheLaws CI} `{!CacheLaws CD}.
Context `{!BranchPredictor BP}.
Notation O3 := (@O3CoreGraph CI CD BP).
Context (z : Sizes) (W : Z) (HWb : 0 < W < 2 ^ 32).

(** What [n] instructions can add to a path, and to its counts. *)
Definition load_of (n : Z) : Z := 38 * n.
Definition within (n : Z) : Prop := 2 ^ 32 * load_of n <= INT64_MAX.

(** The state between two instructions of a run. *)
Record running (st : Z) (s : O3) : Prop := {
  ru_window : exists b0 es, window_inv z W st b0 es s /\ intAluTotalCycles b0 = 1 /\
    sound (load_of st) (2 ^ 32 * load_of st) b0
}.

(** The state after a run over [n] instructions. *)
Record finished (n : Z) (s : O3) : Prop := {
  fi_count : instrCount s = n;
  fi_windows : analyzedWindows s = (n + W - 1) / W;
  fi_sound : sound (load_of n) (2 ^ 32 * load_of n) (base s)
}.

Lemma running_analyse st s :
  running st s -> within (instrCount s) ->
  exists b0 es s', window_inv z W st b0 es s /\ anaylzeWindow s = Ok s' /\
    analysed s s' (load_of (instrCount s)) (2 ^ 32 * load_of (instrCount s)) /\
    intAluTotalCycles (base s') = 1.
Proof using HWb BranchPredictor0.
  intros [(b0 & es & Hw & Ha & Hs)] Hb. unfold within, load_of in *.
  destruct (window_base z W st b0 es s Hw) as (HS & _ & HA). rewrite Ha in HA.
  assert (Hbig : 38 * instrCount s <= INT64_MAX).
  { destruct (window_facts z W st b0 es s Hw) as (_ & ? & _ & _ & ?). lia. }
  destruct (analyse_ok z W st b0 es s Hw _ _ (HS _ _ Hs) HA) as (g1 & l & s' & E & _ & _ & _ & _ & _ & An);
    [lia..|].
  exists b0, es, s'. split; [done|]. split; [done|]. split.
  - replace (38 * instrCount s) with (38 * st + 38 * (instrCount s - st)) by lia.
    by rewrite Z.mul_add_distr_l.
  - destruct (an_config _ _ _ _ An) as (_ & _ & _ & _ & -> & _). done.
Qed.

(** A run that keeps the states in which a window has just been analysed. *)
Definition head_windows (s : O3) : res (list O3 * O3) :=
  if (0 <? instrCount s) && (instrCount s mod window s =? 0)
  then s ← anaylzeWindow s; Ok ([s], initBookKeeping s) else Ok ([], s).
Fixpoint run_windows (s : O3) (trace : list Instruction) : res (list O3 * O3) :=
  '(ws, s) ← head_windows s;
  match trace with
  | [] => if instrCount s mod window s =? 0 then Ok (ws, s) else s ← anaylzeWindow s; Ok (ws ++ [s], s)
  | instr :: trace' =>
      s ← model s instr;
      '(ws', s) ← run_windows (advance s) trace';
      Ok (ws ++ ws', s)
  end.

Lemma head_windows_run {A} (s : O3) (f : O3 -> res A) :
  (s ← (if (0 <? instrCount s) && (instrCount s mod window s =? 0)
        then s ← anaylzeWindow s; Ok (initBookKeeping s) else Ok s); f s) =
  ('(ws, s) ← head_windows s; f s).
Proof. unfold head_windows. destruct (_ && _); [|done]. by destruct (anaylzeWindow s). Qed.

Lemma run_windows_run s trace : run_loop s trace = ('(ws, s) ← run_windows s trace; Ok s).
Proof.
  revert s. induction trace as [|i trace IH]; intros s; cbn [run_loop run_windows]; rewrite head_windows_run;
    (destruct (head_windows s) as [[ws s1]|]; [|done]); cbn [mbind res_bind].
  - destruct (_ =? 0); [done|]. by destruct (anaylzeWindow s1).
  - destruct (model s1 i) as [s2|]; [|done]. cbn [mbind res_bind]. fold (advance s2). rewrite IH.
    by destruct (run_windows (advance s2) trace) as [[ws' s3]|].
Qed.

(** The state after window number [j] of a run over [N] instructions. *)
Record window_end (N j : Z) (s : O3) : Prop := {
  we_window : AnalysisWindow (base s) = W;
  we_count : instrCount s = Z.min N ((j + 1) * W) /\ j * W < instrCount s;
  we_number : analyzedWindows s = j + 1;
  we_sound : sound (load_of (instrCount s)) (2 ^ 32 * load_of (instrCount s)) (base s)
}.
Definition window_ends (N j : Z) (ws : list O3) : Prop :=
  forall i w, ws !! i = Some w -> window_end N (j + Z.of_nat i) w.

Lemma window_ends_nil N j : window_ends N j [].
Proof. intros i w Hi. by rewrite lookup_nil in Hi. Qed.
Lemma window_ends_cons N j w ws :
  window_end N j w -> window_ends N (j + 1) ws -> window_ends N j (w :: ws).
Proof.
  intros Hw Hws [|i] x; cbn [lookup list_lookup]; [intros [= <-]; by rewrite Z.add_0_r|].
  intros Hi. replace (j + Z.of_nat (S i)) with (j + 1 + Z.of_nat i) by lia. by apply Hws.
Qed.

Lemma analysed_end st s s' N :
  (exists b0 es, window_inv z W st b0 es s) ->
  analysed s s' (load_of (instrCount s)) (2 ^ 32 * load_of (instrCount s)) ->
  st < instrCount s -> instrCount s = Z.min N (st + W) ->
  window_end N (analyzedWindows s) s'.
Proof using HWb.
  intros (b0 & es & Hw) An Hst Hc. pose proof (wi_windows _ _ _ _ _ _ Hw) as Hwin.
  destruct (window_facts z W st b0 es s Hw) as (HW & H0 & Hm & Haw & Hn).
  destruct (an_counts _ _ _ _ An) as [A1 A2]. split.
  - destruct (an_config _ _ _ _ An) as (-> & _). exact Haw.
  - rewrite A1, Z.mul_add_distr_r, Hwin, Z.mul_1_l. by split.
  - exact A2.
  - rewrite A1. apply An.
Qed.

(** The step at the head of the loop, between two windows or not. *)
Lemma boundary N st s :
  running st s -> (instrCount s = 0 \/ st < instrCount s) -> within (instrCount s) ->
  instrCount s < 2 ^ 60 -> instrCount s <= N ->
  exists st' ws s', head_windows s = Ok (ws, s') /\
    running st' s' /\ instrCount s' = instrCount s /\ st' <= instrCount s' < st' + W /\ st' mod W = 0 /\
    window_ends N (analyzedWindows s) ws /\
    analyzedWindows s' = analyzedWindows s + Z.of_nat (List.length ws).
Proof using HWb BranchPredictor0.
  intros Hr Hst Hb Hmax HN. pose proof Hr as [(b0 & es & Hw & Ha & Hs)].
  destruct (window_facts z W st b0 es s Hw) as (HW & H0 & Hm & Haw & Hn).
  unfold head_windows, window. rewrite Haw.
  destruct (decide (instrCount s = st + W)) as [E|E].
  - destruct (Z.ltb_spec 0 (instrCount s)) as [_|]; [|lia].
    assert (Hmod : instrCount s mod W = 0)
      by (rewrite E, Z.add_mod, Hm, Z.mod_same, Z.mod_0_l by lia; done).
    rewrite Hmod, Z.eqb_refl. cbn [andb].
    destruct (running_analyse st s Hr Hb) as (b0' & es' & s1 & Hw' & -> & An & Ha1).
    cbn [mbind res_bind]. exists (st + W). eexists _, _. split; [done|].
    destruct (next_window z W st b0' es' s s1 _ _ Hw' An E) as [Hw1 Hs1]; [lia|unfold load_of; lia|].
    rewrite E in Hs1.
    assert (Hc : instrCount (initBookKeeping s1) = instrCount s) by apply An.
    split; [split; eexists _, []; split_and!; done|]. split; [done|].
    rewrite Hc. split; [lia|]. split; [by rewrite <- E|]. split; [|apply (proj2 (an_counts _ _ _ _ An))].
    apply window_ends_cons; [|apply window_ends_nil].
    apply (analysed_end st s s1); [eauto|done|lia|lia].
  - exists st, [], s. split.
    { destruct (Z.ltb_spec 0 (instrCount s)); [|done]. cbn [andb].
      rewrite (slot_of W st) by (done || lia). destruct (Z.eqb_spec (instrCount s - st) 0); [lia|done]. }
    split; [done|]. split; [done|]. split; [lia|]. split; [done|]. split; [apply window_ends_nil|cbn; lia].
Qed.

Lemma window_ends_app N j ws ws' :
  window_ends N j ws -> window_ends N (j + Z.of_nat (List.length ws)) ws' -> window_ends N j (ws ++ ws').
Proof.
  intros H1 H2 i w [Hi|[Hl Hi]]%lookup_app_Some; [by apply H1|].
  replace (j + Z.of_nat i) with (j + Z.of_nat (List.length ws) + Z.of_nat (i - List.length ws)) by lia.
  by apply H2.
Qed.

Lemma run_windows_ok trace st s :
  let N := instrCount s + Z.of_nat (List.length trace) in
  running st s -> (instrCount s = 0 \/ st < instrCount s) -> Forall instr_ok trace -> within N ->
  exists ws s', run_windows s trace = Ok (ws, s') /\ finished N s' /\
    window_ends N (analyzedWindows s) ws /\
    analyzedWindows s' = analyzedWindows s + Z.of_nat (List.length ws).
Proof using HWb BranchPredictor0.
  revert st s. induction trace as [|instr trace IH]; intros st s N Hr Hst Hok Hb;
    unfold within, load_of, INT64_MAX in Hb; cbn [List.length] in *; cbn [run_windows];
    (destruct (boundary N st s Hr Hst) as (st1 & ws1 & s1 & -> & Hr1 & Hc1 & Hn1 & Hm1 & We1 & Na1);
      [unfold within, load_of, INT64_MAX; lia|lia|lia|]); cbn [mbind res_bind].
  - subst N. rewrite Z.add_0_r in *. pose proof Hr1 as [(b1 & es1 & Hw1 & _ & Hs1)].
    destruct (window_facts z W st1 b1 es1 s1 Hw1) as (HW & H0 & _ & Haw & _).
    pose proof (wi_windows _ _ _ _ _ _ Hw1) as Hwin.
    unfold window. rewrite Haw, (slot_of W st1) by (done || lia).
    destruct (Z.eqb_spec (instrCount s1 - st1) 0) as [E|E].
    + exists ws1, s1. split; [done|]. assert (st1 = instrCount s) as -> by lia. split; [|done]. split; [done| |].
      * apply (Z.div_unique _ W _ (W - 1)); lia.
      * by apply (window_base z W _ b1 es1 s1 Hw1).
    + destruct (running_analyse st1 s1 Hr1) as (_ & _ & s2 & _ & E2 & An & _);
        [unfold within, load_of, INT64_MAX; lia|].
      exists (ws1 ++ [s2]), s2. rewrite E2. split; [done|].
      destruct (an_counts _ _ _ _ An) as [A1 A2]. rewrite Hc1 in A1. split; [split|split].
      * done.
      * rewrite A2. apply (Z.div_unique _ W _ (instrCount s - st1 - 1)); lia.
      * rewrite <- Hc1. apply An.
      * apply window_ends_app; [done|]. apply window_ends_cons; [|apply window_ends_nil]. rewrite <- Na1.
        apply (analysed_end st1 s1 s2); [eauto|done|lia|lia].
      * rewrite A2, Na1, length_app. cbn. lia.
  - apply Forall_cons in Hok as [Hi Hok]. destruct Hr1 as [(b1 & es1 & Hw1 & Ha1 & Hs1)].
    destruct (model_step z W st1 b1 es1 s1 instr Hw1) as (es2 & s2 & E2 & Hw2 & Hc2); [lia|done|].
    assert (Na2 : analyzedWindows (advance s2) = analyzedWindows s1).
    { pose proof (wi_windows _ _ _ _ _ _ Hw2) as W2. pose proof (wi_windows _ _ _ _ _ _ Hw1) as W1. nia. }
    rewrite E2. cbn [mbind res_bind].
    replace N with (instrCount s + 1 + Z.of_nat (List.length trace)) in * by (unfold N; lia).
    destruct (IH st1 (advance s2)) as (ws & s3 & E3 & F3 & We3 & Na3); rewrite ?Hc2, ?Hc1 in *.
    + split. by exists b1, (es1 ++ es2).
    + right. lia.
    + done.
    + unfold within, load_of, INT64_MAX. lia.
    + rewrite E3. cbn [mbind res_bind]. exists (ws1 ++ ws), s3. split; [done|]. split; [done|].
      rewrite Na2, Na1 in *. split; [by apply window_ends_app|]. rewrite Na3, length_app. lia.
Qed.

Lemma run_loop_ok trace st s :
  let N := instrCount s + Z.of_nat (List.length trace) in
  running st s -> (instrCount s = 0 \/ st < instrCount s) -> Forall instr_ok trace -> within N ->
  exists s', run_loop s trace = Ok s' /\ finished N s'.
Proof using HWb BranchPredictor0.
  intros N Hr Hst Hok Hb. destruct (run_windows_ok trace st s Hr Hst Hok Hb) as (ws & s' & E & F & _).
  exists s'. by rewrite run_windows_run, E.
Qed.
End Trace.

(** ** Construction *)

Section New.
Context {CI CD BP : Type} `{!Cache CI} `{!Cache CD} `{!CacheLaws CI} `{!CacheLaws CD}.
Context `{!BranchPredictor BP}.
Notation O3 := (@O3CoreGraph CI CD BP).

(** The state the constructor makes is ready for the first window, and every path
    in it is empty. *)
Lemma new_ok mem_int mem_fp mem_mix mem_types W p z
    (ic : option CI) (dc : option CD) (pred : option BP) :
  0 < W < 2 ^ 32 -> params_ok p -> sizes_ok z ->
  List.length mem_int = Z.to_nat (int_mul_div_count z) ->
  List.length mem_fp = Z.to_nat (fp_mul_div_count z) ->
  List.length mem_types = Z.to_nat (lq_size z + sq_size z) ->
  option_ok ic -> option_ok dc ->
  exists s : O3, O3CoreGraph_new mem_int mem_fp mem_mix mem_types W p z ic dc pred = Ok s /\
    window_inv z W 0 (base s) [] s /\ fresh (base s) /\ sound 0 0 (base s) /\
    intAluTotalCycles (base s) = 1 /\ instrCount s = 0 /\ params s = p /\
    scoreboard s = board mem_int mem_fp z.
Proof.
  intros HW Hp Hz Li Lf Lt Hic Hdc. unfold O3CoreGraph_new.
  rewrite init_scoreboard_board. cbn [mbind res_bind].
  pose proof (board_set_up mem_int mem_fp z) as Hsu.
  pose proof (board_ready mem_int mem_fp z Hz Li Lf) as Hrd.
  assert (Hreset : reset_scoreboard (board mem_int mem_fp z) = board mem_int mem_fp z) by reflexivity.
  rewrite (alu_latency z _ Hsu). eexists. split; [reflexivity|].
  set (g := mkGraph W 20 5 20 1 ∅ ∅ ∅ ∅).
  assert (Hf : fresh g) by (by apply empty_fresh).
  destruct Hz as [HF Hsm]. pose proof HF as HF'. rewrite !Forall_cons in HF'.
  split; [|split; [by apply reset_fresh|split; [apply reset_sound; [lia|]|done]]].
  - match goal with |- context [initBookKeeping ?s0] => set (s := s0) end.
    apply (init_window z W s); unfold s; cbn [instrCount window base AnalysisWindow analyzedWindows params scoreboard
      book ldStWindow ldStWindowType icache dcache scheduleOrder g]; rewrite ?Hreset; try done; try lia.
    rewrite length_replicate. unfold u32. rewrite Z.mod_small by lia. done.
  - split; [done|apply Hf| |done]. intros k. by rewrite (proj2 Hf).
Qed.
End New.
