(* ===== verification/CalipersInorder.v ===== *)
(** * The in-order core of Calipers

    infras/calipers/src/graph/inorder_core_graph.cpp and .h, and
    graph/scoreboard_simple.h.  Every instruction is modelled and its critical
    paths are computed before the next one is read; the maps hold the last
    [AnalysisWindow] instructions.  The edges into the current instruction are
    collected in [miniGraph], ten per vertex at most, and an edge that reaches
    back further than the window ends the program.  The edges between executions
    are collected in an [unordered_map], whose order of iteration the language
    leaves open: the class [HashOrder] gives it. *)

From S2P Require Import Prelude Machine CalipersCycles CalipersScoreboard CalipersO3.

#[local] Open Scope list_scope.
#[local] Open Scope Z_scope.

(** The order in which an [unordered_map] lists its entries. *)
Class HashOrder := {
  hash_order : gmap Z Z -> list (Z * Z);
  hash_order_perm : forall m, hash_order m ≡ₚ map_to_list m
}.
#[export] Instance SomeOrder : HashOrder :=
  {| hash_order := map_to_list; hash_order_perm := fun m => reflexivity _ |}.

Module CalI.
Import CalG CalS CalO.

Definition MAX_PARENTS : Z := 10.
Definition INO_WINDOW : Z := 400.

(** ** The simple scoreboard *)

Record SimpleResource := mkSimple {
  s_count : Z;
  totalCycles : Z;
  sourceIndependentCycles : Z;
  nextIssueCycles : Z
}.
(** The last user of each unit, and the users in its pipeline. *)
Record SimpleRecord := mkRecord {
  users : list Z;
  next : Z;
  prevUsers : list (list Z);
  pipelineHead : list Z
}.
Record ScoreboardSimple := mkSimpleBoard {
  s_resources : gmap Z SimpleResource;
  s_records : gmap Z SimpleRecord
}.

(** [operator[]]; an absent record has no arrays. *)
Definition simple_at (b : ScoreboardSimple) (t : Z) : SimpleResource :=
  default (mkSimple 0 0 0 0) (s_resources b !! t).
Definition record_at (b : ScoreboardSimple) (t : Z) : SimpleRecord :=
  default (mkRecord [] 0 [] []) (s_records b !! t).

Definition blank_record (r : SimpleResource) : SimpleRecord :=
  let n := Z.to_nat (s_count r) in
  mkRecord (replicate n UINT64_MAX) 0
    (replicate n (replicate (Z.to_nat (totalCycles r)) UINT64_MAX)) (replicate n 0).

Definition initRecords (b : ScoreboardSimple) : ScoreboardSimple :=
  mkSimpleBoard (s_resources b) (map_imap (fun t _ => Some (blank_record (simple_at b t))) (s_records b)).

(** The arrays are allocated in a loop over the units: without a unit there are
    none. *)
Definition simple_init (b : ScoreboardSimple) (t cnt total independent next_issue : Z)
    : res ScoreboardSimple :=
  match s_resources b !! t with
  | Some _ => Stop ErrorExit
  | None =>
      let r := mkSimple cnt total independent next_issue in
      Ok (initRecords (mkSimpleBoard (<[t := r]> (s_resources b))
            (if 0 <? cnt then <[t := blank_record r]> (s_records b) else s_records b)))
  end.

(** Returns the unit, its last user, the cycles to wait for it, and the user at
    the head of its pipeline. *)
Definition simple_schedule (b : ScoreboardSimple) (t instr_num : Z)
    : res (Z * Z * Z * Z * ScoreboardSimple) :=
  let r := record_at b t in
  let u := simple_at b t in
  let instance := next r in
  pipeline_idx ← elem (pipelineHead r) instance;
  previous_instr ← elem (users r) instance;
  match prevUsers r !! Z.to_nat instance with
  | None => Stop Undefined
  | Some row =>
      head_of_pipeline ← elem row pipeline_idx;
      if (s_count u =? 0) || (totalCycles u =? 0) then Stop Undefined
      else
        let r' := mkRecord (<[Z.to_nat instance := instr_num]> (users r))
                    (u32 (instance + 1) mod s_count u)
                    (<[Z.to_nat instance := <[Z.to_nat pipeline_idx := instr_num]> row]>
                       (prevUsers r))
                    (<[Z.to_nat instance := u32 (pipeline_idx + 1) mod totalCycles u]>
                       (pipelineHead r)) in
        Ok (instance, previous_instr, nextIssueCycles u, head_of_pipeline,
            mkSimpleBoard (s_resources b) (<[t := r']> (s_records b)))
  end.

(** ** State *)

Record InorderParams := mkInorder {
  i_fetchBandwidth : Z;
  i_dispatchBandwidth : Z;
  i_issueBandwidth : Z;
  i_commitBandwidth : Z;
  i_decodeCycles : Z;
  i_dispatchCycles : Z;
  i_executeToCommitCycles : Z;
  i_predictionCycles : Z;
  i_mispredictionPenalty : Z;
  i_memIssueBandwidth : Z;
  i_memCommitBandwidth : Z;
  maxMemAccesses : Z;
  loadDependentEarlyIssue : bool;
  loadEarlyIssue : bool
}.

(** Set by the constructor. *)
Definition extraLoadLatency : Z := 2.

Record InorderBook := mkInorderBook {
  i_lastMisprediction : Z;
  i_previousMispredicted : bool;
  i_previousWasBranch : bool;
  i_linearPC : Z;
  i_regLastWrittenBy : gmap Z (Z * Z);
  i_regLastWrittenByLoad : gmap Z bool;
  i_ldStWindow : list (Z * Z);
  i_ldStWindowPointer : Z;
  i_lastMemLdSt : Z;
  lastLdStCriticalNum : Z;
  lastLdStCriticalCycles : Z;
  neededRsc : list (Z * Z)
}.

(** [miniGraph] and [parents]: the edges into each vertex of the instruction. *)
Definition MiniGraph : Type := VertexType -> list (Vertex * Vector).

Record InorderCoreGraph := mkInorderCore {
  i_params : InorderParams;
  i_base : Graph;
  i_board : ScoreboardSimple;
  i_book : InorderBook;
  i_stats : Stats;
  miniGraph : MiniGraph;
  i_instrCount : Z
}.

Definition i_set_base (s : InorderCoreGraph) (g : Graph) : InorderCoreGraph :=
  mkInorderCore (i_params s) g (i_board s) (i_book s) (i_stats s) (miniGraph s) (i_instrCount s).
Definition i_set_board (s : InorderCoreGraph) (b : ScoreboardSimple) : InorderCoreGraph :=
  mkInorderCore (i_params s) (i_base s) b (i_book s) (i_stats s) (miniGraph s) (i_instrCount s).
Definition i_set_book (s : InorderCoreGraph) (b : InorderBook) : InorderCoreGraph :=
  mkInorderCore (i_params s) (i_base s) (i_board s) b (i_stats s) (miniGraph s) (i_instrCount s).
Definition i_set_stats (s : InorderCoreGraph) (t : Stats) : InorderCoreGraph :=
  mkInorderCore (i_params s) (i_base s) (i_board s) (i_book s) t (miniGraph s) (i_instrCount s).
Definition set_mini (s : InorderCoreGraph) (m : MiniGraph) : InorderCoreGraph :=
  mkInorderCore (i_params s) (i_base s) (i_board s) (i_book s) (i_stats s) m (i_instrCount s).
Definition i_set_count (s : InorderCoreGraph) (n : Z) : InorderCoreGraph :=
  mkInorderCore (i_params s) (i_base s) (i_board s) (i_book s) (i_stats s) (miniGraph s) n.

(** ** Edges *)

Definition mini_set (m : MiniGraph) (t : VertexType) (l : list (Vertex * Vector)) : MiniGraph :=
  fun t' => if decide (t' = t) then l else m t'.

Definition mini_addEdge (s : InorderCoreGraph) (pe : Edge) : res InorderCoreGraph :=
  let c := child pe.2 in
  let l := miniGraph s (type c) in
  if AnalysisWindow (i_base s) <? u64 (instrNum c - instrNum pe.1) then Stop ErrorExit
  else if Z.of_nat (List.length l) =? MAX_PARENTS then Stop ErrorExit
  else Ok (set_mini s (mini_set (miniGraph s) (type c) (l ++ [(pe.1, weight pe.2)]))).
Definition mini_addEdges (s : InorderCoreGraph) (es : list Edge) : res InorderCoreGraph :=
  res_fold mini_addEdge s es.

(** ** The pipeline *)

(** Entries of [execute_parent]: an earlier execution and the cycles to it. *)
Notation parents_map := (gmap Z Z).
Definition parent_at (m : parents_map) (k : Z) : Z := default 0 (m !! k).
(** Read with [operator[]], which adds the entry, then raised. *)
Definition raise_parent (m : parents_map) (k w : Z) : parents_map :=
  <[k := if parent_at m k <? w then w else parent_at m k]> m.

(** After a misprediction a limit applies once enough instructions followed. *)
Definition settled_since (s : InorderCoreGraph) (limit : Z) : bool :=
  (i_lastMisprediction (i_book s) =? UINT64_MAX) ||
  (limit <? u64 (i_instrCount s - i_lastMisprediction (i_book s))).
Definition limit_edge (s : InorderCoreGraph) (t : VertexType) (limit : Z) : list Edge :=
  if (limit <=? i_instrCount s) && settled_since s limit
  then [edge t (u64 (i_instrCount s - limit)) t (i_instrCount s) 1] else [].
Definition near_memory (s : InorderCoreGraph) (limit : Z) : bool :=
  negb (i_lastMemLdSt (i_book s) =? UINT64_MAX) &&
  (u64 (i_instrCount s - i_lastMemLdSt (i_book s)) <=? limit) && settled_since s limit.

(** The stages of the instruction. *)
Definition i_stage_edges (s : InorderCoreGraph) (instr : Instruction) (execution_cycles : Z)
    : list Edge :=
  let n := i_instrCount s in
  let p := i_params s in
  [edge InstrFetch n InstrDispatch n (i_decodeCycles p);
   edge InstrDispatch n InstrExecute n (i_dispatchCycles p)] ++
  if load_store instr then
    [edge InstrExecute n MemExecute n (totalCycles (simple_at (i_board s) RscLsu));
     edge MemExecute n InstrCommit n (u32 (i_lsCycles instr + i_executeToCommitCycles p))]
  else [edge InstrExecute n InstrCommit n (u32 (execution_cycles + i_executeToCommitCycles p))].

(** Limited issue and memory issue, which also start [execute_parent]. *)
Definition issue_parent (s : InorderCoreGraph) : parents_map :=
  let limit := i_issueBandwidth (i_params s) in
  if (limit <=? i_instrCount s) && settled_since s limit
  then <[u64 (i_instrCount s - limit) := 1]> ∅ else ∅.
Definition mem_issue (s : InorderCoreGraph) (m : parents_map)
    : list Edge * parents_map * bool :=
  let last := i_lastMemLdSt (i_book s) in
  if near_memory s (i_memIssueBandwidth (i_params s)) then
    if parent_at m last <? 1 then
      ([edge InstrExecute last InstrExecute (i_instrCount s) 1], <[last := 1]> m,
       u64 (i_instrCount s - last) =? 1)
    else ([], <[last := parent_at m last]> m, false)
  else ([], m, false).

(** Program order, or the fetch after a misprediction. *)
Definition i_order_edges (s : InorderCoreGraph) (instr : Instruction) (mispred ino_issue ino_commit : bool)
    : list Edge :=
  let n := i_instrCount s in
  let p := i_params s in
  if mispred then
    [edge InstrExecute (u64 (n - 1)) InstrFetch n
       (u32 (totalCycles (simple_at (i_board s) RscIntAlu) + i_mispredictionPenalty p +
             fetchCycles instr))]
  else
    (if n =? 0 then []
     else [edge InstrFetch (u64 (n - 1)) InstrFetch n
             (if i_previousWasBranch (i_book s) && negb (pc instr =? i_linearPC (i_book s))
              then u32 (i_predictionCycles p + fetchCycles instr) else fetchCycles instr)]) ++
    (if (n =? 0) || (i_dispatchBandwidth p =? 1) then []
     else [edge InstrDispatch (u64 (n - 1)) InstrDispatch n 0]) ++
    (if ino_issue then [edge InstrExecute (u64 (n - 1)) InstrExecute n 0] else []) ++
    (if ino_commit then [edge InstrCommit (u64 (n - 1)) InstrCommit n 0] else []).

Definition i_pipeline_edges (s : InorderCoreGraph) (instr : Instruction) (execution_cycles : Z)
    (mispred : bool) : list Edge * parents_map :=
  let n := i_instrCount s in
  let p := i_params s in
  let '(mem_es, m, adjacent) := mem_issue s (issue_parent s) in
  let near := near_memory s (i_memCommitBandwidth p) in
  let last := i_lastMemLdSt (i_book s) in
  (i_stage_edges s instr execution_cycles ++
   limit_edge s InstrFetch (i_fetchBandwidth p) ++
   limit_edge s InstrDispatch (i_dispatchBandwidth p) ++
   limit_edge s InstrExecute (i_issueBandwidth p) ++ mem_es ++
   limit_edge s InstrCommit (i_commitBandwidth p) ++
   (if near then [edge InstrCommit last InstrCommit n 1] else []) ++
   i_order_edges s instr mispred
     (negb ((n =? 0) || (i_issueBandwidth p =? 1) || adjacent))
     (negb ((n =? 0) || (i_commitBandwidth p =? 1) || (near && (u64 (n - last) =? 1)))),
   m).

Definition book_predict (b : InorderBook) (mispred : bool) (last : Z) : InorderBook :=
  mkInorderBook last mispred (i_previousWasBranch b) (i_linearPC b) (i_regLastWrittenBy b)
    (i_regLastWrittenByLoad b) (i_ldStWindow b) (i_ldStWindowPointer b) (i_lastMemLdSt b)
    (lastLdStCriticalNum b) (lastLdStCriticalCycles b) (neededRsc b).

Definition i_modelPipeline (s : InorderCoreGraph) (instr : Instruction) (execution_cycles : Z)
    : res (InorderCoreGraph * parents_map) :=
  let mispred := i_previousMispredicted (i_book s) in
  let '(es, m) := i_pipeline_edges s instr execution_cycles mispred in
  let last := if mispred then u64 (i_instrCount s - 1) else i_lastMisprediction (i_book s) in
  s ← mini_addEdges (i_set_book s (book_predict (i_book s) (i_mispredicted instr) last)) es;
  Ok (s, m).

(** ** Memory order *)

(** [(instrCount - i) / issueBandwidth], unsigned. *)
Definition issue_distance (s : InorderCoreGraph) (i : Z) : res Z :=
  if i_issueBandwidth (i_params s) =? 0 then Stop Undefined
  else Ok (u64 (i_instrCount s - i) / i_issueBandwidth (i_params s)).

Definition access_edge (s : InorderCoreGraph) (e : Z * Z) : list Edge :=
  if e.2 =? UINT32_MAX then [] else [edge MemExecute e.1 MemExecute (i_instrCount s) e.2].

Definition wait_critical (s : InorderCoreGraph) : res InorderCoreGraph :=
  let b := i_book s in
  if lastLdStCriticalNum b =? UINT64_MAX then Ok s
  else
    d ← issue_distance s (lastLdStCriticalNum b);
    if d <? lastLdStCriticalCycles b then
      mini_addEdge s (edge InstrExecute (lastLdStCriticalNum b) MemExecute (i_instrCount s)
                        (lastLdStCriticalCycles b))
    else Ok s.

(** A load waits for the earliest access of the window, which is the next entry to
    be overwritten; a store for all of them.  The array has [maxMemAccesses]
    entries. *)
Definition load_order (s : InorderCoreGraph) : res InorderCoreGraph :=
  if maxMemAccesses (i_params s) =? 0 then Stop Undefined
  else match i_ldStWindow (i_book s) !!
               Z.to_nat (i_ldStWindowPointer (i_book s) mod maxMemAccesses (i_params s)) with
       | None => Stop Undefined
       | Some e => mini_addEdges s (access_edge s e)
       end.
Definition store_order (s : InorderCoreGraph) : res InorderCoreGraph :=
  mini_addEdges s (mjoin (access_edge s <$> i_ldStWindow (i_book s))).

Definition i_modelMemoryOrderConstraint (s : InorderCoreGraph) (is_load is_store : bool)
    : res InorderCoreGraph :=
  s ← (if is_load then load_order s else Ok s);
  s ← (if is_store then store_order s else Ok s);
  wait_critical s.

(** ** Dependences between executions *)

Definition reduced (cycles source_independent_cycles : Z) : Z :=
  if source_independent_cycles <? cycles then cycles - source_independent_cycles else 0.

Definition read_register (source_independent_cycles : Z) (sm : InorderCoreGraph * parents_map)
    (reg_read : Z) : res (InorderCoreGraph * parents_map) :=
  let '(s, m) := sm in
  let b := i_book s in
  match i_regLastWrittenBy b !! reg_read with
  | None => Ok (s, m)
  | Some (writer, cycles) =>
      if default false (i_regLastWrittenByLoad b !! reg_read) then
        let early := loadDependentEarlyIssue (i_params s) in
        let weight := if early then reduced cycles source_independent_cycles else cycles in
        d ← issue_distance s writer;
        if d <? weight then
          s ← mini_addEdge s
                (if early then edge MemExecute writer InstrExecute (i_instrCount s) weight
                 else edge InstrCommit writer InstrExecute (i_instrCount s) 0);
          Ok (s, m)
        else Ok (s, m)
      else Ok (s, raise_parent m writer (reduced cycles source_independent_cycles))
  end.
Definition i_trackDataDependencies (s : InorderCoreGraph) (instr : Instruction)
    (source_independent_cycles : Z) (m : parents_map) : res (InorderCoreGraph * parents_map) :=
  res_fold (read_register source_independent_cycles) (s, m) (regRead instr).

(** The unit the instruction needs. *)
Definition unit_of (instr : Instruction) : option Z :=
  match i_executionType instr with
  | IntBase | BranchCond | BranchUncond => Some RscIntAlu
  | IntMul => Some RscIntMul
  | IntDiv => Some RscIntDiv
  | FpBase | FpMul | FpDiv => Some RscFpu
  | _ => if load_store instr then Some RscLsu else None
  end.

Definition book_needed (b : InorderBook) (l : list (Z * Z)) : InorderBook :=
  mkInorderBook (i_lastMisprediction b) (i_previousMispredicted b) (i_previousWasBranch b)
    (i_linearPC b) (i_regLastWrittenBy b) (i_regLastWrittenByLoad b) (i_ldStWindow b)
    (i_ldStWindowPointer b) (i_lastMemLdSt b) (lastLdStCriticalNum b) (lastLdStCriticalCycles b) l.
Definition need_slot (s : InorderCoreGraph) (i : Z) : nat :=
  Z.to_nat (i mod AnalysisWindow (i_base s)).
Definition set_needed (s : InorderCoreGraph) (x : Z * Z -> Z * Z) : res InorderCoreGraph :=
  let l := neededRsc (i_book s) in
  match l !! need_slot s (i_instrCount s) with
  | None => Stop Undefined
  | Some e => Ok (i_set_book s (book_needed (i_book s) (<[need_slot s (i_instrCount s) := x e]> l)))
  end.

Definition modelResourceDependenciesSimple (s : InorderCoreGraph) (instr : Instruction)
    (m : parents_map) : res (InorderCoreGraph * parents_map) :=
  let n := i_instrCount s in
  match unit_of instr with
  | None => s ← set_needed s (fun e => (-1, e.2)); Ok (s, m)
  | Some t =>
      '(instance, previous_instr, wait_cycles, head_of_pipeline, b) ←
        simple_schedule (i_board s) t n;
      s ← set_needed (i_set_board s b) (fun _ => (if load_store instr then -1 else t, instance));
      let m := if previous_instr =? UINT64_MAX then m
               else raise_parent m previous_instr wait_cycles in
      s ← (if negb (head_of_pipeline =? UINT64_MAX) &&
              (u64 (n - head_of_pipeline) <? AnalysisWindow (i_base s)) then
             mini_addEdge s
               (edge (if load_store instr then MemExecute else InstrCommit) head_of_pipeline
                  InstrExecute n 0)
           else Ok s);
      Ok (s, m)
  end.

(** The loop over [execute_parent]. *)
Definition same_unit (x y : Z * Z) : bool :=
  negb (x.1 =? -1) && (x.1 =? y.1) && (x.2 =? y.2).
Definition parent_edges (s : InorderCoreGraph) (x : Z * Z) : res InorderCoreGraph :=
  let n := i_instrCount s in
  d ← issue_distance s x.1;
  if d <? x.2 then
    s ← mini_addEdge s (edge InstrExecute x.1 InstrExecute n x.2);
    match neededRsc (i_book s) !! need_slot s n, neededRsc (i_book s) !! need_slot s x.1 with
    | Some a, Some b =>
        if same_unit a b then mini_addEdge s (edge InstrCommit x.1 InstrCommit n x.2) else Ok s
    | _, _ => Stop Undefined
    end
  else Ok s.

(** ** Critical paths of the instruction *)

Definition relax_type (s : InorderCoreGraph) (t : VertexType) : res InorderCoreGraph :=
  b ← res_fold (fun b pw => updateCriticalPathCycles b pw.1
                              (mkEdge (mkVertex t (i_instrCount s)) pw.2))
        (i_base s) (miniGraph s t);
  Ok (set_mini (i_set_base s b) (mini_set (miniGraph s) t [])).
Definition calculateInstructionCriticalPath (s : InorderCoreGraph) : res InorderCoreGraph :=
  res_fold relax_type s all_types.

(** ** One instruction *)

(** Its cycles of execution, and those that need no operands. *)
Definition i_latency (s : InorderCoreGraph) (instr : Instruction) : Z * Z :=
  let cycles t := (totalCycles (simple_at (i_board s) t),
                   sourceIndependentCycles (simple_at (i_board s) t)) in
  if load_store instr then
    (u32 (totalCycles (simple_at (i_board s) RscLsu) + i_lsCycles instr),
     sourceIndependentCycles (simple_at (i_board s) RscLsu))
  else match i_executionType instr with
       | IntBase | BranchCond | BranchUncond => cycles RscIntAlu
       | IntMul => cycles RscIntMul
       | IntDiv => cycles RscIntDiv
       | FpBase | FpMul | FpDiv => cycles RscFpu
       | _ => (1, 0)
       end.

(** An instruction of an arithmetic unit. *)
Definition computes (instr : Instruction) : bool :=
  match i_executionType instr with
  | IntBase | BranchCond | BranchUncond | IntMul | IntDiv | FpBase | FpMul | FpDiv => true
  | _ => false
  end.

Definition i_count_instr (s : InorderCoreGraph) (instr : Instruction) : InorderCoreGraph :=
  i_set_stats (i_set_base s (set_type (i_base s) (i_instrCount s) (i_executionType instr)))
    (count_mix (i_stats s) (mix_index instr)).

Definition book_access (b : InorderBook) (w : list (Z * Z)) (ptr last : Z) : InorderBook :=
  mkInorderBook (i_lastMisprediction b) (i_previousMispredicted b) (i_previousWasBranch b)
    (i_linearPC b) (i_regLastWrittenBy b) (i_regLastWrittenByLoad b) w ptr last
    (lastLdStCriticalNum b) (lastLdStCriticalCycles b) (neededRsc b).
Definition book_critical (b : InorderBook) (num cycles : Z) : InorderBook :=
  mkInorderBook (i_lastMisprediction b) (i_previousMispredicted b) (i_previousWasBranch b)
    (i_linearPC b) (i_regLastWrittenBy b) (i_regLastWrittenByLoad b) (i_ldStWindow b)
    (i_ldStWindowPointer b) (i_lastMemLdSt b) num cycles (neededRsc b).
Definition book_pc (b : InorderBook) (was : bool) (lpc : Z) : InorderBook :=
  mkInorderBook (i_lastMisprediction b) (i_previousMispredicted b) was lpc
    (i_regLastWrittenBy b) (i_regLastWrittenByLoad b) (i_ldStWindow b) (i_ldStWindowPointer b)
    (i_lastMemLdSt b) (lastLdStCriticalNum b) (lastLdStCriticalCycles b) (neededRsc b).
Definition book_write (b : InorderBook) (r : Z) (x : Z * Z) (load : bool) : InorderBook :=
  mkInorderBook (i_lastMisprediction b) (i_previousMispredicted b) (i_previousWasBranch b)
    (i_linearPC b) (<[r := x]> (i_regLastWrittenBy b)) (<[r := load]> (i_regLastWrittenByLoad b))
    (i_ldStWindow b) (i_ldStWindowPointer b) (i_lastMemLdSt b) (lastLdStCriticalNum b)
    (lastLdStCriticalCycles b) (neededRsc b).

(** The bookkeeping for later instructions. *)
Definition i_record_memory (s : InorderCoreGraph) (instr : Instruction) : res InorderCoreGraph :=
  let b := i_book s in
  let ptr := Z.to_nat (i_ldStWindowPointer b) in
  if negb (Nat.ltb ptr (List.length (i_ldStWindow b))) || (maxMemAccesses (i_params s) =? 0)
  then Stop Undefined
  else Ok (i_set_book s (book_access b
             (<[ptr := (i_instrCount s, i_lsCycles instr)]> (i_ldStWindow b))
             (u32 (i_ldStWindowPointer b + 1) mod maxMemAccesses (i_params s)) (i_instrCount s))).
Definition i_finish_book (s : InorderCoreGraph) (instr : Instruction) (execution_cycles : Z)
    : InorderBook :=
  let p := i_params s in
  let n := i_instrCount s in
  let b := i_book s in
  let b := if negb (loadEarlyIssue p) && computes instr
           then book_critical b n execution_cycles else b in
  let b := book_pc b (is_branch instr) (u64 (pc instr + bytes instr)) in
  let cycles := if is_load instr then
                  if loadDependentEarlyIssue p then extraLoadLatency else i_lsCycles instr
                else execution_cycles in
  foldl (fun b r => book_write b r (n, cycles) (is_load instr)) b (regWrite instr).
Definition i_finish_stats (s : InorderCoreGraph) (instr : Instruction) : Stats :=
  let g := i_base s in
  let t := count_fetch (i_stats s) l1iThreshold (l2iThreshold g) (fetchCycles instr) in
  let t := if load_store instr then count_memory t (l1dThreshold g) (l2dThreshold g)
                                      (i_lsCycles instr) else t in
  count_branch t (is_branch instr) (i_mispredicted instr).
Definition i_finish (s : InorderCoreGraph) (instr : Instruction) (execution_cycles : Z)
    : res InorderCoreGraph :=
  s ← (if load_store instr then i_record_memory s instr else Ok s);
  let s := i_set_book s (i_finish_book s instr execution_cycles) in
  Ok (i_set_stats s (i_finish_stats s instr)).

(** The edges into the instruction. *)
Definition i_edges `{HashOrder} (s : InorderCoreGraph) (instr : Instruction)
    (execution_cycles source_independent_cycles : Z) : res InorderCoreGraph :=
  '(s, m) ← i_modelPipeline s instr execution_cycles;
  s ← (if load_store instr
       then i_modelMemoryOrderConstraint s (is_load instr) (is_store instr) else Ok s);
  '(s, m) ← i_trackDataDependencies s instr source_independent_cycles m;
  '(s, m) ← modelResourceDependenciesSimple s instr m;
  res_fold parent_edges s (hash_order m).

Definition i_model `{HashOrder} (s : InorderCoreGraph) (instr : Instruction)
    : res InorderCoreGraph :=
  let s := i_count_instr s instr in
  let '(execution_cycles, source_independent_cycles) := i_latency s instr in
  s ← i_edges s instr execution_cycles source_independent_cycles;
  s ← calculateInstructionCriticalPath s;
  i_finish s instr execution_cycles.

(** ** Set-up and the main loop *)

Definition i_initBookKeeping (s : InorderCoreGraph) : InorderCoreGraph :=
  let b := i_book s in
  mkInorderCore (i_params s) (reset_types (reset_first (i_base s))) (initRecords (i_board s))
    (mkInorderBook UINT64_MAX false (i_previousWasBranch b) (i_linearPC b) ∅ ∅
       ((fun e => (e.1, UINT32_MAX)) <$> i_ldStWindow b) 0 UINT64_MAX UINT64_MAX UINT32_MAX
       ((fun e => (-1, e.2)) <$> neededRsc b))
    (i_stats s) (fun _ => []) (i_instrCount s).

(** Each instruction is modelled before the next is read; the report and the
    progress messages are outputs. *)
Definition i_run `{HashOrder} (s : InorderCoreGraph) (trace : list Instruction)
    : res InorderCoreGraph :=
  res_fold (fun s instr => s ← i_model s instr; Ok (i_set_count s (u64 (i_instrCount s + 1))))
    s trace.

(** The numbers of the five kinds of units; [mem_branch], [mem_pc] and [mem_mix] are
    what members hold that the constructor does not set. *)
Definition init_simple (int_alu int_mul int_div fpu lsu : Z) : res ScoreboardSimple :=
  b ← simple_init (mkSimpleBoard ∅ ∅) RscIntAlu int_alu 3 2 1;
  b ← simple_init b RscIntMul int_mul 3 0 1;
  b ← simple_init b RscIntDiv int_div 9 0 9;
  b ← simple_init b RscFpu fpu 6 2 1;
  simple_init b RscLsu lsu 1 1 1.
Definition InorderCoreGraph_new (mem_branch : bool) (mem_pc : Z) (mem_mix : list Z)
    (p : InorderParams) (int_alu int_mul int_div fpu lsu : Z) : res InorderCoreGraph :=
  b ← init_simple int_alu int_mul int_div fpu lsu;
  let g := mkGraph INO_WINDOW 20 5 20 (totalCycles (simple_at b RscIntAlu)) ∅ ∅ ∅ ∅ in
  let book := mkInorderBook 0 false mem_branch mem_pc ∅ ∅
                (replicate (Z.to_nat (maxMemAccesses p)) (0, 0)) 0 0 0 0
                (replicate (Z.to_nat INO_WINDOW) (0, 0)) in
  Ok (i_initBookKeeping
        (mkInorderCore p g b book (mkStats mem_mix 0 0 0 0 0 0) (fun _ => []) 0)).

End CalI.
