(* ===== verification/CalipersInorderBoard.v ===== *)
(** * The simple scoreboard implements a history

    The scoreboard of the in-order core hands out the units of a kind in turn.
    The specification keeps the list of the users of each kind of unit, newest
    first: with [n] units of [c] cycles, a request gets the unit whose turn it is,
    waits for the user [n] requests back, and the head of the unit's pipeline is
    the user [n * c] requests back.  The arrays of the code refine it. *)

From S2P Require Import Prelude Machine CalipersScoreboard CalipersScoreFacts CalipersInorder.

#[local] Open Scope list_scope.
#[local] Open Scope Z_scope.

Import CalS CalI.

(** ** Specification *)

(** The unit, its previous user, the wait and the head of its pipeline. *)
Definition simple_answer : Type := Z * Z * Z * Z.
Definition Users : Type := Z -> list Z.

Definition simple_spec (b : ScoreboardSimple) (h : Users) (t : Z) : simple_answer :=
  let u := simple_at b t in
  (Z.of_nat (List.length (h t)) mod s_count u,
   default UINT64_MAX (h t !! Z.to_nat (s_count u - 1)),
   nextIssueCycles u,
   default UINT64_MAX (h t !! Z.to_nat (s_count u * totalCycles u - 1))).
Definition add_user (h : Users) (t i : Z) : Users :=
  fun t' => if decide (t' = t) then i :: h t' else h t'.

Fixpoint simple_spec_run (b : ScoreboardSimple) (h : Users) (rs : list (Z * Z))
    : list simple_answer * Users :=
  match rs with
  | [] => ([], h)
  | (t, i) :: rs =>
      let '(l, h') := simple_spec_run b (add_user h t i) rs in (simple_spec b h t :: l, h')
  end.
Fixpoint simple_run (b : ScoreboardSimple) (rs : list (Z * Z))
    : res (list simple_answer * ScoreboardSimple) :=
  match rs with
  | [] => Ok ([], b)
  | (t, i) :: rs =>
      '(instance, previous, wait, head, b) ← simple_schedule b t i;
      '(l, b) ← simple_run b rs;
      Ok ((instance, previous, wait, head) :: l, b)
  end.

(** ** The arrays of one kind of unit *)

(** [uh u] are the users of unit [u] alone: every [count]-th of the history. *)
Record unit_users (cnt nxt : nat) (h : list Z) (uh : nat -> list Z) : Prop := {
  uu_next : nxt = (List.length h mod cnt)%nat;
  uu_every : forall j k, (j < cnt)%nat -> uh (ring_at cnt nxt j) !! k = h !! (j + k * cnt)%nat
}.

Record record_refines (u : SimpleResource) (r : SimpleRecord) (h : list Z) : Prop := {
  rr_size : 1 <= s_count u < 2 ^ 32 /\ 1 <= totalCycles u < 2 ^ 32;
  rr_next : 0 <= next r < s_count u;
  rr_users : ring (Z.to_nat (s_count u)) (Z.to_nat (next r)) (users r) h /\
             blank (Z.to_nat (s_count u)) (Z.to_nat (next r)) (users r) h UINT64_MAX;
  rr_units : exists uh, unit_users (Z.to_nat (s_count u)) (Z.to_nat (next r)) h uh /\
    List.length (prevUsers r) = Z.to_nat (s_count u) /\
    List.length (pipelineHead r) = Z.to_nat (s_count u) /\
    forall i row hd, prevUsers r !! i = Some row -> pipelineHead r !! i = Some hd ->
      0 <= hd /\ ring (Z.to_nat (totalCycles u)) (Z.to_nat hd) row (uh i) /\
      blank (Z.to_nat (totalCycles u)) (Z.to_nat hd) row (uh i) UINT64_MAX
}.

Lemma ring_next_mod cnt len :
  (0 < cnt)%nat -> ring_next cnt (len mod cnt) = (S len mod cnt)%nat.
Proof.
  intros H. unfold ring_next.
  pose proof (Nat.div_mod_eq len cnt). pose proof (Nat.mod_upper_bound len cnt ltac:(lia)).
  destruct (Nat.eqb_spec (S (len mod cnt)) cnt) as [E|E].
  - apply (Nat.mod_unique _ _ (S (len / cnt))); lia.
  - apply (Nat.mod_unique _ _ (len / cnt)); lia.
Qed.

Lemma unit_users_push cnt nxt h uh x :
  (nxt < cnt)%nat -> unit_users cnt nxt h uh ->
  unit_users cnt (ring_next cnt nxt) (x :: h)
    (fun i => if decide (i = nxt) then x :: uh i else uh i).
Proof.
  intros Hn [U1 U2]. split.
  - cbn [List.length]. rewrite <- ring_next_mod by lia. by f_equal.
  - intros [|j] k Hj.
    + rewrite ring_at_first, decide_True by done. destruct k as [|k]; [done|].
      cbn [lookup list_lookup]. rewrite <- (ring_at_oldest cnt nxt) at 1 by done.
      rewrite U2 by lia. replace (0 + S k * cnt)%nat with (S (cnt - 1 + k * cnt)) by lia. done.
    + destruct (ring_at_shift cnt nxt j Hn Hj) as [-> Hne]. rewrite decide_False by done.
      rewrite U2 by lia. done.
Qed.

(** What a request reads and leaves behind. *)
Lemma record_step u r h i row hd :
  record_refines u r h ->
  prevUsers r !! Z.to_nat (next r) = Some row -> pipelineHead r !! Z.to_nat (next r) = Some hd ->
  let cnt := Z.to_nat (s_count u) in let nxt := Z.to_nat (next r) in
  next r = Z.of_nat (List.length h) mod s_count u /\
  users r !! nxt = Some (default UINT64_MAX (h !! Z.to_nat (s_count u - 1))) /\
  0 <= hd /\
  row !! Z.to_nat hd = Some (default UINT64_MAX (h !! Z.to_nat (s_count u * totalCycles u - 1))) /\
  record_refines u
    (mkRecord (<[nxt := i]> (users r)) (u32 (next r + 1) mod s_count u)
       (<[nxt := <[Z.to_nat hd := i]> row]> (prevUsers r))
       (<[nxt := u32 (hd + 1) mod totalCycles u]> (pipelineHead r))) (i :: h).
Proof.
  intros [[Rs Rt] Rn [Ru Rb] (uh & Uh & Lp & Lh & Rrow)] Hrow Hhd cnt nxt.
  fold cnt nxt in Ru, Rb, Uh, Lp, Lh, Hrow, Hhd.
  destruct (Rrow _ _ _ Hrow Hhd) as (Hd0 & Hring & Hblank).
  pose proof (ring_lt _ _ _ _ Hring) as Hdlt.
  assert (Hnl : (nxt < cnt)%nat) by (unfold nxt, cnt; lia).
  destruct (next_ring (next r) (s_count u)) as [N0 N1]; [lia..|].
  destruct (next_ring hd (totalCycles u)) as [P0 P1]; [lia..|].
  split_and!.
  - pose proof (uu_next _ _ _ _ Uh). rewrite <- (Z2Nat.id (s_count u)) by lia. fold cnt.
    rewrite <- Nat2Z.inj_mod. unfold nxt in *. lia.
  - rewrite (ring_oldest _ _ _ _ _ Ru Rb). do 3 f_equal. unfold cnt. lia.
  - done.
  - rewrite (ring_oldest _ _ _ _ _ Hring Hblank). do 2 f_equal.
    rewrite <- (ring_at_oldest cnt nxt) at 1 by done. rewrite (uu_every _ _ _ _ Uh) by lia.
    f_equal. rewrite <- (Z2Nat.id (s_count u)), <- (Z2Nat.id (totalCycles u)) by lia. fold cnt.
    set (c := Z.to_nat (totalCycles u)) in *. rewrite !Nat2Z.id. rewrite <- Nat2Z.inj_mul.
    assert (1 <= c)%nat by lia.
    enough (cnt - 1 + (c - 1) * cnt = cnt * c - 1)%nat by lia.
    destruct c as [|c']; [lia|]. nia.
  - split; cbn [next users prevUsers pipelineHead].
    + done.
    + apply Z.mod_pos_bound. lia.
    + rewrite N1. fold cnt nxt. split; [by apply ring_push|by apply blank_push].
    + rewrite N1. fold cnt nxt. eexists. split; [by apply unit_users_push|].
      rewrite !length_insert. split; [done|]. split; [done|].
      intros k row' hd' Hk1 Hk2. destruct (decide (k = nxt)) as [->|Hk].
      * rewrite list_lookup_insert_eq in Hk1 by lia. rewrite list_lookup_insert_eq in Hk2 by lia.
        injection Hk1 as <-. injection Hk2 as <-. split; [done|]. rewrite P1.
        split; [by apply ring_push|by apply blank_push].
      * rewrite list_lookup_insert_ne in Hk1 by done. rewrite list_lookup_insert_ne in Hk2 by done.
        by apply Rrow.
Qed.

(** ** The whole scoreboard *)

Definition board_refines (b : ScoreboardSimple) (h : Users) : Prop :=
  forall t, is_Some (s_resources b !! t) -> record_refines (simple_at b t) (record_at b t) (h t).

Lemma simple_schedule_ok b h t i :
  board_refines b h -> is_Some (s_resources b !! t) ->
  exists b', simple_schedule b t i = Ok (simple_spec b h t, b') /\
    s_resources b' = s_resources b /\ board_refines b' (add_user h t i).
Proof.
  intros Hb Ht. pose proof (Hb t Ht) as Hr.
  pose proof Hr as [[Rs Rt] Rn _ (uh & _ & Lp & Lh & _)].
  destruct (lookup_lt_is_Some_2 (prevUsers (record_at b t)) (Z.to_nat (next (record_at b t))))
    as [row Hrow]; [lia|].
  destruct (lookup_lt_is_Some_2 (pipelineHead (record_at b t)) (Z.to_nat (next (record_at b t))))
    as [hd Hhd]; [lia|].
  destruct (record_step _ _ _ i _ _ Hr Hrow Hhd) as (E1 & E2 & H0 & E3 & Hr').
  unfold simple_schedule. rewrite (elem_ok _ _ _ Hhd). cbn [mbind res_bind].
  rewrite (elem_ok _ _ _ E2). cbn [mbind res_bind]. rewrite Hrow, (elem_ok _ _ _ E3).
  cbn [mbind res_bind].
  destruct (Z.eqb_spec (s_count (simple_at b t)) 0); [lia|].
  destruct (Z.eqb_spec (totalCycles (simple_at b t)) 0); [lia|]. cbn [orb].
  eexists. split; [unfold simple_spec; rewrite E1 at 1; reflexivity|]. split; [done|].
  intros t' Ht'. unfold add_user, record_at, simple_at. cbn [s_resources s_records].
  destruct (decide (t' = t)) as [->|Hne].
  - rewrite lookup_insert_eq. exact Hr'.
  - rewrite lookup_insert_ne by done. by apply Hb.
Qed.

Lemma simple_run_ok b h rs :
  board_refines b h -> Forall (fun r => is_Some (s_resources b !! r.1)) rs ->
  exists b', simple_run b rs = Ok ((simple_spec_run b h rs).1, b') /\
    board_refines b' (simple_spec_run b h rs).2.
Proof.
  revert b h. induction rs as [|[t i] rs IH]; intros b h Hb Hrs; [eauto|].
  apply Forall_cons in Hrs as [Ht Hrs]. cbn [simple_run simple_spec_run].
  destruct (simple_schedule_ok b h t i Hb Ht) as (b1 & -> & Hres & Hb1).
  destruct (IH b1 (add_user h t i) Hb1) as (b2 & E2 & Hb2); [by rewrite Hres|].
  assert (Hspec : forall h, simple_spec_run b1 h rs = simple_spec_run b h rs).
  { clear -Hres. induction rs as [|[t i] rs IH]; intros h; [done|]. cbn. rewrite IH.
    unfold simple_spec, simple_at. by rewrite Hres. }
  rewrite Hspec in E2, Hb2. destruct (simple_spec_run b (add_user h t i) rs) as [l h'].
  unfold simple_spec. cbn [mbind res_bind]. rewrite E2. cbn. eauto.
Qed.

(** ** Set-up *)

Definition simple_setup (b : ScoreboardSimple) : Prop :=
  forall t u, s_resources b !! t = Some u ->
    1 <= s_count u < 2 ^ 32 /\ 1 <= totalCycles u < 2 ^ 32 /\ is_Some (s_records b !! t).

Lemma blank_refines u :
  1 <= s_count u < 2 ^ 32 -> 1 <= totalCycles u < 2 ^ 32 -> record_refines u (blank_record u) [].
Proof.
  intros Hc Ht. split; cbn [next users prevUsers pipelineHead blank_record]; [done|lia| |].
  - apply ring_replicate. lia.
  - exists (fun _ => []). rewrite !length_replicate. split_and!; try done.
    + split; [by rewrite Nat.Div0.mod_0_l|]. intros j k _. by rewrite !lookup_nil.
    + intros i row hd [-> _]%lookup_replicate [-> _]%lookup_replicate. split; [done|].
      apply ring_replicate. lia.
Qed.

Lemma initRecords_refines b : simple_setup b -> board_refines (initRecords b) (fun _ => []).
Proof.
  intros Hs t [u Hu]. cbn in Hu. destruct (Hs t u Hu) as (Hc & Ht & [r Hr]).
  unfold record_at, simple_at, initRecords. cbn [s_resources s_records].
  rewrite map_lookup_imap, Hr, Hu. cbn. unfold simple_at. rewrite Hu. cbn.
  by apply blank_refines.
Qed.

Lemma simple_init_ok b t cnt total independent wait :
  simple_setup b -> s_resources b !! t = None -> 1 <= cnt < 2 ^ 32 -> 1 <= total < 2 ^ 32 ->
  exists b', simple_init b t cnt total independent wait = Ok b' /\ simple_setup b' /\
    s_resources b' = <[t := mkSimple cnt total independent wait]> (s_resources b).
Proof.
  intros Hs Ht Hc Htot. unfold simple_init. rewrite Ht. eexists. split; [done|].
  split; [|done]. destruct (Z.ltb_spec 0 cnt); [|lia].
  intros t' u. unfold initRecords. cbn [s_resources s_records]. rewrite map_lookup_imap.
  destruct (decide (t' = t)) as [->|Hne].
  - rewrite !lookup_insert_eq. intros [= <-]. cbn. eauto.
  - rewrite !lookup_insert_ne by done. intros Hu. destruct (Hs t' u Hu) as (? & ? & [r ->]).
    cbn. eauto.
Qed.

(** The scoreboard the constructor sets up. *)
Definition unit_kinds (int_alu int_mul int_div fpu lsu : Z) : gmap Z SimpleResource :=
  <[RscLsu := mkSimple lsu 1 1 1]> (<[RscFpu := mkSimple fpu 6 2 1]>
  (<[RscIntDiv := mkSimple int_div 9 0 9]> (<[RscIntMul := mkSimple int_mul 3 0 1]>
  (<[RscIntAlu := mkSimple int_alu 3 2 1]> ∅)))).

Lemma init_simple_ok int_alu int_mul int_div fpu lsu :
  Forall (fun n => 1 <= n < 2 ^ 32) [int_alu; int_mul; int_div; fpu; lsu] ->
  exists b, init_simple int_alu int_mul int_div fpu lsu = Ok b /\ simple_setup b /\
    s_resources b = unit_kinds int_alu int_mul int_div fpu lsu.
Proof.
  rewrite !Forall_cons. intros (H1 & H2 & H3 & H4 & H5 & _). unfold init_simple.
  assert (Hs : simple_setup (mkSimpleBoard ∅ ∅)) by (intros t u; cbn; by rewrite lookup_empty).
  destruct (simple_init_ok _ RscIntAlu int_alu 3 2 1 Hs) as (b1 & -> & S1 & R1); [done|lia..|].
  cbn [mbind res_bind].
  destruct (simple_init_ok _ RscIntMul int_mul 3 0 1 S1) as (b2 & -> & S2 & R2); [by rewrite R1|lia..|].
  cbn [mbind res_bind].
  destruct (simple_init_ok _ RscIntDiv int_div 9 0 9 S2) as (b3 & -> & S3 & R3);
    [by rewrite R2, R1|lia..|].
  cbn [mbind res_bind].
  destruct (simple_init_ok _ RscFpu fpu 6 2 1 S3) as (b4 & -> & S4 & R4);
    [by rewrite R3, R2, R1|lia..|].
  cbn [mbind res_bind].
  destruct (simple_init_ok _ RscLsu lsu 1 1 1 S4) as (b5 & -> & S5 & R5);
    [by rewrite R4, R3, R2, R1|lia..|].
  exists b5. split; [done|]. split; [done|]. by rewrite R5, R4, R3, R2, R1.
Qed.
