(* ===== verification/CalipersInorderEdges.v ===== *)
(** * The edges into one instruction

    Which edges the in-order core gathers for an instruction: they come from at
    most a window back, carry weights the breakdown can account for, and fit the
    ten entries of each vertex. *)

From S2P Require Import Prelude Machine CalipersCycles CalipersScoreboard CalipersScoreFacts.
From S2P Require Import CalipersO3 CalipersO3Facts CalipersInorder CalipersInorderBoard.

#[local] Open Scope list_scope.
#[local] Open Scope Z_scope.

Import CalG CalS CalO CalI.

(** ** Gathering edges *)

Definition into (t : VertexType) (es : list Edge) : list (Vertex * Vector) :=
  (fun pe => (pe.1, weight pe.2)) <$> filter (fun pe => type (child pe.2) = t) es.
Definition gathered (s : InorderCoreGraph) (es : list Edge) : Prop :=
  forall t, miniGraph s t = into t es.

(** How many edges enter each kind of vertex. *)
Definition cnt (t : VertexType) (es : list Edge) : nat := List.length (into t es).
Definition at_most (es : list Edge) (f : VertexType -> nat) : Prop :=
  forall t, (cnt t es <= f t)%nat.
Definition one (t : VertexType) : VertexType -> nat := fun t' => if decide (t' = t) then 1%nat else 0%nat.

Lemma into_app t es es' : into t (es ++ es') = into t es ++ into t es'.
Proof. unfold into. by rewrite filter_app, fmap_app. Qed.
Lemma cnt_app t es es' : cnt t (es ++ es') = (cnt t es + cnt t es')%nat.
Proof. unfold cnt. by rewrite into_app, length_app. Qed.
Lemma at_most_app es es' f g :
  at_most es f -> at_most es' g -> at_most (es ++ es') (fun t => f t + g t)%nat.
Proof. intros H H' t. rewrite cnt_app. specialize (H t). specialize (H' t). lia. Qed.
Lemma at_most_nil f : at_most [] f.
Proof. intros t. unfold cnt, into. cbn. lia. Qed.
Lemma at_most_edge a i b j w : at_most [edge a i b j w] (one b).
Proof.
  intros t. unfold cnt, into, one, edge. rewrite filter_cons, filter_nil. cbn [snd child type].
  destruct (decide (b = t)), (decide (t = b)); cbn; congruence || lia.
Qed.
Lemma at_most_if (c : bool) es f : at_most es f -> at_most (if c then es else []) f.
Proof. intros H. destruct c; [done|apply at_most_nil]. Qed.
Lemma at_most_ifn (c : bool) es f : at_most es f -> at_most (if c then [] else es) f.
Proof. intros H. destruct c; [apply at_most_nil|done]. Qed.
Lemma at_most_mono es f g : (forall t, (f t <= g t)%nat) -> at_most es f -> at_most es g.
Proof. intros H H' t. specialize (H t). specialize (H' t). lia. Qed.

(** An edge into instruction [n] that the analysis accepts. *)
Record near_edge (n : Z) (pe : Edge) : Prop := {
  ne_child : instrNum (child pe.2) = n;
  ne_parent : 0 <= instrNum pe.1 <= n /\ n - instrNum pe.1 <= INO_WINDOW;
  ne_types : instrNum pe.1 = n -> vt_num (type pe.1) < vt_num (type (child pe.2));
  ne_weight : exists w, weight pe.2 = [w] /\ 0 <= w < 2 ^ 32 /\
    (type pe.1 = InstrExecute -> type (child pe.2) = InstrFetch -> 3 <= w)
}.

Lemma near_edge_intro n a i b w :
  0 <= i <= n -> n - i <= 400 -> (i = n -> vt_num a < vt_num b) -> 0 <= w < 2 ^ 32 ->
  (a = InstrExecute -> b = InstrFetch -> 3 <= w) -> near_edge n (edge a i b n w).
Proof. intros. split; [done|done|done|]. exists w. done. Qed.

(** An edge from an earlier instruction. *)
Lemma near_edge_back n a i b w :
  0 <= i < n -> n - i <= 400 -> 0 <= w < 2 ^ 32 -> ~ (a = InstrExecute /\ b = InstrFetch) ->
  near_edge n (edge a i b n w).
Proof. intros. apply near_edge_intro; try lia. tauto. Qed.

Lemma u64_id n : 0 <= n < 2 ^ 64 -> u64 n = n.
Proof. intros. apply u64_small. unfold u64_size. lia. Qed.

(** What gathering a list of edges does, and when it gives up. *)
Definition base_ok (s : InorderCoreGraph) : Prop :=
  AnalysisWindow (i_base s) = INO_WINDOW /\ 0 <= i_instrCount s < 2 ^ 60.

Lemma mini_addEdge_ok s es pe :
  base_ok s -> gathered s es -> near_edge (i_instrCount s) pe ->
  (cnt (type (child pe.2)) es < 10)%nat ->
  exists m, mini_addEdge s pe = Ok (set_mini s m) /\ gathered (set_mini s m) (es ++ [pe]).
Proof.
  intros [Hw Hn] Hg [N1 [N2 N3] _ _] Hc. unfold mini_addEdge. rewrite Hw, N1, Hg.
  rewrite u64_id by lia. destruct (Z.ltb_spec INO_WINDOW (i_instrCount s - instrNum pe.1)); [lia|].
  fold (cnt (type (child pe.2)) es).
  destruct (Z.eqb_spec (Z.of_nat (cnt (type (child pe.2)) es)) MAX_PARENTS) as [E|_];
    [unfold MAX_PARENTS in E; lia|].
  eexists. split; [done|]. intros t. rewrite into_app. cbn [miniGraph set_mini]. unfold mini_set.
  unfold into at 3. rewrite filter_cons, filter_nil.
  destruct (decide (t = type (child pe.2))) as [->|Hne].
  - rewrite decide_True by done. done.
  - rewrite decide_False by congruence. cbn. by rewrite app_nil_r, Hg.
Qed.

Lemma mini_addEdges_ok s es es' :
  base_ok s -> gathered s es -> Forall (near_edge (i_instrCount s)) es' ->
  (forall t, (cnt t es + cnt t es' <= 10)%nat) ->
  exists m, mini_addEdges s es' = Ok (set_mini s m) /\ gathered (set_mini s m) (es ++ es').
Proof.
  revert s es. induction es' as [|pe es' IH]; intros s es Hb Hg Hn Hc.
  - exists (miniGraph s). rewrite app_nil_r. split; [by destruct s|done].
  - apply Forall_cons in Hn as [Hpe Hn].
    assert (Hc' : forall t, (cnt t (es ++ [pe]) + cnt t es' <= 10)%nat).
    { intros t. specialize (Hc t). change (pe :: es') with ([pe] ++ es') in Hc.
      rewrite !cnt_app in *. lia. }
    destruct (mini_addEdge_ok s es pe) as (m & E & Hg'); [done..| |].
    { specialize (Hc' (type (child pe.2))). rewrite cnt_app in Hc'.
      enough (cnt (type (child pe.2)) [pe] = 1)%nat by lia.
      unfold cnt, into. by rewrite filter_cons, decide_True. }
    unfold mini_addEdges. cbn [res_fold]. rewrite E. cbn [mbind res_bind].
    destruct (IH (set_mini s m) (es ++ [pe])) as (m' & E' & Hg''); [done..|].
    exists m'. rewrite <- app_assoc in Hg''. done.
Qed.

Lemma mini_addEdge_cases s pe :
  mini_addEdge s pe = Stop ErrorExit \/ exists m, mini_addEdge s pe = Ok (set_mini s m).
Proof. unfold mini_addEdge. destruct (_ <? _); [auto|]. destruct (_ =? _); eauto. Qed.

(** One edge from too far back ends the program. *)
Lemma mini_addEdges_far s es pe :
  base_ok s -> pe ∈ es -> instrNum (child pe.2) = i_instrCount s ->
  0 <= instrNum pe.1 -> INO_WINDOW < i_instrCount s - instrNum pe.1 ->
  mini_addEdges s es = Stop ErrorExit.
Proof.
  intros [Hw Hn]. revert s Hw Hn. induction es as [|x es IH]; intros s Hw Hn Hin Hc H0 Hd;
    [by apply not_elem_of_nil in Hin|].
  unfold mini_addEdges. cbn [res_fold].
  apply elem_of_cons in Hin as [<-|Hin].
  - unfold mini_addEdge. rewrite Hw, Hc, u64_id by (unfold INO_WINDOW in Hd; lia).
    destruct (Z.ltb_spec INO_WINDOW (i_instrCount s - instrNum pe.1)); [done|lia].
  - destruct (mini_addEdge_cases s x) as [->|[m ->]]; [done|]. cbn [mbind res_bind].
    by apply (IH (set_mini s m)).
Qed.

(** ** The state between two instructions *)

Definition ino_params_ok (p : InorderParams) : Prop :=
  Forall (fun n => 1 <= n <= INO_WINDOW)
    [i_fetchBandwidth p; i_dispatchBandwidth p; i_commitBandwidth p] /\
  Forall (fun n => 0 <= n < INO_WINDOW) [i_memIssueBandwidth p; i_memCommitBandwidth p] /\
  Forall (fun n => 0 <= n < 2 ^ 28)
    [i_decodeCycles p; i_dispatchCycles p; i_executeToCommitCycles p; i_predictionCycles p;
     i_mispredictionPenalty p] /\
  1 <= i_issueBandwidth p <= 44 /\ 1 <= maxMemAccesses p <= 7.

(** No instruction takes longer than the window is wide. *)
Record ino_instr_ok (p : InorderParams) (i : Instruction) : Prop := {
  ii_fetch : 0 <= fetchCycles i < 2 ^ 28;
  ii_ls : 0 <= i_lsCycles i;
  ii_fast : (i_lsCycles i + 1) * i_issueBandwidth p <= INO_WINDOW;
  ii_reads : (List.length (regRead i) <= 3)%nat
}.

(** [acc] are the loads and stores so far with their cycles, newest first. *)
Record ino_book_ok (p : InorderParams) (n : Z) (acc : list (Z * Z)) (b : InorderBook) : Prop := {
  ib_mispred : earlier 0 n (i_lastMisprediction b);
  ib_mem : earlier 0 n (i_lastMemLdSt b);
  ib_regs : forall r i w, i_regLastWrittenBy b !! r = Some (i, w) ->
    0 <= i < n /\ 0 <= w /\ w * i_issueBandwidth p <= INO_WINDOW;
  ib_critical : lastLdStCriticalNum b = UINT64_MAX \/
    (0 <= lastLdStCriticalNum b < n /\ 0 <= lastLdStCriticalCycles b /\
     lastLdStCriticalCycles b * i_issueBandwidth p <= INO_WINDOW);
  ib_needed : List.length (neededRsc b) = Z.to_nat INO_WINDOW;
  ib_ptr : 0 <= i_ldStWindowPointer b;
  ib_window :
    let size := Z.to_nat (maxMemAccesses p) in let ptr := Z.to_nat (i_ldStWindowPointer b) in
    ring size ptr (i_ldStWindow b).*1 acc.*1 /\ ring size ptr (i_ldStWindow b).*2 acc.*2 /\
    blank size ptr (i_ldStWindow b).*2 acc.*2 UINT32_MAX;
  ib_acc : Forall (fun e => 0 <= e.1 < n /\ 0 <= e.2 < UINT32_MAX) acc
}.

Definition units_ok (int_alu int_mul int_div fpu lsu : Z) : Prop :=
  Forall (fun n => 1 <= n < 2 ^ 32) [int_alu; int_mul; int_div; fpu; lsu].
Record board_ok (n : Z) (b : ScoreboardSimple) : Prop := {
  bk_units : exists a m d f l, units_ok a m d f l /\ s_resources b = unit_kinds a m d f l;
  bk_users : exists h, board_refines b h /\ forall t, Forall (fun i => 0 <= i < n) (h t)
}.

Record core_ok (acc : list (Z * Z)) (s : InorderCoreGraph) : Prop := {
  co_base : base_ok s;
  co_params : ino_params_ok (i_params s);
  co_book : ino_book_ok (i_params s) (i_instrCount s) acc (i_book s);
  co_board : board_ok (i_instrCount s + 1) (i_board s)
}.

Lemma core_ok_mini acc s m : core_ok acc s -> core_ok acc (set_mini s m).
Proof. intros [H1 H2 H3 H4]. by split. Qed.

(** The cycles of each kind of unit. *)
Lemma unit_cycles n b :
  board_ok n b ->
  totalCycles (simple_at b RscLsu) = 1 /\ totalCycles (simple_at b RscIntAlu) = 3 /\
  totalCycles (simple_at b RscIntMul) = 3 /\ totalCycles (simple_at b RscIntDiv) = 9 /\
  totalCycles (simple_at b RscFpu) = 6 /\
  (forall t, 0 <= sourceIndependentCycles (simple_at b t)).
Proof.
  intros [(a & m & d & f & l & _ & Hr) _]. unfold simple_at. rewrite Hr. split_and!; try done.
  intros t. unfold unit_kinds.
  repeat (rewrite lookup_insert; case_decide; [by cbn|]). by rewrite lookup_empty.
Qed.

(** ** Earlier executions *)

(** An entry of [execute_parent] becomes an edge if it passes this test. *)
Definition waits (n bw : Z) (x : Z * Z) : Prop := (n - x.1) / bw < x.2.
#[global] Instance waits_dec n bw x : Decision (waits n bw x).
Proof. unfold waits. apply _. Defined.
Definition waiting (n bw : Z) (m : gmap Z Z) : nat :=
  List.length (filter (waits n bw) (map_to_list m)).
Definition parents_ok (n bw : Z) (m : gmap Z Z) : Prop :=
  map_Forall (fun k w => 0 <= k < n /\ 0 <= w /\ w * bw <= INO_WINDOW) m.

Lemma filter_insert_length (P : Z * Z -> Prop) `{forall x, Decision (P x)} (m : gmap Z Z) k v :
  (List.length (filter P (map_to_list (<[k := v]> m))) <=
   (if decide (P (k, v)) then 1 else 0) + List.length (filter P (map_to_list m)))%nat.
Proof.
  rewrite <- insert_delete_eq, map_to_list_insert by apply lookup_delete_eq.
  rewrite filter_cons.
  enough (List.length (filter P (map_to_list (delete k m))) <=
          List.length (filter P (map_to_list m)))%nat by (case_decide; cbn; lia).
  destruct (m !! k) as [y|] eqn:E; [|by rewrite delete_id].
  rewrite <- (map_to_list_delete m k y E), filter_cons. case_decide; cbn; lia.
Qed.

Lemma raise_parent_ok n bw m k w :
  parents_ok n bw m -> 0 <= k < n -> 0 <= w -> w * bw <= INO_WINDOW ->
  parents_ok n bw (raise_parent m k w) /\ (waiting n bw (raise_parent m k w) <= S (waiting n bw m))%nat.
Proof.
  intros Hm Hk H0 Hw. unfold raise_parent. split.
  - apply map_Forall_insert_2; [|done]. split; [done|].
    destruct (parent_at m k <? w); [done|]. unfold parent_at.
    destruct (m !! k) as [y|] eqn:E; cbn; [|done]. by destruct (Hm k y E).
  - unfold waiting. etransitivity; [apply filter_insert_length|]. case_decide; lia.
Qed.

(** ** The pipeline *)

Section Pipeline.
Context (acc : list (Z * Z)) (s : InorderCoreGraph) (Hs : core_ok acc s).
#[local] Notation n := (i_instrCount s).
#[local] Notation p := (i_params s).

Lemma count_range : 0 <= n < 2 ^ 60.
Proof using Hs. destruct Hs as [[_ ?] _ _ _]. done. Qed.

Lemma back_ok k : 0 <= k <= n -> u64 (n - k) = n - k.
Proof using Hs. pose proof count_range. intros. apply u64_id. lia. Qed.

Lemma limit_near t limit : 1 <= limit <= INO_WINDOW -> Forall (near_edge n) (limit_edge s t limit).
Proof using Hs.
  intros Hl. unfold limit_edge. destruct (Z.leb_spec limit (i_instrCount s)); [|constructor].
  destruct (settled_since s limit); [|constructor]. cbn [andb].
  rewrite back_ok by lia. apply Forall_singleton. unfold INO_WINDOW in Hl.
  apply near_edge_back; try lia. by intros [-> [=]].
Qed.
Lemma limit_most t limit : at_most (limit_edge s t limit) (one t).
Proof. apply at_most_if, at_most_edge. Qed.

Lemma near_memory_last limit :
  limit < INO_WINDOW -> near_memory s limit = true ->
  let last := i_lastMemLdSt (i_book s) in
  0 <= last < n /\ n - last <= limit /\ u64 (n - last) = n - last.
Proof using Hs.
  intros Hl. unfold near_memory. rewrite !andb_true_iff. intros [[H1 H2] _].
  apply negb_true_iff, Z.eqb_neq in H1. apply Z.leb_le in H2.
  destruct (ib_mem _ _ _ _ (co_book _ _ Hs)) as [E|Hr]; [done|]. cbn zeta.
  rewrite back_ok in H2 by lia. rewrite back_ok by lia. lia.
Qed.

Lemma stage_near instr cycles :
  ino_instr_ok p instr -> 0 <= cycles < 2 ^ 30 -> Forall (near_edge n) (i_stage_edges s instr cycles).
Proof using Hs.
  intros [_ I2 I3 _] Hc. pose proof count_range. unfold i_stage_edges.
  destruct (unit_cycles _ _ (co_board _ _ Hs)) as (-> & _).
  pose proof (co_params _ _ Hs) as (_ & _ & Hp & Hi & _). rewrite !Forall_cons in Hp.
  unfold INO_WINDOW in *. assert (i_lsCycles instr < 2 ^ 30) by nia.
  destruct Hp as (P1 & P2 & P3 & _).
  assert (Hu : forall c, 0 <= u32 c < 2 ^ 32) by (intros c; apply Z.mod_pos_bound; lia).
  destruct (load_store instr); cbn [app]; repeat (apply Forall_cons; split); try apply Forall_nil;
    try done; apply near_edge_intro; try lia; try done.
Qed.
Lemma stage_most instr cycles :
  at_most (i_stage_edges s instr cycles)
    (fun t => one InstrDispatch t + (one InstrExecute t + (one MemExecute t + one InstrCommit t)))%nat.
Proof.
  unfold i_stage_edges. change [?a; ?b] with ([a] ++ [b]). rewrite <- app_assoc.
  apply at_most_app; [apply at_most_edge|]. apply at_most_app; [apply at_most_edge|].
  destruct (load_store instr).
  - change [?a; ?b] with ([a] ++ [b]). apply at_most_app; apply at_most_edge.
  - eapply at_most_mono; [|apply at_most_edge]. intros t. lia.
Qed.

Lemma order_near instr mispred issue commit :
  ino_instr_ok p instr -> (mispred = true -> 0 < n) -> (issue = true -> 0 < n) ->
  (commit = true -> 0 < n) -> Forall (near_edge n) (i_order_edges s instr mispred issue commit).
Proof using Hs.
  intros [I1 _ _ _] Hm Hi Hc. pose proof count_range. unfold i_order_edges.
  destruct (unit_cycles _ _ (co_board _ _ Hs)) as (_ & -> & _).
  pose proof (co_params _ _ Hs) as (_ & _ & Hp & _). rewrite !Forall_cons in Hp.
  destruct mispred.
  - specialize (Hm eq_refl). rewrite back_ok by lia. apply Forall_singleton.
    assert (Hw : u32 (3 + i_mispredictionPenalty p + fetchCycles instr) =
                 3 + i_mispredictionPenalty p + fetchCycles instr) by (apply Z.mod_small; lia).
    rewrite Hw. apply near_edge_intro; lia.
  - assert (Hu : 0 <= u32 (i_predictionCycles p + fetchCycles instr) < 2 ^ 32)
      by (apply Z.mod_pos_bound; lia).
    rewrite !Forall_app. split_and!.
    + destruct (Z.eqb_spec n 0); [constructor|]. rewrite back_ok by lia. apply Forall_singleton.
      apply near_edge_back; try lia; [by destruct (_ && _); lia|by intros [[=] _]].
    + destruct (Z.eqb_spec n 0); [constructor|]. cbn [orb]. destruct (_ =? 1); [constructor|].
      rewrite back_ok by lia. apply Forall_singleton. apply near_edge_back; try lia. by intros [[=] _].
    + destruct issue; [|constructor]. specialize (Hi eq_refl). rewrite back_ok by lia.
      apply Forall_singleton. apply near_edge_back; try lia. by intros [_ [=]].
    + destruct commit; [|constructor]. specialize (Hc eq_refl). rewrite back_ok by lia.
      apply Forall_singleton. apply near_edge_back; try lia. by intros [[=] _].
Qed.
Lemma order_most instr mispred issue commit :
  at_most (i_order_edges s instr mispred issue commit)
    (fun t => one InstrFetch t + (one InstrDispatch t + (one InstrExecute t + one InstrCommit t)))%nat.
Proof.
  unfold i_order_edges. destruct mispred.
  - eapply at_most_mono; [|apply at_most_edge]. intros t. lia.
  - apply at_most_app; [apply at_most_ifn, at_most_edge|].
    apply at_most_app; [apply at_most_ifn, at_most_edge|].
    apply at_most_app; apply at_most_if, at_most_edge.
Qed.

Lemma issue_parent_ok :
  parents_ok n (i_issueBandwidth p) (issue_parent s) /\
  waiting n (i_issueBandwidth p) (issue_parent s) = 0%nat.
Proof using Hs.
  pose proof (co_params _ _ Hs) as (_ & _ & _ & Hp & _). unfold issue_parent.
  destruct (Z.leb_spec (i_issueBandwidth p) n); [|by split; [apply map_Forall_empty|]].
  destruct (settled_since _ _); cbn [andb]; [|by split; [apply map_Forall_empty|]].
  rewrite back_ok by lia. split.
  - apply map_Forall_insert_2; [unfold INO_WINDOW; lia|apply map_Forall_empty].
  - assert (H0 : (waiting n (i_issueBandwidth p) ∅ = 0)%nat) by done.
    unfold waiting in *. pose proof (filter_insert_length (waits n (i_issueBandwidth p)) ∅
      (n - i_issueBandwidth p) 1) as H1.
    rewrite decide_False in H1; [lia|]. unfold waits. cbn [fst snd].
    replace (n - (n - i_issueBandwidth p)) with (i_issueBandwidth p) by lia.
    rewrite Z.div_same by lia. lia.
Qed.

Lemma mem_issue_ok :
  let '(es, m, adjacent) := mem_issue s (issue_parent s) in
  Forall (near_edge n) es /\ at_most es (one InstrExecute) /\
  parents_ok n (i_issueBandwidth p) m /\ (waiting n (i_issueBandwidth p) m <= 1)%nat.
Proof using Hs.
  pose proof (co_params _ _ Hs) as (_ & Hmb & _ & Hp & _). rewrite !Forall_cons in Hmb.
  destruct issue_parent_ok as [Hok Hw]. unfold mem_issue.
  destruct (near_memory s _) eqn:E; [|split_and!; [constructor|apply at_most_nil|done|lia]].
  destruct (near_memory_last _ (proj2 (proj1 Hmb)) E) as (Hl & Hd & _).
  unfold INO_WINDOW in *.
  destruct (_ <? 1); split_and!.
  - apply Forall_singleton, near_edge_back; try lia. by intros [_ [=]].
  - apply at_most_edge.
  - apply map_Forall_insert_2; [unfold INO_WINDOW; lia|done].
  - unfold waiting in *. etransitivity; [apply filter_insert_length|]. case_decide; lia.
  - constructor.
  - apply at_most_nil.
  - apply map_Forall_insert_2; [|done]. split; [done|]. unfold parent_at.
    destruct (issue_parent s !! _) as [y|] eqn:E2; cbn; [by destruct (Hok _ _ E2)|done].
  - unfold waiting in *. etransitivity; [apply filter_insert_length|]. case_decide; lia.
Qed.

Definition pipeline_most (t : VertexType) : nat :=
  match t with InstrFetch => 2 | InstrDispatch => 3 | InstrExecute => 4 | MemExecute => 1
             | InstrCommit => 4 end%nat.

Lemma i_pipeline_ok instr cycles mispred :
  ino_instr_ok p instr -> 0 <= cycles < 2 ^ 30 -> (mispred = true -> 0 < n) ->
  let '(es, m) := i_pipeline_edges s instr cycles mispred in
  Forall (near_edge n) es /\ at_most es pipeline_most /\
  parents_ok n (i_issueBandwidth p) m /\ (waiting n (i_issueBandwidth p) m <= 1)%nat.
Proof using Hs.
  intros Hi Hc Hm. unfold i_pipeline_edges. pose proof mem_issue_ok as Hmi.
  pose proof (co_params _ _ Hs) as (Hb & Hmb & _ & Hp & _). rewrite !Forall_cons in Hb. rewrite !Forall_cons in Hmb.
  pose proof count_range.
  destruct (mem_issue s (issue_parent s)) as [[mem_es m] adjacent].
  destruct Hmi as (M1 & M2 & M3 & M4). split; [|split; [|done]].
  - rewrite !Forall_app. split_and!; try done.
    + by apply stage_near.
    + apply limit_near. lia.
    + apply limit_near. lia.
    + apply limit_near. unfold INO_WINDOW. lia.
    + apply limit_near. lia.
    + destruct (near_memory s (i_memCommitBandwidth p)) eqn:E; [|constructor].
      destruct (near_memory_last _ (proj2 (proj1 (proj2 Hmb))) E) as (Hl & Hd & _).
      apply Forall_singleton. unfold INO_WINDOW in *. apply near_edge_back; try lia. by intros [[=] _].
    + apply order_near; try done; intros Hx; apply negb_true_iff in Hx;
        destruct (Z.eqb_spec n 0); try done; lia.
  - eapply at_most_mono; [|repeat first
      [apply at_most_app; [first [apply stage_most|apply limit_most|exact M2|
         apply at_most_if, at_most_edge]|]|apply order_most]].
    intros t. cbn beta. destruct t; vm_compute; lia.
Qed.

End Pipeline.
