(* ===== verification/CalipersInorderPhases.v ===== *)
(** * Gathering the edges of an instruction

    The phases of [i_edges] one after the other: the pipeline, the order of
    memory accesses, registers, units, and the edges between executions.  Every
    phase succeeds except the order of memory accesses, which ends the program
    exactly when an access it must wait for is more than a window back. *)

From S2P Require Import Prelude Machine CalipersCycles CalipersScoreboard CalipersScoreFacts.
From S2P Require Import CalipersO3 CalipersO3Facts CalipersInorder CalipersInorderBoard.
From S2P Require Import CalipersInorderEdges.

#[local] Open Scope list_scope.
#[local] Open Scope Z_scope.

Import CalG CalS CalO CalI.

(** The state after [es] were gathered, starting from [s0]. *)
Record phase (acc : list (Z * Z)) (s0 : InorderCoreGraph) (es : list Edge)
    (f : VertexType -> nat) (s : InorderCoreGraph) : Prop := {
  ph_core : core_ok acc s;
  ph_gathered : gathered s es;
  ph_near : Forall (near_edge (i_instrCount s)) es;
  ph_most : at_most es f;
  ph_frame : i_base s = i_base s0 /\ i_instrCount s = i_instrCount s0 /\
    i_params s = i_params s0 /\ i_stats s = i_stats s0
}.

Definition more (f : VertexType -> nat) (t : VertexType) (k : nat) : VertexType -> nat :=
  fun t' => (f t' + if decide (t' = t) then k else 0)%nat.

(** Bounds on [more], for each kind of vertex. *)
Ltac count_types := unfold more; repeat (case_decide; try congruence); cbn [pipeline_most]; lia.

Definition same_state (s s' : InorderCoreGraph) : Prop :=
  i_book s' = i_book s /\ i_board s' = i_board s /\ i_instrCount s' = i_instrCount s /\
  i_params s' = i_params s.

Lemma phase_add acc s0 es f s es' g :
  phase acc s0 es f s -> Forall (near_edge (i_instrCount s)) es' -> at_most es' g ->
  (forall t, f t + g t <= 10)%nat ->
  exists s', mini_addEdges s es' = Ok s' /\
    phase acc s0 (es ++ es') (fun t => f t + g t)%nat s' /\ same_state s s'.
Proof.
  intros [P1 P2 P3 P4 P5] Hn Hm Hf.
  destruct (mini_addEdges_ok s es es') as (m & E & Hg); try done.
  { apply P1. }
  { intros t. specialize (Hf t). specialize (P4 t). specialize (Hm t). lia. }
  exists (set_mini s m). split; [done|]. split; [|done]. split; try done.
  - by apply core_ok_mini.
  - by apply Forall_app.
  - by apply at_most_app.
Qed.

Lemma phase_mono acc s0 es f g s :
  (forall t, (f t <= g t)%nat) -> phase acc s0 es f s -> phase acc s0 es g s.
Proof. intros H [P1 P2 P3 P4 P5]. split; try done. by eapply at_most_mono. Qed.

Lemma addEdge_single s pe : mini_addEdges s [pe] = mini_addEdge s pe.
Proof. unfold mini_addEdges. cbn. by destruct (mini_addEdge s pe). Qed.

(** One more edge. *)
Lemma phase_edge acc s0 es f s a i t w :
  phase acc s0 es f s -> near_edge (i_instrCount s) (edge a i t (i_instrCount s) w) ->
  (f t < 10)%nat -> (forall t, f t <= 10)%nat ->
  exists s' es', mini_addEdge s (edge a i t (i_instrCount s) w) = Ok s' /\
    phase acc s0 es' (more f t 1) s' /\ same_state s s'.
Proof.
  intros Hp Hn Hlt Hf.
  destruct (phase_add acc s0 es f s _ (one t) Hp (proj2 (Forall_singleton _ _) Hn)) as (s' & E & P & S).
  - apply at_most_edge.
  - intros t'. unfold one. specialize (Hf t'). case_decide; [subst|]; lia.
  - rewrite addEdge_single in E. exists s', (es ++ [edge a i t (i_instrCount s) w]).
    split; [done|]. split; [|done]. eapply phase_mono; [|exact P]. intros t'. unfold one, more.
    case_decide; lia.
Qed.

(** ** The pipeline *)

Lemma modelPipeline_phase acc s instr cycles :
  core_ok acc s -> gathered s [] -> (i_previousMispredicted (i_book s) = true -> 0 < i_instrCount s) ->
  ino_instr_ok (i_params s) instr -> 0 <= cycles < 2 ^ 30 ->
  exists s' m es, i_modelPipeline s instr cycles = Ok (s', m) /\
    phase acc s es pipeline_most s' /\ i_board s' = i_board s /\
    i_previousMispredicted (i_book s') = i_mispredicted instr /\
    parents_ok (i_instrCount s) (i_issueBandwidth (i_params s)) m /\
    (waiting (i_instrCount s) (i_issueBandwidth (i_params s)) m <= 1)%nat.
Proof.
  intros Hs Hg Hm Hi Hc. unfold i_modelPipeline.
  pose proof (i_pipeline_ok acc s Hs instr cycles _ Hi Hc Hm) as Hp.
  destruct (i_pipeline_edges s instr cycles _) as [es m]. destruct Hp as (N & M & K & L).
  set (mis := i_previousMispredicted (i_book s)) in *.
  set (b := book_predict _ _ _).
  assert (Hs' : core_ok acc (i_set_book s b)).
  { destruct Hs as [H1 H2 [B1 B2 B3 B4 B5 B6 B7 B8] H4]. split; try done. split; try done.
    cbn. destruct mis; [|done]. specialize (Hm eq_refl). destruct H1 as [_ H1].
    right. rewrite u64_id by lia. lia. }
  assert (P0 : phase acc s [] (fun _ => 0%nat) (i_set_book s b))
    by (split; try done; apply at_most_nil).
  destruct (phase_add _ _ _ _ _ es pipeline_most P0 N M) as (s' & E & P & S1 & S2 & S3 & S4).
  { intros t. destruct t; cbn; lia. }
  rewrite E. cbn [mbind res_bind]. exists s', m, es. split; [done|].
  split; [by eapply phase_mono; [|exact P]|]. split; [done|]. split; [|done]. by rewrite S1.
Qed.

(** ** Memory order *)

Lemma ring_at_onto size ptr i :
  (ptr < size)%nat -> (i < size)%nat -> exists j, (j < size)%nat /\ ring_at size ptr j = i.
Proof.
  intros Hp Hi. unfold ring_at.
  exists (if Nat.ltb i ptr then ptr - 1 - i else ptr + size - 1 - i)%nat.
  destruct (Nat.ltb_spec i ptr);
    match goal with |- context [Nat.ltb ?a ?b] => destruct (Nat.ltb_spec a b) end; lia.
Qed.

Section Memory.
Context (acc : list (Z * Z)) (s : InorderCoreGraph) (Hs : core_ok acc s).
#[local] Notation n := (i_instrCount s).
#[local] Notation size := (Z.to_nat (maxMemAccesses (i_params s))).
#[local] Notation w := (i_ldStWindow (i_book s)).
#[local] Notation ptr := (Z.to_nat (i_ldStWindowPointer (i_book s))).

Lemma window_slot j : (j < size)%nat -> exists e, w !! ring_at size ptr j = Some e /\
  (acc !! j = Some e \/ (acc !! j = None /\ e.2 = UINT32_MAX)).
Proof using Hs.
  intros Hj. destruct (ib_window _ _ _ _ (co_book _ _ Hs)) as (R1 & R2 & B).
  pose proof (ring_lt _ _ _ _ R1) as Hlt. pose proof (ring_len _ _ _ _ R1) as Hlen.
  rewrite length_fmap in Hlen.
  destruct (lookup_lt_is_Some_2 w (ring_at size ptr j)) as [e He].
  { unfold ring_at. destruct (Nat.ltb_spec j ptr); lia. }
  exists e. split; [done|]. destruct (acc !! j) as [[i c]|] eqn:E.
  - left. f_equal. pose proof (ring_val _ _ _ _ R1 j i Hj) as V1.
    pose proof (ring_val _ _ _ _ R2 j c Hj) as V2.
    rewrite !list_lookup_fmap, E, He in V1. rewrite !list_lookup_fmap, E, He in V2.
    specialize (V1 eq_refl). specialize (V2 eq_refl). destruct e. cbn in V1, V2. congruence.
  - right. split; [done|]. apply lookup_ge_None in E. specialize (B j).
    rewrite list_lookup_fmap, He, length_fmap in B. specialize (B ltac:(lia)). cbn in B. congruence.
Qed.

Lemma window_entry e : e ∈ w -> e.2 = UINT32_MAX \/ e ∈ take size acc.
Proof using Hs.
  intros [i Hi]%list_elem_of_lookup.
  destruct (ib_window _ _ _ _ (co_book _ _ Hs)) as (R1 & _ & _).
  pose proof (ring_lt _ _ _ _ R1) as Hlt. pose proof (ring_len _ _ _ _ R1) as Hlen.
  rewrite length_fmap in Hlen. pose proof (lookup_lt_Some _ _ _ Hi).
  destruct (ring_at_onto size ptr i) as (j & Hj & Ej); [done|lia|].
  destruct (window_slot j Hj) as (e' & He' & [Ha|[_ Ha]]); rewrite Ej, Hi in He';
    injection He' as <-; [right|by left].
  apply list_elem_of_lookup_2 with (i := j). by rewrite lookup_take_lt.
Qed.

Lemma window_oldest : exists e, w !! ptr = Some e /\
  (acc !! (size - 1)%nat = Some e \/ (acc !! (size - 1)%nat = None /\ e.2 = UINT32_MAX)).
Proof using Hs.
  destruct (ib_window _ _ _ _ (co_book _ _ Hs)) as (R1 & _ & _).
  pose proof (ring_lt _ _ _ _ R1) as Hlt.
  destruct (window_slot (size - 1)) as (e & He & Ha); [lia|].
  rewrite ring_at_oldest in He by done. eauto.
Qed.

Lemma access_recorded e : e ∈ acc -> 0 <= e.1 < n /\ 0 <= e.2 < UINT32_MAX.
Proof using Hs. pose proof (ib_acc _ _ _ _ (co_book _ _ Hs)) as H. rewrite Forall_forall in H. apply H. Qed.

Lemma access_most e : at_most (access_edge s e) (one MemExecute).
Proof. apply at_most_ifn, at_most_edge. Qed.
Lemma accesses_most l : at_most (mjoin (access_edge s <$> l)) (more (fun _ => 0%nat) MemExecute (List.length l)).
Proof.
  induction l as [|e l IH]; [apply at_most_nil|]. cbn [fmap list_fmap mjoin list_join].
  eapply at_most_mono; [|apply at_most_app; [apply access_most|exact IH]].
  intros t. unfold more, one. cbn. case_decide; lia.
Qed.

Lemma access_is_near e :
  e.2 = UINT32_MAX \/ (e ∈ acc /\ n - e.1 <= INO_WINDOW) -> Forall (near_edge n) (access_edge s e).
Proof using Hs.
  intros He. unfold access_edge. destruct (Z.eqb_spec e.2 UINT32_MAX); [constructor|].
  destruct He as [|[He Hd]]; [done|]. destruct (access_recorded e He). apply Forall_singleton.
  unfold UINT32_MAX, INO_WINDOW in *. apply near_edge_back; try lia. by intros [[=] _].
Qed.

(** An access too far back. *)
Lemma access_far e es :
  e ∈ acc -> INO_WINDOW < n - e.1 -> access_edge s e ⊆ es ->
  mini_addEdges s es = Stop ErrorExit.
Proof using Hs.
  intros He Hd Hsub. destruct (access_recorded e He) as [H1 H2].
  unfold access_edge in Hsub. destruct (Z.eqb_spec e.2 UINT32_MAX) as [|_]; [lia|].
  apply (mini_addEdges_far s es (edge MemExecute e.1 MemExecute n e.2)); try done; [apply Hs| |cbn; lia].
  apply Hsub. left.
Qed.
End Memory.

Lemma phase_state acc s0 es f s s' : phase acc s0 es f s -> same_state s s' ->
  i_instrCount s' = i_instrCount s0 /\ i_params s' = i_params s0.
Proof. intros [_ _ _ _ (_ & ? & ? & _)] (_ & _ & ? & ?). split; congruence. Qed.

Lemma same_state_trans s1 s2 s3 : same_state s1 s2 -> same_state s2 s3 -> same_state s1 s3.
Proof. intros (? & ? & ? & ?) (? & ? & ? & ?). split_and!; congruence. Qed.
Lemma same_state_refl s : same_state s s.
Proof. done. Qed.

(** The edges of a load and of a store, or the end of the program. *)
Definition outcome (ok : bool) (r : res InorderCoreGraph) (Q : InorderCoreGraph -> Prop) : Prop :=
  if ok then exists s', r = Ok s' /\ Q s' else r = Stop ErrorExit.
Definition grown_to (acc : list (Z * Z)) (s0 : InorderCoreGraph) (f : VertexType -> nat)
    (s s' : InorderCoreGraph) : Prop :=
  (exists es, phase acc s0 es f s') /\ same_state s s'.

Definition load_near (p : InorderParams) (n : Z) (h : list Z) : bool :=
  match h !! (Z.to_nat (maxMemAccesses p) - 1)%nat with
  | Some j => n - j <=? INO_WINDOW | None => true end.
Definition store_near (p : InorderParams) (n : Z) (h : list Z) : bool :=
  forallb (fun j => n - j <=? INO_WINDOW) (take (Z.to_nat (maxMemAccesses p)) h).

(** The accesses an instruction waits for are at most a window back: a load waits
    for the access [maxMemAccesses] back, a store for all since then. *)
Definition access_near (p : InorderParams) (n : Z) (h : list Z) (instr : Instruction) : bool :=
  (negb (is_load instr) || load_near p n h) && (negb (is_store instr) || store_near p n h).

Lemma load_phase acc s0 es f s :
  phase acc s0 es f s -> (f MemExecute < 10)%nat -> (forall t, f t <= 10)%nat ->
  outcome (load_near (i_params s) (i_instrCount s) acc.*1) (load_order s)
    (grown_to acc s0 (more f MemExecute 1) s).
Proof.
  intros Hp Hlt Hf. pose proof (ph_core _ _ _ _ _ Hp) as Hs. unfold load_order, load_near.
  pose proof (co_params _ _ Hs) as (_ & _ & _ & _ & HM).
  destruct (window_oldest acc s Hs) as (x & Hx & Ha).
  pose proof (ib_window _ _ _ _ (co_book _ _ Hs)) as (R1 & _ & _).
  pose proof (ring_lt _ _ _ _ R1) as Hlt'. pose proof (ib_ptr _ _ _ _ (co_book _ _ Hs)).
  destruct (Z.eqb_spec (maxMemAccesses (i_params s)) 0); [lia|].
  rewrite Z.mod_small, Hx, list_lookup_fmap by lia.
  assert (Hadd : Forall (near_edge (i_instrCount s)) (access_edge s x) ->
    exists s', mini_addEdges s (access_edge s x) = Ok s' /\
      grown_to acc s0 (more f MemExecute 1) s s').
  { intros Hn. destruct (phase_add _ _ _ _ _ _ (one MemExecute) Hp Hn) as (s' & E & P & S).
    - apply access_most.
    - intros t. unfold one. specialize (Hf t). case_decide; [subst|]; lia.
    - exists s'. split; [done|]. split; [eexists; exact P|done]. }
  destruct Ha as [Ha|[Ha He]]; rewrite Ha; cbn.
  - apply list_elem_of_lookup_2 in Ha. destruct (Z.leb_spec (i_instrCount s - x.1) INO_WINDOW).
    + apply Hadd, (access_is_near acc s Hs). auto.
    + eapply (access_far acc s Hs); [exact Ha|lia|done].
  - apply Hadd, (access_is_near acc s Hs). auto.
Qed.

Lemma store_phase acc s0 es f s :
  phase acc s0 es f s ->
  (forall t, more f MemExecute (Z.to_nat (maxMemAccesses (i_params s))) t <= 10)%nat ->
  outcome (store_near (i_params s) (i_instrCount s) acc.*1) (store_order s)
    (grown_to acc s0 (more f MemExecute (Z.to_nat (maxMemAccesses (i_params s)))) s).
Proof.
  intros Hp Hf. unfold store_order, store_near. set (p := i_params s).
  set (new := mjoin _).
pose proof (ph_core _ _ _ _ _ Hp) as Hs.
  pose proof (ib_window _ _ _ _ (co_book _ _ Hs)) as (R1 & _ & _).
  pose proof (ring_len _ _ _ _ R1) as Hlen. rewrite length_fmap in Hlen. fold p in Hlen.
  pose proof (ring_lt _ _ _ _ R1) as Hlt.
  rewrite <- fmap_take. destruct (forallb _ _) eqn:E.
  - assert (Hd : forall e, e ∈ take (Z.to_nat (maxMemAccesses p)) acc ->
      i_instrCount s - e.1 <= INO_WINDOW).
    { intros e He. rewrite forallb_forall in E. apply Z.leb_le, E. apply list_elem_of_In.
      by apply list_elem_of_fmap_2. }
    destruct (phase_add _ _ _ _ _ new (more (fun _ => 0%nat) MemExecute (Z.to_nat (maxMemAccesses p)))
      Hp) as (s' & E' & P & S).
    + unfold new. apply Forall_join, Forall_fmap, Forall_forall. intros e He. cbn.
      apply (access_is_near acc s Hs). destruct (window_entry acc s Hs e He) as [?|He']; [by left|].
      right. split; [|by apply Hd]. by apply (subseteq_take (Z.to_nat (maxMemAccesses p))).
    + unfold new. rewrite <- Hlen. apply accesses_most.
    + intros t. apply (Hf t).
    + exists s'. split; [done|]. split; [eexists; exact P|done].
  - assert (Hx : exists e, e ∈ take (Z.to_nat (maxMemAccesses p)) acc /\
      INO_WINDOW < i_instrCount s - e.1).
    { clear -E. induction (take _ acc) as [|e l IH]; [done|]. cbn in E.
      destruct (Z.leb_spec (i_instrCount s - e.1) INO_WINDOW); cbn in E.
      - destruct (IH E) as (x & Hx & ?). exists x. split; [by right|done].
      - exists e. split; [left|done]. }
    destruct Hx as (e & [j Hj]%list_elem_of_lookup & Hd).
    apply lookup_take_Some in Hj as [Hj Hjl].
    destruct (window_slot acc s Hs j Hjl) as (e' & He' & [Ha|[Ha _]]); [|congruence].
    assert (e' = e) as -> by congruence.
    eapply (access_far acc s Hs); [by eapply list_elem_of_lookup_2|done|].
    unfold new. intros pe Hpe. apply list_elem_of_join. exists (access_edge s e). split; [done|].
    apply list_elem_of_fmap_2. by eapply list_elem_of_lookup_2.
Qed.

(** A dependence on an execution that is not over yet is near. *)
Lemma distance_ok acc s i :
  core_ok acc s -> 0 <= i < i_instrCount s ->
  issue_distance s i = Ok ((i_instrCount s - i) / i_issueBandwidth (i_params s)).
Proof.
  intros Hs Hi. pose proof (co_base _ _ Hs) as [_ Hn].
  pose proof (co_params _ _ Hs) as (_ & _ & _ & Hb & _). unfold issue_distance.
  destruct (Z.eqb_spec (i_issueBandwidth (i_params s)) 0); [lia|]. by rewrite u64_id by lia.
Qed.

Lemma waits_near n i bw w :
  0 < bw -> (n - i) / bw < w -> w * bw <= INO_WINDOW -> n - i < 400.
Proof.
  intros Hb Hd Hw. unfold INO_WINDOW in Hw. pose proof (Z.mul_succ_div_gt (n - i) bw Hb). nia.
Qed.

Lemma critical_phase acc s0 es f s :
  phase acc s0 es f s -> (f MemExecute < 10)%nat -> (forall t, f t <= 10)%nat ->
  exists s', wait_critical s = Ok s' /\ grown_to acc s0 (more f MemExecute 1) s s'.
Proof.
  intros Hp Hlt Hf. pose proof (ph_core _ _ _ _ _ Hp) as Hs. unfold wait_critical.
  assert (Hstay : grown_to acc s0 (more f MemExecute 1) s s).
  { split; [|done]. exists es. eapply phase_mono; [|exact Hp]. intros t. unfold more. lia. }
  destruct (Z.eqb_spec (lastLdStCriticalNum (i_book s)) UINT64_MAX) as [|Hne]; [eauto|].
  destruct (ib_critical _ _ _ _ (co_book _ _ Hs)) as [|(Hr & Hc & Hcb)]; [done|].
  rewrite (distance_ok acc) by done. cbn [mbind res_bind].
  destruct (Z.ltb_spec ((i_instrCount s - lastLdStCriticalNum (i_book s)) /
    i_issueBandwidth (i_params s)) (lastLdStCriticalCycles (i_book s))) as [Hd|]; [|eauto].
  pose proof (co_params _ _ Hs) as (_ & _ & _ & Hb & _).
  apply waits_near in Hd; [|lia|done]. unfold INO_WINDOW in Hcb.
  assert (lastLdStCriticalCycles (i_book s) <= 400) by nia.
  destruct (phase_edge acc s0 es f s InstrExecute (lastLdStCriticalNum (i_book s)) MemExecute
    (lastLdStCriticalCycles (i_book s))) as (s' & es' & E & P & S); try done.
  - apply near_edge_back; try lia. by intros [_ [=]].
  - exists s'. split; [done|]. split; [by eexists|done].
Qed.

Lemma outcome_skip ok (c : bool) r s acc s0 f :
  (c = true -> outcome ok r (grown_to acc s0 f s)) -> grown_to acc s0 f s s ->
  outcome (negb c || ok) (if c then r else Ok s) (grown_to acc s0 f s).
Proof. intros H Hs. destruct c; [by apply H|]. exists s. done. Qed.

Lemma memory_phase acc s0 es s instr :
  phase acc s0 es pipeline_most s ->
  outcome (access_near (i_params s) (i_instrCount s) acc.*1 instr)
    (i_modelMemoryOrderConstraint s (is_load instr) (is_store instr))
    (grown_to acc s0 (more pipeline_most MemExecute 9) s).
Proof.
  intros Hp. pose proof (co_params _ _ (ph_core _ _ _ _ _ Hp)) as (_ & _ & _ & _ & HM).
  unfold i_modelMemoryOrderConstraint, access_near.
  assert (Hstay : forall acc s0 es f g s, phase acc s0 es f s -> (forall t, f t <= g t)%nat ->
    grown_to acc s0 g s s) by (intros; split; [eexists; by eapply phase_mono|done]).
  pose proof (outcome_skip (load_near (i_params s) (i_instrCount s) acc.*1) (is_load instr)
    (load_order s) s acc s0 (more pipeline_most MemExecute 1)) as H1.
  unfold outcome at 2 in H1. destruct (negb (is_load instr) || _); cbn [andb]; [|rewrite H1].
  - destruct H1 as (s1 & -> & (es1 & P1) & S1).
    { intros _. apply (load_phase _ _ es); [done|cbn; lia|intros []; cbn; lia]. }
    { eapply Hstay; [exact Hp|]. intros t. unfold more. lia. }
    cbn [mbind res_bind]. pose proof S1 as (_ & _ & Hn & Hpar). rewrite <- Hn, <- Hpar.
    pose proof (outcome_skip (store_near (i_params s1) (i_instrCount s1) acc.*1) (is_store instr)
      (store_order s1) s1 acc s0
      (more (more pipeline_most MemExecute 1) MemExecute (Z.to_nat (maxMemAccesses (i_params s1))))) as H2.
    unfold outcome at 2 in H2. destruct (negb (is_store instr) || _); [|rewrite H2].
    + destruct H2 as (s2 & -> & (es2 & P2) & S2).
      { intros _. apply (store_phase _ _ es1); [done|]. rewrite Hpar. intros []; count_types. }
      { eapply Hstay; [exact P1|]. intros t. unfold more. lia. }
      cbn [mbind res_bind].
      destruct (critical_phase acc s0 es2 _ s2 P2) as (s3 & -> & (es3 & P3) & S3).
      * rewrite Hpar. count_types.
      * rewrite Hpar. intros []; count_types.
      * exists s3. split; [done|]. split; [|by do 2 (eapply same_state_trans; [eassumption|])].
        exists es3. eapply phase_mono; [|exact P3]. rewrite Hpar. intros []; count_types.
    + done.
    + intros _. apply (store_phase _ _ es1); [done|]. rewrite Hpar. intros []; count_types.
    + eapply Hstay; [exact P1|]. intros t. unfold more. lia.
  - done.
  - intros _. apply (load_phase _ _ es); [done|cbn; lia|intros []; cbn; lia].
  - eapply Hstay; [exact Hp|]. intros t. unfold more. lia.
Qed.

(** ** Registers *)

Lemma grown_stay acc s0 es f g s :
  phase acc s0 es f s -> (forall t, f t <= g t)%nat -> grown_to acc s0 g s s.
Proof. intros Hp H. split; [eexists; by eapply phase_mono|done]. Qed.
Lemma grown_after acc s0 f s1 s2 s3 :
  same_state s1 s2 -> grown_to acc s0 f s2 s3 -> grown_to acc s0 f s1 s3.
Proof. intros H [He Hs]. split; [done|by eapply same_state_trans]. Qed.

Lemma grown_edge acc s0 es f s a i t w :
  phase acc s0 es f s -> near_edge (i_instrCount s) (edge a i t (i_instrCount s) w) ->
  (f t < 10)%nat -> (forall t, f t <= 10)%nat ->
  exists s', mini_addEdge s (edge a i t (i_instrCount s) w) = Ok s' /\
    grown_to acc s0 (more f t 1) s s'.
Proof.
  intros Hp Hn Hlt Hf.
  destruct (phase_edge acc s0 es f s a i t w Hp Hn Hlt Hf) as (s' & es' & E & P & S).
  exists s'. split; [done|]. split; [by exists es'|done].
Qed.

Lemma reduced_le c i : 0 <= c -> 0 <= i -> 0 <= reduced c i <= c.
Proof. intros. unfold reduced. destruct (Z.ltb_spec i c); lia. Qed.

#[local] Notation bw s := (i_issueBandwidth (i_params s)).

Lemma read_register_phase acc s0 es f s m cycles r :
  phase acc s0 es f s -> (f InstrExecute < 10)%nat -> (forall t, f t <= 10)%nat -> 0 <= cycles ->
  parents_ok (i_instrCount s) (bw s) m ->
  exists s' m' k, read_register cycles (s, m) r = Ok (s', m') /\ (k <= 1)%nat /\
    grown_to acc s0 (more f InstrExecute k) s s' /\ parents_ok (i_instrCount s) (bw s) m' /\
    (waiting (i_instrCount s) (bw s) m' + k <= waiting (i_instrCount s) (bw s) m + 1)%nat.
Proof.
  intros Hp Hlt Hf Hc Hm. pose proof (ph_core _ _ _ _ _ Hp) as Hs.
  pose proof (co_params _ _ Hs) as (_ & _ & _ & Hb & _). unfold read_register.
  assert (Hstay : grown_to acc s0 (more f InstrExecute 0) s s)
    by (eapply grown_stay; [exact Hp|intros t; unfold more; lia]).
  destruct (i_regLastWrittenBy (i_book s) !! r) as [[i w]|] eqn:Er;
    [|exists s, m, 0%nat; split_and!; try done; lia].
  destruct (ib_regs _ _ _ _ (co_book _ _ Hs) r i w Er) as (Hi & Hw0 & Hw).
  pose proof (reduced_le w cycles Hw0 Hc) as Hred.
  destruct (default false _).
  - rewrite (distance_ok acc) by done. cbn [mbind res_bind].
    set (weight := if loadDependentEarlyIssue (i_params s) then reduced w cycles else w).
    assert (Hwt : 0 <= weight <= w) by (unfold weight; destruct (loadDependentEarlyIssue _); lia).
    destruct (Z.ltb_spec ((i_instrCount s - i) / bw s) weight) as [Hd|];
      [|exists s, m, 0%nat; split_and!; try done; lia].
    apply waits_near in Hd; [|lia|nia]. unfold INO_WINDOW in Hw. assert (w <= 400) by nia.
    destruct (loadDependentEarlyIssue (i_params s)).
    + destruct (grown_edge acc s0 es f s MemExecute i InstrExecute weight) as (s' & E & G); try done.
      { apply near_edge_back; try lia. by intros [[=] _]. }
      rewrite E. cbn [mbind res_bind]. exists s', m, 1%nat. done.
    + destruct (grown_edge acc s0 es f s InstrCommit i InstrExecute 0) as (s' & E & G); try done.
      { apply near_edge_back; try lia. by intros [[=] _]. }
      rewrite E. cbn [mbind res_bind]. exists s', m, 1%nat. done.
  - destruct (raise_parent_ok (i_instrCount s) (bw s) m i (reduced w cycles)) as [H1 H2]; try done; [lia|nia|].
    exists s, (raise_parent m i (reduced w cycles)), 0%nat. split_and!; try done; lia.
Qed.

Lemma registers_phase acc s0 es f s m cycles rs :
  phase acc s0 es f s -> (f InstrExecute + List.length rs <= 10)%nat -> (forall t, f t <= 10)%nat ->
  0 <= cycles -> parents_ok (i_instrCount s) (bw s) m ->
  exists s' m' k, res_fold (read_register cycles) (s, m) rs = Ok (s', m') /\
    (k <= List.length rs)%nat /\ grown_to acc s0 (more f InstrExecute k) s s' /\
    parents_ok (i_instrCount s) (bw s) m' /\
    (waiting (i_instrCount s) (bw s) m' + k <=
     waiting (i_instrCount s) (bw s) m + List.length rs)%nat.
Proof.
  revert es f s m. induction rs as [|r rs IH]; intros es f s m Hp Hlt Hf Hc Hm.
  - exists s, m, 0%nat. split_and!; try done.
    eapply grown_stay; [exact Hp|]. intros t. unfold more. lia.
  - cbn [List.length] in Hlt |- *. cbn [res_fold].
    destruct (read_register_phase acc s0 es f s m cycles r) as (s1 & m1 & k1 & -> & K1 & [(es1 & P1) S1] & M1 & W1);
      try done; [lia|]. cbn [mbind res_bind]. pose proof S1 as (_ & _ & Hn & Hpar).
    destruct (IH es1 (more f InstrExecute k1) s1 m1) as (s2 & m2 & k2 & -> & K2 & [(es2 & P2) S2] & M2 & W2);
      try done.
    + count_types.
    + intros t. specialize (Hf t). unfold more. case_decide; [subst|]; lia.
    + by rewrite Hn, Hpar.
    + rewrite Hn, Hpar in M2. rewrite Hn, Hpar in W2. exists s2, m2, (k1 + k2)%nat. split; [done|]. split; [lia|]. split; [|split; [done|lia]].
      split; [|by eapply same_state_trans]. exists es2. eapply phase_mono; [|exact P2].
      intros t. unfold more. case_decide; lia.
Qed.

(** ** Units *)

Lemma set_needed_ok acc s x :
  core_ok acc s ->
  exists l, set_needed s x = Ok (i_set_book s (book_needed (i_book s) l)) /\
    List.length l = Z.to_nat INO_WINDOW.
Proof.
  intros Hs. pose proof (co_base _ _ Hs) as [Hw Hn]. unfold set_needed, need_slot. rewrite Hw.
  pose proof (ib_needed _ _ _ _ (co_book _ _ Hs)) as Hl.
  destruct (lookup_lt_is_Some_2 (neededRsc (i_book s)) (Z.to_nat (i_instrCount s mod INO_WINDOW)))
    as [e ->].
  { pose proof (Z.mod_pos_bound (i_instrCount s) INO_WINDOW). unfold INO_WINDOW in *. lia. }
  eexists. split; [done|]. by rewrite length_insert.
Qed.

Lemma unit_of_some n b instr t :
  board_ok n b -> unit_of instr = Some t ->
  is_Some (s_resources b !! t) /\ 0 <= nextIssueCycles (simple_at b t) <= 9.
Proof.
  intros [(a & m & d & f & l & _ & Hr) _] Ht. unfold simple_at. rewrite Hr.
  unfold unit_of in Ht. destruct (i_executionType instr), (load_store instr); simplify_eq;
    (split; [eexists; reflexivity|split; by vm_compute]).
Qed.

Lemma core_ok_needed acc s l b :
  core_ok acc s -> List.length l = Z.to_nat INO_WINDOW -> board_ok (i_instrCount s + 1) b ->
  core_ok acc (i_set_book (i_set_board s b) (book_needed (i_book s) l)).
Proof.
  intros [H1 H2 [B1 B2 B3 B4 B5 B6 B7 B8] H4] Hl Hb. split; try done.
Qed.

Lemma phase_needed acc s0 es f s l b :
  phase acc s0 es f s -> List.length l = Z.to_nat INO_WINDOW -> board_ok (i_instrCount s + 1) b ->
  phase acc s0 es f (i_set_book (i_set_board s b) (book_needed (i_book s) l)).
Proof. intros [P1 P2 P3 P4 P5] Hl Hb. split; try done. by apply core_ok_needed. Qed.

(** Only the record of needed units and the scoreboard change. *)
Definition unit_state (s s' : InorderCoreGraph) : Prop :=
  i_instrCount s' = i_instrCount s /\ i_params s' = i_params s /\
  exists l, i_book s' = book_needed (i_book s) l.

(** What a request answers. *)
Lemma schedule_user acc s instr t :
  core_ok acc s -> board_ok (i_instrCount s) (i_board s) -> unit_of instr = Some t ->
  exists u prev wait head b, simple_schedule (i_board s) t (i_instrCount s) = Ok (u, prev, wait, head, b) /\
    earlier 0 (i_instrCount s) prev /\ earlier 0 (i_instrCount s) head /\ 0 <= wait <= 9 /\
    board_ok (i_instrCount s + 1) b.
Proof.
  intros Hs Hb Ht. destruct (unit_of_some _ _ _ _ Hb Ht) as [Hsome Hwait].
  destruct Hb as [Hunits (h & Hr & Hu)].
  destruct (simple_schedule_ok _ h t (i_instrCount s) Hr Hsome) as (b & E & Hres & Hr').
  rewrite E. unfold simple_spec. do 5 eexists. split; [reflexivity|].
  assert (He : forall k, earlier 0 (i_instrCount s) (default UINT64_MAX (h t !! k))).
  { intros k. destruct (h t !! k) as [i|] eqn:Ei; [right|by left]. cbn.
    exact (proj1 (Forall_lookup _ _) (Hu t) k i Ei). }
  split_and!; try apply He; try lia. split; [by rewrite Hres|]. exists (add_user h t (i_instrCount s)).
  split; [done|]. intros t'. pose proof (co_base _ _ Hs) as [_ Hn].
  assert (Forall (fun i => 0 <= i < i_instrCount s + 1) (h t'))
    by (eapply Forall_impl; [apply Hu|cbn; lia]).
  unfold add_user. case_decide; [constructor; [lia|done]|done].
Qed.

Lemma units_phase acc s0 es f s m instr :
  phase acc s0 es f s -> board_ok (i_instrCount s) (i_board s) ->
  (f InstrExecute < 10)%nat -> (forall t, f t <= 10)%nat -> parents_ok (i_instrCount s) (bw s) m ->
  exists s' m' es', modelResourceDependenciesSimple s instr m = Ok (s', m') /\
    phase acc s0 es' (more f InstrExecute 1) s' /\ unit_state s s' /\
    parents_ok (i_instrCount s) (bw s) m' /\
    (waiting (i_instrCount s) (bw s) m' <= S (waiting (i_instrCount s) (bw s) m))%nat.
Proof.
  intros Hp Hbd Hlt Hf Hm. pose proof (ph_core _ _ _ _ _ Hp) as Hs.
  pose proof (co_params _ _ Hs) as (_ & _ & _ & Hb & _). pose proof (co_base _ _ Hs) as [Hw Hn].
  unfold modelResourceDependenciesSimple.
  destruct (unit_of instr) as [t|] eqn:Et.
  - destruct (schedule_user acc s instr t Hs Hbd Et) as (u & prev & wait & head & b & -> & He1 & He2 & Hwait & Hb').
    cbn [mbind res_bind].
    destruct (set_needed_ok acc (i_set_board s b)
      (fun _ => (if load_store instr then -1 else t, u))) as (l & -> & Hl); [by destruct Hs|].
    cbn [mbind res_bind].
    pose proof (phase_needed _ _ _ _ _ l b Hp Hl Hb') as P1.
    set (s1 := i_set_book _ _) in *.
    set (m' := if prev =? UINT64_MAX then m else _).
    assert (Hm' : parents_ok (i_instrCount s) (bw s) m' /\
      (waiting (i_instrCount s) (bw s) m' <= S (waiting (i_instrCount s) (bw s) m))%nat).
    { unfold m'. destruct (Z.eqb_spec prev UINT64_MAX); [split; [done|lia]|].
      destruct He1; [done|]. apply raise_parent_ok; try done; [lia|unfold INO_WINDOW; nia]. }
    destruct (negb (head =? UINT64_MAX) && _) eqn:Eh.
    + apply andb_true_iff in Eh as [Eh1%negb_true_iff%Z.eqb_neq Eh2%Z.ltb_lt].
      destruct He2 as [|He2]; [done|]. change (AnalysisWindow (i_base s1)) with (AnalysisWindow (i_base s)) in Eh2.
      rewrite Hw, u64_id in Eh2 by lia. unfold INO_WINDOW in Eh2.
      destruct (grown_edge acc s0 es f s1 (if load_store instr then MemExecute else InstrCommit) head
        InstrExecute 0 P1) as (s2 & E & (es2 & P2) & S1 & _ & S3 & S4); try done.
      { apply near_edge_back; cbn; try lia. by destruct (load_store instr); intros [[=] _]. }
      change (i_instrCount s) with (i_instrCount s1) at 1. rewrite E. cbn [mbind res_bind].
      exists s2, m', es2. split; [done|]. split; [done|]. split; [|done].
      split; [done|]. split; [done|]. exists l. by rewrite S1.
    + exists s1, m', es. split; [done|]. split; [|split; [by split_and!; try done; exists l|done]].
      eapply phase_mono; [|exact P1]. intros t'. unfold more. lia.
  - destruct (set_needed_ok acc s (fun e => (-1, e.2)) Hs) as (l & -> & Hl). cbn [mbind res_bind].
    exists (i_set_book s (book_needed (i_book s) l)), m, es. split; [done|].
    pose proof (phase_needed _ _ _ _ _ l (i_board s) Hp Hl (co_board _ _ Hs)) as P1.
    split; [|split; [by split_and!; try done; exists l|split; [done|lia]]].
    eapply phase_mono; [|by destruct s; exact P1]. intros t'. unfold more. lia.
Qed.

(** ** Edges between executions *)

Lemma parent_edges_phase acc s0 es f s x :
  phase acc s0 es f s -> 0 <= x.1 < i_instrCount s -> 0 <= x.2 -> x.2 * bw s <= INO_WINDOW ->
  (f InstrExecute < 10)%nat -> (f InstrCommit < 10)%nat -> (forall t, f t <= 10)%nat ->
  exists s', parent_edges s x = Ok s' /\
    let k := if decide (waits (i_instrCount s) (bw s) x) then 1%nat else 0%nat in
    grown_to acc s0 (more (more f InstrExecute k) InstrCommit k) s s'.
Proof.
  intros Hp Hx H0 Hw Hle Hlc Hf. pose proof (ph_core _ _ _ _ _ Hp) as Hs.
  pose proof (co_params _ _ Hs) as (_ & _ & _ & Hb & _). unfold parent_edges, waits.
  rewrite (distance_ok acc) by done. cbn [mbind res_bind].
  destruct (Z.ltb_spec ((i_instrCount s - x.1) / bw s) x.2) as [Hd|Hd].
  - rewrite decide_True by done. apply waits_near in Hd; [|lia|done].
    assert (x.2 <= 400) by (unfold INO_WINDOW in Hw; nia).
    destruct (grown_edge acc s0 es f s InstrExecute x.1 InstrExecute x.2) as (s1 & -> & (es1 & P1) & S1);
      try done.
    { apply near_edge_back; try lia. by intros [_ [=]]. }
    cbn [mbind res_bind]. pose proof (ph_core _ _ _ _ _ P1) as Hs1.
    pose proof (ib_needed _ _ _ _ (co_book _ _ Hs1)) as Hl. pose proof (co_base _ _ Hs1) as [Hw1 _].
    assert (Hslot : forall i, exists e, neededRsc (i_book s1) !! need_slot s1 i = Some e).
    { intros i. apply lookup_lt_is_Some_2. unfold need_slot. rewrite Hl, Hw1.
      pose proof (Z.mod_pos_bound i INO_WINDOW). unfold INO_WINDOW in *. lia. }
    pose proof S1 as (_ & _ & Hn & _).
    destruct (Hslot (i_instrCount s)) as [a ->], (Hslot x.1) as [b ->].
    destruct (same_unit a b).
    + rewrite <- Hn.
      destruct (grown_edge acc s0 es1 (more f InstrExecute 1) s1 InstrCommit x.1 InstrCommit x.2 P1)
        as (s2 & -> & G2).
      * rewrite Hn. apply near_edge_back; try lia. by intros [[=] _].
      * count_types.
      * intros t. specialize (Hf t). unfold more. case_decide; [subst|]; lia.
      * exists s2. split; [done|]. by eapply grown_after.
    + exists s1. split; [done|]. eapply grown_after; [exact S1|].
      eapply grown_stay; [exact P1|]. intros t. unfold more. lia.
  - rewrite decide_False by lia. exists s. split; [done|]. eapply grown_stay; [exact Hp|].
    intros t. unfold more. lia.
Qed.

Lemma all_parents_phase acc s0 es f s l :
  let c := List.length (filter (waits (i_instrCount s) (bw s)) l) in
  phase acc s0 es f s ->
  Forall (fun x => 0 <= x.1 < i_instrCount s /\ 0 <= x.2 /\ x.2 * bw s <= INO_WINDOW) l ->
  (f InstrExecute + c <= 10)%nat -> (f InstrCommit + c <= 10)%nat -> (forall t, f t <= 10)%nat ->
  exists s', res_fold parent_edges s l = Ok s' /\
    grown_to acc s0 (more (more f InstrExecute c) InstrCommit c) s s'.
Proof.
  revert es f s. induction l as [|x l IH]; intros es f s c Hp Hl Hce Hcc Hf.
  - exists s. split; [done|]. eapply grown_stay; [exact Hp|]. intros t. unfold more. lia.
  - apply Forall_cons in Hl as [(Hx & H0 & Hw) Hl]. cbn [res_fold].
    assert (Hc : c = ((if decide (waits (i_instrCount s) (bw s) x) then 1 else 0) +
      List.length (filter (waits (i_instrCount s) (bw s)) l))%nat)
      by (unfold c; rewrite filter_cons; by case_decide).
    clearbody c. destruct (decide (waits (i_instrCount s) (bw s) x)) as [Hwt|Hwt].
    + destruct (parent_edges_phase acc s0 es f s x) as (s1 & -> & (es1 & P1) & S1); try done; try lia.
      rewrite decide_True in P1 by done. cbn [mbind res_bind]. pose proof S1 as (_ & _ & Hn & Hpar).
      destruct (IH es1 (more (more f InstrExecute 1) InstrCommit 1) s1) as (s2 & E & (es2 & P2) & S2);
        rewrite ?Hn, ?Hpar; try done; try count_types.
      * intros t. specialize (Hf t). unfold more. repeat case_decide; subst; try lia; congruence.
      * exists s2. split; [done|]. split; [|by eapply same_state_trans]. exists es2.
        rewrite Hn, Hpar in P2. eapply phase_mono; [|exact P2]. intros t. unfold more.
        repeat case_decide; lia.
    + assert (E : parent_edges s x = Ok s).
      { unfold parent_edges. rewrite (distance_ok acc) by (done || apply Hp). cbn [mbind res_bind].
        unfold waits in Hwt. by destruct (Z.ltb_spec ((i_instrCount s - x.1) / bw s) x.2). }
      rewrite E. cbn [mbind res_bind]. rewrite Hc. by apply (IH es); try lia.
Qed.

(** ** All the edges *)

Definition ten : VertexType -> nat := fun _ => 10%nat.

Lemma edges_phase `{HashOrder} acc s instr cycles independent :
  core_ok acc s -> board_ok (i_instrCount s) (i_board s) -> gathered s [] ->
  (i_previousMispredicted (i_book s) = true -> 0 < i_instrCount s) ->
  ino_instr_ok (i_params s) instr -> 0 <= cycles < 2 ^ 30 -> 0 <= independent ->
  outcome (access_near (i_params s) (i_instrCount s) acc.*1 instr)
    (i_edges s instr cycles independent) (fun s' => exists es, phase acc s es ten s').
Proof.
  intros Hs Hb Hg Hm Hi Hc Hind. unfold i_edges.
  destruct (modelPipeline_phase acc s instr cycles Hs Hg Hm Hi Hc)
    as (s1 & m1 & es1 & -> & P1 & Hb1 & _ & M1 & W1). cbn [mbind res_bind].
  pose proof (ph_frame _ _ _ _ _ P1) as (_ & Hn1 & Hp1 & _).
  pose proof (memory_phase acc s es1 s1 instr P1) as HM. rewrite Hn1, Hp1 in HM.
  set (mem := i_modelMemoryOrderConstraint s1 _ _) in *.
  assert (HM' : outcome (access_near (i_params s) (i_instrCount s) acc.*1 instr)
    (if load_store instr then mem else Ok s1) (grown_to acc s (more pipeline_most MemExecute 9) s1)).
  { unfold load_store. unfold access_near in HM |- *.
    destruct (is_load instr), (is_store instr); try exact HM. cbn. exists s1. split; [done|].
    eapply grown_stay; [exact P1|]. intros t. unfold more. lia. }
  clearbody mem. clear HM. destruct (access_near _ _ _ _); [|by rewrite HM'].
  destruct HM' as (s2 & -> & (es2 & P2) & (B2 & C2 & Hn2 & Hp2)). cbn [mbind res_bind].
  unfold i_trackDataDependencies. pose proof (ii_reads _ _ Hi) as Hrd.
  destruct (registers_phase acc s es2 _ s2 m1 independent (regRead instr) P2)
    as (s3 & m3 & k & -> & K3 & [(es3 & P3) (B3 & C3 & Hn3 & Hp3)] & M3 & W3);
    rewrite ?Hn2, ?Hp2, ?Hn1, ?Hp1; try done; [count_types|intros []; count_types|].
  cbn [mbind res_bind]. rewrite Hn2, Hp2, Hn1, Hp1 in M3. rewrite Hn2, Hp2, Hn1, Hp1 in W3.
  destruct (units_phase acc s es3 _ s3 m3 instr P3) as (s4 & m4 & es4 & -> & P4 & (Hn4 & Hp4 & _) & M4 & W4);
    rewrite ?Hn3, ?Hp3, ?C3, ?C2, ?Hb1, ?Hn2, ?Hp2, ?Hn1, ?Hp1; try done; [count_types|intros []; count_types|].
  cbn [mbind res_bind]. rewrite Hn3, Hp3, Hn2, Hp2, Hn1, Hp1 in M4. rewrite Hn3, Hp3, Hn2, Hp2, Hn1, Hp1 in W4.
  rewrite Hn3, Hn2, Hn1 in Hn4. rewrite Hp3, Hp2, Hp1 in Hp4.
  assert (Hc4 : List.length (filter (waits (i_instrCount s) (bw s)) (hash_order m4)) =
                waiting (i_instrCount s) (bw s) m4)
    by (unfold waiting; by rewrite (hash_order_perm m4)).
  destruct (all_parents_phase acc s es4 _ s4 (hash_order m4) P4) as (s5 & -> & (es5 & P5) & _);
    rewrite ?Hn4, ?Hp4, ?Hc4 in *; try count_types.
  - rewrite hash_order_perm. apply Forall_forall. intros [i w] Hx%elem_of_map_to_list.
    exact (M4 i w Hx).
  - intros []; count_types.
  - exists s5. split; [done|]. exists es5. eapply phase_mono; [|exact P5]. intros []; unfold ten; count_types.
Qed.
