(* ===== verification/CalipersInorderRun.v ===== *)
(** * Running the in-order core

    The critical paths of one instruction, the bookkeeping after it, and a whole
    trace. *)

From S2P Require Import Prelude Machine CalipersCycles CalipersPaths CalipersScoreboard.
From S2P Require Import CalipersScoreFacts CalipersO3 CalipersO3Facts CalipersO3Window.
From S2P Require Import CalipersO3Run CalipersO3Trace CalipersInorder CalipersInorderBoard.
From S2P Require Import CalipersInorderEdges CalipersInorderPhases.

#[local] Open Scope list_scope.
#[local] Open Scope Z_scope.

Import CalG CalS CalO CalI.

(** ** The relaxations *)

(** The edges into the vertices of the kinds [ts], in the order of relaxation. *)
Definition pending (s : InorderCoreGraph) (ts : list VertexType) : list Edge :=
  mjoin ((fun t => (fun pw => (pw.1, mkEdge (mkVertex t (i_instrCount s)) pw.2)) <$>
                     miniGraph s t) <$> ts).

Lemma relax_types_eq s ts :
  NoDup ts ->
  res_fold relax_type s ts =
  (b ← relax_all (i_base s) (pending s ts);
   Ok (set_mini (i_set_base s b) (foldl (fun m t => mini_set m t []) (miniGraph s) ts))).
Proof.
  revert s. induction ts as [|t ts IH]; intros s Hnd; [by destruct s|].
  apply NoDup_cons in Hnd as [Ht Hnd]. cbn [res_fold].
  unfold pending. rewrite fmap_cons, join_cons, relax_all_app.
  assert (E : relax_type s t =
    (b ← relax_all (i_base s) ((fun pw => (pw.1, mkEdge (mkVertex t (i_instrCount s)) pw.2)) <$>
                                 miniGraph s t);
     Ok (set_mini (i_set_base s b) (mini_set (miniGraph s) t []))))
    by (unfold relax_all; by rewrite res_fold_fmap).
  rewrite E. destruct (relax_all _ _) as [b|x]; [|done]. cbn [mbind res_bind].
  rewrite IH by done. cbn [i_base i_set_base set_mini miniGraph foldl].
  replace (pending (set_mini (i_set_base s b) (mini_set (miniGraph s) t [])) ts) with (pending s ts);
    [done|].
  unfold pending. f_equal. apply list_fmap_ext. intros i t' Ht'%list_elem_of_lookup_2.
  cbn [miniGraph set_mini i_instrCount i_set_base]. unfold mini_set.
  rewrite decide_False; [done|]. by intros ->.
Qed.

Lemma all_types_NoDup : NoDup all_types.
Proof. apply (bool_decide_unpack _). vm_compute. exact I. Qed.
Lemma all_types_all t : t ∈ all_types.
Proof. unfold all_types. rewrite !elem_of_cons. destruct t; tauto. Qed.

Lemma emptied (m : MiniGraph) ts t : t ∈ ts -> foldl (fun m t => mini_set m t []) m ts t = [].
Proof.
  assert (Hkeep : forall ts (m : MiniGraph), m t = [] -> foldl (fun m t => mini_set m t []) m ts t = []).
  { clear. induction ts as [|t' ts IH]; intros m Hm; [done|]. apply IH. unfold mini_set.
    by case_decide. }
  revert m. induction ts as [|t' ts IH]; intros m Hin; [by apply not_elem_of_nil in Hin|].
  cbn. apply elem_of_cons in Hin as [->|Hin]; [|by apply IH].
  apply Hkeep. unfold mini_set. by rewrite decide_True.
Qed.

(** They are the edges gathered, each once. *)
Lemma pending_gathered s es pe :
  gathered s es -> Forall (near_edge (i_instrCount s)) es ->
  pe ∈ pending s all_types -> pe ∈ es.
Proof.
  intros Hg Hn Hpe. unfold pending in Hpe.
  apply list_elem_of_join in Hpe as (l & Hpe & (t & -> & _)%list_elem_of_fmap).
  apply list_elem_of_fmap in Hpe as (pw & -> & Hpw). rewrite Hg in Hpw.
  apply list_elem_of_fmap in Hpw as (pe & -> & Hpe). apply list_elem_of_filter in Hpe as [Ht Hpe].
  rewrite Forall_forall in Hn. destruct (Hn pe Hpe) as [Hc _ _ _].
  destruct pe as [p [[t' i] w]]. cbn in *. by subst.
Qed.

Lemma pending_length s es :
  gathered s es -> at_most es ten -> (List.length (pending s all_types) <= 50)%nat.
Proof.
  intros Hg Hm. unfold pending, all_types. cbn [fmap list_fmap mjoin list_join].
  rewrite !length_app, !length_fmap, !Hg.
  pose proof (Hm InstrFetch). pose proof (Hm InstrDispatch). pose proof (Hm InstrExecute).
  pose proof (Hm MemExecute). pose proof (Hm InstrCommit). unfold cnt, ten in *. cbn [List.length]. lia.
Qed.

Lemma near_ok g n es :
  intAluTotalCycles g = 3 -> Forall (near_edge n) es -> edges_ok g es /\
  cost (link_of g <$> es) <= 2 ^ 32 * Z.of_nat (List.length es).
Proof.
  intros Ha. induction es as [|pe es IH]; intros Hf; [by split; [constructor|]|].
  apply Forall_cons in Hf as [[_ _ _ (w & Hw & Hr & Hb)] Hf]. destruct (IH Hf) as [H1 H2]. split.
  - apply Forall_cons. split; [|done]. exists w. split; [|unfold INT64_MAX; lia].
    split; [done|]. split; [unfold INT64_MAX; lia|]. by rewrite Ha.
  - unfold cost in *. cbn. rewrite Hw. cbn. unfold sum_z, fmap in *. lia.
Qed.

Lemma relax_instruction acc s0 es s m B :
  phase acc s0 es ten s -> intAluTotalCycles (i_base s) = 3 -> sound m B (i_base s) ->
  m + 50 <= INT64_MAX -> B + 2 ^ 32 * 50 <= INT64_MAX ->
  exists s', calculateInstructionCriticalPath s = Ok s' /\ gathered s' [] /\ core_ok acc s' /\
    sound (m + 50) (B + 2 ^ 32 * 50) (i_base s') /\ same_config (i_base s) (i_base s') /\
    same_state s s' /\ i_stats s' = i_stats s.
Proof.
  intros [P1 P2 P3 P4 _] Ha Hs Hm HB. unfold calculateInstructionCriticalPath.
  rewrite relax_types_eq by apply all_types_NoDup.
  pose proof (pending_length s es P2 P4) as Hlen.
  assert (Hn : Forall (near_edge (i_instrCount s)) (pending s all_types)).
  { apply Forall_forall. intros pe Hpe%(pending_gathered s es); [|done..].
    by rewrite Forall_forall in P3; apply P3. }
  destruct (near_ok (i_base s) _ _ Ha Hn) as [Hok Hcost].
  destruct (relax_sound _ _ m B Hs Hok) as (g & E & C & S & _); [lia..|].
  rewrite E. cbn [mbind res_bind]. eexists. split; [done|]. split_and!.
  - intros t. cbn [miniGraph set_mini]. apply emptied, all_types_all.
  - destruct P1 as [[H1 H2] H3 H4 H5]. split; try done. split; [|done].
    cbn [i_base set_mini i_set_base]. destruct C as (-> & _). done.
  - eapply sound_mono; [| |exact S]; lia.
  - done.
  - done.
  - done.
Qed.

(** ** The bookkeeping *)

Section Book.
Context (p : InorderParams) (n : Z) (Hp : ino_params_ok p) (Hn : 0 <= n < 2 ^ 60).

Lemma book_next acc b : ino_book_ok p n acc b -> ino_book_ok p (n + 1) acc b.
Proof using.
  intros [B1 B2 B3 B4 B5 B6 B7 B8]. split; try done.
  - apply (earlier_mono 0 n); [lia|done].
  - apply (earlier_mono 0 n); [lia|done].
  - intros r i w Hr. destruct (B3 r i w Hr) as (? & ? & ?). split_and!; lia.
  - destruct B4 as [|(? & ? & ?)]; [by left|right; split_and!; lia].
  - eapply Forall_impl; [exact B8|]. cbn. intros e. lia.
Qed.

Lemma book_access_ok acc b ls :
  ino_book_ok p (n + 1) acc b -> 0 <= ls < UINT32_MAX ->
  let ptr := Z.to_nat (i_ldStWindowPointer b) in
  ino_book_ok p (n + 1) ((n, ls) :: acc)
    (book_access b (<[ptr := (n, ls)]> (i_ldStWindow b))
       (u32 (i_ldStWindowPointer b + 1) mod maxMemAccesses p) n).
Proof using Hp Hn.
  intros [B1 B2 B3 B4 B5 B6 (R1 & R2 & Bl) B8] Hls ptr. destruct Hp as (_ & _ & _ & _ & HM).
  pose proof (ring_lt _ _ _ _ R1) as Hlt.
  destruct (next_ring (i_ldStWindowPointer b) (maxMemAccesses p)) as [N0 N1]; [lia..|].
  split; try done; cbn [i_lastMemLdSt book_access i_ldStWindowPointer i_ldStWindow].
  - right. lia.
  - cbn zeta. rewrite N1, !list_fmap_insert. cbn [fmap list_fmap fst snd]. fold ptr.
    split; [by apply ring_push|]. split; [by apply ring_push|by apply blank_push].
  - constructor; [|done]. cbn. lia.
Qed.

Lemma book_write_ok acc b r w load :
  ino_book_ok p (n + 1) acc b -> 0 <= w -> w * i_issueBandwidth p <= INO_WINDOW ->
  ino_book_ok p (n + 1) acc (book_write b r (n, w) load).
Proof using Hn.
  intros [B1 B2 B3 B4 B5 B6 B7 B8] Hw Hb. split; try done. cbn [i_regLastWrittenBy book_write].
  intros r' i w'. destruct (decide (r' = r)) as [->|Hne].
  - rewrite lookup_insert_eq. intros [= <- <-]. lia.
  - rewrite lookup_insert_ne by done. apply B3.
Qed.
End Book.

Lemma latency_ok acc s instr :
  core_ok acc s -> ino_instr_ok (i_params s) instr ->
  0 <= (i_latency s instr).1 /\
  (i_latency s instr).1 * i_issueBandwidth (i_params s) <= INO_WINDOW /\
  0 <= (i_latency s instr).2.
Proof.
  intros Hs [I1 I2 I3 I4].
  destruct (unit_cycles _ _ (co_board _ _ Hs)) as (T1 & T2 & T3 & T4 & T5 & T6).
  pose proof (co_params _ _ Hs) as (_ & _ & _ & Hb & _). unfold i_latency.
  unfold INO_WINDOW in *. destruct (load_store instr).
  - cbn [fst snd]. rewrite T1. assert (Hu : u32 (1 + i_lsCycles instr) = 1 + i_lsCycles instr)
      by (apply Z.mod_small; nia). rewrite Hu. split_and!; [lia|lia|apply T6].
  - destruct (i_executionType instr); cbn [fst snd]; rewrite ?T2, ?T3, ?T4, ?T5;
      split_and!; try apply T6; lia.
Qed.

(** The book when the next instruction is read. *)
Lemma finish_ok acc s instr cycles :
  core_ok acc s -> ino_instr_ok (i_params s) instr -> 0 <= cycles ->
  cycles * i_issueBandwidth (i_params s) <= INO_WINDOW -> i_instrCount s + 1 < 2 ^ 60 ->
  exists s', i_finish s instr cycles = Ok s' /\
    ino_book_ok (i_params s) (i_instrCount s + 1)
      (if load_store instr then (i_instrCount s, i_lsCycles instr) :: acc else acc) (i_book s') /\
    i_base s' = i_base s /\ i_board s' = i_board s /\ i_instrCount s' = i_instrCount s /\
    i_params s' = i_params s /\ miniGraph s' = miniGraph s.
Proof.
  intros [[_ Hn] Hp Hbk _] [I1 I2 I3 I4] Hc Hcb Hn1. unfold i_finish.
  set (acc' := if load_store instr then _ else acc).
  assert (Hbw : 1 <= i_issueBandwidth (i_params s) <= 44) by apply Hp.
  assert (HM : 1 <= maxMemAccesses (i_params s) <= 7) by apply Hp.
  assert (Hls : i_lsCycles instr * i_issueBandwidth (i_params s) <= INO_WINDOW) by lia.
  assert (Hmem : exists b, (if load_store instr then i_record_memory s instr else Ok s) =
      Ok (i_set_book s b) /\ ino_book_ok (i_params s) (i_instrCount s + 1) acc' b).
  { apply book_next in Hbk. unfold acc'. destruct (load_store instr); [|exists (i_book s); by destruct s].
    unfold i_record_memory. pose proof (ib_window _ _ _ _ Hbk) as (R1 & _ & _).
    pose proof (ring_lt _ _ _ _ R1) as Hlt. pose proof (ring_len _ _ _ _ R1) as Hlen.
    rewrite length_fmap in Hlen. rewrite Hlen, (proj2 (Nat.ltb_lt _ _) Hlt).
    destruct (Z.eqb_spec (maxMemAccesses (i_params s)) 0); [lia|]. cbn [negb orb].
    eexists. split; [done|]. apply book_access_ok; try done.
    unfold UINT32_MAX, INO_WINDOW in *. nia. }
  destruct Hmem as (b & -> & Hb). cbn [mbind res_bind]. eexists. split; [done|].
  split; [|done]. cbn [i_book i_set_stats i_set_book]. unfold i_finish_book.
  cbn [i_params i_instrCount i_book i_set_book].
  apply (foldl_inv (ino_book_ok (i_params s) (i_instrCount s + 1) acc')).
  - destruct Hb as [B1 B2 B3 B4 B5 B6 B7 B8].
    destruct (negb (loadEarlyIssue (i_params s)) && computes instr); split; try done.
    cbn. right. lia.
  - intros x r _ Hx. apply book_write_ok; try done.
    + destruct (is_load instr); [|done]. destruct (loadDependentEarlyIssue _); [done|lia].
    + destruct (is_load instr); [|done].
      destruct (loadDependentEarlyIssue _); [unfold extraLoadLatency, INO_WINDOW; lia|done].
Qed.

(** ** A whole trace *)

(** What [n] instructions can add to a path. *)
Definition ino_load (n : Z) : Z := 50 * n.

(** The state between two instructions. *)
Record between (acc : list (Z * Z)) (s : InorderCoreGraph) : Prop := {
  bt_core : core_ok acc s;
  bt_board : board_ok (i_instrCount s) (i_board s);
  bt_mini : gathered s [];
  bt_prev : i_previousMispredicted (i_book s) = true -> 0 < i_instrCount s;
  bt_alu : intAluTotalCycles (i_base s) = 3;
  bt_sound : sound (ino_load (i_instrCount s)) (2 ^ 32 * ino_load (i_instrCount s)) (i_base s)
}.

(** Every access is near the accesses it waits for. *)
Fixpoint dense (p : InorderParams) (n : Z) (h : list Z) (trace : list Instruction) : bool :=
  match trace with
  | [] => true
  | instr :: trace =>
      access_near p n h instr && dense p (n + 1) (if load_store instr then n :: h else h) trace
  end.

Lemma set_type_sound m B g n t : sound m B g -> sound m B (set_type g n t).
Proof. intros [S1 [B1 B2 B3 B4] S3 S4]. split; try done. Qed.

Lemma count_instr_ok acc s instr : core_ok acc s -> core_ok acc (i_count_instr s instr).
Proof. intros [H1 H2 H3 H4]. by split. Qed.

Lemma res_bind_assoc {A B C} (r : res A) (f : A -> res B) (g : B -> res C) :
  (y ← (x ← r; f x); g y) = (x ← r; y ← f x; g y).
Proof. by destruct r. Qed.

Lemma outcome_bind ok r (f : InorderCoreGraph -> res InorderCoreGraph) P Q :
  outcome ok r P -> (ok = true -> forall s, P s -> exists s', f s = Ok s' /\ Q s') ->
  outcome ok (s ← r; f s) Q.
Proof. intros H Hf. destruct ok; cbn in *; [|by rewrite H]. destruct H as (s & -> & Hs). by apply Hf. Qed.

Lemma i_model_step `{HashOrder} acc s instr :
  between acc s -> ino_instr_ok (i_params s) instr -> i_instrCount s + 1 < 2 ^ 60 ->
  2 ^ 32 * ino_load (i_instrCount s + 1) <= INT64_MAX ->
  outcome (access_near (i_params s) (i_instrCount s) acc.*1 instr)
    (s ← i_model s instr; Ok (i_set_count s (u64 (i_instrCount s + 1))))
    (fun s' => i_instrCount s' = i_instrCount s + 1 /\ i_params s' = i_params s /\
       between (if load_store instr then (i_instrCount s, i_lsCycles instr) :: acc else acc) s').
Proof.
  intros [C1 C2 C3 C4 C5 C6] Hi Hn Hb. unfold i_model.
  pose proof (count_instr_ok acc s instr C1) as Hs. set (s0 := i_count_instr s instr) in *.
  pose proof (latency_ok acc s0 instr Hs Hi) as (L1 & L2 & L3).
  destruct (i_latency s0 instr) as [cycles ind]. cbn [fst snd] in L1, L2, L3.
  change (i_params s) with (i_params s0) in Hi |- *.
  change (i_instrCount s) with (i_instrCount s0) in *.
  assert (Hbw : 1 <= i_issueBandwidth (i_params s0) <= 44) by apply Hs.
  pose proof (edges_phase acc s0 instr cycles ind Hs C2 C3 C4 Hi) as He.
  rewrite res_bind_assoc.
  eapply outcome_bind; [apply He; [unfold INO_WINDOW in L2; nia|done]|].
  intros _ s1 (es & P). pose proof (ph_frame _ _ _ _ _ P) as (F1 & F2 & F3 & _).
  destruct (relax_instruction acc s0 es s1 (ino_load (i_instrCount s0))
    (2 ^ 32 * ino_load (i_instrCount s0)) P) as (s2 & E2 & G2 & K2 & S2 & Cf & (_ & B2 & N2 & P2) & _).
  { by rewrite F1. }
  { rewrite F1. by apply set_type_sound. }
  { unfold ino_load, INT64_MAX in *. lia. }
  { unfold ino_load, INT64_MAX in *. lia. }
  rewrite E2. cbn [mbind res_bind].
  assert (Hpar : i_params s2 = i_params s0) by congruence.
  assert (Hcnt : i_instrCount s2 = i_instrCount s0) by congruence.
  destruct (finish_ok acc s2 instr cycles K2) as (s3 & E3 & Bk & X1 & X2 & X3 & X4 & X5);
    rewrite ?Hpar, ?Hcnt in *; try done.
  rewrite E3. cbn [mbind res_bind]. eexists. split; [done|]. cbn [i_instrCount i_set_count i_params].
  pose proof (co_base _ _ Hs) as [HW HR]. rewrite X3, u64_id by lia.
  split; [done|]. split; [done|]. pose proof (eq_refl : i_instrCount s0 = i_instrCount s) as Hsame.
  split; cbn [i_instrCount i_set_count i_board i_book i_base i_params].
  - destruct K2 as [[W2 _] Q2 _ D2]. split; cbn; rewrite ?X1, ?X2, ?X4 in *; try done.
    + split; cbn; [by rewrite X1|lia].
    + by rewrite <- Hpar.
    + destruct D2 as [D2 (h & D3 & D4)]. split; [done|]. exists h. split; [done|].
      intros t. eapply Forall_impl; [apply D4|]. cbn. lia.
  - rewrite X2, <- Hcnt. apply K2.
  - intros t. cbn. rewrite X5. apply G2.
  - lia.
  - rewrite X1. destruct Cf as (_ & _ & _ & _ & -> & _). by rewrite F1.
  - rewrite X1. replace (ino_load (i_instrCount s0 + 1)) with (ino_load (i_instrCount s0) + 50)
      by (unfold ino_load; lia). by rewrite Z.mul_add_distr_l.
Qed.

Lemma i_run_ok `{HashOrder} acc s trace :
  let N := i_instrCount s + Z.of_nat (List.length trace) in
  between acc s -> Forall (ino_instr_ok (i_params s)) trace -> 2 ^ 32 * ino_load N <= INT64_MAX ->
  outcome (dense (i_params s) (i_instrCount s) acc.*1 trace) (i_run s trace)
    (fun s' => i_instrCount s' = N /\ exists acc', between acc' s').
Proof.
  revert acc s. induction trace as [|instr trace IH]; intros acc s N Hs Ht Hb.
  - cbn. exists s. split; [done|]. split; [unfold N; cbn; lia|eauto].
  - apply Forall_cons in Ht as [Hi Ht]. unfold N in *. cbn [List.length] in *.
    pose proof (co_base _ _ (bt_core _ _ Hs)) as [_ Hn].
    assert (Hn1 : 2 ^ 32 * ino_load (i_instrCount s + 1) <= INT64_MAX)
      by (unfold ino_load, INT64_MAX in *; lia).
    pose proof (i_model_step acc s instr Hs Hi ltac:(unfold ino_load, INT64_MAX in *; lia) Hn1) as H1.
    unfold i_run. cbn [res_fold dense]. destruct (access_near _ _ _ _); cbn [andb]; [|by cbn in *; rewrite H1].
    destruct H1 as (s1 & -> & N1 & P1 & B1). cbn [mbind res_bind].
    pose proof (IH _ s1 B1) as H2. cbn zeta in H2. rewrite N1, P1 in H2.
    replace (i_instrCount s + 1 + Z.of_nat (List.length trace)) with
      (i_instrCount s + Z.of_nat (S (List.length trace))) in H2 by lia.
    specialize (H2 Ht Hb). by destruct (load_store instr).
Qed.

(** ** The constructor *)

Lemma inorder_new_ok mem_branch mem_pc mem_mix p int_alu int_mul int_div fpu lsu :
  ino_params_ok p -> units_ok int_alu int_mul int_div fpu lsu ->
  exists s, InorderCoreGraph_new mem_branch mem_pc mem_mix p int_alu int_mul int_div fpu lsu = Ok s /\
    between [] s /\ i_instrCount s = 0 /\ i_params s = p.
Proof.
  intros Hp Hu. unfold InorderCoreGraph_new.
  destruct (init_simple_ok _ _ _ _ _ Hu) as (b & -> & Hset & Hres). cbn [mbind res_bind].
  eexists. split; [done|]. split; [|done].
  assert (Halu : totalCycles (simple_at b RscIntAlu) = 3) by (unfold simple_at; by rewrite Hres).
  set (g := mkGraph INO_WINDOW 20 5 20 _ ∅ ∅ ∅ ∅).
  assert (Hf : fresh g) by (by apply empty_fresh).
  assert (Hbd : forall n, board_ok n (initRecords b)).
  { intros n. split; [by exists int_alu, int_mul, int_div, fpu, lsu|].
    exists (fun _ => []). split; [by apply initRecords_refines|]. intros t. constructor. }
  assert (HM : 1 <= maxMemAccesses p <= 7) by apply Hp.
  split; cbn [i_instrCount i_initBookKeeping i_board i_book i_base i_params
    i_previousMispredicted]; try done.
  - split; try done. cbn. split; cbn; try done; try (by left); try (by rewrite length_fmap, length_replicate).
    + rewrite <- !list_fmap_compose. cbn.
      destruct (ring_replicate (Z.to_nat (maxMemAccesses p)) 0 ltac:(lia)) as [R1 _].
      destruct (ring_replicate (Z.to_nat (maxMemAccesses p)) UINT32_MAX ltac:(lia)) as [R2 R3].
      rewrite !fmap_replicate. done.
  - apply reset_sound; [done|]. split; [split; cbn; lia|apply Hf| |done].
    intros k. by rewrite (proj2 Hf).
Qed.
