(* ===== verification/CalipersTheorems.v ===== *)
(** * Properties of the Calipers analyser

    The caches: hits and misses, replacement, recency statistics and the two
    levels the tool uses. *)

From S2P Require Import Prelude Machine CalipersCache CalipersFacts CalipersCycles CalipersPaths.

#[local] Open Scope list_scope.
#[local] Open Scope Z_scope.

Import Cal.

(** A cleared memory for [n] sets, and a small cache to try the theorems on. *)
Definition cleared (n : nat) : Fresh :=
  mkFresh (replicate n (replicate 16 (mkLine 0 0 0))) (replicate n 0) (mkLine 0 0 0).
Definition demo_cache (ways : Z) : MyCache :=
  match new_cache (cleared 4) (256 * ways) ways 64 with
  | Ok c => c
  | Stop _ => mkCache 0 0 0 [] (mkLine 0 0 0) 0 0 0 0 0 [] 0 0 [] []
  end.

Lemma cleared_cache n assoc :
  (0 < n)%nat -> 1 <= assoc <= 16 ->
  exists c, new_cache (cleared n) (Z.of_nat n * (64 * assoc)) assoc 64 = Ok c /\ wf_cache c /\
    coherent c /\ tags_fit c /\ numWays c = assoc /\ lineSize c = 64.
Proof.
  intros Hn Ha.
  assert (Hdiv : Z.of_nat n * (64 * assoc) / (64 * assoc) = Z.of_nat n) by (apply Z.div_mul; lia).
  destruct (cacheNew_wf (fresh_sets (cleared n)) (fresh_tree (cleared n)) (fresh_line (cleared n))
    (Z.of_nat n * (64 * assoc)) assoc 64 (Z.of_nat n)) as (c & Hc & Hwf & Hs & _ & Hw & Hl & _);
    try done; try lia; cbn; rewrite ?length_replicate, ?Nat2Z.id; try done.
  - by apply Forall_replicate.
  - assert (Hinv : Forall (Forall (fun l => valid l = 0)) (sets c)).
    { rewrite Hs. apply (Forall_replicate _ n), (Forall_replicate _ 16). done. }
    exists c. split_and!; try done; [by apply invalid_coherent|].
    intros s ls w l H1 H2 _ Hv. exfalso. apply Hv.
    apply (Forall_lookup_1 _ _ _ _ (Forall_lookup_1 _ _ _ _ Hinv H1) H2).
Qed.

(** The state the examples start from. *)
Lemma demo_cache_ready ways :
  1 <= ways <= 16 -> wf_cache (demo_cache ways) /\ coherent (demo_cache ways) /\
  tags_fit (demo_cache ways) /\ numWays (demo_cache ways) = ways /\ lineSize (demo_cache ways) = 64.
Proof.
  intros H. destruct (cleared_cache 4 ways) as (c & Hc & ?); [lia|done|].
  unfold demo_cache. replace (256 * ways) with (Z.of_nat 4 * (64 * ways)) by lia. by rewrite Hc.
Qed.

(** C21: one cache access is correct.  On a well-formed cache every access
    completes; it hits exactly when one of the usable ways of the selected set
    holds the line; afterwards the line is there and no other line has come in;
    a line that left is the one recorded as last evicted, and only on a miss;
    the counters count the access and the miss; and the cache is again well
    formed, with every line in its own set and in one way only. *)
Theorem cacheAccessInstall_correct c addr type
    (Hwf : wf_cache c) (Hco : coherent c) (Ha : 0 <= addr) :
  let line := addr / lineSize c in
  exists o c', cacheAccessInstall c addr type = Ok (o, c') /\ wf_cache c' /\ coherent c' /\
    o = (if resident c line then HIT else MISS) /\
    resident c' line = true /\
    (forall l, l <> line -> resident c' l = true -> resident c l = true) /\
    (forall l, resident c l = true -> resident c' l = false ->
       o = MISS /\ valid (lastEvictedLine c') <> 0 /\ tag (lastEvictedLine c') = l) /\
    statReadAccess c' = (if type =? 0 then u64 (statReadAccess c + 1) else statReadAccess c) /\
    statReadMiss c' =
      (if (type =? 0) && (o =? MISS) then u64 (statReadMiss c + 1) else statReadMiss c) /\
    statWriteAccess c' = (if type =? 0 then statWriteAccess c else u64 (statWriteAccess c + 1)) /\
    statWriteMiss c' =
      (if negb (type =? 0) && (o =? MISS) then u64 (statWriteMiss c + 1) else statWriteMiss c).
Proof.
  destruct (access_total c addr type Hwf Ha) as (o & c' & w & He & Hac).
  exists o, c'. destruct (ac_stats _ _ _ _ _ _ Hac) as (S1 & S2 & S3 & S4).
  split_and!; try done.
  - by eapply accessed_wf.
  - by eapply accessed_coherent.
  - by eapply accessed_outcome.
  - by eapply accessed_resident.
  - intros l. by eapply accessed_no_new.
  - intros l. by eapply accessed_evicts.
Qed.

Lemma cacheAccessInstall_correct_witness :
  exists o c', cacheAccessInstall (demo_cache 2) 4096 0 = Ok (o, c') /\ o = MISS /\
    resident c' 64 = true /\ wf_cache c'.
Proof.
  destruct (demo_cache_ready 2) as (Hw & Hc & _); [lia|].
  destruct (cacheAccessInstall_correct (demo_cache 2) 4096 0 Hw Hc ltac:(lia))
    as (o & c' & He & Hwf & _ & Ho & Hr & _).
  exists o, c'. split; [exact He|]. split; [rewrite Ho; vm_compute; reflexivity|].
  split; [exact Hr|exact Hwf].
Defined.

(** C24: The pseudo-LRU tree never evicts the line accessed last.  In a well-formed cache
    with a power of two of ways, two or more, any two accesses in a row complete and
    leave the lines of both resident, whatever the tree held before. *)
Theorem recent_lines_resident c a b ta tb k
    (Hwf : wf_cache c) (Hk : 1 <= k) (Hw : numWays c = 2 ^ k) (Ha : 0 <= a) (Hb : 0 <= b) :
  exists o1 c1 o2 c2, cacheAccessInstall c a ta = Ok (o1, c1) /\
    cacheAccessInstall c1 b tb = Ok (o2, c2) /\
    resident c2 (a / lineSize c) = true /\ resident c2 (b / lineSize c) = true.
Proof.
  destruct (access_total c a ta Hwf Ha) as (o1 & c1 & w1 & He1 & Hac1).
  destruct (access_total c1 b tb (accessed_wf _ _ _ _ _ _ Hac1 Hwf) Hb) as (o2 & c2 & w2 & He2 & Hac2).
  exists o1, c1, o2, c2. split; [exact He1|]. split; [exact He2|].
  destruct (ac_geom _ _ _ _ _ _ Hac1) as (_ & _ & G3 & _). rewrite G3 in Hac2.
  split; [by apply (mru_survives _ _ _ _ _ _ _ _ _ _ _ k Hwf Hac1 Hac2)|by eapply accessed_resident].
Qed.

Lemma recent_lines_resident_witness :
  exists o1 c1 o2 c2, cacheAccessInstall (demo_cache 2) 0 0 = Ok (o1, c1) /\
    cacheAccessInstall c1 256 1 = Ok (o2, c2) /\ resident c2 0 = true /\ resident c2 4 = true.
Proof.
  destruct (demo_cache_ready 2) as (Hw & _ & _ & Hn & _); [lia|].
  apply (recent_lines_resident (demo_cache 2) 0 256 0 1 1 Hw ltac:(lia) Hn ltac:(lia) ltac:(lia)).
Defined.

(** C31: the recency statistics are exact.  On a fresh cache over cleared
    memory any sequence of accesses completes with the invariants kept; each
    set's stack holds the sixteen most recently used lines of that set, most
    recent first and without repetition; and a further access to a line adds
    one to the counter of the number of lines used since, if fewer than
    sixteen, and to no other. *)
Theorem lru_stack_exact ms mt ml size assoc ls n ops
    (Ha : 1 <= assoc <= 16) (Hl : 0 < ls) (Hb : ls * assoc < 2 ^ 64)
    (Hn : n = size / (ls * assoc)) (Hp : 0 < n)
    (Hms : length ms = Z.to_nat n) (Hf : Forall (fun l => length l = 16%nat) ms)
    (Hmt : length mt = Z.to_nat n) (Hv : Forall (Forall (fun l => valid l = 0)) ms)
    (Hops : Forall (fun op => 0 <= op.1) ops) :
  let hist s := recency n s ((fun op => op.1 / ls) <$> ops) in
  exists c c', cacheNew ms mt ml size assoc ls = Ok c /\ accesses c ops = Ok c' /\
    wf_cache c' /\ coherent c' /\
    (forall s, (s < Z.to_nat n)%nat -> lruStack c' !! s = Some (take 16 (hist s)) /\ NoDup (hist s)) /\
    (forall addr type o c'', 0 <= addr -> cacheAccessInstall c' addr type = Ok (o, c'') ->
       let line := addr / ls in
       (forall d, hist (Z.to_nat (line mod n)) !! d = Some line -> (d < 16)%nat ->
          lruStackHit c'' = alter (fun k => u64 (k + 1)) d (lruStackHit c')) /\
       ((forall d, hist (Z.to_nat (line mod n)) !! d = Some line -> (16 <= d)%nat) ->
          lruStackHit c'' = lruStackHit c')).
Proof.
  intros hist.
  destruct (cacheNew_wf ms mt ml size assoc ls n) as (c & Hc & Hwf & Hs & G1 & G2 & G3 & Hst);
    try done. rewrite <- G1 in Hst.
  destruct (accesses_run c ops Hwf) as (c' & Hrun & Hwf' & Hco' & N1 & N2 & N3 & HS);
    [apply invalid_coherent; by rewrite Hs|done..|].
  rewrite G1, G3 in HS. exists c, c'. split_and!; try done.
  - intros s Hlt. split; [by apply HS|apply recency_NoDup].
  - intros addr type o c'' Hadr He line.
    destruct (access_total c' addr type Hwf' Hadr) as (? & ? & w & He' & Hac).
    rewrite He in He'. injection He' as <- <-.
    destruct (ac_stack _ _ _ _ _ _ Hac) as (st & Hlk & _ & ->).
    unfold set_of in Hlk. rewrite N1, N3, G1, G3 in *. fold line in Hlk |- *.
    assert (Hlt : (Z.to_nat (line mod n) < Z.to_nat n)%nat)
      by (pose proof (Z.mod_pos_bound line n); lia).
    rewrite HS in Hlk by done. injection Hlk as <-. fold (hist (Z.to_nat (line mod n))).
    assert (Hnd : NoDup (hist (Z.to_nat (line mod n)))) by apply recency_NoDup.
    split.
    + intros d Hd Hlt16. by rewrite (proj2 (lru_depth_spec line _ d Hnd) (conj Hd Hlt16)).
    + intros Hno. destruct (lru_depth line _) as [d|] eqn:E; [|done].
      apply (lru_depth_spec line _ d Hnd) in E as [Hd Hlt16]. specialize (Hno d Hd). lia.
Qed.

Lemma lru_stack_exact_witness :
  exists c c', cacheNew (fresh_sets (cleared 2)) (fresh_tree (cleared 2)) (mkLine 0 0 0) 256 2 64
    = Ok c /\ accesses c [(0, 0); (128, 1); (0, 0)] = Ok c' /\ lruStack c' !! 0%nat = Some [0; 2].
Proof.
  destruct (lru_stack_exact (fresh_sets (cleared 2)) (fresh_tree (cleared 2)) (mkLine 0 0 0)
    256 2 64 2 [(0, 0); (128, 1); (0, 0)] ltac:(lia) ltac:(lia) ltac:(lia) eq_refl ltac:(lia) eq_refl
    ltac:(vm_compute; repeat constructor) eq_refl ltac:(vm_compute; repeat constructor)
    ltac:(repeat constructor; simpl; lia)) as (c & c' & Hc & Hr & _ & _ & Hs & _).
  exists c, c'. split; [exact Hc|]. split; [exact Hr|].
  destruct (Hs 0%nat ltac:(vm_compute; lia)) as [H0 _]. rewrite H0. vm_compute. reflexivity.
Defined.

(** ** Two levels *)

(** Two levels of cache.  With both levels well formed and a power of two
    of ways in the second, an access completes and reports level 1 for a store or
    when the first level holds the line, level 2 when only the second does, and
    level 3 otherwise.  Afterwards the first level holds the line; unless the
    answer was 1, so does the second, and a dirty line the first level evicted is
    in the second; if it was 1 the second is unchanged. *)
Theorem memoryAccess_two_levels ci c1 c2 addr type k
    (HT : two_levels ci c1 c2) (Ha : 0 <= addr < 2 ^ 64) (Hk : 1 <= k) (Hw : numWays c2 = 2 ^ k) :
  let line := addr / lineSize c1 in
  exists h c1' c2',
    memoryAccess ci addr type = Ok (h, mkInternals 3 (Some c1') (Some c2') (l3cache ci)) /\
    two_levels (mkInternals 3 (Some c1') (Some c2') (l3cache ci)) c1' c2' /\
    h = (if type =? 1 then 1 else if resident c1 line then 1
         else if resident c2 line then 2 else 3) /\
    resident c1' line = true /\
    (h = 1 -> c2' = c2) /\
    (h <> 1 -> resident c2' line = true /\
       (valid (lastEvictedLine c1') <> 0 -> dirty (lastEvictedLine c1') <> 0 ->
        resident c2' (tag (lastEvictedLine c1')) = true)).
Proof.
  intros line. destruct (two_level_access ci c1 c2 addr type k HT Ha Hk Hw)
    as (h & c1' & c2' & E & T & Hh & R & H1 & H2 & _). by exists h, c1', c2'.
Qed.

(** An empty two-level cache of four sets and two ways each. *)
Definition demo_internals : CacheInternals :=
  mkInternals 3 (Some (demo_cache 2)) (Some (demo_cache 2)) None.

Lemma demo_two_levels : two_levels demo_internals (demo_cache 2) (demo_cache 2).
Proof. destruct (demo_cache_ready 2) as (? & ? & ? & ? & ?); [lia|]. by split. Qed.

Lemma memoryAccess_two_levels_witness :
  exists c1 c2, memoryAccess demo_internals 4096 0 = Ok (3, mkInternals 3 (Some c1) (Some c2) None) /\
    resident c1 64 = true /\ resident c2 64 = true.
Proof.
  destruct (memoryAccess_two_levels demo_internals (demo_cache 2) (demo_cache 2) 4096 0 1
    demo_two_levels ltac:(lia) ltac:(lia) eq_refl) as (h & c1 & c2 & He & _ & Hh & R1 & _ & R2).
  assert (E : h = 3) by (rewrite Hh; vm_compute; reflexivity).
  exists c1, c2. rewrite E in He, R2. split; [exact He|]. split; [exact R1|].
  apply R2. lia.
Defined.

(** The cycles of the tool's cache.  A load costs the cycles of the level
    that holds its line; a store always costs the first level's hit cycles, so
    the cycles configured for stores in the second level are never used. *)
Theorem real_cache_cycles r c1 c2 base k
    (HT : two_levels (cacheInternals r) c1 c2) (Ha : 0 <= base < 2 ^ 64)
    (Hk : 1 <= k) (Hw : numWays c2 = 2 ^ k) :
  let line := base / lineSize c1 in
  exists rl rs c1l c2l c1s,
    loadCycles r base =
      Ok (if resident c1 line then l1LoadHitCycles r
          else if resident c2 line then l2LoadHitCycles r else l2LoadMissCycles r, rl) /\
    two_levels (cacheInternals rl) c1l c2l /\
    resident c1l line = true /\
    storeCycles r base = Ok (l1StoreHitCycles r, rs) /\
    two_levels (cacheInternals rs) c1s c2 /\ resident c1s line = true.
Proof.
  intros line.
  destruct (two_level_access (cacheInternals r) c1 c2 base 0 k HT Ha Hk Hw)
    as (hl & c1l & c2l & Hl & Tl & El & Rl & _ & _ & _).
  destruct (two_level_access (cacheInternals r) c1 c2 base 1 k HT Ha Hk Hw)
    as (hs & c1s & c2s & Hs & Ts & Es & Rs & Hsame & _ & _).
  cbn in Es. subst hs. rewrite (Hsame eq_refl) in *. fold line in El, Rl, Rs.
  unfold loadCycles, storeCycles. rewrite Hl, Hs. cbn [mbind res_bind].
  exists (set_internals r (mkInternals 3 (Some c1l) (Some c2l) (l3cache (cacheInternals r)))).
  exists (set_internals r (mkInternals 3 (Some c1s) (Some c2) (l3cache (cacheInternals r)))).
  exists c1l, c2l, c1s. split_and!; [|done|done|done|done|done].
  do 2 f_equal. rewrite El. cbn. by destruct (resident c1 line), (resident c2 line).
Qed.

Definition demo_real : RealCache := mkReal demo_internals 4 12 200 1 10 150.

Lemma real_cache_cycles_witness :
  exists rl rs, loadCycles demo_real 4096 = Ok (200, rl) /\ storeCycles demo_real 4096 = Ok (1, rs).
Proof.
  destruct (real_cache_cycles demo_real (demo_cache 2) (demo_cache 2) 4096 1
    demo_two_levels ltac:(lia) ltac:(lia) eq_refl) as (rl & rs & c1l & c2l & c1s & Hl & _ & _ & Hs & _).
  exists rl, rs. split; [|exact Hs]. rewrite Hl. vm_compute. reflexivity.
Defined.

(** Associativities that are not a power of two.  With three ways the tree
    has one level and steps of two: whatever its bits hold, way 1 is never chosen
    as a victim; and when the line accessed last is in way 2, the next miss in
    its set evicts exactly that line. *)
Theorem three_ways_evict_mru c a ta o1 c1 b tb o2 c2
    (Hwf : wf_cache c) (Hco : coherent c) (Hw : numWays c = 3) (Ha : 0 <= a) (Hb : 0 <= b)
    (H1 : cacheAccessInstall c a ta = Ok (o1, c1))
    (Hway : resident_way c1 (a / lineSize c) = Some 2%nat)
    (Hset : set_of c (b / lineSize c) = set_of c (a / lineSize c))
    (Hmiss : resident c1 (b / lineSize c) = false)
    (H2 : cacheAccessInstall c1 b tb = Ok (o2, c2)) :
  (forall s v, getVictimInSet c s = Ok v -> v = 0 \/ v = 2) /\
  resident c1 (a / lineSize c) = true /\ resident c2 (a / lineSize c) = false.
Proof.
  destruct (access_total c a ta Hwf Ha) as (? & ? & w1 & He1 & Hac1).
  rewrite H1 in He1. injection He1 as <- <-.
  pose proof (accessed_wf _ _ _ _ _ _ Hac1 Hwf) as Hwf1.
  destruct (access_total c1 b tb Hwf1 Hb) as (? & ? & w2 & He2 & Hac2).
  rewrite H2 in He2. injection He2 as <- <-.
  destruct (ac_geom _ _ _ _ _ _ Hac1) as (_ & _ & G3 & _). rewrite G3 in Hac2.
  rewrite (accessed_way _ _ _ _ _ _ Hac1 Hco) in Hway. injection Hway as ->.
  split_and!.
  - intros s v Hv. apply three_ways_victims in Hv; [|done..]. destruct (Z.testbit _ 0); auto.
  - by eapply accessed_resident.
  - by apply (three_ways_next _ _ _ _ _ _ _ _ _ _ Hwf Hco Hw Hac1 Hac2).
Qed.

(** The caches the run below goes through. *)
Definition demo_after (c : MyCache) (addr : Z) : MyCache :=
  match cacheAccessInstall c addr 0 with Ok (_, c) => c | Stop _ => c end.

Lemma demo_after_ok c addr :
  wf_cache c -> 0 <= addr ->
  exists o, cacheAccessInstall c addr 0 = Ok (o, demo_after c addr) /\
    wf_cache (demo_after c addr) /\ (coherent c -> coherent (demo_after c addr)).
Proof.
  intros H Ha. unfold demo_after.
  destruct (access_total c addr 0 H Ha) as (o & c' & w & He & Hac). rewrite He.
  exists o. split_and!; [done|by eapply accessed_wf|intros; by eapply accessed_coherent].
Qed.

Lemma three_ways_evict_mru_witness :
  resident (demo_after (demo_after (demo_cache 3) 0) 256) 4 = true /\
  resident (demo_after (demo_after (demo_after (demo_cache 3) 0) 256) 512) 4 = false.
Proof.
  destruct (demo_cache_ready 3) as (W & C & _); [lia|].
  destruct (demo_after_ok (demo_cache 3) 0 W ltac:(lia)) as (o1 & _ & W1 & C1).
  destruct (demo_after_ok _ 256 W1 ltac:(lia)) as (o2 & H2 & W2 & _).
  destruct (demo_after_ok _ 512 W2 ltac:(lia)) as (o3 & H3 & _ & _).
  apply (three_ways_evict_mru (demo_after (demo_cache 3) 0) 256 0 o2 _ 512 0 o3 _ W1 (C1 C) eq_refl
    ltac:(lia) ltac:(lia) H2 eq_refl eq_refl eq_refl H3).
Defined.

(** What the memory of a new cache happens to hold decides its first access:
    with one content of the sets it hits, with another it misses. *)
Theorem fresh_memory_matters :
  exists m m',
    (o ← (c ← new_cache m 128 1 64; cacheAccessInstall c 64 0); Ok (fst o)) = Ok HIT /\
    (o ← (c ← new_cache m' 128 1 64; cacheAccessInstall c 64 0); Ok (fst o)) = Ok MISS.
Proof.
  exists (mkFresh (replicate 2 (replicate 16 (mkLine 1 0 1))) (replicate 2 0) (mkLine 0 0 0)).
  exists (cleared 2). split; vm_compute; reflexivity.
Qed.

(** ** Critical paths *)

(** C16: the breakdown of a critical path.  Relaxing an edge sets the length of
    its end to the larger of its old length and the length through the edge, or
    leaves it when the edge does not exist in the scenario, touches no other
    length, never overflows within the 64-bit range, and keeps the invariant that
    at every vertex the twenty kinds of cycles are non-negative and add up to the
    length of its critical path. *)
Theorem updateCriticalPathCycles_balanced g parent e w n
    (pk := CalG.VertexKey g parent) (ck := CalG.VertexKey g (CalG.child e))
    (Hcfg : config_ok g) (Hbal : balanced n g) (He : edge_ok g parent e w)
    (Hn : n < CalG.INT64_MAX)
    (Hb : w <> CalG.INT64_MAX -> lane (CalG.length_at g pk) + w <= CalG.INT64_MAX)
    (Hck : lane (CalG.length_at g ck) <= CalG.INT64_MAX) :
  exists g', CalG.updateCriticalPathCycles g parent e = Ok g' /\ same_config g g' /\
    balanced (n + 1) g' /\
    (forall k, CalG.length_at g' k =
       if decide (k = ck)
       then [if w =? CalG.INT64_MAX then lane (CalG.length_at g ck)
             else Z.max (lane (CalG.length_at g ck)) (lane (CalG.length_at g pk) + w)]
       else CalG.length_at g k).
Proof. by apply relax_edge. Qed.

Definition demo_cal : CalG.Graph :=
  CalG.mkGraph 800 20 5 20 1 {[0 := CalG.Load]} ∅ ∅ ∅.
Definition demo_fetch : CalG.Vertex := CalG.mkVertex CalG.InstrFetch 0.
Definition demo_edge : CalG.OutgoingEdge :=
  CalG.mkEdge (CalG.mkVertex CalG.InstrDispatch 0) [7].

Lemma updateCriticalPathCycles_balanced_witness :
  exists g', CalG.updateCriticalPathCycles demo_cal demo_fetch demo_edge = Ok g' /\
    CalG.length_at g' (1, 0) = [7] /\ balanced 1 g'.
Proof.
  destruct (updateCriticalPathCycles_balanced demo_cal demo_fetch demo_edge 7 0)
    as (g' & E & _ & B & L).
  - split; vm_compute; discriminate.
  - apply empty_fresh; reflexivity.
  - split; [reflexivity|]. split; [split; vm_compute; discriminate|]. intros [=].
  - vm_compute. reflexivity.
  - intros _. vm_compute. discriminate.
  - vm_compute. discriminate.
  - exists g'. split; [exact E|]. split; [rewrite L; vm_compute; reflexivity|exact B].
Defined.
