(* ===== verification/CalipersO3Theorems.v ===== *)
(** * Properties of Calipers' out-of-order graph

    The scoreboard refines its specification; a window's graph is acyclic, its
    first pass computes longest paths, its resource edges are those of the
    specification; whole traces are analysed to the end. *)

From S2P Require Import Prelude Machine CalipersCache CalipersFacts CalipersCycles CalipersPaths.
From S2P Require Import CalipersScoreboard CalipersScoreFacts CalipersO3 CalipersO3Facts.
From S2P Require Import CalipersO3Steps CalipersO3Window CalipersO3Run CalipersO3Trace.

#[local] Open Scope list_scope.
#[local] Open Scope Z_scope.

Import CalG CalS CalO.

(** What a configuration of the core has to satisfy; the lists are what the
    arrays the constructor allocates hold. *)
Record configuration := mkConfiguration {
  c_window : Z;
  c_params : Params;
  c_sizes : Sizes;
  c_int : list Z;
  c_fp : list Z;
  c_mix : list Z;
  c_types : list bool
}.
Record configuration_ok (c : configuration) : Prop := {
  co_window : 0 < c_window c < 2 ^ 32;
  co_params : params_ok (c_params c);
  co_sizes : sizes_ok (c_sizes c);
  co_int : List.length (c_int c) = Z.to_nat (int_mul_div_count (c_sizes c));
  co_fp : List.length (c_fp c) = Z.to_nat (fp_mul_div_count (c_sizes c));
  co_types : List.length (c_types c) = Z.to_nat (lq_size (c_sizes c) + sq_size (c_sizes c))
}.

Definition build {CI CD BP} (c : configuration) (ic : option CI) (dc : option CD)
    (pred : option BP) : res (@O3CoreGraph CI CD BP) :=
  O3CoreGraph_new (c_int c) (c_fp c) (c_mix c) (c_types c) (c_window c) (c_params c) (c_sizes c)
    ic dc pred.

(** A small core for the examples, without caches and branch predictor. *)
Definition demo_core (w : Z) : configuration :=
  mkConfiguration w (mkParams 8 2 2 2 1 1 1 1 4 1 1) (mkSizes 4 2 1 1 1 1 1 2 2) [0] [0]
    (replicate 6 0) (replicate 4 false).
Definition plain (t : ExecutionType) (r w : list Z) : Instruction :=
  mkInstruction 4096 4 1 0 false t r w 0 0 0 0 0 0.
Definition loading (r w : list Z) (a : Z) : Instruction :=
  mkInstruction 4096 4 1 3 false Load r w 1 a 8 0 0 0.
Definition core_trace : list Instruction :=
  [plain IntDiv [] [1]; loading [1] [2] 64; plain IntBase [2] [3]].

#[global] Instance NoPredictor : BranchPredictor unit := { mispredicted := fun p _ => (false, p) }.

Lemma demo_core_ok w : 0 < w < 2 ^ 32 -> configuration_ok (demo_core w).
Proof.
  intros Hw. split; cbn; [done|split_and!|split|done..]; try lia;
    repeat (apply Forall_cons; split; [cbn; lia|]); done.
Qed.

Lemma core_trace_ok : Forall instr_ok core_trace.
Proof. repeat (apply Forall_cons; split; [split; cbn; done || lia|]). done. Qed.

(** C7: the scoreboard refines its specification.  The scoreboard the constructor
    sets up answers every sequence of requests for units and queue entries as the
    specification does: a request for a resource with [n] copies has to wait for
    the user [n] requests before it on that resource, for as long as that user's
    operation keeps the unit, or its entry; the round-robin arrays, the mixed
    units and the marks for unused entries do not show. *)
Theorem scoreboard_refines (c : configuration) (rs : list request) (Hc : configuration_ok c)
    (Hrs : Forall (request_ok (board (c_int c) (c_fp c) (c_sizes c))) rs) :
  exists b b', init_scoreboard (c_int c) (c_fp c) (c_sizes c) = Ok b /\
    request_run b rs = Ok ((spec_run b no_requests rs).1, b') /\
    refines b' (spec_run b no_requests rs).2.
Proof.
  destruct (request_run_refines _ no_requests rs
    (ready_refines _ (board_ready _ _ _ (co_sizes c Hc) (co_int c Hc) (co_fp c Hc))) Hrs)
    as (b' & E & R & _).
  exists (board (c_int c) (c_fp c) (c_sizes c)), b'. by rewrite init_scoreboard_board.
Qed.

Definition demo_requests : list request := [Unit RscIntDiv 0; Unit RscIntMul 1; Entry RscLQ 2 7].

Lemma scoreboard_refines_witness :
  exists b b', init_scoreboard [0] [0] (c_sizes (demo_core 4)) = Ok b /\
    request_run b demo_requests = Ok ([None; Some (0, 20); None], b').
Proof.
  pose proof (board_set_up [0] [0] (c_sizes (demo_core 4))) as Hb.
  destruct (scoreboard_refines (demo_core 4) demo_requests) as (b & b' & E & R & _).
  - apply demo_core_ok. lia.
  - apply Forall_cons; split; [|apply Forall_cons; split; [|apply Forall_singleton]].
    + apply (operation_request (c_sizes (demo_core 4)) _ IntDiv RscIntDiv None); done.
    + apply (operation_request (c_sizes (demo_core 4)) _ IntMul RscIntMul None); done.
    + apply (queue_request (c_sizes (demo_core 4)) _ RscLQ 2); done.
  - exists b, b'. split; [exact E|]. rewrite R. do 2 f_equal.
    rewrite init_scoreboard_board in E. apply Ok_inj in E. subst b. reflexivity.
Defined.

Section Core.
Context {CI CD BP : Type} `{!Cache CI} `{!Cache CD} `{!CacheLaws CI} `{!CacheLaws CD}.
Context `{!BranchPredictor BP}.
Notation O3 := (@O3CoreGraph CI CD BP).

Lemma build_ok c (ic : option CI) (dc : option CD) (pred : option BP) :
  configuration_ok c -> option_ok ic -> option_ok dc ->
  exists s : O3, build c ic dc pred = Ok s /\
    window_inv (c_sizes c) (c_window c) 0 (base s) [] s /\ fresh (base s) /\ sound 0 0 (base s) /\
    intAluTotalCycles (base s) = 1 /\ instrCount s = 0.
Proof.
  intros [C1 C2 C3 C4 C5 C6] Hi Hd.
  destruct (new_ok (c_int c) (c_fp c) (c_mix c) (c_types c) (c_window c) (c_params c) (c_sizes c)
    ic dc pred C1 C2 C3 C4 C5 C6 Hi Hd) as (s & E & ? & ? & ? & ? & ? & _).
  exists s. split; [exact E|]. split_and!; assumption.
Qed.

(** C2: a trace is analysed to the end.  A core built from a proper configuration,
    whatever its caches and its branch predictor, runs over every trace of up to
    fifty-six million instructions without leaving the normal path: no array is
    read or written outside its bounds, no length overflows, no error is reported;
    every instruction is modelled, every window is analysed once, a last partial
    one included; and at the end the kinds of cycles counted for each critical
    path add up to its length. *)
Theorem run_correct c (ic : option CI) (dc : option CD) (pred : option BP) trace
    (Hc : configuration_ok c) (Hi : option_ok ic) (Hd : option_ok dc)
    (Ht : Forall instr_ok trace) (Hl : Z.of_nat (List.length trace) <= 56000000) :
  exists s s' : O3, build c ic dc pred = Ok s /\ run s trace = Ok s' /\
    let n := Z.of_nat (List.length trace) in
    instrCount s' = n /\ analyzedWindows s' = (n + c_window c - 1) / c_window c /\
    forall k, 0 <= lane (length_at (base s') k) <= 2 ^ 32 * (38 * n) /\
      total (cycles_at (base s') k) = lane (length_at (base s') k).
Proof.
  destruct (build_ok c ic dc pred Hc Hi Hd) as (s & E & Hw & _ & Hs & Ha & Hn).
  destruct (run_loop_ok (c_sizes c) (c_window c) (co_window c Hc) trace 0 s) as (s' & R & [F1 F2 F3]);
    rewrite ?Hn in *; [split; exists (base s), []; auto|by left|exact Ht| |].
  { unfold within, load_of, INT64_MAX. lia. }
  exists s, s'. split; [exact E|]. split; [exact R|]. cbn zeta. split; [exact F1|]. split; [exact F2|].
  intros k. destruct (sound_lane _ _ _ k F3) as (x & Hx & Hr). rewrite Hx. split; [exact Hr|].
  rewrite (bal_total _ _ (so_balanced _ _ _ F3)), Hx. reflexivity.
Qed.

(** C13: the graph of a window leads forward.  While the first window is read,
    however far, the graph is the list of the edges added, in order; each leads
    from an earlier instruction or an earlier stage to a later one within what
    was read, with a weight below 2^32, so the graph has no cycle; there are at
    most seventeen per instruction. *)
Theorem model_graph_forward c (ic : option CI) (dc : option CD) (pred : option BP) trace
    (Hc : configuration_ok c) (Hi : option_ok ic) (Hd : option_ok dc)
    (Ht : Forall instr_ok trace) (Hl : Z.of_nat (List.length trace) <= c_window c) :
  exists (s s' : O3) es, build c ic dc pred = Ok s /\ model_all s trace = Ok s' /\
    (forall k, edge_at (graph s') k = out_edges (base s') es k) /\
    Forall (fun pe => 0 <= instrNum pe.1 /\ before pe.1 (child pe.2) /\
      instrNum (child pe.2) < Z.of_nat (List.length trace) /\
      exists w, weight pe.2 = [w] /\ 0 <= w < 2 ^ 32) es /\
    (List.length es <= 17 * List.length trace)%nat.
Proof.
  destruct (build_ok c ic dc pred Hc Hi Hd) as (s & E & Hw & _ & _ & _ & Hn).
  destruct (model_all_ok (c_sizes c) (c_window c) 0 (base s) [] s trace Hw) as (es & s' & R & Hw' & Hn');
    [lia|exact Ht|].
  exists s, s', es. split; [exact E|]. split; [exact R|]. rewrite Hn in Hn'.
  split; [apply Hw'|]. split.
  - eapply Forall_impl; [apply Hw'|]. intros pe [F1 F2 F3 (w & F4 & F5 & _)].
    split_and!; [exact F1|exact F2|lia|exists w; split; assumption].
  - pose proof (wi_len _ _ _ _ _ _ Hw'). cbn [app] in *. lia.
Qed.

(** C5: the first pass computes longest paths.  After the first window has been
    read, the pass completes; the length it leaves at every vertex is the greatest
    total weight of a path of the graph that ends there; and the schedule holds
    every instruction once, ordered by the length of the longest path to its
    execution, then by program order. *)
Theorem first_pass_longest c (ic : option CI) (dc : option CD) (pred : option BP) trace
    (Hc : configuration_ok c) (Hi : option_ok ic) (Hd : option_ok dc)
    (Ht : Forall instr_ok trace) (Hl : Z.of_nat (List.length trace) <= c_window c)
    (Hb : Z.of_nat (List.length trace) <= 56000000) :
  exists (s s1 s2 : O3) es, build c ic dc pred = Ok s /\ model_all s trace = Ok s1 /\
    calculateCriticalPathForScheduling s1 = Ok s2 /\
    (forall k, edge_at (graph s1) k = out_edges (base s1) es k) /\
    (forall k,
      (exists p, path_to (link_of (base s1) <$> es) k p /\ cost p = lane (length_at (base s2) k)) /\
      (forall p, path_to (link_of (base s1) <$> es) k p -> cost p <= lane (length_at (base s2) k))) /\
    (scheduleOrder s2).*1 ≡ₚ seqZ 0 (Z.of_nat (List.length trace)) /\
    StronglySorted sched_lt (scheduleOrder s2) /\
    Forall (fun x => x.2 = lane (length_at (base s2) (exec_key (base s2) x.1))) (scheduleOrder s2).
Proof.
  destruct (build_ok c ic dc pred Hc Hi Hd) as (s & E & Hw & Hf & Hs & Ha & Hn).
  destruct (model_all_ok (c_sizes c) (c_window c) 0 (base s) [] s trace Hw) as (es & s1 & R & Hw1 & Hn1);
    [lia|exact Ht|]. cbn [app] in Hw1. rewrite Hn, Z.add_0_l in Hn1.
  destruct (window_base _ _ _ _ _ _ Hw1) as (HS & HF & HA).
  pose proof (wi_len _ _ _ _ _ _ Hw1) as HL. rewrite Hn1, Z.sub_0_r in HL.
  pose proof (forward_cost (base s1) _ _ _ (wi_edges _ _ _ _ _ _ Hw1)) as HC.
  destruct (first_pass_ok _ _ _ _ _ _ Hw1 0 0 (HS _ _ Hs)) as (s2 & E2 & _ & _ & [S1 S2 S3] & Lo);
    [congruence|unfold INT64_MAX; lia|unfold INT64_MAX, Edge in *; lia|].
  rewrite Hn1, Z.sub_0_r in S1.
  exists s, s1, s2, es. split; [exact E|]. split; [exact R|]. split; [exact E2|].
  split; [apply Hw1|]. split; [|split_and!; assumption].
  intros k. apply (Lo (HF Hf) k).
Qed.

(** C11: the resource edges are those of the specification.  In the first window
    the edges added for the issue width, the instruction queue, the execution units
    and the load and store queues are, in order, those that the scoreboard's
    specification gives for the requests of the instructions in schedule order;
    they join executions of the window with weights below 2^32, at most four per
    instruction. *)
Theorem resource_edges_refine c (ic : option CI) (dc : option CD) (pred : option BP) trace
    (Hc : configuration_ok c) (Hi : option_ok ic) (Hd : option_ok dc)
    (Ht : Forall instr_ok trace) (Hl : Z.of_nat (List.length trace) <= c_window c)
    (Hb : Z.of_nat (List.length trace) <= 56000000) :
  exists s s1 s2 s3 : O3, build c ic dc pred = Ok s /\ model_all s trace = Ok s1 /\
    calculateCriticalPathForScheduling s1 = Ok s2 /\ modelResourceDependencies s2 = Ok s3 /\
    let rs := resource_edges s1 (scheduleOrder s2) in
    (forall k, edge_at (graph s3) k = edge_at (graph s2) k ++ out_edges (base s2) rs k) /\
    Forall (resource_edge_ok 0 (Z.of_nat (List.length trace))) rs /\
    (List.length rs <= 4 * List.length trace)%nat.
Proof.
  destruct (build_ok c ic dc pred Hc Hi Hd) as (s & E & Hw & Hf & Hs & Ha & Hn).
  destruct (model_all_ok (c_sizes c) (c_window c) 0 (base s) [] s trace Hw) as (es & s1 & R & Hw1 & Hn1);
    [lia|exact Ht|]. cbn [app] in Hw1. rewrite Hn, Z.add_0_l in Hn1.
  destruct (window_base _ _ _ _ _ _ Hw1) as (HS & HF & HA).
  pose proof (wi_len _ _ _ _ _ _ Hw1) as HL. rewrite Hn1, Z.sub_0_r in HL.
  pose proof (forward_cost (base s1) _ _ _ (wi_edges _ _ _ _ _ _ Hw1)) as HC.
  destruct (first_pass_ok _ _ _ _ _ _ Hw1 0 0 (HS _ _ Hs)) as (s2 & E2 & P2 & _ & Sc & _);
    [congruence|unfold INT64_MAX; lia|unfold INT64_MAX, Edge in *; lia|].
  destruct (scheduled_inside _ _ _ _ _ _ Hw1 _ _ Sc) as [Hin Hlen].
  destruct (resource_pass_ok _ _ _ _ _ _ Hw1 s2 P2 Hin) as (s3 & E3 & G3 & _).
  destruct (resource_edges_ok _ _ _ _ _ _ Hw1 _ Hin) as [RE RL]. rewrite Hn1 in RE.
  exists s, s1, s2, s3. split; [exact E|]. split; [exact R|]. split; [exact E2|]. split; [exact E3|].
  split; [exact G3|]. split; [exact RE|]. lia.
Qed.

(** C29: the lengths reported for the first window, that is for a trace no longer than
    the window.  After it has been analysed, the length of the critical path to every
    vertex is the total weight of an actual path through the program's edges and the
    resource edges, and it is no shorter than any path through the program's edges
    alone.  Later windows start from the lengths earlier ones have left behind, and
    this is not true of them ([stale_lengths]). *)
Theorem analysed_lengths c (ic : option CI) (dc : option CD) (pred : option BP) trace
    (Hc : configuration_ok c) (Hi : option_ok ic) (Hd : option_ok dc)
    (Ht : Forall instr_ok trace) (Hl : Z.of_nat (List.length trace) <= c_window c)
    (Hb : Z.of_nat (List.length trace) <= 56000000) :
  exists (s s1 s2 : O3) es l, build c ic dc pred = Ok s /\ model_all s trace = Ok s1 /\
    anaylzeWindow s1 = Ok s2 /\
    (forall k, edge_at (graph s1) k = out_edges (base s1) es k) /\
    l.*1 ≡ₚ seqZ 0 (Z.of_nat (List.length trace)) /\
    let rs := resource_edges s1 l in
    forall k,
      (exists p, path_to (link_of (base s1) <$> es ++ rs) k p /\
                 cost p = lane (length_at (base s2) k)) /\
      (forall p, path_to (link_of (base s1) <$> es) k p -> cost p <= lane (length_at (base s2) k)).
Proof.
  destruct (build_ok c ic dc pred Hc Hi Hd) as (s & E & Hw & Hf & Hs & Ha & Hn).
  destruct (model_all_ok (c_sizes c) (c_window c) 0 (base s) [] s trace Hw) as (es & s1 & R & Hw1 & Hn1);
    [lia|exact Ht|]. cbn [app] in Hw1. rewrite Hn, Z.add_0_l in Hn1.
  destruct (window_base _ _ _ _ _ _ Hw1) as (HS & HF & HA).
  destruct (analyse_ok _ _ _ _ _ _ Hw1 0 0 (HS _ _ Hs)) as (g1 & l & s2 & E2 & Sc & Lo & Mono & At & _);
    [congruence|rewrite Hn1; unfold INT64_MAX; lia|rewrite Hn1; unfold INT64_MAX; lia|].
  pose proof (sc_all _ _ _ _ Sc) as Hp. rewrite Hn1, Z.sub_0_r in Hp.
  exists s, s1, s2, es, l. split; [exact E|]. split; [exact R|]. split; [exact E2|].
  split; [apply Hw1|]. split; [exact Hp|]. cbn zeta. intros k. split; [apply (At (HF Hf))|].
  intros p Hpath. transitivity (lane (length_at g1 k)); [|apply Mono].
  by apply (Lo (HF Hf) k).
Qed.
End Core.

(** The core of the examples has no caches. *)
Notation no_cache := (@None unit).

Lemma run_correct_witness :
  exists s s', build (demo_core 2) no_cache no_cache no_cache = Ok s /\ run s core_trace = Ok s' /\
    instrCount s' = 3 /\ analyzedWindows s' = 2.
Proof.
  destruct (run_correct (demo_core 2) no_cache no_cache no_cache core_trace
    (demo_core_ok 2 ltac:(lia)) I I core_trace_ok ltac:(cbn; lia)) as (s & s' & E & R & N & A & _).
  exists s, s'. split; [exact E|]. split; [exact R|]. split; [exact N|exact A].
Defined.

Lemma model_graph_forward_witness :
  exists s s' es, build (demo_core 4) no_cache no_cache no_cache = Ok s /\
    model_all s core_trace = Ok s' /\ Forall (fun pe => before pe.1 (child pe.2)) es /\
    (forall k, edge_at (graph s') k = out_edges (base s') es k).
Proof.
  destruct (model_graph_forward (demo_core 4) no_cache no_cache no_cache core_trace
    (demo_core_ok 4 ltac:(lia)) I I core_trace_ok ltac:(cbn; lia)) as (s & s' & es & E & R & G & F & _).
  exists s, s', es. split; [exact E|]. split; [exact R|]. split; [|exact G].
  eapply Forall_impl; [exact F|]. intros pe (_ & H & _). exact H.
Defined.

Lemma first_pass_longest_witness :
  exists s s1 s2, build (demo_core 4) no_cache no_cache no_cache = Ok s /\
    model_all s core_trace = Ok s1 /\ calculateCriticalPathForScheduling s1 = Ok s2 /\
    (scheduleOrder s2).*1 ≡ₚ [0; 1; 2].
Proof.
  destruct (first_pass_longest (demo_core 4) no_cache no_cache no_cache core_trace
    (demo_core_ok 4 ltac:(lia)) I I core_trace_ok ltac:(cbn; lia) ltac:(cbn; lia))
    as (s & s1 & s2 & es & E & R & E2 & _ & _ & P & _).
  exists s, s1, s2. split; [exact E|]. split; [exact R|]. split; [exact E2|exact P].
Defined.

Lemma resource_edges_refine_witness :
  exists s s1 s2 s3, build (demo_core 4) no_cache no_cache no_cache = Ok s /\
    model_all s core_trace = Ok s1 /\ calculateCriticalPathForScheduling s1 = Ok s2 /\
    modelResourceDependencies s2 = Ok s3 /\
    forall k, edge_at (graph s3) k =
      edge_at (graph s2) k ++ out_edges (base s2) (resource_edges s1 (scheduleOrder s2)) k.
Proof.
  destruct (resource_edges_refine (demo_core 4) no_cache no_cache no_cache core_trace
    (demo_core_ok 4 ltac:(lia)) I I core_trace_ok ltac:(cbn; lia) ltac:(cbn; lia))
    as (s & s1 & s2 & s3 & E & R & E2 & E3 & G & _).
  exists s, s1, s2, s3. split; [exact E|]. split; [exact R|]. split; [exact E2|]. split; [exact E3|exact G].
Defined.

Lemma analysed_lengths_witness :
  exists s s1 s2, build (demo_core 4) no_cache no_cache no_cache = Ok s /\
    model_all s core_trace = Ok s1 /\ anaylzeWindow s1 = Ok s2 /\
    exists p, cost p = lane (length_at (base s2) (VertexKey (base s2) (mkVertex InstrCommit 2))).
Proof.
  destruct (analysed_lengths (demo_core 4) no_cache no_cache no_cache core_trace
    (demo_core_ok 4 ltac:(lia)) I I core_trace_ok ltac:(cbn; lia) ltac:(cbn; lia))
    as (s & s1 & s2 & es & l & E & R & E2 & _ & _ & H).
  exists s, s1, s2. split; [exact E|]. split; [exact R|]. split; [exact E2|].
  destruct (H (VertexKey (base s2) (mkVertex InstrCommit 2))) as [(p & _ & Hp) _].
  exists p. exact Hp.
Defined.

(** ** Where the analysis falls short *)

(** An access that encloses an earlier one is not seen to overlap it.  The
    test of memory order asks whether one end of the access falls into the earlier
    one; when the access starts before the earlier one and ends after it, neither
    does, although they share every byte of the earlier one. *)
Theorem enclosing_access_missed base length prev_base prev_length
    (H0 : 0 <= base) (H1 : base < prev_base) (H2 : prev_base + prev_length < base + length)
    (H3 : base + length < 2 ^ 64) (H4 : 0 < prev_length) :
  common base length prev_base prev_length = false.
Proof.
  unfold common. rewrite !u64_small by (unfold u64_size; lia).
  destruct (Z.leb_spec prev_base base); [lia|].
  destruct (Z.leb_spec (base + length) (prev_base + prev_length)); [lia|]. cbn.
  by rewrite andb_false_r.
Qed.

Lemma enclosing_access_missed_witness : common 96 8 98 4 = false.
Proof. apply (enclosing_access_missed 96 8 98 4); lia. Defined.

(** The length the analysis reports for the last window of a trace. *)
Definition reported (w : Z) (trace : list Instruction) : res Z :=
  s ← build (demo_core w) no_cache no_cache no_cache;
  s ← run s trace;
  Vector_get (length_at (base s) (VertexKey (base s) (mkVertex InstrCommit (instrCount s - 1)))) 0.

(** Lengths of an earlier window survive into the next: the same one-instruction
    window is reported as 4 cycles long on its own and as 23 cycles long after a
    window with a division. *)
Theorem stale_lengths :
  reported 1 [plain IntBase [] []] = Ok 4 /\
  reported 1 [plain IntDiv [] []; plain IntBase [] []] = Ok 23.
Proof. split; vm_compute; reflexivity. Qed.
