(* ===== verification/CalipersInorderTheorems.v ===== *)
(** * Properties of Calipers' in-order core

    The simple scoreboard refines its specification; the critical paths of an
    instruction satisfy the longest-path recurrence; a whole trace is analysed to
    the end exactly when no access waits for one more than a window back. *)

From S2P Require Import Prelude Machine CalipersCycles CalipersPaths CalipersScoreboard.
From S2P Require Import CalipersScoreFacts CalipersO3 CalipersO3Facts CalipersO3Window.
From S2P Require Import CalipersInorder CalipersInorderBoard CalipersInorderEdges.
From S2P Require Import CalipersInorderPhases CalipersInorderRun.

#[local] Open Scope list_scope.
#[local] Open Scope Z_scope.

Import CalG CalS CalO CalI.

(** ** The longest-path recurrence *)

Definition len (g : Graph) (v : Vertex) : Z := lane (length_at g (VertexKey g v)).
Definition single (g : Graph) : Prop := forall k, exists x, length_at g k = [x].

(** A relaxation, read backwards. *)
Lemma update_step g parent e w g' :
  updateCriticalPathCycles g parent e = Ok g' -> single g -> weight e = [w] -> w <> INT64_MAX ->
  single g' /\ AnalysisWindow g' = AnalysisWindow g /\
  len g' (child e) = Z.max (len g (child e)) (len g parent + w) /\
  (forall v, VertexKey g v <> VertexKey g (child e) -> len g' v = len g v).
Proof.
  intros H Hs Hw Hne. pose proof H as H'. unfold updateCriticalPathCycles in H.
  apply res_bind_inv in H as ([l mask] & Hu & H). inv_res.
  apply count_instruction_length in H0 as [L1 A1]. apply charge_cycles_length in H as [L2 A2].
  assert (HA : AnalysisWindow g' = AnalysisWindow g) by (rewrite A2, A1; done).
  assert (HK : forall v, VertexKey g' v = VertexKey g v) by (intros v; unfold VertexKey; by rewrite HA).
  destruct (Hs (VertexKey g (child e))) as [x Hx], (Hs (VertexKey g parent)) as [y Hy].
  rewrite Hx, Hy, Hw in Hu. unfold update_masked, update_lane in Hu. cbn in Hu.
  destruct (Z.eqb_spec w INT64_MAX); [done|]. unfold i64 in Hu.
  destruct (_ && _); [|done]. cbn in Hu.
  assert (Hl : l = [Z.max x (y + w)]).
  { destruct (Z.leb_spec x (y + w)); cbn in Hu; injection Hu as <- _; f_equal; lia. }
  assert (Hat : forall k, length_at g' k = if decide (k = VertexKey g (child e)) then l else length_at g k).
  { intros k. unfold length_at. rewrite L2, L1. cbn [length inherit set_cycles set_instructions set_length].
    destruct (decide (k = VertexKey g (child e))) as [->|Hk]; [by rewrite lookup_insert_eq|].
    by rewrite lookup_insert_ne. }
  split; [|split; [done|split]].
  - intros k. rewrite Hat. case_decide; [subst; eauto|apply Hs].
  - unfold len. rewrite HK, Hat, decide_True, Hx, Hy, Hl by done. done.
  - intros v Hv. unfold len. rewrite HK, Hat, decide_False by done. done.
Qed.

(** Relaxing the edges into one vertex. *)
Lemma relax_into g v es g' :
  relax_all g es = Ok g' -> single g ->
  Forall (fun pe => child pe.2 = v /\ VertexKey g pe.1 <> VertexKey g v /\
                    exists w, weight pe.2 = [w] /\ w <> INT64_MAX) es ->
  single g' /\ AnalysisWindow g' = AnalysisWindow g /\
  len g' v = foldl Z.max (len g v) ((fun pe => len g pe.1 + lane (weight pe.2)) <$> es) /\
  (forall u, VertexKey g u <> VertexKey g v -> len g' u = len g u).
Proof.
  revert g. induction es as [|[p e] es IH]; intros g H Hs Hf; [by injection H as <-|].
  apply Forall_cons in Hf as [(Hc & Hk & w & Hw & Hne) Hf]. cbn in Hc, Hk, Hw.
  cbn in H. apply res_bind_inv in H as (g1 & H1 & H).
  destruct (update_step _ _ _ _ _ H1 Hs Hw Hne) as (S1 & A1 & L1 & O1). rewrite Hc in L1, O1.
  assert (HK : forall v, VertexKey g1 v = VertexKey g v) by (intros u; unfold VertexKey; by rewrite A1).
  destruct (IH g1 H S1) as (S2 & A2 & L2 & O2).
  { eapply Forall_impl; [exact Hf|]. intros pe (? & ? & ?). by rewrite !HK. }
  split; [done|]. split; [congruence|]. split.
  - rewrite L2, L1. cbn [fmap list_fmap foldl fst snd]. rewrite Hw. cbn [lane hd]. f_equal.
    apply list_fmap_ext. intros i pe Hpe. rewrite O1; [done|].
    by destruct (proj1 (Forall_lookup _ _) Hf i pe Hpe) as (_ & ? & _).
  - intros u Hu. rewrite O2, O1; try done. by rewrite !HK.
Qed.

(** The pending edges of each kind of vertex, in the order of the kinds. *)
Definition edges_into (s : InorderCoreGraph) (t : VertexType) : list Edge :=
  (fun pw => (pw.1, mkEdge (mkVertex t (i_instrCount s)) pw.2)) <$> miniGraph s t.
Definition vertex (s : InorderCoreGraph) (t : VertexType) : Vertex := mkVertex t (i_instrCount s).

(** An edge of the current instruction from less than a window back. *)
Definition strictly_near (n : Z) (pe : Edge) : Prop :=
  near_edge n pe /\ n - instrNum pe.1 < INO_WINDOW.

Lemma near_key g n u v :
  AnalysisWindow g = INO_WINDOW -> instrNum v = n -> 0 <= instrNum u <= n ->
  n - instrNum u < INO_WINDOW -> VertexKey g u = VertexKey g v -> u = v.
Proof.
  intros Hw Hv Hu Hd. unfold VertexKey. rewrite Hw. intros [= Ht Hm]. apply vt_num_inj in Ht.
  destruct u as [tu iu], v as [tv iv]. cbn in *. subst. f_equal.
  unfold INO_WINDOW in *. pose proof (Z.div_mod iu 400). pose proof (Z.div_mod n 400). nia.
Qed.

Lemma relax_kinds s g ts g' :
  relax_all g (pending s ts) = Ok g' -> single g -> AnalysisWindow g = INO_WINDOW ->
  StronglySorted (fun a b => vt_num a < vt_num b) ts ->
  (forall t, t ∈ ts -> Forall (strictly_near (i_instrCount s)) (edges_into s t)) ->
  single g' /\ AnalysisWindow g' = INO_WINDOW /\
  (forall t, t ∈ ts -> len g' (vertex s t) =
     foldl Z.max (len g (vertex s t)) ((fun pe => len g' pe.1 + lane (weight pe.2)) <$> edges_into s t)) /\
  (forall u, (forall t, t ∈ ts -> VertexKey g u <> VertexKey g (vertex s t)) -> len g' u = len g u).
Proof.
  revert g. induction ts as [|t ts IH]; intros g H Hs Hw Hso Hn.
  - injection H as <-. split; [done|]. split; [done|]. split; [|done].
    intros t Ht. by apply not_elem_of_nil in Ht.
  - apply StronglySorted_inv in Hso as [Hso Hlt]. rewrite Forall_forall in Hlt.
    unfold pending in H. rewrite fmap_cons, join_cons, relax_all_app in H. fold (edges_into s t) in H.
    fold (pending s ts) in H. apply res_bind_inv in H as (g1 & H1 & H).
    pose proof (Hn t ltac:(left)) as Hnt.
    assert (Hne : forall t', t' ∈ t :: ts -> forall pe, pe ∈ edges_into s t ->
      VertexKey g pe.1 <> VertexKey g (vertex s t')).
    { intros t' Ht' pe Hpe E. rewrite Forall_forall in Hnt. destruct (Hnt pe Hpe) as [[N1 N2 N3 _] N4].
      apply (near_key g (i_instrCount s)) in E; try done; [|lia].
      apply list_elem_of_fmap in Hpe as (pw & -> & _). cbn in N3, E. rewrite E in N3. cbn in N3.
      apply elem_of_cons in Ht' as [->|Ht']; [|specialize (Hlt t' Ht')]; lia. }
    destruct (relax_into g (vertex s t) (edges_into s t) g1 H1 Hs) as (S1 & A1 & L1 & O1).
    { apply Forall_forall. intros pe Hpe. split; [|split; [by apply Hne; [left|]|]].
      - by apply list_elem_of_fmap in Hpe as (pw & -> & _).
      - rewrite Forall_forall in Hnt. destruct (Hnt pe Hpe) as [[_ _ _ (w & ? & ? & _)] _].
        exists w. split; [done|]. unfold INT64_MAX. lia. }
    assert (HK : forall u, VertexKey g1 u = VertexKey g u) by (intros u; unfold VertexKey; by rewrite A1).
    destruct (IH g1 H S1) as (S2 & A2 & L2 & O2); [congruence|done| |].
    { intros t' Ht'. apply Hn. by right. }
    assert (Hdiff : forall t', t' ∈ ts -> VertexKey g (vertex s t) <> VertexKey g (vertex s t')).
    { intros t' Ht' [= E]. specialize (Hlt t' Ht'). lia. }
    split; [done|]. split; [done|]. split.
    + intros t' Ht'. apply elem_of_cons in Ht' as [->|Ht'].
      * rewrite O2 by (intros t' Ht'; rewrite !HK; by apply Hdiff). rewrite L1. f_equal.
        apply list_fmap_ext. intros i pe Hpe%list_elem_of_lookup_2. f_equal. symmetry.
        rewrite O2, O1; [done|by apply Hne; [left|]|].
        intros t' Ht'. rewrite !HK. apply Hne; [by right|done].
      * rewrite L2 by done. rewrite O1; [done|]. intros E. by apply (Hdiff t' Ht').
    + intros u Hu. rewrite O2, O1; [done|by apply Hu; left|].
      intros t' Ht'. rewrite !HK. apply Hu. by right.
Qed.

(** ** The scoreboard *)

Definition unit_types : list Z := [RscIntAlu; RscIntMul; RscIntDiv; RscFpu; RscLsu].

(** C17: Whatever is requested of the scoreboard the in-order core sets up, it
    answers as the specification does: the units of a kind take turns, a request
    waits for the user as many requests back as there are units, and the head of
    its unit's pipeline is the user [count * totalCycles] requests back. *)
Theorem simple_scoreboard_refines int_alu int_mul int_div fpu lsu rs :
  units_ok int_alu int_mul int_div fpu lsu ->
  Forall (fun r => r.1 ∈ unit_types) rs ->
  exists b b', init_simple int_alu int_mul int_div fpu lsu = Ok b /\
    simple_run (initRecords b) rs = Ok ((simple_spec_run b (fun _ => []) rs).1, b').
Proof.
  intros Hu Hrs. destruct (init_simple_ok _ _ _ _ _ Hu) as (b & E & Hs & Hr).
  destruct (simple_run_ok (initRecords b) (fun _ => []) rs) as (b' & Er & _).
  - by apply initRecords_refines.
  - eapply Forall_impl; [exact Hrs|]. intros [t i]. cbn. rewrite Hr. unfold unit_types.
    rewrite !elem_of_cons, elem_of_nil.
    intros [->|[->|[->|[->|[->|[]]]]]]; eexists; reflexivity.
  - exists b, b'. split; [done|]. rewrite Er. do 3 f_equal.
    clear. generalize (fun _ : Z => @nil Z). induction rs as [|[t i] rs IH]; intros h; [done|].
    cbn. rewrite IH. done.
Qed.

Lemma simple_scoreboard_refines_witness :
  exists b b', init_simple 2 1 1 1 1 = Ok b /\
    simple_run (initRecords b) ((fun i => (RscIntAlu, i)) <$> seqZ 0 8) =
    Ok ((simple_spec_run b (fun _ => []) ((fun i => (RscIntAlu, i)) <$> seqZ 0 8)).1, b').
Proof.
  apply (simple_scoreboard_refines 2 1 1 1 1).
  - repeat (apply Forall_cons; split; [lia|]). apply Forall_nil. exact I.
  - apply Forall_fmap, Forall_forall. intros i _. left.
Defined.

(** ** Critical paths *)

(** C28: The critical paths of an instruction whose parents all lie strictly less than
    a window of 400 instructions back, with at most ten edges for each of its vertices
    and lengths that cannot overflow, are those of the longest-path recurrence: the
    length of each of its vertices is the largest of what the slot held before and of
    the lengths of its parents plus the weights of the edges, all lengths being those
    after the call; no other length changes, and no edge is left pending.  A parent
    exactly a window back, which the code accepts, is not covered: it has the slot of
    the child, and [window_edge_aliases] shows what the code does with it. *)
Theorem instruction_paths_exact s m B :
  base_ok s -> intAluTotalCycles (i_base s) = 3 -> sound m B (i_base s) ->
  m + 50 <= INT64_MAX -> B + 2 ^ 32 * 50 <= INT64_MAX ->
  (forall t, Forall (strictly_near (i_instrCount s)) (edges_into s t)) ->
  (forall t, (List.length (miniGraph s t) <= 10)%nat) ->
  exists s', calculateInstructionCriticalPath s = Ok s' /\
    (forall t, miniGraph s' t = []) /\
    (forall t, len (i_base s') (vertex s t) =
       foldl Z.max (len (i_base s) (vertex s t))
         ((fun pe => len (i_base s') pe.1 + lane (weight pe.2)) <$> edges_into s t)) /\
    (forall v, instrNum v mod INO_WINDOW <> i_instrCount s mod INO_WINDOW ->
       len (i_base s') v = len (i_base s) v).
Proof.
  intros [Hw Hc] Ha Hs Hm HB Hn Hl. unfold calculateInstructionCriticalPath.
  rewrite relax_types_eq by apply all_types_NoDup.
  assert (Hnear : Forall (near_edge (i_instrCount s)) (pending s all_types)).
  { apply Forall_join, Forall_fmap, Forall_forall. intros t _. cbn.
    eapply Forall_impl; [apply Hn|]. by intros pe []. }
  assert (Hlen : (List.length (pending s all_types) <= 50)%nat).
  { unfold pending, all_types. cbn [fmap list_fmap mjoin list_join].
    rewrite !length_app, !length_fmap. pose proof (Hl InstrFetch). pose proof (Hl InstrDispatch).
    pose proof (Hl InstrExecute). pose proof (Hl MemExecute). pose proof (Hl InstrCommit).
    cbn [List.length]. lia. }
  destruct (near_ok (i_base s) _ _ Ha Hnear) as [Hok Hcost].
  destruct (relax_sound _ _ m B Hs Hok) as (g & E & _); [lia..|].
  rewrite E. cbn [mbind res_bind]. eexists. split; [done|].
  destruct (relax_kinds s (i_base s) all_types g E) as (_ & _ & L & O); try done.
  { intros k. destruct (bal_length _ _ (so_balanced _ _ _ Hs) k) as (x & ? & _). eauto. }
  { repeat constructor. }
  split; [intros t; cbn [miniGraph set_mini]; apply emptied, all_types_all|].
  split; [intros t; apply L, all_types_all|].
  intros v Hv. apply O. intros t _. unfold VertexKey. rewrite Hw. by intros [= _ ?].
Qed.

(** A small core: one access at a time is waited for. *)
Definition small_core : InorderParams := mkInorder 2 2 2 2 1 1 1 1 4 1 1 1 true false.
Definition int_op (r w : list Z) : Instruction :=
  mkInstruction 4096 4 1 0 false IntBase r w 0 0 0 0 0 0.
Definition load_op (a : Z) : Instruction :=
  mkInstruction 4096 4 1 3 false Load [] [5] 1 a 8 0 0 0.

Lemma small_core_ok : ino_params_ok small_core.
Proof.
  unfold ino_params_ok, INO_WINDOW; split_and!; cbn; try lia;
    repeat (apply Forall_cons; split; [cbn; lia|]); apply Forall_nil; exact I.
Qed.
Lemma small_ops_ok i : i = int_op [] [1] \/ i = load_op 64 -> ino_instr_ok small_core i.
Proof. intros [-> | ->]; split; cbn; unfold INO_WINDOW; lia. Qed.
Lemma small_units : units_ok 1 1 1 1 1.
Proof. repeat (apply Forall_cons; split; [lia|]). apply Forall_nil. exact I. Qed.

Definition fetch_only : MiniGraph :=
  fun t => if decide (t = InstrDispatch) then [(mkVertex InstrFetch 0, [7])] else [].

Lemma instruction_paths_exact_witness :
  exists s s', InorderCoreGraph_new false 0 [] small_core 1 1 1 1 1 = Ok s /\
    calculateInstructionCriticalPath (set_mini s fetch_only) = Ok s' /\
    len (i_base s') (vertex s InstrDispatch) =
      Z.max (len (i_base s) (vertex s InstrDispatch)) (len (i_base s') (vertex s InstrFetch) + 7).
Proof.
  destruct (inorder_new_ok false 0 [] small_core 1 1 1 1 1 small_core_ok small_units)
    as (s & E & [C1 _ _ _ C5 C6] & Hn & _). exists s.
  rewrite Hn in C6.
  destruct (instruction_paths_exact (set_mini s fetch_only) _ _ (co_base _ _ C1) C5 C6)
    as (s' & E' & _ & HL & _).
  - vm_compute. intros X. discriminate X.
  - vm_compute. intros X. discriminate X.
  - intros t. unfold edges_into, fetch_only. cbn [i_instrCount set_mini miniGraph]. rewrite Hn.
    destruct t; cbn; try apply Forall_nil; try exact I. apply Forall_singleton.
    split; [split; cbn; unfold INO_WINDOW; try lia|cbn; unfold INO_WINDOW; lia].
    exists 7. split; [reflexivity|]. split; [lia|]. intros _ X. discriminate X.
  - intros t. cbn. unfold fetch_only. destruct (decide _); cbn; lia.
  - exists s'. split; [exact E|]. split; [exact E'|].
    pose proof (HL InstrDispatch) as HD. unfold edges_into, fetch_only in HD.
    cbn [i_instrCount set_mini miniGraph] in HD. rewrite decide_True in HD by reflexivity.
    cbn in HD. unfold vertex in HD |- *. cbn in HD. rewrite Hn in HD |- *. exact HD.
Defined.

(** An edge from exactly one window back is accepted, but its parent shares its
    slot with the child: relaxing it adds the weight to the child's own length
    instead of the parent's. *)
Theorem window_edge_aliases s t w m B :
  base_ok s -> INO_WINDOW <= i_instrCount s -> 0 <= w < 2 ^ 32 ->
  (t = InstrExecute \/ t = MemExecute \/ t = InstrCommit) ->
  (List.length (miniGraph s t) < 10)%nat -> sound m B (i_base s) -> m < INT64_MAX ->
  B + 2 ^ 32 <= INT64_MAX ->
  let parent := mkVertex t (i_instrCount s - INO_WINDOW) in
  let pe := edge t (i_instrCount s - INO_WINDOW) t (i_instrCount s) w in
  exists s' g, mini_addEdge s pe = Ok s' /\
    updateCriticalPathCycles (i_base s) parent pe.2 = Ok g /\
    len g (vertex s t) = len (i_base s) (vertex s t) + w.
Proof.
  intros [Hw Hn] Hi Hr Ht Hl Hs Hm HB parent pe.
  assert (HK : VertexKey (i_base s) parent = VertexKey (i_base s) (child pe.2)).
  { unfold VertexKey, pe, parent. cbn. rewrite Hw. f_equal. unfold INO_WINDOW.
    replace (i_instrCount s - 400) with (i_instrCount s + (-1) * 400) by lia. by rewrite Z.mod_add. }
  unfold mini_addEdge. rewrite Hw. cbn [fst snd pe edge child instrNum type].
  rewrite u64_id by (unfold INO_WINDOW; lia).
  destruct (Z.ltb_spec INO_WINDOW (i_instrCount s - (i_instrCount s - INO_WINDOW))); [lia|].
  destruct (Z.eqb_spec (Z.of_nat (List.length (miniGraph s t))) MAX_PARENTS) as [E|_];
    [unfold MAX_PARENTS in E; lia|].
  destruct (sound_lane _ _ _ (VertexKey (i_base s) (child pe.2)) Hs) as (x & Hx & Hx0).
  destruct (relax_edge (i_base s) parent pe.2 w m) as (g & Eg & C & _ & L).
  - apply Hs.
  - apply Hs.
  - split; [done|]. split; [unfold INT64_MAX; lia|]. intros H1 H2. cbn in H1, H2. congruence.
  - done.
  - intros _. rewrite HK, Hx. cbn. lia.
  - rewrite Hx. cbn. lia.
  - eexists _, g. split; [done|]. split; [exact Eg|]. unfold len.
    change (vertex s t) with (child pe.2). rewrite (same_config_key _ _ _ C), L, decide_True by done.
    rewrite HK, Hx. cbn. unfold relaxed.
    destruct (Z.eqb_spec w INT64_MAX); [unfold INT64_MAX in *; lia|lia].
Qed.

Lemma window_edge_aliases_witness :
  exists s s' g, i_instrCount s = 400 /\
    mini_addEdge s (edge MemExecute 0 MemExecute 400 3) = Ok s' /\
    updateCriticalPathCycles (i_base s) (mkVertex MemExecute 0)
      (mkEdge (mkVertex MemExecute 400) [3]) = Ok g /\
    len g (vertex s MemExecute) = len (i_base s) (vertex s MemExecute) + 3.
Proof.
  destruct (inorder_new_ok false 0 [] small_core 1 1 1 1 1 small_core_ok small_units)
    as (s & E & [[[C1 _] _ _ _] _ C3 _ C5 C6] & Hn & _). rewrite Hn in C6.
  exists (i_set_count s 400).
  destruct (window_edge_aliases (i_set_count s 400) MemExecute 3 (ino_load 0) (2 ^ 32 * ino_load 0))
    as (s' & g & H1 & H2 & H3).
  - split; [exact C1|cbn; lia].
  - cbn. unfold INO_WINDOW. lia.
  - lia.
  - right. left. reflexivity.
  - cbn. rewrite C3. cbn. lia.
  - exact C6.
  - vm_compute. reflexivity.
  - vm_compute. intros X. discriminate X.
  - exists s', g. split; [reflexivity|]. split; [exact H1|]. split; [exact H2|exact H3].
Defined.

(** ** A whole trace *)

(** C10: The in-order core built from sound parameters analyses a trace of
    instructions that are shorter than the window to the end, with a complete
    breakdown of the length of every critical path and no overflow, if no load waits
    for an access more than a window back and no store for one; otherwise the
    program ends with an error.  The order of the hash map does not matter. *)
Theorem inorder_run_correct `{HashOrder} mem_branch mem_pc mem_mix p
    int_alu int_mul int_div fpu lsu trace :
  ino_params_ok p -> units_ok int_alu int_mul int_div fpu lsu ->
  Forall (ino_instr_ok p) trace ->
  2 ^ 32 * (50 * Z.of_nat (List.length trace)) <= INT64_MAX ->
  exists s0, InorderCoreGraph_new mem_branch mem_pc mem_mix p int_alu int_mul int_div fpu lsu = Ok s0 /\
  if dense p 0 [] trace then
    exists s, i_run s0 trace = Ok s /\ i_instrCount s = Z.of_nat (List.length trace) /\
      (forall t, miniGraph s t = []) /\
      forall k, 0 <= lane (length_at (i_base s) k) <= 2 ^ 32 * (50 * Z.of_nat (List.length trace)) /\
        total (cycles_at (i_base s) k) = lane (length_at (i_base s) k)
  else i_run s0 trace = Stop ErrorExit.
Proof.
  intros Hp Hu Ht Hb.
  destruct (inorder_new_ok mem_branch mem_pc mem_mix p _ _ _ _ _ Hp Hu) as (s0 & E & Hs & Hn & Hpar).
  exists s0. split; [exact E|]. pose proof (i_run_ok [] s0 trace Hs) as HR. cbn zeta in HR.
  rewrite Hn, Hpar, Z.add_0_l in HR. specialize (HR Ht Hb). cbn [fmap list_fmap] in HR.
  unfold outcome in HR. destruct (dense p 0 [] trace); [|exact HR].
  destruct HR as (s & Er & Hc & acc & [_ _ B3 _ _ B6]). exists s. split; [exact Er|].
  split; [exact Hc|]. split; [exact B3|]. rewrite Hc in B6. intros k.
  split; [|exact (bal_total _ _ (so_balanced _ _ _ B6) k)].
  destruct (sound_lane _ _ _ k B6) as (x & -> & Hx). exact Hx.
Qed.

(** A load right after another, and one 402 instructions later. *)
Lemma inorder_run_correct_witness :
  (exists s0 s, InorderCoreGraph_new false 0 [] small_core 1 1 1 1 1 = Ok s0 /\
     i_run s0 [load_op 64; load_op 64] = Ok s /\ i_instrCount s = 2) /\
  (exists s0, InorderCoreGraph_new false 0 [] small_core 1 1 1 1 1 = Ok s0 /\
     i_run s0 ([load_op 64] ++ replicate 401 (int_op [] [1]) ++ [load_op 64]) = Stop ErrorExit).
Proof.
  pose proof (small_ops_ok _ (or_introl eq_refl)) as Hi.
  pose proof (small_ops_ok _ (or_intror eq_refl)) as Hl. split.
  - destruct (inorder_run_correct false 0 [] small_core 1 1 1 1 1 [load_op 64; load_op 64]
      small_core_ok small_units) as (s0 & E & HR).
    + apply Forall_cons. split; [exact Hl|]. apply Forall_singleton. exact Hl.
    + vm_compute. intros X. discriminate X.
    + replace (dense small_core 0 [] [load_op 64; load_op 64]) with true in HR by (vm_compute; reflexivity).
      destruct HR as (s & Er & Hc & _). exists s0, s. split; [exact E|]. split; [exact Er|exact Hc].
  - destruct (inorder_run_correct false 0 [] small_core 1 1 1 1 1
      ([load_op 64] ++ replicate 401 (int_op [] [1]) ++ [load_op 64])
      small_core_ok small_units) as (s0 & E & HR).
    + apply Forall_app. split; [by apply Forall_singleton|]. apply Forall_app.
      split; [by apply Forall_replicate|by apply Forall_singleton].
    + vm_compute. intros X. discriminate X.
    + replace (dense small_core 0 [] _) with false in HR by (vm_compute; reflexivity).
      exists s0. split; [exact E|exact HR].
Defined.
