(* ===== verification/Floats.v ===== *)
(** * Binary floating-point numbers

    [float] with 24 significant bits and the [long double] of the x87 with 64, round
    to nearest, ties to even.  A value is the rational it denotes, in lowest terms;
    the range of the exponent only shows where a text is read.  [stof] and [stold]
    read decimal texts (hexadecimal ones, infinities and NaN count as no number);
    [show_prec] is the default format of [std::ostream] for a precision, [show_g] with
    the six significant digits of a new stream. *)

From Stdlib Require Import QArith Qreduction.
From stdpp Require Import strings pretty.
From S2P Require Import Prelude Machine External TraceParse ParseFacts.

#[local] Open Scope string_scope.
#[local] Open Scope list_scope.
#[local] Open Scope Z_scope.

(** ** Rounding *)

(** An integer to [p] significant bits. *)
Definition rne (p z : Z) : Z :=
  let a := Z.abs z in
  if a <? 2 ^ p then z
  else
    let e := Z.log2 a - (p - 1) in
    let q := a / 2 ^ e in
    let r := a mod 2 ^ e in
    let half := 2 ^ (e - 1) in
    let q' := if r <? half then q
              else if half <? r then q + 1
              else if Z.even q then q else q + 1 in
    Z.sgn z * (q' * 2 ^ e).

Definition make_q (n d : Z) : Q := Qred (Qmake n (Z.to_pos d)).

(** A rational to [p] significant bits: its quotient with at least two bits more,
    and a last bit that tells whether the quotient was exact, decide the rounding. *)
Definition round_bits (p : Z) (x : Q) : Q :=
  let x := Qred x in
  let n := Z.abs (Qnum x) in
  let d := Zpos (Qden x) in
  if n =? 0 then 0%Q
  else
    let e := Z.log2 n - Z.log2 d - (p + 2) in
    let a := if e <=? 0 then n * 2 ^ (- e) else n in
    let b := if e <=? 0 then d else d * 2 ^ e in
    let m := 2 * (a / b) + (if a mod b =? 0 then 0 else 1) in
    let m := Z.sgn (Qnum x) * rne p m in
    if e - 1 <=? 0 then make_q m (2 ^ (1 - e)) else make_q (m * 2 ^ (e - 1)) 1.

Definition round64 (x : Q) : Q := round_bits 64 x.
Definition round24 (x : Q) : Q := round_bits 24 x.

Definition ld_div (x : Q) (k : Z) : Q := round64 (x / inject_Z k).
Definition ld_sub (x y : Q) : Q := round64 (x - y).
Definition ld_lt (x y : Q) : bool := Qnum x * QDen y <? Qnum y * QDen x.
Definition ld_eq (x y : Q) : bool := Qnum x * QDen y =? Qnum y * QDen x.

(** ** Reading *)

(** The digits at the front: their number, what they add to [acc], and the rest. *)
Fixpoint take_digits (acc : Z) (n : Z) (s : string) : Z * Z * string :=
  match s with
  | "" => (acc, n, s)
  | String c s' =>
      match digit_val c with Some d => take_digits (acc * 10 + d) (n + 1) s' | None => (acc, n, s) end
  end.

(** An exponent, if digits follow the letter. *)
Definition exponent (s : string) : Z :=
  match s with
  | String c s' =>
      if Ascii.eqb c "e" || Ascii.eqb c "E" then
        let '(neg, s'') := sign s' in
        let '(v, k, _) := take_digits 0 0 s'' in
        if k =? 0 then 0 else if neg : bool then - v else v
      else 0
  | "" => 0
  end.

Definition decimal (s : string) : option Q :=
  let '(neg, s) := sign (lstrip s) in
  let '(v, k, s) := take_digits 0 0 s in
  let '(v, f, s) :=
    match s with
    | String "." s' => let '(v', k', r) := take_digits v 0 s' in (v', k', r)
    | _ => (v, 0, s)
    end in
  if k + f =? 0 then None
  else
    let e := exponent s - f in
    let v := if neg : bool then - v else v in
    Some (if 0 <=? e then make_q (v * 10 ^ e) 1 else make_q v (10 ^ (- e))).

(** The exponent's range: below [2 ^ hi], and not below [2 ^ - lo]. *)
Definition in_range (hi lo : Z) (x : Q) : bool :=
  (Qnum x =? 0) ||
  ((Z.abs (Qnum x) <? 2 ^ hi * QDen x) && (QDen x <=? Z.abs (Qnum x) * 2 ^ lo)).

Definition read_float (p hi lo : Z) (s : string) : res Q :=
  match decimal s with
  | None => Stop Uncaught
  | Some x => let x := round_bits p x in if in_range hi lo x then Ok x else Stop Uncaught
  end.
Definition stof (s : string) : res Q := read_float 24 128 126 s.
Definition stold (s : string) : res Q := read_float 64 16384 16382 s.

(** ** Printing *)

(** The decimal exponent of [a / d]. *)
Fixpoint exp10 (fuel : nat) (a d x : Z) : Z :=
  match fuel with
  | O => x
  | S fuel' =>
      if a <? d then exp10 fuel' (10 * a) d (x - 1)
      else if 10 * d <=? a then exp10 fuel' a (10 * d) (x + 1)
      else x
  end.

(** [n + 1] significant digits of [a / d], and the exponent. *)
Definition digits (n a d : Z) : Z * Z :=
  let x := exp10 (Z.to_nat (Z.log2 a + Z.log2 d + 2)) a d 0 in
  let a := if x <=? n then a * 10 ^ (n - x) else a in
  let d := if x <=? n then d else d * 10 ^ (x - n) in
  let q := a / d in
  let r := a mod d in
  let q := if 2 * r <? d then q else if d <? 2 * r then q + 1 else if Z.even q then q else q + 1 in
  if q =? 10 ^ (n + 1) then (10 ^ n, x + 1) else (q, x).

Definition show_nat (z : Z) : string := pretty (Z.to_N z).

(** [k] digits of a fraction, without the zeros at its end. *)
Fixpoint fraction (k : nat) (f : Z) : string :=
  match k with
  | O => ""
  | S k' =>
      if f =? 0 then ""
      else show_nat (f / 10 ^ Z.of_nat k') +:+ fraction k' (f mod 10 ^ Z.of_nat k')
  end.
Definition point (k : Z) (f : Z) : string :=
  if f =? 0 then "" else "." +:+ fraction (Z.to_nat k) f.

(** The text with [n + 1] significant digits. *)
Definition show_prec (n : Z) (x : Q) : string :=
  if Qnum x =? 0 then "0"
  else
    let '(m, e) := digits n (Z.abs (Qnum x)) (QDen x) in
    (if Qnum x <? 0 then "-" else "") +:+
    if (-4 <=? e) && (e <=? n) then
      show_nat (m / 10 ^ (n - e)) +:+ point (n - e) (m mod 10 ^ (n - e))
    else
      show_nat (m / 10 ^ n) +:+ point n (m mod 10 ^ n) +:+ "e" +:+
      (if e <? 0 then "-" else "+") +:+
      (if Z.abs e <? 10 then "0" else "") +:+ show_nat (Z.abs e).
Definition show_g (x : Q) : string := show_prec 5 x.

(** ** Integers *)

Lemma Qred_inject z : Qred (inject_Z z) = inject_Z z.
Proof.
  unfold inject_Z, Qred. pose proof (Z.ggcd_gcd z 1) as Hg.
  pose proof (Z.ggcd_correct_divisors z 1) as Hd.
  destruct (Z.ggcd z (Z.pos 1)) as [g [aa bb]]. cbn in Hg. rewrite Z.gcd_1_r in Hg. subst g.
  destruct Hd as [Ha Hb]. rewrite Z.mul_1_l in Ha, Hb. subst aa bb. reflexivity.
Qed.

Lemma make_q_div z k : 0 < k -> make_q (z * k) k = inject_Z z.
Proof.
  intros Hk. unfold make_q. rewrite <- Qred_inject. apply Qred_complete.
  unfold Qeq, inject_Z. cbn [Qnum Qden]. rewrite Z2Pos.id by done. lia.
Qed.
Lemma make_q_one z : make_q z 1 = inject_Z z.
Proof. rewrite <- (make_q_div z 1) by lia. by rewrite Z.mul_1_r. Qed.

(** A multiple of a power of two with few bits above it is kept. *)
Lemma rne_exact p n k : 0 < p -> 0 < n < 2 ^ p -> 0 <= k -> rne p (n * 2 ^ k) = n * 2 ^ k.
Proof.
  intros Hp0 Hn Hk. unfold rne. assert (Hp : 0 < 2 ^ k) by (apply Z.pow_pos_nonneg; lia).
  rewrite Z.abs_eq by lia. destruct (Z.ltb_spec (n * 2 ^ k) (2 ^ p)) as [|Hge]; [done|].
  rewrite Z.log2_mul_pow2 by lia.
  assert (Hl : Z.log2 n < p) by (apply Z.log2_lt_pow2; lia).
  pose proof (Z.log2_nonneg n). set (e := k + Z.log2 n - (p - 1)).
  assert (He : 0 < e).
  { unfold e. apply Z.log2_le_mono in Hge. rewrite Z.log2_mul_pow2 in Hge by lia.
    rewrite Z.log2_pow2 in Hge by lia. lia. }
  assert (Hm : n * 2 ^ k = n * 2 ^ (k - e) * 2 ^ e).
  { rewrite <- Z.mul_assoc, <- Z.pow_add_r by (unfold e; lia). f_equal. f_equal. lia. }
  assert (Hpe : 0 < 2 ^ e) by (apply Z.pow_pos_nonneg; lia).
  assert (Hh : 0 < 2 ^ (e - 1)) by (apply Z.pow_pos_nonneg; lia).
  replace (Z.log2 n + k - (p - 1)) with e by (unfold e; lia).
  rewrite Hm, Z.div_mul, Z.mod_mul by lia. rewrite (proj2 (Z.ltb_lt _ _)) by lia.
  rewrite Z.sgn_pos, Z.mul_1_l; [done|]. rewrite <- Hm. lia.
Qed.

Lemma round_int p z : 0 < p -> Z.abs z < 2 ^ p -> round_bits p (inject_Z z) = inject_Z z.
Proof.
  intros Hp0 Hz. unfold round_bits. rewrite Qred_inject. cbn [Qnum Qden inject_Z].
  destruct (Z.eqb_spec (Z.abs z) 0) as [E|E]; [by replace z with 0 by lia|].
  change (Z.log2 (Z.pos 1)) with 0.
  assert (Hl : Z.log2 (Z.abs z) < p) by (apply Z.log2_lt_pow2; lia).
  pose proof (Z.log2_nonneg (Z.abs z)). set (e := Z.log2 (Z.abs z) - 0 - (p + 2)).
  rewrite !(proj2 (Z.leb_le _ _)) by (unfold e; lia).
  change (Z.pos 1) with 1. rewrite Z.div_1_r, Z.mod_1_r. cbn [Z.eqb].
  replace (2 * (Z.abs z * 2 ^ (- e)) + 0) with (Z.abs z * 2 ^ (1 - e)).
  2: { replace (1 - e) with (Z.succ (- e)) by lia. rewrite Z.pow_succ_r by (unfold e; lia). lia. }
  rewrite rne_exact by (unfold e; lia).
  rewrite Z.mul_assoc, Z.mul_comm with (n := Z.sgn z), Z.abs_sgn.
  apply make_q_div. apply Z.pow_pos_nonneg; unfold e; lia.
Qed.
Lemma round64_int z : Z.abs z < 2 ^ 64 -> round64 (inject_Z z) = inject_Z z.
Proof. by apply round_int. Qed.

Lemma round_bits_eq p x y : (x == y)%Q -> round_bits p x = round_bits p y.
Proof. intros H. unfold round_bits. by rewrite (Qred_complete x y H). Qed.

Lemma ld_div_int c k : 0 < k -> Z.abs c < 2 ^ 64 -> ld_div (inject_Z (c * k)) k = inject_Z c.
Proof.
  intros Hk Hc. unfold ld_div. rewrite <- (round64_int c Hc). apply round_bits_eq.
  rewrite inject_Z_mult. apply Qdiv_mult_l. unfold Qeq. cbn. lia.
Qed.
Lemma ld_sub_int a b : Z.abs (a - b) < 2 ^ 64 -> ld_sub (inject_Z a) (inject_Z b) = inject_Z (a - b).
Proof.
  intros H. unfold ld_sub. rewrite <- (round64_int (a - b) H). apply round_bits_eq. unfold Qeq, Qminus, Qplus, Qopp, inject_Z. cbn. lia.
Qed.
Lemma ld_lt_int a b : ld_lt (inject_Z a) (inject_Z b) = (a <? b).
Proof. unfold ld_lt. cbn. by rewrite !Z.mul_1_r. Qed.
Lemma ld_eq_int a b : ld_eq (inject_Z a) (inject_Z b) = (a =? b).
Proof. unfold ld_eq. cbn. by rewrite !Z.mul_1_r. Qed.

(** ** Reading an integer *)

Lemma pretty_char_val x : digit_val (pretty_N_char (x `mod` 10)%N) = Some (Z.of_N (x `mod` 10)).
Proof.
  assert (Hlt : (x `mod` 10 < 10)%N) by (by apply N.mod_lt).
  destruct (x `mod` 10)%N as [|p]; [done|].
  do 4 (destruct p as [p|p|]; try done; try lia).
Qed.

Lemma take_digits_go x s k :
  0 <= k -> exists k', k + (if decide (x = 0)%N then 0 else 1) <= k' /\
  take_digits 0 k (pretty_N_go x s) = take_digits (Z.of_N x) k' s.
Proof.
  intros Hk. revert s. induction (N.lt_wf_0 x) as [x _ IH]. intros s.
  destruct (decide (x = 0)%N) as [->|Hx].
  - rewrite pretty_N_go_0. exists k. split; [lia|done].
  - rewrite pretty_N_go_step by lia.
    destruct (IH (x `div` 10)%N ltac:(apply N.div_lt; lia) (String (pretty_N_char (x `mod` 10)) s))
      as (k' & Hk' & ->). exists (k' + 1).
    split; [destruct (decide _); lia|]. cbn [take_digits]. rewrite pretty_char_val. f_equal.
    rewrite N2Z.inj_div, N2Z.inj_mod. pose proof (Z.div_mod (Z.of_N x) 10). lia.
Qed.

Lemma pretty_go_app x s t : pretty_N_go x (s +:+ t) = pretty_N_go x s +:+ t.
Proof.
  revert s. induction (N.lt_wf_0 x) as [x _ IH]. intros s. destruct (decide (x = 0)%N) as [->|Hx].
  - by rewrite !pretty_N_go_0.
  - rewrite (pretty_N_go_step x (s +:+ t)), (pretty_N_go_step x s) by lia.
    rewrite <- string_app_cons. apply IH. apply N.div_lt; lia.
Qed.

(** What follows a number in its field: nothing, or white space. *)
Definition blank_rest (t : string) : Prop :=
  match t with "" => True | String c _ => isspace c = true end.

Lemma blank_char t (Ht : blank_rest t) :
  exponent t = 0 /\ (forall a k, take_digits a k t = (a, k, t)) /\
  (forall {A} (f : string -> A) (d : A), match t with String "." s' => f s' | _ => d end = d).
Proof.
  destruct t as [|c t]; [done|]. cbn in Ht. unfold exponent, isspace in *. cbn [take_digits].
  destruct c as [[] [] [] [] [] [] [] []]; try discriminate Ht; done.
Qed.

Lemma take_digits_pretty (n : N) t : blank_rest t ->
  exists k, 1 <= k /\ take_digits 0 0 (pretty n +:+ t) = (Z.of_N n, k, t).
Proof.
  intros Ht. destruct (blank_char t Ht) as (_ & Hd & _). unfold pretty, pretty_N.
  case_decide as Hn.
  - subst n. exists 1. split; [lia|]. transitivity (take_digits 0 1 t); [done|apply Hd].
  - rewrite <- pretty_go_app. change ("" +:+ t) with t.
    destruct (take_digits_go n t 0) as (k & Hk & ->); [lia|]. rewrite decide_False in Hk by done.
    exists k. split; [lia|]. apply Hd.
Qed.

Lemma decimal_pretty (n : N) t : blank_rest t ->
  decimal (pretty n +:+ t) = Some (inject_Z (Z.of_N n)).
Proof.
  intros Ht. destruct (take_digits_pretty n t Ht) as (k & Hk & Htd).
  destruct (blank_char t Ht) as (He & _ & Hm). unfold decimal.
  destruct (pretty_first n) as (c & r & Ep & Hc).
  assert (Hl : lstrip (pretty n +:+ t) = pretty n +:+ t).
  { rewrite Ep, string_app_cons. cbn [lstrip]. by rewrite (digit_not_space c Hc). }
  assert (Hs : sign (pretty n +:+ t) = (false, pretty n +:+ t)).
  { rewrite Ep, string_app_cons. unfold sign. by destruct (digit_not_sign c Hc) as [-> ->]. }
  rewrite Hl, Hs, Htd. rewrite Hm. rewrite (proj2 (Z.eqb_neq _ _)) by lia. rewrite He.
  cbn [Z.sub Z.leb Z.compare]. change (0 <=? 0 - 0) with true. cbn iota.
  change (10 ^ (0 - 0)) with 1. by rewrite Z.mul_1_r, make_q_one.
Qed.

Lemma read_pretty p hi lo (n : N) t : 0 < p <= hi -> 0 <= lo -> Z.of_N n < 2 ^ p -> blank_rest t ->
  read_float p hi lo (pretty n +:+ t) = Ok (inject_Z (Z.of_N n)).
Proof.
  intros Hp Hlo Hn Ht. unfold read_float. rewrite decimal_pretty by done. rewrite round_int by lia.
  replace (in_range hi lo (inject_Z (Z.of_N n))) with true; [done|]. symmetry. unfold in_range.
  cbn [Qnum Qden inject_Z]. destruct (Z.eqb_spec (Z.of_N n) 0) as [|Hz]; [done|]. cbn [orb].
  assert (H1 : 2 ^ p <= 2 ^ hi) by (apply Z.pow_le_mono_r; lia).
  assert (H2 : 0 < 2 ^ lo) by (apply Z.pow_pos_nonneg; lia).
  apply andb_true_iff. split; [apply Z.ltb_lt; rewrite Z.mul_1_r; lia|apply Z.leb_le; nia].
Qed.
Lemma stold_pretty (n : N) t : Z.of_N n < 2 ^ 64 -> blank_rest t ->
  stold (pretty n +:+ t) = Ok (inject_Z (Z.of_N n)).
Proof. apply read_pretty; lia. Qed.
Lemma stof_pretty (n : N) t : Z.of_N n < 2 ^ 24 -> blank_rest t ->
  stof (pretty n +:+ t) = Ok (inject_Z (Z.of_N n)).
Proof. apply read_pretty; lia. Qed.

(** ** Printing an integer *)

Lemma exp10_spec k fuel a d x :
  0 <= k -> 0 < d -> d * 10 ^ k <= a < d * 10 ^ (k + 1) -> k < Z.of_nat fuel ->
  exp10 fuel a d x = x + k.
Proof.
  intros Hk. revert fuel d x. apply (natlike_ind (fun k => forall fuel d x, 0 < d ->
    d * 10 ^ k <= a < d * 10 ^ (k + 1) -> k < Z.of_nat fuel -> exp10 fuel a d x = x + k)); [..|done].
  - intros fuel d x Hd H Hf. destruct fuel as [|fuel]; [lia|]. cbn [exp10].
    change (10 ^ 0) with 1 in H. change (10 ^ (0 + 1)) with 10 in H.
    destruct (Z.ltb_spec a d); [lia|]. destruct (Z.leb_spec (10 * d) a); lia.
  - clear k Hk. intros k Hk IH fuel d x Hd H Hf. destruct fuel as [|fuel]; [lia|]. cbn [exp10].
    replace (Z.succ k + 1) with (Z.succ (k + 1)) in H by lia. rewrite !Z.pow_succ_r in H by lia.
    assert (H1 : 0 < 10 ^ k) by (apply Z.pow_pos_nonneg; lia).
    assert (H2 : d * 10 <= d * (10 * 10 ^ k)) by nia.
    destruct (Z.ltb_spec a d); [lia|]. destruct (Z.leb_spec (10 * d) a); [|lia].
    rewrite IH; [lia|lia|lia|lia].
Qed.

Lemma show_g_int c : 0 <= c < 10 ^ 6 -> show_g (inject_Z c) = pretty (Z.to_N c).
Proof.
  intros Hc. unfold show_g, show_prec. cbn [Qnum Qden inject_Z]. destruct (Z.eqb_spec c 0) as [->|Hz]; [done|].
  assert (Hk : exists k, 0 <= k <= 5 /\ 10 ^ k <= c < 10 ^ (k + 1)).
  { destruct (decide (c < 10)); [exists 0; lia|]. destruct (decide (c < 100)); [exists 1; lia|].
    destruct (decide (c < 1000)); [exists 2; lia|]. destruct (decide (c < 10000)); [exists 3; lia|].
    destruct (decide (c < 100000)); [exists 4; lia|exists 5; lia]. }
  destruct Hk as (k & Hk & Hr).
  assert (Hd : digits 5 (Z.abs c) 1 = (c * 10 ^ (5 - k), k)).
  { unfold digits. rewrite Z.abs_eq by lia. change (Z.log2 1) with 0.
    assert (Hf : k < Z.of_nat (Z.to_nat (Z.log2 c + 0 + 2))).
    { assert (k <= Z.log2 c); [|pose proof (Z.log2_nonneg c); lia]. apply Z.log2_le_pow2; [lia|].
      transitivity (10 ^ k); [|lia]. apply Z.pow_le_mono_l. lia. }
    rewrite (exp10_spec k _ c 1 0); [|lia|lia|lia|exact Hf]. rewrite Z.add_0_l.
    rewrite !(proj2 (Z.leb_le _ _)) by lia. rewrite Z.div_1_r, Z.mod_1_r.
    change (2 * 0 <? 1) with true. cbn iota.
    change (10 ^ (5 + 1)) with 1000000. destruct (Z.eqb_spec (c * 10 ^ (5 - k)) 1000000) as [E|]; [|done]. exfalso.
    assert (H1 : 10 ^ (k + 1) * 10 ^ (5 - k) = 1000000).
    { rewrite <- Z.pow_add_r by lia. by replace (k + 1 + (5 - k)) with 6 by lia. }
    assert (H2 : 0 < 10 ^ (5 - k)) by (apply Z.pow_pos_nonneg; lia). nia. }
  change (QDen _) with 1. rewrite Hd.
  assert (H2 : 0 < 10 ^ (5 - k)) by (apply Z.pow_pos_nonneg; lia).
  rewrite (proj2 (Z.ltb_ge c 0)) by lia.
  rewrite (proj2 (Z.leb_le (-4) k)), (proj2 (Z.leb_le k 5)) by lia. cbn [andb].
  rewrite Z.div_mul, Z.mod_mul by lia. unfold point. cbn [Z.eqb]. unfold show_nat.
  by rewrite string_app_nil_r.
Qed.
