(* ===== verification/FloatText.v ===== *)
(** * Accuracy of rounding and printing

    Rounding to [p] bits changes a positive number by at most one part in
    [2 ^ (p - 1)]; printing it with [n + 1] digits and reading the text changes it by
    at most one part in [2 * 10 ^ n]. *)

From Stdlib Require Import QArith Qabs Qpower Lqa.
From stdpp Require Import strings pretty.
From S2P Require Import Prelude Machine External TraceParse ParseFacts Floats.

#[local] Open Scope string_scope.
#[local] Open Scope list_scope.
#[local] Open Scope Z_scope.

(** ** Relative errors *)

(** [y] differs from [x] by at most one part in [k]. *)
Definition near (k : Z) (x y : Q) : Prop := (Qabs (y - x) * inject_Z k <= x)%Q.

#[export] Instance near_proper k : Proper (Qeq ==> Qeq ==> iff) (near k).
Proof. intros x x' Hx y y' Hy. unfold near. by rewrite Hx, Hy. Qed.

Lemma make_q_eq n d : 0 < d -> (make_q n d == inject_Z n / inject_Z d)%Q.
Proof.
  intros Hd. unfold make_q. rewrite Qred_correct. unfold Qeq, Qdiv, Qmult, Qinv, inject_Z.
  destruct d as [|d|d]; try lia. cbn. lia.
Qed.

(** For fractions, an inequality of integers. *)
Lemma near_fraction k n d n' d' :
  0 < d -> 0 < d' ->
  near k (inject_Z n / inject_Z d) (inject_Z n' / inject_Z d') <-> Z.abs (n' * d - n * d') * k <= n * d'.
Proof.
  intros Hd Hd'. destruct d as [|d|d], d' as [|d'|d']; try lia.
  assert (Eq : forall m c, (inject_Z m / inject_Z (Z.pos c) == m # c)%Q) by (intros; unfold Qeq; cbn; lia).
  rewrite !Eq. unfold near, Qle, Qabs, Qminus, Qplus, Qopp, Qmult, inject_Z. cbn [Qnum Qden].
  rewrite Pos.mul_1_r, Pos2Z.inj_mul.
  replace (n' * Z.pos d + - n * Z.pos d') with (n' * Z.pos d - n * Z.pos d') by lia.
  split; intros H; [apply (Z.mul_le_mono_pos_r _ _ (Z.pos d)); lia|].
  apply (Z.mul_le_mono_pos_r _ _ (Z.pos d)) in H; lia.
Qed.

(** ** Rounding *)

Lemma rne_near p m : 0 < p -> 2 ^ p <= m -> Z.abs (rne p m - m) * 2 ^ p <= m.
Proof.
  intros Hp Hm. assert (H0 : 0 < 2 ^ p) by (apply Z.pow_pos_nonneg; lia). unfold rne.
  rewrite (Z.abs_eq m), (Z.sgn_pos m), Z.mul_1_l by lia. destruct (Z.ltb_spec m (2 ^ p)); [lia|].
  assert (Hl : p <= Z.log2 m) by (apply Z.log2_le_pow2; lia).
  set (e := Z.log2 m - (p - 1)). assert (He : 0 < e) by (unfold e; lia).
  assert (Hh : 2 ^ e = 2 * 2 ^ (e - 1)).
  { replace e with (Z.succ (e - 1)) at 1 by lia. by rewrite Z.pow_succ_r by lia. }
  assert (Hq : 0 < 2 ^ (e - 1)) by (apply Z.pow_pos_nonneg; lia).
  assert (Hb : 2 ^ (e - 1) * 2 ^ p <= m).
  { rewrite <- Z.pow_add_r by lia. replace (e - 1 + p) with (Z.log2 m) by (unfold e; lia).
    apply Z.log2_spec. lia. }
  pose proof (Z.div_mod m (2 ^ e) ltac:(lia)) as Hdm. pose proof (Z.mod_pos_bound m (2 ^ e) ltac:(lia)).
  set (q := m / 2 ^ e) in *. set (r := m mod 2 ^ e) in *.
  match goal with |- Z.abs (?q' * _ - _) * _ <= _ => assert (Hr : Z.abs (q' * 2 ^ e - m) <= 2 ^ (e - 1)) end.
  { repeat case_match; bool_to_prop; lia. }
  nia.
Qed.

(** The quotient of [round_bits] and its last bit, rounded. *)
Lemma sticky_near p a b : 0 < p -> 0 < b -> 2 ^ (p + 1) <= a / b ->
  let m := 2 * (a / b) + (if a mod b =? 0 then 0 else 1) in
  0 < m /\ Z.abs (rne p m * b - 2 * a) * 2 ^ (p - 1) <= 2 * a.
Proof.
  intros Hp Hb Hq m.
  assert (H0 : 2 ^ p = 2 * 2 ^ (p - 1)).
  { replace p with (Z.succ (p - 1)) at 1 by lia. by rewrite Z.pow_succ_r by lia. }
  assert (H1 : 2 ^ (p + 1) = 2 * 2 ^ p) by (rewrite Z.pow_add_r by lia; lia).
  assert (H2 : 0 < 2 ^ (p - 1)) by (apply Z.pow_pos_nonneg; lia).
  pose proof (Z.div_mod a b ltac:(lia)) as Hdm. pose proof (Z.mod_pos_bound a b Hb).
  set (q := a / b) in *. set (r := a mod b) in *.
  assert (Hm : 2 ^ p <= m) by (unfold m; case_match; lia).
  assert (Hs : Z.abs (m * b - 2 * a) <= b) by (unfold m; destruct (Z.eqb_spec r 0); nia).
  pose proof (rne_near p m Hp Hm) as Hr. set (R := rne p m) in *. set (P := 2 ^ (p - 1)) in *.
  split; [lia|].
  assert (E : Z.abs (R * b - 2 * a) <= Z.abs (R - m) * b + b) by nia.
  assert (Hmb : m * b <= 2 * a + b) by lia.
  assert (E2 : Z.abs (R - m) * b * (2 * P) <= 2 * a + b) by nia.
  assert (Hab : 4 * P * b <= a) by nia. nia.
Qed.

Lemma round_bits_near p x : 0 < p -> (0 < x)%Q -> near (2 ^ (p - 1)) x (round_bits p x).
Proof.
  intros Hp Hx. unfold round_bits. set (y := Qred x).
  assert (Ey : (y == x)%Q) by apply Qred_correct. rewrite <- Ey in *. clearbody y. clear x Ey.
  destruct y as [n d]. unfold Qlt in Hx. cbn [Qnum Qden] in *. rewrite Z.mul_0_l, Z.mul_1_r in Hx.
  rewrite (Z.abs_eq n), Z.sgn_pos by lia. destruct (Z.eqb_spec n 0); [lia|].
  assert (Ed : (n # d == inject_Z n / inject_Z (Z.pos d))%Q) by (unfold Qeq; cbn; lia).
  rewrite Ed. clear Ed. assert (Hd : 0 < Z.pos d) by lia. set (D := Z.pos d) in *. clearbody D. clear d.
  set (e := Z.log2 n - Z.log2 D - (p + 2)).
  set (a := if e <=? 0 then n * 2 ^ (- e) else n). set (b := if e <=? 0 then D else D * 2 ^ e).
  destruct (Z.log2_spec n Hx) as [Hn _]. destruct (Z.log2_spec D Hd) as [_ HD].
  pose proof (Z.log2_nonneg n). pose proof (Z.log2_nonneg D).
  assert (Hb : 0 < b). { unfold b. destruct (Z.leb_spec e 0); [lia|]. apply Z.mul_pos_pos; [lia|apply Z.pow_pos_nonneg; lia]. }
  assert (Hq : 2 ^ (p + 1) <= a / b).
  { apply Z.div_le_lower_bound; [lia|]. unfold a, b. rewrite Z.mul_comm. destruct (Z.leb_spec e 0).
    - transitivity (2 ^ (p + 1) * 2 ^ Z.succ (Z.log2 D)); [apply Z.mul_le_mono_nonneg_l; [apply Z.pow_nonneg; lia|lia]|].
      transitivity (2 ^ Z.log2 n * 2 ^ (- e)); [|apply Z.mul_le_mono_nonneg_r; [apply Z.pow_nonneg; lia|lia]].
      rewrite <- !Z.pow_add_r by lia. apply Z.pow_le_mono_r; unfold e; lia.
    - transitivity (2 ^ (p + 1) * (2 ^ Z.succ (Z.log2 D) * 2 ^ e)).
      { apply Z.mul_le_mono_nonneg_l; [apply Z.pow_nonneg; lia|]. apply Z.mul_le_mono_nonneg_r; [apply Z.pow_nonneg; lia|lia]. }
      rewrite <- !Z.pow_add_r by lia. transitivity (2 ^ Z.log2 n); [|lia]. apply Z.pow_le_mono_r; unfold e; lia. }
  destruct (sticky_near p a b Hp Hb Hq) as [Hm Hr]. set (R := rne p _) in *. rewrite Z.mul_1_l.
  assert (Hv : (if e - 1 <=? 0 then make_q R (2 ^ (1 - e)) else make_q (R * 2 ^ (e - 1)) 1) ==
    inject_Z (if e - 1 <=? 0 then R else R * 2 ^ (e - 1)) / inject_Z (if e - 1 <=? 0 then 2 ^ (1 - e) else 1)).
  { destruct (Z.leb_spec (e - 1) 0); apply make_q_eq; [apply Z.pow_pos_nonneg; lia|lia]. }
  rewrite Hv. apply near_fraction; [lia|destruct (Z.leb_spec (e - 1) 0); [apply Z.pow_pos_nonneg; lia|lia]|].
  clear Hv Hq. unfold a, b in *. destruct (Z.leb_spec e 0), (Z.leb_spec (e - 1) 0); try lia.
  - replace (1 - e) with (Z.succ (- e)) by lia. rewrite Z.pow_succ_r by lia.
    replace (R * D - n * (2 * 2 ^ (- e))) with (R * D - 2 * (n * 2 ^ (- e))) by ring. lia.
  - assert (e = 1) as -> by lia. change (2 ^ (1 - 1)) with 1. change (2 ^ 1) with 2 in *. nia.
  - assert (E2 : 2 ^ e = 2 * 2 ^ (e - 1)).
    { replace e with (Z.succ (e - 1)) at 1 by lia. by rewrite Z.pow_succ_r by lia. }
    rewrite E2 in Hr. nia.
Qed.

(** ** Digits *)

Lemma exp10_down k fuel a d x :
  0 <= k -> 0 < a < d -> d <= a * 10 ^ k < 10 * d -> k < Z.of_nat fuel -> exp10 fuel a d x = x - k.
Proof.
  intros Hk. revert fuel a x. apply (natlike_ind (fun k => forall fuel a x, 0 < a < d ->
    d <= a * 10 ^ k < 10 * d -> k < Z.of_nat fuel -> exp10 fuel a d x = x - k)); [..|done].
  - intros fuel a x Ha H _. change (10 ^ 0) with 1 in H. lia.
  - clear k Hk. intros k Hk IH fuel a x Ha H Hf. destruct fuel as [|fuel]; [lia|]. cbn [exp10].
    rewrite Z.pow_succ_r in H by lia. rewrite (proj2 (Z.ltb_lt a d)) by lia.
    destruct (decide (10 * a < d)) as [Hlt|Hge].
    + rewrite IH; [lia|lia|lia|lia].
    + assert (k = 0) as ->.
      { destruct (decide (k = 0)); [done|]. exfalso. assert (10 <= 10 ^ k).
        { change 10 with (10 ^ 1) at 1. apply Z.pow_le_mono_r; lia. } nia. }
      rewrite (exp10_spec 0 fuel (10 * a) d (x - 1)); [lia|lia|lia| |lia].
      change (10 ^ 0) with 1. change (10 ^ (0 + 1)) with 10. lia.
Qed.

(** The decimal exponent of a fraction, and that the fuel finds it. *)
Lemma exp10_bounds a d : 0 < a -> 0 < d ->
  exists e, exp10 (Z.to_nat (Z.log2 a + Z.log2 d + 2)) a d 0 = e /\
    if 0 <=? e then d * 10 ^ e <= a < d * 10 ^ (e + 1) else d <= a * 10 ^ (- e) < 10 * d.
Proof.
  intros Ha Hd. pose proof (Z.log2_nonneg a). pose proof (Z.log2_nonneg d).
  assert (Hup : forall u v j, 0 < u -> 0 <= j -> u <= v -> v < u * 10 ^ j ->
    exists k, 0 <= k < j /\ u * 10 ^ k <= v < u * 10 ^ (k + 1)).
  { intros u v j Hu Hj Huv. revert Hj. apply (natlike_ind (fun j => v < u * 10 ^ j ->
      exists k, 0 <= k < j /\ u * 10 ^ k <= v < u * 10 ^ (k + 1))).
    - change (10 ^ 0) with 1. lia.
    - intros i Hi IH Hv. destruct (decide (v < u * 10 ^ i)) as [Hl|Hg].
      + destruct (IH Hl) as (k & ? & ?). exists k. lia.
      + exists i. split; [lia|]. rewrite Z.add_1_r. lia. }
  assert (Hbig : forall v, 0 < v -> v < 10 ^ Z.succ (Z.log2 v)).
  { intros v Hv. pose proof (Z.log2_nonneg v). apply Z.lt_le_trans with (2 ^ Z.succ (Z.log2 v)).
    - apply Z.log2_spec, Hv.
    - apply Z.pow_le_mono_l. lia. }
  destruct (decide (d <= a)) as [Hle|Hgt].
  - destruct (Hup d a (Z.succ (Z.log2 a)) Hd) as (k & Hk & Hr); [lia|lia|specialize (Hbig a Ha); nia|].
    exists k. rewrite (exp10_spec k _ a d 0) by lia. split; [lia|]. by rewrite (proj2 (Z.leb_le 0 k)) by lia.
  - destruct (Hup a (d - 1) (Z.succ (Z.log2 d)) Ha) as (k & Hk & Hr); [lia|lia|specialize (Hbig d Hd); nia|].
    rewrite Z.add_1_r, Z.pow_succ_r in Hr by lia.
    assert (Hp : 0 < 10 ^ k) by (apply Z.pow_pos_nonneg; lia).
    exists (- (k + 1)). rewrite (exp10_down (k + 1)); [split; [lia|]|lia|lia| |lia].
    + rewrite (proj2 (Z.leb_gt 0 _)) by lia. rewrite Z.opp_involutive, Z.pow_add_r by lia. lia.
    + rewrite Z.pow_add_r by lia. lia.
Qed.

Notation ten := (inject_Z 10).

(** Nearest integers. *)
Lemma round_quotient a d q : 0 < d ->
  q = (if 2 * (a mod d) <? d then a / d else if d <? 2 * (a mod d) then a / d + 1
       else if Z.even (a / d) then a / d else a / d + 1) ->
  2 * Z.abs (q * d - a) <= d.
Proof.
  intros Hd ->. pose proof (Z.div_mod a d ltac:(lia)). pose proof (Z.mod_pos_bound a d Hd).
  repeat case_match; bool_to_prop; lia.
Qed.

(** The digits are near the number. *)
Lemma digits_near n a d m e : 0 <= n -> 0 < a -> 0 < d -> digits n a d = (m, e) ->
  10 ^ n <= m < 10 ^ (n + 1) /\
  near (2 * 10 ^ n) (inject_Z a / inject_Z d) (inject_Z m * ten ^ (e - n)).
Proof.
  intros Hn Ha Hd. unfold digits. destruct (exp10_bounds a d Ha Hd) as (x & -> & Hx).
  set (a' := if x <=? n then a * 10 ^ (n - x) else a).
  set (d' := if x <=? n then d else d * 10 ^ (x - n)).
  set (q := if 2 * (a' mod d') <? d' then _ else _).
  assert (HP : 0 < 10 ^ n) by (apply Z.pow_pos_nonneg; lia).
  assert (Hd' : 0 < d').
  { unfold d'. destruct (Z.leb_spec x n); [lia|]. apply Z.mul_pos_pos; [lia|apply Z.pow_pos_nonneg; lia]. }
  assert (Hr : d' * 10 ^ n <= a' < d' * 10 ^ (n + 1)).
  { unfold a', d'. rewrite Z.pow_add_r by lia. change (10 ^ 1) with 10.
    destruct (Z.leb_spec 0 x); destruct (Z.leb_spec x n); try lia.
    - assert (E : 10 ^ n = 10 ^ x * 10 ^ (n - x)) by (rewrite <- Z.pow_add_r by lia; f_equal; lia).
      assert (HT : 0 < 10 ^ (n - x)) by (apply Z.pow_pos_nonneg; lia). rewrite Z.pow_add_r in Hx by lia.
      change (10 ^ 1) with 10 in Hx. rewrite E. set (T := 10 ^ (n - x)) in *. destruct Hx as [H1 H2]. split.
      + apply (Z.mul_le_mono_nonneg_r _ _ T) in H1; lia.
      + apply (Z.mul_lt_mono_pos_r T) in H2; lia.
    - rewrite <- Z.mul_assoc, <- Z.pow_add_r by lia. replace (x - n + n) with x by lia.
      rewrite Z.pow_add_r in Hx by lia. change (10 ^ 1) with 10 in Hx.
      rewrite <- (Z.mul_assoc d), (Z.mul_assoc (10 ^ (x - n))), <- Z.pow_add_r by lia.
      replace (x - n + n) with x by lia. lia.
    - replace (n - x) with (- x + n) by lia. rewrite Z.pow_add_r by lia. nia. }
  pose proof (round_quotient a' d' q Hd' eq_refl) as Hq. clearbody q.
  assert (Hq1 : 10 ^ n <= q <= 10 ^ (n + 1)).
  { rewrite Z.pow_add_r in * by lia. change (10 ^ 1) with 10 in *. nia. }
  assert (Hnear : near (2 * 10 ^ n) (inject_Z a / inject_Z d) (inject_Z q * ten ^ (x - n))).
  { assert (E : (inject_Z q * ten ^ (x - n) ==
      inject_Z (if x <=? n then q else q * 10 ^ (x - n)) / inject_Z (if x <=? n then 10 ^ (n - x) else 1))%Q).
    { destruct (Z.leb_spec x n).
      - rewrite Zpower_Qpower by lia. replace (x - n) with (- (n - x)) by lia. by rewrite Qpower_opp.
      - rewrite inject_Z_mult, Zpower_Qpower by lia. change (inject_Z 1) with 1%Q. field. }
    rewrite E. apply near_fraction; [lia|destruct (Z.leb_spec x n); [apply Z.pow_pos_nonneg; lia|lia]|].
    unfold a', d' in *. rewrite Z.pow_add_r in Hr by lia. change (10 ^ 1) with 10 in Hr.
    destruct (Z.leb_spec x n); nia. }
  destruct (Z.eqb_spec q (10 ^ (n + 1))) as [->|Hne]; intros [= <- <-].
  - split; [rewrite Z.pow_add_r by lia; lia|].
    assert (E : (inject_Z (10 ^ n) * ten ^ (x + 1 - n) == inject_Z (10 ^ (n + 1)) * ten ^ (x - n))%Q).
    { rewrite !Zpower_Qpower by lia. rewrite <- !Qpower_plus by (unfold Qeq; cbn; lia).
      by replace (n + (x + 1 - n)) with (n + 1 + (x - n)) by lia. }
    by rewrite E.
  - split; [lia|exact Hnear].
Qed.

(** ** Reading the text *)

Ltac same_triple :=
  match goal with |- (?a, ?b, _) = (?a', ?b', _) =>
    replace a with a' by lia; replace b with b' by lia; reflexivity end.

(** A text at which the digits of a number end. *)
Definition no_digit (t : string) : Prop :=
  match t with "" => True | String c _ => digit_val c = None end.
Lemma take_digits_end a k t : no_digit t -> take_digits a k t = (a, k, t).
Proof. destruct t as [|c t]; [done|]. cbn. by intros ->. Qed.

Lemma take_digits_shift a k s : take_digits a k s =
  let '(v, j, t) := take_digits 0 0 s in (a * 10 ^ j + v, k + j, t).
Proof.
  assert (H : forall s a k, exists v j t, 0 <= j /\ forall b i, take_digits (b + a) (i + k) s =
    (b * 10 ^ j + v, i + (k + j), t)).
  { clear. induction s as [|c s IH]; intros a k.
    { exists a, 0, "". split; [lia|]. intros b i. cbn. same_triple. }
    cbn [take_digits]. destruct (digit_val c) as [x|].
    - destruct (IH (a * 10 + x) (k + 1)) as (v & j & t & Hj & E).
      exists v, (j + 1), t. split; [lia|]. intros b i. specialize (E (b * 10) i).
      replace ((b + a) * 10 + x) with (b * 10 + (a * 10 + x)) by lia.
      replace (i + k + 1) with (i + (k + 1)) by lia. rewrite E, Z.pow_add_r by lia. same_triple.
    - exists a, 0, (String c s). split; [lia|]. intros b i. same_triple. }
  destruct (H s 0 0) as (v & j & t & Hj & E).
  pose proof (E 0 0) as E0. pose proof (E a k) as E1. rewrite !Z.add_0_r in *. rewrite !Z.add_0_l in *. rewrite E0, E1.
  cbv beta iota. rewrite ?Z.mul_0_l, ?Z.add_0_l.
  same_triple.
Qed.

Lemma show_nat_digits z t : 0 <= z -> no_digit t ->
  exists k, 1 <= k /\ take_digits 0 0 (show_nat z +:+ t) = (z, k, t).
Proof.
  intros Hz Ht. unfold show_nat, pretty, pretty_N. case_decide as Hn.
  - exists 1. split; [lia|]. transitivity (take_digits 0 1 t); [done|].
    rewrite take_digits_end by done. same_triple.
  - rewrite <- pretty_go_app. change ("" +:+ t) with t.
    destruct (take_digits_go (Z.to_N z) t 0) as (k & Hk & ->); [lia|]. rewrite decide_False in Hk by done.
    exists k. split; [lia|]. rewrite take_digits_end by done. by rewrite Z2N.id.
Qed.

(** A single digit. *)
Lemma show_nat_digit z t : 0 <= z < 10 -> exists c, show_nat z +:+ t = String c t /\ digit_val c = Some z.
Proof.
  intros Hz. assert (z ∈ seqZ 0 10) as Hin by (apply elem_of_seqZ; lia).
  cbn in Hin. repeat (apply elem_of_cons in Hin as [->|Hin]; [eexists; split; reflexivity|]).
  by apply elem_of_nil in Hin.
Qed.

Lemma fraction_digits k f t : 0 <= f < 10 ^ Z.of_nat k -> no_digit t ->
  exists v j, 0 <= j <= Z.of_nat k /\ f = v * 10 ^ (Z.of_nat k - j) /\
    take_digits 0 0 (fraction k f +:+ t) = (v, j, t).
Proof.
  revert f. induction k as [|k IH]; intros f Hf Ht.
  { exists 0, 0. split; [lia|]. split; [cbn in *; lia|]. by apply take_digits_end. }
  cbn [fraction]. destruct (Z.eqb_spec f 0) as [->|Hz].
  { exists 0, 0. split; [lia|]. split; [lia|]. by apply take_digits_end. }
  set (P := 10 ^ Z.of_nat k). assert (HP : 0 < P) by (apply Z.pow_pos_nonneg; lia).
  assert (EP : 10 ^ Z.of_nat (S k) = 10 * P) by (unfold P; rewrite Nat2Z.inj_succ, Z.pow_succ_r by lia; lia).
  rewrite EP in Hf. pose proof (Z.div_mod f P ltac:(lia)) as Hdm. pose proof (Z.mod_pos_bound f P HP) as Hm.
  destruct (IH (f mod P)) as (v & j & Hj & Ev & Et); [done|done|].
  destruct (show_nat_digit (f / P) (fraction k (f mod P) +:+ t)) as (c & Ec & Hc).
  { split; [apply Z.div_pos; lia|]. apply Z.div_lt_upper_bound; lia. }
  exists (f / P * 10 ^ j + v), (j + 1). split; [lia|]. split.
  - replace (Z.of_nat (S k) - (j + 1)) with (Z.of_nat k - j) by lia.
    rewrite Z.mul_add_distr_r, <- Ev, <- Z.mul_assoc, <- Z.pow_add_r by lia.
    replace (j + (Z.of_nat k - j)) with (Z.of_nat k) by lia. fold P. lia.
  - rewrite string_app_assoc, Ec. cbn [take_digits]. rewrite Hc, take_digits_shift, Et.
    same_triple.
Qed.

Lemma make_q_pow v e : (if 0 <=? e then make_q (v * 10 ^ e) 1 else make_q v (10 ^ (- e))) ==
  (inject_Z v * ten ^ e)%Q.
Proof.
  destruct (Z.leb_spec 0 e).
  - rewrite make_q_one, inject_Z_mult, Zpower_Qpower by lia. reflexivity.
  - rewrite make_q_eq by (apply Z.pow_pos_nonneg; lia). rewrite Zpower_Qpower by lia.
    rewrite Qpower_opp. unfold Qdiv. by rewrite Qinv_involutive.
Qed.

(** A number with a fraction and a tail, whose exponent counts. *)
Definition tail_ok (t : string) : Prop :=
  no_digit t /\ forall {A} (f : string -> A) (d : A), match t with String "." s' => f s' | _ => d end = d.

Lemma decimal_text i k f t : 0 <= i -> 0 <= k -> 0 <= f < 10 ^ k -> tail_ok t ->
  exists q, decimal (show_nat i +:+ point k f +:+ t) = Some q /\
    (q == inject_Z (i * 10 ^ k + f) * ten ^ (exponent t - k))%Q.
Proof.
  intros Hi Hk Hf [Ht Hdot]. unfold decimal.
  set (rest := point k f +:+ t).
  assert (Hrest : no_digit rest) by (unfold rest, point; destruct (f =? 0); [exact Ht|reflexivity]).
  destruct (pretty_first (Z.to_N i)) as (c & r & Ep & Hc). change (pretty (Z.to_N i)) with (show_nat i) in Ep.
  assert (Hl : lstrip (show_nat i +:+ rest) = show_nat i +:+ rest).
  { rewrite Ep, string_app_cons. cbn [lstrip]. by rewrite (digit_not_space c Hc). }
  assert (Hs : sign (show_nat i +:+ rest) = (false, show_nat i +:+ rest)).
  { rewrite Ep, string_app_cons. unfold sign. by destruct (digit_not_sign c Hc) as [-> ->]. }
  rewrite Hl, Hs. destruct (show_nat_digits i rest Hi Hrest) as (n & Hn & ->).
  unfold rest, point. destruct (Z.eqb_spec f 0) as [->|Hz].
  - change ("" +:+ t) with t. rewrite Hdot. rewrite (proj2 (Z.eqb_neq _ _)) by lia.
    eexists. split; [reflexivity|]. rewrite make_q_pow, Z.add_0_r, inject_Z_mult, Zpower_Qpower by lia.
    rewrite <- Qmult_assoc, <- Qpower_plus by (unfold Qeq; cbn; lia).
    by replace (k + (exponent t - k)) with (exponent t - 0) by lia.
  - change (("." +:+ fraction (Z.to_nat k) f) +:+ t) with (String "." (fraction (Z.to_nat k) f +:+ t)).
    cbv beta iota.
    destruct (fraction_digits (Z.to_nat k) f t) as (v & j & Hj & Ev & Et); [by rewrite Z2Nat.id|done|].
    rewrite Z2Nat.id in * by lia. rewrite take_digits_shift, Et. cbv beta iota zeta.
    rewrite (proj2 (Z.eqb_neq _ _)) by lia. eexists. split; [reflexivity|]. rewrite make_q_pow, Ev.
    replace (i * 10 ^ k + v * 10 ^ (k - j)) with ((i * 10 ^ j + v) * 10 ^ (k - j)).
    2: { rewrite Z.mul_add_distr_r, <- Z.mul_assoc, <- Z.pow_add_r by lia. by replace (j + (k - j)) with k by lia. }
    rewrite (inject_Z_mult (i * 10 ^ j + v)), Zpower_Qpower by lia.
    rewrite <- Qmult_assoc, <- Qpower_plus by (unfold Qeq; cbn; lia).
    by replace (k - j + (exponent t - k)) with (exponent t - (0 + j)) by lia.
Qed.

(** The tail of the scientific form. *)
Definition exponent_text (e : Z) : string :=
  "e" +:+ (if e <? 0 then "-" else "+") +:+ (if Z.abs e <? 10 then "0" else "") +:+ show_nat (Z.abs e).
Lemma exponent_text_ok e : tail_ok (exponent_text e) /\ exponent (exponent_text e) = e.
Proof.
  split; [by split|]. unfold exponent_text.
  destruct (show_nat_digits (Z.abs e) "" ltac:(lia) I) as (k & Hk & E). rewrite string_app_nil_r in E.
  set (digits := (if Z.abs e <? 10 then "0" else "") +:+ show_nat (Z.abs e)).
  assert (Ed : exists k', 1 <= k' /\ take_digits 0 0 digits = (Z.abs e, k', "")).
  { unfold digits. destruct (Z.abs e <? 10); [|by exists k].
    exists (1 + k). split; [lia|]. 
    transitivity (take_digits 0 1 (show_nat (Z.abs e))); [reflexivity|]. rewrite take_digits_shift, E. same_triple. }
  destruct Ed as (k' & Hk' & Ed). unfold exponent.
  change ("e" +:+ ?s) with (String "e" s). cbv beta iota. cbn [Ascii.eqb Bool.eqb orb].
  assert (Es : sign ((if e <? 0 then "-" else "+") +:+ digits) = (e <? 0, digits)).
  { destruct (Z.ltb_spec e 0); reflexivity. }
  change (sign _) with (sign ((if e <? 0 then "-" else "+") +:+ digits)). rewrite Es, Ed.
  rewrite (proj2 (Z.eqb_neq _ _)) by lia. destruct (Z.ltb_spec e 0); lia.
Qed.

(** A positive number is read back as printed, to its digits. *)
Lemma show_prec_near n x : 0 <= n -> (0 < x)%Q ->
  exists y, decimal (show_prec n x) = Some y /\ near (2 * 10 ^ n) x y.
Proof.
  intros Hn Hx. destruct x as [a d]. unfold Qlt in Hx. cbn [Qnum Qden] in Hx.
  rewrite Z.mul_0_l, Z.mul_1_r in Hx. unfold show_prec. cbn [Qnum Qden].
  rewrite (proj2 (Z.eqb_neq _ _)), (proj2 (Z.ltb_ge a 0)), Z.abs_eq by lia. change (("" +:+ ?s)) with s.
  destruct (digits n a (Z.pos d)) as [m e] eqn:Ed.
  destruct (digits_near n a (Z.pos d) m e Hn Hx ltac:(lia) Ed) as [Hm Hnear].
  assert (Eq : (a # d == inject_Z a / inject_Z (Z.pos d))%Q) by (unfold Qeq; cbn; lia).
  assert (HP : forall k, 0 <= k -> 0 < 10 ^ k) by (intros; apply Z.pow_pos_nonneg; lia).
  assert (Hparts : forall k, 0 <= k -> 0 <= m / 10 ^ k /\ 0 <= m mod 10 ^ k < 10 ^ k /\
    m / 10 ^ k * 10 ^ k + m mod 10 ^ k = m).
  { intros k Hk. pose proof (HP n Hn). specialize (HP k Hk). pose proof (Z.div_mod m (10 ^ k) ltac:(lia)).
    pose proof (Z.mod_pos_bound m (10 ^ k) HP). assert (0 <= m / 10 ^ k) by (apply Z.div_pos; lia). lia. }
  destruct (Z.leb_spec (-4) e); cbn [andb]; [destruct (Z.leb_spec e n)|].
  - destruct (Hparts (n - e) ltac:(lia)) as (P1 & P2 & P3).
    destruct (decimal_text _ (n - e) _ "" P1 ltac:(lia) P2) as (q & E & V); [by split|].
    rewrite string_app_nil_r in E. exists q. split; [exact E|]. rewrite V, P3, Eq. cbn [exponent].
    by replace (0 - (n - e)) with (e - n) by lia.
  - destruct (Hparts n Hn) as (P1 & P2 & P3), (exponent_text_ok e) as [T1 T2].
    destruct (decimal_text _ n _ (exponent_text e) P1 ltac:(lia) P2 T1) as (q & E & V).
    exists q. split; [exact E|]. by rewrite V, P3, Eq, T2.
  - destruct (Hparts n Hn) as (P1 & P2 & P3), (exponent_text_ok e) as [T1 T2].
    destruct (decimal_text _ n _ (exponent_text e) P1 ltac:(lia) P2 T1) as (q & E & V).
    exists q. split; [exact E|]. by rewrite V, P3, Eq, T2.
Qed.
