(* ===== verification/CalipersOpcodes.v ===== *)
(** * The tables of the RISC-V stream

    infras/calipers/src/trace/riscv_stream.h, the enumerations of registers, and
    riscv_stream.cpp, [initMaps]: the number of every register name, and for every
    opcode its execution type, which of its operands are written and read, how it
    accesses memory and how long it is.  One row stands for the five assignments the
    source makes for an opcode; the key of the last one is kept apart, because one
    row of the source assigns it under another name. *)

From stdpp Require Import strings.
From S2P Require Import Prelude CalipersCycles.

#[local] Open Scope string_scope.
#[local] Open Scope list_scope.
#[local] Open Scope Z_scope.

Module CalT.
Import CalG.

(** ** Registers *)

(** The integer registers; [s0] and [fp] are one register. *)
Module IntReg.
Inductive int_reg :=
  | zero | ra | sp | gp | tp | t0 | t1 | t2 | s0 | fp | s1 | a0 | a1 | a2 | a3 | a4 | a5 | a6
  | a7 | s2 | s3 | s4 | s5 | s6 | s7 | s8 | s9 | s10 | s11 | t3 | t4 | t5 | t6 | pc | last.
Definition int_num (r : int_reg) : Z :=
  match r with
  | zero => 0 | ra => 1 | sp => 2 | gp => 3 | tp => 4 | t0 => 5 | t1 => 6 | t2 => 7 | s0 => 8
  | fp => 8 | s1 => 9 | a0 => 10 | a1 => 11 | a2 => 12 | a3 => 13 | a4 => 14 | a5 => 15
  | a6 => 16 | a7 => 17 | s2 => 18 | s3 => 19 | s4 => 20 | s5 => 21 | s6 => 22 | s7 => 23
  | s8 => 24 | s9 => 25 | s10 => 26 | s11 => 27 | t3 => 28 | t4 => 29 | t5 => 30 | t6 => 31
  | pc => 32 | last => 32
  end.
End IntReg.

(** The floating-point registers follow the integer registers. *)
Module FpReg.
Inductive fp_reg :=
  | ft0 | ft1 | ft2 | ft3 | ft4 | ft5 | ft6 | ft7 | fs0 | fs1 | fa0 | fa1 | fa2 | fa3 | fa4
  | fa5 | fa6 | fa7 | fs2 | fs3 | fs4 | fs5 | fs6 | fs7 | fs8 | fs9 | fs10 | fs11 | ft8 | ft9
  | ft10 | ft11.
Definition fp_num (r : fp_reg) : Z :=
  match r with
  | ft0 => 33 | ft1 => 34 | ft2 => 35 | ft3 => 36 | ft4 => 37 | ft5 => 38 | ft6 => 39
  | ft7 => 40 | fs0 => 41 | fs1 => 42 | fa0 => 43 | fa1 => 44 | fa2 => 45 | fa3 => 46
  | fa4 => 47 | fa5 => 48 | fa6 => 49 | fa7 => 50 | fs2 => 51 | fs3 => 52 | fs4 => 53
  | fs5 => 54 | fs6 => 55 | fs7 => 56 | fs8 => 57 | fs9 => 58 | fs10 => 59 | fs11 => 60
  | ft8 => 61 | ft9 => 62 | ft10 => 63 | ft11 => 64
  end.
End FpReg.

(** The control and status registers, at their addresses. *)
Module Csr.
Inductive csr_reg :=
  | Ustatus | Fflags | Frm | Fcsr | Uie | Utvec | Uscratch | Uepc | Ucause | Utval | Uio
  | Cycle | Time | Instret | Cycleh | Timeh | Instreth.
Definition csr_num (r : csr_reg) : Z :=
  match r with
  | Ustatus => 0 | Fflags => 1 | Frm => 2 | Fcsr => 3 | Uie => 4 | Utvec => 5 | Uscratch => 64
  | Uepc => 65 | Ucause => 66 | Utval => 67 | Uio => 68 | Cycle => 3072 | Time => 3073
  | Instret => 3074 | Cycleh => 3200 | Timeh => 3201 | Instreth => 3202
  end.
End Csr.

(** The names, in the order of the assignments. *)
Definition int_regs : list (string * Z) :=
  (fun p => (p.1, IntReg.int_num p.2)) <$> [
    ("zero", IntReg.zero); ("ra", IntReg.ra); ("sp", IntReg.sp); ("gp", IntReg.gp);
    ("tp", IntReg.tp); ("t0", IntReg.t0); ("t1", IntReg.t1); ("t2", IntReg.t2);
    ("s0", IntReg.s0); ("fp", IntReg.fp); ("s1", IntReg.s1); ("a0", IntReg.a0);
    ("a1", IntReg.a1); ("a2", IntReg.a2); ("a3", IntReg.a3); ("a4", IntReg.a4);
    ("a5", IntReg.a5); ("a6", IntReg.a6); ("a7", IntReg.a7); ("s2", IntReg.s2);
    ("s3", IntReg.s3); ("s4", IntReg.s4); ("s5", IntReg.s5); ("s6", IntReg.s6);
    ("s7", IntReg.s7); ("s8", IntReg.s8); ("s9", IntReg.s9); ("s10", IntReg.s10);
    ("s11", IntReg.s11); ("t3", IntReg.t3); ("t4", IntReg.t4); ("t5", IntReg.t5);
    ("t6", IntReg.t6)].
Definition fp_regs : list (string * Z) :=
  (fun p => (p.1, FpReg.fp_num p.2)) <$> [
    ("ft0", FpReg.ft0); ("ft1", FpReg.ft1); ("ft2", FpReg.ft2); ("ft3", FpReg.ft3);
    ("ft4", FpReg.ft4); ("ft5", FpReg.ft5); ("ft6", FpReg.ft6); ("ft7", FpReg.ft7);
    ("fs0", FpReg.fs0); ("fs1", FpReg.fs1); ("fa0", FpReg.fa0); ("fa1", FpReg.fa1);
    ("fa2", FpReg.fa2); ("fa3", FpReg.fa3); ("fa4", FpReg.fa4); ("fa5", FpReg.fa5);
    ("fa6", FpReg.fa6); ("fa7", FpReg.fa7); ("fs2", FpReg.fs2); ("fs3", FpReg.fs3);
    ("fs4", FpReg.fs4); ("fs5", FpReg.fs5); ("fs6", FpReg.fs6); ("fs7", FpReg.fs7);
    ("fs8", FpReg.fs8); ("fs9", FpReg.fs9); ("fs10", FpReg.fs10); ("fs11", FpReg.fs11);
    ("ft8", FpReg.ft8); ("ft9", FpReg.ft9); ("ft10", FpReg.ft10); ("ft11", FpReg.ft11)].
Definition csr_regs : list (string * Z) :=
  (fun p => (p.1, Csr.csr_num p.2)) <$> [
    ("ustatus", Csr.Ustatus); ("fflags", Csr.Fflags); ("frm", Csr.Frm); ("fcsr", Csr.Fcsr);
    ("uie", Csr.Uie); ("utvec", Csr.Utvec); ("uscratch", Csr.Uscratch); ("uepc", Csr.Uepc);
    ("ucause", Csr.Ucause); ("utval", Csr.Utval); ("uio", Csr.Uio); ("cycle", Csr.Cycle);
    ("time", Csr.Time); ("instret", Csr.Instret); ("cycleh", Csr.Cycleh); ("timeh", Csr.Timeh);
    ("instreth", Csr.Instreth)].

(** The map the assignments make: a later one replaces an earlier one. *)
Definition assign {V} (l : list (string * V)) : gmap string V :=
  foldl (fun m p => <[p.1 := p.2]> m) ∅ l.
Definition regMap : gmap string Z := assign (int_regs ++ fp_regs ++ csr_regs).

(** ** Opcodes *)

(** The character 0 stands for no access to memory. *)
Definition NUL : ascii := Ascii.zero.

Record Row := row {
  opcode : string;
  execType : ExecutionType;
  syntax : string;
  access : ascii;
  memLength : Z;
  bytesKey : string;
  rowBytes : Z
}.

(** *** RV32I *)

Definition rv32i_alu : list Row :=
  [
   row "addi" IntBase "WR" NUL 0 "addi" 4;
   row "slti" IntBase "WR" NUL 0 "slti" 4;
   row "sltiu" IntBase "WR" NUL 0 "sltiu" 4;
   row "andi" IntBase "WR" NUL 0 "andi" 4;
   row "ori" IntBase "WR" NUL 0 "ori" 4;
   row "xori" IntBase "WR" NUL 0 "xori" 4;
   row "slli" IntBase "WR" NUL 0 "slli" 4;
   row "srli" IntBase "WR" NUL 0 "srli" 4;
   row "srai" IntBase "WR" NUL 0 "srai" 4;
   row "lui" IntBase "W" NUL 0 "lui" 4;
   row "auipc" IntBase "W" NUL 0 "auipc" 4;
   row "add" IntBase "WRR" NUL 0 "add" 4;
   row "slt" IntBase "WRR" NUL 0 "slt" 4;
   row "sltu" IntBase "WRR" NUL 0 "sltu" 4;
   row "and" IntBase "WRR" NUL 0 "and" 4;
   row "or" IntBase "WRR" NUL 0 "or" 4;
   row "xor" IntBase "WRR" NUL 0 "xor" 4;
   row "sll" IntBase "WRR" NUL 0 "sll" 4;
   row "srl" IntBase "WRR" NUL 0 "srl" 4;
   row "sub" IntBase "WRR" NUL 0 "sub" 4;
   row "sra" IntBase "WRR" NUL 0 "sra" 4].

Definition rv32i_branch_memory : list Row :=
  [
   row "jal" BranchUncond "W" NUL 0 "jal" 4;
   row "jalr" BranchUncond "WR" NUL 0 "jalr" 4;
   row "beq" BranchCond "RR" NUL 0 "beq" 4;
   row "bne" BranchCond "RR" NUL 0 "bne" 4;
   row "blt" BranchCond "RR" NUL 0 "blt" 4;
   row "bltu" BranchCond "RR" NUL 0 "bltu" 4;
   row "bge" BranchCond "RR" NUL 0 "bge" 4;
   row "bgeu" BranchCond "RR" NUL 0 "bgeu" 4;
   row "lb" Load "WR" "L" 1 "lb" 4;
   row "lbu" Load "WR" "L" 1 "lbu" 4;
   row "lh" Load "WR" "L" 2 "lh" 4;
   row "lhu" Load "WR" "L" 2 "lhu" 4;
   row "lw" Load "WR" "L" 4 "lw" 4;
   row "sb" Store "RR" "S" 1 "sb" 4;
   row "sh" Store "RR" "S" 2 "sh" 4;
   row "sw" Store "RR" "S" 4 "sw" 4].

Definition rv32i_system : list Row :=
  [
   row "fence" Other "WR" NUL 0 "fence" 4;
   row "fence_i" Other "" NUL 0 "fence_i" 4;
   row "csrrw" Other "WRR" NUL 0 "csrrw" 4;
   row "csrrs" Other "WRR" NUL 0 "csrrs" 4;
   row "csrrc" Other "WRR" NUL 0 "csrrc" 4;
   row "csrrwi" Other "WR" NUL 0 "csrrwi" 4;
   row "csrrsi" Other "WR" NUL 0 "csrrsi" 4;
   row "csrrci" Other "WR" NUL 0 "csrrci" 4;
   row "ecall" Syscall "" NUL 0 "ecall" 4;
   row "ebreak" Other "" NUL 0 "ebreak" 4].

(** *** RV64I *)

Definition rv64i : list Row :=
  [
   row "addiw" IntBase "WR" NUL 0 "addiw" 4;
   row "slliw" IntBase "WR" NUL 0 "slliw" 4;
   row "srliw" IntBase "WR" NUL 0 "srliw" 4;
   row "sraiw" IntBase "WR" NUL 0 "sraiw" 4;
   row "addw" IntBase "WRR" NUL 0 "addw" 4;
   row "sllw" IntBase "WRR" NUL 0 "sllw" 4;
   row "srlw" IntBase "WRR" NUL 0 "srlw" 4;
   row "subw" IntBase "WRR" NUL 0 "subw" 4;
   row "sraw" IntBase "WRR" NUL 0 "sraw" 4;
   row "ld" Load "WR" "L" 8 "ld" 4;
   row "lwu" Load "WR" "L" 4 "lwu" 4;
   row "sd" Store "RR" "S" 8 "sd" 4].

(** *** RVM *)

Definition rvm : list Row :=
  [
   row "mul" IntMul "WRR" NUL 0 "mul" 4;
   row "mulh" IntMul "WRR" NUL 0 "mulh" 4;
   row "mulhsu" IntMul "WRR" NUL 0 "mulhsu" 4;
   row "mulhu" IntMul "WRR" NUL 0 "mulhu" 4;
   row "mulw" IntMul "WRR" NUL 0 "mulw" 4;
   row "div" IntDiv "WRR" NUL 0 "div" 4;
   row "divu" IntDiv "WRR" NUL 0 "divu" 4;
   row "rem" IntDiv "WRR" NUL 0 "rem" 4;
   row "remu" IntDiv "WRR" NUL 0 "remu" 4;
   row "divw" IntDiv "WRR" NUL 0 "divw" 4;
   row "divuw" IntDiv "WRR" NUL 0 "divuw" 4;
   row "remw" IntDiv "WRR" NUL 0 "remw" 4;
   row "remuw" IntDiv "WRR" NUL 0 "remuw" 4].

(** *** RVA *)

Definition rva : list Row :=
  [
   row "lr_w" Atomic "WR" "L" 4 "lr_w" 4;
   row "lr_d" Atomic "WR" "L" 8 "lr_d" 4;
   row "sc_w" Atomic "WRR" "S" 4 "sc_w" 4;
   row "sc_d" Atomic "WRR" "S" 8 "sc_d" 4;
   row "amoswap_w" Atomic "WRR" "A" 4 "amoswap_w" 4;
   row "amoswap_d" Atomic "WRR" "A" 8 "amoswap_d" 4;
   row "amoadd_w" Atomic "WRR" "A" 4 "amoadd_w" 4;
   row "amoadd_d" Atomic "WRR" "A" 8 "amoadd_d" 4;
   row "amoand_w" Atomic "WRR" "A" 4 "amoand_w" 4;
   row "amoand_d" Atomic "WRR" "A" 8 "amoand_d" 4;
   row "amoor_w" Atomic "WRR" "A" 4 "amoor_w" 4;
   row "amoor_d" Atomic "WRR" "A" 8 "amoor_d" 4;
   row "amoxor_w" Atomic "WRR" "A" 4 "amoxor_w" 4;
   row "amoxor_d" Atomic "WRR" "A" 8 "amoxor_d" 4;
   row "amomax_w" Atomic "WRR" "A" 4 "amomax_w" 4;
   row "amomax_d" Atomic "WRR" "A" 8 "amomax_d" 4;
   row "amomaxu_w" Atomic "WRR" "A" 4 "amomaxu_w" 4;
   row "amomaxu_d" Atomic "WRR" "A" 8 "amomaxu_d" 4;
   row "amomin_w" Atomic "WRR" "A" 4 "amomin_w" 4;
   row "amomin_d" Atomic "WRR" "A" 8 "amomin_d" 4;
   row "amominu_w" Atomic "WRR" "A" 4 "amominu_w" 4;
   row "amominu_d" Atomic "WRR" "A" 8 "amominu_d" 4].

(** *** RVF *)

Definition rvf_compute : list Row :=
  [
   row "flw" Load "WR" "L" 4 "flw" 4;
   row "fsw" Store "RR" "S" 4 "fsw" 4;
   row "fadd_s" FpBase "WRR" NUL 0 "fadd_s" 4;
   row "fsub_s" FpBase "WRR" NUL 0 "fsub_s" 4;
   row "fmin_s" FpBase "WRR" NUL 0 "fmin_s" 4;
   row "fmax_s" FpBase "WRR" NUL 0 "fmax_s" 4;
   row "fmul_s" FpMul "WRR" NUL 0 "fmul_s" 4;
   row "fdiv_s" FpDiv "WRR" NUL 0 "fdiv_s" 4;
   row "fsqrt_s" FpDiv "WR" NUL 0 "fsqrt_s" 4;
   row "fmadd_s" FpMul "WRRR" NUL 0 "fmadd_s" 4;
   row "fnmadd_s" FpMul "WRRR" NUL 0 "fnmadd_s" 4;
   row "fmsub_s" FpMul "WRRR" NUL 0 "fmsub_s" 4;
   row "fnmsub_s" FpMul "WRRR" NUL 0 "fnmsub_s" 4].

Definition rvf_convert : list Row :=
  [
   row "fcvt_w_s" FpBase "WR" NUL 0 "fcvt_w_s" 4;
   row "fcvt_wu_s" FpBase "WR" NUL 0 "fcvt_wu_s" 4;
   row "fcvt_l_s" FpBase "WR" NUL 0 "fcvt_l_s" 4;
   row "fcvt_lu_s" FpBase "WR" NUL 0 "fcvt_lu_s" 4;
   row "fcvt_s_w" FpBase "WR" NUL 0 "fcvt_s_w" 4;
   row "fcvt_s_wu" FpBase "WR" NUL 0 "fcvt_s_wu" 4;
   row "fcvt_s_l" FpBase "WR" NUL 0 "fcvt_s_l" 4;
   row "fcvt_s_lu" FpBase "WR" NUL 0 "fcvt_s_lu" 4;
   row "fsgnj_s" FpBase "WRR" NUL 0 "fsgnj_s" 4;
   row "fsgnjn_s" FpBase "WRR" NUL 0 "fsgnjn_s" 4;
   row "fsgnjx_s" FpBase "WRR" NUL 0 "fsgnjx_s" 4;
   row "fmv_x_s" FpBase "WR" NUL 0 "fmv_x_s" 4;
   row "fmv_s_x" FpBase "WR" NUL 0 "fmv_s_x" 4;
   row "flt_s" FpBase "WRR" NUL 0 "flt_s" 4;
   row "fle_s" FpBase "WRR" NUL 0 "fle_s" 4;
   row "feq_s" FpBase "WRR" NUL 0 "feq_s" 4;
   row "fclass_s" FpBase "WR" NUL 0 "fclass_s" 4].

(** *** RVD *)

Definition rvd_compute : list Row :=
  [
   row "fld" Load "WR" "L" 8 "fld" 4;
   row "fsd" Store "RR" "S" 8 "fsd" 4;
   row "fadd_d" FpBase "WRR" NUL 0 "fadd_d" 4;
   row "fsub_d" FpBase "WRR" NUL 0 "fsub_d" 4;
   row "fmin_d" FpBase "WRR" NUL 0 "" 4;
   row "fmax_d" FpBase "WRR" NUL 0 "fmax_d" 4;
   row "fmul_d" FpMul "WRR" NUL 0 "fmul_d" 4;
   row "fdiv_d" FpDiv "WRR" NUL 0 "fdiv_d" 4;
   row "fsqrt_d" FpDiv "WR" NUL 0 "fsqrt_d" 4;
   row "fmadd_d" FpMul "WRRR" NUL 0 "fmadd_d" 4;
   row "fnmadd_d" FpMul "WRRR" NUL 0 "fnmadd_d" 4;
   row "fmsub_d" FpMul "WRRR" NUL 0 "fmsub_d" 4;
   row "fnmsub_d" FpMul "WRRR" NUL 0 "fnmsub_d" 4].

Definition rvd_convert : list Row :=
  [
   row "fcvt_s_d" FpBase "WR" NUL 0 "fcvt_s_d" 4;
   row "fcvt_d_s" FpBase "WR" NUL 0 "fcvt_d_s" 4;
   row "fcvt_w_d" FpBase "WR" NUL 0 "fcvt_w_d" 4;
   row "fcvt_wu_d" FpBase "WR" NUL 0 "fcvt_wu_d" 4;
   row "fcvt_l_d" FpBase "WR" NUL 0 "fcvt_l_d" 4;
   row "fcvt_lu_d" FpBase "WR" NUL 0 "fcvt_lu_d" 4;
   row "fcvt_d_w" FpBase "WR" NUL 0 "fcvt_d_w" 4;
   row "fcvt_d_wu" FpBase "WR" NUL 0 "fcvt_d_wu" 4;
   row "fcvt_d_l" FpBase "WR" NUL 0 "fcvt_d_l" 4;
   row "fcvt_d_lu" FpBase "WR" NUL 0 "fcvt_d_lu" 4;
   row "fsgnj_d" FpBase "WRR" NUL 0 "fsgnj_d" 4;
   row "fsgnjn_d" FpBase "WRR" NUL 0 "fsgnjn_d" 4;
   row "fsgnjx_d" FpBase "WRR" NUL 0 "fsgnjx_d" 4;
   row "fmv_x_d" FpBase "WR" NUL 0 "fmv_x_d" 4;
   row "fmv_d_x" FpBase "WR" NUL 0 "fmv_d_x" 4;
   row "fclass_d" FpBase "WR" NUL 0 "fclass_d" 4;
   row "flt_d" FpBase "WRR" NUL 0 "flt_d" 4;
   row "fle_d" FpBase "WRR" NUL 0 "fle_d" 4;
   row "feq_d" FpBase "WRR" NUL 0 "feq_d" 4].

(** *** RVC *)

Definition rvc_memory : list Row :=
  [
   row "c_lwsp" Load "WR" "L" 4 "c_lwsp" 2;
   row "c_ldsp" Load "WR" "L" 8 "c_ldsp" 2;
   row "c_fldsp" Load "WR" "L" 8 "c_fldsp" 2;
   row "c_swsp" Store "RR" "S" 4 "c_swsp" 2;
   row "c_sdsp" Store "RR" "S" 8 "c_sdsp" 2;
   row "c_fsdsp" Store "RR" "S" 8 "c_fsdsp" 2;
   row "c_lw" Load "WR" "L" 4 "c_lw" 2;
   row "c_ld" Load "WR" "L" 8 "c_ld" 2;
   row "c_fld" Load "WR" "L" 8 "c_fld" 2;
   row "c_sw" Store "RR" "S" 4 "c_sw" 2;
   row "c_sd" Store "RR" "S" 8 "c_sd" 2;
   row "c_fsd" Store "RR" "S" 8 "c_fsd" 2].

Definition rvc_compute : list Row :=
  [
   row "c_j" BranchUncond "W" NUL 0 "c_j" 2;
   row "c_jr" BranchUncond "WR" NUL 0 "c_jr" 2;
   row "c_jalr" BranchUncond "WR" NUL 0 "c_jalr" 2;
   row "c_beqz" BranchCond "RR" NUL 0 "c_beqz" 2;
   row "c_bnez" BranchCond "RR" NUL 0 "c_bnez" 2;
   row "c_li" IntBase "WR" NUL 0 "c_li" 2;
   row "c_lui" IntBase "W" NUL 0 "c_lui" 2;
   row "c_addi" IntBase "WR" NUL 0 "c_addi" 2;
   row "c_addiw" IntBase "WR" NUL 0 "c_addiw" 2;
   row "c_addi16sp" IntBase "WR" NUL 0 "c_addi16sp" 2;
   row "c_addi4spn" IntBase "WR" NUL 0 "c_addi4spn" 2;
   row "c_slli" IntBase "WR" NUL 0 "c_slli" 2;
   row "c_srli" IntBase "WR" NUL 0 "c_srli" 2;
   row "c_srai" IntBase "WR" NUL 0 "c_srai" 2;
   row "c_andi" IntBase "WR" NUL 0 "c_andi" 2;
   row "c_mv" IntBase "WRR" NUL 0 "c_mv" 2;
   row "c_add" IntBase "WRR" NUL 0 "c_add" 2;
   row "c_and" IntBase "WRR" NUL 0 "c_and" 2;
   row "c_or" IntBase "WRR" NUL 0 "c_or" 2;
   row "c_xor" IntBase "WRR" NUL 0 "c_xor" 2;
   row "c_sub" IntBase "WRR" NUL 0 "c_sub" 2;
   row "c_addw" IntBase "WRR" NUL 0 "c_addw" 2;
   row "c_subw" IntBase "WRR" NUL 0 "c_subw" 2;
   row "c_nop" IntBase "WR" NUL 0 "c_nop" 2;
   row "c_ebreak" Other "" NUL 0 "c_ebreak" 2].

(** *** RVN *)

Definition rvn : list Row :=
  [
   row "uret" Other "" NUL 0 "uret" 4;
   row "sret" Other "" NUL 0 "sret" 4;
   row "mret" Other "" NUL 0 "mret" 4].

(** ** The five maps *)

Definition rows : list Row :=
  rv32i_alu ++ rv32i_branch_memory ++ rv32i_system ++ rv64i ++ rvm ++ rva ++ rvf_compute ++
  rvf_convert ++ rvd_compute ++ rvd_convert ++ rvc_memory ++ rvc_compute ++ rvn.

Definition column {V} (key : Row -> string) (f : Row -> V) : gmap string V :=
  assign ((fun r => (key r, f r)) <$> rows).
Definition opcodeToTypeMap : gmap string ExecutionType := column opcode execType.
Definition syntaxMap : gmap string string := column opcode syntax.
Definition memAccessMap : gmap string ascii := column opcode access.
Definition memLengthMap : gmap string Z := column opcode memLength.
Definition bytesMap : gmap string Z := column bytesKey rowBytes.

(** [operator[]] of a map makes an entry with the value 0 for a key it does not
    find; looking the key up again gives the same value, so the entry is left out. *)
Definition at_key {V} (d : V) (m : gmap string V) (k : string) : V := default d (m !! k).

(** [syntaxMap[opcode][i]]: [strncpy] fills the array with zeros. *)
Definition char_at (s : string) (i : nat) : ascii := default NUL (String.get i s).
Definition syntax_at (op : string) (i : nat) : ascii := char_at (at_key "" syntaxMap op) i.

End CalT.

#[global] Arguments CalT.regMap : simpl never.
#[global] Arguments CalT.opcodeToTypeMap : simpl never.
#[global] Arguments CalT.syntaxMap : simpl never.
#[global] Arguments CalT.memAccessMap : simpl never.
#[global] Arguments CalT.memLengthMap : simpl never.
#[global] Arguments CalT.bytesMap : simpl never.
