(* ===== verification/CalipersStream.v ===== *)
(** * The RISC-V trace stream of Calipers

    infras/calipers/src/trace/riscv_stream.cpp: [RiscvStream::next] and the parsers
    it calls.  A trace has for each instruction a line [@I pc opcode operands], with
    [@A address] at its end for a memory access, followed by the cycles of its fetch
    ([@F]), the outcome of its branch prediction ([@B]) and the cycles of its memory
    access ([@M]), as far as the configuration takes them from the trace.

    A position in a line is the text from there on; [None] is [npos].  The stream
    hands out one [Instruction] object again and again; fields a line does not set
    keep what an earlier line or the constructor left in them. *)

From stdpp Require Import strings.
From S2P Require Import Prelude Machine External TraceParse CalipersCycles CalipersScoreboard.
From S2P Require Import CalipersO3 CalipersOpcodes.

#[local] Open Scope string_scope.
#[local] Open Scope list_scope.
#[local] Open Scope Z_scope.

(** ** Conversions *)

(** Sign and magnitude of the hexadecimal number at the front of a string, as
    [strtoull] reads it with base 16: [0x] is skipped if a digit follows. *)
Definition skip_0x (s : string) : string :=
  match s with
  | String "0" (String x s') =>
      if (Ascii.eqb x "x" || Ascii.eqb x "X") && starts_digit hex_val s' then s' else s
  | _ => s
  end.
Definition strto16 (s : string) : option (bool * Z) :=
  let '(neg, s) := sign (lstrip s) in
  let s := skip_0x s in
  if starts_digit hex_val s then Some (neg, digits hex_val 16 0 s) else None.

(** [stoull(s, NULL, 16)]. *)
Definition stoull16 (s : string) : res Z :=
  match strto16 s with
  | None => Stop Uncaught
  | Some (neg, v) =>
      if v <? 2 ^ 64 then Ok (u64 (if neg : bool then - v else v)) else Stop Uncaught
  end.

(** [unsigned long] has 64 bits. *)
Definition stoul (s : string) : res Z := stoull s.

Module CalR.
Import CalG CalS CalO CalT.

Definition TICKS_PER_CYCLE : Z := 1.
Definition MAX_REG_RD : nat := 3.
Definition MAX_REG_WR : nat := 1.
Definition MAX_OPERANDS : nat := MAX_REG_RD + MAX_REG_WR.

(** ** Words of a line *)

(** [str.find(c)] and [str.substr]. *)
Definition first_char (s : string) : ascii := char_at s 0.
Definition last_char (s : string) : ascii := char_at s (String.length s - 1).

(** What is left of a word: the text in parentheses, or the word without a comma
    at its end.  The end of an empty word lies outside the string. *)
Definition trim_word (str : string) : res string :=
  match find_char "(" str with
  | Some pos =>
      let inner := drop_str (S pos) str in
      Ok match find_char ")" str with
         | Some next_pos =>
             if (pos <? next_pos)%nat then take_str (next_pos - pos - 1) inner else inner
         | None => inner
         end
  | None =>
      if String.eqb str "" then Stop Undefined
      else if Ascii.eqb (last_char str) "," then Ok (take_str (String.length str - 1) str)
      else Ok str
  end.

Definition parseNext (current : option string) : res (string * option string) :=
  match current with
  | None => Ok ("", None)
  | Some text =>
      let '(str, current') :=
        match find_char " " text with
        | None => (text, None)
        | Some pos => (take_str pos text, Some (drop_str (S pos) text))
        end in
      w ← trim_word str;
      Ok (w, current')
  end.

(** The text after [@I ], [@F ], [@B ] or [@M ]. *)
Definition line_start (line : string) : option string := Some (drop_str 3 line).

(** ** An instruction line *)

Definition is_lower (c : ascii) : bool :=
  let n := Ascii.nat_of_ascii c in (97 <=? n)%nat && (n <=? 122)%nat.

(** The loop that collects the operands: [n] more are wanted.  The result is the
    operands that begin with a letter, whether [@] was met, and the position.  Each
    round that collects nothing moves on in the line, so the length of the line is
    enough fuel. *)
Fixpoint operand_loop (fuel n : nat) (current : option string)
    : res (list string * bool * option string) :=
  match n, fuel with
  | O, _ => Ok ([], false, current)
  | S _, O => Stop OutOfFuel
  | S n', S fuel' =>
      '(operand, current') ← parseNext current;
      if String.eqb operand "" then Ok ([], false, current')
      else if is_lower (first_char operand) then
        '(ops, acc, c) ← operand_loop fuel' n' current';
        Ok (operand :: ops, acc, c)
      else if Ascii.eqb (first_char operand) "@" then Ok ([], true, current')
      else operand_loop fuel' n current'
  end.
Definition read_operands (current : option string) : res (list string * bool * option string) :=
  let fuel := match current with Some t => S (S (String.length t)) | None => 1%nat end in
  operand_loop fuel MAX_OPERANDS current.

(** The registers the operands write and read, from operand number [i] on; the two
    arrays have room for one and for three. *)
Fixpoint registers (op : string) (i : nat) (ops : list string) (wr rd : list Z)
    : res (list Z * list Z) :=
  match ops with
  | [] => Ok (wr, rd)
  | name :: ops' =>
      let operand := at_key 0 regMap name in
      if operand =? IntReg.int_num IntReg.zero then registers op (S i) ops' wr rd
      else if Ascii.eqb (syntax_at op i) "W" then
        if (List.length wr <? MAX_REG_WR)%nat then registers op (S i) ops' (wr ++ [operand]) rd
        else Stop Undefined
      else if Ascii.eqb (syntax_at op i) "R" then
        if (List.length rd <? MAX_REG_RD)%nat then registers op (S i) ops' wr (rd ++ [operand])
        else Stop Undefined
      else Stop ErrorExit
  end.

(** The memory accesses: count, base and length of the load and of the store. *)
Definition set_access (i : Instruction) (lc lb ll sc sb sl : Z) : Instruction :=
  mkInstruction (pc i) (bytes i) (fetchCycles i) (i_lsCycles i) (i_mispredicted i)
    (i_executionType i) (regRead i) (regWrite i) lc lb ll sc sb sl.
Definition memory_access (i : Instruction) (op : string) (mem_accessed : bool) (mem_address : string)
    : res Instruction :=
  if mem_accessed then
    let mem_access := at_key NUL memAccessMap op in
    let len := at_key 0 memLengthMap op in
    if Ascii.eqb mem_access NUL then Stop ErrorExit
    else if Ascii.eqb mem_access "L" then
      base ← stoull16 mem_address;
      Ok (set_access i 1 base len 0 (memStoreBase i) (memStoreLength i))
    else if Ascii.eqb mem_access "S" then
      base ← stoull16 mem_address;
      Ok (set_access i 0 (memLoadBase i) (memLoadLength i) 1 base len)
    else if Ascii.eqb mem_access "A" then
      base ← stoull16 mem_address;
      Ok (set_access i 1 base len 1 base len)
    else Stop ErrorExit
  else
    Ok (set_access i 0 (memLoadBase i) (memLoadLength i) 0 (memStoreBase i) (memStoreLength i)).

Definition ExecutionType_is (a b : ExecutionType) : bool :=
  match a, b with
  | Atomic, Atomic | Load, Load | Store, Store => true
  | _, _ => false
  end.

Definition parseInstr (i : Instruction) (line : string) : res Instruction :=
  '(pc_text, c) ← parseNext (line_start line);
  '(op, c) ← parseNext c;
  '(ops, mem_accessed, c) ← read_operands c;
  '(address, _) ← (if mem_accessed : bool then parseNext c else Ok ("", c));
  match opcodeToTypeMap !! op with
  | None => Stop ErrorExit
  | Some t =>
      pc' ← stoull16 pc_text;
      let address := if ExecutionType_is t Atomic then "0xffffffffffffffff" else address in
      '(wr, rd) ← registers op 0 ops [] [];
      memory_access
        (mkInstruction pc' (at_key 0 bytesMap op) (fetchCycles i) (i_lsCycles i) (i_mispredicted i)
           t rd wr (memLoadCount i) (memLoadBase i) (memLoadLength i)
           (memStoreCount i) (memStoreBase i) (memStoreLength i))
        op mem_accessed address
  end.

(** ** The lines that follow it *)

Definition parseBranch (line : string) : res bool :=
  '(prediction, _) ← parseNext (line_start line);
  if Ascii.eqb (first_char prediction) "0" then Ok true
  else if Ascii.eqb (first_char prediction) "1" then Ok false
  else Stop ErrorExit.

Definition parseMemoryCycles (line : string) : res Z :=
  '(cycles, _) ← parseNext (line_start line);
  num ← stoul cycles;
  Ok (u32 (num / TICKS_PER_CYCLE)).

Definition parseFetchCycles (line : string) : res Z :=
  '(cycles, _) ← parseNext (line_start line);
  num ← stoul cycles;
  Ok (u32 (num / TICKS_PER_CYCLE)).

(** The text for the drawing. *)
Definition get_inst (line : string) : string :=
  let after := drop_str 3 line in
  let temp := match find_char " " after with Some pos => drop_str (S pos) after | None => line end in
  let temp := match find_char "@" temp with Some pos => take_str pos temp | None => temp end in
  lstrip (rstrip temp).

(** ** The stream *)

Record RiscvStream := mkRiscv {
  traceFile : list string;
  traceBP : bool;
  traceICache : bool;
  traceDCache : bool;
  instr : Instruction;
  inst : string;
  lastInstrLine : string;
  readFromFile : bool
}.

(** The stream after its trace has been opened; [mem] is what the instruction holds
    before its fields are set. *)
Definition RiscvStream_new (mem : Instruction) (lines : list string) (trace_bp trace_icache trace_dcache : bool)
    : RiscvStream :=
  mkRiscv lines trace_bp trace_icache trace_dcache mem "" "" true.

(** [getline]: at the end of the file the line is empty. *)
Definition getline (lines : list string) : string * list string :=
  match lines with [] => ("", []) | line :: rest => (line, rest) end.

Definition set_fetchCycles (i : Instruction) (x : Z) : Instruction :=
  mkInstruction (pc i) (bytes i) x (i_lsCycles i) (i_mispredicted i) (i_executionType i) (regRead i)
    (regWrite i) (memLoadCount i) (memLoadBase i) (memLoadLength i) (memStoreCount i)
    (memStoreBase i) (memStoreLength i).
Definition set_lsCycles (i : Instruction) (x : Z) : Instruction :=
  mkInstruction (pc i) (bytes i) (fetchCycles i) x (i_mispredicted i) (i_executionType i) (regRead i)
    (regWrite i) (memLoadCount i) (memLoadBase i) (memLoadLength i) (memStoreCount i)
    (memStoreBase i) (memStoreLength i).
Definition set_mispredicted (i : Instruction) (x : bool) : Instruction :=
  mkInstruction (pc i) (bytes i) (fetchCycles i) (i_lsCycles i) x (i_executionType i) (regRead i)
    (regWrite i) (memLoadCount i) (memLoadBase i) (memLoadLength i) (memStoreCount i)
    (memStoreBase i) (memStoreLength i).

(** The lines after an instruction line, each read if the trace provides it. *)
Definition read_fetch (on : bool) (i : Instruction) (lines : list string)
    : res (Instruction * list string) :=
  if on then
    let '(fetch_line, lines) := getline lines in
    if String.prefix "@F " fetch_line then
      x ← parseFetchCycles fetch_line;
      Ok (set_fetchCycles i x, lines)
    else Stop ErrorExit
  else Ok (i, lines).
Definition read_branch (on : bool) (i : Instruction) (lines : list string)
    : res (Instruction * list string) :=
  if on then
    let '(branch_line, lines) := getline lines in
    if String.prefix "@B " branch_line then
      x ← parseBranch branch_line;
      Ok (set_mispredicted i x, lines)
    else Stop ErrorExit
  else Ok (i, lines).

Definition accesses_memory (t : ExecutionType) : bool :=
  ExecutionType_is t Load || ExecutionType_is t Store || ExecutionType_is t Atomic.

(** A missing [@M] line is put back, to be the first line of the next call. *)
Definition read_memory (on : bool) (i : Instruction) (lines : list string)
    : res (Instruction * list string * option string) :=
  if on && accesses_memory (i_executionType i) then
    let '(mem_line, lines) := getline lines in
    if String.prefix "@M " mem_line then
      x ← parseMemoryCycles mem_line;
      Ok (set_lsCycles i x, lines, None)
    else Ok (set_lsCycles i 1, lines, Some mem_line)
  else Ok (i, lines, None).

(** The branch of [next] for an instruction line. *)
Definition read_instr (s : RiscvStream) (line : string) (rest : list string)
    : res (option Instruction * RiscvStream) :=
  i ← parseInstr (instr s) line;
  '(i, rest) ← read_fetch (traceICache s) i rest;
  '(i, rest) ← read_branch (traceBP s) i rest;
  '(i, rest, put_back) ← read_memory (traceDCache s) i rest;
  Ok (Some i, mkRiscv rest (traceBP s) (traceICache s) (traceDCache s) i (get_inst line)
                (default line put_back) (match put_back with Some _ => false | None => true end)).

(** The loop over lines without an instruction; it ends because each round uses up
    a line. *)
Fixpoint next_loop (s : RiscvStream) (lines : list string) : res (option Instruction * RiscvStream) :=
  match lines with
  | [] => Ok (None, mkRiscv [] (traceBP s) (traceICache s) (traceDCache s) (instr s) (inst s)
                      (lastInstrLine s) true)
  | line :: rest =>
      if String.prefix "@I " line then read_instr s line rest
      else if String.prefix "@F" line || String.prefix "@B" line || String.prefix "@M" line
      then next_loop s rest
      else Stop ErrorExit
  end.

(** [RiscvStream::next]; [None] is the null pointer. *)
Definition next (s : RiscvStream) : res (option Instruction * RiscvStream) :=
  if readFromFile s then next_loop s (traceFile s)
  else if String.eqb (lastInstrLine s) "" then
    Ok (None, mkRiscv (traceFile s) (traceBP s) (traceICache s) (traceDCache s) (instr s) (inst s)
                (lastInstrLine s) true)
  else next_loop s (lastInstrLine s :: traceFile s).

End CalR.
