(* ===== verification/CalipersStreamFacts.v ===== *)
(** * Facts about the trace stream

    The words of a line, what the tables say about opcodes and registers, and the
    reading of one instruction line that was printed from its parts. *)

From stdpp Require Import strings pretty.
From S2P Require Import Prelude Machine External TraceParse ParseFacts CalipersCycles.
From S2P Require Import CalipersScoreboard CalipersO3 CalipersOpcodes CalipersStream.

#[local] Open Scope string_scope.
#[local] Open Scope list_scope.
#[local] Open Scope Z_scope.

Import CalG CalS CalO CalT CalR.

(** ** Words *)

(** The words of a text, split at every blank. *)
Fixpoint words_of (s : string) : string * list string :=
  match s with
  | "" => ("", [])
  | String c s' =>
      let '(w, ws) := words_of s' in
      if Ascii.eqb c " " then ("", w :: ws) else (String c w, ws)
  end.
Definition words (s : string) : list string := let '(w, ws) := words_of s in w :: ws.
Definition view (c : option string) : list string :=
  match c with None => [] | Some t => words t end.

Lemma words_find text :
  words text =
  match find_char " " text with
  | None => [text]
  | Some pos => take_str pos text :: words (drop_str (S pos) text)
  end.
Proof.
  unfold words. induction text as [|c s IH]; [done|]. cbn [words_of find_char].
  destruct (words_of s) as [w ws] eqn:E. destruct (Ascii.eqb c " ").
  - cbn [take_str]. change (drop_str 1 (String c s)) with s. by rewrite E.
  - destruct (find_char " " s) as [pos|]; cbn [fmap option_fmap option_map take_str].
    + change (drop_str (S (S pos)) (String c s)) with (drop_str (S pos) s).
      destruct (words_of (drop_str (S pos) s)). by injection IH as -> ->.
    + by injection IH as -> ->.
Qed.

(** [parseNext] takes the first word that is left. *)
Definition parse_words (ws : list string) : res (string * list string) :=
  match ws with
  | [] => Ok ("", [])
  | w :: ws' => x ← trim_word w; Ok (x, ws')
  end.
Definition same_words {A} (r1 : res (A * option string)) (r2 : res (A * list string)) : Prop :=
  match r1, r2 with
  | Ok (x, c), Ok (y, ws) => x = y /\ view c = ws
  | Stop e, Stop e' => e = e'
  | _, _ => False
  end.

Lemma parseNext_words c : same_words (parseNext c) (parse_words (view c)).
Proof.
  destruct c as [text|]; [|by split]. cbn [view parseNext]. rewrite words_find.
  destruct (find_char " " text) as [pos|]; cbn [parse_words];
    by destruct (trim_word _); cbn.
Qed.

Lemma parseNext_view c w ws :
  view c = w :: ws ->
  (exists e, trim_word w = Stop e /\ parseNext c = Stop e) \/
  (exists x c', trim_word w = Ok x /\ parseNext c = Ok (x, c') /\ view c' = ws).
Proof.
  intros Hv. pose proof (parseNext_words c) as H. rewrite Hv in H. cbn [parse_words] in H.
  destruct (trim_word w) as [x|e]; cbn [mbind res_bind same_words] in H;
    destruct (parseNext c) as [[y c']|e']; try done; [right|left].
  - destruct H as [-> ?]. by exists x, c'.
  - cbn in H. subst. by eexists.
Qed.
Lemma parseNext_end c : view c = [] -> parseNext c = Ok ("", None).
Proof. destruct c as [t|]; [|done]. cbn. unfold words. by destruct (words_of t). Qed.

(** The operand loop over words. *)
Fixpoint operand_words (n : nat) (ws : list string) : res (list string * bool * list string) :=
  match n, ws with
  | O, _ => Ok ([], false, ws)
  | S _, [] => Ok ([], false, [])
  | S n', w :: ws' =>
      operand ← trim_word w;
      if String.eqb operand "" then Ok ([], false, ws')
      else if is_lower (first_char operand) then
        '(ops, acc, r) ← operand_words n' ws';
        Ok (operand :: ops, acc, r)
      else if Ascii.eqb (first_char operand) "@" then Ok ([], true, ws')
      else operand_words n ws'
  end.

Lemma operand_loop_words fuel n c :
  (List.length (view c) < fuel)%nat -> same_words (operand_loop fuel n c) (operand_words n (view c)).
Proof.
  revert n c. induction fuel as [|fuel IH]; intros n c Hf; [lia|].
  destruct n as [|n]; cbn [operand_loop]; [destruct (view c) eqn:E; by split|].
  destruct (view c) as [|w ws] eqn:Hv.
  - rewrite (parseNext_end c Hv). by split.
  - cbn [operand_words].
    destruct (parseNext_view c w ws Hv) as [(e & -> & ->)|(x & c' & -> & -> & Hv')]; [done|].
    cbn [mbind res_bind]. destruct (String.eqb x ""); [done|]. cbn in Hf.
    destruct (is_lower (first_char x)).
    + specialize (IH n c'). rewrite Hv' in IH. specialize (IH ltac:(lia)).
      destruct (operand_loop fuel n c') as [[[ops acc] d]|], (operand_words n ws) as [[[ops' acc'] r]|];
        try done. cbn in *. destruct IH as [[= -> ->] ->]. done.
    + destruct (Ascii.eqb (first_char x) "@"); [done|].
      specialize (IH (S n) c'). rewrite Hv' in IH. apply IH. lia.
Qed.

Lemma words_length s : (List.length (words s) <= S (String.length s))%nat.
Proof.
  unfold words. induction s as [|c s IH]; [done|]. cbn [words_of].
  destruct (words_of s) as [w ws]. destruct (Ascii.eqb c " "); cbn in *; lia.
Qed.

(** The fuel is enough. *)
Lemma read_operands_words c : same_words (read_operands c) (operand_words MAX_OPERANDS (view c)).
Proof.
  unfold read_operands. apply operand_loop_words. destruct c as [t|]; cbn [view List.length]; [|lia].
  pose proof (words_length t). lia.
Qed.

(** ** Joining words *)

Definition no_blank (w : string) : Prop := ~ char_of " " w.

Lemma words_no_blank w : no_blank w -> words w = [w].
Proof. intros Hw. by rewrite words_find, find_char_none. Qed.

Lemma take_str_app s1 s2 : take_str (String.length s1) (s1 +:+ s2) = s1.
Proof.
  induction s1 as [|d s1 IH]; [by destruct s2|]. rewrite string_app_cons. cbn. by rewrite IH.
Qed.

Lemma words_app w s : no_blank w -> words (w +:+ String " " s) = w :: words s.
Proof.
  intros Hw. rewrite words_find, find_char_app by done. rewrite take_str_app.
  change (drop_str (S (String.length w)) (w +:+ String " " s)) with
    (drop_str (S (String.length w)) (w +:+ String " " "" +:+ s)).
  f_equal. f_equal. rewrite <- string_app_assoc.
  replace (S (String.length w)) with (String.length (w +:+ String " " ""));
    [apply drop_str_app|]. clear. induction w as [|c w IH]; [done|].
  rewrite string_app_cons. cbn. by rewrite IH.
Qed.

Lemma words_join ws :
  ws <> [] -> Forall no_blank ws -> words (String.concat (String " " "") ws) = ws.
Proof.
  induction ws as [|w [|w' ws] IH]; [done|..].
  - intros _ [Hw _]%Forall_cons. by apply words_no_blank.
  - intros _ [Hw Hf]%Forall_cons.
    change (String.concat (String " " "") (w :: w' :: ws))
      with (w +:+ String " " (String.concat (String " " "") (w' :: ws))).
    rewrite words_app by done. by rewrite IH.
Qed.

(** ** The tables *)

(** Names of opcodes and registers: a small letter, then small letters, digits and
    underscores. *)
Definition name_char (c : ascii) : bool :=
  let n := Ascii.nat_of_ascii c in
  is_lower c || Ascii.eqb c "_" || ((48 <=? n)%nat && (n <=? 57)%nat).
Definition is_name (s : string) : bool :=
  is_lower (first_char s) && forallb name_char (String.list_ascii_of_string s).

(** How many of the first [n] operands of an opcode are marked [c]. *)
Definition marks (c : ascii) (op : string) (n : nat) : nat :=
  List.length (filter (fun j => syntax_at op j = c) (seq 0 n)).

Definition access_ok (t : ExecutionType) (acc : ascii) (len : Z) : bool :=
  match t with
  | Load => Ascii.eqb acc "L"
  | Store => Ascii.eqb acc "S"
  | Atomic => Ascii.eqb acc "L" || Ascii.eqb acc "S" || Ascii.eqb acc "A"
  | Invalid => false
  | _ => Ascii.eqb acc NUL && (len =? 0)
  end && (if accesses_memory t then existsb (Z.eqb len) [1; 2; 4; 8] else true).

Definition entry_ok (op : string) (t : ExecutionType) : bool :=
  let n := String.length (at_key "" syntaxMap op) in
  is_name op &&
  (marks "W" op MAX_OPERANDS <=? MAX_REG_WR)%nat && (marks "R" op MAX_OPERANDS <=? MAX_REG_RD)%nat &&
  forallb (fun j => Ascii.eqb (syntax_at op j) "W" || Ascii.eqb (syntax_at op j) "R") (seq 0 n) &&
  (n <=? if accesses_memory t then MAX_REG_RD else MAX_OPERANDS)%nat &&
  access_ok t (at_key NUL memAccessMap op) (at_key 0 memLengthMap op) &&
  bool_decide (is_Some (syntaxMap !! op) /\ is_Some (memAccessMap !! op) /\ is_Some (memLengthMap !! op)) &&
  (if String.eqb op "fmin_d" then at_key 0 bytesMap op =? 0
   else existsb (Z.eqb (at_key 0 bytesMap op)) [2; 4]).

Lemma table_ok op t : opcodeToTypeMap !! op = Some t -> entry_ok op t = true.
Proof.
  revert op t.
  assert (H : bool_decide (map_Forall (fun op t => entry_ok op t = true) opcodeToTypeMap) = true)
    by (vm_compute; reflexivity).
  exact (bool_decide_eq_true_1 _ H).
Qed.

Lemma register_ok r n : regMap !! r = Some n -> is_name r = true /\ 0 <= n < 2 ^ 31.
Proof.
  intros Hr.
  assert (H : bool_decide (map_Forall (fun r n => (is_name r && (0 <=? n) && (n <? 2 ^ 31)) = true)
                             regMap) = true) by (vm_compute; reflexivity).
  apply bool_decide_eq_true_1 in H. specialize (H r n Hr). cbn beta in H. bool_to_prop. split; [done|lia].
Qed.

(** ** Registers of an instruction *)

Lemma marks_S c op n :
  marks c op (S n) = (marks c op n + if decide (syntax_at op n = c) then 1 else 0)%nat.
Proof.
  unfold marks. rewrite seq_S, filter_app, length_app, Nat.add_0_l. f_equal.
  destruct (decide (syntax_at op n = c)); [by rewrite filter_cons_True|by rewrite filter_cons_False].
Qed.
Lemma marks_mono c op n m : (n <= m)%nat -> (marks c op n <= marks c op m)%nat.
Proof. induction 1; [done|]. rewrite marks_S. lia. Qed.

(** The operands that name a register other than zero, and are marked [c]. *)
Fixpoint regs_with (c : ascii) (op : string) (i : nat) (ops : list string) : list Z :=
  match ops with
  | [] => []
  | name :: ops' =>
      let r := at_key 0 regMap name in
      if negb (r =? 0) && Ascii.eqb (syntax_at op i) c then r :: regs_with c op (S i) ops'
      else regs_with c op (S i) ops'
  end.
Fixpoint marked (op : string) (i : nat) (ops : list string) : bool :=
  match ops with
  | [] => true
  | name :: ops' =>
      ((at_key 0 regMap name =? 0) || Ascii.eqb (syntax_at op i) "W" ||
       Ascii.eqb (syntax_at op i) "R") && marked op (S i) ops'
  end.

(** The arrays have room for whatever the syntax of an opcode marks. *)
Lemma registers_go op i ops wr rd :
  (marks "W" op MAX_OPERANDS <= MAX_REG_WR)%nat -> (marks "R" op MAX_OPERANDS <= MAX_REG_RD)%nat ->
  (i + List.length ops <= MAX_OPERANDS)%nat ->
  (List.length wr <= marks "W" op i)%nat -> (List.length rd <= marks "R" op i)%nat ->
  registers op i ops wr rd =
  if marked op i ops then Ok (wr ++ regs_with "W" op i ops, rd ++ regs_with "R" op i ops)
  else Stop ErrorExit.
Proof.
  intros HW HR. revert i wr rd. induction ops as [|name ops IH]; intros i wr rd Hi Hw Hr;
    cbn [registers marked regs_with].
  - by rewrite !app_nil_r.
  - cbn [List.length] in Hi. pose proof (marks_mono "W" op (S i) MAX_OPERANDS ltac:(lia)) as MW.
    pose proof (marks_mono "R" op (S i) MAX_OPERANDS ltac:(lia)) as MR.
    pose proof (marks_S "W" op i) as SW. pose proof (marks_S "R" op i) as SR.
    change (IntReg.int_num IntReg.zero) with 0.
    destruct (at_key 0 regMap name =? 0) eqn:E0; cbn [negb andb orb].
    { apply IH; lia. }
    destruct (Ascii.eqb_spec (syntax_at op i) "W") as [EW|NW].
    + rewrite decide_True in SW by done. rewrite (proj2 (Nat.ltb_lt _ _)) by lia.
      rewrite EW. cbn [Ascii.eqb Bool.eqb orb andb].
      rewrite IH by (rewrite ?length_app; cbn [List.length]; lia). by rewrite <- app_assoc.
    + destruct (Ascii.eqb_spec (syntax_at op i) "R") as [ER|NR]; [|done].
      rewrite decide_True in SR by done. rewrite (proj2 (Nat.ltb_lt _ _)) by lia.
      cbn [orb andb]. rewrite IH by (rewrite ?length_app; cbn [List.length]; lia).
      by rewrite <- app_assoc.
Qed.

Lemma registers_spec op t ops :
  opcodeToTypeMap !! op = Some t -> (List.length ops <= MAX_OPERANDS)%nat ->
  registers op 0 ops [] [] =
  if marked op 0 ops then Ok (regs_with "W" op 0 ops, regs_with "R" op 0 ops) else Stop ErrorExit.
Proof.
  intros Ht Hl. pose proof (table_ok op t Ht) as Hok. unfold entry_ok in Hok. bool_to_prop.
  repeat match goal with H : Nat.leb _ _ = true |- _ => apply Nat.leb_le in H end.
  apply (registers_go op 0 ops [] []); unfold MAX_OPERANDS in *; cbn [List.length]; lia || done.
Qed.

(** ** An instruction line, by words *)

Lemma operand_words_length n ws ops acc r :
  operand_words n ws = Ok (ops, acc, r) -> (List.length ops <= n)%nat.
Proof.
  revert n ops acc r. induction ws as [|w ws IH]; intros n ops acc r H; destruct n as [|n]; cbn in H;
    try (injection H as <- <- <-; cbn; lia).
  destruct (trim_word w) as [x|]; cbn [mbind res_bind] in H; [|done].
  destruct (String.eqb x ""); [injection H as <- <- <-; cbn; lia|].
  destruct (is_lower (first_char x)).
  - destruct (operand_words n ws) as [[[ops' acc'] r']|] eqn:E; cbn in H; [|done].
    injection H as <- <- <-. cbn. apply IH in E. lia.
  - destruct (Ascii.eqb (first_char x) "@"); [injection H as <- <- <-; cbn; lia|]. by apply IH in H.
Qed.

(** What [parseInstr] makes of the words after [@I]: no positions, no fuel, no
    arrays. *)
Definition instr_of_words (i : Instruction) (ws : list string) : res Instruction :=
  '(pc_text, ws) ← parse_words ws;
  '(op, ws) ← parse_words ws;
  '(ops, mem_accessed, ws) ← operand_words MAX_OPERANDS ws;
  '(address, _) ← (if mem_accessed : bool then parse_words ws else Ok ("", ws));
  match opcodeToTypeMap !! op with
  | None => Stop ErrorExit
  | Some t =>
      pc' ← stoull16 pc_text;
      if marked op 0 ops then
        memory_access
          (mkInstruction pc' (at_key 0 bytesMap op) (fetchCycles i) (i_lsCycles i) (i_mispredicted i)
             t (regs_with "R" op 0 ops) (regs_with "W" op 0 ops) (memLoadCount i) (memLoadBase i)
             (memLoadLength i) (memStoreCount i) (memStoreBase i) (memStoreLength i))
          op mem_accessed (if ExecutionType_is t Atomic then "0xffffffffffffffff" else address)
      else Stop ErrorExit
  end.

Lemma same_words_bind {A B} (r1 : res (A * option string)) r2 (f : A * option string -> res B) g :
  same_words r1 r2 -> (forall x c, r2 = Ok (x, view c) -> f (x, c) = g (x, view c)) ->
  (r1 ≫= f) = (r2 ≫= g).
Proof.
  destruct r1 as [[x c]|e], r2 as [[y ws]|e']; cbn; try done.
  - intros [-> <-] H. by apply H.
  - by intros ->.
Qed.

Lemma parseInstr_eq i line : parseInstr i line = instr_of_words i (words (drop_str 3 line)).
Proof.
  unfold parseInstr, instr_of_words. apply same_words_bind; [apply parseNext_words|].
  intros pc_text c1 _. apply same_words_bind; [apply parseNext_words|].
  intros op c2 _. apply same_words_bind; [apply read_operands_words|].
  intros [ops acc] c3 Hops%operand_words_length. apply same_words_bind.
  { destruct acc; [apply parseNext_words|by split]. }
  intros address c4 _. destruct (opcodeToTypeMap !! op) as [t|] eqn:Et; [|done].
  destruct (stoull16 pc_text) as [p|]; [|done]. cbn [mbind res_bind].
  rewrite (registers_spec op t ops Et Hops). by destruct (marked op 0 ops).
Qed.
