(* ===== verification/CalipersStreamPrint.v ===== *)
(** * A printed trace is read back

    The entries of a trace as data, the lines they are printed to, and what the
    stream makes of them for every choice of what the trace provides. *)

From stdpp Require Import strings pretty.
From S2P Require Import Prelude Machine External TraceParse ParseFacts CalipersCycles.
From S2P Require Import CalipersScoreboard CalipersO3 CalipersOpcodes CalipersStream.
From S2P Require Import CalipersStreamFacts.

#[local] Open Scope string_scope.
#[local] Open Scope list_scope.
#[local] Open Scope Z_scope.

Import CalG CalS CalO CalT CalR.

(** ** Hexadecimal text *)

Definition hex_digit (d : Z) : ascii :=
  Ascii.ascii_of_nat (Z.to_nat (if d <? 10 then 48 + d else 87 + d)).
Fixpoint hex_go (fuel : nat) (z : Z) (s : string) : string :=
  match fuel with
  | O => s
  | S fuel' =>
      let s' := String (hex_digit (z mod 16)) s in
      if z <? 16 then s' else hex_go fuel' (z / 16) s'
  end.
Definition show_hex (z : Z) : string := "0x" +:+ hex_go 16 z "".

Lemma hex_digit_val d : 0 <= d < 16 -> hex_val (hex_digit d) = Some d.
Proof.
  intros Hd. assert (H : Forall (fun d => hex_val (hex_digit d) = Some d) (seqZ 0 16))
    by (repeat constructor). rewrite Forall_forall in H. apply H, elem_of_seqZ. lia.
Qed.

Lemma digits_hex fuel z s :
  0 <= z < 16 ^ Z.of_nat fuel -> (fuel <> 0)%nat ->
  digits hex_val 16 0 (hex_go fuel z s) = digits hex_val 16 z s.
Proof.
  revert z s. induction fuel as [|fuel IH]; intros z s Hz Hf; [done|]. cbn [hex_go].
  assert (Hm : 0 <= z mod 16 < 16) by (apply Z.mod_pos_bound; lia).
  destruct (Z.ltb_spec z 16) as [Hs|Hs].
  - cbn [digits]. rewrite hex_digit_val by done. rewrite Z.mod_small by lia. f_equal.
  - destruct (decide (fuel = 0%nat)) as [->|Hne]; [cbn in Hz; lia|].
    rewrite IH; [|split; [apply Z.div_pos; lia|]|done].
    + cbn [digits]. rewrite hex_digit_val by done. f_equal. pose proof (Z.div_mod z 16). lia.
    + apply Z.div_lt_upper_bound; [lia|].
      replace (16 * 16 ^ Z.of_nat fuel) with (16 ^ Z.of_nat (S fuel)); [lia|].
      rewrite Nat2Z.inj_succ, Z.pow_succ_r by lia. done.
Qed.

(** Every character is a digit, and there is one. *)
Definition all_chars (P : ascii -> Prop) (s : string) : Prop :=
  Forall P (String.list_ascii_of_string s).

Lemma hex_go_chars fuel z s :
  0 <= z -> all_chars (fun c => is_Some (hex_val c)) s ->
  all_chars (fun c => is_Some (hex_val c)) (hex_go fuel z s).
Proof.
  revert z s. induction fuel as [|fuel IH]; intros z s Hz Hs; [done|]. cbn [hex_go].
  assert (H : all_chars (fun c => is_Some (hex_val c)) (String (hex_digit (z mod 16)) s)).
  { constructor; [|done]. rewrite hex_digit_val; [by eexists|]. apply Z.mod_pos_bound. lia. }
  case_match; [done|]. apply IH; [apply Z.div_pos; lia|done].
Qed.
Lemma hex_go_nonempty fuel z s : s <> "" -> hex_go fuel z s <> "".
Proof. revert z s. induction fuel as [|fuel IH]; intros z s Hs; [done|]. cbn. case_match; [done|]. by apply IH. Qed.

Lemma starts_hex fuel z : 0 <= z -> (fuel <> 0)%nat -> starts_digit hex_val (hex_go fuel z "") = true.
Proof.
  intros Hz Hf. pose proof (hex_go_chars fuel z "" Hz ltac:(constructor)) as H.
  assert (Hn : hex_go fuel z "" <> "").
  { destruct fuel; [done|]. cbn. case_match; [done|]. by apply hex_go_nonempty. }
  destruct (hex_go fuel z "") as [|c r]; [done|]. apply Forall_cons in H as [H _]. cbn.
  by apply bool_decide_eq_true.
Qed.

Lemma stoull16_hex z : 0 <= z < 2 ^ 64 -> stoull16 (show_hex z) = Ok z.
Proof.
  intros Hz. unfold stoull16, strto16, show_hex. remember (hex_go 16 z "") as h eqn:Eh.
  pose proof (starts_hex 16 z ltac:(lia) ltac:(lia)) as Hs. rewrite <- Eh in Hs.
  change (lstrip ("0x" +:+ h)) with ("0x" +:+ h).
  change (sign ("0x" +:+ h)) with (false, "0x" +:+ h). cbv beta iota zeta.
  assert (Hk : skip_0x ("0x" +:+ h) = h).
  { change (skip_0x ("0x" +:+ h)) with (if starts_digit hex_val h then h else "0x" +:+ h). by rewrite Hs. }
  rewrite Hk, Hs, Eh, digits_hex by (cbn; lia). cbn [digits].
  rewrite (proj2 (Z.ltb_lt _ _)) by lia. by rewrite u64_small by (unfold u64_size; lia).
Qed.

(** ** Words that are kept whole *)

Definition safe_char (c : ascii) : Prop := c <> " "%char /\ c <> "("%char /\ c <> ")"%char /\ c <> ","%char.
Definition safe (s : string) : Prop := all_chars safe_char s.

Lemma safe_no_char c s : safe s -> ~ safe_char c -> ~ char_of c s.
Proof. unfold safe, all_chars, char_of. rewrite Forall_forall. naive_solver. Qed.
Lemma safe_app s1 s2 : safe (s1 +:+ s2) <-> safe s1 /\ safe s2.
Proof. unfold safe, all_chars. by rewrite list_ascii_app, Forall_app. Qed.

Lemma get_app s1 c s2 : String.get (String.length s1) (s1 +:+ String c s2) = Some c.
Proof. induction s1 as [|d s1 IH]; [done|]. exact IH. Qed.
Lemma length_snoc s c : String.length (s +:+ String c "") = S (String.length s).
Proof. induction s as [|d s IH]; [done|]. rewrite string_app_cons. cbn. by rewrite IH. Qed.
Lemma get_char_of k s c : String.get k s = Some c -> char_of c s.
Proof.
  unfold char_of. revert k. induction s as [|d s IH]; intros k; [by destruct k|].
  destruct k; cbn; [intros [= ->]; left|]. intros H. right. by apply (IH k).
Qed.

Lemma last_char_of s : s <> "" -> char_of (last_char s) s.
Proof.
  intros Hs. unfold last_char, char_at. destruct (String.get _ s) as [c|] eqn:E.
  - by apply get_char_of in E.
  - exfalso. revert E. destruct s as [|d s]; [done|]. cbn [String.length]. rewrite Nat.sub_succ, Nat.sub_0_r.
    clear Hs. revert d. induction s as [|c s IH]; intros d; [done|]. apply (IH c).
Qed.

Lemma trim_safe w : w <> "" -> safe w -> trim_word w = Ok w.
Proof.
  intros Hn Hs. unfold trim_word.
  rewrite find_char_none by (apply safe_no_char; [done|unfold safe_char; tauto]).
  rewrite (proj2 (String.eqb_neq _ _)) by done.
  destruct (Ascii.eqb_spec (last_char w) ",") as [E|]; [|done].
  pose proof (last_char_of w Hn) as H. rewrite E in H. exfalso. revert H.
  apply safe_no_char; [done|unfold safe_char; tauto].
Qed.

Lemma trim_comma w : safe w -> trim_word (w +:+ String "," "") = Ok w.
Proof.
  intros Hs. unfold trim_word. rewrite find_char_none.
  - assert (Hn : w +:+ String "," "" <> "") by (by destruct w).
    rewrite (proj2 (String.eqb_neq _ _)) by done. unfold last_char, char_at.
    rewrite length_snoc, Nat.sub_succ, Nat.sub_0_r, get_app. cbn [default from_option].
    change (Ascii.eqb "," ",") with true. cbn iota. by rewrite take_str_app.
  - rewrite char_of_app. intros [H|H]; [revert H; apply safe_no_char; [done|unfold safe_char; tauto]|].
    unfold char_of in H. cbn in H. apply elem_of_cons in H as [H|H]; [done|]. by apply elem_of_nil in H.
Qed.

(** A word with a name in parentheses, whatever follows. *)
Lemma trim_parens pre r post :
  safe pre -> safe r -> trim_word (pre +:+ String "(" (r +:+ String ")" post)) = Ok r.
Proof.
  intros Hp Hr. unfold trim_word.
  rewrite find_char_app by (apply safe_no_char; [done|unfold safe_char; tauto]).
  assert (Hf : find_char ")" (pre +:+ String "(" (r +:+ String ")" post)) =
               Some (String.length pre + S (String.length r))%nat).
  { change (pre +:+ String "(" (r +:+ String ")" post))
      with (pre +:+ String "(" "" +:+ (r +:+ String ")" post)).
    rewrite <- !string_app_assoc. rewrite find_char_app.
    - f_equal. clear. rewrite string_app_assoc. induction pre as [|c pre IH]; [done|].
      rewrite string_app_cons. cbn. by rewrite IH.
    - rewrite !char_of_app. intros [[H|H]|H].
      + revert H. apply safe_no_char; [done|unfold safe_char; tauto].
      + unfold char_of in H. cbn in H. apply elem_of_cons in H as [H|H]; [done|]. by apply elem_of_nil in H.
      + revert H. apply safe_no_char; [done|unfold safe_char; tauto]. }
  rewrite Hf. rewrite (proj2 (Nat.ltb_lt _ _)) by lia.
  replace (String.length pre + S (String.length r) - String.length pre - 1)%nat with (String.length r) by lia.
  f_equal.
  change (pre +:+ String "(" (r +:+ String ")" post)) with (pre +:+ String "(" "" +:+ (r +:+ String ")" post)).
  rewrite <- string_app_assoc, <- length_snoc with (c := "("%char), drop_str_app. apply take_str_app.
Qed.

(** Names, numbers and hexadecimal numbers are such words. *)
Lemma name_safe s : is_name s = true -> safe s /\ s <> "" /\ is_lower (first_char s) = true.
Proof.
  unfold is_name. intros [H1 H2]%andb_true_iff. split_and!; [|by destruct s|done].
  unfold safe, all_chars. rewrite Forall_forall. intros c Hc. rewrite forallb_forall in H2.
  specialize (H2 c ltac:(by apply list_elem_of_In)). unfold safe_char.
  split_and!; intros ->; vm_compute in H2; discriminate.
Qed.
Lemma show_int_safe z : safe (show_int z) /\ show_int z <> "".
Proof.
  split; [|apply show_int_nonempty]. unfold safe, all_chars. rewrite Forall_forall. intros c Hc.
  unfold safe_char. split_and!; intros ->; revert Hc; by apply show_int_no_char.
Qed.
Lemma show_hex_safe z : 0 <= z -> safe (show_hex z) /\ show_hex z <> "".
Proof.
  intros Hz. split; [|done]. unfold show_hex. apply safe_app. split.
  { repeat (constructor; [unfold safe_char; split_and!; discriminate|]). constructor. }
  eapply Forall_impl; [apply (hex_go_chars 16 z "" Hz); constructor|].
  intros c [d Hd]. unfold safe_char. split_and!; intros ->; vm_compute in Hd; discriminate.
Qed.
Lemma pretty_safe (n : N) : safe (pretty n) /\ pretty n <> "".
Proof.
  split; [|destruct (pretty_first n) as (? & ? & -> & _); done].
  unfold safe, all_chars. rewrite Forall_forall. intros c Hc.
  unfold safe_char. split_and!; intros ->; revert Hc; by apply pretty_no_char.
Qed.

(** ** Operands *)

Inductive operand := Reg (r : string) | Imm (z : Z) | Deref (off : option Z) (r : string).

Definition show_operand (o : operand) : string :=
  match o with
  | Reg r => r
  | Imm z => show_int z
  | Deref off r => from_option show_int "" off +:+ String "(" (r +:+ String ")" "")
  end.
Fixpoint operand_texts (os : list operand) : list string :=
  match os with
  | [] => []
  | [o] => [show_operand o]
  | o :: os' => (show_operand o +:+ String "," "") :: operand_texts os'
  end.
Definition reg_name (o : operand) : option string :=
  match o with Reg r | Deref _ r => Some r | Imm _ => None end.
Definition reg_names (os : list operand) : list string := omap reg_name os.
Definition operand_ok (o : operand) : Prop :=
  match o with Reg r | Deref _ r => is_Some (regMap !! r) | Imm _ => True end.

Lemma trim_operand o comma :
  operand_ok o -> trim_word (show_operand o +:+ (if comma : bool then String "," "" else "")) =
  Ok (match o with Reg r | Deref _ r => r | Imm z => show_int z end).
Proof.
  assert (Hw : forall w, safe w /\ w <> "" ->
    trim_word (w +:+ (if comma then String "," "" else "")) = Ok w).
  { intros w [Hs Hn]. destruct comma; [by apply trim_comma|].
    rewrite string_app_nil_r. by apply trim_safe. }
  destruct o as [r|z|off r]; cbn [operand_ok show_operand].
  - intros [n Hn]. destruct (name_safe r) as (? & ? & _); [by apply (register_ok r n)|]. by apply Hw.
  - intros _. apply Hw, show_int_safe.
  - intros [n Hn]. destruct (name_safe r) as (Hr & _); [by apply (register_ok r n)|].
    rewrite string_app_assoc, string_app_cons, string_app_assoc, string_app_cons.
    apply trim_parens; [|done]. destruct off as [z|]; cbn; [apply show_int_safe|constructor].
Qed.

Lemma show_int_first z :
  is_lower (first_char (show_int z)) = false /\ Ascii.eqb (first_char (show_int z)) "@" = false.
Proof.
  assert (Hd : forall c, is_Some (digit_val c) -> is_lower c = false /\ Ascii.eqb c "@" = false).
  { intros c Hd. split; [|apply Ascii.eqb_neq; intros ->; by destruct Hd].
    destruct Hd as [d Hd]. unfold digit_val in Hd. case_match; [|done]. bool_to_prop.
    unfold is_lower. apply andb_false_iff. left. apply Nat.leb_gt. lia. }
  unfold show_int. case_match; [done|].
  destruct (pretty_first (Z.to_N z)) as (c & r & -> & Hc). by apply Hd.
Qed.

(** The loop over the printed operands and what follows them. *)
Lemma operand_words_print n os tail :
  Forall operand_ok os -> (List.length (reg_names os) <= n)%nat ->
  exists rest, operand_words n (operand_texts os ++ tail) =
    if decide (List.length (reg_names os) < n)%nat then
      '(ops, acc, r) ← operand_words (n - List.length (reg_names os)) tail;
      Ok (reg_names os ++ ops, acc, r)
    else Ok (reg_names os, false, rest).
Proof.
  revert n. induction os as [|o os IH]; intros n Ho Hl.
  - exists tail. cbn [reg_names omap list_omap List.length operand_texts app] in *. rewrite Nat.sub_0_r.
    destruct (decide (0 < n)%nat).
    + destruct (operand_words n tail) as [[[ops acc] r]|]; done.
    + replace n with 0%nat by lia. by destruct tail.
  - apply Forall_cons in Ho as [Ho Hos].
    assert (Ht : exists comma : bool, operand_texts (o :: os) =
      (show_operand o +:+ (if comma then String "," "" else "")) :: operand_texts os).
    { destruct os; [exists false; by rewrite string_app_nil_r|by exists true]. }
    destruct Ht as (comma & Ht). rewrite Ht. clear Ht. cbn [app].
    destruct n as [|n].
    { exists ((show_operand o +:+ (if comma then String "," "" else "")) :: operand_texts os ++ tail).
      rewrite decide_False by lia. cbn [operand_words].
      destruct (reg_names (o :: os)); [done|cbn [List.length] in Hl; lia]. }
    cbn [operand_words]. rewrite trim_operand by done. cbn [mbind res_bind].
    assert (Hreg : forall r, operand_ok (Reg r) ->
      List.length (reg_names (o :: os)) = S (List.length (reg_names os)) ->
      reg_names (o :: os) = r :: reg_names os -> exists rest,
      (if String.eqb r "" then Ok ([], false, operand_texts os ++ tail)
       else if is_lower (first_char r) then
         '(ops, acc, r0) ← operand_words n (operand_texts os ++ tail); Ok (r :: ops, acc, r0)
       else if Ascii.eqb (first_char r) "@" then Ok ([], true, operand_texts os ++ tail)
       else operand_words (S n) (operand_texts os ++ tail)) =
      if decide (List.length (reg_names (o :: os)) < S n)%nat then
        '(ops, acc, r0) ← operand_words (S n - List.length (reg_names (o :: os))) tail;
        Ok (reg_names (o :: os) ++ ops, acc, r0)
      else Ok (reg_names (o :: os), false, rest)).
    { intros r [k Hk] Hlen Heq. destruct (name_safe r) as (_ & Hn & Hlow); [by apply (register_ok r k)|].
      rewrite (proj2 (String.eqb_neq _ _)) by done. rewrite Hlow, Heq. cbn [List.length].
      destruct (IH n Hos ltac:(lia)) as [rest ->]. exists rest. rewrite Nat.sub_succ.
      destruct (decide (List.length (reg_names os) < n)%nat) as [Hd|Hd].
      - rewrite decide_True by lia. destruct (operand_words _ tail) as [[[ops acc] r0]|]; done.
      - by rewrite decide_False by lia. }
    destruct o as [r|z|off r]; [by apply (Hreg r)| |by apply (Hreg r)].
    rewrite (proj2 (String.eqb_neq _ _)) by apply show_int_nonempty.
    destruct (show_int_first z) as [-> ->]. by apply IH.
Qed.
