(* ===== verification/CalipersStreamRead.v ===== *)
(** * Reading a whole trace

    The entries of a trace as data, the lines they are printed to, and what the
    stream delivers for every choice of what the trace provides; reading a trace,
    whatever it holds, comes to an end. *)

From stdpp Require Import strings pretty.
From S2P Require Import Prelude Machine External TraceParse ParseFacts CalipersCycles.
From S2P Require Import CalipersScoreboard CalipersO3 CalipersO3Facts CalipersOpcodes.
From S2P Require Import CalipersStream CalipersStreamFacts CalipersStreamPrint.

#[local] Open Scope string_scope.
#[local] Open Scope list_scope.
#[local] Open Scope Z_scope.

Import CalG CalS CalO CalT CalR.

(** ** Entries *)

(** [e_cycles] is [None] where the trace has no line for the memory access. *)
Record Entry := mkEntry {
  e_pc : Z;
  e_op : string;
  e_operands : list operand;
  e_address : option Z;
  e_fetch : N;
  e_mispredicted : bool;
  e_cycles : option N
}.

Definition e_type (e : Entry) : ExecutionType := default Other (opcodeToTypeMap !! e_op e).
Definition e_names (e : Entry) : list string := reg_names (e_operands e).

Definition address_texts (a : option Z) : list string :=
  match a with Some a => ["@A"; show_hex a] | None => [] end.
Definition instr_words (e : Entry) : list string :=
  show_hex (e_pc e) :: e_op e :: operand_texts (e_operands e) ++ address_texts (e_address e).
Definition instr_line (e : Entry) : string := "@I " +:+ String.concat (String " " "") (instr_words e).
Definition fetch_line (e : Entry) : string := "@F " +:+ pretty (e_fetch e).
Definition branch_line (e : Entry) : string := "@B " +:+ (if e_mispredicted e then "0" else "1").
Definition memory_lines (e : Entry) : list string :=
  match e_cycles e with Some n => ["@M " +:+ pretty n] | None => [] end.
Definition print_entry (e : Entry) : list string :=
  instr_line e :: fetch_line e :: branch_line e :: memory_lines e.
Definition print_trace (es : list Entry) : list string := es ≫= print_entry.

Record entry_valid (e : Entry) : Prop := {
  ev_pc : 0 <= e_pc e < 2 ^ 64;
  ev_op : is_Some (opcodeToTypeMap !! e_op e);
  ev_operands : Forall operand_ok (e_operands e);
  ev_count : (List.length (e_names e) <= String.length (at_key "" syntaxMap (e_op e)))%nat;
  ev_address : forall a, e_address e = Some a -> 0 <= a < 2 ^ 64 /\ accesses_memory (e_type e) = true;
  ev_fetch : Z.of_N (e_fetch e) < 2 ^ 64;
  ev_cycles : forall n, e_cycles e = Some n -> Z.of_N n < 2 ^ 64
}.

(** ** What the instruction line sets *)

Definition access_of (i : Instruction) (e : Entry) : Instruction :=
  match e_address e with
  | None =>
      set_access i 0 (memLoadBase i) (memLoadLength i) 0 (memStoreBase i) (memStoreLength i)
  | Some a =>
      let a := if ExecutionType_is (e_type e) Atomic then 2 ^ 64 - 1 else a in
      let len := at_key 0 memLengthMap (e_op e) in
      let c := at_key NUL memAccessMap (e_op e) in
      if Ascii.eqb c "L" then set_access i 1 a len 0 (memStoreBase i) (memStoreLength i)
      else if Ascii.eqb c "S" then set_access i 0 (memLoadBase i) (memLoadLength i) 1 a len
      else set_access i 1 a len 1 a len
  end.
Definition parsed (i : Instruction) (e : Entry) : Instruction :=
  access_of
    (mkInstruction (e_pc e) (at_key 0 bytesMap (e_op e)) (fetchCycles i) (i_lsCycles i)
       (i_mispredicted i) (e_type e) (regs_with "R" (e_op e) 0 (e_names e))
       (regs_with "W" (e_op e) 0 (e_names e)) (memLoadCount i) (memLoadBase i) (memLoadLength i)
       (memStoreCount i) (memStoreBase i) (memStoreLength i)) e.

Lemma drop_3 a b c s : drop_str 3 (String a (String b (String c s))) = s.
Proof. done. Qed.

(** The syntax marks as many operands as it is long. *)
Lemma marked_ok op t ops i :
  opcodeToTypeMap !! op = Some t -> (i + List.length ops <= String.length (at_key "" syntaxMap op))%nat ->
  marked op i ops = true.
Proof.
  intros Ht. pose proof (table_ok op t Ht) as Hok. unfold entry_ok in Hok. bool_to_prop.
  match goal with H : forallb _ _ = true |- _ => rewrite forallb_forall in H; rename H into Hm end.
  revert i. induction ops as [|name ops IH]; intros i Hi; [done|]. cbn [marked List.length] in *.
  specialize (Hm i). rewrite <- orb_assoc, Hm, orb_true_r, IH by (rewrite ?in_seq; lia). done.
Qed.

Lemma no_blank_app s1 s2 : no_blank (s1 +:+ s2) <-> no_blank s1 /\ no_blank s2.
Proof. unfold no_blank. rewrite char_of_app. tauto. Qed.
Lemma no_blank_cons c s : c <> " "%char -> no_blank s -> no_blank (String c s).
Proof.
  unfold no_blank, char_of. cbn. intros Hc Hs. rewrite elem_of_cons. intros [H|H]; [congruence|done].
Qed.
Lemma no_blank_nil : no_blank "".
Proof. unfold no_blank, char_of. cbn. apply not_elem_of_nil. Qed.
Lemma safe_no_blank w : safe w -> no_blank w.
Proof. intros Hw. unfold no_blank. by apply safe_no_char; [|unfold safe_char; tauto]. Qed.

Lemma register_safe r : is_Some (regMap !! r) -> safe r.
Proof. intros [k Hk]. apply name_safe. by apply (register_ok r k). Qed.

Lemma operand_no_blank o : operand_ok o -> no_blank (show_operand o).
Proof.
  destruct o as [r|z|off r]; cbn [operand_ok show_operand]; intros Ho.
  - by apply safe_no_blank, register_safe.
  - apply safe_no_blank, show_int_safe.
  - apply no_blank_app. split.
    + destruct off; [apply safe_no_blank, show_int_safe|apply no_blank_nil].
    + apply no_blank_cons; [done|]. apply no_blank_app.
      split; [by apply safe_no_blank, register_safe|]. apply no_blank_cons; [done|apply no_blank_nil].
Qed.
Lemma operand_texts_blank os : Forall operand_ok os -> Forall no_blank (operand_texts os).
Proof.
  induction 1 as [|o os Ho Hos IH]; [constructor|].
  destruct os as [|o' os]; cbn [operand_texts].
  - apply Forall_singleton. by apply operand_no_blank.
  - apply Forall_cons. split; [|exact IH]. apply no_blank_app.
    split; [by apply operand_no_blank|apply no_blank_cons; [done|apply no_blank_nil]].
Qed.

Lemma opcode_name op t : opcodeToTypeMap !! op = Some t -> is_name op = true.
Proof. intros Ht. pose proof (table_ok op t Ht) as Hok. unfold entry_ok in Hok. by bool_to_prop. Qed.

Lemma instr_words_blank e : entry_valid e -> Forall no_blank (instr_words e).
Proof.
  intros [Hpc [t Ht] Hos _ Ha _ _]. unfold instr_words. apply Forall_cons. split.
  { apply safe_no_blank, show_hex_safe. lia. }
  apply Forall_cons. split; [by eapply safe_no_blank, name_safe, opcode_name|].
  apply Forall_app. split; [by apply operand_texts_blank|].
  destruct (e_address e) as [a|]; [|constructor]. cbn [address_texts].
  apply Forall_cons. split; [apply no_blank_cons; [done|apply no_blank_cons; [done|apply no_blank_nil]]|].
  apply Forall_singleton, safe_no_blank, show_hex_safe. specialize (Ha a eq_refl). lia.
Qed.

Lemma access_char op t :
  opcodeToTypeMap !! op = Some t -> accesses_memory t = true ->
  let c := at_key NUL memAccessMap op in
  (c = "L" \/ c = "S" \/ c = "A")%char /\ (t = Load -> c = "L"%char) /\ (t = Store -> c = "S"%char) /\
  (String.length (at_key "" syntaxMap op) <= MAX_REG_RD)%nat.
Proof.
  intros Ht Hm c. pose proof (table_ok op t Ht) as Hok. unfold entry_ok in Hok. fold c in Hok.
  rewrite Hm in Hok. bool_to_prop.
  match goal with H : access_ok _ _ _ = true |- _ => unfold access_ok in H; rename H into Ha end.
  match goal with H : (_ <=? MAX_REG_RD)%nat = true |- _ => apply Nat.leb_le in H end.
  apply andb_true_iff in Ha as [Ha _].
  destruct t; try discriminate Hm; repeat (apply orb_true_iff in Ha as [Ha|Ha]);
    apply Ascii.eqb_eq in Ha; rewrite Ha; split_and!; auto; discriminate.
Qed.

Lemma parse_words_safe w ws : safe w /\ w <> "" -> parse_words (w :: ws) = Ok (w, ws).
Proof. intros [Hs Hn]. cbn [parse_words]. by rewrite trim_safe. Qed.

Lemma syntax_length op t :
  opcodeToTypeMap !! op = Some t -> (String.length (at_key "" syntaxMap op) <= MAX_OPERANDS)%nat.
Proof.
  intros Ht. pose proof (table_ok op t Ht) as Hok. unfold entry_ok in Hok. bool_to_prop.
  repeat match goal with H : (_ <=? _)%nat = true |- _ => apply Nat.leb_le in H end.
  destruct (accesses_memory t); unfold MAX_OPERANDS, MAX_REG_RD, MAX_REG_WR in *; lia.
Qed.

Lemma operand_words_nil n : operand_words n [] = Ok ([], false, []).
Proof. by destruct n. Qed.

(** The operands of an entry, with or without an address. *)
Lemma entry_operands e :
  entry_valid e -> exists rest, operand_words MAX_OPERANDS
    (operand_texts (e_operands e) ++ address_texts (e_address e)) =
  Ok (e_names e, bool_decide (is_Some (e_address e)),
      match e_address e with Some a => [show_hex a] | None => rest end).
Proof.
  intros [_ [t Ht] Hos Hc Ha _ _]. pose proof (syntax_length _ _ Ht) as Hl.
  destruct (operand_words_print MAX_OPERANDS (e_operands e) (address_texts (e_address e)) Hos)
    as [rest ->]; [unfold e_names in Hc; lia|]. unfold e_names.
  destruct (e_address e) as [a|] eqn:Ea; cbn [address_texts].
  - specialize (Ha a eq_refl) as [_ Hm]. unfold e_type in Hm. rewrite Ht in Hm. cbn in Hm.
    pose proof (access_char _ _ Ht Hm) as (_ & _ & _ & Hr). unfold e_names in Hc.
    unfold MAX_OPERANDS, MAX_REG_RD, MAX_REG_WR in *. rewrite decide_True by lia.
    exists []. rewrite bool_decide_true by done.
    destruct (3 + 1 - _)%nat eqn:E; [lia|]. cbn. change (is_lower "@") with false.
    cbn. by rewrite app_nil_r.
  - exists (if decide (List.length (reg_names (e_operands e)) < MAX_OPERANDS)%nat then [] else rest).
    rewrite bool_decide_false by (by intros [? ?]). case_decide; [|done].
    rewrite operand_words_nil. cbn [mbind res_bind]. by rewrite app_nil_r.
Qed.

Lemma instr_line_words e : entry_valid e -> words (drop_str 3 (instr_line e)) = instr_words e.
Proof.
  intros He. unfold instr_line. change (drop_str 3 ("@I " +:+ ?s)) with s.
  apply words_join; [done|]. by apply instr_words_blank.
Qed.

Lemma memory_access_entry i e :
  entry_valid e -> i_executionType i = e_type e ->
  memory_access i (e_op e) (bool_decide (is_Some (e_address e)))
    (if ExecutionType_is (e_type e) Atomic then "0xffffffffffffffff"
     else match e_address e with Some a => show_hex a | None => "" end) = Ok (access_of i e).
Proof.
  intros [_ [t Ht] _ _ Ha _ _] Hty. unfold memory_access, access_of.
  destruct (e_address e) as [a|] eqn:Ea.
  - rewrite bool_decide_true by done. specialize (Ha a eq_refl) as [Hr Hm].
    assert (He : e_type e = t) by (unfold e_type; by rewrite Ht). rewrite He in *.
    assert (Hb : stoull16 (if ExecutionType_is t Atomic then "0xffffffffffffffff" else show_hex a) =
      Ok (if ExecutionType_is t Atomic then 2 ^ 64 - 1 else a)).
    { destruct (ExecutionType_is t Atomic); [by vm_compute|by apply stoull16_hex]. }
    rewrite Hb. cbn [mbind res_bind].
    destruct (access_char _ _ Ht Hm) as ([->|[->| ->]] & _); done.
  - by rewrite bool_decide_false by (by intros [? ?]).
Qed.

Lemma parseInstr_entry i e : entry_valid e -> parseInstr i (instr_line e) = Ok (parsed i e).
Proof.
  intros He. rewrite parseInstr_eq, instr_line_words by done.
  destruct (entry_operands e He) as [rest Hops]. pose proof He as [Hpc [t Ht] Hos Hc Ha _ _].
  unfold instr_of_words, instr_words.
  rewrite parse_words_safe by (apply show_hex_safe; lia). cbn [mbind res_bind].
  rewrite parse_words_safe by (split; eapply name_safe, opcode_name, Ht). cbn [mbind res_bind].
  rewrite Hops. cbn [mbind res_bind].
  assert (Had : exists r, (if bool_decide (is_Some (e_address e))
      then parse_words (match e_address e with Some a => [show_hex a] | None => rest end)
      else Ok ("", match e_address e with Some a => [show_hex a] | None => rest end)) =
    Ok (match e_address e with Some a => show_hex a | None => "" end, r)).
  { destruct (e_address e) as [a|] eqn:Ea.
    - rewrite bool_decide_true by done. exists []. apply parse_words_safe, show_hex_safe.
      specialize (Ha a eq_refl). lia.
    - rewrite bool_decide_false by (by intros [? ?]). by exists rest. }
  destruct Had as [r ->]. cbn [mbind res_bind]. rewrite Ht, stoull16_hex by done. cbn [mbind res_bind].
  rewrite (marked_ok _ _ _ 0 Ht) by (cbn; lia).
  assert (Hty : e_type e = t) by (unfold e_type; by rewrite Ht).
  rewrite <- Hty. rewrite memory_access_entry; [|done|done]. done.
Qed.

(** ** The lines that follow *)

Lemma line_word a b c w : safe w /\ w <> "" ->
  parseNext (line_start (String a (String b (String c w)))) = Ok (w, None).
Proof.
  intros [Hs Hn]. unfold line_start. rewrite drop_3. unfold parseNext.
  rewrite find_char_none by (apply safe_no_char; [done|unfold safe_char; tauto]).
  by rewrite trim_safe.
Qed.
Lemma read_cycles a b c n : Z.of_N n < 2 ^ 64 ->
  ('(cycles, _) ← parseNext (line_start (String a (String b (String c (pretty n)))));
   num ← stoul cycles; Ok (u32 (num / TICKS_PER_CYCLE))) = Ok (u32 (Z.of_N n)).
Proof.
  intros Hn. rewrite line_word by apply pretty_safe. cbn [mbind res_bind].
  unfold stoul. rewrite stoull_pretty by done. cbn [mbind res_bind]. unfold TICKS_PER_CYCLE.
  by rewrite Z.div_1_r.
Qed.
Lemma parseBranch_line e : parseBranch (branch_line e) = Ok (e_mispredicted e).
Proof. unfold branch_line. by destruct (e_mispredicted e). Qed.

(** What the stream delivers for an entry.  Reading takes the lines in the order
    fetch, branch, memory: where the trace is not asked for the first two, the line
    read for the memory cycles is another one. *)
Definition deliver (bp ic dc : bool) (i : Instruction) (e : Entry) : Instruction :=
  let j := parsed i e in
  let j := if ic then set_fetchCycles j (u32 (Z.of_N (e_fetch e))) else j in
  let j := if bp then set_mispredicted j (e_mispredicted e) else j in
  if dc && accesses_memory (e_type e) then
    set_lsCycles j
      (if ic && bp then match e_cycles e with Some n => u32 (Z.of_N n) | None => 1 end else 1)
  else j.
Fixpoint deliver_all (bp ic dc : bool) (i : Instruction) (es : list Entry) : list Instruction :=
  match es with
  | [] => []
  | e :: es' => let j := deliver bp ic dc i e in j :: deliver_all bp ic dc j es'
  end.

Lemma prefix_app p s : String.prefix p (p +:+ s) = true.
Proof. apply prefix_spec. by exists s. Qed.

(** Lines the stream passes over. *)
Definition passed (line : string) : Prop :=
  String.prefix "@I " line = false /\
  (String.prefix "@F" line || String.prefix "@B" line || String.prefix "@M" line) = true.

Lemma next_loop_passed s junk rest :
  Forall passed junk -> next_loop s (junk ++ rest) = next_loop s rest.
Proof. induction 1 as [|l junk [H1 H2] _ IH]; [done|]. cbn [app next_loop]. by rewrite H1, H2. Qed.

Lemma fetch_line_passed e : passed (fetch_line e).
Proof. done. Qed.
Lemma branch_line_passed e : passed (branch_line e).
Proof. by unfold branch_line; destruct (e_mispredicted e). Qed.
Lemma memory_lines_passed e : Forall passed (memory_lines e).
Proof. unfold memory_lines. destruct (e_cycles e); repeat constructor. Qed.

(** The stream is about to read [rest], after lines it passes over. *)
Definition settled (s : RiscvStream) (rest : list string) : Prop :=
  if readFromFile s then exists junk, Forall passed junk /\ traceFile s = junk ++ rest
  else (lastInstrLine s = "" /\ traceFile s = [] /\ rest = []) \/
       (lastInstrLine s <> "" /\ exists junk, Forall passed junk /\
          lastInstrLine s :: traceFile s = junk ++ rest).

Lemma next_settled s rest : settled s rest -> next s = next_loop s rest.
Proof.
  unfold settled, next. destruct (readFromFile s).
  - intros (junk & Hj & ->). by apply next_loop_passed.
  - intros [(E1 & E2 & ->)|(Hn & junk & Hj & ->)]; [cbn [next_loop]; by rewrite E1, E2|].
    rewrite (proj2 (String.eqb_neq _ _)) by done. by apply next_loop_passed.
Qed.

Definition same_flags (s s' : RiscvStream) : Prop :=
  traceBP s' = traceBP s /\ traceICache s' = traceICache s /\ traceDCache s' = traceDCache s.

Lemma instr_type_parsed i e : i_executionType (parsed i e) = e_type e.
Proof. unfold parsed, access_of. destruct (e_address e); [|done]. cbn zeta. by repeat case_match. Qed.

(** The first line of what is left is an instruction line, or there is none. *)
Definition starts_entry (rest : list string) : Prop :=
  match rest with [] => True | l :: _ => String.prefix "@M " l = false /\ l <> "" end.

Lemma print_trace_starts es : starts_entry (print_trace es).
Proof. destruct es; cbn; [done|]. by split. Qed.

(** The state after an instruction whose lines have been read. *)
Definition after_memory (s : RiscvStream) (line : string) (r : Instruction * list string * option string)
    : RiscvStream :=
  let '(i, rest, put_back) := r in
  mkRiscv rest (traceBP s) (traceICache s) (traceDCache s) i (get_inst line)
    (default line put_back) (match put_back with Some _ => false | None => true end).

Lemma passed_nonempty l : passed l -> l <> "".
Proof. intros [_ H] ->. discriminate H. Qed.

(** Where the next line is not for the memory access, it is put back. *)
Lemma read_memory_missing s line i (dc : bool) junk rest :
  Forall passed junk -> starts_entry rest ->
  (match junk ++ rest with [] => true | l :: _ => negb (String.prefix "@M " l) end) = true ->
  exists L pb, read_memory dc i (junk ++ rest) =
      Ok (if dc && accesses_memory (i_executionType i) then set_lsCycles i 1 else i, L, pb) /\
    forall j, settled (after_memory s line (j, L, pb)) rest.
Proof.
  intros Hj Hr Hh. unfold read_memory. destruct (dc && _).
  - destruct (junk ++ rest) as [|l L] eqn:E; cbn [getline].
    + exists [], (Some ""). split; [done|]. intros j. unfold settled. cbn. left.
      apply app_eq_nil in E as [_ ->]. done.
    + apply negb_true_iff in Hh. rewrite Hh. exists L, (Some l). split; [done|].
      intros j. unfold settled. cbn. right. split; [|by exists junk].
      destruct junk as [|l' junk]; cbn in E.
      * rewrite E in Hr. by destruct Hr.
      * injection E as -> _. apply Forall_cons in Hj as [Hj _]. by apply passed_nonempty.
  - exists (junk ++ rest), None. split; [done|]. intros j. unfold settled. cbn. by exists junk.
Qed.

Lemma read_memory_lines s line i (dc : bool) e rest :
  entry_valid e -> starts_entry rest ->
  exists L pb, read_memory dc i (memory_lines e ++ rest) =
      Ok (if dc && accesses_memory (i_executionType i)
          then set_lsCycles i (match e_cycles e with Some n => u32 (Z.of_N n) | None => 1 end)
          else i, L, pb) /\
    forall j, settled (after_memory s line (j, L, pb)) rest.
Proof.
  intros He Hr. unfold memory_lines. destruct (e_cycles e) as [n|] eqn:En.
  - destruct (dc && accesses_memory (i_executionType i)) eqn:Ed.
    + exists rest, None. split; [|intros j; unfold settled; cbn; by exists []].
      unfold read_memory. rewrite Ed. cbn [app getline].
      rewrite prefix_app.
      unfold parseMemoryCycles. change ("@M " +:+ pretty n) with
        (String "@" (String "M" (String " " (pretty n)))).
      by rewrite read_cycles by (by apply (ev_cycles e He)).
    + exists (["@M " +:+ pretty n] ++ rest), None. unfold read_memory. rewrite Ed. split; [done|].
      intros j. unfold settled. cbn [after_memory readFromFile traceFile].
      exists ["@M " +:+ pretty n]. by split; [repeat constructor|].
  - apply (read_memory_missing s line i dc []); [constructor|done|].
    destruct rest as [|l rest]; [done|]. cbn. apply negb_true_iff. apply Hr.
Qed.

Lemma read_instr_after s line rest :
  read_instr s line rest =
  (i ← parseInstr (instr s) line;
   '(i, rest) ← read_fetch (traceICache s) i rest;
   '(i, rest) ← read_branch (traceBP s) i rest;
   r ← read_memory (traceDCache s) i rest;
   Ok (Some r.1.1, after_memory s line r)).
Proof.
  unfold read_instr. destruct (parseInstr _ _); [|done]. cbn [mbind res_bind].
  destruct (read_fetch _ _ _) as [[? ?]|]; [|done]. cbn [mbind res_bind].
  destruct (read_branch _ _ _) as [[? ?]|]; [|done]. cbn [mbind res_bind].
  by destruct (read_memory _ _ _) as [[[? ?] ?]|].
Qed.

Lemma read_fetch_entry i e L : entry_valid e ->
  read_fetch true i (fetch_line e :: L) = Ok (set_fetchCycles i (u32 (Z.of_N (e_fetch e))), L).
Proof.
  intros He. cbn [read_fetch getline]. unfold parseFetchCycles, fetch_line. rewrite prefix_app.
  change ("@F " +:+ ?x) with (String "@" (String "F" (String " " x))).
  by rewrite read_cycles by apply (ev_fetch e He).
Qed.
Lemma read_branch_entry i e L :
  read_branch true i (branch_line e :: L) = Ok (set_mispredicted i (e_mispredicted e), L).
Proof.
  cbn [read_branch getline].
  assert (Hp : String.prefix "@B " (branch_line e) = true)
    by (unfold branch_line; by destruct (e_mispredicted e)).
  by rewrite Hp, parseBranch_line.
Qed.

Lemma next_loop_entry s e rest :
  entry_valid e -> starts_entry rest -> (traceICache s || negb (traceBP s)) = true ->
  exists s', next_loop s (print_entry e ++ rest) =
      Ok (Some (deliver (traceBP s) (traceICache s) (traceDCache s) (instr s) e), s') /\
    settled s' rest /\ same_flags s s' /\
    instr s' = deliver (traceBP s) (traceICache s) (traceDCache s) (instr s) e.
Proof.
  intros He Hr Hf. pose proof (memory_lines_passed e) as Hm. unfold print_entry.
  cbn [app next_loop]. change (String.prefix "@I " (instr_line e)) with true. cbn iota.
  rewrite read_instr_after, parseInstr_entry by done. cbn [mbind res_bind].
  pose proof (instr_type_parsed (instr s) e) as Ht. set (i := parsed (instr s) e) in *.
  assert (Hfin : forall (j : Instruction) L,
    (exists L' pb, read_memory (traceDCache s) j L =
       Ok (deliver (traceBP s) (traceICache s) (traceDCache s) (instr s) e, L', pb) /\
       forall k, settled (after_memory s (instr_line e) (k, L', pb)) rest) ->
    exists s', (r ← read_memory (traceDCache s) j L; Ok (Some r.1.1, after_memory s (instr_line e) r)) =
      Ok (Some (deliver (traceBP s) (traceICache s) (traceDCache s) (instr s) e), s') /\
    settled s' rest /\ same_flags s s' /\
    instr s' = deliver (traceBP s) (traceICache s) (traceDCache s) (instr s) e).
  { intros j L (L' & pb & -> & Hset). eexists. split; [reflexivity|]. split; [apply Hset|].
    split; [|reflexivity]. unfold same_flags. split_and!; reflexivity. }
  unfold deliver in *. cbn zeta in Hfin |- *. fold i in Hfin |- *. rewrite <- Ht in Hfin |- *.
  destruct (traceICache s), (traceBP s); try discriminate Hf; clear Hf;
    rewrite ?read_fetch_entry by done; cbn [mbind res_bind];
    rewrite ?read_branch_entry; cbn [mbind res_bind read_fetch read_branch andb] in *; apply Hfin.
  - by apply (read_memory_lines s (instr_line e)
      (set_mispredicted (set_fetchCycles i (u32 (Z.of_N (e_fetch e)))) (e_mispredicted e))
      (traceDCache s) e rest).
  - apply (read_memory_missing s (instr_line e) (set_fetchCycles i (u32 (Z.of_N (e_fetch e))))
      (traceDCache s) (branch_line e :: memory_lines e) rest);
      [by constructor; [apply branch_line_passed|]|done|by unfold branch_line; destruct (e_mispredicted e)].
  - apply (read_memory_missing s (instr_line e) i (traceDCache s)
      (fetch_line e :: branch_line e :: memory_lines e) rest); [|done|done].
    by repeat (constructor; [first [apply fetch_line_passed|apply branch_line_passed]|]).
Qed.

(** Without the fetch cycles in the trace, the branch line is not found. *)
Lemma next_loop_no_branch s e rest :
  entry_valid e -> traceICache s = false -> traceBP s = true ->
  next_loop s (print_entry e ++ rest) = Stop ErrorExit.
Proof.
  intros He H1 H2. unfold print_entry. cbn [app next_loop].
  change (String.prefix "@I " (instr_line e)) with true. cbn iota.
  rewrite read_instr_after, parseInstr_entry, H1, H2 by done. done.
Qed.

(** ** The whole trace *)

(** Calling [next] until it returns the null pointer. *)
Fixpoint read_all (fuel : nat) (s : RiscvStream) : res (list Instruction) :=
  match fuel with
  | O => Stop OutOfFuel
  | S fuel' =>
      '(o, s') ← next s;
      match o with
      | None => Ok []
      | Some i => l ← read_all fuel' s'; Ok (i :: l)
      end
  end.

Lemma read_all_entries fuel s es :
  Forall entry_valid es -> settled s (print_trace es) -> (traceICache s || negb (traceBP s)) = true ->
  (List.length es < fuel)%nat ->
  read_all fuel s = Ok (deliver_all (traceBP s) (traceICache s) (traceDCache s) (instr s) es).
Proof.
  intros Hes. revert fuel s. induction Hes as [|e es He Hes IH]; intros fuel s Hs Hf Hl;
    (destruct fuel as [|fuel]; [cbn in Hl; lia|]); cbn [read_all]; rewrite (next_settled _ _ Hs).
  - reflexivity.
  - change (print_trace (e :: es)) with (print_entry e ++ print_trace es).
    destruct (next_loop_entry s e (print_trace es) He (print_trace_starts es) Hf)
      as (s' & -> & Hs' & (F1 & F2 & F3) & Hi). cbn [mbind res_bind].
    rewrite IH; [|exact Hs'|by rewrite F1, F2|cbn in Hl; lia].
    cbn [mbind res_bind deliver_all]. by rewrite F1, F2, F3, Hi.
Qed.

(** ** Every trace is read to an end *)

(** The lines left to read; an empty line put back ends the trace. *)
Definition left_over (last : string) (from_file : bool) (L : list string) : nat :=
  if from_file then List.length L else if String.eqb last "" then 0%nat else S (List.length L).
Definition pending (s : RiscvStream) : nat := left_over (lastInstrLine s) (readFromFile s) (traceFile s).

Lemma read_fetch_shorter on i L i' L' :
  read_fetch on i L = Ok (i', L') -> (List.length L' <= List.length L)%nat.
Proof.
  unfold read_fetch. destruct on; [|by intros [= <- <-]]. destruct L as [|l L]; cbn [getline]; [done|].
  destruct (String.prefix _ _); [|done]. destruct (parseFetchCycles l); [|done]. cbn.
  intros [= <- <-]. lia.
Qed.
Lemma read_branch_shorter on i L i' L' :
  read_branch on i L = Ok (i', L') -> (List.length L' <= List.length L)%nat.
Proof.
  unfold read_branch. destruct on; [|by intros [= <- <-]]. destruct L as [|l L]; cbn [getline]; [done|].
  destruct (String.prefix _ _); [|done]. destruct (parseBranch l); [|done]. cbn.
  intros [= <- <-]. lia.
Qed.
Lemma read_memory_shorter on i L i' L' pb line :
  read_memory on i L = Ok (i', L', pb) ->
  (left_over (default line pb) (match pb with Some _ => false | None => true end) L' <=
   List.length L)%nat.
Proof.
  unfold read_memory. destruct (on && _); [|intros [= <- <- <-]; cbn; lia].
  destruct L as [|l L]; cbn [getline].
  - intros [= <- <- <-]. cbn. lia.
  - destruct (String.prefix _ _).
    + destruct (parseMemoryCycles l); [|done]. cbn. intros [= <- <- <-]. cbn. lia.
    + intros [= <- <- <-]. unfold left_over. cbn [default from_option List.length].
      cbn iota. destruct (String.eqb (id l) ""); lia.
Qed.

Lemma next_loop_shorter s L i s' :
  next_loop s L = Ok (Some i, s') -> (pending s' < List.length L)%nat.
Proof.
  induction L as [|line L IH]; cbn [next_loop List.length]; [done|].
  destruct (String.prefix "@I " line).
  - rewrite read_instr_after. intros (i1 & _ & H)%res_bind_inv.
    apply res_bind_inv in H as ([i2 L2] & H2%read_fetch_shorter & H).
    apply res_bind_inv in H as ([i3 L3] & H3%read_branch_shorter & H).
    apply res_bind_inv in H as ([[i4 L4] pb] & H4 & H).
    apply (read_memory_shorter _ _ _ _ _ _ line) in H4. injection H as _ <-.
    unfold pending. cbn [after_memory lastInstrLine readFromFile traceFile]. lia.
  - destruct (_ || _); [|done]. intros H%IH. lia.
Qed.

Lemma next_shorter s i s' : next s = Ok (Some i, s') -> (pending s' < pending s)%nat.
Proof.
  unfold next, pending at 2, left_over. destruct (readFromFile s); [apply next_loop_shorter|].
  destruct (String.eqb (lastInstrLine s) ""); [done|]. apply next_loop_shorter.
Qed.

(** Neither the words of a line nor the lines of a trace run out of fuel. *)
Definition in_fuel {A} (r : res A) : Prop := r <> Stop OutOfFuel.
Lemma in_fuel_bind {A B} (m : res A) (f : A -> res B) :
  in_fuel m -> (forall x, in_fuel (f x)) -> in_fuel (m ≫= f).
Proof. destruct m as [x|e]; [intros _ H; apply H|]. unfold in_fuel. cbn. intros H _ [= ->]. done. Qed.
Lemma in_fuel_ok {A} (x : A) : in_fuel (Ok x).
Proof. done. Qed.
Lemma in_fuel_if {A} (b : bool) (r1 r2 : res A) : in_fuel r1 -> in_fuel r2 -> in_fuel (if b then r1 else r2).
Proof. by destruct b. Qed.

#[local] Create HintDb fuel.
#[local] Hint Resolve in_fuel_ok : fuel.
Ltac fuel :=
  repeat first
    [ solve [eauto with fuel] | apply in_fuel_bind; [|intros ?] | apply in_fuel_if
    | match goal with |- in_fuel (match ?x with _ => _ end) => destruct x end
    | discriminate ].

Lemma stoull16_fuel w : in_fuel (stoull16 w).
Proof. unfold stoull16. fuel. Qed.
Lemma stoull_fuel w : in_fuel (stoull w).
Proof. unfold stoull. fuel. Qed.
Lemma trim_word_fuel w : in_fuel (trim_word w).
Proof. unfold trim_word. fuel. Qed.
#[local] Hint Resolve stoull16_fuel stoull_fuel trim_word_fuel : fuel.
Lemma parse_words_fuel ws : in_fuel (parse_words ws).
Proof. unfold parse_words. fuel. Qed.
Lemma parseNext_fuel c : in_fuel (parseNext c).
Proof. unfold parseNext. fuel. Qed.
Lemma operand_words_fuel n ws : in_fuel (operand_words n ws).
Proof. revert n. induction ws; intros n; destruct n; cbn [operand_words]; fuel. Qed.
Lemma memory_access_fuel i op b a : in_fuel (memory_access i op b a).
Proof. unfold memory_access. fuel. Qed.
#[local] Hint Resolve parse_words_fuel parseNext_fuel operand_words_fuel memory_access_fuel : fuel.

Lemma parseInstr_fuel i line : in_fuel (parseInstr i line).
Proof. rewrite parseInstr_eq. unfold instr_of_words. fuel. Qed.
Lemma read_fetch_fuel on i L : in_fuel (read_fetch on i L).
Proof. unfold read_fetch, parseFetchCycles, stoul. fuel. Qed.
Lemma read_branch_fuel on i L : in_fuel (read_branch on i L).
Proof. unfold read_branch, parseBranch. fuel. Qed.
Lemma read_memory_fuel on i L : in_fuel (read_memory on i L).
Proof. unfold read_memory, parseMemoryCycles, stoul. fuel. Qed.
#[local] Hint Resolve parseInstr_fuel read_fetch_fuel read_branch_fuel read_memory_fuel : fuel.

Lemma next_loop_fuel s L : in_fuel (next_loop s L).
Proof. induction L; cbn [next_loop]; [fuel|]. rewrite read_instr_after. fuel. Qed.
Lemma next_fuel s : in_fuel (next s).
Proof.
  unfold next. destruct (readFromFile s); [apply next_loop_fuel|].
  destruct (String.eqb (lastInstrLine s) ""); [apply in_fuel_ok|apply next_loop_fuel].
Qed.

Lemma read_all_fuel fuel s : (pending s < fuel)%nat -> in_fuel (read_all fuel s).
Proof.
  revert s. induction fuel as [|fuel IH]; intros s Hf; [lia|]. cbn [read_all].
  destruct (next s) as [[[i|] s']|e] eqn:E; cbn [mbind res_bind].
  - apply next_shorter in E. apply in_fuel_bind; [apply IH; lia|]. done.
  - done.
  - pose proof (next_fuel s) as H. rewrite E in H. intros [= ->]. by apply H.
Qed.

(** ** What the cores need *)

Lemma regs_with_length c op i ops :
  (List.length (regs_with c op i ops) + marks c op i <= marks c op (i + List.length ops))%nat.
Proof.
  revert i. induction ops as [|name ops IH]; intros i; cbn [regs_with List.length].
  - by rewrite Nat.add_0_r.
  - specialize (IH (S i)). rewrite marks_S in IH.
    replace (i + S (List.length ops))%nat with (S i + List.length ops)%nat by lia.
    destruct (Ascii.eqb_spec (syntax_at op i) c) as [E|E].
    + rewrite decide_True in IH by done. destruct (_ && true); cbn [List.length]; lia.
    + rewrite decide_False in IH by done. rewrite andb_false_r. lia.
Qed.

Lemma reads_few op t ops :
  opcodeToTypeMap !! op = Some t -> (List.length ops <= MAX_OPERANDS)%nat ->
  (List.length (regs_with "R" op 0 ops) <= 3 /\ List.length (regs_with "W" op 0 ops) <= 1)%nat.
Proof.
  intros Ht Hl. pose proof (table_ok op t Ht) as Hok. unfold entry_ok in Hok. bool_to_prop.
  repeat match goal with H : (_ <=? _)%nat = true |- _ => apply Nat.leb_le in H end.
  pose proof (regs_with_length "R" op 0 ops) as HR. pose proof (regs_with_length "W" op 0 ops) as HW.
  pose proof (marks_mono "R" op _ _ Hl) as MR. pose proof (marks_mono "W" op _ _ Hl) as MW.
  unfold MAX_REG_RD, MAX_REG_WR in *. cbn [Nat.add] in HR, HW. lia.
Qed.

(** Cycles within [F] and [M], addresses of 64 bits. *)
Record holds (F M : Z) (i : Instruction) : Prop := {
  ho_fetch : 0 <= fetchCycles i < F;
  ho_ls : 0 <= i_lsCycles i < M;
  ho_bases : 0 <= memLoadBase i < 2 ^ 64 /\ 0 <= memStoreBase i < 2 ^ 64
}.
Record entry_proper (F M : Z) (e : Entry) : Prop := {
  ep_valid : entry_valid e;
  ep_fetch : Z.of_N (e_fetch e) < F;
  ep_cycles : forall n, e_cycles e = Some n -> Z.of_N n < M;
  ep_address : e_type e = Load \/ e_type e = Store -> is_Some (e_address e)
}.

Lemma parsed_ok i e F M : holds F M i -> entry_valid e ->
  holds F M (parsed i e) /\ 0 <= pc (parsed i e) < 2 ^ 64 /\
  (List.length (regRead (parsed i e)) <= 3)%nat /\
  (is_Some (e_address e) -> e_type e = Load -> is_load (parsed i e) = true) /\
  (is_Some (e_address e) -> e_type e = Store -> is_store (parsed i e) = true).
Proof.
  intros [H1 H2 [H3 H4]] He. pose proof He as [Hpc [t Ht] _ Hc Ha _ _].
  assert (Hl : (List.length (e_names e) <= MAX_OPERANDS)%nat) by (pose proof (syntax_length _ _ Ht); lia).
  destruct (reads_few _ _ (e_names e) Ht Hl) as [Hr _].
  assert (Hty : e_type e = t) by (unfold e_type; by rewrite Ht).
  unfold parsed, access_of. destruct (e_address e) as [a|] eqn:Ea.
  - specialize (Ha a eq_refl) as [Hr' Hm]. rewrite Hty in Hm.
    assert (Hb : 0 <= (if ExecutionType_is (e_type e) Atomic then 2 ^ 64 - 1 else a) < 2 ^ 64)
      by (destruct (ExecutionType_is _ _); lia).
    destruct (access_char _ _ Ht Hm) as (Hch & HL & HS & _). cbn zeta.
    set (b := if ExecutionType_is _ _ then _ else _) in *. clearbody b.
    set (c := at_key NUL memAccessMap (e_op e)) in *. clearbody c.
    rewrite Hty. split_and!.
    + destruct (Ascii.eqb c "L"), (Ascii.eqb c "S"); split; cbn; auto.
    + destruct (Ascii.eqb c "L"), (Ascii.eqb c "S"); cbn; lia.
    + destruct (Ascii.eqb c "L"), (Ascii.eqb c "S"); cbn; lia.
    + destruct (Ascii.eqb c "L"), (Ascii.eqb c "S"); cbn; lia.
    + intros _ E. by rewrite HL.
    + intros _ E. by rewrite HS.
  - cbn. split_and!; [split; cbn; auto|lia|lia|lia|..]; intros [? [=]].
Qed.

Lemma u32_id z : 0 <= z < 2 ^ 32 -> u32 z = z.
Proof. intros. unfold u32. by apply Z.mod_small. Qed.

Lemma deliver_ok bp ic dc i e F M : F <= 2 ^ 30 -> 1 < M <= 2 ^ 30 ->
  holds F M i -> entry_proper F M e ->
  holds F M (deliver bp ic dc i e) /\ instr_ok (deliver bp ic dc i e).
Proof.
  intros HF HM Hh [He Hf Hc Ha]. destruct (parsed_ok i e F M Hh He) as (Hp & Hpc & Hr & Hl & Hs).
  pose proof (instr_type_parsed i e) as Ht. set (j := parsed i e) in *.
  assert (Hh' : holds F M (deliver bp ic dc i e)).
  { unfold deliver. fold j. destruct Hp as [P1 P2 P3]. split.
    - destruct ic, bp, (dc && _); cbn; rewrite ?u32_id by lia; lia.
    - destruct (dc && _); [|by destruct ic, bp]. cbn.
      destruct (ic && bp); [|lia]. destruct (e_cycles e) as [n|]; [|lia].
      specialize (Hc n eq_refl). rewrite u32_id by lia. lia.
    - by destruct ic, bp, (dc && _). }
  split; [done|]. destruct Hh' as [Q1 Q2 Q3].
  assert (Heq : forall (P : Instruction -> Prop),
    (forall k x, P k -> P (set_fetchCycles k x)) -> (forall k x, P k -> P (set_mispredicted k x)) ->
    (forall k x, P k -> P (set_lsCycles k x)) -> P j -> P (deliver bp ic dc i e)).
  { intros P P1 P2 P3 Pj. unfold deliver. fold j. destruct ic, bp, (dc && _); auto. }
  split; [lia|lia|..].
  - apply (Heq (fun k => i_executionType k = Load -> is_load k = true)); [intros k x Hk; exact Hk..|].
    intros E. apply Hl; [apply Ha; left; congruence|congruence].
  - apply (Heq (fun k => i_executionType k = Store -> is_store k = true)); [intros k x Hk; exact Hk..|].
    intros E. apply Hs; [apply Ha; right; congruence|congruence].
  - by apply (Heq (fun k => List.length (regRead k) <= 3)%nat).
  - by apply (Heq (fun k => 0 <= pc k < 2 ^ 64)).
  - exact Q3.
Qed.

Lemma deliver_all_ok bp ic dc i es F M : F <= 2 ^ 30 -> 1 < M <= 2 ^ 30 ->
  holds F M i -> Forall (entry_proper F M) es ->
  Forall (fun j => holds F M j /\ instr_ok j) (deliver_all bp ic dc i es).
Proof.
  intros HF HM Hi Hes. revert i Hi. induction Hes as [|e es He Hes IH]; intros i Hi; [constructor|].
  cbn [deliver_all]. destruct (deliver_ok bp ic dc i e F M HF HM Hi He) as [Hh Ho].
  apply Forall_cons. split; [done|]. by apply IH.
Qed.

Lemma deliver_all_length bp ic dc i es : List.length (deliver_all bp ic dc i es) = List.length es.
Proof. revert i. induction es as [|e es IH]; intros i; [done|]. cbn. by rewrite IH. Qed.

(** ** A check of entries *)

Definition operand_check (o : operand) : bool :=
  match o with Reg r | Deref _ r => bool_decide (is_Some (regMap !! r)) | Imm _ => true end.
Definition u64_check (z : Z) : bool := (0 <=? z) && (z <? 2 ^ 64).
Definition entry_check (F M : Z) (e : Entry) : bool :=
  u64_check (e_pc e) && bool_decide (is_Some (opcodeToTypeMap !! e_op e)) &&
  forallb operand_check (e_operands e) &&
  (List.length (e_names e) <=? String.length (at_key "" syntaxMap (e_op e)))%nat &&
  from_option (fun a => u64_check a && accesses_memory (e_type e)) true (e_address e) &&
  (Z.of_N (e_fetch e) <? F) && from_option (fun n => Z.of_N n <? M) true (e_cycles e) &&
  (negb (ExecutionType_is (e_type e) Load || ExecutionType_is (e_type e) Store) ||
   bool_decide (is_Some (e_address e))).

Lemma entry_check_ok F M e : F <= 2 ^ 64 -> M <= 2 ^ 64 -> entry_check F M e = true -> entry_proper F M e.
Proof.
  intros HF HM H. unfold entry_check, u64_check in H. rewrite !andb_true_iff in H.
  destruct H as ((((((([H1 H1'] & H2) & H3) & H4) & H5) & H6) & H7) & H8).
  apply Z.leb_le in H1. apply Z.ltb_lt in H1'. apply bool_decide_eq_true_1 in H2.
  apply Nat.leb_le in H4. apply Z.ltb_lt in H6.
  assert (H7' : forall n, e_cycles e = Some n -> Z.of_N n < M).
  { intros n E. rewrite E in H7. apply Z.ltb_lt, H7. }
  split; [split| | |]; [lia|exact H2| |exact H4| |lia|intros n E; specialize (H7' n E); lia|exact H6|exact H7'|].
  - rewrite forallb_forall in H3. apply Forall_forall. intros o Ho.
    apply list_elem_of_In in Ho. specialize (H3 o Ho).
    destruct o; cbn in *; [exact (bool_decide_eq_true_1 _ H3)|exact I|exact (bool_decide_eq_true_1 _ H3)].
  - intros a E. rewrite E in H5. cbn in H5. rewrite !andb_true_iff in H5. destruct H5 as [[A1 A2] A3].
    apply Z.leb_le in A1. apply Z.ltb_lt in A2. split; [lia|exact A3].
  - intros [E|E]; rewrite E in H8; exact (bool_decide_eq_true_1 _ H8).
Qed.
Lemma entries_check_ok F M es : F <= 2 ^ 64 -> M <= 2 ^ 64 -> forallb (entry_check F M) es = true ->
  Forall (entry_proper F M) es.
Proof.
  intros HF HM H. rewrite forallb_forall in H. apply Forall_forall. intros e He.
  apply entry_check_ok; [done|done|]. apply H. by apply list_elem_of_In.
Qed.
