(* ===== verification/CalipersConvert.v ===== *)
(** * From a gem5 trace to a trace of Calipers

    infras/calipers/src/trace/instruction_stream.cpp: the constructor of
    [InstructionStream] and [convert_m5_trace_to_calipers_trace], with the path and
    string helpers of common/calipers_util.cpp.  A line of the gem5 trace is split at
    colons; the fetch, branch and memory lines are computed from its ticks in
    extended precision.  A file is the list of its lines with a flag that tells
    whether the last one ends in a newline: without it, the end of the file shows
    already when the last line is read. *)

From Stdlib Require Import QArith.
From stdpp Require Import strings pretty.
From S2P Require Import Prelude Machine External TraceParse Floats.

#[local] Open Scope string_scope.
#[local] Open Scope list_scope.
#[local] Open Scope Z_scope.

Module CalV.

(** ** common/calipers_util.cpp *)

(** [s.find(p) != npos]. *)
Definition contains (s p : string) : bool := bool_decide (is_Some (String.index 0 p s)).

(** [path.find_last_of('/', k)], over the first [k + 1] characters. *)
Fixpoint last_slash (s : string) : option nat :=
  match s with
  | "" => None
  | String c s' =>
      match last_slash s' with
      | Some k => Some (S k)
      | None => if Ascii.eqb c "/" then Some 0%nat else None
      end
  end.

(** Positions are of type [size_t]: one after [npos] is 0, and a length that
    wraps runs to the end of the text. *)
Definition get_linux_base_name (path : string) : string :=
  match last_slash path with Some k => drop_str (S k) path | None => path end.
Definition get_benchmark_name (path : string) : string :=
  match last_slash path with
  | None => path
  | Some O => drop_str 1 path
  | Some (S k) =>
      match last_slash (take_str (S k) path) with
      | Some j => take_str (S k - j - 1) (drop_str (S j) path)
      | None => take_str (S k) path
      end
  end.

Section convert.
Context `{B : Boost}.

Definition starts_with (s p : string) : bool := boost_starts_with s p.

(** The text after the equals sign of a segment, as a number of cycles. *)
Definition cycles_of (segments : list string) (k : nat) : res Q :=
  s ← seg segments k;
  t ← seg (split s "=") 1%nat;
  x ← stold t;
  Ok (ld_div x 1000).

(** Names of instructions that the stream knows otherwise. *)
Definition convert_inst (inst : string) : string :=
  if contains inst "fence" then inst
  else if contains inst "amoswap_w" then "amoswap_w" +:+ drop_str 12 inst
  else if contains inst "fmv_x_w" then "fmv_x_s" +:+ drop_str 7 inst
  else if contains inst "fmv_w_x" then "fmv_s_x" +:+ drop_str 7 inst
  else inst.
Definition inst_text (inst : string) : string :=
  if contains inst "fence" then "fence" else convert_inst inst.

Definition is_memory (type : string) : bool :=
  String.eqb type "MemRead" || String.eqb type "MemWrite" ||
  String.eqb type "FloatMemRead" || String.eqb type "FloatMemWrite".
Definition is_branch_inst (inst : string) : bool :=
  starts_with inst "beq" || starts_with inst "bne" || starts_with inst "bltu" ||
  starts_with inst "blt" || starts_with inst "bgeu" || starts_with inst "bge" ||
  starts_with inst "jalr" || starts_with inst "jal".

(** [s.substr(2)]. *)
Definition substr_2 (s : string) : res string :=
  if (2 <=? String.length s)%nat then Ok (drop_str 2 s) else Stop Uncaught.

Definition at_text (segments : list string) (type : string) : res string :=
  if is_memory type then
    s6 ← seg segments 6%nat;
    t ← seg (split s6 " ") 2%nat;
    a ← substr_2 t;
    Ok (" @A " +:+ a)
  else Ok "".

(** The fetch latency: nothing for an instruction of the line fetched last. *)
Definition fetch_text (segments : list string) (last fetch_cache_line : Q) : res string :=
  if ld_eq last fetch_cache_line then Ok "@F 0"
  else
    process_cache_completion ← cycles_of segments 8%nat;
    Ok ("@F " +:+ show_g (ld_sub process_cache_completion fetch_cache_line)).

(** The outcome of a branch: mispredicted if the next instruction is fetched after
    the branch completes; [next_line] is [None] at the end of the file. *)
Definition branch_text (inst : string) (segments : list string) (next_line : option string)
    : res string :=
  if is_branch_inst inst then
    match next_line with
    | Some next_line =>
        fetch_cache_line ← cycles_of (split next_line ":") 7%nat;
        complete ← cycles_of segments 23%nat;
        Ok (if ld_lt complete fetch_cache_line then "@B 0" else "@B 1")
    | None => Ok "@B 1"
    end
  else Ok "@B 1".

Definition memory_text (segments : list string) (type : string) : res (list string) :=
  if is_memory type then
    if String.eqb type "MemRead" then
      complete ← cycles_of segments 23%nat;
      complete_memory ← cycles_of segments 24%nat;
      Ok ["@M " +:+ show_g (ld_sub complete_memory complete)]
    else Ok ["@M 0"]
  else Ok [].

(** One round of the loop: the lines written, and the fetch time for the next. *)
Definition convert_line (last : Q) (line : string) (next_line : option string)
    : res (list string * Q) :=
  let segments := split line ":" in
  s3 ← seg segments 3%nat;
  s4 ← seg segments 4%nat;
  let inst := lstrip (rstrip s4) in
  pc ← seg (split s3 " ") 1%nat;
  s5 ← seg segments 5%nat;
  let type := rstrip (lstrip s5) in
  at_ ← at_text segments type;
  fetch_cache_line ← cycles_of segments 7%nat;
  f ← fetch_text segments last fetch_cache_line;
  b ← branch_text (convert_inst inst) segments next_line;
  m ← memory_text segments type;
  Ok (("@I " +:+ pc +:+ " " +:+ inst_text inst +:+ at_) :: f :: b :: m, fetch_cache_line).

(** The line the second reader is at while [rest] is left for the first. *)
Definition line_ahead (newline : bool) (rest : list string) : option string :=
  match rest with
  | [] => None
  | [l] => if newline then Some l else None
  | l :: _ => Some l
  end.

Fixpoint convert (newline : bool) (last : Q) (lines : list string) : res (list string) :=
  match lines with
  | [] => Ok []
  | line :: rest =>
      '(out, fetch) ← convert_line last line (line_ahead newline rest);
      outs ← convert newline fetch rest;
      Ok (out ++ outs)
  end.
Definition convert_m5_trace_to_calipers_trace (newline : bool) (lines : list string)
    : res (list string) := convert newline 0%Q lines.

(** The files the program reads and can write. *)
Record Files := mkFiles {
  contents : string -> option (list string * bool);
  writable : string -> bool
}.

Definition calipers_trace_file_name (m5_trace_file_name : string) : string :=
  "trace/" +:+ get_benchmark_name m5_trace_file_name +:+ "-" +:+
  get_linux_base_name m5_trace_file_name.

(** The constructor up to the opened trace: its lines. *)
Definition InstructionStream_new (fs : Files) (m5_trace_file_name : string) : res (list string) :=
  match contents fs m5_trace_file_name with
  | None => Stop ErrorExit
  | Some (lines, newline) =>
      out ← convert_m5_trace_to_calipers_trace newline lines;
      if writable fs (calipers_trace_file_name m5_trace_file_name) then Ok out else Stop ErrorExit
  end.

End convert.
End CalV.
