(* ===== verification/CalipersConvertFacts.v ===== *)
(** * A gem5 trace is converted to the entries it describes

    The lines of a gem5 trace as data; converting the printed lines gives the
    printed entries of a Calipers trace, with the cycles computed exactly.  First for
    any line the conversion can read ([M5]), by what the conversion itself takes it
    for; then for the lines gem5 writes ([Gem5]), by the name, type and class of the
    instruction alone. *)

From Stdlib Require Import QArith.
From stdpp Require Import strings pretty.
From S2P Require Import Prelude Machine External TraceParse ParseFacts Floats.
From S2P Require Import CalipersCycles CalipersScoreboard CalipersO3 CalipersO3Facts.
From S2P Require Import CalipersOpcodes CalipersStream CalipersStreamFacts CalipersStreamPrint.
From S2P Require Import CalipersStreamRead CalipersConvert.

#[local] Open Scope string_scope.
#[local] Open Scope list_scope.
#[local] Open Scope Z_scope.

Import CalG CalO CalT CalR CalV.

(** ** Texts *)

(** One text within another, as [find] looks for it. *)
Definition occurs (p s : string) : Prop := exists a b, s = a +:+ p +:+ b.

Lemma contains_occurs s p : contains s p = true <-> occurs p s.
Proof.
  unfold contains. rewrite bool_decide_eq_true. induction s as [|d s IH].
  - split.
    + intros [n Hn]. cbn in Hn. destruct p; [|done]. by exists "", "".
    + intros (a & b & E). destruct a; [|done]. destruct p; [by eexists|done].
  - change (String.index 0 p (String d s)) with
      (if String.prefix p (String d s) then Some 0%nat
       else match String.index 0 p s with Some n => Some (S n) | None => None end).
    destruct (String.prefix p (String d s)) eqn:Ep.
    + apply prefix_spec in Ep as [r Er]. split; [intros _; by exists "", r|by eexists].
    + assert (Hi : is_Some (match String.index 0 p s with Some n => Some (S n) | None => None end) <->
                   is_Some (String.index 0 p s)).
      { destruct (String.index 0 p s); split; intros [x Hx]; by eexists. }
      rewrite Hi, IH. split; [intros (a & b & ->); by exists (String d a), b|].
      intros (a & b & E). destruct a as [|d' a].
      * assert (Ht : String.prefix p (String d s) = true) by (apply prefix_spec; by exists b). congruence.
      * rewrite string_app_cons in E. injection E as _ E. by exists a, b.
Qed.
Lemma contains_false s p : ~ occurs p s -> contains s p = false.
Proof. intros H. destruct (contains s p) eqn:E; [|done]. by apply contains_occurs in E. Qed.

(** A text without a separator lies on one side of it. *)
Lemma prefix_before p a c b y :
  ~ char_of c p -> a +:+ String c b = p +:+ y -> exists r, a = p +:+ r.
Proof.
  revert a. induction p as [|d p IH]; intros a Hp E; [by exists a|].
  rewrite string_app_cons in E. destruct a as [|d' a].
  - injection E as -> _. destruct Hp. left.
  - rewrite string_app_cons in E. injection E as -> E. apply IH in E as [r ->]; [by exists r|].
    intros H. apply Hp. by right.
Qed.
Lemma occurs_apart p a c b :
  p <> "" -> ~ char_of c p -> occurs p (a +:+ String c b) -> occurs p a \/ occurs p b.
Proof.
  intros Hn Hp. induction a as [|d a IH]; intros (x & y & E).
  - destruct x as [|d x]; [|injection E as _ E; right; by exists x, y].
    destruct (prefix_before p "" c b y Hp E) as [r Er]. by destruct p.
  - destruct x as [|d' x].
    + destruct (prefix_before p (String d a) c b y Hp E) as [r Er]. left. by exists "", r.
    + rewrite !string_app_cons in E. injection E as -> E.
      destruct IH as [(x' & y' & ->)|H]; [by exists x, y| |by right].
      left. by exists (String d' x'), y'.
Qed.
Lemma occurs_words p l : p <> "" -> ~ char_of " " p ->
  occurs p (String.concat (String " " "") l) -> exists w, w ∈ l /\ occurs p w.
Proof.
  intros Hn Hp. induction l as [|w [|w' l] IH].
  - intros (a & b & E). by destruct a, p.
  - intros H. exists w. split; [left|done].
  - change (String.concat (String " " "") (w :: w' :: l))
      with (w +:+ String " " (String.concat (String " " "") (w' :: l))).
    intros [H|H]%occurs_apart; [exists w; split; [left|done]| |done|done].
    destruct (IH H) as (v & Hv & Ho). exists v. split; [by right|done].
Qed.

(** Blanks around a text are stripped. *)
Definition trimmed (s : string) : Prop :=
  s <> "" /\ (forall c, head (String.list_ascii_of_string s) = Some c -> isspace c = false) /\
  (forall c, last (String.list_ascii_of_string s) = Some c -> isspace c = false).
Definition padded (n : nat) (s : string) (m : nat) : string :=
  repeat_char n " " +:+ s +:+ repeat_char m " ".

Lemma lstrip_blanks n s : lstrip (repeat_char n " " +:+ s) = lstrip s.
Proof. induction n as [|n IH]; [done|]. exact IH. Qed.
Lemma rstrip_blanks s n : rstrip (s +:+ repeat_char n " ") = rstrip s.
Proof.
  induction s as [|c s IH].
  - change (rstrip (repeat_char n " ") = ""). induction n as [|n IH]; [done|].
    cbn [repeat_char rstrip]. by rewrite IH.
  - rewrite string_app_cons. cbn [rstrip]. by rewrite IH.
Qed.
Lemma strip_padded n s m : trimmed s ->
  lstrip (rstrip (padded n s m)) = s /\ rstrip (lstrip (padded n s m)) = s.
Proof.
  intros (Hn & Hh & Hl). unfold padded. split.
  - rewrite <- string_app_assoc, rstrip_blanks, rstrip_id, lstrip_blanks; [by apply lstrip_id|].
    intros c. rewrite list_ascii_app. destruct (rev_case (String.list_ascii_of_string s)) as [E|(l & x & E)].
    { by destruct s. }
    rewrite E, app_assoc, last_snoc. intros [= ->]. apply Hl. by rewrite E, last_snoc.
  - rewrite lstrip_blanks, lstrip_id, rstrip_blanks; [by apply rstrip_id|].
    intros c. destruct s as [|d s]; [done|]. apply Hh.
Qed.

(** ** Lines *)

(** A line of a gem5 trace.  [m_op] and [m_operands] are the instruction as the
    stream is to see it; the text is what gem5 wrote, before the names of some
    instructions are changed.  [m_cycle k] is the time of segment [k], in cycles. *)
Record M5 := mkM5 {
  m_head : string * string * string;
  m_pc : Z;
  m_where : nat * list (nat * string);
  m_text : string;
  m_op : string;
  m_operands : list operand;
  m_class : string;
  m_data : nat * string;
  m_address : nat * Z;
  m_more : list (nat * string);
  m_other : string;
  m_name : nat -> string;
  m_cycle : nat -> Z;
  m_pad : nat -> string;
  m_tail : list string
}.

Definition m_type (m : M5) : string := rstrip (lstrip (m_class m)).
Definition m_inst (m : M5) : string := lstrip (rstrip (m_text m)).

Definition pc_segment (m : M5) : string := runs " " (((m_where m).1, show_hex (m_pc m)) :: (m_where m).2).
Definition six_segment (m : M5) : string :=
  if is_memory (m_type m) then
    runs " " (m_data m :: ((m_address m).1, "A=" +:+ show_hex (m_address m).2) :: m_more m)
  else m_other m.
Definition tick_segment (m : M5) (k : nat) : string :=
  field (m_name m k) (pretty (Z.to_N (m_cycle m k * 1000)) +:+ m_pad m k).
Definition segments_of (m : M5) : list string :=
  [(m_head m).1.1; (m_head m).1.2; (m_head m).2; pc_segment m; m_text m; m_class m; six_segment m] ++
  (tick_segment m <$> seq 7 18) ++ m_tail m.
Definition print_m5 (m : M5) : string := String.concat (String ":" "") (segments_of m).

(** Runs of tokens as splitting expects them. *)
Definition runs_ok (l : list (nat * string)) : Prop :=
  Forall (fun p => no_blank p.2) l /\ Forall (fun p => p.2 <> "") (removelast l).

Record m5_valid `{Boost} (m : M5) : Prop := {
  mv_segments : Forall text_ok (segments_of m);
  mv_pc : 0 <= m_pc m < 2 ^ 64;
  mv_where : runs_ok (((m_where m).1, show_hex (m_pc m)) :: (m_where m).2);
  mv_text : inst_text (m_inst m) = String.concat (String " " "") (m_op m :: operand_texts (m_operands m));
  mv_six : is_memory (m_type m) = true ->
    runs_ok (m_data m :: ((m_address m).1, "A=" +:+ show_hex (m_address m).2) :: m_more m) /\
    0 <= (m_address m).2 < 2 ^ 64;
  mv_names : forall k, ~ char_of "=" (m_name m k);
  mv_pads : forall k, blank_rest (m_pad m k) /\ ~ char_of "=" (m_pad m k);
  mv_cycles : forall k, 0 <= m_cycle m k /\ m_cycle m k * 1000 < 2 ^ 64
}.

(** ** The entry a line describes *)

Section entry.
Context `{B : Boost} `{HB : !BoostLaws B}.

Definition m5_fetch (last : Z) (m : M5) : Z := if last =? m_cycle m 7 then 0 else m_cycle m 8 - m_cycle m 7.
Definition m5_mispredicted (m : M5) (next : option M5) : bool :=
  is_branch_inst (convert_inst (m_inst m)) &&
  match next with Some n => m_cycle m 23 <? m_cycle n 7 | None => false end.
Definition m5_memory (m : M5) : option Z :=
  if is_memory (m_type m) then
    Some (if String.eqb (m_type m) "MemRead" then m_cycle m 24 - m_cycle m 23 else 0)
  else None.
Definition m5_entry (last : Z) (m : M5) (next : option M5) : Entry :=
  mkEntry (m_pc m) (m_op m) (m_operands m)
    (if is_memory (m_type m) then Some (m_address m).2 else None)
    (Z.to_N (m5_fetch last m)) (m5_mispredicted m next) (Z.to_N <$> m5_memory m).

(** The latencies are printed without loss. *)
Definition latencies_ok (last : Z) (m : M5) : Prop :=
  0 <= m5_fetch last m < 10 ^ 6 /\ forall x, m5_memory m = Some x -> 0 <= x < 10 ^ 6.

Definition m5_ahead (newline : bool) (rest : list M5) : option M5 :=
  match rest with
  | [] => None
  | [m] => if newline then Some m else None
  | m :: _ => Some m
  end.
Fixpoint m5_entries (newline : bool) (last : Z) (ms : list M5) : list Entry :=
  match ms with
  | [] => []
  | m :: rest => m5_entry last m (m5_ahead newline rest) :: m5_entries newline (m_cycle m 7) rest
  end.
Fixpoint m5_latencies (last : Z) (ms : list M5) : Prop :=
  match ms with
  | [] => True
  | m :: rest => latencies_ok last m /\ m5_latencies (m_cycle m 7) rest
  end.

(** ** Segments *)

Lemma split_segments m : Forall text_ok (segments_of m) -> split (print_m5 m) ":" = segments_of m.
Proof. intros Hm. unfold split, print_m5. apply boost_split_join; [done|exact Hm]. Qed.

Lemma seg_head m k : (k < 7)%nat ->
  seg (segments_of m) k = seg [(m_head m).1.1; (m_head m).1.2; (m_head m).2; pc_segment m; m_text m;
                               m_class m; six_segment m] k.
Proof. intros Hk. unfold seg, segments_of. by rewrite lookup_app_l by (cbn; lia). Qed.
Lemma seg_tick m k : (7 <= k < 25)%nat -> seg (segments_of m) k = Ok (tick_segment m k).
Proof.
  intros Hk. unfold seg, segments_of. rewrite lookup_app_r by (cbn; lia).
  rewrite lookup_app_l by (rewrite length_fmap, length_seq; cbn; lia).
  rewrite list_lookup_fmap, lookup_seq_lt by (cbn; lia). cbn [fmap option_fmap option_map].
  do 2 f_equal. cbn. lia.
Qed.

Lemma field_concat name v : field name v = String.concat (String "=" "") [name; v].
Proof. done. Qed.

Lemma cycles_of_tick m k :
  m5_valid m -> (7 <= k < 25)%nat -> cycles_of (segments_of m) k = Ok (inject_Z (m_cycle m k)).
Proof.
  intros Hm Hk. pose proof (mv_names m Hm k) as Hn. pose proof (mv_pads m Hm k) as [Hb Hp].
  pose proof (mv_cycles m Hm k) as [Hc0 Hc].
  unfold cycles_of. rewrite seg_tick by done. cbn [mbind res_bind].
  set (v := pretty (Z.to_N (m_cycle m k * 1000)) +:+ m_pad m k).
  assert (Hv : ~ char_of "=" v).
  { unfold v. rewrite char_of_app. intros [H|H]; [|done]. revert H. by apply pretty_no_char. }
  assert (Hs : split (tick_segment m k) "=" = [m_name m k; v]).
  { unfold split, tick_segment. fold v.
    change (field (m_name m k) v) with (m_name m k +:+ (String "=" v)).
    assert (Hr : String "=" v = runs "=" [(0%nat, v)]).
    { cbn. by rewrite string_app_nil_r. }
    rewrite Hr. rewrite boost_split_runs; [done|done|by apply Forall_singleton|constructor]. }
  rewrite Hs. cbn [seg lookup list_lookup mbind res_bind].
  unfold v. rewrite stold_pretty by (lia || done). cbn [mbind res_bind].
  rewrite Z2N.id by lia. by rewrite ld_div_int by lia.
Qed.

Lemma runs_split l : runs_ok l -> split (runs " " l) " " = "" :: l.*2.
Proof.
  intros [H1 H2]. unfold split. change (runs " " l) with ("" +:+ runs " " l).
  apply boost_split_runs; [|exact H1|exact H2]. unfold char_of. cbn. apply not_elem_of_nil.
Qed.

(** ** One line *)

Lemma at_text_m5 m : m5_valid m ->
  at_text (segments_of m) (m_type m) =
  Ok (if is_memory (m_type m) then " @A " +:+ show_hex (m_address m).2 else "").
Proof.
  intros Hm. unfold at_text. destruct (is_memory (m_type m)) eqn:E; [|done].
  destruct (mv_six m Hm E) as [Hr _]. rewrite seg_head by lia. cbn [seg lookup list_lookup mbind res_bind].
  unfold six_segment. rewrite E, runs_split by done. done.
Qed.

Lemma fetch_text_m5 last m : m5_valid m -> latencies_ok last m ->
  fetch_text (segments_of m) (inject_Z last) (inject_Z (m_cycle m 7)) =
  Ok ("@F " +:+ pretty (Z.to_N (m5_fetch last m))).
Proof.
  intros Hm [Hf _]. unfold fetch_text, m5_fetch in *. rewrite ld_eq_int.
  destruct (last =? m_cycle m 7); [done|]. rewrite cycles_of_tick by (done || lia).
  cbn [mbind res_bind]. rewrite ld_sub_int by lia. by rewrite show_g_int by lia.
Qed.

Lemma memory_text_m5 last m : m5_valid m -> latencies_ok last m ->
  memory_text (segments_of m) (m_type m) =
  Ok (match m5_memory m with Some x => ["@M " +:+ pretty (Z.to_N x)] | None => [] end).
Proof.
  intros Hm [_ Hl]. unfold memory_text, m5_memory in *. destruct (is_memory (m_type m)); [|done].
  destruct (String.eqb (m_type m) "MemRead"); [|done]. specialize (Hl _ eq_refl).
  rewrite !cycles_of_tick by (done || lia). cbn [mbind res_bind].
  rewrite ld_sub_int by lia. by rewrite show_g_int by lia.
Qed.

Lemma branch_text_m5 m next : m5_valid m -> (forall n, next = Some n -> m5_valid n) ->
  branch_text (convert_inst (m_inst m)) (segments_of m) (print_m5 <$> next) =
  Ok ("@B " +:+ (if m5_mispredicted m next then "0" else "1")).
Proof.
  intros Hm Hn. unfold branch_text, m5_mispredicted. destruct (is_branch_inst _); [|done].
  destruct next as [n|]; [|done]. specialize (Hn n eq_refl). cbn [fmap option_fmap option_map andb].
  rewrite split_segments by apply Hn. rewrite !cycles_of_tick by (done || lia).
  cbn [mbind res_bind]. rewrite ld_lt_int. by destruct (_ <? _).
Qed.

Lemma concat_app_blank l1 l2 : l1 <> [] -> l2 <> [] ->
  String.concat (String " " "") (l1 ++ l2) =
  String.concat (String " " "") l1 +:+ String " " (String.concat (String " " "") l2).
Proof.
  intros H1 H2. induction l1 as [|a [|b l1] IH]; [done|by destruct l2|].
  change (String.concat (String " " "") ((a :: b :: l1) ++ l2))
    with (a +:+ String " " (String.concat (String " " "") ((b :: l1) ++ l2))).
  rewrite IH by done.
  change (String.concat (String " " "") (a :: b :: l1))
    with (a +:+ String " " (String.concat (String " " "") (b :: l1))).
  by rewrite string_app_assoc, string_app_cons.
Qed.

Lemma convert_line_m5 last m next :
  m5_valid m -> latencies_ok last m -> (forall n, next = Some n -> m5_valid n) ->
  convert_line (inject_Z last) (print_m5 m) (print_m5 <$> next) =
  Ok (print_entry (m5_entry last m next), inject_Z (m_cycle m 7)).
Proof.
  intros Hm Hl Hn. unfold convert_line. rewrite split_segments by apply Hm.
  rewrite !seg_head by lia. cbn [seg lookup list_lookup mbind res_bind].
  unfold pc_segment. rewrite runs_split by apply Hm.
  cbn [fmap list_fmap snd seg lookup list_lookup mbind res_bind].
  fold (m_type m) (m_inst m). rewrite at_text_m5 by done. cbn [mbind res_bind].
  rewrite cycles_of_tick by (done || lia). cbn [mbind res_bind].
  rewrite fetch_text_m5, branch_text_m5, (memory_text_m5 last) by done. cbn [mbind res_bind].
  rewrite (mv_text m Hm). unfold print_entry, instr_line, instr_words, memory_lines, m5_entry.
  cbn [e_pc e_op e_operands e_address e_fetch e_mispredicted e_cycles].
  do 2 f_equal. f_equal; [|do 2 f_equal; by destruct (m5_memory m)].
  set (ops := operand_texts (m_operands m)).
  assert (E : String.concat (String " " "") (show_hex (m_pc m) :: m_op m :: ops) =
    show_hex (m_pc m) +:+ " " +:+ String.concat (String " " "") (m_op m :: ops)) by done.
  destruct (is_memory (m_type m)); cbn [address_texts].
  - change (show_hex (m_pc m) :: m_op m :: ops ++ ?l) with ((show_hex (m_pc m) :: m_op m :: ops) ++ l).
    rewrite concat_app_blank by done. rewrite E. by rewrite !string_app_assoc.
  - rewrite app_nil_r, E. by rewrite string_app_nil_r.
Qed.

(** ** The whole trace *)

Lemma line_ahead_m5 newline ms :
  line_ahead newline (print_m5 <$> ms) = print_m5 <$> m5_ahead newline ms.
Proof. destruct ms as [|m [|m' ms]]; [done| |done]. by destruct newline. Qed.

Lemma m5_ahead_valid newline ms n : Forall m5_valid ms -> m5_ahead newline ms = Some n -> m5_valid n.
Proof.
  intros Hms. destruct ms as [|m [|m' ms]]; [done|..]; apply Forall_cons in Hms as [Hm _];
    [destruct newline; [|done]|]; by intros [= <-].
Qed.

Lemma convert_m5 newline last ms :
  Forall m5_valid ms -> m5_latencies last ms ->
  convert newline (inject_Z last) (print_m5 <$> ms) = Ok (print_trace (m5_entries newline last ms)).
Proof.
  revert last. induction ms as [|m ms IH]; intros last Hms Hl; [done|].
  apply Forall_cons in Hms as [Hm Hms]. destruct Hl as [Hl Hls].
  cbn [fmap list_fmap convert m5_entries]. rewrite line_ahead_m5.
  rewrite convert_line_m5; [|done|done|intros n; by apply m5_ahead_valid].
  cbn [mbind res_bind]. by rewrite IH.
Qed.

End entry.

(** ** A check of lines *)

Definition lacks (c : ascii) (s : string) : bool := negb (existsb (Ascii.eqb c) (String.list_ascii_of_string s)).
Lemma lacks_ok c s : lacks c s = true -> ~ char_of c s.
Proof.
  unfold lacks, char_of. intros H%negb_true_iff Hc. apply list_elem_of_In in Hc.
  assert (Ht : existsb (Ascii.eqb c) (String.list_ascii_of_string s) = true).
  { apply existsb_exists. exists c. split; [exact Hc|apply Ascii.eqb_refl]. }
  congruence.
Qed.
Definition nonempty (s : string) : bool := negb (String.eqb s "").
Lemma nonempty_ok s : nonempty s = true -> s <> "".
Proof. unfold nonempty. intros H%negb_true_iff. by apply String.eqb_neq. Qed.
Definition runs_check (l : list (nat * string)) : bool :=
  forallb (fun p => lacks " " p.2) l && forallb (fun p => nonempty p.2) (removelast l).
Lemma forallb_Forall {A} (f : A -> bool) (P : A -> Prop) l :
  (forall x, f x = true -> P x) -> forallb f l = true -> Forall P l.
Proof.
  intros Hf H. rewrite forallb_forall in H. apply Forall_forall. intros x Hx.
  apply Hf, H. by apply list_elem_of_In.
Qed.
Lemma runs_check_ok l : runs_check l = true -> runs_ok l.
Proof.
  unfold runs_check. intros [H1 H2]%andb_true_iff. split.
  - revert H1. apply forallb_Forall. intros x. apply lacks_ok.
  - revert H2. apply forallb_Forall. intros x. apply nonempty_ok.
Qed.

Definition m5_check `{Boost} (m : M5) : bool :=
  forallb (fun s => nonempty s && lacks ":" s) (segments_of m) && u64_check (m_pc m) &&
  runs_check (((m_where m).1, show_hex (m_pc m)) :: (m_where m).2) &&
  String.eqb (inst_text (m_inst m)) (String.concat (String " " "") (m_op m :: operand_texts (m_operands m))) &&
  (negb (is_memory (m_type m)) ||
   runs_check (m_data m :: ((m_address m).1, "A=" +:+ show_hex (m_address m).2) :: m_more m) &&
   u64_check (m_address m).2).

Lemma m5_check_ok `{Boost} m :
  m5_check m = true ->
  (forall k, lacks "=" (m_name m k) = true /\ lacks "=" (m_pad m k) = true /\ blank_rest (m_pad m k)) ->
  (forall k, 0 <= m_cycle m k /\ m_cycle m k * 1000 < 2 ^ 64) -> m5_valid m.
Proof.
  unfold m5_check, u64_check. rewrite !andb_true_iff. intros ((((H1 & H2 & H2') & H3) & H4) & H5) Hn Hc.
  apply Z.leb_le in H2. apply Z.ltb_lt in H2'. split.
  - revert H1. apply forallb_Forall. intros s [S1 S2]%andb_true_iff.
    split; [by apply nonempty_ok|by apply lacks_ok].
  - lia.
  - by apply runs_check_ok.
  - by apply String.eqb_eq.
  - intros E. rewrite E in H5. cbn [negb orb] in H5. rewrite !andb_true_iff in H5.
    destruct H5 as (R & A1 & A2). split; [by apply runs_check_ok|].
    apply Z.leb_le in A1. apply Z.ltb_lt in A2. lia.
  - intros k. apply lacks_ok. apply (Hn k).
  - intros k. destruct (Hn k) as (_ & N1 & N2). split; [exact N2|by apply lacks_ok].
  - exact Hc.
Qed.

(** ** What gem5 writes *)

(** The names under which gem5 writes an instruction of the tables. *)
Definition gem5_names (op : string) : list string :=
  if String.eqb op "amoswap_w" then ["amoswap_w_aq"; "amoswap_w_rl"]
  else if String.eqb op "fmv_x_s" then ["fmv_x_w"]
  else if String.eqb op "fmv_s_x" then ["fmv_w_x"]
  else [op].

Definition branch_type (t : ExecutionType) : bool :=
  match t with BranchCond | BranchUncond => true | _ => false end.
Definition compressed (op : string) : bool := String.prefix "c_" op.

(** The access a line of memory describes: its data, its address, and what follows. *)
Record Access := mkAccess {
  a_data : nat * string;
  a_address : nat * Z;
  a_more : list (nat * string)
}.
(** The class of an operation, with the segment that follows it. *)
Inductive op_class :=
  | MemRead (a : Access) | MemWrite (a : Access) | FloatMemWrite (a : Access)
  | NoAccess (name : string) (other : string).
Definition class_name (k : op_class) : string :=
  match k with
  | MemRead _ => "MemRead" | MemWrite _ => "MemWrite" | FloatMemWrite _ => "FloatMemWrite"
  | NoAccess name _ => name
  end.
Definition class_access (k : op_class) : option Access :=
  match k with MemRead a | MemWrite a | FloatMemWrite a => Some a | NoAccess _ _ => None end.

(** A line: instruction [g_op] of the tables, under the name [g_name]; only a fence has
    [g_flags].  [g_cycle k] is the time of segment [k], in cycles. *)
Record Gem5 := mkGem5 {
  g_head : string * string * string;
  g_pc : Z;
  g_where : nat * list (nat * string);
  g_op : string;
  g_operands : list operand;
  g_name : string;
  g_flags : string;
  g_class : op_class;
  g_blanks : nat * nat * (nat * nat);
  g_label : nat -> string;
  g_cycle : nat -> Z;
  g_pad : nat -> string;
  g_tail : list string
}.

Definition g_text (g : Gem5) : string :=
  String.concat (String " " "") (g_name g :: operand_texts (g_operands g)) +:+ g_flags g.
Definition g_where_runs (g : Gem5) : list (nat * string) :=
  ((g_where g).1, show_hex (g_pc g)) :: (g_where g).2.
Definition access_runs (a : Access) : list (nat * string) :=
  a_data a :: ((a_address a).1, "A=" +:+ show_hex (a_address a).2) :: a_more a.
Definition class_segment (k : op_class) : string :=
  match k with
  | MemRead a | MemWrite a | FloatMemWrite a => runs " " (access_runs a)
  | NoAccess _ other => other
  end.
Definition g_segments (g : Gem5) : list string :=
  [(g_head g).1.1; (g_head g).1.2; (g_head g).2; runs " " (g_where_runs g);
   padded (g_blanks g).1.1 (g_text g) (g_blanks g).1.2;
   padded (g_blanks g).2.1 (class_name (g_class g)) (g_blanks g).2.2; class_segment (g_class g)] ++
  ((fun k => field (g_label g k) (pretty (Z.to_N (g_cycle g k * 1000)) +:+ g_pad g k)) <$> seq 7 18) ++
  g_tail g.
Definition print_gem5 (g : Gem5) : string := String.concat (String ":" "") (g_segments g).

(** The name of the class is one word of its own, and not one of those of an access. *)
Definition class_ok (k : op_class) : Prop :=
  match k with
  | MemRead a | MemWrite a | FloatMemWrite a => runs_ok (access_runs a) /\ 0 <= (a_address a).2 < 2 ^ 64
  | NoAccess name _ =>
      trimmed name /\ Forall (fun s => name <> s) ["MemRead"; "MemWrite"; "FloatMemRead"; "FloatMemWrite"]
  end.

(** A line as gem5 writes it, of an instruction the tables know; a compressed branch,
    a load of a floating-point register and [fence_i] are left out. *)
Record gem5_proper (g : Gem5) : Prop := {
  gp_segments : Forall text_ok (g_segments g);
  gp_pc : 0 <= g_pc g < 2 ^ 64;
  gp_where : runs_ok (g_where_runs g);
  gp_op : exists t, opcodeToTypeMap !! g_op g = Some t /\ g_op g <> "fence_i" /\
    (branch_type t = true -> compressed (g_op g) = false);
  gp_operands : Forall operand_ok (g_operands g);
  gp_name : g_name g ∈ gem5_names (g_op g);
  gp_flags : if String.eqb (g_op g) "fence" then g_operands g = [] else g_flags g = "";
  gp_text : trimmed (g_text g);
  gp_class : class_ok (g_class g);
  gp_labels : forall k, ~ char_of "=" (g_label g k);
  gp_pads : forall k, blank_rest (g_pad g k) /\ ~ char_of "=" (g_pad g k);
  gp_cycles : forall k, 0 <= g_cycle g k /\ g_cycle g k * 1000 < 2 ^ 64
}.

(** ** The entries a trace describes *)

Definition g_branch (g : Gem5) : bool :=
  from_option branch_type false (opcodeToTypeMap !! g_op g).
(** The cycles of the access to the instruction cache; none for the line fetched last. *)
Definition fetch_time (last : Z) (g : Gem5) : Z :=
  if last =? g_cycle g 7 then 0 else g_cycle g 8 - g_cycle g 7.
(** The cycles of the access to memory; a store is not waited for. *)
Definition memory_time (g : Gem5) : option Z :=
  match g_class g with
  | MemRead _ => Some (g_cycle g 24 - g_cycle g 23)
  | MemWrite _ | FloatMemWrite _ => Some 0
  | NoAccess _ _ => None
  end.
(** Mispredicted: the instruction after a branch is fetched once the branch is complete. *)
Definition g_mispredicted (g : Gem5) (next : option Gem5) : bool :=
  g_branch g && match next with Some n => g_cycle g 23 <? g_cycle n 7 | None => false end.

Fixpoint described (last : Z) (gs : list Gem5) : list Entry :=
  match gs with
  | [] => []
  | g :: rest =>
      mkEntry (g_pc g) (g_op g) (g_operands g) ((fun a => (a_address a).2) <$> class_access (g_class g))
        (Z.to_N (fetch_time last g)) (g_mispredicted g (head rest)) (Z.to_N <$> memory_time g) ::
      described (g_cycle g 7) rest
  end.
Fixpoint short_times (last : Z) (gs : list Gem5) : Prop :=
  match gs with
  | [] => True
  | g :: rest =>
      0 <= fetch_time last g < 10 ^ 6 /\
      (forall x, memory_time g = Some x -> 0 <= x < 10 ^ 6) /\ short_times (g_cycle g 7) rest
  end.

(** ** Names of instructions *)

Definition markers : list string := ["fence"; "amoswap_w"; "fmv_x_w"; "fmv_w_x"].
Definition separators : list ascii := [" "; ","; "("; ")"]%char.
Lemma marker_chars p c : p ∈ markers -> c ∈ separators -> p <> "" /\ ~ char_of c p.
Proof.
  intros Hp Hc.
  assert (H : forallb (fun p => nonempty p && forallb (fun c => lacks c p) separators) markers = true)
    by reflexivity.
  rewrite forallb_forall in H. specialize (H p ltac:(by apply list_elem_of_In)).
  apply andb_true_iff in H as [H1 H2]. split; [by apply nonempty_ok|].
  rewrite forallb_forall in H2. apply lacks_ok, H2. by apply list_elem_of_In.
Qed.
Lemma blank_separator : " "%char ∈ separators.
Proof. unfold separators. set_solver. Qed.
Lemma marker_apart p a c b :
  p ∈ markers -> c ∈ separators -> occurs p (a +:+ String c b) -> occurs p a \/ occurs p b.
Proof. intros Hp Hc. destruct (marker_chars p c Hp Hc). by apply occurs_apart. Qed.

Lemma marker_not_register p r n : regMap !! r = Some n -> p ∈ markers -> ~ occurs p r.
Proof.
  intros Hr Hp Ho.
  assert (H : bool_decide (map_Forall (fun r (n : Z) => forallb (fun p => negb (contains r p)) markers = true)
                             regMap) = true) by (vm_compute; reflexivity).
  apply bool_decide_eq_true_1 in H. specialize (H r n Hr). cbn beta in H. rewrite forallb_forall in H.
  specialize (H p ltac:(by apply list_elem_of_In)). apply contains_occurs in Ho. by rewrite Ho in H.
Qed.
Lemma marker_not_int p z : p ∈ markers -> ~ occurs p (show_int z).
Proof.
  intros Hp (a & b & E).
  assert (Hc : exists c, char_of c p /\ digit_val c = None /\ c <> "-"%char).
  { unfold markers in Hp. rewrite !elem_of_cons, elem_of_nil in Hp.
    destruct Hp as [->|[->|[->|[->|[]]]]]; eexists; (split; [left|done]). }
  destruct Hc as (c & Hc & Hd & Hm). apply (show_int_no_char c z Hd Hm). rewrite E, !char_of_app. tauto.
Qed.
Lemma marker_not_empty p : p ∈ markers -> ~ occurs p "".
Proof.
  intros Hp (a & b & E). destruct (marker_chars p " " Hp blank_separator) as [Hn _]. by destruct a, p.
Qed.
Lemma marker_not_operand p o : p ∈ markers -> operand_ok o -> ~ occurs p (show_operand o).
Proof.
  intros Hp. destruct o as [r|z|off r]; cbn [operand_ok show_operand].
  - intros [n Hn]. exact (marker_not_register p r n Hn Hp).
  - intros _. exact (marker_not_int p z Hp).
  - intros [n Hn] H. apply marker_apart in H; [|exact Hp|unfold separators; clear; set_solver].
    destruct H as [H|H].
    + destruct off; [exact (marker_not_int p _ Hp H)|exact (marker_not_empty p Hp H)].
    + apply marker_apart in H; [|exact Hp|unfold separators; clear; set_solver].
      destruct H as [H|H]; [exact (marker_not_register p r n Hn Hp H)|exact (marker_not_empty p Hp H)].
Qed.
Lemma marker_not_texts p os w :
  p ∈ markers -> Forall operand_ok os -> w ∈ operand_texts os -> ~ occurs p w.
Proof.
  intros Hp. induction os as [|o [|o' os] IH]; intros Hos.
  - intros Hw. by apply elem_of_nil in Hw.
  - apply Forall_cons in Hos as [Ho _]. cbn [operand_texts]. intros ->%list_elem_of_singleton.
    exact (marker_not_operand p o Hp Ho).
  - apply Forall_cons in Hos as [Ho Hos].
    change (operand_texts (o :: o' :: os))
      with ((show_operand o +:+ String "," "") :: operand_texts (o' :: os)).
    intros [->|Hw]%elem_of_cons; [|exact (IH Hos Hw)].
    intros H. apply marker_apart in H; [|exact Hp|unfold separators; clear; set_solver].
    destruct H as [H|H]; [exact (marker_not_operand p o Hp Ho H)|exact (marker_not_empty p Hp H)].
Qed.
Lemma marker_in_name p name os :
  p ∈ markers -> Forall operand_ok os ->
  occurs p (String.concat (String " " "") (name :: operand_texts os)) -> occurs p name.
Proof.
  intros Hp Hos H. destruct (marker_chars p " " Hp blank_separator) as [Hn Hb].
  apply occurs_words in H as (w & Hw & Ho); [|exact Hn|exact Hb].
  apply elem_of_cons in Hw as [->|Hw]; [exact Ho|]. by destruct (marker_not_texts p os w Hp Hos Hw).
Qed.

(** ** The table *)

Definition branch_names : list string := ["beq"; "bne"; "bltu"; "blt"; "bgeu"; "bge"; "jalr"; "jal"].
Definition renamed : list string := ["fence"; "fence_i"; "amoswap_w"; "fmv_x_s"; "fmv_s_x"].
Definition names_check (op : string) (t : ExecutionType) : bool :=
  (existsb (String.eqb op) renamed || forallb (fun p => negb (contains op p)) markers) &&
  Bool.eqb (existsb (fun p => String.prefix p op) branch_names) (branch_type t && negb (compressed op)).
Lemma names_ok op t : opcodeToTypeMap !! op = Some t -> names_check op t = true.
Proof.
  revert op t.
  assert (H : bool_decide (map_Forall (fun op t => names_check op t = true) opcodeToTypeMap) = true)
    by (vm_compute; reflexivity).
  exact (bool_decide_eq_true_1 _ H).
Qed.

(** ** The conversion knows the instructions of the table *)

Section proper.
Context `{B : Boost} `{HB : !BoostLaws B}.

Definition after_name (l : list string) : string :=
  match l with [] => "" | _ => String " " (String.concat (String " " "") l) end.
Lemma concat_name name l : String.concat (String " " "") (name :: l) = name +:+ after_name l.
Proof. destruct l; [symmetry; apply string_app_nil_r|done]. Qed.

Lemma starts_with_name op l p :
  ~ char_of " " p -> starts_with (op +:+ after_name l) p = String.prefix p op.
Proof.
  intros Hp. unfold starts_with. apply eq_true_iff_eq. rewrite boost_starts_with_spec, prefix_spec. split.
  - intros [r E]. destruct l; [exists r; by rewrite <- E, string_app_nil_r|]. by eapply prefix_before.
  - intros [r ->]. exists (r +:+ after_name l). by rewrite string_app_assoc.
Qed.
Lemma is_branch_name op l t :
  opcodeToTypeMap !! op = Some t -> (branch_type t = true -> compressed op = false) ->
  is_branch_inst (op +:+ after_name l) = branch_type t.
Proof.
  intros Ht Hc. pose proof (names_ok op t Ht) as H. apply andb_true_iff in H as [_ H].
  apply Bool.eqb_prop in H. unfold is_branch_inst. rewrite !starts_with_name by (by apply lacks_ok).
  cbn [existsb branch_names] in H. rewrite orb_false_r, !orb_assoc in H. rewrite H.
  destruct (branch_type t); [by rewrite Hc|done].
Qed.

(** A name is left alone or changed to that of the table. *)
Lemma marker_absent p name os :
  p ∈ markers -> Forall operand_ok os -> contains name p = false ->
  contains (name +:+ after_name (operand_texts os)) p = false.
Proof.
  intros Hp Hos Hn. apply contains_false. rewrite <- concat_name. intros H%marker_in_name; [|done|done].
  apply contains_occurs in H. congruence.
Qed.
Lemma marker_found p name rest : contains name p = true -> contains (name +:+ rest) p = true.
Proof.
  rewrite !contains_occurs. intros (a & b & ->). exists a, (b +:+ rest). by rewrite !string_app_assoc.
Qed.

Lemma convert_name op t name os :
  opcodeToTypeMap !! op = Some t -> op <> "fence" -> op <> "fence_i" ->
  Forall operand_ok os -> name ∈ gem5_names op ->
  contains name "fence" = false /\
  convert_inst (name +:+ after_name (operand_texts os)) = op +:+ after_name (operand_texts os).
Proof.
  intros Ht Hf Hfi Hos Hn. pose proof (names_ok op t Ht) as H. clear Ht. apply andb_true_iff in H as [H _].
  assert (Hm : forall p, p ∈ markers -> contains name p = false ->
    contains (name +:+ after_name (operand_texts os)) p = false) by (intros p Hp; by apply marker_absent).
  unfold markers in Hm. unfold convert_inst, gem5_names in *.
  destruct (String.eqb_spec op "amoswap_w") as [->|N1].
  { rewrite !elem_of_cons, elem_of_nil in Hn.
    destruct Hn as [->|[->|[]]]; (split; [done|]); rewrite (Hm "fence"), (marker_found "amoswap_w") by (done || set_solver);
      done. }
  destruct (String.eqb_spec op "fmv_x_s") as [->|N2].
  { apply list_elem_of_singleton in Hn as ->. split; [done|].
    rewrite (Hm "fence"), (Hm "amoswap_w"), (marker_found "fmv_x_w") by (done || set_solver). done. }
  destruct (String.eqb_spec op "fmv_s_x") as [->|N3].
  { apply list_elem_of_singleton in Hn as ->. split; [done|].
    rewrite (Hm "fence"), (Hm "amoswap_w"), (Hm "fmv_x_w"), (marker_found "fmv_w_x") by (done || set_solver). done. }
  apply list_elem_of_singleton in Hn as ->.
  assert (Hr : existsb (String.eqb op) renamed = false).
  { cbn [existsb renamed]. apply String.eqb_neq in Hf, Hfi, N1, N2, N3. by rewrite Hf, Hfi, N1, N2, N3. }
  rewrite Hr, orb_false_l in H. rewrite forallb_forall in H.
  assert (Hc : forall p, p ∈ markers -> contains op p = false).
  { intros p Hp. apply negb_true_iff, H. by apply list_elem_of_In. }
  unfold markers in Hc. split; [apply Hc; set_solver|].
  by rewrite !Hm by (set_solver || (apply Hc; set_solver)).
Qed.

Lemma text_converted g t :
  gem5_proper g -> opcodeToTypeMap !! g_op g = Some t ->
  inst_text (g_text g) = String.concat (String " " "") (g_op g :: operand_texts (g_operands g)) /\
  is_branch_inst (convert_inst (g_text g)) = branch_type t.
Proof.
  intros Hg Ht. destruct (gp_op g Hg) as (t' & Ht' & Hfi & Hc). rewrite Ht in Ht'. injection Ht' as <-.
  pose proof (gp_flags g Hg) as Hf. pose proof (gp_name g Hg) as Hn. unfold g_text.
  destruct (String.eqb_spec (g_op g) "fence") as [E|E].
  - rewrite E in *. rewrite Hf. apply list_elem_of_singleton in Hn as ->. cbn [operand_texts String.concat].
    assert (Hm : contains ("fence" +:+ g_flags g) "fence" = true) by (by apply marker_found).
    unfold inst_text, convert_inst. rewrite Hm. split; [done|].
    assert (Ht' : t = Other) by (vm_compute in Ht; congruence). subst t.
    unfold is_branch_inst, starts_with.
    assert (Hs : forall p, String.prefix p ("fence" +:+ g_flags g) = false ->
      boost_starts_with ("fence" +:+ g_flags g) p = false).
    { intros p Hp. apply not_true_iff_false. rewrite boost_starts_with_spec, <- prefix_spec. by rewrite Hp. }
    by rewrite !Hs by done.
  - rewrite Hf, string_app_nil_r, !concat_name.
    destruct (convert_name _ _ _ _ Ht E Hfi (gp_operands g Hg) Hn) as [Hm Hv]. unfold inst_text.
    rewrite marker_absent; [|left|apply Hg|exact Hm]. rewrite Hv. split; [done|]. by apply is_branch_name.
Qed.

(** ** Proper lines are lines as the conversion reads them *)

Definition as_m5 (g : Gem5) : M5 :=
  let a := default (mkAccess (0%nat, "") (0%nat, 0) []) (class_access (g_class g)) in
  mkM5 (g_head g) (g_pc g) (g_where g) (padded (g_blanks g).1.1 (g_text g) (g_blanks g).1.2)
    (g_op g) (g_operands g) (padded (g_blanks g).2.1 (class_name (g_class g)) (g_blanks g).2.2)
    (a_data a) (a_address a) (a_more a) (class_segment (g_class g))
    (g_label g) (g_cycle g) (g_pad g) (g_tail g).

Lemma class_trimmed k : class_ok k -> trimmed (class_name k).
Proof.
  destruct k; cbn [class_ok class_name]; [..|by intros [H _]]; intros _;
    (split; [done|]); split; intros c [= <-]; done.
Qed.
Lemma class_memory k : class_ok k -> is_memory (class_name k) = bool_decide (is_Some (class_access k)).
Proof.
  destruct k as [a|a|a|name other]; cbn [class_ok class_name class_access]; [done..|].
  intros [_ H]. rewrite !Forall_cons in H. destruct H as (H1 & H2 & H3 & H4 & _).
  apply String.eqb_neq in H1, H2, H3, H4. unfold is_memory. by rewrite H1, H2, H3, H4.
Qed.

Lemma as_m5_type g : gem5_proper g -> m_type (as_m5 g) = class_name (g_class g).
Proof. intros Hg. apply strip_padded, class_trimmed, Hg. Qed.
Lemma as_m5_inst g : gem5_proper g -> m_inst (as_m5 g) = g_text g.
Proof. intros Hg. apply strip_padded, Hg. Qed.
Lemma as_m5_segments g : gem5_proper g -> segments_of (as_m5 g) = g_segments g.
Proof.
  intros Hg. assert (H6 : six_segment (as_m5 g) = class_segment (g_class g)).
  { unfold six_segment. rewrite as_m5_type, class_memory by apply Hg. unfold as_m5. by destruct (g_class g). }
  unfold segments_of. by rewrite H6.
Qed.

Lemma as_m5_valid g : gem5_proper g -> m5_valid (as_m5 g).
Proof.
  intros Hg. destruct (gp_op g Hg) as (t & Ht & _). split.
  - rewrite as_m5_segments by done. apply Hg.
  - apply Hg.
  - apply Hg.
  - rewrite as_m5_inst by done. by apply (text_converted g t).
  - rewrite as_m5_type, class_memory by apply Hg. pose proof (gp_class g Hg) as H. unfold as_m5.
    destruct (g_class g); [intros _; exact H..|done].
  - apply Hg.
  - apply Hg.
  - apply Hg.
Qed.

Lemma as_m5_memory g : gem5_proper g -> m5_memory (as_m5 g) = memory_time g.
Proof.
  intros Hg. pose proof (gp_class g Hg) as Hk. unfold m5_memory, memory_time.
  rewrite as_m5_type, class_memory by done. by destruct (g_class g).
Qed.
Lemma as_m5_mispredicted g next :
  gem5_proper g -> m5_mispredicted (as_m5 g) (as_m5 <$> next) = g_mispredicted g next.
Proof.
  intros Hg. destruct (gp_op g Hg) as (t & Ht & _). unfold m5_mispredicted, g_mispredicted, g_branch.
  rewrite as_m5_inst, Ht by done. destruct (text_converted g t Hg Ht) as [_ ->]. by destruct next.
Qed.
Lemma as_m5_entries last gs :
  Forall gem5_proper gs -> m5_entries true last (as_m5 <$> gs) = described last gs.
Proof.
  revert last. induction gs as [|g gs IH]; intros last Hgs; [done|]. apply Forall_cons in Hgs as [Hg Hgs].
  cbn [fmap list_fmap m5_entries described]. f_equal; [|by apply IH]. unfold m5_entry.
  assert (Ha : m5_ahead true (as_m5 <$> gs) = as_m5 <$> head gs) by (by destruct gs as [|? [|]]).
  rewrite Ha, as_m5_mispredicted, as_m5_memory, as_m5_type, class_memory by apply Hg.
  f_equal. unfold as_m5. by destruct (g_class g).
Qed.
Lemma as_m5_latencies last gs :
  Forall gem5_proper gs -> short_times last gs -> m5_latencies last (as_m5 <$> gs).
Proof.
  revert last. induction gs as [|g gs IH]; intros last Hgs; [done|]. apply Forall_cons in Hgs as [Hg Hgs].
  intros (H1 & H2 & H3). cbn [fmap list_fmap m5_latencies]. split; [|by apply IH].
  split; [exact H1|]. by rewrite as_m5_memory.
Qed.

Lemma convert_gem5 last gs :
  Forall gem5_proper gs -> short_times last gs ->
  convert true (inject_Z last) (print_gem5 <$> gs) = Ok (print_trace (described last gs)).
Proof.
  intros Hgs Hs. rewrite <- as_m5_entries, <- convert_m5; [|clear Hs|by apply as_m5_latencies|done].
  - f_equal. clear Hs. induction Hgs as [|g gs Hg Hgs IH]; [done|].
    cbn [fmap list_fmap]. f_equal; [|exact IH]. unfold print_gem5, print_m5. by rewrite as_m5_segments.
  - apply Forall_fmap. eapply Forall_impl; [exact Hgs|]. intros g. apply as_m5_valid.
Qed.

End proper.

(** ** A check of proper lines *)

Definition trimmed_check (s : string) : bool :=
  nonempty s && from_option (fun c => negb (isspace c)) true (head (String.list_ascii_of_string s)) &&
  from_option (fun c => negb (isspace c)) true (last (String.list_ascii_of_string s)).
Lemma trimmed_check_ok s : trimmed_check s = true -> trimmed s.
Proof.
  unfold trimmed_check. rewrite !andb_true_iff. intros [[H1 H2] H3].
  split; [by apply nonempty_ok|]. split; intros c E; rewrite E in *; by apply negb_true_iff.
Qed.
Definition access_check (a : Access) : bool := runs_check (access_runs a) && u64_check (a_address a).2.
Definition class_check (k : op_class) : bool :=
  match k with
  | MemRead a | MemWrite a | FloatMemWrite a => access_check a
  | NoAccess name _ => trimmed_check name && negb (is_memory name)
  end.
Lemma class_check_ok k : class_check k = true -> class_ok k.
Proof.
  assert (Ha : forall a, access_check a = true -> runs_ok (access_runs a) /\ 0 <= (a_address a).2 < 2 ^ 64).
  { intros a [H1 H2]%andb_true_iff. split; [by apply runs_check_ok|]. unfold u64_check in H2. bool_to_prop. lia. }
  destruct k; cbn [class_check class_ok]; [apply Ha..|].
  intros [H1 H2]%andb_true_iff. split; [by apply trimmed_check_ok|].
  unfold is_memory in H2. rewrite negb_true_iff, !orb_false_iff, !String.eqb_neq in H2.
  repeat (apply Forall_cons; split; [apply H2|]). by apply Forall_nil.
Qed.
Definition operand_check (o : operand) : bool :=
  match o with Reg r | Deref _ r => bool_decide (is_Some (regMap !! r)) | Imm _ => true end.
Definition op_check (op : string) : bool :=
  match opcodeToTypeMap !! op with
  | Some t => negb (String.eqb op "fence_i") && negb (branch_type t && compressed op)
  | None => false
  end.

Definition gem5_check (g : Gem5) : bool :=
  forallb (fun s => nonempty s && lacks ":" s) (g_segments g) && u64_check (g_pc g) &&
  runs_check (g_where_runs g) && op_check (g_op g) && forallb operand_check (g_operands g) &&
  existsb (String.eqb (g_name g)) (gem5_names (g_op g)) &&
  (if String.eqb (g_op g) "fence" then match g_operands g with [] => true | _ => false end
   else String.eqb (g_flags g) "") &&
  trimmed_check (g_text g) && class_check (g_class g).
Lemma gem5_check_ok g :
  gem5_check g = true ->
  (forall k, lacks "=" (g_label g k) = true /\ lacks "=" (g_pad g k) = true /\ blank_rest (g_pad g k)) ->
  (forall k, 0 <= g_cycle g k /\ g_cycle g k * 1000 < 2 ^ 64) -> gem5_proper g.
Proof.
  unfold gem5_check, u64_check. rewrite !andb_true_iff.
  intros ((((((((H1 & H2 & H2') & H3) & H4) & H5) & H6) & H7) & H8) & H9) Hn Hc.
  apply Z.leb_le in H2. apply Z.ltb_lt in H2'. split.
  - revert H1. apply forallb_Forall. intros s [S1 S2]%andb_true_iff.
    split; [by apply nonempty_ok|by apply lacks_ok].
  - lia.
  - by apply runs_check_ok.
  - unfold op_check in H4. destruct (opcodeToTypeMap !! g_op g) as [t|]; [|done].
    apply andb_true_iff in H4 as [O1 O2]. exists t. split; [reflexivity|].
    split; [by apply String.eqb_neq, negb_true_iff|]. intros E. rewrite E in O2. by apply negb_true_iff in O2.
  - revert H5. apply forallb_Forall. intros [r|z|off r]; cbn [operand_check operand_ok]; [|done|];
      apply bool_decide_eq_true_1.
  - apply existsb_exists in H6 as (x & Hx & ->%String.eqb_eq). by apply list_elem_of_In.
  - destruct (String.eqb (g_op g) "fence"); [by destruct (g_operands g)|by apply String.eqb_eq].
  - by apply trimmed_check_ok.
  - by apply class_check_ok.
  - intros k. apply lacks_ok. apply (Hn k).
  - intros k. destruct (Hn k) as (_ & N1 & N2). split; [exact N2|by apply lacks_ok].
  - exact Hc.
Qed.
