(* ===== verification/CalipersModels.v ===== *)
(** * The cache and branch predictor models a configuration can choose

    infras/calipers/src/memory/statistical_cache.h, ideal_cache.h and the constructor
    of real_cache.h; branch_predictor/statistical_bp.h; [split_string] of
    common/calipers_util.cpp.  A configuration text is a list of fields between
    colons.  The statistical models draw from [rand()]: [draws] are the numbers it
    will hand to this object, the next one first, whatever other objects draw in
    between. *)

From Stdlib Require Import QArith.
From stdpp Require Import strings.
From S2P Require Import Prelude Machine External TraceParse Floats CalipersCache CalipersCycles.
From S2P Require Import CalipersScoreboard CalipersO3.

#[local] Open Scope string_scope.
#[local] Open Scope list_scope.
#[local] Open Scope Z_scope.

Module CalM.

(** ** Configuration texts *)

Fixpoint split_go (c : ascii) (s : string) : string * list string :=
  match s with
  | "" => ("", [])
  | String d s' =>
      let '(w, ws) := split_go c s' in
      if Ascii.eqb d c then ("", w :: ws) else (String d w, ws)
  end.
Definition split_string (s : string) (c : ascii) : list string :=
  let '(w, ws) := split_go c s in w :: ws.

(** [uint32_t x = stoi(s);] and [uint32_t x = stof(s);]: the first wraps, the second
    drops the fraction and is undefined outside the range of the type. *)
Definition int_field (s : string) : res Z := x ← stoi s; Ok (CalS.u32 x).
Definition float_field (s : string) : res Z :=
  x ← stof s;
  let t := Z.quot (Qnum x) (QDen x) in
  if (0 <=? t) && (t <? 2 ^ 32) then Ok t else Stop Undefined.

(** ** Chance *)

(** [10 * rate] in single precision, compared with [rand() % 1000]. *)
Definition beats (r : Z) (rate : Q) : bool :=
  let v := round24 (inject_Z 10 * rate) in Qnum v <=? r * QDen v.
Definition draw (draws : nat -> Z) : Z := draws 0%nat mod 1000.
Definition drawn (draws : nat -> Z) : nat -> Z := fun k => draws (S k).

(** ** memory/statistical_cache.h *)

Record StatisticalCache := mkStatistical {
  loadHitRate : Q;
  loadHitCycles : Z;
  loadMissCycles : Z;
  storeHitRate : Q;
  storeHitCycles : Z;
  storeMissCycles : Z;
  c_draws : nat -> Z
}.

Definition StatisticalCache_new (draws : nat -> Z) (config : string) : res StatisticalCache :=
  match split_string config ":" with
  | [t0; t1; t2; t3; t4; t5] =>
      lr ← stof t0; lh ← int_field t1; lm ← int_field t2;
      sr ← stof t3; sh ← int_field t4; sm ← int_field t5;
      Ok (mkStatistical lr lh lm sr sh sm draws)
  | _ => Stop ErrorExit
  end.

Definition set_draws (s : StatisticalCache) : StatisticalCache :=
  mkStatistical (loadHitRate s) (loadHitCycles s) (loadMissCycles s) (storeHitRate s)
    (storeHitCycles s) (storeMissCycles s) (drawn (c_draws s)).
Definition statistical_load (s : StatisticalCache) : Z * StatisticalCache :=
  (if beats (draw (c_draws s)) (loadHitRate s) then loadMissCycles s else loadHitCycles s, set_draws s).
Definition statistical_store (s : StatisticalCache) : Z * StatisticalCache :=
  (if beats (draw (c_draws s)) (storeHitRate s) then storeMissCycles s else storeHitCycles s, set_draws s).

(** ** branch_predictor/statistical_bp.h *)

(** The prediction cycles are read and kept, and nothing uses them. *)
Record StatisticalBp := mkBp { accuracy : Q; bp_cycles : Z; b_draws : nat -> Z }.

Definition StatisticalBp_new (draws : nat -> Z) (config : string) : res StatisticalBp :=
  match split_string config ":" with
  | [t0; t1] => a ← stof t0; c ← int_field t1; Ok (mkBp a c draws)
  | _ => Stop ErrorExit
  end.
Definition statistical_mispredicted (b : StatisticalBp) : bool * StatisticalBp :=
  (beats (draw (b_draws b)) (accuracy b), mkBp (accuracy b) (bp_cycles b) (drawn (b_draws b))).

(** ** memory/real_cache.h *)

(** [m1] and [m2] are the memory of the two levels. *)
Definition RealCache_new (m1 m2 : Cal.Fresh) (config : string) : res Cal.RealCache :=
  match split_string config ":" with
  | [t0; t1; t2; t3; t4; t5; t6; t7; t8; t9] =>
      l1_size ← float_field t0; l1_assoc ← int_field t1;
      l2_size ← int_field t2; l2_assoc ← float_field t3;
      l1_load ← float_field t4; l2_load ← int_field t5; l2_miss ← int_field t6;
      l1_store ← float_field t7; l2_store ← int_field t8; l2_store_miss ← int_field t9;
      ci ← Cal.CacheInternals_new m1 m2 m2 3 l1_size l1_assoc l2_size l2_assoc;
      Ok (Cal.mkReal ci l1_load l2_load l2_miss l1_store l2_store l2_store_miss)
  | _ => Stop ErrorExit
  end.

(** ** The models *)

Inductive CacheModel :=
| IdealModel
| StatisticalModel (s : StatisticalCache)
| RealModel (r : Cal.RealCache).

End CalM.

(** The virtual functions of [Cache] and [BranchPredictor]. *)
#[export] Instance CacheModel_cache : Cache CalM.CacheModel := {
  cache_load := fun c base _ =>
    match c with
    | CalM.IdealModel => Ok (1, c)
    | CalM.StatisticalModel s =>
        let '(n, s) := CalM.statistical_load s in Ok (n, CalM.StatisticalModel s)
    | CalM.RealModel r => '(n, r) ← Cal.loadCycles r base; Ok (n, CalM.RealModel r)
    end;
  cache_store := fun c base _ =>
    match c with
    | CalM.IdealModel => Ok (1, c)
    | CalM.StatisticalModel s =>
        let '(n, s) := CalM.statistical_store s in Ok (n, CalM.StatisticalModel s)
    | CalM.RealModel r => '(n, r) ← Cal.storeCycles r base; Ok (n, CalM.RealModel r)
    end
}.
#[export] Instance StatisticalBp_predictor : BranchPredictor CalM.StatisticalBp :=
  { mispredicted := fun b _ => CalM.statistical_mispredicted b }.
