(* ===== verification/CalipersReport.v ===== *)
(** * The report of Calipers

    infras/calipers/src/graph/graph.cpp, [recordStats]: the text a core appends to
    the result file after a window or after the whole trace.  Shares and rates are
    computed in double precision and printed with four significant digits; a division
    by zero gives the infinities and the NaN that glibc prints as [inf] and [-nan] on
    x86.  A text is the list of its lines. *)

From Stdlib Require Import QArith.
From stdpp Require Import strings pretty.
From S2P Require Import Prelude Machine Floats CalipersCycles CalipersO3.

#[local] Open Scope string_scope.
#[local] Open Scope list_scope.
#[local] Open Scope Z_scope.

(** ** Double precision *)

Inductive Double := Finite (x : Q) | Infinite (negative : bool) | NaN.

Definition round53 (x : Q) : Q := round_bits 53 x.

(** [(double)a / (double)b] for two integers. *)
Definition ratio (a b : Z) : Double :=
  let x := round53 (inject_Z a) in
  let y := round53 (inject_Z b) in
  if b =? 0 then (if a =? 0 then NaN else Infinite (a <? 0)) else Finite (round53 (x / y)).
Definition percent (a b : Z) : Double :=
  match ratio a b with Finite x => Finite (round53 (x * inject_Z 100)) | d => d end.

(** [os << d] after [os << setprecision(4)]. *)
Definition show_double (d : Double) : string :=
  match d with
  | Finite x => show_prec 3 x
  | Infinite negative => if negative then "-inf" else "inf"
  | NaN => "-nan"
  end.

(** [os << z] for a signed number. *)
Definition show_int (z : Z) : string := if z <? 0 then "-" +:+ show_nat (- z) else show_nat z.

Module CalW.
Import CalG CalO.

(** ** recordStats *)

(** The labels, in the order of the lines. *)
Definition cycle_labels : list (string * CycleField) :=
  [("Good fetch hit cycles:  ", goodFetchHitCycles); ("Good fetch miss cycles: ", goodFetchMissCycles);
   ("Bad fetch hit cycles:   ", badFetchHitCycles); ("Bad fetch miss cycles:  ", badFetchMissCycles);
   ("Decode cycles:          ", decodeCycles); ("Dispatch cycles:        ", dispatchCycles);
   ("Int cycles:             ", intCycles); ("FP cycles:              ", fpCycles);
   ("LS cycles:              ", CalG.lsCycles); ("Load L1 hit cycles:     ", loadL1HitCycles);
   ("Load L2 hit cycles:     ", loadL2HitCycles); ("Load miss cycles:       ", loadMissCycles);
   ("Store L1 hit cycles:    ", storeL1HitCycles); ("Store L2 hit cycles:    ", storeL2HitCycles);
   ("Store miss cycles:      ", storeMissCycles); ("Branch cycles:          ", branchCycles);
   ("Syscall cycles:         ", syscallCycles); ("Atomic cycles:          ", atomicCycles);
   ("Other cycles:           ", otherCycles); ("Commit cycles:          ", CalG.commitCycles)].
Definition instruction_labels : list (string * InstructionField) :=
  [("Critical int instructions:    ", intInstructions); ("Critical fp instructions:     ", fpInstructions);
   ("Critical load instructions:   ", loadInstructions);
   ("Critical store instructions:  ", storeInstructions);
   ("Critical branch instructions: ", branchInstructions);
   ("Critical other instructions:  ", otherInstructions)].
Definition mix_labels : list string :=
  ["All int instructions:         "; "All fp instructions:          ";
   "All load instructions:        "; "All store instructions:       ";
   "All branch instructions:      "; "All other instructions:       "].

(** A line of a share: label, percentage and count. *)
Definition share_line (whole : Z) (p : string * Z) : string :=
  p.1 +:+ show_double (percent p.2 whole) +:+ "% (" +:+ show_int p.2 +:+ ")".

(** A lane of each of the counters. *)
Definition gather {F} (c : F -> Vector) (i : nat) (labels : list (string * F))
    : res (list (string * Z)) :=
  lanes (fun p => x ← Vector_get (c p.2) i; Ok (p.1, x)) labels.

(** The sum of the critical instructions, in signed arithmetic, as [uint64_t]. *)
Definition add_up (l : list Z) : res Z :=
  s ← res_fold (fun a x => i64 (a + x)) 0 l; Ok (u64 s).

(** Misses per thousand instructions, and the accuracy of the predictor. *)
Definition mpki_lines (t : Stats) (instructions : Z) : list string :=
  let mpki misses := show_double (ratio (u64 (1000 * misses)) instructions) in
  ["L1i MPKI:        " +:+ mpki (l1iMisses t);
   "L2i MPKI:        " +:+ mpki (l2iMisses t);
   "L1d MPKI:        " +:+ mpki (l1dMisses t);
   "L2d MPKI:        " +:+ mpki (l2dMisses t);
   "BP MPKI:         " +:+ mpki (bpMisses t);
   "BP accuracy (%): " +:+
     show_double (ratio (u64 (100 * u64 (branchCount t - bpMisses t))) (branchCount t))].

(** The block of [show_details]. *)
Definition details (g : Graph) (t : Stats) (k : key) (i : nat) (len window_instructions : Z)
    : res (list string) :=
  cycles ← gather (cycles_at g k) i cycle_labels;
  instructions ← gather (instructions_at g k) i instruction_labels;
  critical_instructions ← add_up instructions.*2;
  let mix := imap (fun j label => (label, nth j (instructionMix t) 0)) mix_labels in
  Ok ([""] ++ (share_line len <$> cycles) ++ [""] ++
      (share_line critical_instructions <$> instructions) ++ (share_line window_instructions <$> mix) ++
      [""] ++ mpki_lines t window_instructions ++ [""]).

(** One lane of the report. *)
Definition scenario (show_details hopping_window : bool) (g : Graph) (t : Stats)
    (instrCount analyzedWindows : Z) (i : nat) : res (list string) :=
  let window_instructions := u64 (instrCount - u64 (analyzedWindows * AnalysisWindow g)) in
  let last_vertex := VertexKey g (mkVertex InstrCommit (u64 (instrCount - 1))) in
  len ← Vector_get (length_at g last_vertex) i;
  d ← (if show_details then details g t last_vertex i len window_instructions else Ok []);
  Ok (["--------------------------------------------------------------";
       "*** " +:+ (if hopping_window then "Window " +:+ show_nat analyzedWindows +:+ ", " else "") +:+
         "Scenario " +:+ show_nat (Z.of_nat i);
       "";
       "Total instructions count:  " +:+ show_nat instrCount] ++
      (if hopping_window then ["Window instructions count: " +:+ show_nat window_instructions; ""] else []) ++
      ["Length: " +:+ show_int len;
       "ILP:    " +:+ show_double (ratio window_instructions len);
       "CPI:    " +:+ show_double (ratio len window_instructions)] ++ d).

(** What [recordStats] appends to the result file; the text after the second line
    also goes to the standard output. *)
Definition recordStats (traceFileName : string) (show_details hopping_window : bool) (g : Graph)
    (t : Stats) (instrCount analyzedWindows : Z) : res (list string) :=
  os ← lanes (scenario show_details hopping_window g t instrCount analyzedWindows) (seq 0 VECTOR_WIDTH);
  Ok (["=============================================================="; traceFileName] ++ mjoin os).

End CalW.
