(* ===== verification/CalipersMain.v ===== *)
(** * The program Calipers

    infras/calipers/src/common/main.cpp: the configuration file, the choice of the
    core and of its models, and the run of the graph over the instruction stream.
    The loops of [InorderCoreGraph::run] and [O3CoreGraph::run] are here with the
    calls of [next] between the steps and the report they append to the result file.
    The files, the results of [getopt_long_only] and what memory holds before it is
    set are parameters; the drawing of a window is not part of the model. *)

From Stdlib Require Import QArith.
From stdpp Require Import strings.
From S2P Require Import Prelude Machine External TraceParse Floats.
From S2P Require Import CalipersCache CalipersCycles CalipersScoreboard CalipersO3 CalipersInorder.
From S2P Require Import CalipersOpcodes CalipersStream CalipersConvert CalipersModels.
From S2P Require Import CalipersReport.

#[local] Open Scope string_scope.
#[local] Open Scope list_scope.
#[local] Open Scope Z_scope.

Module CalP.
Import CalG CalS CalO CalI CalR CalV CalM CalW.

Definition OOO_HOPPING_WINDOW : Z := 10000000.

Inductive CacheType := TraceC | IdealC | StatisticalC | RealC.
Inductive BranchPredictorType := TraceB | StatisticalB.

(** ** The configuration *)

Notation config_t := (gmap string string).

(** [iss >> s]: the next word between white space. *)
Fixpoint take_word (s : string) : string * string :=
  match s with
  | "" => ("", "")
  | String c s' => if isspace c then ("", s) else let '(w, r) := take_word s' in (String c w, r)
  end.
Definition config_line (line : string) : string * string :=
  let '(param, r) := take_word (lstrip line) in
  let '(val, _) := take_word (lstrip r) in
  (param, val).

(** [config[key]]: an entry that is missing is empty. *)
Definition config_at (c : config_t) (key : string) : string := default "" (c !! key).

Definition one_of (s : string) (l : list string) : bool := existsb (String.eqb s) l.
Definition caches : list string := ["TraceC"; "IdealC"; "StatisticalC"; "RealC"].

Definition check_config (c : config_t) : res config_t :=
  if negb (String.eqb (config_at c "ISA") "RISC-V") then Stop ErrorExit
  else if negb (one_of (config_at c "Core") ["InO"; "OoO"]) then Stop ErrorExit
  else if negb (one_of (config_at c "Branch_Predictor") ["TraceB"; "StatisticalB"]) then Stop ErrorExit
  else if negb (one_of (config_at c "I_Cache") caches) then Stop ErrorExit
  else if negb (one_of (config_at c "D_Cache") caches) then Stop ErrorExit
  else Ok c.

Definition read_config (lines : list string) : config_t :=
  foldl (fun c line => let '(param, val) := config_line line in <[param := val]> c) ∅ lines.
Definition extract_config (fs : Files) (config_file_name : string) : res config_t :=
  match contents fs config_file_name with
  | None => Stop ErrorExit
  | Some (lines, _) => check_config (read_config lines)
  end.

Definition use_bp_model (c : config_t) : bool := String.eqb (config_at c "Branch_Predictor") "TraceB".
Definition use_icache_model (c : config_t) : bool := String.eqb (config_at c "I_Cache") "TraceC".
Definition use_dcache_model (c : config_t) : bool := String.eqb (config_at c "D_Cache") "TraceC".

Definition bp_type (s : string) : BranchPredictorType :=
  if String.eqb s "TraceB" then TraceB else StatisticalB.
Definition cache_type (s : string) : CacheType :=
  if String.eqb s "TraceC" then TraceC
  else if String.eqb s "IdealC" then IdealC
  else if String.eqb s "StatisticalC" then StatisticalC
  else RealC.

(** An argument of a constructor: [stoi] of an entry as a 32-bit number. *)
Definition param (c : config_t) (key : string) : res Z := int_field (config_at c key).
Definition flag (c : config_t) (key : string) : res bool :=
  x ← stoi (config_at c key); Ok (negb (x =? 0)).

(** ** Memory *)

(** What memory holds before the program sets it: the instruction of the stream, the
    members and arrays the constructors leave alone, the caches, and the numbers
    [rand()] will give to each model. *)
Record Memory := mkMemory {
  mem_instr : Instruction;
  mem_branch : bool;
  mem_pc : Z;
  mem_mix : list Z;
  mem_array : Z -> list Z;
  mem_flags : Z -> list bool;
  mem_caches : Cal.Fresh * Cal.Fresh * (Cal.Fresh * Cal.Fresh);
  mem_draws : (nat -> Z) * (nat -> Z) * (nat -> Z)
}.

(** ** The graph *)

Notation O3 := (@O3CoreGraph CacheModel CacheModel StatisticalBp).
Inductive Core := InO (s : InorderCoreGraph) | OoO (s : O3).

Definition inorder_parameters (c : config_t) : res (InorderParams * list Z) :=
  fb ← param c "Fetch_Bandwidth"; db ← param c "Dispatch_Bandwidth";
  ib ← param c "Issue_Bandwidth"; cb ← param c "Commit_Bandwidth";
  dec ← param c "Decode_Cycles"; dis ← param c "Dispatch_Cycles";
  etc ← param c "Execute_To_Commit_Cycles"; pre ← param c "Prediction_Cycles";
  mis ← param c "Misprediction_Penalty"; mi ← param c "Mem_Issue_Bandwidth";
  mc ← param c "Mem_Commit_Bandwidth"; mm ← param c "Max_Mem_Accesses";
  ia ← param c "Int_ALU_Count"; im ← param c "Int_Mul_Count"; idv ← param c "Int_Div_Count";
  fp ← param c "FPU_Count"; ls ← param c "LSU_Count";
  ld ← flag c "Load_Dependent_Early_Issue"; le ← flag c "Load_Early_Issue";
  Ok (mkInorder fb db ib cb dec dis etc pre mis mi mc mm ld le, [ia; im; idv; fp; ls]).

Definition new_inorder (m : Memory) (c : config_t) : res Core :=
  '(p, units) ← inorder_parameters c;
  let u k := default 0 (units !! k) in
  s ← InorderCoreGraph_new (mem_branch m) (mem_pc m) (mem_mix m) p
        (u 0%nat) (u 1%nat) (u 2%nat) (u 3%nat) (u 4%nat);
  Ok (InO s).

Definition o3_parameters (c : config_t) : res (Params * Sizes) :=
  buf ← param c "Instr_Buffer_Size"; iq ← param c "Instr_Queue_Size";
  fb ← param c "Fetch_Bandwidth"; db ← param c "Dispatch_Bandwidth";
  ib ← param c "Issue_Bandwidth"; cb ← param c "Commit_Bandwidth";
  dec ← param c "Decode_Cycles"; dis ← param c "Dispatch_Cycles";
  etc ← param c "Execute_To_Commit_Cycles"; pre ← param c "Prediction_Cycles";
  mis ← param c "Misprediction_Penalty"; mi ← param c "Mem_Issue_Bandwidth";
  mc ← param c "Mem_Commit_Bandwidth"; ia ← param c "Int_ALU_Count";
  imd ← param c "Int_Mul_Div_Count"; fa ← param c "FP_ALU_Count";
  fmd ← param c "FP_Mul_Div_Count"; ls ← param c "LSU_Count";
  lq ← param c "LQ_Size"; sq ← param c "SQ_Size";
  Ok (mkParams buf fb db cb dec dis etc pre mis mi mc, mkSizes iq ib ia imd fa fmd ls lq sq).

(** The models, as the constructor of [O3CoreGraph] makes them. *)
Definition new_bp (draws : nat -> Z) (t : BranchPredictorType) (config : string)
    : res (option StatisticalBp) :=
  match t with
  | TraceB => Ok None
  | StatisticalB => b ← StatisticalBp_new draws config; Ok (Some b)
  end.
Definition new_cache (fresh : Cal.Fresh * Cal.Fresh) (draws : nat -> Z) (t : CacheType)
    (config : string) : res (option CacheModel) :=
  match t with
  | TraceC => Ok None
  | IdealC => Ok (Some IdealModel)
  | StatisticalC => s ← StatisticalCache_new draws config; Ok (Some (StatisticalModel s))
  | RealC => r ← RealCache_new fresh.1 fresh.2 config; Ok (Some (RealModel r))
  end.

Definition new_o3 (m : Memory) (c : config_t) : res Core :=
  '(p, z) ← o3_parameters c;
  bp ← new_bp (mem_draws m).1.1 (bp_type (config_at c "Branch_Predictor"))
         (config_at c "Branch_Predictor_Config");
  ic ← new_cache (mem_caches m).1 (mem_draws m).1.2 (cache_type (config_at c "I_Cache"))
         (config_at c "I_Cache_Config");
  dc ← new_cache (mem_caches m).2 (mem_draws m).2 (cache_type (config_at c "D_Cache"))
         (config_at c "D_Cache_Config");
  s ← O3CoreGraph_new (mem_array m (int_mul_div_count z)) (mem_array m (fp_mul_div_count z))
        (mem_mix m) (mem_flags m (u32 (lq_size z + sq_size z))) OOO_HOPPING_WINDOW p z ic dc bp;
  Ok (OoO s).

Section program.
Context `{B : Boost} `{H : HashOrder}.

Definition init (fs : Files) (m : Memory) (args : gmap string string) : res (Core * RiscvStream) :=
  c ← extract_config fs (config_at args "config");
  let trace_bp := use_bp_model c in
  let trace_icache := use_icache_model c in
  let trace_dcache := use_dcache_model c in
  lines ← InstructionStream_new fs (config_at args "trace");
  let st := RiscvStream_new (mem_instr m) lines trace_bp trace_icache trace_dcache in
  core ← (if String.eqb (config_at c "Core") "InO" then
            if trace_bp && trace_icache && trace_dcache then new_inorder m c else Stop ErrorExit
          else new_o3 m c);
  Ok (core, st).

(** ** The run *)

(** [anaylzeWindow] with the report it writes just before it counts the window. *)
Definition analyse_window (trace : string) (s : O3) : res (O3 * list string) :=
  s ← anaylzeWindow s;
  r ← recordStats trace true true (base s) (stats s) (instrCount s) (analyzedWindows s - 1);
  Ok (s, r).

(** Each call of [next] uses up a line, so the lines are enough fuel. *)
Fixpoint inorder_loop (fuel : nat) (s : InorderCoreGraph) (st : RiscvStream) : res InorderCoreGraph :=
  match fuel with
  | O => Stop OutOfFuel
  | S fuel' =>
      '(instr, st) ← next st;
      match instr with
      | None => Ok s
      | Some instr =>
          s ← i_model s instr;
          inorder_loop fuel' (i_set_count s (u64 (i_instrCount s + 1))) st
      end
  end.

Fixpoint o3_loop (fuel : nat) (trace : string) (s : O3) (st : RiscvStream) : res (O3 * list string) :=
  match fuel with
  | O => Stop OutOfFuel
  | S fuel' =>
      '(instr, st) ← next st;
      '(s, out) ← (if (0 <? instrCount s) && (instrCount s mod window s =? 0)
                   then '(s, r) ← analyse_window trace s; Ok (initBookKeeping s, r) else Ok (s, []));
      match instr with
      | None =>
          if instrCount s mod window s =? 0 then Ok (s, out)
          else '(s, r) ← analyse_window trace s; Ok (s, out ++ r)
      | Some instr =>
          s ← model s instr;
          '(s, out') ← o3_loop fuel' trace (set_counts s (u64 (instrCount s + 1)) (analyzedWindows s)) st;
          Ok (s, out ++ out')
      end
  end.

(** The core after the run, and the lines appended to the result file. *)
Definition run_core (trace : string) (core : Core) (st : RiscvStream) : res (Core * list string) :=
  let fuel := S (List.length (traceFile st)) in
  match core with
  | InO s =>
      s ← inorder_loop fuel s st;
      r ← recordStats trace true false (i_base s) (i_stats s) (i_instrCount s) 0;
      Ok (InO s, r)
  | OoO s => '(s, r) ← o3_loop fuel trace s st; Ok (OoO s, r)
  end.

(** ** The arguments *)

(** The options [getopt_long_only] returns, with [optarg]; [None] is a null pointer,
    from which a string cannot be made. *)
Definition put_arg (args : gmap string string) (key : string) (optarg : option string)
    : res (gmap string string) :=
  match optarg with Some s => Ok (<[key := s]> args) | None => Stop Undefined end.
Definition parse_option (args : gmap string string) (o : ascii * option string)
    : res (gmap string string) :=
  if Ascii.eqb o.1 "c" then put_arg args "config" o.2
  else if Ascii.eqb o.1 "t" then put_arg args "trace" o.2
  else if Ascii.eqb o.1 "o" then put_arg args "output" o.2
  else if Ascii.eqb o.1 "v" then put_arg args "view" o.2
  else Stop ErrorExit.
Definition parse_args (options : list (ascii * option string)) : res (gmap string string) :=
  args ← res_fold parse_option ∅ options;
  let args := match args !! "view" with None => <["view" := "false"]> args | Some _ => args end in
  if Nat.eqb (size args) 4 then Ok args else Stop ErrorExit.

(** ** main *)

(** Up to the end of the run. *)
Definition analyse (fs : Files) (m : Memory) (options : list (ascii * option string))
    : res (Core * list string) :=
  args ← parse_args options;
  '(core, st) ← init fs m args;
  run_core (config_at args "trace") core st.

(** [init] takes the pointer to the stream by value, so [main]'s own pointer is
    never set; [finish] deletes it.  [stray] is whether it holds anything but null. *)
Definition finish (stray : bool) : res unit := if stray then Stop Undefined else Ok tt.
Definition main (fs : Files) (m : Memory) (stray : bool) (options : list (ascii * option string))
    : res (Core * list string) :=
  r ← analyse fs m options;
  _ ← finish stray;
  Ok r.

End program.
End CalP.
