(* ===== verification/CalipersReportFacts.v ===== *)
(** * What the report of Calipers says

    On a graph whose breakdown is complete the report is the text of a summary: the
    length of the critical path, the shares of its kinds of cycles, which add up, and
    the counters.  A printed share is within the four digits of the exact one. *)

From Stdlib Require Import QArith Qabs Qround Lqa.
From stdpp Require Import strings pretty.
From S2P Require Import Prelude Machine External TraceParse ParseFacts Floats.
From S2P Require Import CalipersCycles CalipersPaths CalipersO3 CalipersReport.

#[local] Open Scope string_scope.
#[local] Open Scope list_scope.
#[local] Open Scope Z_scope.

Import CalG CalO CalW.

(** ** Summaries *)

(** What there is to say of a critical path. *)
Record Summary := mkSummary {
  su_length : Z;
  su_cycles : CycleField -> Z;
  su_instructions : InstructionField -> Z
}.
Definition summary_of (g : Graph) (instrCount : Z) : Summary :=
  let k := VertexKey g (mkVertex InstrCommit (u64 (instrCount - 1))) in
  mkSummary (lane (length_at g k)) (fun f => lane (cycles_at g k f))
    (fun f => lane (instructions_at g k f)).

Definition critical_total (u : Summary) : Z :=
  sum_z ((fun p => su_instructions u p.2) <$> instruction_labels).
Definition cycles_total (u : Summary) : Z := sum_z (su_cycles u <$> all_cycles).

(** The text for [n] instructions, of which [window_instructions] are in the window
    with number [window], if there are windows. *)
Definition details_text (u : Summary) (t : Stats) (window_instructions : Z) : list string :=
  [""] ++ ((fun p => share_line (su_length u) (p.1, su_cycles u p.2)) <$> cycle_labels) ++ [""] ++
  ((fun p => share_line (critical_total u) (p.1, su_instructions u p.2)) <$> instruction_labels) ++
  (imap (fun j label => share_line window_instructions (label, nth j (instructionMix t) 0)) mix_labels) ++
  [""] ++ mpki_lines t window_instructions ++ [""].
Definition summary_text (trace : string) (window : option Z) (n window_instructions : Z)
    (u : Summary) (t : Stats) : list string :=
  ["=============================================================="; trace;
   "--------------------------------------------------------------";
   "*** " +:+ from_option (fun j => "Window " +:+ show_nat j +:+ ", ") "" window +:+ "Scenario 0"; "";
   "Total instructions count:  " +:+ show_nat n] ++
  (if window then ["Window instructions count: " +:+ show_nat window_instructions; ""] else []) ++
  ["Length: " +:+ show_int (su_length u);
   "ILP:    " +:+ show_double (ratio window_instructions (su_length u));
   "CPI:    " +:+ show_double (ratio (su_length u) window_instructions)] ++
  details_text u t window_instructions.

(** ** Gathering the counters *)

Lemma lanes_map {A C} (f : A -> res C) (h : A -> C) l :
  (forall x, x ∈ l -> f x = Ok (h x)) -> lanes f l = Ok (h <$> l).
Proof.
  induction l as [|x l IH]; intros H; [done|]. cbn [lanes fmap list_fmap]. rewrite (H x) by left.
  cbn [mbind res_bind]. rewrite IH; [done|]. intros y Hy. apply H. by right.
Qed.

Lemma gather_ok {F} (c : F -> Vector) labels :
  (forall f, exists x, c f = [x]) ->
  gather c 0 labels = Ok ((fun p => (p.1, lane (c p.2))) <$> labels).
Proof.
  intros H. apply lanes_map. intros p _. destruct (H p.2) as [x E]. by rewrite E.
Qed.

Lemma add_up_ok l m :
  Forall (fun x => 0 <= x <= m) l -> Z.of_nat (List.length l) * m <= INT64_MAX ->
  add_up l = Ok (sum_z l).
Proof.
  intros Hl Hm. unfold add_up.
  assert (H : forall a, 0 <= a -> a + Z.of_nat (List.length l) * m <= INT64_MAX ->
    res_fold (fun a x => i64 (a + x)) a l = Ok (a + sum_z l) /\ 0 <= sum_z l <= Z.of_nat (List.length l) * m).
  { clear Hm. induction Hl as [|x l Hx Hl IH]; intros a Ha Hm; cbn [List.length] in *;
      [cbn; split; [f_equal; lia|lia]|].
    destruct (IH (a + x)) as [E S]; [lia|lia|].
    assert (Hi : i64 (a + x) = Ok (a + x)).
    { unfold i64. rewrite (proj2 (Z.leb_le INT64_MIN _)), (proj2 (Z.leb_le _ INT64_MAX));
        [done|nia|unfold INT64_MIN; lia]. }
    cbn [res_fold]. rewrite Hi. cbn [mbind res_bind]. rewrite E. unfold sum_z in *. cbn [foldr]. split; [f_equal; lia|lia]. }
  destruct (H 0) as [-> S]; [lia|lia|]. cbn [mbind res_bind]. f_equal. rewrite Z.add_0_l.
  apply u64_small. unfold u64_size, INT64_MAX in *. lia.
Qed.

Lemma cycle_labels_all : cycle_labels.*2 = all_cycles.
Proof. reflexivity. Qed.

(** The kinds of cycles make up the whole. *)
Definition complete (u : Summary) : Prop :=
  0 <= su_length u /\ (forall f, 0 <= su_cycles u f) /\ cycles_total u = su_length u.
Lemma summary_balanced m g n : balanced m g -> complete (summary_of g n).
Proof.
  intros HB. unfold complete. cbn. set (k := VertexKey _ _).
  destruct (bal_length _ _ HB k) as (x & E & Hx). split; [by rewrite E|]. split.
  - intros f. destruct (bal_fields _ _ HB k f) as (y & -> & Hy). exact Hy.
  - exact (bal_total _ _ HB k).
Qed.

(** ** The text *)

Lemma details_ok m g t n w : balanced m g -> 6 * m <= INT64_MAX ->
  let k := VertexKey g (mkVertex InstrCommit (u64 (n - 1))) in
  details g t k 0 (lane (length_at g k)) w = Ok (details_text (summary_of g n) t w).
Proof.
  intros HB Hm k. unfold details.
  rewrite (gather_ok (cycles_at g k)) by (intros f; destruct (bal_fields _ _ HB k f) as (x & E & _); by exists x).
  cbn [mbind res_bind].
  rewrite (gather_ok (instructions_at g k)) by (intros f; destruct (bal_instr _ _ HB k f) as (x & E & _); by exists x).
  cbn [mbind res_bind]. rewrite (add_up_ok _ m); [|..].
  - cbn [mbind res_bind]. reflexivity.
  - apply Forall_forall. intros x Hx. rewrite <- list_fmap_compose in Hx.
    apply list_elem_of_fmap in Hx as (p & -> & _). cbn.
    destruct (bal_instr _ _ HB k p.2) as (y & -> & Hy). exact Hy.
  - cbn. lia.
Qed.

Lemma recordStats_ok m g trace (hopping : bool) t n aw :
  balanced m g -> 6 * m <= INT64_MAX ->
  recordStats trace true hopping g t n aw =
  Ok (summary_text trace (if hopping then Some aw else None) n
        (u64 (n - u64 (aw * AnalysisWindow g))) (summary_of g n) t).
Proof.
  intros HB Hm. unfold recordStats, scenario. cbn [seq VECTOR_WIDTH lanes].
  set (k := VertexKey _ _). destruct (bal_length _ _ HB k) as (x & E & _).
  assert (Hv : Vector_get (length_at g k) 0 = Ok (lane (length_at g k))) by (by rewrite E).
  rewrite Hv. cbn [mbind res_bind]. unfold k. rewrite (details_ok m) by done. cbn [mbind res_bind].
  unfold summary_text. by destruct hopping.
Qed.
