(* ===== verification/CalipersMainFacts.v ===== *)
(** * Running a core over the stream

    The loops of the cores with [next] between the steps do what the cores do on the
    list of the instructions read; the models a configuration can choose are caches
    the cores can work with. *)

From Stdlib Require Import QArith.
From stdpp Require Import strings pretty.
From S2P Require Import Prelude Machine External TraceParse ParseFacts Floats.
From S2P Require Import CalipersCache CalipersFacts CalipersCycles CalipersScoreboard CalipersO3.
From S2P Require Import CalipersO3Facts CalipersInorder CalipersOpcodes CalipersStream.
From S2P Require Import CalipersStreamRead CalipersConvert CalipersConvertFacts CalipersModels.
From S2P Require Import CalipersMain CalipersCycles CalipersPaths CalipersO3Steps CalipersO3Trace.
From S2P Require Import CalipersReport CalipersReportFacts.

#[local] Open Scope string_scope.
#[local] Open Scope list_scope.
#[local] Open Scope Z_scope.

Import CalG CalS CalO CalI CalR CalV CalM CalW CalP.

(** ** The models *)

Definition statistical_ok (s : StatisticalCache) : Prop :=
  Forall (fun n => 0 <= n < 2 ^ 30)
    [loadHitCycles s; loadMissCycles s; storeHitCycles s; storeMissCycles s].
Definition model_ok (c : CacheModel) : Prop :=
  match c with
  | IdealModel => True
  | StatisticalModel s => statistical_ok s
  | RealModel r => real_ok r
  end.

#[export] Instance CacheModel_laws : CacheLaws CacheModel.
Proof.
  refine {| cache_ok := model_ok |}; intros c b l Hc Hb; destruct c as [|s|r]; cbn in *.
  - exists 1, IdealModel. split; [done|]. split; [lia|done].
  - eexists _, _. split; [done|]. split; [|exact Hc]. unfold statistical_ok in Hc.
    rewrite !Forall_cons in Hc. destruct (beats _ _); tauto.
  - destruct (@cache_load_ok _ _ RealCache_laws r b l Hc Hb) as (n & r' & E & Hn & Hr). cbn in E. rewrite E.
    exists n, (RealModel r'). split; [done|]. split; [exact Hn|exact Hr].
  - exists 1, IdealModel. split; [done|]. split; [lia|done].
  - eexists _, _. split; [done|]. split; [|exact Hc]. unfold statistical_ok in Hc.
    rewrite !Forall_cons in Hc. destruct (beats _ _); tauto.
  - destruct (@cache_store_ok _ _ RealCache_laws r b l Hc Hb) as (n & r' & E & Hn & Hr). cbn in E. rewrite E.
    exists n, (RealModel r'). split; [done|]. split; [exact Hn|exact Hr].
Defined.

(** A rate of [p] percent: of the thousand remainders, [10 * p] are hits. *)
Lemma beats_percent r p : 0 <= p <= 100 -> beats r (inject_Z p) = (10 * p <=? r).
Proof.
  intros Hp. unfold beats, round24.
  rewrite (round_bits_eq 24 _ (inject_Z (10 * p))) by (by rewrite inject_Z_mult).
  rewrite round_int by lia. cbn. by rewrite Z.mul_1_r.
Qed.

(** ** The loops *)

Section loops.
Context `{B : Boost} `{Hash : HashOrder}.

Lemma inorder_loop_list fuel s st l :
  read_all fuel st = Ok l -> inorder_loop fuel s st = i_run s l.
Proof.
  revert s st l. induction fuel as [|fuel IH]; intros s st l Hr; [done|]. cbn [read_all inorder_loop] in *.
  destruct (next st) as [[[i|] st']|e]; [|by injection Hr as <-|done]. cbn [mbind res_bind] in *.
  apply res_bind_inv in Hr as (l' & Hl & [= <-]). unfold i_run. cbn [res_fold].
  destruct (i_model s i) as [s1|]; [|done]. cbn [mbind res_bind]. by apply IH.
Qed.

(** The report of an analysed window. *)
Definition window_report (trace : string) (w : O3) : res (list string) :=
  recordStats trace true true (base w) (stats w) (instrCount w) (analyzedWindows w - 1).
Definition reported (trace : string) (text : O3 -> list string) (ws : list O3) : Prop :=
  Forall (fun w => window_report trace w = Ok (text w)) ws.

Lemma analyse_window_ok trace s s' r :
  anaylzeWindow s = Ok s' -> window_report trace s' = Ok r -> analyse_window trace s = Ok (s', r).
Proof. intros E R. unfold analyse_window. rewrite E. cbn [mbind res_bind]. fold (window_report trace s'). by rewrite R. Qed.

Lemma o3_loop_list fuel trace text s st l ws s' :
  read_all fuel st = Ok l -> run_windows s l = Ok (ws, s') -> reported trace text ws ->
  o3_loop fuel trace s st = Ok (s', mjoin (text <$> ws)).
Proof.
  revert s st l ws s'. induction fuel as [|fuel IH]; intros s st l ws s' Hr Hw Ht; [done|].
  cbn [read_all o3_loop] in *.
  destruct (next st) as [[i st']|e]; [|done]. cbn [mbind res_bind] in *.
  assert (Hl : match i with None => l = [] | Some i => exists l', read_all fuel st' = Ok l' /\ l = i :: l' end).
  { destruct i as [i|]; [|by injection Hr as <-]. apply res_bind_inv in Hr as (l' & E & [= <-]). eauto. }
  clear Hr.
  assert (Hh : exists ws1 s1, head_windows s = Ok (ws1, s1)).
  { destruct l; cbn [run_windows] in Hw; destruct (head_windows s) as [[ws1 s1]|]; eauto; discriminate. }
  destruct Hh as (ws1 & s1 & Hh).
  assert (Ho : reported trace text ws1 ->
    (if (0 <? instrCount s) && (instrCount s mod window s =? 0)
     then '(s, r) ← analyse_window trace s; Ok (initBookKeeping s, r) else Ok (s, [])) =
    Ok (s1, mjoin (text <$> ws1))).
  { intros H1. unfold head_windows in Hh. destruct (_ && _); [|by injection Hh as <- <-].
    apply res_bind_inv in Hh as (s2 & Ea & [= <- <-]). unfold reported in H1. rewrite Forall_singleton in H1.
    rewrite (analyse_window_ok _ _ _ _ Ea H1). cbn. by rewrite app_nil_r. }
  destruct i as [i|]; [destruct Hl as (l' & Hl & ->)|subst l]; cbn [run_windows] in Hw; rewrite Hh in Hw;
    cbn [mbind res_bind] in Hw.
  - apply res_bind_inv in Hw as (s2 & Em & Hw). apply res_bind_inv in Hw as ([ws' s3] & Ew & [= <- <-]).
    unfold reported in Ht; apply Forall_app in Ht as [Ht1 Ht2]. rewrite (Ho Ht1). cbn [mbind res_bind]. rewrite Em.
    cbn [mbind res_bind]. fold (advance s2). rewrite (IH _ _ _ _ _ Hl Ew Ht2). cbn [mbind res_bind].
    by rewrite fmap_app, join_app.
  - destruct (_ =? 0) eqn:Ez in Hw.
    + injection Hw as <- <-. rewrite (Ho Ht). cbn [mbind res_bind]. by rewrite Ez.
    + apply res_bind_inv in Hw as (s2 & Ea & [= <- <-]). unfold reported in Ht; apply Forall_app in Ht as [Ht1 Ht2].
      rewrite (Ho Ht1). cbn [mbind res_bind]. rewrite Ez. rewrite Forall_singleton in Ht2.
      rewrite (analyse_window_ok _ _ _ _ Ea Ht2). cbn [mbind res_bind].
      rewrite fmap_app, join_app. cbn. by rewrite app_nil_r.
Qed.

(** The text of a window, and that it is its report. *)
Definition window_text (trace : string) (w : O3) : list string :=
  let before := (analyzedWindows w - 1) * AnalysisWindow (base w) in
  summary_text trace (Some (analyzedWindows w - 1)) (instrCount w) (instrCount w - before)
    (summary_of (base w) (instrCount w)) (stats w).
Lemma window_ends_reported trace W N j ws :
  0 < W -> 0 <= j -> 0 <= N < 2 ^ 62 -> 6 * load_of N <= INT64_MAX ->
  window_ends W N j ws -> reported trace (window_text trace) ws.
Proof.
  intros HW Hj HN Hm Hws. apply Forall_lookup_2. intros i w Hi.
  destruct (Hws i w Hi) as [Ew [Ec Eb] En Es]. unfold window_report.
  rewrite (recordStats_ok (load_of (instrCount w))); [|apply Es|unfold load_of in *; lia].
  unfold window_text. rewrite En, Ew. replace (j + Z.of_nat i + 1 - 1) with (j + Z.of_nat i) by lia.
  rewrite !u64_small; [done| |]; unfold u64_size; rewrite ?u64_small; unfold u64_size; nia.
Qed.

(** An error of the stream stops the loops, if the core has not stopped them before. *)
Lemma first_error fuel st e : next st = Stop e ->
  (forall s, inorder_loop (S fuel) s st = Stop e) /\ (forall trace s, o3_loop (S fuel) trace s st = Stop e).
Proof. intros E. split; intros; cbn [inorder_loop o3_loop]; by rewrite E. Qed.

(** ** The stream of a converted trace *)

Context `{HB : !BoostLaws B}.

Lemma new_settled mem bp ic dc es :
  settled (RiscvStream_new mem (print_trace es) bp ic dc) (print_trace es).
Proof. unfold settled. cbn. by exists []. Qed.

Lemma read_all_new mem bp ic dc es :
  Forall entry_valid es -> (ic || negb bp) = true ->
  read_all (S (List.length (print_trace es))) (RiscvStream_new mem (print_trace es) bp ic dc) =
  Ok (deliver_all bp ic dc mem es).
Proof.
  intros Hes Hf.
  apply (read_all_entries _ (RiscvStream_new mem (print_trace es) bp ic dc) es Hes); [apply new_settled|done|].
  assert (List.length es <= List.length (print_trace es))%nat; [|lia].
  clear. induction es as [|e es IH]; [done|].
  change (print_trace (e :: es)) with (print_entry e ++ print_trace es).
  rewrite length_app. unfold print_entry. cbn [List.length]. lia.
Qed.

Lemma stream_m5 fs name ms newline :
  contents fs name = Some (print_m5 <$> ms, newline) ->
  writable fs (calipers_trace_file_name name) = true ->
  Forall m5_valid ms -> m5_latencies 0 ms ->
  InstructionStream_new fs name = Ok (print_trace (m5_entries newline 0 ms)).
Proof.
  intros Hc Hw Hms Hl. unfold InstructionStream_new. rewrite Hc.
  unfold convert_m5_trace_to_calipers_trace. change 0%Q with (inject_Z 0).
  rewrite convert_m5 by done. cbn [mbind res_bind]. by rewrite Hw.
Qed.

Lemma m5_entries_length newline last ms : List.length (m5_entries newline last ms) = List.length ms.
Proof. revert last. induction ms as [|m ms IH]; intros last; [done|]. cbn. by rewrite IH. Qed.

End loops.
