(* ===== verification/CalipersStreamTheorems.v ===== *)
(** * Properties of the trace stream

    The tables are well formed; an instruction line is read within the bounds of the
    arrays; every trace is read to an end; a printed trace is read back when the stream
    takes the fetch cycles from it, and what is lost otherwise. *)

From stdpp Require Import strings pretty.
From S2P Require Import Prelude Machine External TraceParse ParseFacts CalipersCycles.
From S2P Require Import CalipersScoreboard CalipersO3 CalipersO3Facts CalipersOpcodes.
From S2P Require Import CalipersStream CalipersStreamFacts CalipersStreamPrint CalipersStreamRead.
From S2P Require Import CalipersConvert CalipersConvertFacts CalipersMainFacts.

#[local] Open Scope string_scope.
#[local] Open Scope list_scope.
#[local] Open Scope Z_scope.

Import CalG CalO CalT CalR.

Lemma existsb_elem z l : existsb (Z.eqb z) l = true -> z ∈ l.
Proof. intros (y & Hy & ->%Z.eqb_eq)%existsb_exists. by apply list_elem_of_In. Qed.

Lemma access_ok_spec t acc len : access_ok t acc len = true ->
  (accesses_memory t = true <-> acc <> NUL) /\
  (t = Load -> acc = "L"%char) /\ (t = Store -> acc = "S"%char) /\
  len ∈ (if accesses_memory t then [1; 2; 4; 8] else [0]).
Proof.
  unfold access_ok. intros [Ha Hb]%andb_true_iff.
  destruct t; cbn [accesses_memory ExecutionType_is orb] in *; try discriminate Ha;
    try (apply andb_true_iff in Ha as [Ha Hz]; apply Z.eqb_eq in Hz; subst len);
    repeat (apply orb_true_iff in Ha as [Ha|Ha]);
    apply Ascii.eqb_eq in Ha; subst acc; split_and!; try discriminate; try (by apply existsb_elem);
    try (by split; [|intros []]); try left; done.
Qed.

Lemma syntax_marked op n j :
  forallb (fun j => Ascii.eqb (syntax_at op j) "W" || Ascii.eqb (syntax_at op j) "R") (seq 0 n) = true ->
  (j < n)%nat -> syntax_at op j = "W"%char \/ syntax_at op j = "R"%char.
Proof.
  intros Hm Hj. rewrite forallb_forall in Hm. specialize (Hm j ltac:(apply in_seq; lia)).
  apply orb_true_iff in Hm as [E|E]; apply Ascii.eqb_eq in E; auto.
Qed.

Lemma at_key_some {V} (d : V) m k : is_Some (m !! k) -> m !! k = Some (at_key d m k).
Proof. intros [v Hv]. unfold at_key. by rewrite Hv. Qed.

(** C25: The tables are well formed.  Every opcode that has an execution type is a name
    with an entry in the other maps as well; its syntax marks at most four operands,
    each as written or read, at most one as written and three as read, so the arrays
    of an instruction can hold them; it has a memory access exactly if it is a load, a
    store or an atomic operation, a load marked L and a store marked S, of 1, 2, 4 or 8
    bytes; and it is 2 or 4 bytes long, except [fmin_d], whose length was never
    entered. *)
Theorem opcode_table_typed op t (Ht : opcodeToTypeMap !! op = Some t) :
  let syn := at_key "" syntaxMap op in
  let acc := at_key NUL memAccessMap op in
  is_name op = true /\ syntaxMap !! op = Some syn /\ memAccessMap !! op = Some acc /\
  (String.length syn <= MAX_OPERANDS)%nat /\
  (forall j, (j < String.length syn)%nat -> syntax_at op j = "W"%char \/ syntax_at op j = "R"%char) /\
  (marks "W" op MAX_OPERANDS <= MAX_REG_WR)%nat /\ (marks "R" op MAX_OPERANDS <= MAX_REG_RD)%nat /\
  (accesses_memory t = true <-> acc <> NUL) /\
  (t = Load -> acc = "L"%char) /\ (t = Store -> acc = "S"%char) /\
  at_key 0 memLengthMap op ∈ (if accesses_memory t then [1; 2; 4; 8] else [0]) /\
  at_key 0 bytesMap op ∈ (if String.eqb op "fmin_d" then [0] else [2; 4]).
Proof.
  pose proof (table_ok op t Ht) as Hok. pose proof (syntax_length op t Ht) as Hl.
  unfold entry_ok in Hok. rewrite !andb_true_iff in Hok.
  destruct Hok as (((((((H1 & H2) & H3) & H4) & _) & H6) & H7) & H8).
  apply bool_decide_eq_true_1 in H7 as (S1 & S2 & _). destruct (access_ok_spec _ _ _ H6) as (A1 & A2 & A3 & A4).
  intros syn acc. split; [exact H1|]. split; [by apply at_key_some|]. split; [by apply at_key_some|].
  split; [exact Hl|]. split; [intros j; by apply syntax_marked|].
  split; [by apply Nat.leb_le|]. split; [by apply Nat.leb_le|].
  split; [exact A1|]. split; [exact A2|]. split; [exact A3|]. split; [exact A4|].
  destruct (String.eqb op "fmin_d"); [|by apply existsb_elem].
  apply Z.eqb_eq in H8. rewrite H8. left.
Qed.

Lemma opcode_table_typed_witness :
  syntaxMap !! "fmadd_d" = Some "WRRR" /\ at_key 0 bytesMap "fmin_d" ∈ [0].
Proof.
  split.
  - destruct (opcode_table_typed "fmadd_d" FpMul) as (_ & E & _); [by vm_compute|].
    rewrite E. by vm_compute.
  - destruct (opcode_table_typed "fmin_d" FpBase) as (_ & _ & _ & _ & _ & _ & _ & _ & _ & _ & _ & E);
      [by vm_compute|exact E].
Defined.

(** ** Reading a line *)

(** Results that are undefined only if [P] holds. *)
Definition undefined_if {A} (P : Prop) (r : res A) : Prop := r = Stop Undefined -> P.
Lemma undefined_bind {A B} (P : Prop) (m : res A) (f : A -> res B) :
  undefined_if P m -> (forall x, m = Ok x -> undefined_if P (f x)) -> undefined_if P (m ≫= f).
Proof. destruct m as [x|e]; cbn; [auto|]. intros H _ [= ->]. by apply H. Qed.

Lemma stoull16_defined w P : undefined_if P (stoull16 w).
Proof. unfold undefined_if, stoull16. by repeat case_match. Qed.
Lemma memory_access_defined i op b a P : undefined_if P (memory_access i op b a).
Proof.
  unfold memory_access. generalize (at_key NUL memAccessMap op), (at_key 0 memLengthMap op). intros c len.
  destruct b; [|discriminate].
  repeat (case_match; [first [discriminate|apply undefined_bind; [apply stoull16_defined|discriminate]]|]).
  discriminate.
Qed.
Lemma memory_access_regs k op b a k' : memory_access k op b a = Ok k' ->
  regRead k' = regRead k /\ regWrite k' = regWrite k.
Proof.
  unfold memory_access. generalize (at_key NUL memAccessMap op), (at_key 0 memLengthMap op). intros c len.
  destruct b; [|by intros [= <-]].
  repeat (case_match; [first [discriminate|by intros (? & _ & [= <-])%res_bind_inv]|]). discriminate.
Qed.
Lemma trim_word_defined w : undefined_if (w = "") (trim_word w).
Proof.
  unfold undefined_if, trim_word. destruct (find_char "(" w); [done|].
  destruct (String.eqb_spec w ""); [done|]. by case_match.
Qed.
Lemma parse_words_defined ws : undefined_if ("" ∈ ws) (parse_words ws).
Proof.
  destruct ws as [|w ws]; [done|]. cbn [parse_words]. apply undefined_bind; [|done].
  intros ->%trim_word_defined. left.
Qed.
Lemma parse_words_rest ws x ws' : parse_words ws = Ok (x, ws') -> ws' ⊆ ws.
Proof.
  destruct ws as [|w ws]; cbn [parse_words]; [by intros [= _ <-]|].
  intros (y & _ & [= _ <-])%res_bind_inv. intros v Hv. by right.
Qed.
Lemma operand_words_defined n ws :
  undefined_if ("" ∈ ws) (operand_words n ws) /\
  forall ops acc r, operand_words n ws = Ok (ops, acc, r) -> r ⊆ ws.
Proof.
  revert n. induction ws as [|w ws IH]; intros n; (destruct n as [|n]; cbn [operand_words]);
    try (split; [done|by intros ops acc r [= _ _ <-]]).
  pose proof (trim_word_defined w) as Hw. destruct (trim_word w) as [x|e] eqn:Ex; cbn [mbind res_bind].
  2: { split; [|done]. intros [= ->]. rewrite Hw by done. left. }
  assert (Hs : ws ⊆ w :: ws) by (intros y Hy; by right).
  destruct (String.eqb x ""); [split; [done|by intros ops acc r [= _ _ <-]]|].
  destruct (is_lower (first_char x)).
  - destruct (IH n) as [I1 I2]. split.
    + apply undefined_bind; [intros E; right; by apply I1|]. by intros [[? ?] ?] _.
    + intros ops acc r ([[ops' acc'] r'] & E & [= _ _ <-])%res_bind_inv. specialize (I2 _ _ _ E). set_solver.
  - destruct (Ascii.eqb (first_char x) "@"); [split; [done|by intros ops acc r [= _ _ <-]]|].
    destruct (IH (S n)) as [I1 I2]. split; [intros E; right; by apply I1|].
    intros ops acc r E. specialize (I2 _ _ _ E). set_solver.
Qed.

(** C37: Reading a line leaves its bounds only at an empty word.  Whatever the line and
    its operands, no register is written behind the end of the arrays of the
    instruction; the only undefined step is to look at the last character of an empty
    word, which takes two blanks in a row or a blank at the end of the line. *)
Theorem parseInstr_bounds i line :
  (parseInstr i line = Stop Undefined -> "" ∈ words (drop_str 3 line)) /\
  forall j, parseInstr i line = Ok j ->
    (List.length (regRead j) <= 3)%nat /\ (List.length (regWrite j) <= 1)%nat.
Proof.
  rewrite parseInstr_eq. set (ws := words (drop_str 3 line)). unfold instr_of_words. split.
  - apply undefined_bind; [apply parse_words_defined|]. intros [pc_text ws1] H1%parse_words_rest.
    apply undefined_bind; [intros E; by apply H1, parse_words_defined|].
    intros [op ws2] H2%parse_words_rest.
    destruct (operand_words_defined MAX_OPERANDS ws2) as [D1 D2].
    apply undefined_bind; [intros E; by apply H1, H2, D1|]. intros [[ops acc] ws3] H3%D2.
    apply undefined_bind.
    { destruct acc; [|done]. intros E. by apply H1, H2, H3, parse_words_defined. }
    intros [address ?] _. destruct (opcodeToTypeMap !! op); [|done].
    apply undefined_bind; [apply stoull16_defined|]. intros p _.
    destruct (marked op 0 ops); [|done]. apply memory_access_defined.
  - intros j ([pc_text ws1] & _ & H)%res_bind_inv. apply res_bind_inv in H as ([op ws2] & _ & H).
    apply res_bind_inv in H as ([[ops acc] ws3] & Hops%operand_words_length & H).
    apply res_bind_inv in H as ([address ?] & _ & H).
    destruct (opcodeToTypeMap !! op) as [t|] eqn:Et; [|discriminate].
    apply res_bind_inv in H as (p & _ & H). destruct (marked op 0 ops); [|discriminate].
    pose proof (reads_few op t ops Et Hops) as Hr.
    apply memory_access_regs in H as [-> ->]. exact Hr.
Qed.

(** Two blanks after the opcode. *)
Lemma parseInstr_bounds_witness :
  "" ∈ words (drop_str 3 "@I 0x10 addi  a0, a1, 1") /\
  (forall i, (List.length (regRead i) <= 3)%nat ->
     forall j, parseInstr i "@I 0x10 addi a0, a1, 1" = Ok j -> (List.length (regWrite j) <= 1)%nat).
Proof.
  split.
  - apply (parseInstr_bounds (mkInstruction 0 0 0 0 false Other [] [] 0 0 0 0 0 0)).
    vm_compute. reflexivity.
  - intros i _ j E. apply (parseInstr_bounds i "@I 0x10 addi a0, a1, 1"). exact E.
Defined.

(** ** Reading a trace *)

(** C38: Every trace is read to an end.  Whatever the lines are, the stream either
    reports an error or returns the null pointer after at most as many instructions as
    the trace has lines: no line is read twice, also where a line is put back. *)
Theorem read_all_ends mem lines bp ic dc :
  let r := read_all (S (List.length lines)) (RiscvStream_new mem lines bp ic dc) in
  r <> Stop OutOfFuel /\ forall l, r = Ok l -> (List.length l <= List.length lines)%nat.
Proof.
  assert (Hlen : forall fuel s l, read_all fuel s = Ok l -> (List.length l < fuel)%nat).
  { induction fuel as [|fuel IH]; intros s l Hr; [discriminate|]. cbn [read_all] in Hr.
    apply res_bind_inv in Hr as ([[i|] s'] & _ & Hr); [|injection Hr as <-; cbn; lia].
    apply res_bind_inv in Hr as (l' & Hl & [= <-]). apply IH in Hl. cbn. lia. }
  split.
  - apply read_all_fuel. unfold pending. cbn. lia.
  - intros l Hl. apply Hlen in Hl. lia.
Qed.

(** What the trace says of an entry is what the instruction read has: from the
    instruction line always, from the other lines as far as the stream takes them from
    the trace.  An atomic operation is taken to access the top of the address space. *)
Record read_back (bp ic dc : bool) (e : Entry) (i : Instruction) : Prop := {
  rb_pc : pc i = e_pc e;
  rb_bytes : bytes i = at_key 0 bytesMap (e_op e);
  rb_type : i_executionType i = e_type e;
  rb_reads : regRead i = regs_with "R" (e_op e) 0 (e_names e);
  rb_writes : regWrite i = regs_with "W" (e_op e) 0 (e_names e);
  rb_access : let kind := at_key NUL memAccessMap (e_op e) in
    let address := match e_type e with Atomic => Some (2 ^ 64 - 1) | _ => e_address e end in
    let len := at_key 0 memLengthMap (e_op e) in
    match e_address e with
    | None => memLoadCount i = 0 /\ memStoreCount i = 0
    | Some _ =>
        (if Ascii.eqb kind "S" then memLoadCount i = 0
         else memLoadCount i = 1 /\ Some (memLoadBase i) = address /\ memLoadLength i = len) /\
        (if Ascii.eqb kind "L" then memStoreCount i = 0
         else memStoreCount i = 1 /\ Some (memStoreBase i) = address /\ memStoreLength i = len)
    end;
  rb_fetch : ic = true -> fetchCycles i = Z.of_N (e_fetch e);
  rb_branch : bp = true -> i_mispredicted i = e_mispredicted e;
  rb_memory : dc = true -> accesses_memory (e_type e) = true ->
    i_lsCycles i = from_option Z.of_N 1 (e_cycles e)
}.

(** Cycles that fit their 32-bit members. *)
Definition cycles_fit (e : Entry) : Prop :=
  Z.of_N (e_fetch e) < 2 ^ 32 /\ forall n, e_cycles e = Some n -> Z.of_N n < 2 ^ 32.

(** The access leaves the other members alone. *)
Lemma access_of_frame j e : let k := access_of j e in
  pc k = pc j /\ bytes k = bytes j /\ i_executionType k = i_executionType j /\
  regRead k = regRead j /\ regWrite k = regWrite j.
Proof.
  unfold access_of. generalize (at_key NUL memAccessMap (e_op e)), (at_key 0 memLengthMap (e_op e)).
  intros c len. destruct (e_address e); [|split_and!; exact eq_refl]. cbv zeta.
  destruct (Ascii.eqb c "L"), (Ascii.eqb c "S"); split_and!; exact eq_refl.
Qed.
Lemma access_of_access j e a t :
  e_address e = Some a -> e_type e = t ->
  let c := at_key NUL memAccessMap (e_op e) in
  let len := at_key 0 memLengthMap (e_op e) in
  let b := match t with Atomic => 2 ^ 64 - 1 | _ => a end in
  (c = "L" \/ c = "S" \/ c = "A")%char -> let k := access_of j e in
  (if Ascii.eqb c "S" then memLoadCount k = 0
   else memLoadCount k = 1 /\ memLoadBase k = b /\ memLoadLength k = len) /\
  (if Ascii.eqb c "L" then memStoreCount k = 0
   else memStoreCount k = 1 /\ memStoreBase k = b /\ memStoreLength k = len).
Proof.
  intros Ea Et. unfold access_of. rewrite Ea, Et.
  generalize (at_key NUL memAccessMap (e_op e)), (at_key 0 memLengthMap (e_op e)). intros c len. cbv zeta.
  replace (if ExecutionType_is t Atomic then 2 ^ 64 - 1 else a)
    with (match t with Atomic => 2 ^ 64 - 1 | _ => a end) by (by destruct t).
  intros [->|[->| ->]]; cbn; split_and!; reflexivity.
Qed.

Lemma parsed_read_back i e : entry_valid e -> read_back false false false e (parsed i e).
Proof.
  intros He. pose proof He as [_ [t Ht] _ _ Ha _ _].
  assert (Hty : e_type e = t) by (unfold e_type; by rewrite Ht).
  unfold parsed. set (j := mkInstruction _ _ _ _ _ _ _ _ _ _ _ _ _ _).
  destruct (access_of_frame j e) as (F1 & F2 & F3 & F4 & F5).
  unfold j in F1, F2, F3, F4, F5 at 2. cbn [pc bytes i_executionType regRead regWrite] in F1, F2, F3, F4, F5.
  split; [exact F1|exact F2|exact F3|exact F4|exact F5| |discriminate..].
  destruct (e_address e) as [a|] eqn:Ea.
  - destruct (Ha a eq_refl) as [_ Hm]. rewrite Hty in Hm.
    destruct (access_char _ _ Ht Hm) as (Hc & _).
    pose proof (access_of_access j e a t Ea Hty Hc) as [L S]. rewrite Hty. clearbody j. revert L S.
    generalize (access_of j e), (at_key NUL memAccessMap (e_op e)), (at_key 0 memLengthMap (e_op e)).
    intros k c len. cbv zeta. intros L S.
    assert (Hb : match t with Atomic => Some (2 ^ 64 - 1) | _ => Some a end =
      Some match t with Atomic => 2 ^ 64 - 1 | _ => a end) by (by destruct t).
    rewrite Hb. split.
    + destruct (Ascii.eqb c "S"); [exact L|]. destruct L as (L1 & -> & L3).
      split; [exact L1|split; [reflexivity|exact L3]].
    + destruct (Ascii.eqb c "L"); [exact S|]. destruct S as (S1 & -> & S3).
      split; [exact S1|split; [reflexivity|exact S3]].
  - unfold access_of. rewrite Ea. split; exact eq_refl.
Qed.

Lemma deliver_read_back bp ic dc i e :
  entry_valid e -> cycles_fit e -> (dc = true -> ic = true /\ bp = true) ->
  read_back bp ic dc e (deliver bp ic dc i e).
Proof.
  intros He [Hf Hc] Hdc. destruct (parsed_read_back i e He) as [P1 P2 P3 P4 P5 P6 _ _ _].
  unfold deliver. set (j := parsed i e) in *. clearbody j.
  split; [destruct ic, bp, (dc && _); assumption..| | |].
  - intros ->. destruct bp, (dc && _); cbn; by rewrite u32_id by lia.
  - intros ->. by destruct ic, (dc && _).
  - intros -> ->. destruct (Hdc eq_refl) as [-> ->]. cbn. destruct (e_cycles e) as [n|]; [|done].
    cbn. rewrite u32_id; [done|]. specialize (Hc n eq_refl). lia.
Qed.

(** C14: a printed trace is read back.  For every sequence of entries, printed with its
    fetch, branch and memory lines, the stream delivers one instruction for each entry in
    order, with its address, length and kind, the registers it writes and reads and its
    memory access; with the fetch cycles of the trace if it is asked for them, with the
    branch outcome if it is asked for that, and with the memory cycles (one where the trace
    has no memory line) if it is asked for those.  The choices covered are those the format
    serves: branch outcomes only together with fetch cycles, memory cycles only together
    with both ([branch_outcomes_alone_fail] and [memory_cycles_lost] say what the
    other choices do); cycles are below 2^32. *)
Theorem trace_roundtrip mem es bp ic dc (Hes : Forall entry_valid es) (Hfit : Forall cycles_fit es)
    (Hbp : bp = true -> ic = true) (Hdc : dc = true -> ic = true /\ bp = true) :
  exists l, read_all (S (List.length (print_trace es))) (RiscvStream_new mem (print_trace es) bp ic dc) =
      Ok l /\ Forall2 (read_back bp ic dc) es l.
Proof.
  exists (deliver_all bp ic dc mem es). split.
  - apply read_all_new; [done|]. destruct bp; [by rewrite (Hbp eq_refl)|by destruct ic].
  - revert mem. induction Hes as [|e es He Hes IH]; intros mem; [constructor|].
    apply Forall_cons in Hfit as [Hf Hfit]. cbn [deliver_all].
    constructor; [by apply deliver_read_back|by apply IH].
Qed.

(** Asked for branch outcomes without fetch cycles, the stream takes the fetch line after
    the first instruction for its branch line, and the program ends with an error. *)
Theorem branch_outcomes_alone_fail mem e es dc (Hes : Forall entry_valid (e :: es)) :
  read_all (S (List.length (print_trace (e :: es))))
    (RiscvStream_new mem (print_trace (e :: es)) true false dc) = Stop ErrorExit.
Proof.
  apply Forall_cons in Hes as [He _]. cbn [read_all].
  rewrite (next_settled _ _ (new_settled mem true false dc (e :: es))).
  pose proof (next_loop_no_branch (RiscvStream_new mem (print_trace (e :: es)) true false dc) e
    (print_trace es) He eq_refl eq_refl) as Hn.
  change (print_entry e ++ print_trace es) with (print_trace (e :: es)) in Hn. rewrite Hn. reflexivity.
Qed.

(** A load and a branch that depends on it. *)
Definition demo_entries : list Entry :=
  [mkEntry 65656 "c_lwsp" [Reg "a0"; Deref (Some 8) "sp"] (Some 32768) 5 false (Some 4%N);
   mkEntry 65658 "beq" [Reg "a0"; Reg "zero"; Imm 24] None 0 true None].
Lemma demo_entries_valid : Forall entry_valid demo_entries.
Proof.
  eapply Forall_impl; [apply (entries_check_ok (2 ^ 64) (2 ^ 64)); [done|done|vm_compute; reflexivity]|].
  intros e He. apply (ep_valid _ _ _ He).
Qed.

Definition blank_instr : Instruction := mkInstruction 0 0 0 0 false Other [] [] 0 0 0 0 0 0.

Lemma trace_roundtrip_witness :
  exists i j, read_all 8 (RiscvStream_new blank_instr (print_trace demo_entries) true true true) =
    Ok [i; j] /\ pc i = 65656 /\ memLoadBase i = 32768 /\ i_lsCycles i = 4 /\
    i_executionType j = BranchCond /\ i_mispredicted j = true.
Proof.
  destruct (trace_roundtrip blank_instr demo_entries true true true demo_entries_valid) as (l & E & F).
  - repeat (apply Forall_cons; split; [split; [reflexivity|intros n [= <-]; reflexivity] || (split; [reflexivity|discriminate])|]).
    constructor.
  - reflexivity.
  - split; reflexivity.
  - replace (S (List.length (print_trace demo_entries))) with 8%nat in E by (vm_compute; reflexivity).
    apply Forall2_cons_inv_l in F as (i & l1 & R1 & F & ->).
    apply Forall2_cons_inv_l in F as (j & l2 & R2 & F & ->). apply Forall2_nil_inv_l in F as ->.
    exists i, j. split; [exact E|]. destruct R1 as [P1 _ _ _ _ P6 _ _ P9], R2 as [_ _ Q3 _ _ _ _ Q8 _].
    split; [exact P1|]. split.
    { vm_compute in P6. destruct P6 as [(_ & H & _) _]. by injection H. }
    split; [exact (P9 eq_refl ltac:(vm_compute; reflexivity))|].
    split; [rewrite Q3; vm_compute; reflexivity|exact (Q8 eq_refl)].
Defined.

(** Memory latencies of the trace are dropped unless the trace also provides the
    fetch cycles and the branch outcomes.  With a modelled branch predictor the line
    the stream takes for the memory cycles is the branch or the fetch line: every load,
    store and atomic operation is delivered with one cycle, whatever the trace says. *)
Theorem memory_cycles_lost mem es ic (Hes : Forall entry_valid es) :
  exists l, read_all (S (List.length (print_trace es))) (RiscvStream_new mem (print_trace es) false ic true) = Ok l /\
    Forall2 (fun e i => accesses_memory (e_type e) = true -> i_lsCycles i = 1) es l.
Proof.
  exists (deliver_all false ic true mem es). split; [apply read_all_new; [done|by destruct ic]|].
  clear Hes. revert mem. induction es as [|e es IH]; intros mem; [constructor|]. cbn [deliver_all].
  constructor; [|apply IH]. intros Hm. unfold deliver. rewrite Hm. by destruct ic.
Qed.

Lemma memory_cycles_lost_witness :
  exists i j, read_all 8 (RiscvStream_new blank_instr (print_trace demo_entries) false true true) =
    Ok [i; j] /\ i_lsCycles i = 1.
Proof.
  destruct (memory_cycles_lost blank_instr demo_entries true demo_entries_valid) as (l & E & F).
  replace (S (List.length (print_trace demo_entries))) with 8%nat in E by (vm_compute; reflexivity).
  destruct l as [|i [|j [|? ?]]];
    [inversion F|inversion F; subst; match goal with H : Forall2 _ _ [] |- _ => inversion H end| |
     inversion F; subst; match goal with H : Forall2 _ _ (_ :: _ :: _) |- _ => inversion H; subst end;
     match goal with H : Forall2 _ [] _ |- _ => inversion H end].
  exists i, j. split; [exact E|]. inversion F; subst.
  match goal with H : accesses_memory _ = true -> i_lsCycles i = 1 |- _ => apply H end.
  vm_compute. reflexivity.
Defined.

(** ** Details of the tables *)

(** The numbers of the control and status registers are those of integer and
    floating-point registers: [ustatus] counts as the zero register and is dropped, an
    instruction that reads [fflags] seems to read [ra], one that reads [uscratch]
    seems to read [ft11]. *)
Theorem csr_registers_collide :
  regMap !! "ustatus" = regMap !! "zero" /\ regMap !! "fflags" = regMap !! "ra" /\
  regMap !! "frm" = regMap !! "sp" /\ regMap !! "fcsr" = regMap !! "gp" /\
  regMap !! "uie" = regMap !! "tp" /\ regMap !! "utvec" = regMap !! "t0" /\
  regMap !! "uscratch" = regMap !! "ft11" /\
  registers "csrrs" 0 ["a0"; "fflags"; "zero"] [] [] = registers "csrrs" 0 ["a0"; "ra"; "zero"] [] [].
Proof. split_and!; vm_compute; reflexivity. Qed.

(** The length of [fmin_d] was entered under the empty name. *)
Theorem fmin_d_has_no_length :
  opcodeToTypeMap !! "fmin_d" = Some FpBase /\ bytesMap !! "fmin_d" = None /\
  bytesMap !! "" = Some 4 /\ bytesMap !! "fmax_d" = Some 4.
Proof. split_and!; vm_compute; reflexivity. Qed.

(** A blank at the end of the line, or two in a row, is undefined behaviour. *)
Theorem empty_word_undefined i :
  parseInstr i "@I 0x10 addi a0, a1, 1 " = Stop Undefined /\
  parseInstr i "@I 0x10 addi a0,  a1, 1" = Stop Undefined.
Proof. split; rewrite parseInstr_eq; vm_compute; reflexivity. Qed.
