(* ===== verification/CalipersProgramTheorems.v ===== *)
(** * Properties of the program Calipers

    A gem5 trace is converted to the entries it describes; with a proper configuration
    the program analyses it to the end with the core the configuration names; what the
    conversion and the program get wrong. *)

From Stdlib Require Import QArith.
From stdpp Require Import strings pretty.
From S2P Require Import Prelude Machine External TraceParse ParseFacts Floats.
From S2P Require Import CalipersCache CalipersFacts CalipersCycles CalipersPaths CalipersScoreboard.
From S2P Require Import CalipersO3 CalipersO3Facts CalipersO3Steps CalipersO3Window CalipersO3Run.
From S2P Require Import CalipersO3Trace.
From S2P Require Import CalipersInorder CalipersInorderBoard CalipersInorderEdges.
From S2P Require Import CalipersInorderPhases CalipersInorderRun.
From S2P Require Import CalipersOpcodes CalipersStream CalipersStreamFacts CalipersStreamPrint.
From S2P Require Import CalipersStreamRead CalipersConvert CalipersConvertFacts CalipersModels.
From S2P Require Import CalipersReport CalipersReportFacts CalipersMain CalipersMainFacts.

#[local] Open Scope string_scope.
#[local] Open Scope list_scope.
#[local] Open Scope Z_scope.

Import CalG CalS CalO CalI CalT CalR CalV CalM CalW CalP.

Section program.
Context `{B : Boost} `{HB : !BoostLaws B} `{Hash : HashOrder}.

(** ** The conversion *)


(** ** The out-of-order core *)

(** A run of the program: its arguments, files and memory, the configuration and the
    models it makes, and the gem5 trace. *)
Record o3_setting (fs : Files) (m : Memory) (options : list (ascii * option string))
    (c : gmap string string) (p : Params) (z : Sizes) (ic dc : option CacheModel)
    (pred : option StatisticalBp) (trace : string) (newline : bool) (ms : list M5) : Prop := {
  os_files : exists args, parse_args options = Ok args /\
    extract_config fs (config_at args "config") = Ok c /\
    config_at args "trace" = trace /\ contents fs trace = Some (print_m5 <$> ms, newline) /\
    writable fs (calipers_trace_file_name trace) = true;
  os_core : config_at c "Core" = "OoO";
  os_params : o3_parameters c = Ok (p, z) /\ params_ok p /\ sizes_ok z;
  os_bp : new_bp (mem_draws m).1.1 (bp_type (config_at c "Branch_Predictor"))
            (config_at c "Branch_Predictor_Config") = Ok pred;
  os_ic : new_cache (mem_caches m).1 (mem_draws m).1.2 (cache_type (config_at c "I_Cache"))
            (config_at c "I_Cache_Config") = Ok ic /\ option_ok ic;
  os_dc : new_cache (mem_caches m).2 (mem_draws m).2 (cache_type (config_at c "D_Cache"))
            (config_at c "D_Cache_Config") = Ok dc /\ option_ok dc;
  os_memory : (forall n, List.length (mem_array m n) = Z.to_nat n) /\
    (forall n, List.length (mem_flags m n) = Z.to_nat n) /\ holds (2 ^ 30) (2 ^ 30) (mem_instr m);
  os_trace : Forall m5_valid ms /\ m5_latencies 0 ms /\
    Forall (entry_proper (2 ^ 30) (2 ^ 30)) (m5_entries newline 0 ms);
  os_length : Z.of_nat (List.length ms) <= 56000000
}.

(** The instructions the stream delivers under a configuration. *)
Definition delivered (m : Memory) (c : gmap string string) (newline : bool) (ms : list M5)
    : list Instruction :=
  deliver_all (use_bp_model c) (use_icache_model c) (use_dcache_model c) (mem_instr m)
    (m5_entries newline 0 ms).

(** Steps of the program that succeed, one rewriting at a time. *)
Lemma bind_Ok {A C} (x : A) (f : A -> res C) : (Ok x ≫= f) = f x.
Proof. reflexivity. Qed.

Lemma window_bounds : 0 < OOO_HOPPING_WINDOW < 2 ^ 32.
Proof. by unfold OOO_HOPPING_WINDOW. Qed.

Lemma new_o3_eq m c p z ic dc pred s0 :
  o3_parameters c = Ok (p, z) ->
  new_bp (mem_draws m).1.1 (bp_type (config_at c "Branch_Predictor"))
    (config_at c "Branch_Predictor_Config") = Ok pred ->
  new_cache (mem_caches m).1 (mem_draws m).1.2 (cache_type (config_at c "I_Cache"))
    (config_at c "I_Cache_Config") = Ok ic ->
  new_cache (mem_caches m).2 (mem_draws m).2 (cache_type (config_at c "D_Cache"))
    (config_at c "D_Cache_Config") = Ok dc ->
  O3CoreGraph_new (mem_array m (int_mul_div_count z)) (mem_array m (fp_mul_div_count z)) (mem_mix m)
    (mem_flags m (u32 (lq_size z + sq_size z))) OOO_HOPPING_WINDOW p z ic dc pred = Ok s0 ->
  new_o3 m c = Ok (OoO s0).
Proof.
  intros Ep Eb Ei Ed E0. unfold new_o3. rewrite Ep, bind_Ok. cbv beta iota.
  rewrite Eb, bind_Ok, Ei, bind_Ok, Ed, bind_Ok, E0, bind_Ok. reflexivity.
Qed.

(** The part of the start both cores share. *)
Lemma init_eq fs m args c newline ms core :
  extract_config fs (config_at args "config") = Ok c ->
  contents fs (config_at args "trace") = Some (print_m5 <$> ms, newline) ->
  writable fs (calipers_trace_file_name (config_at args "trace")) = true ->
  Forall m5_valid ms -> m5_latencies 0 ms ->
  (if String.eqb (config_at c "Core") "InO" then
     if use_bp_model c && use_icache_model c && use_dcache_model c then new_inorder m c else Stop ErrorExit
   else new_o3 m c) = Ok core ->
  init fs m args =
  Ok (core, RiscvStream_new (mem_instr m) (print_trace (m5_entries newline 0 ms))
              (use_bp_model c) (use_icache_model c) (use_dcache_model c)).
Proof.
  intros Hc Ht Hw T1 T2 Hk. unfold init. rewrite Hc, bind_Ok. cbv zeta.
  rewrite (stream_m5 fs _ ms newline Ht Hw T1 T2), bind_Ok, Hk, bind_Ok. reflexivity.
Qed.

Lemma o3_start fs m options c p z ic dc pred trace newline ms :
  o3_setting fs m options c p z ic dc pred trace newline ms ->
  exists s0 : O3,
    O3CoreGraph_new (mem_array m (int_mul_div_count z)) (mem_array m (fp_mul_div_count z)) (mem_mix m)
      (mem_flags m (u32 (lq_size z + sq_size z))) OOO_HOPPING_WINDOW p z ic dc pred = Ok s0 /\
    window_inv z OOO_HOPPING_WINDOW 0 (base s0) [] s0 /\ sound 0 0 (base s0) /\
    intAluTotalCycles (base s0) = 1 /\ instrCount s0 = 0 /\
    analyse fs m options =
      run_core trace (OoO s0) (RiscvStream_new (mem_instr m) (print_trace (m5_entries newline 0 ms))
                           (use_bp_model c) (use_icache_model c) (use_dcache_model c)).
Proof.
  intros [(args & Ha & Hc & <- & Ht & Hw) Hcore (Ep & Hp & Hz) Hbp [Eic Hic] [Edc Hdc] (M1 & M2 & M3)
    (T1 & T2 & T3) Hlen].
  assert (Hu : u32 (lq_size z + sq_size z) = lq_size z + sq_size z).
  { destruct Hz as [Hz ?]. rewrite !Forall_cons in Hz. apply u32_id. lia. }
  destruct (new_ok (mem_array m (int_mul_div_count z)) (mem_array m (fp_mul_div_count z)) (mem_mix m)
    (mem_flags m (u32 (lq_size z + sq_size z))) OOO_HOPPING_WINDOW p z ic dc pred window_bounds Hp Hz
    (M1 _) (M1 _)) as (s0 & E0 & W0 & _ & S0 & A0 & N0 & _); [rewrite Hu; apply M2|exact Hic|exact Hdc|].
  exists s0. split; [exact E0|]. split; [exact W0|]. split; [exact S0|]. split; [exact A0|].
  split; [exact N0|]. unfold analyse. rewrite Ha, bind_Ok.
  rewrite (init_eq fs m args c newline ms (OoO s0) Hc Ht Hw T1 T2); [rewrite bind_Ok; reflexivity|].
  rewrite Hcore. exact (new_o3_eq m c p z ic dc pred s0 Ep Hbp Eic Edc E0).
Qed.

(** C3: The program analyses a gem5 trace to the end.  With accepted arguments, a
    configuration of an out-of-order core with any of its models, and a gem5 trace of
    instructions the tables know, the program converts the trace, reads it back and
    models every instruction; the result is the one the core computes on the list of
    the delivered instructions, every window analysed, no array left, no overflow, and
    the kinds of cycles of each critical path adding up to its length.  The exception
    is a configuration that takes branch outcomes from the trace but not the fetch
    cycles: it ends with an error at the first instruction. *)
Theorem analyse_o3_correct fs m options c p z ic dc pred trace newline ms
    (Hs : o3_setting fs m options c p z ic dc pred trace newline ms) :
  exists s0 : O3,
    O3CoreGraph_new (mem_array m (int_mul_div_count z)) (mem_array m (fp_mul_div_count z)) (mem_mix m)
      (mem_flags m (u32 (lq_size z + sq_size z))) OOO_HOPPING_WINDOW p z ic dc pred = Ok s0 /\
    if negb (use_icache_model c) && use_bp_model c && bool_decide (ms <> [])
    then analyse fs m options = Stop ErrorExit
    else exists s' ws, run s0 (delivered m c newline ms) = Ok s' /\
      analyse fs m options = Ok (OoO s', mjoin (window_text trace <$> ws)) /\
      let n := Z.of_nat (List.length ms) in
      instrCount s' = n /\ analyzedWindows s' = (n + OOO_HOPPING_WINDOW - 1) / OOO_HOPPING_WINDOW /\
      Z.of_nat (List.length ws) = analyzedWindows s' /\
      (forall j w, ws !! j = Some w ->
         analyzedWindows w = Z.of_nat j + 1 /\
         instrCount w = Z.min n ((Z.of_nat j + 1) * OOO_HOPPING_WINDOW) /\
         complete (summary_of (base w) (instrCount w))) /\
      forall k, 0 <= lane (length_at (base s') k) <= 2 ^ 32 * (38 * n) /\
        total (cycles_at (base s') k) = lane (length_at (base s') k).
Proof.
  destruct (o3_start _ _ _ _ _ _ _ _ _ _ _ _ Hs) as (s0 & E0 & W0 & S0 & A0 & N0 & ->).
  destruct Hs as [_ _ _ _ _ _ (_ & _ & M3) (T1 & T2 & T3) Hlen]. exists s0. split; [exact E0|].
  set (es := m5_entries newline 0 ms) in *.
  assert (Hes : Forall entry_valid es).
  { eapply Forall_impl; [exact T3|]. intros e He. apply (ep_valid _ _ _ He). }
  assert (Hl : List.length (delivered m c newline ms) = List.length ms).
  { unfold delivered. by rewrite deliver_all_length, m5_entries_length. }
  set (bp := use_bp_model c) in *. set (tic := use_icache_model c) in *.
  destruct (negb tic && bp && bool_decide (ms <> [])) eqn:Ef.
  { destruct ms as [|m0 ms]; [by rewrite andb_false_r in Ef|].
    destruct tic, bp; try discriminate Ef. unfold run_core.
    destruct (first_error (List.length (print_trace es))
      (RiscvStream_new (mem_instr m) (print_trace es) true false (use_dcache_model c)) ErrorExit)
      as [_ He]; [|exact (f_equal (fun r => r ≫= (fun '(s, r) => Ok (OoO s, r))) (He trace s0))].
    rewrite (next_settled _ _ (new_settled _ _ _ _ es)). unfold es. cbn [m5_entries].
    apply Forall_cons in Hes as [He0 _]. refine (next_loop_no_branch _ _ _ He0 _ _); reflexivity. }
  assert (Hread : read_all (S (List.length (print_trace es)))
    (RiscvStream_new (mem_instr m) (print_trace es) bp tic (use_dcache_model c)) =
    Ok (delivered m c newline ms)).
  { destruct (tic || negb bp) eqn:Eo; [exact (read_all_new _ _ _ _ es Hes Eo)|].
    destruct ms as [|m0 ms]; [reflexivity|].
    destruct tic, bp; try discriminate Eo. discriminate Ef. }
  destruct (run_windows_ok z OOO_HOPPING_WINDOW window_bounds (delivered m c newline ms) 0 s0)
    as (ws & s' & R & [F1 F2 F3] & Hws & Hna); rewrite ?N0 in *.
  - split; exists (base s0), []; auto.
  - left. reflexivity.
  - eapply Forall_impl; [apply (deliver_all_ok bp tic (use_dcache_model c) (mem_instr m) es (2 ^ 30) (2 ^ 30));
      [lia|lia|exact M3|exact T3]|]. intros j [_ Hj]. exact Hj.
  - rewrite Hl. unfold within, load_of, INT64_MAX. lia.
  - rewrite Hl in *. rewrite Z.add_0_l in *.
    assert (Na : analyzedWindows s0 = 0).
    { pose proof (wi_windows _ _ _ _ _ _ W0) as E. unfold OOO_HOPPING_WINDOW in E. lia. }
    rewrite Na in *. rewrite Z.add_0_l in *.
    exists s', ws. split; [unfold run; rewrite run_windows_run, R; reflexivity|]. split.
    { unfold run_core. cbn [traceFile RiscvStream_new].
      rewrite (o3_loop_list _ trace (window_text trace) s0 _ _ _ _ Hread R), bind_Ok; [reflexivity|].
      apply (window_ends_reported trace OOO_HOPPING_WINDOW (Z.of_nat (List.length ms)) 0);
        unfold OOO_HOPPING_WINDOW, load_of, INT64_MAX; try lia. exact Hws. }
    cbn zeta. split; [exact F1|]. split; [exact F2|]. split; [symmetry; exact Hna|]. split.
    { intros j w Hj. destruct (Hws j w Hj) as [_ [Ec _] En Es]. rewrite Z.add_0_l in *.
      split; [exact En|]. split; [exact Ec|]. eapply summary_balanced. apply Es. }
    intros k. destruct (sound_lane _ _ _ k F3) as (x & Hx & Hr). rewrite Hx. split; [exact Hr|].
    rewrite (bal_total _ _ (so_balanced _ _ _ F3)), Hx. reflexivity.
Qed.

(** ** The in-order core *)

(** A run with an in-order core; no memory access takes [M] cycles or more, which is
    short enough for the window. *)
Record inorder_setting (fs : Files) (m : Memory) (options : list (ascii * option string))
    (c : gmap string string) (p : InorderParams) (units : Z * Z * Z * Z * Z) (M : Z)
    (trace : string) (newline : bool) (ms : list M5) : Prop := {
  is_files : exists args, parse_args options = Ok args /\
    extract_config fs (config_at args "config") = Ok c /\
    config_at args "trace" = trace /\ contents fs trace = Some (print_m5 <$> ms, newline) /\
    writable fs (calipers_trace_file_name trace) = true;
  is_core : config_at c "Core" = "InO" /\
    (use_bp_model c && use_icache_model c && use_dcache_model c) = true;
  is_params : let '(ia, im, idv, fpu, lsu) := units in
    inorder_parameters c = Ok (p, [ia; im; idv; fpu; lsu]) /\ ino_params_ok p /\
    units_ok ia im idv fpu lsu;
  is_cycles : 1 < M /\ M * i_issueBandwidth p <= INO_WINDOW;
  is_memory_ok : holds (2 ^ 28) M (mem_instr m);
  is_trace : Forall m5_valid ms /\ m5_latencies 0 ms /\
    Forall (entry_proper (2 ^ 28) M) (m5_entries newline 0 ms);
  is_length : 2 ^ 32 * (50 * Z.of_nat (List.length ms)) <= INT64_MAX
}.

Lemma inorder_start fs m options c p units M trace newline ms :
  inorder_setting fs m options c p units M trace newline ms ->
  exists s0, CalipersInorderRun.between [] s0 /\ i_instrCount s0 = 0 /\ i_params s0 = p /\
    analyse fs m options =
      run_core trace (InO s0) (RiscvStream_new (mem_instr m) (print_trace (m5_entries newline 0 ms))
                           true true true).
Proof.
  destruct units as [[[[ia im] idv] fpu] lsu].
  intros [(args & Ha & Hc & <- & Ht & Hw) [Hcore Hf] (Ep & Hp & Hu) _ _ (T1 & T2 & _) _].
  destruct (inorder_new_ok (mem_branch m) (mem_pc m) (mem_mix m) p ia im idv fpu lsu Hp Hu)
    as (s0 & E0 & Hb & Hn & Hpar).
  exists s0. split; [exact Hb|]. split; [exact Hn|]. split; [exact Hpar|].
  assert (Hnew : new_inorder m c = Ok (InO s0)).
  { unfold new_inorder. rewrite Ep, bind_Ok. cbv beta iota zeta. cbn [lookup list_lookup default].
    unfold from_option, id. rewrite E0, bind_Ok. reflexivity. }
  unfold analyse. rewrite Ha, bind_Ok.
  rewrite (init_eq fs m args c newline ms (InO s0) Hc Ht Hw T1 T2), bind_Ok.
  - rewrite !andb_true_iff in Hf. destruct Hf as [[-> ->] ->]. reflexivity.
  - rewrite Hcore, Hf. exact Hnew.
Qed.

(** C15: The program analyses a gem5 trace with an in-order core.  With a proper
    configuration that takes everything from the trace, the result is the one the core
    computes on the delivered instructions, whose registers, accesses and cycles are
    those of the gem5 lines: every instruction is analysed, with a complete breakdown
    of every critical path, unless some load or store has to wait for an access more
    than a window back, where the program ends with an error. *)
Theorem analyse_inorder_correct fs m options c p units M trace newline ms
    (Hs : inorder_setting fs m options c p units M trace newline ms) :
  if dense p 0 [] (delivered m c newline ms) then
    exists s, analyse fs m options = Ok (InO s,
        summary_text trace None (i_instrCount s) (i_instrCount s)
          (summary_of (i_base s) (i_instrCount s)) (i_stats s)) /\
      i_instrCount s = Z.of_nat (List.length ms) /\
      complete (summary_of (i_base s) (i_instrCount s)) /\
      (forall t, miniGraph s t = []) /\
      forall k, 0 <= lane (length_at (i_base s) k) <= 2 ^ 32 * (50 * Z.of_nat (List.length ms)) /\
        total (cycles_at (i_base s) k) = lane (length_at (i_base s) k)
  else analyse fs m options = Stop ErrorExit.
Proof.
  destruct (inorder_start _ _ _ _ _ _ _ _ _ _ Hs) as (s0 & Hb & Hn & Hpar & ->).
  destruct units as [[[[ia im] idv] fpu] lsu].
  destruct Hs as [_ [_ Hf] (_ & (_ & _ & _ & Hib & _) & _) [HM1 HM2] Hm (_ & _ & T3) Hlen].
  rewrite !andb_true_iff in Hf. destruct Hf as [[Hf1 Hf2] Hf3].
  unfold delivered. rewrite Hf1, Hf2, Hf3. set (es := m5_entries newline 0 ms) in *.
  assert (Hes : Forall entry_valid es).
  { eapply Forall_impl; [exact T3|]. intros e He. apply (ep_valid _ _ _ He). }
  set (l := deliver_all true true true (mem_instr m) es).
  assert (Hl : List.length l = List.length ms).
  { unfold l, es. rewrite deliver_all_length. apply m5_entries_length. }
  assert (Hok : Forall (ino_instr_ok p) l).
  { eapply Forall_impl; [apply (deliver_all_ok true true true (mem_instr m) es (2 ^ 28) M);
      [lia|unfold INO_WINDOW in *; nia|exact Hm|exact T3]|].
    intros j [[J1 J2 _] Hj]. split; [exact J1|lia|nia|apply Hj]. }
  pose proof (i_run_ok [] s0 l Hb) as HR. cbn zeta in HR. rewrite Hn, Hpar, Hl, Z.add_0_l in HR.
  specialize (HR Hok Hlen). cbn [fmap list_fmap] in HR.
  unfold run_core. cbn [traceFile RiscvStream_new].
  rewrite (inorder_loop_list _ s0 _ _ (read_all_new (mem_instr m) true true true es Hes eq_refl)).
  fold l. unfold outcome in HR. destruct (dense p 0 [] l); [|rewrite HR; reflexivity].
  destruct HR as (s & Er & Hc & acc & [_ _ B3 _ _ B6]). exists s.
  assert (Hu : u64 (i_instrCount s - u64 (0 * AnalysisWindow (i_base s))) = i_instrCount s).
  { rewrite Z.mul_0_l. change (u64 0) with 0. rewrite Z.sub_0_r. apply u64_small. rewrite Hc.
    unfold u64_size, INT64_MAX in *. lia. }
  split.
  { rewrite Er, bind_Ok, (recordStats_ok _ _ _ false _ _ 0 (so_balanced _ _ _ B6)), bind_Ok, Hu; [reflexivity|].
    rewrite Hc. unfold ino_load, INT64_MAX in *. lia. }
  split; [exact Hc|]. split; [eapply summary_balanced, B6|]. split; [exact B3|]. rewrite Hc in B6. intros k.
  split; [|exact (bal_total _ _ (so_balanced _ _ _ B6) k)].
  destruct (sound_lane _ _ _ k B6) as (x & -> & Hx). exact Hx.
Qed.

(** An in-order core needs all three from the trace. *)
Theorem inorder_needs_trace fs m args c lines :
  extract_config fs (config_at args "config") = Ok c -> config_at c "Core" = "InO" ->
  InstructionStream_new fs (config_at args "trace") = Ok lines ->
  (use_bp_model c && use_icache_model c && use_dcache_model c) = false ->
  init fs m args = Stop ErrorExit.
Proof.
  intros Hc Hcore Hl Hf. unfold init. rewrite Hc, bind_Ok. cbv zeta. rewrite Hl, bind_Ok, Hcore, Hf.
  reflexivity.
Qed.

(** Every completed run ends by deleting a pointer that was never set: [init] has its
    own copy of it. *)
Theorem main_stray_pointer fs m options core :
  analyse fs m options = Ok core -> main fs m true options = Stop Undefined.
Proof. intros E. unfold main. rewrite E, bind_Ok. reflexivity. Qed.

End program.

(** ** An example *)

Definition cycles_fun (c7 c8 c23 c24 : Z) : nat -> Z :=
  fun k => if Nat.eqb k 7 then c7 else if Nat.eqb k 8 then c8
           else if Nat.eqb k 23 then c23 else if Nat.eqb k 24 then c24 else 0.
Lemma cycles_fun_ok c7 c8 c23 c24 :
  Forall (fun c => 0 <= c < 2 ^ 50) [c7; c8; c23; c24] ->
  forall k, 0 <= cycles_fun c7 c8 c23 c24 k /\ cycles_fun c7 c8 c23 c24 k * 1000 < 2 ^ 64.
Proof. rewrite !Forall_cons. intros H k. unfold cycles_fun. repeat case_match; lia. Qed.

(** A load and a branch that depends on it and is mispredicted, then a fence. *)
Definition demo_m5 : list M5 :=
  [mkM5 ("1000", " system.cpu", " T0 ") 65656 (0%nat, [(0%nat, "@_start"); (2%nat, "")])
     " c_lwsp a0, 8(sp)     " "c_lwsp" [Reg "a0"; Deref (Some 8) "sp"] " MemRead "
     (1%nat, "D=0x0000000000000000") (0%nat, 32768) [(0%nat, "")] "" (fun _ => "t")
     (cycles_fun 1 6 9 13) (fun _ => "") ["end"];
   mkM5 ("2000", " system.cpu", " T0 ") 65658 (0%nat, [(0%nat, "@_start+2"); (2%nat, "")])
     " beq a0, zero, 24     " "beq" [Reg "a0"; Reg "zero"; Imm 24] " IntAlu "
     (0%nat, "") (0%nat, 0) [] "  D=0x0000000000000000 " (fun _ => "t")
     (cycles_fun 1 6 10 0) (fun _ => "") ["end"];
   mkM5 ("3000", " system.cpu", " T0 ") 65662 (0%nat, [(0%nat, "@_start+6"); (2%nat, "")])
     " fence iorw, iorw  " "fence" [] " No_OpClass "
     (0%nat, "") (0%nat, 0) [] "  D=0x0000000000000000 " (fun _ => "t")
     (cycles_fun 12 14 15 15) (fun _ => "") ["end"]].

Lemma demo_m5_valid : Forall m5_valid demo_m5.
Proof.
  repeat (apply Forall_cons; split); [..|apply Forall_nil; exact I];
    (apply m5_check_ok; [vm_compute; reflexivity|intros k; split_and!; vm_compute; reflexivity || exact I|
     apply cycles_fun_ok; repeat (apply Forall_cons; split; [lia|]); apply Forall_nil; exact I]).
Qed.

Fixpoint latencies_check (last : Z) (ms : list M5) : bool :=
  match ms with
  | [] => true
  | m :: ms' =>
      (0 <=? m5_fetch last m) && (m5_fetch last m <? 10 ^ 6) &&
      from_option (fun x => (0 <=? x) && (x <? 10 ^ 6)) true (m5_memory m) && latencies_check (m_cycle m 7) ms'
  end.
Lemma latencies_check_ok last ms : latencies_check last ms = true -> m5_latencies last ms.
Proof.
  revert last. induction ms as [|m ms IH]; intros last; [intros _; exact I|]. cbn [latencies_check m5_latencies].
  rewrite !andb_true_iff. intros (((H1 & H2) & H3) & H4). split; [|by apply IH].
  apply Z.leb_le in H1. apply Z.ltb_lt in H2. split; [lia|]. intros x E. rewrite E in H3.
  apply andb_true_iff in H3 as [H3 H5]. apply Z.leb_le in H3. apply Z.ltb_lt in H5. lia.
Qed.
Lemma demo_m5_latencies : m5_latencies 0 demo_m5.
Proof. apply latencies_check_ok. vm_compute. reflexivity. Qed.




Definition demo_name : string := "m5out/dhrystone/trace.out".
Definition demo_options : list (ascii * option string) :=
  [("c"%char, Some "core.cfg"); ("t"%char, Some "m5out/dhrystone/trace.out"); ("o"%char, Some "report")].
Definition common_lines : list string :=
  ["ISA RISC-V"; "Branch_Predictor TraceB"; "I_Cache TraceC"; "D_Cache TraceC";
   "Fetch_Bandwidth 2"; "Dispatch_Bandwidth 2"; "Issue_Bandwidth 2"; "Commit_Bandwidth 2";
   "Decode_Cycles 1"; "Dispatch_Cycles 1"; "Execute_To_Commit_Cycles 1"; "Prediction_Cycles 1";
   "Misprediction_Penalty 4"; "Mem_Issue_Bandwidth 1"; "Mem_Commit_Bandwidth 1"; "Int_ALU_Count 1";
   "LSU_Count 1"].
Definition o3_lines : list string :=
  "Core  OoO" :: common_lines ++
  ["Instr_Buffer_Size 8"; "Instr_Queue_Size 4"; "Int_Mul_Div_Count 1"; "FP_ALU_Count 1";
   "FP_Mul_Div_Count 1"; "LQ_Size 2"; "SQ_Size 2"].
Definition inorder_lines : list string :=
  "Core  InO" :: common_lines ++
  ["Max_Mem_Accesses 1"; "Int_Mul_Count 1"; "Int_Div_Count 1"; "FPU_Count 1";
   "Load_Dependent_Early_Issue 1"; "Load_Early_Issue 0"].

Definition demo_files (config : list string) : Files :=
  mkFiles (fun name => if String.eqb name "core.cfg" then Some (config, true)
                       else if String.eqb name "m5out/dhrystone/trace.out" then Some (print_m5 <$> demo_m5, true)
                       else None)
    (fun name => String.eqb name "trace/dhrystone-trace.out").
Definition demo_memory : Memory :=
  mkMemory (mkInstruction 0 0 0 0 false Other [] [] 0 0 0 0 0 0) false 0 (replicate 6 0)
    (fun n => replicate (Z.to_nat n) 0) (fun n => replicate (Z.to_nat n) false)
    (Cal.mkFresh [] [] (Cal.mkLine 0 0 0), Cal.mkFresh [] [] (Cal.mkLine 0 0 0),
     (Cal.mkFresh [] [] (Cal.mkLine 0 0 0), Cal.mkFresh [] [] (Cal.mkLine 0 0 0)))
    (fun _ => 0, fun _ => 0, fun _ => 0).

Lemma demo_entries_proper F M : 2 ^ 10 <= F <= 2 ^ 64 -> 5 <= M <= 2 ^ 64 ->
  Forall (entry_proper F M) (m5_entries true 0 demo_m5).
Proof.
  intros HF HM. apply entries_check_ok; [lia|lia|].
  assert (H : forallb (entry_check (2 ^ 10) 5) (m5_entries true 0 demo_m5) = true) by (vm_compute; reflexivity).
  rewrite forallb_forall in H |- *. intros e He. specialize (H e He). revert H. unfold entry_check.
  rewrite !andb_true_iff. intros (((((((H1 & H2) & H3) & H4) & H5) & H6) & H7) & H8).
  split_and!; auto; [apply Z.ltb_lt; apply Z.ltb_lt in H6; lia|].
  destruct (e_cycles e); [|reflexivity]. cbn in *. apply Z.ltb_lt. apply Z.ltb_lt in H7. lia.
Qed.
Lemma demo_holds F M : 0 < F -> 0 < M -> holds F M (mem_instr demo_memory).
Proof. intros. split; cbn; lia. Qed.

Definition demo_args : gmap string string :=
  <["view" := "false"]> (<["output" := "report"]> (<["trace" := "m5out/dhrystone/trace.out"]>
    (<["config" := "core.cfg"]> ∅))).
Lemma demo_files_ok config :
  check_config (read_config config) = Ok (read_config config) ->
  exists args, parse_args demo_options = Ok args /\
    extract_config (demo_files config) (config_at args "config") = Ok (read_config config) /\
    config_at args "trace" = demo_name /\
    contents (demo_files config) demo_name = Some (print_m5 <$> demo_m5, true) /\
    writable (demo_files config) (calipers_trace_file_name demo_name) = true.
Proof.
  intros Hc. exists demo_args. split; [vm_compute; reflexivity|].
  replace (config_at demo_args "config") with "core.cfg" by (vm_compute; reflexivity).
  replace (config_at demo_args "trace") with demo_name by (vm_compute; reflexivity).
  split; [exact Hc|]. split; [reflexivity|]. split; [reflexivity|vm_compute; reflexivity].
Qed.

(** A configuration that passes the checks. *)
Definition accepted (c : gmap string string) : bool :=
  String.eqb (config_at c "ISA") "RISC-V" && one_of (config_at c "Core") ["InO"; "OoO"] &&
  one_of (config_at c "Branch_Predictor") ["TraceB"; "StatisticalB"] &&
  one_of (config_at c "I_Cache") caches && one_of (config_at c "D_Cache") caches.
Lemma accepted_ok c : accepted c = true -> check_config c = Ok c.
Proof.
  unfold accepted, check_config. rewrite !andb_true_iff. intros ((((-> & ->) & ->) & ->) & ->). reflexivity.
Qed.

Lemma demo_o3_setting :
  o3_setting (demo_files o3_lines) demo_memory demo_options (read_config o3_lines)
    (mkParams 8 2 2 2 1 1 1 1 4 1 1) (mkSizes 4 2 1 1 1 1 1 2 2) None None None demo_name true demo_m5.
Proof.
  split.
  - apply demo_files_ok, accepted_ok. vm_compute. reflexivity.
  - vm_compute. reflexivity.
  - split; [vm_compute; reflexivity|]. split; [split_and!|split]; cbn; try lia;
      repeat (apply Forall_cons; split; [cbn; lia|]); apply Forall_nil; exact I.
  - vm_compute. reflexivity.
  - split; [vm_compute; reflexivity|exact I].
  - split; [vm_compute; reflexivity|exact I].
  - split; [intros n; apply length_replicate|]. split; [intros n; apply length_replicate|].
    apply demo_holds; lia.
  - split; [exact demo_m5_valid|]. split; [exact demo_m5_latencies|]. apply demo_entries_proper; lia.
  - cbn. lia.
Qed.

Lemma analyse_o3_correct_witness :
  exists s' r, analyse (demo_files o3_lines) demo_memory demo_options = Ok (OoO s', r) /\ instrCount s' = 3.
Proof.
  destruct (analyse_o3_correct _ _ _ _ _ _ _ _ _ _ _ _ demo_o3_setting) as (s0 & _ & HR).
  replace (negb (use_icache_model (read_config o3_lines)) && use_bp_model (read_config o3_lines) &&
    bool_decide (demo_m5 <> [])) with false in HR by (vm_compute; reflexivity).
  destruct HR as (s' & ws & _ & E & N & _). eexists s', _. split; [exact E|exact N].
Defined.

Lemma demo_inorder_setting :
  inorder_setting (demo_files inorder_lines) demo_memory demo_options (read_config inorder_lines)
    (mkInorder 2 2 2 2 1 1 1 1 4 1 1 1 true false) (1, 1, 1, 1, 1) 100 demo_name true demo_m5.
Proof.
  split.
  - apply demo_files_ok, accepted_ok. vm_compute. reflexivity.
  - split; vm_compute; reflexivity.
  - split; [vm_compute; reflexivity|]. unfold ino_params_ok, INO_WINDOW.
    split; [split_and!|]; cbn; try lia;
      repeat (apply Forall_cons; split; [cbn; lia|]); apply Forall_nil; exact I.
  - unfold INO_WINDOW. cbn. lia.
  - apply demo_holds; lia.
  - split; [exact demo_m5_valid|]. split; [exact demo_m5_latencies|]. apply demo_entries_proper; lia.
  - vm_compute. discriminate.
Qed.

Lemma analyse_inorder_correct_witness :
  exists s r, analyse (demo_files inorder_lines) demo_memory demo_options = Ok (InO s, r) /\ i_instrCount s = 3.
Proof.
  pose proof (analyse_inorder_correct _ _ _ _ _ _ _ _ _ _ demo_inorder_setting) as HR.
  replace (dense _ 0 [] _) with true in HR by (vm_compute; reflexivity).
  destruct HR as (s & E & N & _). eexists s, _. split; [exact E|exact N].
Defined.
