(* ===== verification/CalipersDetailTheorems.v ===== *)
(** * Details of the conversion, the models and the configuration

    What the conversion of a gem5 trace does to some instructions and latencies, the
    share of hits of a statistical model, and the reading of a configuration file. *)

From Stdlib Require Import QArith.
From stdpp Require Import strings pretty.
From S2P Require Import Prelude Machine External TraceParse ParseFacts Floats.
From S2P Require Import CalipersCache CalipersCycles CalipersScoreboard CalipersO3 CalipersOpcodes.
From S2P Require Import CalipersStream CalipersStreamFacts CalipersStreamPrint CalipersStreamRead.
From S2P Require Import CalipersConvert CalipersConvertFacts CalipersModels CalipersMain.
From S2P Require Import CalipersMainFacts.

#[local] Open Scope string_scope.
#[local] Open Scope list_scope.
#[local] Open Scope Z_scope.

Import CalG CalS CalO CalT CalR CalV CalM CalP.

Section details.
Context `{B : Boost} `{HB : !BoostLaws B}.

(** ** The conversion *)

Lemma starts_with_false s p : (forall r, s <> p +:+ r) -> starts_with s p = false.
Proof.
  intros H. unfold starts_with. destruct (boost_starts_with s p) eqn:E; [|done].
  apply boost_starts_with_spec in E as [r E]. by apply H in E.
Qed.

(** Compressed branches and jumps are written as correctly predicted, whenever the next
    instruction was fetched: only the names of the uncompressed ones are looked for. *)
Theorem compressed_branches_predicted name segments next :
  branch_text ("c_" +:+ name) segments next = Ok "@B 1" /\
  opcodeToTypeMap !! "c_beqz" = Some BranchCond /\ opcodeToTypeMap !! "c_bnez" = Some BranchCond /\
  opcodeToTypeMap !! "c_j" = Some BranchUncond /\ opcodeToTypeMap !! "c_jr" = Some BranchUncond.
Proof.
  split; [|split_and!; vm_compute; reflexivity]. unfold branch_text.
  assert (H : is_branch_inst ("c_" +:+ name) = false).
  { unfold is_branch_inst. rewrite !starts_with_false by (intros r; discriminate). reflexivity. }
  by rewrite H.
Qed.

(** A branch before a last line without newline is written as correctly predicted: the
    end of the file shows already when that line is read ahead. *)
Theorem unfinished_last_line inst segments line :
  branch_text inst segments (line_ahead false [line]) = Ok "@B 1".
Proof. unfold branch_text. by destruct (is_branch_inst inst). Qed.

(** Floating-point loads and all stores are written with no memory cycles, whatever
    their ticks are. *)
Theorem only_integer_loads_timed segments type :
  type = "FloatMemRead" \/ type = "MemWrite" \/ type = "FloatMemWrite" ->
  memory_text segments type = Ok ["@M 0"].
Proof. intros [-> |[-> | ->]]; reflexivity. Qed.

(** The name of an [amoswap_w] is replaced together with the three characters after it,
    which suits [amoswap_w_aq]; without a suffix they are the first operand, and the
    second one is taken for the register written. *)
Theorem amoswap_loses_operand :
  inst_text "amoswap_w_aq a0, a1, (a2)" = "amoswap_w a0, a1, (a2)" /\
  inst_text "amoswap_w a0, a1, (a2)" = "amoswap_w, a1, (a2)" /\
  registers "amoswap_w" 0 ["a0"; "a1"; "a2"] [] [] = Ok ([10], [11; 12]) /\
  registers "amoswap_w" 0 ["a1"; "a2"] [] [] = Ok ([11], [12]).
Proof. split_and!; vm_compute; reflexivity. Qed.

(** Latencies of a million cycles are written in scientific notation and read back as
    one cycle; negative ones are read back as nearly 2^32 cycles; fractions are cut
    off. *)
Theorem long_latencies_misread :
  show_g (inject_Z 1000000) = "1e+06" /\
  parseFetchCycles ("@F " +:+ show_g (inject_Z 1000000)) = Ok 1 /\
  parseMemoryCycles ("@M " +:+ show_g (inject_Z (-1))) = Ok (2 ^ 32 - 1) /\
  parseMemoryCycles ("@M " +:+ show_g (3 # 2)) = Ok 1.
Proof. split_and!; vm_compute; reflexivity. Qed.

End details.

(** ** Chance *)

Lemma filter_all {A} (P : A -> Prop) `{!forall x, Decision (P x)} l : Forall P l -> filter P l = l.
Proof. induction 1 as [|x l Hx _ IH]; [done|]. by rewrite filter_cons_True, IH. Qed.
Lemma filter_none {A} (P : A -> Prop) `{!forall x, Decision (P x)} l :
  Forall (fun x => ~ P x) l -> filter P l = [].
Proof. induction 1 as [|x l Hx _ IH]; [done|]. by rewrite filter_cons_False. Qed.

(** Of the thousand remainders [rand() % 1000] can have, a rate of [p] percent makes
    [10 * p] hits; at 100 percent every access hits, at 0 none does. *)
Theorem hit_share p : 0 <= p <= 100 ->
  Z.of_nat (List.length (filter (fun r => beats r (inject_Z p) = false) (seqZ 0 1000))) = 10 * p.
Proof.
  intros Hp. rewrite (list_filter_iff _ (fun r => r < 10 * p)).
  2: { intros r. rewrite beats_percent by done. by rewrite Z.leb_gt. }
  replace (seqZ 0 1000) with (seqZ 0 (10 * p) ++ seqZ (10 * p) (1000 - 10 * p)).
  2: { replace 1000 with (10 * p + (1000 - 10 * p)) at 2 by lia. rewrite seqZ_app by lia.
       by rewrite Z.add_0_l. }
  rewrite filter_app, length_app. rewrite (filter_all _ (seqZ 0 (10 * p))).
  2: { apply Forall_forall. intros r Hr%elem_of_seqZ. lia. }
  rewrite filter_none, length_seqZ; [cbn; lia|]. apply Forall_forall. intros r Hr%elem_of_seqZ. lia.
Qed.

(** ** The configuration *)

Definition config_word (s : string) : Prop := s <> "" /\ no_space s.

Lemma take_word_all s : no_space s -> take_word s = (s, "").
Proof.
  induction s as [|c s IH]; intros Hs; [done|]. apply no_space_cons in Hs as [Hc Hs]. cbn [take_word].
  by rewrite Hc, IH.
Qed.
Lemma take_word_app s c r : no_space s -> isspace c = true -> take_word (s +:+ String c r) = (s, String c r).
Proof.
  intros Hs Hc. induction s as [|d s IH].
  { change ("" +:+ String c r) with (String c r). cbn [take_word]. by rewrite Hc. }
  apply no_space_cons in Hs as [Hd Hs]. rewrite string_app_cons. cbn [take_word]. by rewrite Hd, IH.
Qed.
Lemma lstrip_word s r : config_word s -> lstrip (s +:+ r) = s +:+ r.
Proof.
  intros [Hn Hs]. destruct s as [|c s]; [done|]. apply no_space_cons in Hs as [Hc _].
  rewrite string_app_cons. cbn [lstrip]. by rewrite Hc.
Qed.

(** A configuration written as lines of a name, a blank and a value is read back; a
    later line replaces an earlier one of the same name. *)
Theorem config_roundtrip (l : list (string * string)) :
  Forall (fun p => config_word p.1 /\ config_word p.2) l ->
  read_config ((fun p => p.1 +:+ String " " p.2) <$> l) = foldl (fun c p => <[p.1 := p.2]> c) ∅ l.
Proof.
  intros Hl. unfold read_config. generalize (∅ : gmap string string).
  induction Hl as [|[k v] l [Hk Hv] Hl IH]; intros c; [done|]. cbn [fmap list_fmap foldl fst snd] in *.
  assert (E : config_line (k +:+ String " " v) = (k, v)).
  { unfold config_line. rewrite lstrip_word by done. rewrite take_word_app by (apply Hk || done).
    change (lstrip (String " " v)) with (lstrip v).
    rewrite <- (string_app_nil_r v), lstrip_word, string_app_nil_r by done.
    by rewrite take_word_all by apply Hv. }
  by rewrite E.
Qed.
