(* ===== verification/CalipersReportTheorems.v ===== *)
(** * Properties of the report of Calipers

    The report is the text of a summary of the critical path whose parts make up the
    whole; a share is printed to its four digits; the counters of the trace are not
    those of the window they are divided by. *)

From Stdlib Require Import QArith Qabs Lqa.
From stdpp Require Import strings pretty.
From S2P Require Import Prelude Machine External TraceParse ParseFacts Floats FloatText.
From S2P Require Import CalipersCache CalipersCycles CalipersPaths CalipersScoreboard CalipersO3.
From S2P Require Import CalipersO3Trace CalipersO3Theorems CalipersModels CalipersReport.
From S2P Require Import CalipersReportFacts CalipersMain CalipersMainFacts.

#[local] Open Scope string_scope.
#[local] Open Scope list_scope.
#[local] Open Scope Z_scope.

Import CalG CalS CalO CalM CalW CalP.

(** ** Shares *)

Lemma near_bounds k x y : near k x y -> (- x <= (y - x) * inject_Z k <= x)%Q \/ (k < 0)%Z.
Proof.
  intros H. destruct (decide (k < 0)) as [|Hk]; [by right|left]. unfold near in H.
  assert (H0 : (0 <= inject_Z k)%Q) by (change 0%Q with (inject_Z 0); rewrite <- Zle_Qle; lia).
  rewrite <- (Qabs_pos (inject_Z k)), <- Qabs_Qmult in H by done.
  apply Qabs_Qle_condition in H. exact H.
Qed.
Lemma near_positive k x y : 1 < k -> (0 < x)%Q -> near k x y -> (0 < y)%Q.
Proof.
  intros Hk Hx [[H _]|]%near_bounds; [|lia].
  assert (H1 : (1 < inject_Z k)%Q) by (change 1%Q with (inject_Z 1); by rewrite <- Zlt_Qlt). nra.
Qed.

Lemma percent_near a b : 0 < a < 2 ^ 53 -> 0 < b < 2 ^ 53 ->
  exists x, percent a b = Finite x /\ (0 < x)%Q /\
    near (2 ^ 50) (inject_Z (100 * a) / inject_Z b) x.
Proof.
  intros Ha Hb. unfold percent, ratio, round53. rewrite !round_int by lia.
  destruct (Z.eqb_spec b 0); [lia|]. set (x := (inject_Z a / inject_Z b)%Q).
  assert (Hx : (0 < x)%Q).
  { unfold x. apply Qlt_shift_div_l; [change 0%Q with (inject_Z 0); rewrite <- Zlt_Qlt; lia|].
    rewrite Qmult_0_l. change 0%Q with (inject_Z 0). rewrite <- Zlt_Qlt. lia. }
  pose proof (round_bits_near 53 x ltac:(lia) Hx) as N1. set (r := round_bits 53 x) in *.
  assert (Hr : (0 < r)%Q) by (eapply near_positive; [|exact Hx|exact N1]; lia).
  assert (Hr' : (0 < r * inject_Z 100)%Q) by (apply Qmult_lt_0_compat; [done|reflexivity]).
  pose proof (round_bits_near 53 _ ltac:(lia) Hr') as N2. set (s := round_bits 53 (r * inject_Z 100)) in *.
  exists s. split; [done|].
  assert (E : (inject_Z (100 * a) / inject_Z b == inject_Z 100 * x)%Q).
  { unfold x. rewrite inject_Z_mult. field. change 0%Q with (inject_Z 0). rewrite inject_Z_injective. lia. }
  rewrite E. split; [eapply near_positive; [|exact Hr'|exact N2]; lia|].
  apply near_bounds in N1 as [N1|]; [|lia]. apply near_bounds in N2 as [N2|]; [|lia].
  change (inject_Z (2 ^ (53 - 1))) with (4503599627370496 # 1)%Q in *. change (inject_Z 100) with (100 # 1)%Q in *.
  unfold near. change (inject_Z (2 ^ 50)) with (1125899906842624 # 1)%Q.
  assert (B : (Qabs (s - (100 # 1) * x) <= (100 # 1125899906842624) * x)%Q).
  { apply Qabs_Qle_condition. split; lra. }
  lra.
Qed.

(** C30: Shares are printed to their digits.  A line of the report gives a part of a
    whole as a percentage that, read back, is within one part in 1999 of the exact
    one, which is half a unit of the last of its four digits and the two roundings of
    the double-precision arithmetic; and the part itself, exactly. *)
Theorem share_line_accurate label part whole
    (Hp : 0 <= part < 2 ^ 53) (Hw : 0 < whole < 2 ^ 53) :
  exists text y, share_line whole (label, part) = label +:+ text +:+ "% (" +:+ show_int part +:+ ")" /\
    decimal text = Some y /\ near 1999 (inject_Z (100 * part) / inject_Z whole) y.
Proof.
  unfold share_line. cbn [fst snd]. exists (show_double (percent part whole)).
  destruct (decide (part = 0)) as [->|Hz].
  - exists 0%Q. split; [done|]. unfold percent, ratio, round53. rewrite !round_int by lia.
    destruct (Z.eqb_spec whole 0); [lia|].
    rewrite (round_bits_eq 53 _ 0%Q) by (unfold Qdiv; apply Qmult_0_l). split; [reflexivity|].
    assert (E : (inject_Z (100 * 0) / inject_Z whole == 0)%Q) by (unfold Qdiv; apply Qmult_0_l).
    rewrite E. unfold near. discriminate.
  - destruct (percent_near part whole) as (x & -> & Hx & N1); [lia|lia|].
    destruct (show_prec_near 3 x ltac:(lia) Hx) as (y & E & N2). exists y. split; [done|]. split; [exact E|].
    set (q := (inject_Z (100 * part) / inject_Z whole)%Q) in *.
    apply near_bounds in N1 as [N1|]; [|lia]. apply near_bounds in N2 as [N2|]; [|lia].
    change (inject_Z (2 ^ 50)) with (1125899906842624 # 1)%Q in *.
    change (inject_Z (2 * 10 ^ 3)) with (2000 # 1)%Q in *. unfold near. change (inject_Z 1999) with (1999 # 1)%Q.
    assert (Hq : (0 < q)%Q) by lra.
    assert (B : (Qabs (y - q) <= (1 # 1999) * q)%Q) by (apply Qabs_Qle_condition; split; lra). lra.
Qed.

Lemma share_line_accurate_witness :
  exists text y, share_line 28 ("Int cycles:             ", 22) =
    "Int cycles:             " +:+ text +:+ "% (22)" /\ decimal text = Some y /\
    near 1999 (inject_Z 2200 / inject_Z 28) y.
Proof. apply (share_line_accurate "Int cycles:             " 22 28); lia. Defined.

(** ** Windows *)

Notation O3 := (O3CoreGraph (CI := CacheModel) (CD := CacheModel) (BP := StatisticalBp)).
Definition long_trace : list Instruction := core_trace ++ core_trace ++ [plain IntBase [2] [3]].
Definition long_run (trace : list Instruction) : res (O3 * (list O3 * O3)) :=
  s ← build (demo_core 3) None None None; r ← run_windows s trace; Ok (s, r).
Definition long_report (trace : list Instruction) : res (list (list string)) :=
  '(_, (ws, _)) ← long_run trace; lanes (window_report "trace.out") ws.

Lemma long_report_run trace l : long_report trace = Ok l ->
  exists (s : O3) ws s', build (demo_core 3) None None None = Ok s /\
    run_windows s trace = Ok (ws, s') /\ lanes (window_report "trace.out") ws = Ok l.
Proof.
  intros ([s [ws s']] & H & El)%res_bind_inv. apply res_bind_inv in H as (s0 & Es & H).
  apply res_bind_inv in H as ([ws0 s0'] & Ew & [= <- <- <-]). eauto 6.
Qed.

(** Whether window [j] of a report has a line. *)
Definition says (r : res (list (list string))) (j : nat) (line : string) : bool :=
  match r with Ok l => existsb (String.eqb line) (nth j l []) | Stop _ => false end.
Lemma says_in l j line : says (Ok l) j line = true -> In line (nth j l []).
Proof. intros (y & Hy & ->%String.eqb_eq)%existsb_exists. exact Hy. Qed.

(** The counters of the instruction mix and of the misses are never reset, but each
    window divides them by its own instructions: in the third window of this trace,
    which has one instruction, five are of the integer kind, 500 percent. *)
Theorem mix_exceeds_window :
  exists (s : O3) ws s' l,
    build (demo_core 3) None None None = Ok s /\ run_windows s long_trace = Ok (ws, s') /\
    lanes (window_report "trace.out") ws = Ok l /\
    In "All int instructions:         133.3% (4)" (nth 1 l []) /\
    In "Window instructions count: 1" (nth 2 l []) /\
    In "All int instructions:         500% (5)" (nth 2 l []).
Proof.
  assert (H1 : says (long_report long_trace) 1 "All int instructions:         133.3% (4)" = true)
    by (vm_compute; reflexivity).
  assert (H2 : says (long_report long_trace) 2 "Window instructions count: 1" = true)
    by (vm_compute; reflexivity).
  assert (H3 : says (long_report long_trace) 2 "All int instructions:         500% (5)" = true)
    by (vm_compute; reflexivity).
  destruct (long_report long_trace) as [l|] eqn:E; [|discriminate H1].
  apply long_report_run in E as (s & ws & s' & Es & Ew & El). exists s, ws, s', l.
  split; [exact Es|]. split; [exact Ew|]. split; [exact El|].
  split; [exact (says_in _ _ _ H1)|]. split; [exact (says_in _ _ _ H2)|exact (says_in _ _ _ H3)].
Qed.
