(* ===== verification/CalipersAdvanced.v ===== *)
(** * The sliding-window core of Calipers

    infras/calipers/src/graph/o3_core_graph_advanced.cpp and .h: a variant of the
    out-of-order core that builds and analyses its graph over a window that slides
    along the trace.  An instruction's critical path is computed as soon as it is
    modelled; instructions are then scheduled one by one, the one with the shortest
    path first, and every edge for a limited resource is propagated through the
    graph with a worklist.

    The members this core shares with [O3CoreGraph] are those of [core] (whose own
    [graph] stays empty), and the code the two cores share word for word is the
    definition of CalipersO3.v.  Two loops of the code have no bound, the worklist
    and the main loop, so they take fuel.

    [modelResourceDependencies] takes the addresses of vertices and edges declared
    in inner blocks and [updateCriticalPath] reads them after those blocks have
    ended, which is undefined.  [keep] says whether the storage is still as it was:
    with [keep = false] reading it is [Stop Undefined]. *)

From S2P Require Import Prelude Machine CalipersCache CalipersCycles CalipersScoreboard.
From S2P Require Import CalipersO3 CalipersReport.

#[local] Open Scope list_scope.
#[local] Open Scope Z_scope.

Module CalA.
Import CalG CalS CalO.

(** The window the program would use. *)
Definition OOO_SLIDING_WINDOW : Z := 800.

Record IncomingEdge := mkIncoming { parent : Vertex; in_weight : Vector }.
Notation ancestry := (gmap key (list IncomingEdge)).

Section Advanced.
Context {CI CD BP : Type} `{Cache CI} `{Cache CD} `{BranchPredictor BP}.

Record O3CoreGraphAdvanced := mkAdvanced {
  core : @O3CoreGraph CI CD BP;
  graphChildren : adjacency;
  graphParents : ancestry;
  headInstr : Z;
  headScheduledInstr : Z;
  alreadyScheduled : list Z;
  maxSchedInstrNum : Z
}.

Definition set_core (s : O3CoreGraphAdvanced) c : O3CoreGraphAdvanced :=
  mkAdvanced c (graphChildren s) (graphParents s) (headInstr s) (headScheduledInstr s)
    (alreadyScheduled s) (maxSchedInstrNum s).
Definition set_edges (s : O3CoreGraphAdvanced) ch pa : O3CoreGraphAdvanced :=
  mkAdvanced (core s) ch pa (headInstr s) (headScheduledInstr s) (alreadyScheduled s)
    (maxSchedInstrNum s).
Definition set_heads (s : O3CoreGraphAdvanced) h hs : O3CoreGraphAdvanced :=
  mkAdvanced (core s) (graphChildren s) (graphParents s) h hs (alreadyScheduled s)
    (maxSchedInstrNum s).
Definition set_scheduled (s : O3CoreGraphAdvanced) l m : O3CoreGraphAdvanced :=
  mkAdvanced (core s) (graphChildren s) (graphParents s) (headInstr s) (headScheduledInstr s) l m.
Definition with_base (s : O3CoreGraphAdvanced) (b : Graph) : O3CoreGraphAdvanced :=
  set_core s (set_base (core s) b).
Definition with_order (s : O3CoreGraphAdvanced) (l : list (Z * Z)) : O3CoreGraphAdvanced :=
  set_core s (set_schedule (core s) l).

(** ** Edges *)

Definition parents_at (g : ancestry) (k : key) : list IncomingEdge := default [] (g !! k).

Definition addEdge (s : O3CoreGraphAdvanced) (pe : Edge) : O3CoreGraphAdvanced :=
  let pk := VertexKey (base (core s)) pe.1 in
  let ck := VertexKey (base (core s)) (child pe.2) in
  set_edges s (<[pk := edge_at (graphChildren s) pk ++ [pe.2]]> (graphChildren s))
    (<[ck := parents_at (graphParents s) ck ++ [mkIncoming pe.1 (weight pe.2)]]> (graphParents s)).
Definition addEdges (s : O3CoreGraphAdvanced) (es : list Edge) : O3CoreGraphAdvanced :=
  foldl addEdge s es.

(** ** One instruction *)

(** As in [O3CoreGraph], with the number of the instruction in the trace where
    that core takes its number in the window. *)
Definition bandwidth_applies (s : @O3CoreGraph CI CD BP) (limit : Z) : bool :=
  (limit <=? instrCount s) &&
  ((lastMisprediction (book s) =? UINT64_MAX) ||
   (limit <? u64 (instrCount s - lastMisprediction (book s)))).
Definition bandwidth_edge (s : @O3CoreGraph CI CD BP) (t : VertexType) (limit : Z) : list Edge :=
  if bandwidth_applies s limit
  then [edge t (u64 (instrCount s - limit)) t (instrCount s) 1] else [].

Definition order_edges (s : @O3CoreGraph CI CD BP) (mispred : bool) (fetch_cycles : Z)
    (no_need_for_ino_commit : bool) : list Edge :=
  let n := instrCount s in
  let p := params s in
  if mispred then
    [edge InstrExecute (u64 (n - 1)) InstrFetch n
       (u32 (getResourceLatency (scoreboard s) RscIntAlu + mispredictionPenalty p + fetch_cycles))]
  else
    (if n =? 0 then []
     else [edge InstrFetch (u64 (n - 1)) InstrFetch n
             (if previousWasBranch (book s) then u32 (predictionCycles p + fetch_cycles)
              else fetch_cycles)]) ++
    (if (n =? 0) || (dispatchBandwidth p =? 1) then []
     else [edge InstrDispatch (u64 (n - 1)) InstrDispatch n 0]) ++
    (if no_need_for_ino_commit then []
     else [edge InstrCommit (u64 (n - 1)) InstrCommit n 0]).

Definition pipeline_edges (s : @O3CoreGraph CI CD BP) (instr : Instruction) (execution_cycles : Z)
    (mispred : bool) (fetch_cycles : Z) : list Edge :=
  let n := instrCount s in
  let p := params s in
  let no_need := (n =? 0) || (commitBandwidth p =? 1) in
  stage_edges s instr execution_cycles ++
  bandwidth_edge s InstrFetch (fetchBandwidth p) ++
  bandwidth_edge s InstrDispatch (dispatchBandwidth p) ++
  bandwidth_edge s InstrCommit (commitBandwidth p) ++
  (if mem_commit_applies s
   then [edge InstrCommit (lastMemLdSt (book s)) InstrCommit n 1] else []) ++
  order_edges s mispred fetch_cycles
    (no_need || (mem_commit_applies s && (u64 (n - lastMemLdSt (book s)) =? 1))) ++
  (if instrBufferSize p <=? n
   then [edge InstrCommit (u64 (n - instrBufferSize p)) InstrFetch n 0] else []).

Definition modelPipeline (s : O3CoreGraphAdvanced) (instr : Instruction) (execution_cycles : Z)
    : res O3CoreGraphAdvanced :=
  let c := core s in
  let mispred := previousInstrMispredicted (book c) in
  let '(previous, c) := predict c instr in
  let c := set_stats c (count_branch (stats c) (is_branch instr) previous) in
  '(fetch_cycles, c) ← fetch c instr;
  let c := set_stats c
             (count_fetch (stats c) l1iThreshold (l2iThreshold (base c)) fetch_cycles) in
  let es := pipeline_edges c instr execution_cycles mispred fetch_cycles in
  let last := if mispred then u64 (instrCount c - 1) else lastMisprediction (book c) in
  let c := set_book c (book_fetch (book c) (cache_line (pc instr)) previous last) in
  Ok (addEdges (set_core s c) es).

(** Memory order and the data cache. *)
Definition model_access (s : O3CoreGraphAdvanced) (instr : Instruction)
    : res (Z * O3CoreGraphAdvanced) :=
  '(es, forward) ← (if load_store instr && bool_decide (is_Some (dcache (core s)))
                    then modelMemoryOrderConstraint (core s) instr else Ok ([], false));
  let s := addEdges s es in
  if load_store instr then
    '(ls_cycles, c) ← access_memory (core s) instr forward; Ok (ls_cycles, set_core s c)
  else Ok (0, s).

Definition model (s : O3CoreGraphAdvanced) (instr : Instruction) : res O3CoreGraphAdvanced :=
  '(ls_cycles, s) ← model_access (set_core s (count_instr (core s) instr)) instr;
  let execution_cycles := execution_latency (core s) instr ls_cycles in
  s ← modelPipeline (set_core s (record_cycles (core s) instr ls_cycles execution_cycles))
        instr execution_cycles;
  let s := addEdges s (trackDataDependencies (core s) instr) in
  c ← finish_instr (core s) instr ls_cycles execution_cycles;
  Ok (set_core s c).

(** Relax the edges into the vertices of the new instruction, stage by stage, and
    enter it into the schedule. *)
Definition relax_stage (s : O3CoreGraphAdvanced) (t : VertexType) : res O3CoreGraphAdvanced :=
  let c := mkVertex t (instrCount (core s)) in
  b ← res_fold (fun b e => updateCriticalPathCycles b (parent e) (mkEdge c (in_weight e)))
        (base (core s)) (parents_at (graphParents s) (VertexKey (base (core s)) c));
  let s := with_base s b in
  if decide (t = InstrExecute) then
    len ← Vector_get (length_at b (VertexKey b c)) 0;
    Ok (with_order s (schedule_insert (instrCount (core s), len) (scheduleOrder (core s))))
  else Ok s.
Definition calculateInstructionCriticalPath (s : O3CoreGraphAdvanced) : res O3CoreGraphAdvanced :=
  res_fold relax_stage s all_types.

(** ** Propagating an edge *)

(** [find] and [erase] of the ordered set. *)
Definition schedule_find (x : Z * Z) (l : list (Z * Z)) : bool := bool_decide (x ∈ l).
Definition schedule_erase (x : Z * Z) (l : list (Z * Z)) : list (Z * Z) :=
  filter (fun y => y <> x) l.

(** The worklist's state: critical paths, schedule and vertices to visit. *)
Record Work := mkWork { w_base : Graph; w_order : list (Z * Z); w_list : list Vertex }.

Definition propagate_edge (p : Vertex) (w : Work) (e : OutgoingEdge) : res Work :=
  let current_child := child e in
  let ck := VertexKey (w_base w) current_child in
  prev_length ← Vector_get (length_at (w_base w) ck) 0;
  b ← updateCriticalPathCycles (w_base w) p e;
  len ← Vector_get (length_at b ck) 0;
  if prev_length =? len then Ok (mkWork b (w_order w) (w_list w))
  else
    order ← (if decide (type current_child = InstrExecute) then
               let old := (instrNum current_child, prev_length) in
               if schedule_find old (w_order w) then
                 Ok (schedule_insert (instrNum current_child, len) (schedule_erase old (w_order w)))
               else Stop ErrorExit
             else Ok (w_order w));
    Ok (mkWork b order (w_list w ++ [current_child])).

(** Visit the first vertex, then drop it. *)
Definition propagate_vertex (ch : adjacency) (p : Vertex) (w : Work) : res Work :=
  w ← res_fold (propagate_edge p) w (edge_at ch (VertexKey (w_base w) p));
  Ok (mkWork (w_base w) (w_order w) (tail (w_list w))).

Fixpoint update_loop (fuel : nat) (ch : adjacency) (w : Work) : res Work :=
  match w_list w with
  | [] => Ok w
  | p :: _ =>
      match fuel with
      | O => Stop OutOfFuel
      | S fuel => w ← propagate_vertex ch p w; update_loop fuel ch w
      end
  end.

(** Read a vertex and an edge through pointers to variables of an ended block. *)
Definition dereference (keep : bool) (pe : Edge) : res Edge :=
  if keep then Ok pe else Stop Undefined.

(** The edges given: the child of the last of them, and whether it moved. *)
Definition relax_parent (keep : bool) (a : Graph * option Vertex * bool) (pe : Edge)
    : res (Graph * option Vertex * bool) :=
  let '(b, _, changed) := a in
  pe ← dereference keep pe;
  let ck := VertexKey b (child pe.2) in
  prev_length ← Vector_get (length_at b ck) 0;
  b ← updateCriticalPathCycles b pe.1 pe.2;
  len ← Vector_get (length_at b ck) 0;
  Ok (b, Some (child pe.2), changed || negb (prev_length =? len)).

(** The edges are those of the pointers that are not null. *)
Definition updateCriticalPath (keep : bool) (fuel : nat) (s : O3CoreGraphAdvanced) (es : list Edge)
    : res O3CoreGraphAdvanced :=
  '(b, c, length_changed) ← res_fold (relax_parent keep) (base (core s), None, false) es;
  let s := with_base s b in
  match c with
  | Some c =>
      if (length_changed : bool) then
        w ← update_loop fuel (graphChildren s) (mkWork b (scheduleOrder (core s)) [c]);
        Ok (with_order (with_base s (w_base w)) (w_order w))
      else Ok s
  | None => Ok s
  end.

(** ** Scheduling *)

(** Insertion into the ordered set of numbers. *)
Fixpoint number_insert (x : Z) (l : list Z) : list Z :=
  match l with
  | [] => [x]
  | y :: l' => if x <? y then x :: l else if y <? x then y :: number_insert x l' else l
  end.

(** The edge from the previous user of a resource, added to the graph and kept for
    [updateCriticalPath]. *)
Definition waiting_edge (s : O3CoreGraphAdvanced) (t : VertexType) (curr prev wait_cycles : Z)
    (near : bool) : res (O3CoreGraphAdvanced * list Edge) :=
  if negb (prev =? UINT64_MAX) &&
     (negb near || (unsigned_diff curr prev <? instrBufferSize (params (core s)))) then
    w ← Vector_lane wait_cycles 0;
    let pe := (mkVertex t prev, mkEdge (mkVertex t curr) w) in
    Ok (addEdge s pe, [pe])
  else Ok (s, []).

Definition request_unit (s : O3CoreGraphAdvanced) (op curr : Z) (near : bool)
    : res (O3CoreGraphAdvanced * list Edge) :=
  '(prev, wait_cycles, sb) ← scheduleResource (scoreboard (core s)) op curr;
  waiting_edge (set_core s (set_scoreboard (core s) sb)) InstrExecute curr prev wait_cycles near.
Definition request_entry (s : O3CoreGraphAdvanced) (t : VertexType) (q curr cycles : Z) (near : bool)
    : res (O3CoreGraphAdvanced * list Edge) :=
  '(prev, wait_cycles, sb) ← scheduleQueue (scoreboard (core s)) q curr cycles;
  waiting_edge (set_core s (set_scoreboard (core s) sb)) t curr prev wait_cycles near.

(** Assign issue slot, queue entry, execution unit and load or store queue.  The
    second call of [updateCriticalPath] still has the issue edge when there is no
    load or store queue to enter. *)
Definition schedule_instr (keep : bool) (fuel : nat) (s : O3CoreGraphAdvanced) (curr : Z)
    : res O3CoreGraphAdvanced :=
  let slot := curr mod window (core s) in
  '(s, p1) ← request_unit s RscIssue curr false;
  let execution_cycles := default 0 (executionCyclesOf (book (core s)) !! slot) in
  '(s, p2) ← request_entry s InstrExecute RscInstrQ curr execution_cycles false;
  let execution_type := type_at (base (core s)) curr in
  '(s, p3) ← match operation_of execution_type with
             | Some (operation_type, _) => request_unit s operation_type curr true
             | None => Ok (s, [])
             end;
  s ← updateCriticalPath keep fuel s (p1 ++ p2 ++ p3);
  match operation_of execution_type with
  | Some (_, Some lsq_type) =>
      let ls_cycles := default 0 (lsCyclesOf (book (core s)) !! slot) in
      '(s, p1) ← request_entry s MemExecute lsq_type curr ls_cycles true;
      updateCriticalPath keep fuel s p1
  | _ => updateCriticalPath keep fuel s p1
  end.

(** Take the first instruction of the schedule. *)
Definition take_instr (s : O3CoreGraphAdvanced) : res (Z * O3CoreGraphAdvanced) :=
  match scheduleOrder (core s) with
  | [] => Stop Undefined
  | (curr, _) :: order =>
      if instrBufferSize (params (core s)) <? u64 (curr - headScheduledInstr s) then Stop ErrorExit
      else Ok (curr, set_scheduled (with_order s order) (number_insert curr (alreadyScheduled s))
                       (if maxSchedInstrNum s <? curr then curr else maxSchedInstrNum s))
  end.

(** How many numbers from [head] on are in the set. *)
Fixpoint orderly (head : Z) (l : list Z) : Z :=
  match l with
  | [] => 0
  | x :: l => if u64 (x - head) =? 0 then 1 + orderly (u64 (head + 1)) l else 0
  end.

(** Schedule until [headScheduledInstr] is, or nothing is left; [n] bounds the
    instructions scheduled. *)
Fixpoint schedule_loop (keep : bool) (fuel n : nat) (s : O3CoreGraphAdvanced)
    : res (O3CoreGraphAdvanced * Z * bool) :=
  match n with
  | O => Stop OutOfFuel
  | S n =>
      '(curr, s) ← take_instr s;
      s ← schedule_instr keep fuel s curr;
      let empty := match scheduleOrder (core s) with [] => true | _ => false end in
      let head := curr =? headScheduledInstr s in
      let count := if head then orderly (headScheduledInstr s) (alreadyScheduled s) else 0 in
      if head || empty then Ok (s, count, empty) else schedule_loop keep fuel n s
  end.

(** Make room for instructions: forget the edges of the oldest ones. *)
Definition clear_vertex (s : O3CoreGraphAdvanced) (v : Vertex) : O3CoreGraphAdvanced :=
  let k := VertexKey (base (core s)) v in
  set_edges s (<[k := []]> (graphChildren s)) (<[k := []]> (graphParents s)).
Definition clear_slots (s : O3CoreGraphAdvanced) (read_new : Z) : O3CoreGraphAdvanced :=
  let first := headInstr s - window (core s) in
  foldl (fun s i => foldl (fun s t => clear_vertex s (mkVertex t (u64 (first + i)))) s all_types)
    s (seqZ 0 read_new).

Definition advance_heads (s : O3CoreGraphAdvanced) (count : Z) : O3CoreGraphAdvanced * Z :=
  let s := set_scheduled s (drop (Z.to_nat count) (alreadyScheduled s)) (maxSchedInstrNum s) in
  let s := set_heads s (headInstr s) (u64 (headScheduledInstr s + count)) in
  let read_new :=
    if u64 (headInstr s - headScheduledInstr s) <? window (core s) / 4
    then window (core s) / 4 else 0 in
  let s := clear_slots s read_new in
  (set_heads s (u64 (headInstr s + read_new)) (headScheduledInstr s), read_new).

Definition modelResourceDependencies (keep : bool) (fuel : nat) (s : O3CoreGraphAdvanced)
    : res (O3CoreGraphAdvanced * Z * bool) :=
  '(s, count, all_scheduled) ← schedule_loop keep fuel fuel s;
  let '(s, read_new) := advance_heads s count in
  Ok (s, read_new, all_scheduled).

(** ** Set-up and the main loop *)

Definition initBookKeeping (s : O3CoreGraphAdvanced) : O3CoreGraphAdvanced :=
  let c := core s in
  let b := book c in
  let size := u32 (getQueueSize (scoreboard c) RscLQ + getQueueSize (scoreboard c) RscSQ) in
  let c := set_book c
    (mkBook UINT64_MAX UINT64_MAX UINT64_MAX false false (linearPC b) UINT64_MAX
       (regLastWrittenBy b) (regLastWrittenByLoad b)
       (reset_ld_st (ldStWindow b) size) (ldStWindowType b) 0
       (reset_slots (lsCyclesOf b) (window c)) (reset_slots (executionCyclesOf b) (window c))) in
  let c := set_base c (reset_types (reset_first (base c))) in
  set_heads (set_core s c) (window c) 0.

(** Read up to [n] instructions; what is left, and whether the trace went on. *)
Fixpoint read_instrs (n : nat) (s : O3CoreGraphAdvanced) (trace : list Instruction)
    : res (O3CoreGraphAdvanced * list Instruction * bool) :=
  match n with
  | O => Ok (s, trace, true)
  | S n =>
      match trace with
      | [] => Ok (s, [], false)
      | instr :: trace =>
          s ← model s instr;
          s ← calculateInstructionCriticalPath s;
          let c := core s in
          read_instrs n (set_core s (set_counts c (u64 (instrCount c + 1)) (analyzedWindows c))) trace
      end
  end.

(** The [while] loop of [run]; [n] bounds its rounds. *)
Fixpoint run_loop (keep : bool) (fuel n : nat) (s : O3CoreGraphAdvanced) (trace : list Instruction)
    (instr_avail all_scheduled : bool) (read_new : Z) : res O3CoreGraphAdvanced :=
  if instr_avail || negb all_scheduled then
    match n with
    | O => Stop OutOfFuel
    | S n =>
        '(s, trace, instr_avail) ← (if instr_avail && negb (read_new =? 0)
                                    then read_instrs (Z.to_nat read_new) s trace
                                    else Ok (s, trace, instr_avail));
        '(s, read_new, all_scheduled) ← modelResourceDependencies keep fuel s;
        run_loop keep fuel n s trace instr_avail all_scheduled read_new
    end
  else Ok s.

(** The analysis, and the report at its end. *)
Definition analyse (keep : bool) (fuel : nat) (s : O3CoreGraphAdvanced) (trace : list Instruction)
    : res O3CoreGraphAdvanced :=
  '(s, trace, instr_avail) ← read_instrs (Z.to_nat (window (core s))) s trace;
  run_loop keep fuel fuel s trace instr_avail false 0.
Definition run (keep : bool) (fuel : nat) (traceFileName : string) (s : O3CoreGraphAdvanced)
    (trace : list Instruction) : res (O3CoreGraphAdvanced * list string) :=
  s ← analyse keep fuel s trace;
  let c := core s in
  text ← CalW.recordStats traceFileName true false (base c) (stats c) (instrCount c)
           (analyzedWindows c);
  Ok (s, text).

End Advanced.

(** The constructor; [mem_max] is what [maxSchedInstrNum], which nothing sets,
    holds, the other lists as for [O3CoreGraph_new]. *)
Definition O3CoreGraphAdvanced_new {CI CD BP} (mem_int mem_fp mem_mix : list Z)
    (mem_types : list bool) (mem_max : Z) (analysis_window : Z) (p : Params) (z : Sizes)
    (ic : option CI) (dc : option CD) (pred : option BP) : res (@O3CoreGraphAdvanced CI CD BP) :=
  b ← init_scoreboard mem_int mem_fp z;
  let g := mkGraph analysis_window 20 5 20 (getResourceLatency b RscIntAlu) ∅ ∅ ∅ ∅ in
  let book := mkBook 0 0 0 false false 0 0 ∅ ∅
                (replicate (Z.to_nat (u32 (lq_size z + sq_size z))) (0, (0, 0))) mem_types 0 ∅ ∅ in
  let c := mkO3 p g b book (mkStats mem_mix 0 0 0 0 0 0) ∅ [] 0 0 ic dc pred in
  Ok (initBookKeeping (mkAdvanced c ∅ ∅ 0 0 [] mem_max)).

End CalA.
