(* ===== verification/CalipersWorklist.v ===== *)
(** * The worklist of the sliding-window core

    What [update_loop] of CalipersAdvanced.v computes.  When it returns, every edge
    it started from is relaxed again; on a part of the graph along whose edges a
    rank grows it does return, after at most as many visits as the lengths can still
    grow; around a cycle of positive weight it does not. *)

From S2P Require Import Prelude Machine CalipersCycles CalipersPaths CalipersScoreboard CalipersO3.
From S2P Require Import CalipersScoreFacts CalipersO3Facts CalipersO3Steps CalipersO3Window.
From S2P Require Import CalipersReport.
From S2P Require Import CalipersAdvanced.

#[local] Open Scope list_scope.
#[local] Open Scope Z_scope.

Import CalG CalS CalO CalA.

(** ** One relaxation, seen through the lengths *)

Definition len_of (g : Graph) (k : key) : Z := lane (length_at g k).

Definition one_lane (g : Graph) : Prop := forall k, exists x, length_at g k = [x].

Lemma one_lane_get g k : one_lane g -> Vector_get (length_at g k) 0 = Ok (len_of g k).
Proof. intros H. unfold len_of. by destruct (H k) as (x & ->). Qed.

Lemma update_lengths g p e g' w :
  one_lane g -> weight e = [w] -> updateCriticalPathCycles g p e = Ok g' ->
  let ck := VertexKey g (child e) in
  AnalysisWindow g' = AnalysisWindow g /\ one_lane g' /\
  forall k, len_of g' k = if decide (k = ck)
    then relaxed (len_of g ck) (len_of g (VertexKey g p)) w else len_of g k.
Proof.
  intros H1 Hw HU ck. unfold updateCriticalPathCycles in HU. fold ck in HU.
  destruct (H1 ck) as (x & Hx), (H1 (VertexKey g p)) as (a & Ha).
  rewrite Hx, Ha, Hw in HU. unfold update_masked, update_lane in HU. cbn in HU.
  assert (exists m, (if w =? INT64_MAX then Ok (x, false)
     else s ← i64 (a + w); Ok (if x <=? s then (s, true) else (x, false))) = Ok (relaxed x a w, m) \/
     exists y, (if w =? INT64_MAX then Ok (x, false)
     else s ← i64 (a + w); Ok (if x <=? s then (s, true) else (x, false))) = Stop y) as (m & [E|(y & E)]).
  { unfold relaxed. destruct (w =? INT64_MAX); [by exists false; left|]. unfold i64.
    destruct (_ && _); cbn; [|exists true; right; eauto].
    destruct (Z.leb_spec x (a + w)); [exists true|exists false]; left; do 3 f_equal; lia. }
  2:{ rewrite E in HU. discriminate. }
  rewrite E in HU. cbn in HU. inv_res.
  apply count_instruction_length in HU0 as [L1 A1]. apply charge_cycles_length in HU as [L2 A2].
  assert (HL : forall k, length_at g' k = if decide (k = ck) then [relaxed x a w] else length_at g k).
  { intros k. unfold length_at at 1. rewrite L2, L1. apply (length_at_set g ck). }
  split; [by rewrite A2, A1|]. split.
  - intros k. rewrite HL. case_decide; [by eexists|apply H1].
  - intros k. unfold len_of. rewrite HL, Hx, Ha. by case_decide.
Qed.

(** ** Settled vertices *)

(** The edge [e] out of [k] is relaxed. *)
Definition tight (g : Graph) (k : key) (e : OutgoingEdge) : Prop :=
  lane (weight e) = INT64_MAX \/
  len_of g k + lane (weight e) <= len_of g (VertexKey g (child e)).
Definition settled (ch : adjacency) (g : Graph) (k : key) : Prop :=
  forall e, e ∈ edge_at ch k -> tight g k e.

(** Every edge has one lane. *)
Definition narrow (ch : adjacency) : Prop :=
  forall k e, e ∈ edge_at ch k -> exists w, weight e = [w].

(** The lengths grow, and only on some keys. *)
Definition grown_from (g g' : Graph) : Prop :=
  AnalysisWindow g' = AnalysisWindow g /\ forall k, len_of g k <= len_of g' k.

Lemma grown_from_trans g1 g2 g3 : grown_from g1 g2 -> grown_from g2 g3 -> grown_from g1 g3.
Proof. intros [A1 L1] [A2 L2]. split; [congruence|]. intros k. specialize (L1 k). specialize (L2 k). lia. Qed.

Lemma grown_key g g' v : AnalysisWindow g' = AnalysisWindow g -> VertexKey g' v = VertexKey g v.
Proof. intros H. unfold VertexKey. by rewrite H. Qed.

Lemma tight_grown g g' k e :
  grown_from g g' -> len_of g' k = len_of g k -> tight g k e -> tight g' k e.
Proof.
  intros [A L] Hk [H|H]; [by left|]. right. rewrite Hk, (grown_key _ _ _ A).
  specialize (L (VertexKey g (child e))). lia.
Qed.

Lemma relaxed_ge x a w : x <= relaxed x a w.
Proof. unfold relaxed. destruct (_ =? _); lia. Qed.

(** The vertices in question are those with a key in [Q]. *)
Section Settle.
Context (ch : adjacency) (Hch : narrow ch) (Q : key -> Prop).

(** While the edges of [p] are visited: [done] of them are through, the vertices to
    visit after [p] are [rest]. *)
Record visiting (p : Vertex) (done : list OutgoingEdge) (w : Work) : Prop := {
  vi_lane : one_lane (w_base w);
  vi_list : exists rest, w_list w = p :: rest /\
    (forall k, Q k -> k <> VertexKey (w_base w) p -> k ∉ VertexKey (w_base w) <$> rest ->
       settled ch (w_base w) k) /\
    (VertexKey (w_base w) p ∈ VertexKey (w_base w) <$> rest \/
     forall e, e ∈ done -> tight (w_base w) (VertexKey (w_base w) p) e)
}.

(** What one edge does to the lengths and to the list. *)
Lemma propagate_edge_inv p w e w' x :
  one_lane (w_base w) -> weight e = [x] -> propagate_edge p w e = Ok w' ->
  let g := w_base w in let ck := VertexKey g (child e) in
  updateCriticalPathCycles g p e = Ok (w_base w') /\
  (len_of (w_base w') ck = len_of g ck /\ w_list w' = w_list w /\ w_order w' = w_order w \/
   len_of (w_base w') ck <> len_of g ck /\ w_list w' = w_list w ++ [child e]).
Proof.
  intros H1 Hx H g ck. unfold propagate_edge in H. fold g ck in H.
  rewrite (one_lane_get _ _ H1) in H. rewrite res_bind_ok in H.
  apply res_bind_inv in H as (b & Hb & H). fold g in Hb.
  destruct (update_lengths _ _ _ _ _ H1 Hx Hb) as (_ & H1' & _).
  rewrite (one_lane_get _ _ H1'), res_bind_ok in H. fold g in H.
  destruct (Z.eqb_spec (len_of g ck) (len_of b ck)) as [E|E].
  - injection H as <-. split; [done|]. left. cbn. auto.
  - apply res_bind_inv in H as (o & Ho & H). injection H as <-. split; [done|]. right. cbn. auto.
Qed.

Lemma visiting_edge p done w e w' :
  visiting p done w -> (exists x, weight e = [x]) -> propagate_edge p w e = Ok w' ->
  visiting p (done ++ [e]) w' /\ grown_from (w_base w) (w_base w').
Proof.
  intros [H1 (rest & HL & HS & HD)] (x & Hx) HP.
  destruct (propagate_edge_inv _ _ _ _ _ H1 Hx HP) as [HU Hc].
  destruct (update_lengths _ _ _ _ _ H1 Hx HU) as (A & H1' & L). clear HP HU.
  set (g := w_base w) in *. set (g' := w_base w') in *. set (kp := VertexKey g p) in *.
  set (ck := VertexKey g (child e)) in *.
  assert (HG : grown_from g g').
  { split; [done|]. intros k. rewrite L. case_decide; [subst k; apply relaxed_ge|done]. }
  assert (K : forall v, VertexKey g' v = VertexKey g v) by (intros; by apply grown_key).
  assert (Ks : forall l, VertexKey g' <$> l = VertexKey g <$> l)
    by (intros l; apply list_fmap_ext; intros; apply K).
  assert (Hke : len_of g' kp = len_of g kp -> tight g' kp e).
  { intros Hkp. unfold tight. rewrite Hkp, K, Hx. cbn [lane hd]. fold ck.
    rewrite (L ck), decide_True by done. fold kp. unfold relaxed.
    destruct (Z.eqb_spec x INT64_MAX); [by left|right; lia]. }
  split; [|done].
  split; [done|]. rewrite K. fold kp. destruct Hc as [(Hs & HL' & _)|(Hs & HL')].
  - assert (Hsame : forall k, len_of g' k = len_of g k).
    { intros k. destruct (decide (k = ck)) as [->|Hk]; [done|]. by rewrite L, decide_False. }
    exists rest. rewrite HL', Ks. split; [done|]. split.
    + intros k HQ Hk Hr e' He'. exact (tight_grown _ _ _ _ HG (Hsame k) (HS k HQ Hk Hr e' He')).
    + destruct HD as [HD|HD]; [by left|]. right. intros e' [He'|He']%elem_of_app.
      * exact (tight_grown _ _ _ _ HG (Hsame kp) (HD e' He')).
      * apply list_elem_of_singleton in He' as ->. exact (Hke (Hsame kp)).
  - exists (rest ++ [child e]). rewrite HL', HL, Ks. split; [done|].
    rewrite fmap_app. cbn [fmap list_fmap]. fold ck. split.
    + intros k HQ Hk Hr e' He'. rewrite not_elem_of_app, list_elem_of_singleton in Hr.
      apply (tight_grown g); [exact HG| |apply (HS k); tauto].
      rewrite L, decide_False; [reflexivity|tauto].
    + destruct (decide (kp = ck)) as [->|Hne].
      { left. apply elem_of_app. right. by apply list_elem_of_singleton. }
      assert (Hkp : len_of g' kp = len_of g kp) by (by rewrite L, decide_False).
      destruct HD as [HD|HD]; [left; apply elem_of_app; by left|]. right. intros e' [He'|He']%elem_of_app.
      * exact (tight_grown _ _ _ _ HG Hkp (HD e' He')).
      * apply list_elem_of_singleton in He' as ->. exact (Hke Hkp).
Qed.

Lemma visiting_edges p done es w w' :
  visiting p done w -> Forall (fun e => exists x, weight e = [x]) es ->
  res_fold (propagate_edge p) w es = Ok w' ->
  visiting p (done ++ es) w' /\ grown_from (w_base w) (w_base w').
Proof.
  revert done w. induction es as [|e es IH]; intros done w HV Hf HE.
  - injection HE as <-. rewrite app_nil_r. split; [done|]. split; [done|]. intros k. lia.
  - apply Forall_cons in Hf as [He Hf]. cbn in HE. apply res_bind_inv in HE as (w1 & H1 & HE).
    destruct (visiting_edge _ _ _ _ _ HV He H1) as [HV1 G1].
    destruct (IH (done ++ [e]) w1 HV1 Hf HE) as [HV2 G2].
    rewrite <- app_assoc in HV2. split; [done|]. by eapply grown_from_trans.
Qed.

(** Every vertex that need not be visited any more is settled. *)
Definition pending (w : Work) : Prop :=
  one_lane (w_base w) /\
  forall k, Q k -> k ∉ VertexKey (w_base w) <$> w_list w -> settled ch (w_base w) k.

Lemma propagate_vertex_pending p rest w w' :
  w_list w = p :: rest -> pending w -> propagate_vertex ch p w = Ok w' ->
  pending w' /\ grown_from (w_base w) (w_base w').
Proof.
  intros HL [H1 HP] H. unfold propagate_vertex in H.
  apply res_bind_inv in H as (w1 & HE & H). injection H as <-.
  destruct (visiting_edges p [] (edge_at ch (VertexKey (w_base w) p)) w w1)
    with (2 := proj2 (Forall_forall _ _) (Hch (VertexKey (w_base w) p))) (3 := HE) as [[H1' (rest' & HL' & HS & HD)] HG].
  - split; [done|]. exists rest. split; [done|]. split.
    + intros k HQ Hk Hr. apply HP; [exact HQ|]. rewrite HL. by apply not_elem_of_cons.
    + right. intros e He. by apply not_elem_of_nil in He.
  - clear HE. cbn [app] in HD. assert (K := grown_key _ _ p (proj1 HG)). split; [|done].
    split; [done|]. cbn [w_base w_list]. rewrite HL'. cbn [tail]. intros k HQ Hk.
    destruct (decide (k = VertexKey (w_base w1) p)) as [->|Hne]; [|by apply HS].
    destruct HD as [HD|HD]; [done|]. intros e He. apply HD. by rewrite <- K.
Qed.

(** When the worklist is empty, everything is settled. *)
Lemma update_loop_settles fuel w w' :
  pending w -> update_loop fuel ch w = Ok w' ->
  one_lane (w_base w') /\ (forall k, Q k -> settled ch (w_base w') k) /\
  grown_from (w_base w) (w_base w').
Proof.
  revert w. induction fuel as [|fuel IH]; intros w HP H; cbn [update_loop] in H;
    destruct (w_list w) as [|p rest] eqn:HL.
  1,3: injection H as <-; destruct HP as [H1 HP]; split; [done|]; split;
       [intros k HQ; apply HP; [exact HQ|]; rewrite HL; apply not_elem_of_nil|split; [done|intros; lia]].
  - discriminate.
  - apply res_bind_inv in H as (w1 & HV & H).
    destruct (propagate_vertex_pending _ _ _ _ HL HP HV) as [HP1 G1].
    destruct (IH w1 HP1 H) as (H1 & HS & G2). clear HV H.
    split; [exact H1|]. split; [exact HS|]. exact (grown_from_trans _ _ _ G1 G2).
Qed.
End Settle.

(** ** Cycles *)

(** A walk along edges of the graph, from a key to a key, with its weight. *)
Inductive walk (ch : adjacency) (g : Graph) : key -> key -> Z -> Prop :=
| walk_nil k : walk ch g k k 0
| walk_cons k e x k' c :
    e ∈ edge_at ch k -> weight e = [x] -> x <> INT64_MAX ->
    walk ch g (VertexKey g (child e)) k' c -> walk ch g k k' (x + c).

Lemma walk_settled ch g k k' c :
  (forall k, settled ch g k) -> walk ch g k k' c -> len_of g k + c <= len_of g k'.
Proof.
  intros HS. induction 1 as [k|k e x k' c He Hx Hm _ IH]; [lia|].
  destruct (HS k e He) as [H|H]; rewrite Hx in H; cbn [lane hd] in H; [done|]. lia.
Qed.

Lemma walk_window ch g g' k k' c :
  AnalysisWindow g' = AnalysisWindow g -> walk ch g k k' c -> walk ch g' k k' c.
Proof.
  intros HA. induction 1 as [k|k e x k' c He Hx Hm _ IH]; [constructor|].
  apply (walk_cons ch g' k e); try done. by rewrite (grown_key g g').
Qed.

(** ** Ranks *)

(** Counters within the rank of their vertex, lengths within [2 ^ 32] times it. *)
Record ranked (N : key -> Z) (g : Graph) : Prop := {
  ra_accounted : accounted N g;
  ra_length : forall k, len_of g k <= 2 ^ 32 * N k
}.

Lemma ranked_mono N N' g : (forall k, N k <= N' k) -> ranked N g -> ranked N' g.
Proof.
  intros HN [A L]. split; [by eapply accounted_mono|]. intros k. specialize (L k). specialize (HN k). lia.
Qed.

Lemma ranked_one_lane N g : ranked N g -> one_lane g.
Proof. intros [A _] k. destruct (bal_length _ _ A k) as (x & E & _). by exists x. Qed.

Lemma ranked_nonneg N g k : ranked N g -> 0 <= len_of g k /\ 0 <= N k.
Proof.
  intros [A _]. destruct (bal_length _ _ A k) as (x & E & Hx).
  destruct (bal_instr _ _ A k intInstructions) as (y & _ & Hy). unfold len_of. rewrite E. cbn. lia.
Qed.

(** An edge up the ranks, of a weight a machine word holds. *)
Record rising (N : key -> Z) (g : Graph) (p : Vertex) (e : OutgoingEdge) (x : Z) : Prop := {
  ri_edge : edge_ok g p e x;
  ri_weight : x < 2 ^ 32;
  ri_rank : N (VertexKey g p) + 1 <= N (VertexKey g (child e));
  ri_bound : 2 ^ 32 * N (VertexKey g (child e)) <= INT64_MAX
}.

Lemma rising_config N g g' p e x : same_config g g' -> rising N g p e x -> rising N g' p e x.
Proof.
  intros HS [E W R B]. split; rewrite ?(same_config_key g g') by done; try done.
  by eapply same_config_edge.
Qed.

Lemma relax_ranked N g p e x :
  config_ok g -> ranked N g -> rising N g p e x ->
  let ck := VertexKey g (child e) in
  exists g', updateCriticalPathCycles g p e = Ok g' /\ same_config g g' /\ ranked N g' /\
    forall k, len_of g' k = if decide (k = ck)
      then Z.max (len_of g ck) (len_of g (VertexKey g p) + x) else len_of g k.
Proof.
  intros Hc HR [He Hx Hr Hb] ck. set (pk := VertexKey g p) in *. fold ck in Hr, Hb.
  pose proof (ra_length _ _ HR ck). pose proof (ra_length _ _ HR pk).
  pose proof (ranked_nonneg _ _ pk HR). pose proof (ranked_nonneg _ _ ck HR).
  pose proof He as (_ & Hx0 & _).
  destruct (relax_accounted g p e x N) as (g' & E & S & A & L); fold ck pk; try done.
  - apply HR.
  - unfold INT64_MAX in *. lia.
  - change (lane (length_at g pk)) with (len_of g pk). intros _. nia.
  - change (lane (length_at g ck)) with (len_of g ck). lia.
  - exists g'. split; [exact E|]. split; [exact S|].
    assert (HL : forall k, len_of g' k = if decide (k = ck)
      then Z.max (len_of g ck) (len_of g pk + x) else len_of g k).
    { intros k. unfold len_of at 1. rewrite L. fold ck pk. case_decide; [|done]. cbn.
      unfold relaxed. destruct (Z.eqb_spec x INT64_MAX); [unfold INT64_MAX in *; lia|done]. }
    split; [|exact HL]. split.
    + eapply accounted_mono; [|exact A]. intros k. cbn. fold ck pk. case_decide; [subst k; lia|lia].
    + intros k. rewrite HL. case_decide as Hk; [|apply HR]. rewrite Hk. nia.
Qed.

(** ** The schedule follows the lengths *)

(** The schedule holds the instructions of [U] with the lengths to their execution. *)
Record order_ok (U : Z -> Prop) (g : Graph) (o : list (Z * Z)) : Prop := {
  oo_sorted : StronglySorted sched_lt o;
  oo_mem : forall i l, (i, l) ∈ o <-> U i /\ l = len_of g (VertexKey g (mkVertex InstrExecute i))
}.

Lemma schedule_insert_mem x y l : x.1 ∉ l.*1 -> y ∈ schedule_insert x l <-> y = x \/ y ∈ l.
Proof. intros H. rewrite (schedule_insert_perm x l H). apply elem_of_cons. Qed.

Lemma order_ok_fst U g o i : order_ok U g o -> i ∈ o.*1 -> U i.
Proof.
  intros H ([j l] & -> & Hj)%list_elem_of_fmap. by apply (oo_mem _ _ _ H) in Hj as [? _].
Qed.

(** Lengths that do not change on the instructions of [U]. *)
Lemma order_ok_same U g g' o :
  AnalysisWindow g' = AnalysisWindow g ->
  (forall i, U i -> len_of g' (VertexKey g (mkVertex InstrExecute i)) =
                    len_of g (VertexKey g (mkVertex InstrExecute i))) ->
  order_ok U g o -> order_ok U g' o.
Proof.
  intros HA HL [S M]. split; [done|]. intros i l. rewrite M, (grown_key g g') by done.
  split; intros [HU ->]; (split; [done|]); [symmetry|]; by apply HL.
Qed.

Lemma schedule_erase_sorted x o : StronglySorted sched_lt o -> StronglySorted sched_lt (schedule_erase x o).
Proof.
  unfold schedule_erase. induction 1 as [|y o Hs IH Hf]; [constructor|].
  rewrite filter_cons. case_decide; [|done]. constructor; [done|].
  apply Forall_forall. intros z [_ Hz]%list_elem_of_filter. rewrite Forall_forall in Hf. auto.
Qed.

(** One instruction of [U] moves. *)
Lemma order_ok_move U g g' o i :
  AnalysisWindow g' = AnalysisWindow g ->
  (forall i j, U i -> U j -> i mod AnalysisWindow g = j mod AnalysisWindow g -> i = j) ->
  let k := VertexKey g (mkVertex InstrExecute i) in
  (forall k', k' <> k -> len_of g' k' = len_of g k') ->
  U i -> order_ok U g o ->
  schedule_find (i, len_of g k) o = true /\
  order_ok U g' (schedule_insert (i, len_of g' k) (schedule_erase (i, len_of g k) o)).
Proof.
  intros HA Hd k HL HU [S M].
  assert (Hfst : forall y, y ∈ schedule_erase (i, len_of g k) o <-> y ∈ o /\ y.1 <> i).
  { intros [j l]. unfold schedule_erase. rewrite list_elem_of_filter. split.
    - intros [Hne Hy]. split; [done|]. cbn. intros ->. apply Hne. apply M in Hy as [_ ->]. done.
    - intros [Hy Hne]. split; [|done]. intros [= -> _]. done. }
  split; [apply bool_decide_eq_true_2, M; done|].
  assert (Hni : (i, len_of g' k).1 ∉ (schedule_erase (i, len_of g k) o).*1).
  { cbn. intros (y & E & [_ Hy]%Hfst)%list_elem_of_fmap. done. }
  split; [apply schedule_insert_sorted; [done|by apply schedule_erase_sorted]|].
  intros j l. rewrite (schedule_insert_mem _ _ _ Hni), Hfst, M, (grown_key g g') by done. cbn.
  destruct (decide (j = i)) as [->|Hj].
  - fold k. split; [intros [[= ->]|[_ []]]|intros [_ ->]; left]; done.
  - assert (Hk : VertexKey g (mkVertex InstrExecute j) <> k \/ ~ U j).
    { destruct (decide (VertexKey g (mkVertex InstrExecute j) = k)) as [E|]; [|by left].
      right. intros Huj. apply Hj. injection E as E. by apply Hd. }
    split.
    + intros [[= -> _]|[[Hu ->] _]]; [done|]. split; [done|]. destruct Hk as [Hk|]; [|done].
      symmetry. by apply HL.
    + intros [Hu ->]. right. split; [|done]. split; [done|]. destruct Hk as [Hk|]; [|done]. by apply HL.
Qed.

(** ** The worklist ends *)

(** All keys there are. *)
Definition all_keys (W : Z) : list key := t ← seqZ 0 5; (fun j => (t, j)) <$> seqZ 0 W.

Lemma elem_of_all_keys W t j : (t, j) ∈ all_keys W <-> 0 <= t < 5 /\ 0 <= j < W.
Proof.
  unfold all_keys. rewrite list_elem_of_bind. split.
  - intros (y & (z & [= -> ->] & Hz)%list_elem_of_fmap & Hy). apply elem_of_seqZ in Hz, Hy. lia.
  - intros [Ht Hj]. exists t. split; [|apply elem_of_seqZ; lia].
    apply list_elem_of_fmap. exists j. split; [done|]. apply elem_of_seqZ. lia.
Qed.

Lemma vertex_key_all g v : 0 < AnalysisWindow g -> VertexKey g v ∈ all_keys (AnalysisWindow g).
Proof.
  intros HW. apply elem_of_all_keys. split; [destruct (type v); cbn; lia|].
  apply Z.mod_pos_bound. lia.
Qed.

(** How much the lengths can still grow. *)
Definition slack (N : key -> Z) (g : Graph) : Z :=
  sum_z ((fun k => 2 ^ 32 * N k - len_of g k) <$> all_keys (AnalysisWindow g)).

Lemma sum_z_le {A} (f h : A -> Z) l :
  (forall x, x ∈ l -> f x <= h x) -> sum_z (f <$> l) <= sum_z (h <$> l).
Proof.
  induction l as [|x l IH]; intros H; cbn; [lia|]. pose proof (H x (list_elem_of_here _ _)).
  unfold sum_z, fmap in *. enough (foldr Z.add 0 (list_fmap _ _ f l) <= foldr Z.add 0 (list_fmap _ _ h l)) by lia.
  apply IH. intros y Hy. apply H. by right.
Qed.
Lemma sum_z_lt {A} (f h : A -> Z) l a :
  (forall x, x ∈ l -> f x <= h x) -> a ∈ l -> f a < h a -> sum_z (f <$> l) < sum_z (h <$> l).
Proof.
  induction l as [|x l IH]; intros H Ha Hlt; [by apply not_elem_of_nil in Ha|]. cbn.
  pose proof (H x (list_elem_of_here _ _)).
  assert (Hl : forall y, y ∈ l -> f y <= h y) by (intros; apply H; by right).
  pose proof (sum_z_le f h l Hl). apply elem_of_cons in Ha as [->|Ha].
  - unfold sum_z, fmap in *. lia.
  - specialize (IH Hl Ha Hlt). unfold sum_z, fmap in *. lia.
Qed.

Lemma slack_nonneg N g : ranked N g -> 0 <= slack N g.
Proof.
  intros H. unfold slack.
  transitivity (sum_z ((fun _ => 0) <$> all_keys (AnalysisWindow g))).
  - induction (all_keys _); cbn; unfold sum_z, fmap in *; lia.
  - apply sum_z_le. intros k _. pose proof (ra_length _ _ H k). lia.
Qed.

Lemma slack_lt N g g' k :
  grown_from g g' -> k ∈ all_keys (AnalysisWindow g) -> len_of g k < len_of g' k ->
  slack N g' < slack N g.
Proof.
  intros [A L] Hk Hlt. unfold slack. rewrite A. apply (sum_z_lt _ _ _ k); [|done|lia].
  intros k' _. specialize (L k'). lia.
Qed.

(** A part [R] of the graph that its edges do not leave and along whose edges the
    rank [N] grows; [U] are the instructions still in the schedule. *)
Section Region.
Context (ch : adjacency) (N : key -> Z) (R : key -> Prop) (U : Z -> Prop).

Record region (g : Graph) : Prop := {
  rg_config : config_ok g;
  rg_edges : forall v e, R (VertexKey g v) -> e ∈ edge_at ch (VertexKey g v) ->
    R (VertexKey g (child e)) /\ (exists x, rising N g v e x) /\
    (type (child e) = InstrExecute -> U (instrNum (child e)));
  rg_distinct : forall i j, U i -> U j -> i mod AnalysisWindow g = j mod AnalysisWindow g -> i = j;
  rg_window : 0 < AnalysisWindow g
}.

Lemma region_config g g' : same_config g g' -> region g -> region g'.
Proof.
  intros HS [C E D W]. assert (HA : AnalysisWindow g' = AnalysisWindow g) by apply HS.
  assert (K : forall v, VertexKey g' v = VertexKey g v) by (intros; by apply same_config_key).
  split; [by eapply same_config_ok| |by rewrite HA..].
  intros v e. rewrite !K. intros Hv He. destruct (E v e Hv He) as (H1 & (x & Hx) & H3).
  split; [done|]. split; [|done]. exists x. by eapply rising_config.
Qed.

(** The state of the worklist, started at the critical paths [g0]. *)
Record good (g0 : Graph) (w : Work) : Prop := {
  gd_config : same_config g0 (w_base w);
  gd_ranked : ranked N (w_base w);
  gd_order : order_ok U (w_base w) (w_order w);
  gd_list : Forall (fun v => R (VertexKey g0 v)) (w_list w);
  gd_grown : grown_from g0 (w_base w);
  gd_outside : forall k, ~ R k -> len_of (w_base w) k = len_of g0 k
}.
Definition effort (w : Work) : Z := Z.of_nat (List.length (w_list w)) + slack N (w_base w).

Lemma propagate_edge_good g0 w p e :
  region g0 -> good g0 w -> R (VertexKey g0 p) -> e ∈ edge_at ch (VertexKey g0 p) ->
  exists w', propagate_edge p w e = Ok w' /\ good g0 w' /\ effort w' <= effort w /\
    exists l, w_list w' = w_list w ++ l.
Proof.
  intros HR [Hc Hr Ho Hl Hg Hout] Hp He. set (g := w_base w) in *.
  pose proof (region_config _ _ Hc HR) as HRg.
  assert (K : forall v, VertexKey g v = VertexKey g0 v) by (intros; by apply same_config_key).
  destruct (rg_edges g HRg p e) as (HRc & (x & Hx) & HUc); [by rewrite K..|].
  destruct (relax_ranked N g p e x (rg_config g HRg) Hr Hx) as (g' & E & S & Hr' & L).
  set (ck := VertexKey g (child e)) in *. unfold propagate_edge. fold g ck.
  rewrite (one_lane_get _ _ (ranked_one_lane _ _ Hr)), res_bind_ok, E, res_bind_ok,
    (one_lane_get _ _ (ranked_one_lane _ _ Hr')), res_bind_ok. clear E.
  assert (HG : grown_from g g').
  { split; [apply S|]. intros k. rewrite L. case_decide; [subst k|]; lia. }
  assert (Hother : forall k, k <> ck -> len_of g' k = len_of g k)
    by (intros k Hk; by rewrite L, decide_False).
  assert (Hc' : same_config g0 g') by (by eapply same_config_trans).
  assert (Hg' : grown_from g0 g') by (by eapply grown_from_trans).
  assert (Hout' : forall k, ~ R k -> len_of g' k = len_of g0 k).
  { intros k Hk. rewrite Hother; [by apply Hout|]. intros ->. done. }
  assert (HA : AnalysisWindow g' = AnalysisWindow g) by apply S.
  destruct (Z.eqb_spec (len_of g ck) (len_of g' ck)) as [Heq|Hne].
  - eexists. split; [reflexivity|]. split; [|split; [|exists []; by rewrite app_nil_r]].
    + split; cbn [w_base w_order w_list]; try assumption.
      apply (order_ok_same U g); [exact HA| |exact Ho]. intros i _.
      destruct (decide (VertexKey g (mkVertex InstrExecute i) = ck)) as [Ek|Ek]; [rewrite Ek; by symmetry|auto].
    + unfold effort. cbn [w_base w_list]. fold g.
      enough (slack N g' <= slack N g) by lia. unfold slack. rewrite HA. apply sum_z_le.
      intros k _. pose proof (proj2 HG k). lia.
  - assert (exists o, (if decide (type (child e) = InstrExecute) then
        let old := (instrNum (child e), len_of g ck) in
        if schedule_find old (w_order w) then
          Ok (schedule_insert (instrNum (child e), len_of g' ck) (schedule_erase old (w_order w)))
        else Stop ErrorExit else Ok (w_order w)) = Ok o /\ order_ok U g' o) as (o & Eo & Ho').
    { case_decide as Ht.
      - assert (Ek : VertexKey g (mkVertex InstrExecute (instrNum (child e))) = ck)
          by (unfold ck; destruct (child e); cbn in *; by subst).
        destruct (order_ok_move U g g' (w_order w) (instrNum (child e)) HA (rg_distinct g HRg)) as [F O'].
        + intros k' Hk'. apply Hother. by rewrite <- Ek.
        + by apply HUc.
        + exact Ho.
        + rewrite Ek in F, O'. cbv zeta. rewrite F. eexists. split; [reflexivity|exact O'].
      - exists (w_order w). split; [reflexivity|]. apply (order_ok_same U g); [exact HA| |exact Ho].
        intros i _. apply Hother. unfold ck, VertexKey. intros [= Ht' _].
        apply Ht. destruct (type (child e)); done. }
    cbv zeta in Eo. rewrite Eo, res_bind_ok. clear Eo.
    eexists. split; [reflexivity|]. split; [|split; [|by exists [child e]]].
    + split; cbn [w_base w_order w_list]; try assumption.
      apply Forall_app. split; [exact Hl|]. apply Forall_singleton. unfold ck in HRc. by rewrite K in HRc.
    + unfold effort. cbn [w_base w_list]. fold g. rewrite length_app. cbn [List.length].
      enough (slack N g' < slack N g) by lia. apply (slack_lt N g g' ck HG).
      * apply vertex_key_all, HRg.
      * pose proof (proj2 HG ck). lia.
Qed.

Lemma propagate_edges_good g0 w p es :
  region g0 -> good g0 w -> R (VertexKey g0 p) -> es ⊆ edge_at ch (VertexKey g0 p) ->
  exists w', res_fold (propagate_edge p) w es = Ok w' /\ good g0 w' /\ effort w' <= effort w /\
    exists l, w_list w' = w_list w ++ l.
Proof.
  intros HR HG Hp. revert w HG. induction es as [|e es IH]; intros w HG Hes.
  - exists w. split; [reflexivity|]. split; [exact HG|]. split; [lia|]. exists []. by rewrite app_nil_r.
  - destruct (propagate_edge_good g0 w p e HR HG Hp (Hes e (list_elem_of_here _ _)))
      as (w1 & E1 & G1 & M1 & l1 & L1).
    destruct (IH w1 G1) as (w2 & E2 & G2 & M2 & l2 & L2); [intros x Hx; apply Hes; by right|].
    exists w2. split; [cbn [res_fold]; by rewrite E1|]. split; [exact G2|]. split; [lia|].
    exists (l1 ++ l2). by rewrite L2, L1, app_assoc.
Qed.

Lemma propagate_vertex_good g0 w p rest :
  region g0 -> good g0 w -> w_list w = p :: rest ->
  exists w', propagate_vertex ch p w = Ok w' /\ good g0 w' /\ effort w' < effort w.
Proof.
  intros HR HG HL. pose proof (gd_list _ _ HG) as Hl. rewrite HL in Hl.
  apply Forall_cons in Hl as [Hp _].
  destruct (propagate_edges_good g0 w p (edge_at ch (VertexKey g0 p)) HR HG Hp) as (w1 & E1 & G1 & M1 & l & L1);
    [set_solver|].
  unfold propagate_vertex. rewrite (same_config_key _ _ p (gd_config _ _ HG)), E1, res_bind_ok. clear E1.
  eexists. split; [reflexivity|]. rewrite HL in L1. destruct G1 as [C1 R1 O1 F1 W1 U1]. split.
  - split; cbn [w_base w_order w_list]; try assumption. rewrite L1 in *. by apply Forall_cons in F1 as [_ ?].
  - unfold effort in *. cbn [w_base w_list]. rewrite L1 in *. cbn in *. lia.
Qed.

(** The loop ends within its effort, and everything is still in order. *)
Lemma update_loop_good g0 fuel w :
  region g0 -> good g0 w -> effort w <= Z.of_nat fuel ->
  exists w', update_loop fuel ch w = Ok w' /\ good g0 w' /\ w_list w' = [].
Proof.
  intros HR. revert w. induction fuel as [|fuel IH]; intros w HG Hf; cbn [update_loop];
    destruct (w_list w) as [|p rest] eqn:HL.
  1,3: exists w; split_and!; [reflexivity|exact HG|exact HL].
  - pose proof (slack_nonneg _ _ (gd_ranked _ _ HG)). unfold effort in Hf. rewrite HL in Hf. cbn in Hf. lia.
  - destruct (propagate_vertex_good g0 w p rest HR HG HL) as (w1 & E1 & G1 & M1).
    destruct (IH w1 G1 ltac:(lia)) as (w2 & E2 & G2 & L2).
    exists w2. rewrite E1, res_bind_ok. split_and!; [exact E2|exact G2|exact L2].
Qed.
End Region.

(** ** More fuel *)

(** A result of the program is the result for any larger fuel. *)
Definition stable {A} (f : nat -> res A) : Prop :=
  forall n n' : nat, (n <= n')%nat -> f n <> Stop OutOfFuel -> f n' = f n.

Lemma update_loop_stable ch w : stable (fun n => update_loop n ch w).
Proof.
  intros n. revert w. induction n as [|n IH]; intros w n' Hn H; cbn [update_loop] in *.
  - destruct n'; cbn [update_loop]; destruct (w_list w); done.
  - destruct n' as [|n']; [lia|]. cbn [update_loop]. destruct (w_list w); [reflexivity|].
    destruct (propagate_vertex ch v w); [|reflexivity]. rewrite !res_bind_ok in *.
    apply IH; [lia|exact H].
Qed.
