(* ===== verification/CalipersAdvancedEdges.v ===== *)
(** * The edges of the sliding-window core

    The edges an instruction adds when it is modelled lead to it, from itself or
    from instructions at most half a window before it; memory is accessed only after
    the instruction has executed; instructions are fetched in order.  Modelling an
    instruction does nothing but add these edges and keep the books. *)

From S2P Require Import Prelude Machine CalipersCache CalipersFacts CalipersCycles CalipersPaths.
From S2P Require Import CalipersScoreboard CalipersScoreFacts CalipersO3 CalipersO3Facts.
From S2P Require Import CalipersO3Steps CalipersReport CalipersAdvanced.

#[local] Open Scope list_scope.
#[local] Open Scope Z_scope.

Import CalG CalS CalO CalA.

(** ** Configurations *)

(** The window is large enough for what the comments of
    [modelResourceDependencies] ask for: a quarter of it for the instructions in
    flight, half of it for what a limit can reach back to. *)
Record adv_ok (z : Sizes) (p : Params) (W : Z) : Prop := {
  ao_params : params_ok p;
  ao_sizes : sizes_ok z;
  ao_window : W < 2 ^ 32;
  ao_buffer : instrBufferSize p + 2 <= W / 4;
  ao_reach : Forall (fun n => 2 * n <= W)
    [fetchBandwidth p; dispatchBandwidth p; commitBandwidth p; memCommitBandwidth p];
  ao_queue : Forall (fun n => 2 * (instrBufferSize p + n) <= W) [issue_bandwidth z; instr_queue_size z]
}.

Lemma adv_ok_window z p W : adv_ok z p W -> 1 <= instrBufferSize p /\ 4 * (instrBufferSize p + 2) <= W.
Proof.
  intros H. destruct (ao_params _ _ _ H) as (HP & _). rewrite Forall_cons in HP. destruct HP as [HP _].
  pose proof (ao_buffer _ _ _ H). pose proof (Z.mul_div_le W 4). lia.
Qed.

Lemma half_le x W : 2 * x <= W -> x <= W / 2.
Proof. intros H. apply Z.div_le_lower_bound; lia. Qed.

(** ** Links *)

(** An edge of the list from [u] to [v], and paths of such edges. *)
Definition linked (E : list Edge) (u v : Vertex) : Prop :=
  exists pe, pe ∈ E /\ pe.1 = u /\ child pe.2 = v.
Definition reaches (E : list Edge) : Vertex -> Vertex -> Prop := rtc (linked E).

Lemma linked_edge E t i t' j w : edge t i t' j w ∈ E -> linked E (mkVertex t i) (mkVertex t' j).
Proof. intros H. by eexists. Qed.
Lemma linked_mono E E' u v : E ⊆ E' -> linked E u v -> linked E' u v.
Proof. intros HE (pe & ? & ?). exists pe. auto. Qed.

(** The memory access of an instruction is in the graph. *)
Definition accesses (E : list Edge) (i : Z) : Prop :=
  linked E (mkVertex InstrExecute i) (mkVertex MemExecute i).

(** An edge that modelling the instruction [n] adds. *)
Record step_edge (D n : Z) (pe : Edge) : Prop := {
  se_child : instrNum (child pe.2) = n;
  se_parent : 0 <= instrNum pe.1 /\ n - D <= instrNum pe.1;
  se_before : before pe.1 (child pe.2);
  se_weight : exists w, weight pe.2 = [w] /\ 0 <= w < 2 ^ 32 /\
    (type pe.1 = InstrExecute -> type (child pe.2) = InstrFetch -> 1 <= w);
  se_mem : type (child pe.2) = MemExecute -> pe.1 = mkVertex InstrExecute n
}.

Lemma step_edge_intro D n t i t' w :
  0 <= i -> n - D <= i -> (i < n \/ (i = n /\ vt_num t < vt_num t')) -> 0 <= w < 2 ^ 32 ->
  (t = InstrExecute -> t' = InstrFetch -> 1 <= w) -> (t' = MemExecute -> t = InstrExecute /\ i = n) ->
  step_edge D n (edge t i t' n w).
Proof.
  intros ? ? ? ? ? Hm. split; cbn; try done; [by exists w|]. intros Ht. by destruct (Hm Ht) as [-> ->].
Qed.

(** In program order: every instruction runs through its stages, is fetched after the
    one before it was fetched or, if that was mispredicted, executed, and when the one
    [B] before it has committed. *)
Record in_program_order (B n : Z) (E : list Edge) : Prop := {
  po_fetch : linked E (mkVertex InstrFetch n) (mkVertex InstrDispatch n);
  po_dispatch : linked E (mkVertex InstrDispatch n) (mkVertex InstrExecute n);
  po_execute : linked E (mkVertex InstrExecute n) (mkVertex InstrCommit n) \/
    linked E (mkVertex InstrExecute n) (mkVertex MemExecute n) /\
    linked E (mkVertex MemExecute n) (mkVertex InstrCommit n);
  po_next : 0 < n -> linked E (mkVertex InstrFetch (n - 1)) (mkVertex InstrFetch n) \/
    linked E (mkVertex InstrExecute (n - 1)) (mkVertex InstrFetch n);
  po_buffer : B <= n -> linked E (mkVertex InstrCommit (n - B)) (mkVertex InstrFetch n)
}.

Lemma in_program_order_mono B n E E' : E ⊆ E' -> in_program_order B n E -> in_program_order B n E'.
Proof.
  intros HE [H1 H2 H3 H4 H5].
  split; eauto using linked_mono.
  - destruct H3 as [|[? ?]]; [left|right]; eauto using linked_mono.
  - intros Hn. destruct (H4 Hn); [left|right]; eauto using linked_mono.
Qed.

(** ** Bookkeeping *)

(** The books when [n] instructions are modelled, with the edges [E]. *)
Record book_adv (z : Sizes) (E : list Edge) (n : Z) (b : Book) : Prop := {
  ba_mispred : earlier 0 n (lastMisprediction b);
  ba_prev : previousInstrMispredicted b = true -> 0 < n;
  ba_mem : earlier 0 n (lastMemLdSt b);
  ba_regs : forall r i w, regLastWrittenBy b !! r = Some (i, w) ->
    0 <= i < n /\ 0 <= w < 2 ^ 32 /\
    (default false (regLastWrittenByLoad b !! r) = true -> accesses E i);
  ba_size : List.length (ldStWindow b) = Z.to_nat (lq_size z + sq_size z) /\
            List.length (ldStWindowType b) = Z.to_nat (lq_size z + sq_size z);
  ba_ptr : 0 <= ldStWindowPointer b < lq_size z + sq_size z;
  ba_exec : forall j c, executionCyclesOf b !! j = Some c -> 0 <= c < 2 ^ 32;
  ba_ls : forall j c, lsCyclesOf b !! j = Some c -> 0 <= c < 2 ^ 32
}.

Lemma book_adv_mono z E E' n n' b : E ⊆ E' -> n <= n' -> book_adv z E n b -> book_adv z E' n' b.
Proof.
  intros HE Hn [B1 B2 B3 B4 B5 B6 B7 B8]. split; try assumption.
  - by eapply earlier_mono.
  - intros H. specialize (B2 H). lia.
  - by eapply earlier_mono.
  - intros r i w Hr. destruct (B4 r i w Hr) as (? & ? & H). split; [lia|]. split; [done|].
    intros Hl. by apply (linked_mono E), H.
Qed.

Section Edges.
Context {CI CD BP : Type} `{!Cache CI} `{!Cache CD} `{!CacheLaws CI} `{!CacheLaws CD}.
Context `{!BranchPredictor BP}.
Notation O3 := (@O3CoreGraph CI CD BP).
Context (z : Sizes) (p : Params) (W : Z) (Hok : adv_ok z p W).

(** A state of the shared members before an instruction is modelled. *)
Record ready_core (E : list Edge) (s : O3) : Prop := {
  rc_window : window s = W;
  rc_params : params s = p;
  rc_board : set_up z (scoreboard s);
  rc_count : 0 <= instrCount s < 2 ^ 62;
  rc_book : book_adv z E (instrCount s) (book s);
  rc_icache : option_ok (icache s);
  rc_dcache : dcache s = None
}.

Section Instr.
Context (E : list Edge) (s : O3) (Hs : ready_core E s).
Let n := instrCount s.
Let D := W / 2.

Lemma count_sub limit : 0 <= limit <= n -> u64 (n - limit) = n - limit.
Proof using Hs. intros. pose proof (rc_count E s Hs). apply u64_small. unfold u64_size, n in *. lia. Qed.

Lemma bandwidth_steps t limit :
  t <> MemExecute -> 1 <= limit -> 2 * limit <= W -> Forall (step_edge D n) (bandwidth_edge s t limit).
Proof using Hs.
  intros Ht Hl Hr. unfold bandwidth_edge, bandwidth_applies. fold n.
  destruct (Z.leb_spec limit n); cbn [andb]; [|constructor]. destruct (_ || _); [|constructor].
  rewrite count_sub by lia. pose proof (half_le limit W Hr). fold D in H0.
  apply Forall_singleton, step_edge_intro; try lia. intros. congruence.
Qed.

Lemma stage_steps instr cycles :
  Forall (step_edge D n) (stage_edges s instr cycles) /\
  (forall pe, pe ∈ stage_edges s instr cycles -> type pe.1 = MemExecute ->
     instrNum pe.1 = n /\ is_load instr || is_store instr = true).
Proof using Hs Hok.
  pose proof (rc_count E s Hs). pose proof (adv_ok_window _ _ _ Hok). pose proof (half_le 0 W ltac:(lia)). fold D in H1.
  destruct (ao_params _ _ _ Hok) as (_ & HP & _). rewrite !Forall_cons in HP. destruct HP as (Hd & Hi & _).
  unfold stage_edges. fold n. rewrite (lsu_latency z _ (rc_board E s Hs)), (rc_params E s Hs).
  assert (Hu : forall x, 0 <= u32 x < 2 ^ 32) by (intros; apply Z.mod_pos_bound; lia).
  pose proof (Hu (cycles - 1 + executeToCommitCycles p)). pose proof (Hu (cycles + executeToCommitCycles p)).
  split.
  - apply Forall_app. split; [|destruct (_ || _)];
      repeat (apply Forall_cons; split); try apply Forall_nil; try done;
      apply step_edge_intro; cbn; unfold n in *; try lia; try discriminate; intros; done || lia.
  - intros pe Hpe Ht. destruct (is_load instr || is_store instr);
      repeat (apply elem_of_cons in Hpe as [->|Hpe]; [by cbn in Ht|]); by apply not_elem_of_nil in Hpe.
Qed.

Lemma order_steps mispred cycles no_need :
  (mispred = true -> 0 < n) -> 0 <= cycles < 2 ^ 30 -> (no_need = false -> n <> 0) ->
  Forall (step_edge D n) (order_edges s mispred cycles no_need).
Proof using Hs Hok.
  intros Hm Hcy Hnn. pose proof (rc_count E s Hs) as Hc. fold n in Hc.
  assert (HD : 1 <= D) by (apply half_le; pose proof (adv_ok_window _ _ _ Hok); lia).
  destruct (ao_params _ _ _ Hok) as (_ & HP & _). rewrite !Forall_cons in HP.
  destruct HP as (_ & _ & _ & Hpr & Hpe & _). unfold order_edges. fold n.
  rewrite (alu_latency z _ (rc_board E s Hs)), (rc_params E s Hs).
  destruct mispred.
  - specialize (Hm eq_refl). apply Forall_singleton. rewrite count_sub by lia.
    unfold u32. rewrite Z.mod_small by lia. apply step_edge_intro; lia || discriminate.
  - assert (H1 : n <> 0 -> u64 (n - 1) = n - 1) by (intros; apply count_sub; lia).
    assert (Hu : forall x, 0 <= u32 x < 2 ^ 32) by (intros; apply Z.mod_pos_bound; lia).
    repeat (apply Forall_app; split).
    + destruct (Z.eqb_spec n 0); [constructor|]. rewrite H1 by done.
      destruct (previousWasBranch _); apply Forall_singleton, step_edge_intro;
        try lia; try discriminate; apply Hu.
    + destruct (Z.eqb_spec n 0); [constructor|]. destruct (_ =? 1); [constructor|]. rewrite H1 by done.
      apply Forall_singleton, step_edge_intro; lia || discriminate.
    + destruct no_need; [constructor|]. specialize (Hnn eq_refl). rewrite H1 by done.
      apply Forall_singleton, step_edge_intro; lia || discriminate.
Qed.

Lemma mem_commit_steps :
  Forall (step_edge D n) (if mem_commit_applies s
    then [edge InstrCommit (lastMemLdSt (book s)) InstrCommit n 1] else []).
Proof using Hs Hok.
  destruct (mem_commit_applies s) eqn:Em; [|constructor]. unfold mem_commit_applies in Em.
  apply andb_true_iff in Em as [[Hne Hd]%andb_true_iff _].
  apply negb_true_iff, Z.eqb_neq in Hne. apply Z.eqb_eq in Hd.
  destruct (ba_mem _ _ _ _ (rc_book E s Hs)) as [|Hl]; [done|]. fold n in Hl, Hd.
  pose proof (rc_count E s Hs) as Hc. fold n in Hc.
  rewrite u64_small, (rc_params E s Hs) in Hd by (unfold u64_size; lia).
  pose proof (ao_reach _ _ _ Hok) as HR. rewrite !Forall_cons in HR. destruct HR as (_ & _ & _ & HR & _).
  apply half_le in HR. fold D in HR. apply Forall_singleton, step_edge_intro; lia || discriminate.
Qed.

Lemma buffer_steps :
  Forall (step_edge D n) (if instrBufferSize (params s) <=? n
    then [edge InstrCommit (u64 (n - instrBufferSize (params s))) InstrFetch n 0] else []).
Proof using Hs Hok.
  rewrite (rc_params E s Hs). destruct (adv_ok_window _ _ _ Hok) as [HB1 HB2].
  destruct (Z.leb_spec (instrBufferSize p) n); [|constructor].
  rewrite count_sub by lia. pose proof (half_le (instrBufferSize p) W ltac:(lia)) as HD. fold D in HD.
  apply Forall_singleton, step_edge_intro; lia || discriminate.
Qed.

Lemma pipeline_steps instr cycles mispred fetch_cycles :
  0 <= fetch_cycles < 2 ^ 30 -> (mispred = true -> 0 < n) ->
  let es := pipeline_edges s instr cycles mispred fetch_cycles in
  Forall (step_edge D n) es /\
  (forall pe, pe ∈ es -> type pe.1 = MemExecute ->
     instrNum pe.1 = n /\ is_load instr || is_store instr = true).
Proof using Hs Hok.
  intros Hf Hm es. destruct (stage_steps instr cycles) as [F1 M1].
  destruct (ao_params _ _ _ Hok) as (HP & _). rewrite !Forall_cons in HP.
  destruct HP as (_ & Hfb & Hdb & Hcb & _ & _).
  pose proof (ao_reach _ _ _ Hok) as HR. rewrite !Forall_cons in HR. destruct HR as (Rf & Rd & Rc & _ & _).
  pose proof (rc_params E s Hs) as Hp.
  unfold es, pipeline_edges. fold n. set (nn := _ || (mem_commit_applies s && _)).
  set (mc := if mem_commit_applies s then _ else _).
  set (ib := if instrBufferSize (params s) <=? n then _ else _).
  assert (Hrest : Forall (step_edge D n) (bandwidth_edge s InstrFetch (fetchBandwidth (params s)) ++
    bandwidth_edge s InstrDispatch (dispatchBandwidth (params s)) ++
    bandwidth_edge s InstrCommit (commitBandwidth (params s)) ++ mc ++
    order_edges s mispred fetch_cycles nn ++ ib)).
  { rewrite Hp. repeat (apply Forall_app; split).
    1,2,3: apply bandwidth_steps; [done|lia|done].
    - apply mem_commit_steps.
    - apply order_steps; [done|done|]. unfold nn. intros Hnn ->. done.
    - apply buffer_steps. }
  split; [by apply Forall_app|]. intros pe [Hpe|Hpe]%elem_of_app Ht; [by apply M1|].
  exfalso. revert Hpe. rewrite !elem_of_app. unfold mc, ib, bandwidth_edge, order_edges.
  intros Hpe. destruct_or! Hpe; repeat case_match;
    repeat match goal with H : _ ∈ _ ++ _ |- _ => apply elem_of_app in H as [H|H] end;
    repeat match goal with
    | H : _ ∈ [] |- _ => by apply not_elem_of_nil in H
    | H : _ ∈ [_] |- _ => apply list_elem_of_singleton in H; subst pe; cbn in Ht; discriminate
    end.
Qed.

(** The edges are those of the program order. *)
Lemma pipeline_order instr cycles mispred fetch_cycles :
  in_program_order (instrBufferSize p) n (pipeline_edges s instr cycles mispred fetch_cycles).
Proof using Hs Hok.
  pose proof (rc_count E s Hs) as Hc. fold n in Hc.
  destruct (adv_ok_window _ _ _ Hok) as [HB _].
  assert (Hin : forall t i t' w l r, l ++ [edge t i t' n w] ++ r =
      pipeline_edges s instr cycles mispred fetch_cycles ->
    linked (pipeline_edges s instr cycles mispred fetch_cycles) (mkVertex t i) (mkVertex t' n)).
  { intros t i t' w l r <-. eapply linked_edge. apply elem_of_app. right. by apply elem_of_app; left; left. }
  unfold pipeline_edges in *. fold n in Hin |- *. rewrite (rc_params E s Hs) in *.
  unfold stage_edges in *. fold n in Hin |- *. rewrite (rc_params E s Hs) in *.
  split.
  - by eapply (Hin _ _ _ _ []).
  - by eapply (Hin _ _ _ _ [_]).
  - destruct (_ || _); [right|left]; [split|].
    + by eapply (Hin _ _ _ _ [_; _]).
    + by eapply (Hin _ _ _ _ [_; _; _]).
    + by eapply (Hin _ _ _ _ [_; _]).
  - intros Hn. clear Hin. unfold order_edges. fold n. rewrite (count_sub 1) by lia.
    destruct mispred; [right|left; destruct (Z.eqb_spec n 0); [lia|]]; eapply linked_edge; rewrite !elem_of_app;
      do 5 right; left; [|left]; by apply list_elem_of_singleton.
  - intros Hn. unfold linked. exists (edge InstrCommit (n - instrBufferSize p) InstrFetch n 0).
    split; [|done]. rewrite !elem_of_app. do 6 right. destruct (Z.leb_spec (instrBufferSize p) n); [|lia].
    rewrite count_sub by lia. by left.
Qed.

Lemma data_steps instr :
  Forall (step_edge D n) (trackDataDependencies s instr) /\
  (forall pe, pe ∈ trackDataDependencies s instr -> type pe.1 = MemExecute -> accesses E (instrNum pe.1)).
Proof using Hs Hok.
  destruct (adv_ok_window _ _ _ Hok) as [HB1 HB2].
  pose proof (half_le (instrBufferSize p) W ltac:(lia)) as HD. fold D in HD.
  pose proof (rc_count E s Hs) as Hc. fold n in Hc.
  assert (Hone : forall r pe, pe ∈ register_edge s r -> step_edge D n pe /\
    (type pe.1 = MemExecute -> accesses E (instrNum pe.1))).
  { intros r pe. unfold register_edge. fold n.
    destruct (regLastWrittenBy (book s) !! r) as [[i w]|] eqn:Er; [|intros H; by apply not_elem_of_nil in H].
    destruct (ba_regs _ _ _ _ (rc_book E s Hs) r i w Er) as (Hi & Hw & Hl). fold n in Hi.
    rewrite (rc_params E s Hs). rewrite u64_small by (unfold u64_size; lia).
    destruct (Z.ltb_spec (n - i) (instrBufferSize p)); [|intros H0; by apply not_elem_of_nil in H0].
    intros Hpe%list_elem_of_singleton. destruct (default false _); subst pe; cbn;
      (split; [apply step_edge_intro; try lia; try discriminate|]); [by intros _; apply Hl|done]. }
  unfold trackDataDependencies.
  assert (Hall : forall pe, pe ∈ mjoin (register_edge s <$> regRead instr) -> exists r, pe ∈ register_edge s r).
  { intros pe (l & Hpe & (r & -> & _)%list_elem_of_fmap)%list_elem_of_join. by exists r. }
  split; [apply Forall_forall|]; intros pe [r Hr]%Hall; by apply (Hone r).
Qed.
End Instr.
End Edges.

(** * Modelling an instruction in the sliding-window core

    [model] always returns, adds exactly the edges of the instruction and keeps the
    books for the next one. *)

(** ** The maps of edges *)

Definition incoming (pe : Edge) : IncomingEdge := mkIncoming pe.1 (weight pe.2).
Definition in_edges (g : Graph) (es : list Edge) (k : key) : list IncomingEdge :=
  incoming <$> filter (fun pe => VertexKey g (child pe.2) = k) es.

Lemma in_edges_app g es es' k : in_edges g (es ++ es') k = in_edges g es k ++ in_edges g es' k.
Proof. unfold in_edges. by rewrite filter_app, fmap_app. Qed.

Section Maps.
Context {CI CD BP : Type}.
Notation Adv := (@O3CoreGraphAdvanced CI CD BP).

(** The maps grew by a list of edges. *)
Definition maps_grown (g : Graph) (ch ch' : adjacency) (pa pa' : ancestry) (es : list Edge) : Prop :=
  (forall k, edge_at ch' k = edge_at ch k ++ out_edges g es k) /\
  (forall k, parents_at pa' k = parents_at pa k ++ in_edges g es k).

Lemma maps_grown_trans g g' ch1 ch2 ch3 pa1 pa2 pa3 es es' :
  AnalysisWindow g' = AnalysisWindow g ->
  maps_grown g ch1 ch2 pa1 pa2 es -> maps_grown g' ch2 ch3 pa2 pa3 es' ->
  maps_grown g ch1 ch3 pa1 pa3 (es ++ es').
Proof.
  intros HA [H1 H2] [H3 H4]. split; intros k; rewrite ?H3, ?H4, ?H1, ?H2, ?out_edges_app, ?in_edges_app,
    <- app_assoc; do 2 f_equal; unfold out_edges, in_edges, VertexKey; by rewrite HA.
Qed.

Lemma addEdge_maps (s : Adv) pe :
  let g := base (core s) in
  exists ch pa, addEdge s pe = set_edges s ch pa /\
    maps_grown g (graphChildren s) ch (graphParents s) pa [pe].
Proof.
  cbv zeta. unfold addEdge. set (g := base (core s)). do 2 eexists. split; [reflexivity|].
  unfold maps_grown, out_edges, in_edges, edge_at, parents_at.
  split; intros k; rewrite filter_cons.
  - case_decide as Hk; [rewrite <- Hk; by rewrite lookup_insert_eq|].
    rewrite lookup_insert_ne by done. cbn. by rewrite app_nil_r.
  - case_decide as Hk; [rewrite <- Hk; by rewrite lookup_insert_eq|].
    rewrite lookup_insert_ne by done. cbn. by rewrite app_nil_r.
Qed.

Lemma addEdges_maps (s : Adv) es :
  let g := base (core s) in
  exists ch pa, addEdges s es = set_edges s ch pa /\
    maps_grown g (graphChildren s) ch (graphParents s) pa es.
Proof.
  cbv zeta. revert s. induction es as [|pe es IH]; intros s.
  - exists (graphChildren s), (graphParents s). split; [by destruct s|].
    split; intros k; cbn; by rewrite app_nil_r.
  - destruct (addEdge_maps s pe) as (ch1 & pa1 & E1 & M1). cbn [addEdges foldl].
    destruct (IH (addEdge s pe)) as (ch2 & pa2 & E2 & M2). rewrite E1 in M2, E2. cbn in M2.
    exists ch2, pa2. split; [rewrite E1; exact E2|].
    exact (maps_grown_trans _ _ _ _ _ _ _ _ [pe] es eq_refl M1 M2).
Qed.
End Maps.

(** ** The end of an instruction's model *)

Section Finish.
Context {CI CD BP : Type} `{!Cache CI} `{!Cache CD} `{!CacheLaws CI} `{!CacheLaws CD}.
Context `{!BranchPredictor BP}.
Notation O3 := (@O3CoreGraph CI CD BP).
Context (z : Sizes).

(** The steps after the edges keep everything but the books. *)
Record kept (s s' : O3) : Prop := {
  kp_frame : frame s s';
  kp_dcache : dcache s' = dcache s
}.
Lemma kept_refl s : kept s s.
Proof. split; [apply frame_refl|done]. Qed.
Lemma kept_trans s1 s2 s3 : kept s1 s2 -> kept s2 s3 -> kept s1 s3.
Proof. intros [F1 D1] [F2 D2]. split; [by eapply frame_trans|congruence]. Qed.

Lemma record_memory_adv (s : O3) E instr ls :
  let n := instrCount s in
  set_up z (scoreboard s) -> sizes_ok z -> 0 <= n -> book_adv z E (n + 1) (book s) ->
  exists s', record_memory s instr ls = Ok s' /\ kept s s' /\ book_adv z E (n + 1) (book s').
Proof.
  intros n Hb [HF Hsm] Hn Hbk. unfold record_memory.
  destruct (lsq_sizes z _ Hb) as [-> ->]. rewrite !Forall_cons in HF.
  destruct HF as (_ & _ & _ & _ & _ & _ & _ & Hlq & Hsq & _).
  assert (Hu : u32 (lq_size z + sq_size z) = lq_size z + sq_size z) by (apply Z.mod_small; lia).
  rewrite Hu. destruct Hbk as [B1 B2 B3 B4 [L1 L2] B6 B7 B8].
  destruct (Nat.ltb_spec (Z.to_nat (ldStWindowPointer (book s))) (List.length (ldStWindow (book s))));
    [|lia]. destruct (Z.eqb_spec (lq_size z + sq_size z) 0); [lia|]. cbn [negb orb].
  eexists. split; [reflexivity|]. split; [split; [by split|done]|].
  split; cbn; try assumption.
  - right. fold n. lia.
  - by rewrite !length_insert.
  - apply Z.mod_pos_bound. lia.
Qed.

Lemma record_registers_adv (s : O3) E instr c :
  let n := instrCount s in
  0 <= n -> 0 <= c < 2 ^ 32 -> (is_load instr = true -> accesses E n) ->
  book_adv z E (n + 1) (book s) ->
  let s' := record_registers s instr c in kept s s' /\ book_adv z E (n + 1) (book s').
Proof.
  intros n Hn Hc Ha Hb s'. unfold s', record_registers.
  apply (foldl_inv (fun x => kept s x /\ book_adv z E (n + 1) (book x))); [split; [apply kept_refl|done]|].
  intros x r _ [K [B1 B2 B3 B4 B5 B6 B7 B8]].
  split; [eapply kept_trans; [exact K|]; split; [by split|done]|].
  split; cbn; try assumption. rewrite (fr_count _ _ (kp_frame _ _ K)). fold n.
  intros r' i w. destruct (decide (r' = r)) as [->|].
  - rewrite !lookup_insert_eq. intros [= <- <-]. cbn. split; [lia|]. split; [done|exact Ha].
  - rewrite !lookup_insert_ne by done. apply B4.
Qed.

Lemma finish_adv (s : O3) E instr ls c :
  let n := instrCount s in
  set_up z (scoreboard s) -> sizes_ok z -> 0 <= n -> 0 <= ls < 2 ^ 30 -> 0 <= c < 2 ^ 31 ->
  (is_load instr = true -> accesses E n) -> book_adv z E (n + 1) (book s) ->
  exists s', finish_instr s instr ls c = Ok s' /\ kept s s' /\ book_adv z E (n + 1) (book s').
Proof.
  intros n Hsu Hsz Hn Hls Hc Ha Hb. unfold finish_instr.
  assert (exists s1, (if load_store instr then record_memory s instr ls else Ok s) = Ok s1 /\
    kept s s1 /\ book_adv z E (n + 1) (book s1)) as (s1 & -> & K1 & B1).
  { destruct (load_store instr); [by apply record_memory_adv|].
    exists s. split; [reflexivity|]. split; [apply kept_refl|exact Hb]. }
  rewrite res_bind_ok. set (s2 := set_book s1 _).
  assert (K2 : kept s s2) by (eapply kept_trans; [exact K1|]; split; [by split|done]).
  assert (Hn2 : instrCount s2 = n) by apply K2.
  destruct (record_registers_adv s2 E instr (if is_load instr then ls else c)) as [K3 B3];
    rewrite ?Hn2; try assumption.
  - destruct (is_load instr); lia.
  - destruct B1. by split.
  - rewrite Hn2 in B3. eexists. split; [reflexivity|]. split; [|exact B3]. by eapply kept_trans.
Qed.
End Finish.

(** ** A whole instruction *)

Section Model.
Context {CI CD BP : Type} `{!Cache CI} `{!Cache CD} `{!CacheLaws CI} `{!CacheLaws CD}.
Context `{!BranchPredictor BP}.
Notation O3 := (@O3CoreGraph CI CD BP).
Notation Adv := (@O3CoreGraphAdvanced CI CD BP).
Context (z : Sizes) (p : Params) (W : Z) (Hok : adv_ok z p W).

Lemma fetch_bp (s : O3) instr c s' :
  fetch s instr = Ok (c, s') -> bp s' = bp s /\ dcache s' = dcache s.
Proof.
  unfold fetch. destruct (icache s); [|intros [= <- <-]; done].
  destruct (_ =? _); [intros [= <- <-]; done|]. intros H. apply res_bind_inv in H as ([k c'] & _ & H).
  by injection H as <- <-.
Qed.

Lemma predict_dcache (s : O3) instr b s' : predict s instr = (b, s') -> dcache s' = dcache s.
Proof.
  unfold predict. destruct (bp s); [|intros [= <- <-]; done].
  destruct (is_branch instr); [|intros [= <- <-]; done].
  destruct (mispredicted b0 (pc instr)). by intros [= <- <-].
Qed.

Lemma modelPipeline_adv (s : Adv) E instr cycles :
  let c := core s in let n := instrCount c in
  ready_core z p W E c -> instr_ok instr ->
  exists es c' ch pa, modelPipeline s instr cycles = Ok (set_edges (set_core s c') ch pa) /\
    frame c c' /\ dcache c' = None /\ maps_grown (base c) (graphChildren s) ch (graphParents s) pa es /\
    Forall (step_edge (W / 2) n) es /\
    (load_store instr = true -> linked es (mkVertex InstrExecute n) (mkVertex MemExecute n)) /\
    (forall pe, pe ∈ es -> type pe.1 = MemExecute -> instrNum pe.1 = n /\ load_store instr = true) /\
    book_adv z E (n + 1) (book c') /\ trackDataDependencies c' instr = trackDataDependencies c instr /\
    in_program_order (instrBufferSize p) n es.
Proof using Hok.
  intros c n Hr Hi. unfold modelPipeline. fold c.
  destruct (predict c instr) as [previous s1] eqn:Ep.
  destruct (predict_frame _ _ _ _ Ep) as (F1 & B1 & G1). set (s1' := set_stats s1 _).
  assert (F1' : frame c s1') by (eapply frame_trans; [exact F1|by split]).
  destruct (fetch_frame s1' instr Hi (fr_icache _ _ F1' (rc_icache _ _ _ _ _ Hr)))
    as (fc & s2 & Ef & Hfc & F2 & B2 & G2).
  destruct (fetch_bp _ _ _ _ Ef) as [P2 D2]. rewrite Ef, res_bind_ok. clear Ef.
  set (s2' := set_stats s2 _).
  assert (F2' : frame c s2') by (eapply frame_trans; [exact F1'|eapply frame_trans; [exact F2|by split]]).
  assert (Hb2 : book s2' = book c) by (cbn; rewrite B2; exact B1).
  assert (Hn2 : instrCount s2' = n) by apply F2'.
  assert (Hd2 : dcache s2' = None).
  { change (dcache s2 = None). rewrite D2. change (dcache s1 = None).
    rewrite (predict_dcache _ _ _ _ Ep). apply Hr. }
  assert (Hr2 : ready_core z p W E s2').
  { destruct Hr as [R1 R2 R3 R4 R5 R6 R7], F2' as [P1' P2' P3' _ P5' _ P7' _].
    split; unfold window in *; rewrite ?P1', ?P2', ?P3', ?P5', ?Hb2; auto. }
  pose proof (rc_count _ _ _ _ _ Hr) as Hc. fold n in Hc. pose proof (rc_book _ _ _ _ _ Hr) as Hbk. fold n in Hbk.
  destruct (pipeline_steps z p W Hok E s2' Hr2 instr cycles (previousInstrMispredicted (book c)) fc Hfc)
    as [FE ME]; [rewrite Hn2; apply Hbk|]. rewrite Hn2 in FE, ME.
  set (es := pipeline_edges s2' instr cycles _ fc) in *. set (b3 := book_fetch _ _ _ _).
  destruct (addEdges_maps (set_core s (set_book s2' b3)) es) as (ch & pa & Ee & MG).
  exists es, (set_book s2' b3), ch, pa. split; [f_equal; exact Ee|]. clear Ee.
  split; [eapply frame_trans; [exact F2'|by split]|]. split; [exact Hd2|].
  split; [|split; [exact FE|split; [|split; [exact ME|split; [|split]]]]].
  - change (base (core (set_core s (set_book s2' b3)))) with (base s2') in MG.
    rewrite (fr_base _ _ F2') in MG. exact MG.
  - intros Hls. unfold es, pipeline_edges, stage_edges. rewrite Hn2. unfold load_store in Hls. rewrite Hls.
    eapply linked_edge. apply elem_of_app. left. by right; right; left.
  - unfold b3. rewrite Hb2, Hn2. destruct Hbk as [A1 A2 A3 A4 A5 A6 A7 A8]. split; cbn; try assumption.
    + destruct (previousInstrMispredicted (book c)); [|by eapply earlier_mono; [|exact A1]; lia].
      right. specialize (A2 eq_refl). rewrite u64_small by (unfold u64_size; lia). lia.
    + lia.
    + eapply earlier_mono; [|exact A3]. lia.
    + intros r i w Hw. destruct (A4 r i w Hw) as (? & ? & ?). split; [lia|done].
  - unfold trackDataDependencies, register_edge.
    cbn [set_book book regLastWrittenBy regLastWrittenByLoad instrCount params]. unfold b3.
    change (instrCount (set_book s2' b3)) with (instrCount s2'). rewrite Hn2. cbn [book_fetch regLastWrittenBy regLastWrittenByLoad].
    rewrite Hb2, (fr_params _ _ F2'). reflexivity.
  - rewrite <- Hn2. apply (pipeline_order z p W Hok E s2' Hr2).
Qed.

(** Without a data cache the cycles of an access are those of the trace. *)
Lemma model_access_adv (s : Adv) instr :
  dcache (core s) = None ->
  model_access s instr = Ok (if load_store instr then i_lsCycles instr else 0, s).
Proof.
  intros Hd. unfold model_access, access_memory. rewrite Hd, andb_false_r, res_bind_ok.
  change (addEdges s []) with s. rewrite Hd. destruct (load_store instr); [|done].
  rewrite res_bind_ok. by destruct s.
Qed.

(** What modelling an instruction changes. *)
Record modelled (E : list Edge) (s : Adv) (instr : Instruction) (es : list Edge) (s' : Adv) : Prop := {
  md_params : params (core s') = params (core s);
  md_board : scoreboard (core s') = scoreboard (core s);
  md_base : base (core s') =
    set_type (base (core s)) (instrCount (core s)) (i_executionType instr);
  md_sched : scheduleOrder (core s') = scheduleOrder (core s);
  md_count : instrCount (core s') = instrCount (core s);
  md_windows : analyzedWindows (core s') = analyzedWindows (core s);
  md_icache : option_ok (icache (core s'));
  md_dcache : dcache (core s') = None;
  md_heads : headInstr s' = headInstr s /\ headScheduledInstr s' = headScheduledInstr s /\
    alreadyScheduled s' = alreadyScheduled s;
  md_maps : maps_grown (base (core s)) (graphChildren s) (graphChildren s') (graphParents s)
    (graphParents s') es;
  md_steps : Forall (step_edge (W / 2) (instrCount (core s))) es;
  md_mem : forall pe, pe ∈ es -> type pe.1 = MemExecute -> accesses (E ++ es) (instrNum pe.1);
  md_book : book_adv z (E ++ es) (instrCount (core s) + 1) (book (core s'));
  md_order : in_program_order (instrBufferSize p) (instrCount (core s)) es
}.

Lemma model_adv (s : Adv) E instr :
  ready_core z p W E (core s) -> instr_ok instr ->
  exists es s', model s instr = Ok s' /\ modelled E s instr es s'.
Proof using All.
  set (c := core s). set (n := instrCount c). intros Hr Hi. unfold model. fold c.
  set (c0 := count_instr c instr). set (s0 := set_core s c0).
  rewrite (model_access_adv s0 instr (rc_dcache _ _ _ _ _ Hr)), res_bind_ok.
  set (ls := if load_store instr then i_lsCycles instr else 0).
  assert (Hls : 0 <= ls < 2 ^ 30) by (unfold ls; destruct (load_store instr); [apply Hi|lia]).
  change (core s0) with c0.
  destruct (execution_latency_ok z c0 instr ls (rc_board _ _ _ _ _ Hr) Hls) as [Hec _].
  set (ec := execution_latency c0 instr ls) in *. set (c1 := record_cycles c0 instr ls ec).
  assert (F1 : frame c0 c1) by (by split).
  assert (Hr1 : ready_core z p W E c1).
  { destruct Hr as [R1 R2 R3 R4 R5 R6 R7]. split; try assumption.
    destruct R5 as [A1 A2 A3 A4 A5 A6 A7 A8]. split; try assumption; cbn.
    - intros j x. destruct (decide (j = n mod window c0)) as [->|Hj].
      + change (instrCount c) with n. rewrite lookup_insert_eq. intros [= <-]. lia.
      + rewrite lookup_insert_ne by done. apply A7.
    - destruct (load_store instr); [|exact A8]. intros j x.
      destruct (decide (j = n mod window c0)) as [->|Hj].
      + change (instrCount c) with n. rewrite lookup_insert_eq. intros [= <-]. lia.
      + rewrite lookup_insert_ne by done. apply A8. }
  destruct (modelPipeline_adv (set_core s0 c1) E instr ec Hr1 Hi)
    as (es1 & c2 & ch1 & pa1 & -> & F2 & D2 & M1 & S1 & L1 & A1 & B2 & T2 & C2).
  rewrite res_bind_ok. cbv zeta. change (set_core (set_core s0 c1) c2) with (set_core s0 c2).
  set (s2 := set_edges (set_core s0 c2) ch1 pa1). change (core s2) with c2.
  change (core (set_core s0 c1)) with c1 in *. change (instrCount c1) with n in *.
  destruct (data_steps z p W Hok E c1 Hr1 instr) as [S3 A3]. rewrite T2.
  set (es2 := trackDataDependencies c1 instr) in *. change (instrCount c1) with n in S3.
  destruct (addEdges_maps s2 es2) as (ch2 & pa2 & E3 & M3). rewrite E3. clear E3.
  change (core (set_edges s2 ch2 pa2)) with c2. change (core s2) with c2 in M3.
  assert (Hn2 : instrCount c2 = n) by apply F2.
  assert (Hbase : base c2 = base c1) by apply F2.
  destruct (finish_adv z c2 (E ++ es1) instr ls ec) as (c3 & -> & K3 & B3); rewrite ?Hn2; try assumption.
  - rewrite (fr_board _ _ F2). apply Hr.
  - apply Hok.
  - apply Hr.
  - intros Hl. apply (linked_mono es1); [set_solver|]. apply L1. unfold load_store. by rewrite Hl.
  - apply (book_adv_mono _ E _ (n + 1)); [set_solver|lia|exact B2].
  - rewrite res_bind_ok. rewrite Hn2 in B3. destruct K3 as [F3 D3].
    exists (es1 ++ es2). eexists. split; [reflexivity|].
    assert (F : frame c0 c3) by (eapply frame_trans; [exact F1|eapply frame_trans; [exact F2|exact F3]]).
    assert (Hw : AnalysisWindow (base c1) = AnalysisWindow (base c)) by reflexivity.
    split; cbn [core set_core set_edges headInstr headScheduledInstr alreadyScheduled graphChildren graphParents].
    + rewrite (fr_params _ _ F). reflexivity.
    + rewrite (fr_board _ _ F). reflexivity.
    + rewrite (fr_base _ _ F). reflexivity.
    + rewrite (fr_sched _ _ F). reflexivity.
    + rewrite (fr_count _ _ F). reflexivity.
    + rewrite (fr_windows _ _ F). reflexivity.
    + apply (fr_icache _ _ F). apply Hr.
    + rewrite D3. exact D2.
    + done.
    + assert (M1' : maps_grown (base c) (graphChildren s) ch1 (graphParents s) pa1 es1).
      { destruct M1 as [Ma Mb]. split; intros k; [rewrite Ma|rewrite Mb]; reflexivity. }
      apply (maps_grown_trans (base c) (base c2) _ ch1 ch2 _ pa1 pa2); [by rewrite Hbase|exact M1'|exact M3].
    + by apply Forall_app.
    + intros pe [Hpe|Hpe]%elem_of_app Ht.
      * destruct (A1 pe Hpe Ht) as [-> Hls']. apply (linked_mono es1); [set_solver|]. by apply L1.
      * apply (linked_mono E); [set_solver|]. by apply A3.
    + apply (book_adv_mono _ (E ++ es1) _ (n + 1)); [set_solver|apply Z.le_refl|exact B3].
    + apply (in_program_order_mono _ _ es1); [set_solver|exact C2].
Qed.
End Model.
