(* ===== verification/CalipersAdvancedInv.v ===== *)
(** * The invariant of the sliding-window core

    The window holds the instructions [lo .. lo + W), of which those before [n] are
    modelled.  Every edge between them that modelling added is relaxed, the schedule
    holds those not scheduled yet with their lengths, no instruction that is still to
    be scheduled leads to the execution of one that was, and a rank bounds lengths
    and counters.  Reading an instruction keeps the invariant. *)

From S2P Require Import Prelude Machine CalipersCache CalipersFacts CalipersCycles CalipersPaths.
From S2P Require Import CalipersScoreboard CalipersScoreFacts CalipersO3 CalipersO3Facts.
From S2P Require Import CalipersO3Steps CalipersO3Window CalipersO3Run CalipersReport.
From S2P Require Import CalipersAdvanced CalipersWorklist CalipersAdvancedEdges.

#[local] Open Scope list_scope.
#[local] Open Scope Z_scope.

Import CalG CalS CalO CalA.

Notation fetch_of := (mkVertex InstrFetch).
Notation dispatch_of := (mkVertex InstrDispatch).
Notation exec_of := (mkVertex InstrExecute).
Notation mem_of := (mkVertex MemExecute).
Notation commit_of := (mkVertex InstrCommit).

(** ** Slots and ranks *)

(** The instruction of the window at [lo] in a slot. *)
Definition occupant (W lo j : Z) : Z := lo + (j - lo) mod W.
Definition stage_no (t : Z) : Z := Z.min 4 (Z.abs t).
Definition rank (W C lo m : Z) (k : key) : Z := 5 * occupant W lo k.2 + stage_no k.1 + C * m.

Section Slots.
Context (W : Z) (HW : 0 < W).

Lemma occupant_live lo i : lo <= i < lo + W -> occupant W lo (i mod W) = i.
Proof using HW.
  intros Hi. unfold occupant. rewrite Zminus_mod_idemp_l, Z.mod_small by lia. lia.
Qed.
Lemma occupant_ge lo j : lo <= occupant W lo j < lo + W.
Proof using HW. unfold occupant. pose proof (Z.mod_pos_bound (j - lo) W HW). lia. Qed.
Lemma occupant_mono lo lo' j : lo <= lo' -> occupant W lo j <= occupant W lo' j.
Proof using HW.
  intros Hl. unfold occupant. rewrite !Z.mod_eq by lia.
  pose proof (Z.div_le_mono (j - lo') (j - lo) W HW ltac:(lia)). nia.
Qed.
Lemma mod_live lo i j : lo <= i < lo + W -> lo <= j < lo + W -> i mod W = j mod W -> i = j.
Proof using HW. intros Hi Hj E. rewrite <- (occupant_live lo i Hi), <- (occupant_live lo j Hj), E. done. Qed.

Lemma stage_no_type t : stage_no (vt_num t) = vt_num t.
Proof. by destruct t. Qed.

Lemma vertex_key_inj g lo u v :
  AnalysisWindow g = W -> lo <= instrNum u < lo + W -> lo <= instrNum v < lo + W ->
  VertexKey g u = VertexKey g v -> u = v.
Proof using HW.
  intros HA Hu Hv E. unfold VertexKey in E. rewrite HA in E. injection E as Et En.
  apply (mod_live lo) in En; [|done..]. destruct u as [t i], v as [t' j]. cbn in *. subst j. f_equal.
  by destruct t, t'.
Qed.

Lemma rank_vertex g C lo m v :
  AnalysisWindow g = W -> lo <= instrNum v < lo + W ->
  rank W C lo m (VertexKey g v) = 5 * instrNum v + vt_num (type v) + C * m.
Proof using HW.
  intros HA Hv. unfold rank, VertexKey. cbn. rewrite HA, occupant_live, stage_no_type by done. done.
Qed.

Lemma rank_mono C lo lo' m m' k :
  0 <= C -> lo <= lo' -> m <= m' -> rank W C lo m k <= rank W C lo' m' k.
Proof using HW.
  intros HC Hl Hm. unfold rank. pose proof (occupant_mono lo lo' k.2 Hl).
  pose proof (Z.mul_le_mono_nonneg_l m m' C HC Hm). lia.
Qed.
End Slots.

(** ** The graph of the program *)

Record program (D : Z) (E : list Edge) (n : Z) : Prop := {
  pg_steps : forall pe, pe ∈ E -> exists m, 0 <= m < n /\ step_edge D m pe;
  pg_mem : forall pe, pe ∈ E -> type pe.1 = MemExecute -> accesses E (instrNum pe.1)
}.

Section Program.
Context (D : Z) (E : list Edge) (n : Z) (HP : program D E n).

Lemma linked_program u v :
  linked E u v -> before u v /\ 0 <= instrNum u /\ instrNum v - D <= instrNum u /\ instrNum v < n /\
    (type v = MemExecute -> u = exec_of (instrNum v)).
Proof using HP.
  intros (pe & Hpe & <- & <-). destruct (pg_steps _ _ _ HP pe Hpe) as (m & Hm & [S1 S2 S3 S4 S5]).
  split; [done|]. rewrite S1. split_and!; try lia. exact S5.
Qed.

Lemma reaches_cases u v : reaches E u v -> u = v \/ (before u v /\ instrNum v < n).
Proof using HP.
  induction 1 as [x|x y v Hxy _ IH]; [by left|]. right.
  destruct (linked_program _ _ Hxy) as (Hb & _ & _ & Hn & _).
  destruct IH as [->|[IH1 IH2]]; [done|]. split; [by eapply before_trans|done].
Qed.

Lemma reaches_num u v : reaches E u v -> instrNum u <= instrNum v.
Proof using HP. intros [->|[H _]]%reaches_cases; [lia|]. unfold before in H. lia. Qed.

Lemma reaches_exec x y : reaches E (exec_of x) (exec_of y) -> x = y \/ x < y.
Proof using HP.
  intros [[= ->]|[H _]]%reaches_cases; [by left|]. unfold before in H. cbn in H. lia.
Qed.

(** The way to a memory access is through its execution. *)
Lemma reaches_mem u y : reaches E u (mem_of y) -> u = mem_of y \/ reaches E u (exec_of y).
Proof using HP.
  intros H. apply rtc_inv_r in H as [->|(v & Hu & Hv)]; [by left|]. right.
  destruct (linked_program _ _ Hv) as (_ & _ & _ & _ & Hm). rewrite (Hm eq_refl) in Hu. done.
Qed.
Lemma reaches_from_mem x v : reaches E (mem_of x) v -> v = mem_of x \/ reaches E (exec_of x) v.
Proof using HP.
  intros H. apply rtc_inv in H as [->|(y & Hy & Hv)]; [by left|]. right.
  destruct Hy as (pe & Hpe & E1 & E2).
  assert (Ha : accesses E x) by (pose proof (pg_mem _ _ _ HP pe Hpe) as Hm; rewrite E1 in Hm; auto).
  eapply rtc_l; [exact Ha|]. eapply rtc_l; [|exact Hv]. by exists pe.
Qed.
End Program.

(** Edges of a new instruction lead nowhere else. *)
Lemma reaches_app D E n es u v :
  program D E n -> Forall (step_edge D n) es -> instrNum v <> n ->
  reaches (E ++ es) u v -> reaches E u v.
Proof.
  intros HP Hs Hv H. revert Hv. unfold reaches in *.
  refine (rtc_ind_r (fun v => instrNum v <> n -> rtc (linked E) u v) u _ _ v H); [constructor|].
  clear v H. intros y z Hxy Hyz IH Hz. destruct Hyz as (pe & Hpe & E1 & E2). apply elem_of_app in Hpe as [Hpe|Hpe].
  - eapply rtc_r; [apply IH|by exists pe]. rewrite <- E1.
    destruct (pg_steps _ _ _ HP pe Hpe) as (m & Hm & [S1 _ S3 _ _]). unfold before in S3. lia.
  - rewrite Forall_forall in Hs. pose proof (se_child _ _ _ (Hs pe Hpe)). congruence.
Qed.

Lemma program_app D E n es :
  0 <= n -> program D E n -> Forall (step_edge D n) es ->
  (forall pe, pe ∈ es -> type pe.1 = MemExecute -> accesses (E ++ es) (instrNum pe.1)) ->
  program D (E ++ es) (n + 1).
Proof.
  intros Hn [P1 P2] Hs Hm. split; intros pe [Hpe|Hpe]%elem_of_app.
  - destruct (P1 pe Hpe) as (m & ? & ?). exists m. split; [lia|done].
  - exists n. split; [lia|]. rewrite Forall_forall in Hs. auto.
  - intros Ht. apply (linked_mono E); [set_solver|]. by apply P2.
  - by apply Hm.
Qed.

#[export] Instance Vertex_eq_dec : EqDecision Vertex.
Proof. solve_decision. Defined.

(** The program edges out of a vertex. *)
Definition prog_out (E : list Edge) (v : Vertex) : list OutgoingEdge := (filter (fun pe => pe.1 = v) E).*2.

Lemma prog_out_elem E v e : e ∈ prog_out E v <-> (v, e) ∈ E.
Proof.
  unfold prog_out. rewrite list_elem_of_fmap. split.
  - intros ([u x] & -> & [Hu Hx]%list_elem_of_filter). cbn in *. by subst.
  - intros H. exists (v, e). split; [done|]. by apply list_elem_of_filter.
Qed.
Lemma prog_out_app E es v : prog_out (E ++ es) v = prog_out E v ++ prog_out es v.
Proof. unfold prog_out. by rewrite filter_app, fmap_app. Qed.

(** ** Relaxing the edges into one vertex *)

Lemma relax_to_vertex N g v es :
  config_ok g -> ranked N g ->
  Forall (fun pe => child pe.2 = v /\ VertexKey g pe.1 <> VertexKey g v /\
                    exists x, rising N g pe.1 pe.2 x) es ->
  exists g', res_fold (fun b pe => updateCriticalPathCycles b pe.1 pe.2) g es = Ok g' /\
    same_config g g' /\ ranked N g' /\ len_of g (VertexKey g v) <= len_of g' (VertexKey g v) /\
    (forall k, k <> VertexKey g v -> len_of g' k = len_of g k) /\
    (forall pe, pe ∈ es -> len_of g (VertexKey g pe.1) + lane (weight pe.2) <= len_of g' (VertexKey g v)).
Proof.
  revert g. induction es as [|pe es IH]; intros g Hc Hr Hf.
  - exists g. split; [reflexivity|]. split; [done|]. split; [done|]. split; [lia|]. split; [done|].
    intros pe Hpe. by apply not_elem_of_nil in Hpe.
  - apply Forall_cons in Hf as [(Hv & Hk & x & Hx) Hf].
    destruct (relax_ranked N g pe.1 pe.2 x Hc Hr Hx) as (g1 & E1 & S1 & R1 & L1). rewrite Hv in L1.
    assert (K : forall u, VertexKey g1 u = VertexKey g u) by (intros; by apply same_config_key).
    destruct (IH g1) as (g2 & E2 & S2 & R2 & G2 & O2 & T2).
    + by eapply same_config_ok.
    + done.
    + eapply Forall_impl; [exact Hf|]. intros pe' (A1 & A2 & y & A3). rewrite !K. split; [done|].
      split; [done|]. exists y. by eapply rising_config.
    + cbn [res_fold]. rewrite E1, res_bind_ok. rewrite K in G2, O2, T2. clear E1.
      assert (Hx' : lane (weight pe.2) = x) by (destruct Hx as [(-> & _) _ _ _]; done).
      assert (Hv1 : len_of g1 (VertexKey g v) =
        Z.max (len_of g (VertexKey g v)) (len_of g (VertexKey g pe.1) + x)) by (by rewrite L1, decide_True).
      exists g2. split; [exact E2|]. split; [by eapply same_config_trans|]. split; [done|].
      split; [lia|]. split.
      * intros k Hne. rewrite O2, L1, decide_False by done. done.
      * intros pe' [->|Hpe']%elem_of_cons; [lia|].
        specialize (T2 pe' Hpe'). rewrite K in T2. rewrite Forall_forall in Hf.
        destruct (Hf pe' Hpe') as (_ & Hne & _). rewrite L1, decide_False in T2 by done. lia.
Qed.

(** ** The invariant *)

(** Program edges from the window on are relaxed. *)
Definition rel_edges (lo : Z) (E : list Edge) (g : Graph) : Prop :=
  forall pe, pe ∈ E -> lo <= instrNum pe.1 ->
    len_of g (VertexKey g pe.1) + lane (weight pe.2) <= len_of g (VertexKey g (child pe.2)).

Lemma reaches_length D E n lo g u v :
  program D E n -> rel_edges lo E g -> lo <= instrNum u -> reaches E u v ->
  len_of g (VertexKey g u) <= len_of g (VertexKey g v).
Proof.
  intros HP HT Hu H. unfold reaches in H. induction H as [x|x y v Hxy Hyv IH]; [lia|].
  destruct (linked_program _ _ _ HP _ _ Hxy) as (Hb & _ & _ & _ & _). destruct Hxy as (pe & Hpe & <- & <-).
  pose proof (HT pe Hpe Hu) as Ht. destruct (pg_steps _ _ _ HP pe Hpe) as (m & _ & S).
  destruct (se_weight _ _ _ S) as (w & Hw & Hw0 & _). rewrite Hw in Ht. cbn [lane hd] in Ht.
  unfold before in Hb. specialize (IH ltac:(lia)). lia.
Qed.

(** Which instructions are scheduled: [S], newest first; [A] those from [h] on. *)
Record scheduled (B : Z) (E : list Edge) (n h : Z) (S A : list Z) : Prop := {
  sc_nodup : NoDup S;
  sc_range : forall i, i ∈ S -> 0 <= i < n /\ i <= h + B;
  sc_sorted : StronglySorted (fun x y => y <= x + B) S;
  sc_prefix : forall i, 0 <= i < h -> i ∈ S;
  sc_heads : 0 <= h <= n;
  sc_ahead_sorted : StronglySorted Z.lt A;
  sc_ahead : forall i, i ∈ A <-> i ∈ S /\ h <= i;
  sc_paths : forall x y, 0 <= x -> x ∉ S -> y ∈ S -> ~ reaches E (exec_of x) (exec_of y)
}.

(** The scoreboard's history: everyone scheduled took an issue slot and an entry of
    the instruction queue. *)
Record logged (S : list Z) (b : Scoreboard) (hs : History) : Prop := {
  lg_refines : refines b hs;
  lg_history : history_ok (fun i => i ∈ S) b hs;
  lg_issue : (units hs RscIssue).*1 = S;
  lg_queue : (entries hs RscInstrQ).*1 = S
}.

Section Inv.
Context {CI CD BP : Type} `{!Cache CI} `{!Cache CD} `{!CacheLaws CI} `{!CacheLaws CD}.
Context `{!BranchPredictor BP}.
Notation O3 := (@O3CoreGraph CI CD BP).
Notation Adv := (@O3CoreGraphAdvanced CI CD BP).
Context (z : Sizes) (p : Params) (W : Z) (Hok : adv_ok z p W).

Notation B := (instrBufferSize p).
Definition C : Z := 5 * instrBufferSize p + 6.
Definition lo_of (s : Adv) : Z := headInstr s - W.

Record adv_inv (E : list Edge) (S : list Z) (hs : History) (s : Adv) : Prop := {
  ai_core : ready_core z p W E (core s);
  ai_config : config_ok (base (core s)) /\ intAluTotalCycles (base (core s)) = 1;
  ai_windows : analyzedWindows (core s) = 0;
  ai_program : program (W / 2) E (instrCount (core s));
  ai_room : W <= headInstr s /\ instrCount (core s) <= headInstr s;
  ai_head : headInstr s = W \/ headInstr s - headScheduledInstr s <= W / 2;
  ai_live : forall v, lo_of s <= instrNum v < instrCount (core s) ->
    ~ (instrNum v ∈ S /\ (type v = InstrExecute \/ type v = MemExecute)) ->
    edge_at (graphChildren s) (VertexKey (base (core s)) v) = prog_out E v;
  ai_fresh : forall v, instrCount (core s) <= instrNum v < headInstr s ->
    edge_at (graphChildren s) (VertexKey (base (core s)) v) = [] /\
    parents_at (graphParents s) (VertexKey (base (core s)) v) = [];
  ai_narrow : narrow (graphChildren s);
  ai_tight : rel_edges (lo_of s) E (base (core s));
  ai_rank : ranked (rank W C (lo_of s) (Z.of_nat (List.length S))) (base (core s));
  ai_order : order_ok (fun i => 0 <= i < instrCount (core s) /\ i ∉ S) (base (core s))
    (scheduleOrder (core s));
  ai_sched : scheduled B E (instrCount (core s)) (headScheduledInstr s) S (alreadyScheduled s);
  ai_logged : logged S (scoreboard (core s)) hs;
  ai_order_edges : forall i, 0 <= i < instrCount (core s) -> in_program_order B i E
}.

Lemma window_pos : 0 < W.
Proof using Hok. pose proof (adv_ok_window _ _ _ Hok). lia. Qed.

Lemma C_pos : 0 <= C.
Proof using Hok. pose proof (adv_ok_window _ _ _ Hok). unfold C. lia. Qed.

(** As many instructions are scheduled as there are, at most. *)
Lemma scheduled_count E n h S A : scheduled B E n h S A -> Z.of_nat (List.length S) <= n.
Proof.
  intros HS. assert (Hsub : S ⊆ seqZ 0 n).
  { intros i Hi. apply elem_of_seqZ. apply (sc_range _ _ _ _ _ _ HS) in Hi. lia. }
  apply (NoDup_submseteq _ _ (sc_nodup _ _ _ _ _ _ HS)) in Hsub.
  apply submseteq_length in Hsub. rewrite length_seqZ in Hsub. pose proof (sc_heads _ _ _ _ _ _ HS). lia.
Qed.

(** Ranks stay within machine words for a trace of [total] instructions. *)
Definition fits (total : Z) : Prop := (5 * instrBufferSize p + 11) * (total + W) < 2 ^ 31.

Lemma rank_fits total lo m k :
  fits total -> 0 <= m <= total -> 0 <= lo <= total ->
  0 <= rank W C lo m k /\ 2 ^ 32 * rank W C lo m k <= INT64_MAX /\ 6 * rank W C lo m k <= INT64_MAX.
Proof using Hok.
  intros Hf Hm Hl. pose proof window_pos as HW. unfold fits, rank in *.
  pose proof (occupant_ge W HW lo k.2). assert (0 <= stage_no k.1 <= 4) by (unfold stage_no; lia).
  pose proof (adv_ok_window _ _ _ Hok). pose proof C_pos.
  assert (0 <= C * m <= C * total) by nia. unfold C in *. unfold INT64_MAX. nia.
Qed.

(** [lo] is not past the instruction to schedule next. *)
Lemma lo_head E S hs s : adv_inv E S hs s ->
  0 <= lo_of s /\ lo_of s <= headScheduledInstr s /\
  (lo_of s = 0 \/ lo_of s + W / 2 <= headScheduledInstr s).
Proof using Hok.
  intros H. pose proof window_pos. destruct (ai_room _ _ _ _ H). unfold lo_of.
  pose proof (sc_heads _ _ _ _ _ _ (ai_sched _ _ _ _ H)).
  pose proof (Z.mul_div_le W 2). destruct (ai_head _ _ _ _ H); lia.
Qed.
End Inv.

(** * Reading an instruction keeps the invariant

    [calculateInstructionCriticalPath] relaxes the edges into a new instruction stage
    by stage and enters it into the schedule. *)

Lemma filter_agree {A} (P Q : A -> Prop) `{!forall x, Decision (P x)} `{!forall x, Decision (Q x)} l :
  Forall (fun x => P x <-> Q x) l -> filter P l = filter Q l.
Proof.
  induction 1 as [|x l Hx _ IH]; [done|]. rewrite !filter_cons, IH.
  repeat case_decide; tauto.
Qed.

Lemma filter_nothing {A} (P : A -> Prop) `{!forall x, Decision (P x)} l :
  Forall (fun x => ~ P x) l -> filter P l = [].
Proof. induction 1 as [|x l Hx _ IH]; [done|]. by rewrite filter_cons_False. Qed.

Section Stages.
Context {CI CD BP : Type} `{!Cache CI} `{!Cache CD} `{!BranchPredictor BP}.
Notation Adv := (@O3CoreGraphAdvanced CI CD BP).

(** The edges of the new instruction [n], up the ranks [N]; [g0] are the critical
    paths before they are relaxed. *)
Context (N : key -> Z) (D n : Z) (g0 : Graph) (es : list Edge).
Context (Hes : Forall (step_edge D n) es).
Context (Hrise : forall pe, pe ∈ es -> exists x, rising N g0 pe.1 pe.2 x).
Context (Hpar : forall pe t, pe ∈ es -> VertexKey g0 pe.1 = VertexKey g0 (mkVertex t n) ->
  pe.1 = mkVertex t n).

Definition into (v : Vertex) : list Edge := filter (fun pe => child pe.2 = v) es.
Notation new t := (mkVertex t n).

(** The stages [ts] are done. *)
Record staged (ts : list VertexType) (g : Graph) : Prop := {
  sg_config : same_config g0 g;
  sg_ranked : ranked N g;
  sg_grown : grown_from g0 g;
  sg_other : forall k, (forall t, t ∈ ts -> k <> VertexKey g0 (new t)) -> len_of g k = len_of g0 k;
  sg_tight : forall pe, pe ∈ es -> type (child pe.2) ∈ ts ->
    len_of g (VertexKey g0 pe.1) + lane (weight pe.2) <= len_of g (VertexKey g0 (child pe.2))
}.

Lemma new_key_inj t t' : VertexKey g0 (new t) = VertexKey g0 (new t') -> t = t'.
Proof. unfold VertexKey. cbn. intros [= E]. by destruct t, t'. Qed.

Lemma in_edges_into t :
  in_edges g0 es (VertexKey g0 (new t)) = incoming <$> into (new t).
Proof using Hes.
  unfold in_edges, into. f_equal. apply filter_agree. eapply Forall_impl; [exact Hes|].
  intros pe [Hn _ _ _ _]. destruct (child pe.2) as [t' i]. cbn in Hn. subst i.
  split; [intros H; by apply new_key_inj in H as ->|by intros ->].
Qed.

Lemma fold_incoming c l g :
  Forall (fun pe => child pe.2 = c) l ->
  res_fold (fun b e => updateCriticalPathCycles b (parent e) (mkEdge c (in_weight e))) g (incoming <$> l) =
  res_fold (fun b pe => updateCriticalPathCycles b pe.1 pe.2) g l.
Proof.
  revert g. induction l as [|[u [c' w]] l IH]; intros g Hl; [reflexivity|].
  apply Forall_cons in Hl as [Hc Hl]. cbn in Hc. subst c'. cbn.
  destruct (updateCriticalPathCycles g u (mkEdge c w)); [|reflexivity]. rewrite !res_bind_ok. by apply IH.
Qed.

(** One more stage. *)
Lemma stage_step ts t g :
  config_ok g0 -> staged ts g -> (forall t', t' ∈ ts -> vt_num t' < vt_num t) ->
  exists g', res_fold (fun b pe => updateCriticalPathCycles b pe.1 pe.2) g (into (new t)) = Ok g' /\
    staged (ts ++ [t]) g' /\ (forall k, k <> VertexKey g0 (new t) -> len_of g' k = len_of g k).
Proof using Hes Hrise Hpar.
  intros Hc [S R G O T] Hts.
  assert (K : forall v, VertexKey g v = VertexKey g0 v) by (intros; by apply same_config_key).
  destruct (relax_to_vertex N g (new t) (into (new t))) as (g' & E & S' & R' & G' & O' & T').
  - by eapply same_config_ok.
  - done.
  - apply Forall_forall. intros pe [Hv Hpe]%list_elem_of_filter. split; [done|]. split.
    + rewrite !K. intros Ek. apply Hpar in Ek; [|done]. pose proof Hes as Hes'.
      rewrite Forall_forall in Hes'. pose proof (se_before _ _ _ (Hes' pe Hpe)) as Hb.
      rewrite Ek, Hv in Hb. unfold before in Hb. lia.
    + destruct (Hrise pe Hpe) as [x Hx]. exists x. by eapply rising_config.
  - exists g'. split; [exact E|]. clear E. rewrite !K in *. set (kt := VertexKey g0 (new t)) in *.
    assert (HG : grown_from g g').
    { split; [apply S'|]. intros k. destruct (decide (k = kt)) as [->|Hk]; [done|]. rewrite O' by done. lia. }
    split; [|exact O'].
    split; [by eapply same_config_trans|done|by eapply grown_from_trans|..].
    + intros k Hk. rewrite O' by (apply Hk; set_solver). apply O. intros t' Ht'. apply Hk. set_solver.
    + intros pe Hpe Ht. pose proof (Hes) as Hes'. rewrite Forall_forall in Hes'.
      destruct (Hes' pe Hpe) as [Sc _ Sb _ _].
      assert (Hv : child pe.2 = new (type (child pe.2))) by (destruct (child pe.2); cbn in *; by subst).
      assert (Hp : VertexKey g0 pe.1 <> kt).
      { intros Ek. apply Hpar in Ek; [|done]. rewrite Ek, Hv in Sb. unfold before in Sb. cbn in Sb.
        apply elem_of_app in Ht as [Ht|Ht%list_elem_of_singleton]; [apply Hts in Ht; lia|].
        rewrite Ht in Sb. lia. }
      rewrite (O' _ Hp). apply elem_of_app in Ht as [Ht|Ht%list_elem_of_singleton].
      * specialize (T pe Hpe Ht). rewrite O'; [done|]. rewrite Hv. intros Ek%new_key_inj.
        apply Hts in Ht. rewrite Ek in Ht. lia.
      * rewrite Ht in Hv. pose proof (T' pe (proj2 (list_elem_of_filter _ _ _) (conj Hv Hpe))) as Hle.
        rewrite K in Hle. rewrite Hv. exact Hle.
Qed.

(** The state with the critical paths [g] and the schedule [o]. *)
Definition at_stage (s : Adv) (g : Graph) (o : list (Z * Z)) : Adv := with_order (with_base s g) o.

Lemma relax_stage_ok s ts t g o :
  instrCount (core s) = n -> config_ok g0 -> staged ts g ->
  (forall t', t' ∈ ts -> vt_num t' < vt_num t) ->
  parents_at (graphParents s) (VertexKey g0 (new t)) = in_edges g0 es (VertexKey g0 (new t)) ->
  exists g', relax_stage (at_stage s g o) t =
      Ok (at_stage s g' (if decide (t = InstrExecute)
        then schedule_insert (n, len_of g' (VertexKey g0 (exec_of n))) o else o)) /\
    staged (ts ++ [t]) g' /\ (forall k, k <> VertexKey g0 (new t) -> len_of g' k = len_of g k).
Proof using Hes Hrise Hpar.
  intros Hn Hc Hs Hts Hp. destruct (stage_step ts t g Hc Hs Hts) as (g' & E & Hs' & Ho). exists g'.
  split; [|split; [exact Hs'|exact Ho]]. unfold relax_stage. cbv zeta.
  change (instrCount (core (at_stage s g o))) with (instrCount (core s)). rewrite Hn.
  change (base (core (at_stage s g o))) with g. change (graphParents (at_stage s g o)) with (graphParents s).
  rewrite (same_config_key g0 g _ (sg_config _ _ Hs)), Hp, in_edges_into, fold_incoming, E, res_bind_ok.
  2:{ apply Forall_forall. by intros pe [? _]%list_elem_of_filter. }
  case_decide as Ht; [|reflexivity]. subst t.
  rewrite (same_config_key g0 g' _ (sg_config _ _ Hs')).
  rewrite (one_lane_get _ _ (ranked_one_lane _ _ (sg_ranked _ _ Hs'))), res_bind_ok.
  change (instrCount (core (with_base (at_stage s g o) g'))) with (instrCount (core s)).
  rewrite Hn. reflexivity.
Qed.

Lemma calculate_ok s :
  instrCount (core s) = n -> base (core s) = g0 -> config_ok g0 -> ranked N g0 ->
  (forall t, parents_at (graphParents s) (VertexKey g0 (new t)) = in_edges g0 es (VertexKey g0 (new t))) ->
  exists g', calculateInstructionCriticalPath s =
      Ok (at_stage s g' (schedule_insert (n, len_of g' (VertexKey g0 (exec_of n))) (scheduleOrder (core s)))) /\
    staged all_types g'.
Proof using Hes Hrise Hpar.
  intros Hn Hb Hc Hr Hp.
  assert (H0 : staged [] g0).
  { split; [done|exact Hr|split; [done|intros; lia]|done|].
    intros pe _ Ht. by apply not_elem_of_nil in Ht. }
  assert (Hs0 : s = at_stage s g0 (scheduleOrder (core s))).
  { clear -Hb. destruct s as [c]. unfold at_stage, with_order, with_base, set_core. cbn in *.
    rewrite <- Hb. by destruct c. }
  unfold calculateInstructionCriticalPath, all_types. rewrite Hs0. cbn [res_fold].
  set (o := scheduleOrder (core s)).
  destruct (relax_stage_ok s [] InstrFetch g0 o Hn Hc H0) as (g1 & -> & H1 & _);
    [intros t' Ht; by apply not_elem_of_nil in Ht|apply Hp|]. rewrite decide_False, res_bind_ok by done.
  destruct (relax_stage_ok s _ InstrDispatch g1 o Hn Hc H1) as (g2 & -> & H2 & _);
    [set_unfold; intros; destruct_or!; by subst|apply Hp|]. rewrite decide_False, res_bind_ok by done.
  destruct (relax_stage_ok s _ InstrExecute g2 o Hn Hc H2) as (g3 & -> & H3 & _);
    [set_unfold; intros; destruct_or!; by subst|apply Hp|]. rewrite decide_True, res_bind_ok by done.
  set (o' := schedule_insert _ o).
  destruct (relax_stage_ok s _ MemExecute g3 o' Hn Hc H3) as (g4 & -> & H4 & O4);
    [set_unfold; intros; destruct_or!; by subst|apply Hp|]. rewrite decide_False, res_bind_ok by done.
  destruct (relax_stage_ok s _ InstrCommit g4 o' Hn Hc H4) as (g5 & -> & H5 & O5);
    [set_unfold; intros; destruct_or!; by subst|apply Hp|]. rewrite decide_False, res_bind_ok by done.
  exists g5. split; [|exact H5]. unfold o'. change (scheduleOrder (core (at_stage s g0 o))) with o.
  do 4 f_equal. rewrite O5, O4; [done|intros [=]..].
Qed.
End Stages.

(** ** One more instruction *)

Lemma program_out_old D E n v : program D E n -> n <= instrNum v -> prog_out E v = [].
Proof.
  intros HP Hv. destruct (prog_out E v) as [|e l] eqn:Eo; [done|].
  assert (He : e ∈ prog_out E v) by (rewrite Eo; by left). apply prog_out_elem in He.
  destruct (pg_steps _ _ _ HP _ He) as (m & Hm & [S1 _ S3 _ _]). unfold before in S3. cbn in *. lia.
Qed.

Lemma step_out_none D n es v : Forall (step_edge D n) es -> n < instrNum v -> prog_out es v = [].
Proof.
  intros Hes Hv. unfold prog_out. rewrite filter_nothing; [done|]. eapply Forall_impl; [exact Hes|].
  intros pe [S1 _ S3 _ _] Hpe. rewrite Hpe in S3. unfold before in S3. lia.
Qed.

Lemma scheduled_app D B E n h S A es :
  program D E n -> Forall (step_edge D n) es -> scheduled B E n h S A ->
  scheduled B (E ++ es) (n + 1) h S A.
Proof.
  intros HP Hs [H1 H2 H3 H4 H5 H6 H7 H8]. split; try assumption.
  - intros i Hi. apply H2 in Hi. lia.
  - lia.
  - intros x y Hx Hnx Hy Hr. apply (H8 x y Hx Hnx Hy). eapply reaches_app; [exact HP|exact Hs| |exact Hr].
    apply H2 in Hy. cbn. lia.
Qed.

(** Entering the new instruction into the schedule. *)
Lemma order_ok_insert (U : Z -> Prop) g g' o n :
  AnalysisWindow g' = AnalysisWindow g -> order_ok U g o -> ~ U n ->
  (forall i, U i -> len_of g' (VertexKey g (exec_of i)) = len_of g (VertexKey g (exec_of i))) ->
  order_ok (fun i => U i \/ i = n) g' (schedule_insert (n, len_of g' (VertexKey g (exec_of n))) o).
Proof.
  intros HA [S M] Hn HL.
  assert (Hni : (n, len_of g' (VertexKey g (exec_of n))).1 ∉ o.*1).
  { cbn. intros ([i l] & -> & Hi)%list_elem_of_fmap. by apply M in Hi as [? _]. }
  split; [by apply schedule_insert_sorted|]. intros i l.
  rewrite (schedule_insert_mem _ _ _ Hni), M, (grown_key g g') by done. split.
  - intros [[= -> ->]|[Hu ->]]; [auto|]. split; [by left|]. symmetry. by apply HL.
  - intros [[Hu|Hu] ->]; [right; split; [done|by apply HL]|]. left. by rewrite Hu.
Qed.

Section Read.
Context {CI CD BP : Type} `{!Cache CI} `{!Cache CD} `{!CacheLaws CI} `{!CacheLaws CD}.
Context `{!BranchPredictor BP}.
Notation Adv := (@O3CoreGraphAdvanced CI CD BP).
Context (z : Sizes) (p : Params) (W : Z) (Hok : adv_ok z p W).
Context (E : list Edge) (S : list Z) (hs : History) (s : Adv) (Hinv : adv_inv z p W E S hs s).
Context (total : Z) (Hfit : fits p W total).
Let n := instrCount (core s).
Let lo := lo_of W s.
Context (Hroom : n < headInstr s) (Htotal : n < total).
Context (es : list Edge) (Hes : Forall (step_edge (W / 2) n) es).

Notation N := (rank W (C p) lo (Z.of_nat (List.length S))).
Notation g := (base (core s)).

Lemma read_window : 0 < W /\ AnalysisWindow g = W /\ 0 <= lo /\ headInstr s = lo + W /\ lo <= n - W / 2 \/
  0 < W /\ AnalysisWindow g = W /\ lo = 0 /\ headInstr s = lo + W.
Proof using Hinv Hok.
  pose proof (window_pos z p W Hok). pose proof (rc_window _ _ _ _ _ (ai_core _ _ _ _ _ _ _ Hinv)) as Hw.
  unfold window in Hw. pose proof (lo_head z p W Hok _ _ _ _ Hinv) as (H1 & H2 & H3).
  pose proof (sc_heads _ _ _ _ _ _ (ai_sched _ _ _ _ _ _ _ Hinv)). fold lo in H1, H2, H3.
  pose proof (ai_room _ _ _ _ _ _ _ Hinv).
  assert (headInstr s = lo + W) by (unfold lo, lo_of; lia). fold n in H0. destruct H3; [right|left]; lia.
Qed.

Lemma read_parent pe : pe ∈ es -> lo <= instrNum pe.1 <= n.
Proof using Hinv Hok Hes.
  intros Hpe. pose proof Hes as Hes'. rewrite Forall_forall in Hes'. destruct (Hes' pe Hpe) as [S1 S2 S3 _ _].
  unfold before in S3. destruct read_window; lia.
Qed.

Lemma read_bound k : 2 ^ 32 * N k <= INT64_MAX.
Proof using Hinv Hok Hfit Htotal.
  apply (rank_fits z p W Hok total); [done|..].
  - pose proof (scheduled_count p _ _ _ _ _ (ai_sched _ _ _ _ _ _ _ Hinv)). fold n in H. lia.
  - pose proof (lo_head z p W Hok _ _ _ _ Hinv) as (H1 & H2 & _). fold lo in H1, H2.
    pose proof (sc_heads _ _ _ _ _ _ (ai_sched _ _ _ _ _ _ _ Hinv)). fold n in H. lia.
Qed.

Lemma read_rise g0 pe : same_config g g0 \/ (AnalysisWindow g0 = AnalysisWindow g /\ intAluTotalCycles g0 = 1) ->
  pe ∈ es -> exists x, rising N g0 pe.1 pe.2 x.
Proof using Hinv Hok Hes Hfit Htotal Hroom.
  intros Hg Hpe. pose proof (read_parent pe Hpe) as Hp.
  assert (HA : AnalysisWindow g0 = W /\ intAluTotalCycles g0 = 1 /\ 0 < W /\ headInstr s = lo + W).
  { destruct (ai_config _ _ _ _ _ _ _ Hinv) as [_ Ha].
    destruct Hg as [(HA & _ & _ & _ & Hi & _)|[HA Hi]]; rewrite HA, Hi; destruct read_window; split_and!; lia. }
  destruct HA as (HA & Hi & HW & HH).
  pose proof Hes as Hes'. rewrite Forall_forall in Hes'. destruct (Hes' pe Hpe) as [S1 _ S3 (x & Hx & Hx0 & Hx1) _].
  exists x. split.
  - split; [done|]. split; [unfold INT64_MAX; lia|]. rewrite Hi. exact Hx1.
  - lia.
  - rewrite !(rank_vertex W HW) by (done || lia). unfold before in S3.
    assert (vt_num (type pe.1) <= 4) by (destruct (type pe.1); cbn; lia).
    assert (0 <= vt_num (type (child pe.2))) by (destruct (type (child pe.2)); cbn; lia). lia.
  - apply read_bound.
Qed.

Lemma read_key u v : lo <= instrNum u < lo + W -> lo <= instrNum v < lo + W ->
  VertexKey g u = VertexKey g v -> u = v.
Proof using Hinv Hok.
  destruct read_window as [(HW & HA & _)|(HW & HA & _)]; intros; by apply (vertex_key_inj W HW g lo).
Qed.

(** The new edges of a vertex of the window. *)
Lemma read_out v : lo <= instrNum v < headInstr s -> out_edges g es (VertexKey g v) = prog_out es v.
Proof using Hinv Hok Hes Hroom.
  intros Hv. unfold out_edges, prog_out. f_equal. apply filter_agree, Forall_forall. intros pe Hpe.
  pose proof (read_parent pe Hpe). destruct read_window as [(_ & _ & _ & HH & _)|(_ & _ & _ & HH)];
    (split; [intros Ek; apply read_key; [lia|lia|done]|by intros ->]).
Qed.

Lemma read_in v : lo <= instrNum v < headInstr s -> instrNum v <> n -> in_edges g es (VertexKey g v) = [].
Proof using Hinv Hok Hes Hroom.
  intros Hv Hne. unfold in_edges. rewrite filter_nothing; [done|].
  pose proof Hes as Hes'. rewrite Forall_forall in Hes'. apply Forall_forall. intros pe Hpe Ek.
  pose proof (se_child _ _ _ (Hes' pe Hpe)). pose proof (read_parent pe Hpe).
  apply read_key in Ek; [subst v|..]; destruct read_window; lia.
Qed.

(** The critical paths after the new instruction's edges are relaxed. *)
Context (g0 g' : Graph) (Hg0 : AnalysisWindow g0 = AnalysisWindow g) (Hlen0 : length g0 = length g).
Context (Hst : staged N n g0 es all_types g').

Lemma read_keys v : VertexKey g' v = VertexKey g v.
Proof using Hst Hg0.
  rewrite (same_config_key g0 g' v (sg_config _ _ _ _ _ _ Hst)). by apply grown_key.
Qed.

Lemma read_lengths v : lo <= instrNum v < n -> len_of g' (VertexKey g v) = len_of g (VertexKey g v).
Proof using All.
  intros Hv. rewrite (sg_other _ _ _ _ _ _ Hst).
  - unfold len_of, length_at. by rewrite Hlen0.
  - intros t _ Ek. rewrite (grown_key g g0 (mkVertex t n) Hg0) in Ek.
    apply read_key in Ek; [subst v; cbn in Hv; lia|..]; destruct read_window; cbn; lia.
Qed.

Lemma read_tight : rel_edges lo (E ++ es) g'.
Proof using All.
  intros pe [Hpe|Hpe]%elem_of_app Hlo; rewrite !read_keys.
  - destruct (pg_steps _ _ _ (ai_program _ _ _ _ _ _ _ Hinv) pe Hpe) as (m & Hm & [S1 _ S3 _ _]).
    unfold before in S3. fold n in Hm. rewrite !read_lengths by lia.
    by apply (ai_tight _ _ _ _ _ _ _ Hinv).
  - pose proof (sg_tight _ _ _ _ _ _ Hst pe Hpe) as Ht. rewrite !(grown_key g g0) in Ht by done.
    apply Ht. destruct (type (child pe.2)); unfold all_types; set_solver.
Qed.

Lemma read_order : order_ok (fun i => 0 <= i < n + 1 /\ i ∉ S) g'
  (schedule_insert (n, len_of g' (VertexKey g0 (exec_of n))) (scheduleOrder (core s))).
Proof using All.
  rewrite (grown_key g g0) by done.
  destruct (order_ok_insert (fun i => 0 <= i < n /\ i ∉ S) g g' (scheduleOrder (core s)) n) as [O1 O2].
  - destruct (sg_config _ _ _ _ _ _ Hst) as (-> & _). exact Hg0.
  - apply (ai_order _ _ _ _ _ _ _ Hinv).
  - lia.
  - intros i [Hi Hs]. apply read_lengths. cbn. split; [|lia].
    pose proof (lo_head z p W Hok _ _ _ _ Hinv) as (_ & H2 & _). fold lo in H2.
    destruct (decide (i < headScheduledInstr s)); [|lia]. destruct Hs.
    apply (sc_prefix _ _ _ _ _ _ (ai_sched _ _ _ _ _ _ _ Hinv)). lia.
  - split; [exact O1|]. intros i l. rewrite O2.
    pose proof (sc_heads _ _ _ _ _ _ (ai_sched _ _ _ _ _ _ _ Hinv)) as Hh. fold n in Hh.
    assert (Hn : n ∉ S) by (intros Hn; apply (sc_range _ _ _ _ _ _ (ai_sched _ _ _ _ _ _ _ Hinv)) in Hn; fold n in Hn; lia).
    split; intros [Hu ->]; (split; [|done]).
    + destruct Hu as [[? ?]| ->]; (split; [lia|done]).
    + destruct (decide (i = n)); [by right|left]. split; [lia|apply Hu].
Qed.
End Read.

Section ReadStep.
Context {CI CD BP : Type} `{!Cache CI} `{!Cache CD} `{!CacheLaws CI} `{!CacheLaws CD}.
Context `{!BranchPredictor BP}.
Notation Adv := (@O3CoreGraphAdvanced CI CD BP).
Context (z : Sizes) (p : Params) (W : Z) (Hok : adv_ok z p W).

(** [++instrCount]. *)
Definition next_instr (s : Adv) : Adv :=
  set_core s (set_counts (core s) (u64 (instrCount (core s) + 1)) (analyzedWindows (core s))).

(** Lengths and counters do not depend on the types of the instructions. *)
Lemma ranked_set_type N g i t : ranked N g -> ranked N (set_type g i t).
Proof. intros [[A1 A2 A3 A4] L]. split; [split|]; assumption. Qed.

Lemma read_inv E S hs (s s1 : Adv) instr es g' total :
  let n := instrCount (core s) in let g0 := base (core s1) in
  adv_inv z p W E S hs s -> fits p W total -> n < headInstr s -> n < total ->
  modelled z p W E s instr es s1 ->
  staged (rank W (C p) (lo_of W s) (Z.of_nat (List.length S))) n g0 es all_types g' ->
  adv_inv z p W (E ++ es) S hs (next_instr (at_stage s1 g'
    (schedule_insert (n, len_of g' (VertexKey g0 (exec_of n))) (scheduleOrder (core s1))))).
Proof using All.
  intros n g0 Hinv Hfit Hroom Htot M Hst.
  pose proof (md_steps _ _ _ _ _ _ _ _ M) as Hes. fold n in Hes.
  pose proof (md_base _ _ _ _ _ _ _ _ M) as Hb. fold n g0 in Hb.
  assert (Hn1 : instrCount (core s1) = n) by apply M.
  assert (Hc : 0 <= n < 2 ^ 62) by apply (ai_core _ _ _ _ _ _ _ Hinv).
  assert (Ht31 : total < 2 ^ 31).
  { unfold fits in Hfit. pose proof (adv_ok_window _ _ _ Hok). nia. }
  assert (Hn' : u64 (n + 1) = n + 1) by (apply u64_small; unfold u64_size; lia).
  assert (Hw0 : AnalysisWindow g0 = AnalysisWindow (base (core s))) by (by rewrite Hb).
  assert (Hl0 : length g0 = length (base (core s))) by (by rewrite Hb).
  pose proof (sg_config _ _ _ _ _ _ Hst) as Hcf.
  assert (Hw' : AnalysisWindow g' = AnalysisWindow (base (core s))) by (destruct Hcf as (-> & _); done).
  destruct (md_heads _ _ _ _ _ _ _ _ M) as (Hh1 & Hh2 & Hh3).
  destruct (md_maps _ _ _ _ _ _ _ _ M) as [Mc Mp].
  destruct (ai_room _ _ _ _ _ _ _ Hinv) as [Hr1 Hr2].
  assert (K : forall v, VertexKey g' v = VertexKey (base (core s)) v) by (intros; by apply grown_key).
  assert (Hlo : lo_of W s <= n).
  { pose proof (lo_head z p W Hok _ _ _ _ Hinv).
    pose proof (sc_heads _ _ _ _ _ _ (ai_sched _ _ _ _ _ _ _ Hinv)) as Hh. fold n in Hh. lia. }
  unfold lo_of in Hlo.
  split; unfold lo_of; cbn [next_instr at_stage with_order with_base set_core core set_counts instrCount headInstr
      headScheduledInstr set_schedule set_base alreadyScheduled graphChildren graphParents base
      scheduleOrder analyzedWindows scoreboard]; rewrite ?Hn1, ?Hn', ?Hh1, ?Hh2, ?Hh3.
  - destruct (ai_core _ _ _ _ _ _ _ Hinv) as [R1 R2 R3 R4 R5 R6 R7]. split; cbn.
    + unfold window in *. cbn. congruence.
    + rewrite (md_params _ _ _ _ _ _ _ _ M). exact R2.
    + rewrite (md_board _ _ _ _ _ _ _ _ M). exact R3.
    + rewrite ?Hn1, ?Hn'. lia.
    + rewrite ?Hn1, ?Hn'. apply M.
    + apply M.
    + apply M.
  - destruct (ai_config _ _ _ _ _ _ _ Hinv) as [[C1 C2] C3].
    assert (Hc0 : config_ok g0 /\ intAluTotalCycles g0 = 1) by (rewrite Hb; split; [split|]; done).
    destruct Hc0 as [Hc0 Hc1]. split; [by eapply same_config_ok|].
    destruct Hcf as (_ & _ & _ & _ & -> & _). exact Hc1.
  - rewrite (md_windows _ _ _ _ _ _ _ _ M). apply (ai_windows _ _ _ _ _ _ _ Hinv).
  - apply program_app; [lia|apply (ai_program _ _ _ _ _ _ _ Hinv)|exact Hes|apply M].
  - lia.
  - apply (ai_head _ _ _ _ _ _ _ Hinv).
  - intros v Hv Hns. rewrite K, Mc, (read_out z p W Hok E S hs s Hinv Hroom es Hes), prog_out_app
      by (unfold lo_of; lia). f_equal.
    destruct (decide (instrNum v < n)).
    + apply (ai_live _ _ _ _ _ _ _ Hinv); [unfold lo_of; fold n; lia|exact Hns].
    + rewrite (program_out_old _ _ n v (ai_program _ _ _ _ _ _ _ Hinv)) by lia.
      apply (ai_fresh _ _ _ _ _ _ _ Hinv). fold n. lia.
  - intros v Hv. rewrite K, Mc, Mp, (read_in z p W Hok E S hs s Hinv Hroom es Hes),
      (read_out z p W Hok E S hs s Hinv Hroom es Hes) by (unfold lo_of; fold n; lia).
    destruct (ai_fresh _ _ _ _ _ _ _ Hinv v) as [-> ->]; [fold n; lia|].
    split; [|done]. apply (step_out_none (W / 2) n); [exact Hes|lia].
  - intros k e. rewrite Mc. intros [He|He]%elem_of_app; [by apply (ai_narrow _ _ _ _ _ _ _ Hinv) in He|].
    apply list_elem_of_fmap in He as (pe & -> & [_ Hpe]%list_elem_of_filter). rewrite Forall_forall in Hes.
    destruct (se_weight _ _ _ (Hes pe Hpe)) as (w & Hw & _). by exists w.
  - apply (read_tight z p W Hok E S hs s Hinv total Hfit Hroom Htot es Hes g0 g' Hw0 Hl0 Hst).
  - apply (sg_ranked _ _ _ _ _ _ Hst).
  - rewrite (md_sched _ _ _ _ _ _ _ _ M).
    apply (read_order z p W Hok E S hs s Hinv total Hfit Hroom Htot es Hes g0 g' Hw0 Hl0 Hst).
  - apply (scheduled_app (W / 2)); [apply (ai_program _ _ _ _ _ _ _ Hinv)|exact Hes|].
    apply (ai_sched _ _ _ _ _ _ _ Hinv).
  - rewrite (md_board _ _ _ _ _ _ _ _ M). apply (ai_logged _ _ _ _ _ _ _ Hinv).
  - intros i Hi. destruct (decide (i < n)).
    + apply (in_program_order_mono _ _ E); [set_solver|]. apply (ai_order_edges _ _ _ _ _ _ _ Hinv). fold n. lia.
    + replace i with n by lia. apply (in_program_order_mono _ _ es); [set_solver|].
      apply (md_order _ _ _ _ _ _ _ _ M).
Qed.

Lemma read_instr_ok E S hs (s : Adv) instr total :
  adv_inv z p W E S hs s -> fits p W total ->
  instrCount (core s) < headInstr s -> instrCount (core s) < total ->
  instr_ok instr ->
  exists es s1 s2, model s instr = Ok s1 /\ calculateInstructionCriticalPath s1 = Ok s2 /\
    adv_inv z p W (E ++ es) S hs (next_instr s2) /\
    instrCount (core (next_instr s2)) = instrCount (core s) + 1 /\
    headInstr s2 = headInstr s /\ headScheduledInstr s2 = headScheduledInstr s.
Proof using All.
  intros Hinv Hfit Hroom Htot Hi. set (n := instrCount (core s)) in *. set (g := base (core s)) in *.
  destruct (model_adv z p W Hok s E instr (ai_core _ _ _ _ _ _ _ Hinv) Hi) as (es & s1 & E1 & M).
  pose proof (md_steps _ _ _ _ _ _ _ _ M) as Hes. fold n in Hes.
  pose proof (md_base _ _ _ _ _ _ _ _ M) as Hb. fold g n in Hb. set (g0 := set_type g n (i_executionType instr)) in *.
  set (lo := lo_of W s). set (N := rank W (C p) lo (Z.of_nat (List.length S))).
  destruct (ai_config _ _ _ _ _ _ _ Hinv) as [Hcfg Halu].
  assert (Hrise : forall pe, pe ∈ es -> exists x, rising N g0 pe.1 pe.2 x).
  { intros pe Hpe. eapply (read_rise z p W Hok E S hs s Hinv total Hfit Hroom Htot es Hes); [by right|done]. }
  assert (Hpar : forall pe t, pe ∈ es -> VertexKey g0 pe.1 = VertexKey g0 (mkVertex t n) -> pe.1 = mkVertex t n).
  { intros pe t Hpe Ek. pose proof (read_parent z p W Hok E S hs s Hinv es Hes pe Hpe) as Hp.
    destruct (read_window z p W Hok E S hs s Hinv) as [Hw|Hw]; fold n g lo in Hw, Hp;
      (apply (read_key z p W Hok E S hs s Hinv); fold lo; cbn; [lia|lia|exact Ek]). }
  destruct (calculate_ok N (W / 2) n g0 es Hes Hrise Hpar s1) as (g' & E2 & Hst).
  - rewrite (md_count _ _ _ _ _ _ _ _ M). done.
  - exact Hb.
  - destruct Hcfg. by split.
  - by apply ranked_set_type, (ai_rank _ _ _ _ _ _ _ Hinv).
  - intros t. destruct (md_maps _ _ _ _ _ _ _ _ M) as [_ Mp].
    change (VertexKey g0 (mkVertex t n)) with (VertexKey g (mkVertex t n)). rewrite Mp. fold g.
    destruct (ai_fresh _ _ _ _ _ _ _ Hinv (mkVertex t n)) as [_ Hf]; [cbn; fold n; lia|].
    fold g in Hf. rewrite Hf. reflexivity.
  - exists es, s1. eexists. split; [exact E1|]. split; [exact E2|]. clear E1 E2.
    assert (Hn1 : instrCount (core s1) = n) by apply M.
    assert (Hn' : u64 (n + 1) = n + 1).
    { apply u64_small. unfold u64_size. pose proof (rc_count _ _ _ _ _ (ai_core _ _ _ _ _ _ _ Hinv)).
      fold n in H. lia. }
    destruct (md_heads _ _ _ _ _ _ _ _ M) as (Hh1 & Hh2 & Hh3).
    split; [|split; [|done]].
    + change (VertexKey g0) with (VertexKey (set_type g n (i_executionType instr))) in *.
      fold g0. rewrite <- Hb. rewrite <- Hb in Hst.
      apply (read_inv E S hs s s1 instr es g' total); try assumption.
    + cbn. rewrite Hn1. exact Hn'.
Qed.
End ReadStep.
