(* ===== verification/CalipersAdvancedSchedule.v ===== *)
(** * Scheduling an instruction in the sliding-window core

    When an instruction is scheduled, what its execution leads to is not scheduled
    yet, so only the program's edges lie ahead, all up the ranks: [updateCriticalPath]
    returns, and every program edge of the window is relaxed again.  The requests of
    the instruction are answered with instructions of the window scheduled before. *)

From S2P Require Import Prelude Machine CalipersCache CalipersFacts CalipersCycles CalipersPaths.
From S2P Require Import CalipersScoreboard CalipersScoreFacts CalipersO3 CalipersO3Facts.
From S2P Require Import CalipersO3Steps CalipersO3Window CalipersO3Run CalipersReport.
From S2P Require Import CalipersAdvanced CalipersWorklist CalipersAdvancedEdges CalipersAdvancedInv.
From S2P Require Import CalipersO3Trace.

#[local] Open Scope list_scope.
#[local] Open Scope Z_scope.

Import CalG CalS CalO CalA.

(** ** The edges given to [updateCriticalPath] *)

Lemma relax_parents_ok N g0 v es g c (ch : bool) :
  config_ok g0 -> same_config g0 g -> ranked N g ->
  Forall (fun pe => child pe.2 = v /\ exists x, rising N g0 pe.1 pe.2 x) es ->
  exists g' ch', res_fold (relax_parent true) (g, c, ch) es =
      Ok (g', match es with [] => c | _ => Some v end, ch') /\
    same_config g0 g' /\ ranked N g' /\ grown_from g g' /\
    (forall k, k <> VertexKey g0 v -> len_of g' k = len_of g k) /\
    (ch' = false -> ch = false /\ forall k, len_of g' k = len_of g k) /\
    (forall pe, pe ∈ es ->
       len_of g (VertexKey g0 pe.1) + lane (weight pe.2) <= len_of g' (VertexKey g0 v)).
Proof.
  intros Hc. revert g c ch. induction es as [|pe es IH]; intros g c ch Hs Hr Hf.
  - exists g, ch. split; [reflexivity|]. split; [done|]. split; [done|].
    split; [split; [done|intros; lia]|]. split; [done|]. split; [done|].
    intros pe Hpe. by apply not_elem_of_nil in Hpe.
  - apply Forall_cons in Hf as [(Hv & x & Hx) Hf].
    destruct (relax_ranked N g pe.1 pe.2 x) as (g1 & E1 & S1 & R1 & L1);
      [by eapply same_config_ok|done|by eapply rising_config|]. rewrite Hv in L1.
    assert (Kv : VertexKey g v = VertexKey g0 v) by (by apply same_config_key).
    assert (HG : grown_from g g1).
    { split; [apply S1|]. intros k. rewrite L1. case_decide; [subst k|]; lia. }
    destruct (IH g1 (Some v) (ch || negb (len_of g (VertexKey g v) =? len_of g1 (VertexKey g v))))
      as (g2 & ch2 & E2 & S2 & R2 & G2 & O2 & C2 & T2); [by eapply same_config_trans|done|done|].
    exists g2, ch2. split; [|split; [done|split; [done|split; [by eapply grown_from_trans|split; [|split]]]]].
    + cbn [res_fold relax_parent dereference]. rewrite res_bind_ok, Hv.
      rewrite (one_lane_get _ _ (ranked_one_lane _ _ Hr)), res_bind_ok, E1, res_bind_ok,
        (one_lane_get _ _ (ranked_one_lane _ _ R1)), !res_bind_ok, E2. by destruct es.
    + intros k Hk. rewrite O2, L1, decide_False by (rewrite ?Kv; done). done.
    + intros H. destruct (C2 H) as [H1 H2]. apply orb_false_iff in H1 as [H1 H3].
      apply negb_false_iff, Z.eqb_eq in H3. split; [done|]. intros k. rewrite H2.
      destruct (decide (k = VertexKey g v)) as [->|Hk]; [done|]. by rewrite L1, decide_False.
    + intros pe' [->|Hpe']%elem_of_cons.
      * pose proof (proj2 G2 (VertexKey g0 v)) as Hv2. rewrite <- Kv in Hv2 |- *.
        assert (Kp : VertexKey g pe.1 = VertexKey g0 pe.1) by (by apply same_config_key).
        rewrite L1, decide_True, Kp in Hv2 by done.
        destruct Hx as [(Hw & _) _ _ _]. rewrite Hw. cbn [lane hd]. lia.
      * specialize (T2 pe' Hpe'). rewrite L1, decide_False in T2; [exact T2|].
        rewrite Forall_forall in Hf. destruct (Hf pe' Hpe') as (Hv' & y & [_ _ Hrk _]). rewrite Hv' in Hrk.
        rewrite Kv. intros Ek. rewrite Ek in Hrk. lia.
Qed.

(** ** What lies ahead of the instruction *)

(** Enough visits for any worklist: what all lengths can grow by. *)
Definition fuel_for (W : Z) : Z := 1 + 5 * W * INT64_MAX.

Lemma sum_z_const {A} (l : list A) c : sum_z ((fun _ => c) <$> l) = Z.of_nat (List.length l) * c.
Proof. induction l as [|x l IH]; cbn [List.length]; [done|]. cbn. unfold sum_z, fmap in *. lia. Qed.
Lemma length_all_keys W : 0 <= W -> Z.of_nat (List.length (all_keys W)) = 5 * W.
Proof.
  intros HW. unfold all_keys.
  assert (H : forall l, Z.of_nat (List.length (t ← l; (fun j : Z => (t, j) : key) <$> seqZ 0 W)) =
    Z.of_nat (List.length l) * W).
  { induction l as [|t l IH]; [done|]. rewrite bind_cons, length_app, length_fmap, length_seqZ.
    cbn [List.length]. lia. }
  rewrite H, length_seqZ. lia.
Qed.

Section Phase.
Context {CI CD BP : Type} `{!Cache CI} `{!Cache CD} `{!CacheLaws CI} `{!CacheLaws CD}.
Context `{!BranchPredictor BP}.
Notation Adv := (@O3CoreGraphAdvanced CI CD BP).
Context (z : Sizes) (p : Params) (W : Z) (Hok : adv_ok z p W).
Context (E : list Edge) (S : list Z) (hs : History) (s : Adv) (Hinv : adv_inv z p W E S hs s).
Context (curr : Z) (Hcurr : 0 <= curr < instrCount (core s)) (Hnew : curr ∉ S).
Notation n := (instrCount (core s)).
Notation lo := (lo_of W s).
Notation g0 := (base (core s)).

Definition ahead (v : Vertex) : Prop := reaches E (exec_of curr) v \/ reaches E (mem_of curr) v.
Definition ahead_key (k : key) : Prop := exists v, ahead v /\ k = VertexKey g0 v.

Lemma phase_window : 0 < W /\ AnalysisWindow g0 = W /\ 0 <= lo /\ headInstr s = lo + W /\
  lo <= curr /\ n <= lo + W.
Proof using Hinv Hok Hcurr Hnew.
  pose proof (window_pos z p W Hok). pose proof (rc_window _ _ _ _ _ (ai_core _ _ _ _ _ _ _ Hinv)) as Hw.
  pose proof (lo_head z p W Hok _ _ _ _ Hinv) as (H1 & H2 & _).
  pose proof (ai_room _ _ _ _ _ _ _ Hinv). unfold window in Hw.
  assert (headInstr s = lo + W) by (unfold lo_of; lia).
  split_and!; try lia. destruct (decide (curr < headScheduledInstr s)); [|lia].
  destruct Hnew. apply (sc_prefix _ _ _ _ _ _ (ai_sched _ _ _ _ _ _ _ Hinv)). lia.
Qed.

Lemma ahead_before v : ahead v -> v = exec_of curr \/ before (exec_of curr) v.
Proof using Hinv.
  intros [H|H]; apply (reaches_cases _ _ _ (ai_program _ _ _ _ _ _ _ Hinv)) in H as [<-|[H _]].
  - by left.
  - by right.
  - right. right. cbn. lia.
  - right. unfold before in *. cbn in *. lia.
Qed.

Lemma ahead_range v : ahead v -> curr <= instrNum v < n.
Proof using Hinv Hcurr.
  intros Hv. split.
  - destruct (ahead_before v Hv) as [->|H]; [done|]. unfold before in H. cbn in H. lia.
  - destruct Hv as [H|H]; apply (reaches_cases _ _ _ (ai_program _ _ _ _ _ _ _ Hinv)) in H as [<-|[_ H]];
      cbn; done || lia.
Qed.

Lemma ahead_linked u v : ahead u -> linked E u v -> ahead v.
Proof using. intros [H|H] Hl; [left|right]; by eapply rtc_r. Qed.

Lemma ahead_unscheduled v :
  ahead v -> ~ (instrNum v ∈ S /\ (type v = InstrExecute \/ type v = MemExecute)).
Proof using Hinv Hcurr Hnew.
  pose proof (ai_program _ _ _ _ _ _ _ Hinv) as HP.
  pose proof (sc_paths _ _ _ _ _ _ (ai_sched _ _ _ _ _ _ _ Hinv) curr) as Hpath.
  assert (Hno : forall y, y ∈ S -> ~ reaches E (exec_of curr) (exec_of y)).
  { intros y Hy. apply Hpath; [lia|exact Hnew|exact Hy]. }
  intros Ha [HS Ht]. destruct v as [t y]. cbn in HS, Ht.
  assert (Hex : forall y, y ∈ S -> ~ ahead (exec_of y)).
  { intros y' Hy' [H|H]; [exact (Hno y' Hy' H)|].
    apply (reaches_from_mem _ _ _ HP) in H as [[=]|H]. exact (Hno y' Hy' H). }
  destruct Ht as [->| ->]; [by apply (Hex y)|].
  assert (Hy : y <> curr) by (intros ->; done).
  destruct Ha as [H|H]; apply (reaches_mem _ _ _ HP) in H as [H|H].
  - discriminate.
  - apply (Hex y HS). by left.
  - injection H as H. done.
  - apply (Hex y HS). by right.
Qed.

(** An execution that the edges lead to is still to be scheduled. *)
Lemma ahead_exec u y : ahead u -> linked E u (exec_of y) -> 0 <= y < n /\ y ∉ curr :: S.
Proof using Hinv Hcurr Hnew.
  intros Hu Hl. pose proof (ahead_linked _ _ Hu Hl) as Hy. pose proof (ahead_range _ Hy) as Hr. cbn in Hr.
  split; [lia|]. rewrite not_elem_of_cons. split.
  - intros ->. destruct (linked_program _ _ _ (ai_program _ _ _ _ _ _ _ Hinv) _ _ Hl) as (Hb & _).
    destruct (ahead_before u Hu) as [->|H]; unfold before in *; cbn in *; lia.
  - intros HS. apply (ahead_unscheduled _ Hy). cbn. auto.
Qed.

Lemma ahead_key_inj u v : lo <= instrNum u < n -> ahead v -> VertexKey g0 u = VertexKey g0 v -> u = v.
Proof using Hinv Hok Hcurr Hnew.
  intros Hu Hv. pose proof (ahead_range _ Hv). destruct phase_window as (HW & HA & _ & _ & ? & ?).
  apply (vertex_key_inj W HW g0 lo); [done|lia..].
Qed.

(** The ranks while [curr] is scheduled: those of scheduled instructions stay. *)
Definition phase_rank (k : key) : Z :=
  let m := Z.of_nat (List.length S) in
  rank W (C p) lo (if decide ((k.1 = 2 \/ k.1 = 3) /\ occupant W lo k.2 ∈ S) then m else m + 1) k.

Lemma phase_rank_le k :
  rank W (C p) lo (Z.of_nat (List.length S)) k <= phase_rank k <=
  rank W (C p) lo (Z.of_nat (List.length (curr :: S))) k.
Proof using Hok.
  pose proof (window_pos z p W Hok) as HW. pose proof (C_pos z p W Hok).
  unfold phase_rank. cbn [List.length]. rewrite Nat2Z.inj_succ.
  case_decide; split; apply (rank_mono W HW); lia.
Qed.

Lemma phase_rank_ahead v :
  ahead v -> phase_rank (VertexKey g0 v) =
    5 * instrNum v + vt_num (type v) + C p * (Z.of_nat (List.length S) + 1).
Proof using Hinv Hok Hcurr Hnew.
  intros Hv. destruct phase_window as (HW & HA & _ & _ & ? & ?). pose proof (ahead_range _ Hv).
  unfold phase_rank. rewrite decide_False; [apply (rank_vertex W HW); [done|lia]|].
  unfold VertexKey. cbn. rewrite HA, (occupant_live W HW) by lia. intros [Ht HS].
  apply (ahead_unscheduled v Hv). split; [done|]. destruct (type v); cbn in Ht; auto; lia.
Qed.

Lemma phase_rank_old t i :
  i ∈ S -> lo <= i -> t = InstrExecute \/ t = MemExecute ->
  phase_rank (VertexKey g0 (mkVertex t i)) = 5 * i + vt_num t + C p * Z.of_nat (List.length S).
Proof using Hinv Hok Hcurr Hnew.
  intros HS Hi Ht. destruct phase_window as (HW & HA & _ & _ & ? & ?).
  pose proof (sc_range _ _ _ _ _ _ (ai_sched _ _ _ _ _ _ _ Hinv) i HS).
  unfold phase_rank. rewrite decide_True.
  - apply (rank_vertex W HW g0 _ lo _ (mkVertex t i)); [done|cbn; lia].
  - unfold VertexKey. cbn. rewrite HA, (occupant_live W HW) by lia. split; [|done].
    destruct Ht as [->| ->]; cbn; lia.
Qed.

(** The instructions still to be scheduled after [curr]. *)
Definition remaining (i : Z) : Prop := 0 <= i < n /\ i ∉ curr :: S.

Lemma remaining_live i : remaining i -> lo <= i < n.
Proof using Hinv Hok Hcurr Hnew.
  intros [Hi HS]. split; [|lia]. rewrite not_elem_of_cons in HS.
  pose proof (lo_head z p W Hok _ _ _ _ Hinv) as (_ & H2 & _).
  destruct (decide (i < headScheduledInstr s)); [|lia]. destruct HS as [_ []].
  apply (sc_prefix _ _ _ _ _ _ (ai_sched _ _ _ _ _ _ _ Hinv)). lia.
Qed.

(** What holds between the steps of scheduling [curr]: [g] are the critical paths, [o]
    the schedule, [ch] the edges. *)
Record phase (ch : adjacency) (g : Graph) (o : list (Z * Z)) : Prop := {
  ph_config : same_config g0 g;
  ph_children : forall v, ahead v -> edge_at ch (VertexKey g0 v) = prog_out E v;
  ph_narrow : narrow ch;
  ph_ranked : ranked phase_rank g;
  ph_order : order_ok remaining g o;
  ph_tight : rel_edges lo E g
}.

Context (total : Z) (Hfit : fits p W total) (Htotal : n <= total).

Lemma phase_bound k : 2 ^ 32 * phase_rank k <= INT64_MAX.
Proof using Hinv Hok Hcurr Hnew Hfit Htotal.
  pose proof (phase_rank_le k) as [_ H].
  destruct (rank_fits z p W Hok total lo (Z.of_nat (List.length (curr :: S))) k Hfit) as (_ & H1 & _).
  - assert (Hs : (curr :: S) ⊆ seqZ 0 n).
    { intros i [->|Hi]%elem_of_cons; apply elem_of_seqZ; [lia|].
      apply (sc_range _ _ _ _ _ _ (ai_sched _ _ _ _ _ _ _ Hinv)) in Hi. lia. }
    apply NoDup_submseteq in Hs; [|apply NoDup_cons; split; [done|apply (ai_sched _ _ _ _ _ _ _ Hinv)]].
    apply submseteq_length in Hs. rewrite length_seqZ in Hs. lia.
  - destruct phase_window as (_ & _ & ? & _ & ? & _). lia.
  - unfold INT64_MAX in *. lia.
Qed.

Lemma phase_rising ch g o v e x :
  phase ch g o -> ahead v -> (v, e) ∈ E -> weight e = [x] -> rising phase_rank g v e x.
Proof using Hinv Hok Hcurr Hnew Hfit Htotal.
  intros HP Hv He Hx. assert (Hl : linked E v (child e)) by (by exists (v, e)).
  pose proof (ahead_linked _ _ Hv Hl) as Hc.
  destruct (pg_steps _ _ _ (ai_program _ _ _ _ _ _ _ Hinv) _ He) as (m & _ & [S1 _ S3 (y & Hy & Hy0 & Hy1) _]).
  cbn in *. assert (y = x) as -> by congruence.
  destruct (ai_config _ _ _ _ _ _ _ Hinv) as [_ Ha].
  apply (rising_config _ g0); [apply (ph_config _ _ _ HP)|]. split.
  - split; [done|]. split; [unfold INT64_MAX; lia|]. by rewrite Ha.
  - lia.
  - rewrite !phase_rank_ahead by done. unfold before in S3.
    assert (vt_num (type v) <= 4) by (destruct (type v); cbn; lia).
    assert (0 <= vt_num (type (child e))) by (destruct (type (child e)); cbn; lia). lia.
  - apply phase_bound.
Qed.

Lemma phase_region ch g o : phase ch g o -> region ch phase_rank ahead_key remaining g.
Proof using Hinv Hok Hcurr Hnew Hfit Htotal.
  intros HP. pose proof (ph_config _ _ _ HP) as Hc.
  assert (K : forall v, VertexKey g v = VertexKey g0 v) by (intros; by apply same_config_key).
  assert (HA : AnalysisWindow g = W) by (destruct Hc as (-> & _); apply phase_window).
  destruct phase_window as (HW & _ & _ & _ & _ & Hn).
  split.
  - eapply same_config_ok; [exact Hc|apply (ai_config _ _ _ _ _ _ _ Hinv)].
  - intros v e. rewrite !K. intros (v' & Hv' & Ek) He. rewrite Ek, (ph_children _ _ _ HP v' Hv') in He.
    apply prog_out_elem in He. assert (Hl : linked E v' (child e)) by (by exists (v', e)).
    destruct (pg_steps _ _ _ (ai_program _ _ _ _ _ _ _ Hinv) _ He) as (m & _ & [_ _ _ (x & Hx & _) _]).
    split; [exists (child e); split; [by eapply ahead_linked|done]|]. split.
    + exists x. destruct (phase_rising ch g o v' e x HP Hv' He Hx) as [(R1 & R2 & R3) R4 R5 R6].
      rewrite !K in *. split; rewrite ?K, ?Ek; try done. split; [done|]. split; [done|].
      replace (type v) with (type v'); [done|].
      unfold VertexKey in Ek. injection Ek as Ek _. by destruct (type v), (type v').
    + intros Ht. apply (ahead_exec v'); [done|]. destruct (child e) as [t i] eqn:Ec. cbn in *. by subst t.
  - rewrite HA. intros i j Hi%remaining_live Hj%remaining_live. apply (mod_live W HW lo); lia.
  - lia.
Qed.

(** The schedule is not affected by the lengths of [curr] itself. *)
Lemma phase_order_other g1 g2 o v :
  same_config g0 g1 -> same_config g0 g2 -> v = exec_of curr \/ v = mem_of curr ->
  (forall k, k <> VertexKey g0 v -> len_of g2 k = len_of g1 k) ->
  order_ok remaining g1 o -> order_ok remaining g2 o.
Proof using Hinv Hok Hcurr Hnew.
  intros H1 H2 Hv HL. apply order_ok_same; [destruct H1 as (-> & _), H2 as (-> & _); done|].
  intros i Hi. rewrite (same_config_key g0 g1) by done. apply HL. intros Ek.
  pose proof (remaining_live i Hi). assert (ahead v) by (destruct Hv as [->| ->]; [left|right]; constructor).
  apply ahead_key_inj in Ek; [|cbn; lia|done]. destruct Hi as [_ Hi]. rewrite not_elem_of_cons in Hi.
  destruct Hv as [->| ->]; [injection Ek as ->; tauto|discriminate].
Qed.

(** *** The worklist *)

Lemma phase_effort g o v :
  AnalysisWindow g = W -> ranked phase_rank g ->
  effort phase_rank (mkWork g o [v]) <= fuel_for W.
Proof using Hinv Hok Hcurr Hnew Hfit Htotal.
  intros HA Hr. unfold effort, slack, fuel_for. cbn [w_list w_base List.length]. rewrite HA.
  enough (sum_z ((fun k => 2 ^ 32 * phase_rank k - len_of g k) <$> all_keys W) <= 5 * W * INT64_MAX) by lia.
  transitivity (sum_z ((fun _ => INT64_MAX) <$> all_keys W)).
  - apply sum_z_le. intros k _. pose proof (phase_bound k). pose proof (ranked_nonneg _ _ k Hr). lia.
  - rewrite sum_z_const, length_all_keys; [lia|]. destruct phase_window. lia.
Qed.

(** After the edges into [v] and the worklist, the phase goes on. *)
Lemma phase_loop ch g g1 o v fuel :
  phase ch g o -> v = exec_of curr \/ v = mem_of curr ->
  same_config g0 g1 -> ranked phase_rank g1 -> grown_from g g1 ->
  (forall k, k <> VertexKey g0 v -> len_of g1 k = len_of g k) -> fuel_for W <= Z.of_nat fuel ->
  exists w, update_loop fuel ch (mkWork g1 o [v]) = Ok w /\ phase ch (w_base w) (w_order w).
Proof using Hinv Hok Hcurr Hnew Hfit Htotal.
  intros HP Hv Hs Hr Hg HL Hf. pose proof HP as [P1 P2 P3 P4 P5 P6].
  assert (Hav : ahead v) by (destruct Hv as [->| ->]; [left|right]; constructor).
  assert (HA : AnalysisWindow g1 = W) by (destruct Hs as (-> & _); apply phase_window).
  assert (K : forall u, VertexKey g u = VertexKey g0 u) by (intros; by apply same_config_key).
  assert (K1 : forall u, VertexKey g1 u = VertexKey g0 u) by (intros; by apply same_config_key).
  assert (Ho1 : order_ok remaining g1 o) by (by apply (phase_order_other g g1 o v)).
  assert (HR : region ch phase_rank ahead_key remaining g1).
  { eapply region_config; [|by apply (phase_region ch g o)].
    unfold same_config in *. destruct P1 as (? & ? & ? & ? & ? & ?), Hs as (? & ? & ? & ? & ? & ?). split_and!; congruence. }
  destruct (update_loop_good ch phase_rank ahead_key remaining g1 fuel (mkWork g1 o [v]) HR) as (w & Ew & Gw & _).
  { split; cbn [w_base w_order w_list]; [done|exact Hr|exact Ho1| |split; [done|intros; lia]|done].
    apply Forall_singleton. exists v. by rewrite K1. }
  { etransitivity; [by apply phase_effort|exact Hf]. }
  destruct Gw as [Wc Wr Wo _ Wg Wout].
  destruct (update_loop_settles ch P3 ahead_key fuel (mkWork g1 o [v]) w) as (_ & Hset & _); [|exact Ew|].
  { split; [exact (ranked_one_lane _ _ Hr)|]. cbn [w_base w_list]. intros k (u & Hu & ->) Hk e He.
    assert (Hne : VertexKey g0 u <> VertexKey g0 v).
    { intros Ek. apply Hk. rewrite Ek. cbn. rewrite K1. by left. }
    rewrite (P2 u Hu) in He. apply prog_out_elem in He. right. rewrite K1, (HL _ Hne).
    pose proof (P6 _ He) as Ht. cbn [fst snd] in Ht. rewrite !K in Ht.
    pose proof (proj2 Hg (VertexKey g0 (child e))). pose proof (ahead_range u Hu).
    destruct phase_window as (_ & _ & _ & _ & ? & _). specialize (Ht ltac:(lia)). lia. }
  exists w. split; [exact Ew|]. clear Ew.
  assert (Hsw : same_config g0 (w_base w)) by exact (same_config_trans _ _ _ Hs Wc).
  assert (Kw : forall u, VertexKey (w_base w) u = VertexKey g0 u) by (intros; by apply same_config_key).
  split; try assumption. intros pe Hpe Hlo. rewrite !Kw.
  destruct (pg_steps _ _ _ (ai_program _ _ _ _ _ _ _ Hinv) pe Hpe) as (m & Hm & [S1 _ S3 (x & Hx & Hx0 & _) _]).
  rewrite Hx. cbn [lane hd].
  destruct (decide (len_of (w_base w) (VertexKey g0 pe.1) + x <= len_of (w_base w) (VertexKey g0 (child pe.2))))
    as [|Hbad]; [done|]. exfalso.
  assert (Hnot : ~ ahead_key (VertexKey g0 pe.1)).
  { intros (u & Hu & Ek). unfold before in S3. apply ahead_key_inj in Ek; [|lia|done]. subst u.
    destruct (Hset (VertexKey g0 pe.1)) with (e := pe.2) as [Hm'|Hle].
    - by exists pe.1.
    - rewrite (P2 _ Hu). apply prog_out_elem. by destruct pe.
    - rewrite Hx in Hm'. cbn in Hm'. unfold INT64_MAX in Hm'. lia.
    - rewrite Hx, Kw in Hle. cbn in Hle. lia. }
  rewrite (Wout _ Hnot), HL in Hbad; [|intros Ek; apply Hnot; rewrite Ek; by exists v].
  pose proof (P6 pe Hpe Hlo) as Ht. rewrite Hx, !K in Ht. cbn in Ht.
  pose proof (proj2 Hg (VertexKey g0 (child pe.2))). pose proof (proj2 Wg (VertexKey g0 (child pe.2))). lia.
Qed.

Lemma update_phase (s' : Adv) es v fuel :
  phase (graphChildren s') (base (core s')) (scheduleOrder (core s')) ->
  v = exec_of curr \/ v = mem_of curr ->
  Forall (fun pe => child pe.2 = v /\ exists x, rising phase_rank g0 pe.1 pe.2 x) es ->
  fuel_for W <= Z.of_nat fuel ->
  exists g' o', updateCriticalPath true fuel s' es = Ok (at_stage s' g' o') /\
    phase (graphChildren s') g' o'.
Proof using Hinv Hok Hcurr Hnew Hfit Htotal.
  intros HP Hv Hes Hf. set (g := base (core s')) in *. set (o := scheduleOrder (core s')) in *.
  pose proof HP as [P1 P2 P3 P4 P5 P6].
  assert (Hback : forall g1, with_base s' g1 = at_stage s' g1 o).
  { intros g1. unfold at_stage, with_order, with_base, set_core, o. destruct s' as [c]. by destruct c. }
  destruct es as [|pe0 es]; [exists g, o; split; [rewrite <- Hback; reflexivity|exact HP]|].
  destruct (relax_parents_ok phase_rank g0 v (pe0 :: es) g None false) as (g1 & ch1 & E1 & S1 & R1 & G1 & O1 & C1 & _);
    [apply (ai_config _ _ _ _ _ _ _ Hinv)|done..|].
  unfold updateCriticalPath. fold g. rewrite E1, res_bind_ok. clear E1.
  assert (Hsame : ch1 = false -> phase (graphChildren s') g1 o).
  { intros Hch. destruct (C1 Hch) as [_ Heq].
    assert (K : forall u, VertexKey g u = VertexKey g0 u) by (intros; by apply same_config_key).
    assert (K1 : forall u, VertexKey g1 u = VertexKey g0 u) by (intros; by apply same_config_key).
    split; try assumption.
    - apply (order_ok_same remaining g); [apply G1|intros; apply Heq|exact P5].
    - intros pe Hpe Hlo. rewrite !K1, !Heq, <- !K. by apply P6. }
  cbv zeta. destruct ch1.
  - destruct (phase_loop (graphChildren s') g g1 o v fuel HP Hv S1 R1 G1 O1 Hf) as (w & Ew & Pw).
    change (graphChildren (with_base s' g1)) with (graphChildren s').
    change (scheduleOrder (core (with_base s' g1))) with o.
    rewrite Ew, res_bind_ok. exists (w_base w), (w_order w). split; [reflexivity|exact Pw].
  - exists g1, o. rewrite Hback. split; [reflexivity|]. by apply Hsame.
Qed.
End Phase.

(** * Scheduling an instruction in the sliding-window core

    The requests of an instruction are answered with instructions scheduled before it
    that are still in the window; their edges are propagated; afterwards the
    invariant holds with one more instruction scheduled. *)

(** ** Requests *)

Section Serve.
Context {CI CD BP : Type} `{!Cache CI} `{!Cache CD} `{!BranchPredictor BP}.
Notation Adv := (@O3CoreGraphAdvanced CI CD BP).

Definition serve (s : Adv) (d : demand) : res (Adv * list Edge) :=
  match d_request d with
  | Unit o i => request_unit s o i (d_near d)
  | Entry q i l => request_entry s (d_type d) q i l (d_near d)
  end.

(** A request adds the edge its answer in the specification leads to. *)
Lemma serve_adv (s : Adv) h d :
  let sb := scoreboard (core s) in
  let es := demand_edges (instrBufferSize (params (core s))) d (spec_step sb h (d_request d)).1 in
  refines sb h -> request_ok sb (d_request d) ->
  (forall o i, d_request d = Unit o i -> d_type d = InstrExecute) ->
  exists sb', serve s d = Ok (addEdges (set_core s (set_scoreboard (core s) sb')) es, es) /\
    refines sb' (spec_step sb h (d_request d)).2 /\ same_setup sb sb'.
Proof.
  intros sb es HR Hok Ht.
  assert (exists s1, request_step sb (d_request d) = Ok ((spec_step sb h (d_request d)).1, s1) /\
    refines s1 (spec_step sb h (d_request d)).2 /\ same_setup sb s1)
    as (sb' & Eq & R & C)
    by (destruct (d_request d); [by apply unit_step_refines|by apply queue_step_refines]).
  exists sb'. split; [|split; [exact R|exact C]]. unfold serve, request_step in *.
  set (a := (spec_step _ _ _).1) in *.
  assert (Hedge : forall prev w sb1, (if prev =? UINT64_MAX then None else Some (prev, w)) = a ->
    sb1 = sb' ->
    waiting_edge (set_core s (set_scoreboard (core s) sb1)) (d_type d) (user (d_request d)) prev w (d_near d) =
      Ok (addEdges (set_core s (set_scoreboard (core s) sb')) es, es)).
  { intros prev w sb1 <- ->. unfold waiting_edge, es. cbn.
    destruct (prev =? UINT64_MAX); cbn [negb andb]; [done|]. unfold demand_edges.
    destruct (_ || _); [|done]. done. }
  destruct d as [[o i|q i l] t near]; cbn in *.
  - unfold request_unit. pose proof (Ht o i eq_refl) as ->. fold sb.
    destruct (scheduleResource sb o i) as [[[prev w] sb1]|]; [|done]. cbn [mbind res_bind] in Eq |- *.
    apply Ok_inj in Eq. injection Eq as Ea Esb. cbn in Ea. by apply Hedge.
  - unfold request_entry. fold sb.
    destruct (scheduleQueue sb q i l) as [[[prev w] sb1]|]; [|done]. cbn [mbind res_bind] in Eq |- *.
    apply Ok_inj in Eq. injection Eq as Ea Esb. cbn in Ea. by apply Hedge.
Qed.
End Serve.

Lemma unsigned_diff_near a b m :
  0 <= a < 2 ^ 63 -> 0 <= b < 2 ^ 63 -> unsigned_diff a b < m -> a < b + m /\ b < a + m.
Proof.
  intros Ha Hb. unfold unsigned_diff. destruct (Z.ltb_spec b a); rewrite u64_small by (unfold u64_size; lia); lia.
Qed.

Lemma history_ok_mono (P Q : Z -> Prop) b h : (forall i, P i -> Q i) -> history_ok P b h -> history_ok Q b h.
Proof.
  intros H [HU HE]. split; intros t; (eapply Forall_impl; [apply HU || apply HE|]); cbn; intros x [? ?]; auto.
Qed.

Lemma history_ok_setup P b b' h : same_setup b b' -> history_ok P b h -> history_ok P b' h.
Proof.
  intros HS [HU HE]. split; [|exact HE]. intros t. eapply Forall_impl; [apply HU|]. intros [i o] [Hi Ho].
  split; [done|]. cbn in *. unfold op_wait, spec_at in *. rewrite (ss_mixed _ _ HS), (ss_spec _ _ HS).
  destruct (mixedOperationResource b !! o); [done|]. pose proof (setup_resource _ _ o HS) as Es.
  injection Es as _ El Ep _. by rewrite El, Ep.
Qed.

(** The unit an operation is done on is not the issue slot. *)
Lemma operation_target z b t op lsq :
  set_up z b -> operation_of t = Some (op, lsq) -> target b op <> RscIssue.
Proof.
  intros Hb Ho. unfold target. rewrite (su_mixed z b Hb).
  destruct t; try discriminate Ho; injection Ho as <- <-; vm_compute; discriminate.
Qed.
Lemma lsq_queue t op q : operation_of t = Some (op, Some q) -> q = RscLQ \/ q = RscSQ.
Proof. intros Ho. destruct t; try discriminate Ho; injection Ho as <- <-; auto. Qed.

(** What was scheduled [j] instructions ago is still in the window. *)
Lemma recent_bound B E n h S A j prev :
  scheduled B E n h S A -> S !! j = Some prev -> 0 <= B -> h - B - 1 - Z.of_nat j <= prev.
Proof.
  intros HS Hj HB. destruct (decide (h <= prev + B + 1)); [lia|].
  assert (Hsub : seqZ (prev + B + 1) (h - (prev + B + 1)) ⊆ take j S).
  { intros i Hi%elem_of_seqZ. pose proof (sc_range _ _ _ _ _ _ HS prev) as Hp.
    assert (HiS : i ∈ S).
    { apply (sc_prefix _ _ _ _ _ _ HS). apply list_elem_of_lookup_2 in Hj. apply Hp in Hj. lia. }
    rewrite <- (take_drop_middle S j prev Hj) in HiS.
    apply elem_of_app in HiS as [|[->|HiS]%elem_of_cons]; [done|lia|].
    pose proof (sc_sorted _ _ _ _ _ _ HS) as Hso. rewrite <- (take_drop_middle S j prev Hj) in Hso.
    apply StronglySorted_app_1_r in Hso. apply StronglySorted_inv in Hso as [_ Hso].
    rewrite Forall_forall in Hso. apply Hso in HiS. lia. }
  apply NoDup_submseteq in Hsub; [|apply NoDup_seqZ]. apply submseteq_length in Hsub.
  rewrite length_seqZ, length_take in Hsub. lia.
Qed.

(** ** One instruction *)

Section Schedule.
Context {CI CD BP : Type} `{!Cache CI} `{!Cache CD} `{!CacheLaws CI} `{!CacheLaws CD}.
Context `{!BranchPredictor BP}.
Notation Adv := (@O3CoreGraphAdvanced CI CD BP).
Context (z : Sizes) (p : Params) (W : Z) (Hok : adv_ok z p W).
Context (E : list Edge) (S : list Z) (hs : History) (s : Adv) (Hinv : adv_inv z p W E S hs s).
Context (curr : Z) (Hcurr : 0 <= curr < instrCount (core s)) (Hnew : curr ∉ S).
Context (total : Z) (Hfit : fits p W total) (Htotal : instrCount (core s) <= total).
Notation n := (instrCount (core s)).
Notation lo := (lo_of W s).
Notation g0 := (base (core s)).
Notation h := (headScheduledInstr s).
Notation B := (instrBufferSize p).
Notation Ahead := (ahead E curr).
Notation Phase := (phase p W E S s curr).

(** The states between the steps. *)
Definition mid (sb : Scoreboard) (g : Graph) (o : list (Z * Z)) (ch : adjacency) (pa : ancestry)
    (A : list Z) (m : Z) : Adv :=
  mkAdvanced (set_schedule (set_base (set_scoreboard (core s) sb) g) o) ch pa (headInstr s)
    (headScheduledInstr s) A m.

(** An edge from a scheduled instruction of the window to [curr]. *)
Definition resource_step (pe : Edge) : Prop :=
  exists t prev w, (t = InstrExecute \/ t = MemExecute) /\ prev ∈ S /\ lo <= prev /\ 0 <= w < 2 ^ 32 /\
    pe = edge t prev t curr w.

Lemma head_curr : h <= curr.
Proof using Hinv Hcurr Hnew.
  destruct (decide (curr < h)); [|lia]. destruct Hnew.
  apply (sc_prefix _ _ _ _ _ _ (ai_sched _ _ _ _ _ _ _ Hinv)). lia.
Qed.

Lemma resource_rising pe :
  resource_step pe -> exists x, rising (phase_rank p W S s) g0 pe.1 pe.2 x.
Proof using Hinv Hok Hcurr Hnew Hfit Htotal.
  intros (t & prev & w & Ht & HS & Hlo & Hw & ->). exists w. cbn [fst snd edge child].
  pose proof (sc_range _ _ _ _ _ _ (ai_sched _ _ _ _ _ _ _ Hinv) prev HS) as [_ Hp].
  pose proof head_curr. pose proof (adv_ok_window _ _ _ Hok).
  split.
  - split; [done|]. split; [unfold INT64_MAX; lia|]. cbn. destruct Ht as [->| ->]; done.
  - lia.
  - cbn [child edge snd fst]. rewrite (phase_rank_old z p W Hok E S hs s Hinv curr Hcurr Hnew) by done.
    rewrite (phase_rank_ahead z p W Hok E S hs s Hinv curr Hcurr Hnew).
    + cbn [instrNum type]. unfold C. nia.
    + destruct Ht as [->| ->]; [left|right]; constructor.
  - apply (phase_bound z p W Hok E S hs s Hinv curr Hcurr Hnew total Hfit Htotal).
Qed.

(** Such edges leave the vertices of other instructions alone. *)
Lemma resource_out es v :
  Forall resource_step es -> lo <= instrNum v < headInstr s ->
  ~ (instrNum v ∈ S /\ (type v = InstrExecute \/ type v = MemExecute)) ->
  out_edges g0 es (VertexKey g0 v) = [].
Proof using Hinv Hok Hcurr Hnew.
  intros Hes Hv Hns. unfold out_edges. rewrite filter_nothing; [done|].
  eapply Forall_impl; [exact Hes|]. intros pe (t & prev & w & Ht & HS & Hlo & _ & ->) Ek. cbn in Ek.
  destruct (phase_window z p W Hok E S hs s Hinv curr Hcurr Hnew) as (HW & HA & _ & HH & _ & Hn).
  pose proof (sc_range _ _ _ _ _ _ (ai_sched _ _ _ _ _ _ _ Hinv) prev HS).
  apply (vertex_key_inj W HW g0 lo) in Ek; [|done|cbn; lia|lia]. subst v. apply Hns. cbn. tauto.
Qed.
Lemma resource_in es v :
  Forall resource_step es -> n <= instrNum v < headInstr s -> in_edges g0 es (VertexKey g0 v) = [].
Proof using Hinv Hok Hcurr Hnew.
  intros Hes Hv. unfold in_edges. rewrite filter_nothing; [done|].
  eapply Forall_impl; [exact Hes|]. intros pe (t & prev & w & Ht & HS & Hlo & _ & ->) Ek. cbn in Ek.
  destruct (phase_window z p W Hok E S hs s Hinv curr Hcurr Hnew) as (HW & HA & _ & HH & Hc & Hn).
  apply (vertex_key_inj W HW g0 lo) in Ek; [|done|cbn; lia|lia]. subst v. cbn in Hv. lia.
Qed.

(** The maps of edges during the scheduling. *)
Record maps_ok (ch : adjacency) (pa : ancestry) : Prop := {
  mo_live : forall v, lo <= instrNum v < headInstr s ->
    ~ (instrNum v ∈ S /\ (type v = InstrExecute \/ type v = MemExecute)) ->
    edge_at ch (VertexKey g0 v) = edge_at (graphChildren s) (VertexKey g0 v);
  mo_fresh : forall v, n <= instrNum v < headInstr s -> parents_at pa (VertexKey g0 v) = [];
  mo_narrow : narrow ch
}.

Lemma maps_ok_grown g ch ch' pa pa' es :
  AnalysisWindow g = AnalysisWindow g0 -> maps_ok ch pa -> Forall resource_step es ->
  maps_grown g ch ch' pa pa' es -> maps_ok ch' pa'.
Proof using Hinv Hok Hcurr Hnew.
  intros HA [M1 M2 M3] Hes [G1 G2].
  assert (Ho : forall k, out_edges g es k = out_edges g0 es k)
    by (intros; unfold out_edges, VertexKey; by rewrite HA).
  assert (Hi : forall k, in_edges g es k = in_edges g0 es k)
    by (intros; unfold in_edges, VertexKey; by rewrite HA).
  split.
  - intros v Hv Hns. by rewrite G1, Ho, (resource_out es v Hes Hv Hns), app_nil_r, M1.
  - intros v Hv. by rewrite G2, Hi, (resource_in es v Hes Hv), M2.
  - intros k e. rewrite G1. intros [He|He]%elem_of_app; [by apply M3 in He|].
    apply list_elem_of_fmap in He as (pe & -> & [_ Hpe]%list_elem_of_filter).
    rewrite Forall_forall in Hes. destruct (Hes pe Hpe) as (t & prev & w & _ & _ & _ & _ & ->). by exists w.
Qed.

(** With such edges the phase goes on. *)
Lemma phase_maps g o ch0 ch pa :
  maps_ok ch pa -> Phase ch0 g o -> Phase ch g o.
Proof using Hinv Hok Hcurr Hnew.
  intros HM [P1 P2 P3 P4 P5 P6]. split; try assumption; [|apply HM].
  intros v Hv. pose proof (ahead_range z p W E S hs s Hinv curr Hcurr v Hv).
  pose proof (ahead_unscheduled z p W E S hs s Hinv curr Hcurr Hnew v Hv) as Hns.
  destruct (phase_window z p W Hok E S hs s Hinv curr Hcurr Hnew) as (HW & HA & _ & HH & Hc & Hn).
  rewrite (mo_live _ _ HM v) by (done || lia). apply (ai_live _ _ _ _ _ _ _ Hinv); [lia|exact Hns].
Qed.

(** *** Answers *)

Lemma recent_live j prev :
  S !! j = Some prev -> 2 * (B + (Z.of_nat j + 1)) <= W -> lo <= prev.
Proof using Hinv Hok.
  intros Hj HB. pose proof (ai_sched _ _ _ _ _ _ _ Hinv) as HS. pose proof (adv_ok_window _ _ _ Hok).
  pose proof (recent_bound _ _ _ _ _ _ j prev HS Hj ltac:(lia)).
  apply list_elem_of_lookup_2 in Hj. apply (sc_range _ _ _ _ _ _ HS) in Hj.
  pose proof (lo_head z p W Hok _ _ _ _ Hinv) as (_ & _ & H3). apply half_le in HB. lia.
Qed.

Lemma near_live prev : prev ∈ S -> unsigned_diff curr prev < B -> lo <= prev.
Proof using Hinv Hok Hcurr Hnew.
  intros HS Hd. pose proof (ai_sched _ _ _ _ _ _ _ Hinv) as HSc.
  apply (sc_range _ _ _ _ _ _ HSc) in HS. pose proof (rc_count _ _ _ _ _ (ai_core _ _ _ _ _ _ _ Hinv)).
  apply unsigned_diff_near in Hd as [Hd _]; [|lia..]. pose proof head_curr. pose proof (adv_ok_window _ _ _ Hok).
  pose proof (lo_head z p W Hok _ _ _ _ Hinv) as (_ & _ & H3).
  assert (HB : 2 * B <= W) by lia. apply half_le in HB. lia.
Qed.

(** The edge of an answer. *)
Lemma answer_step d a :
  user (d_request d) = curr -> d_type d = InstrExecute \/ d_type d = MemExecute ->
  (forall prev w, a = Some (prev, w) -> prev ∈ S /\ 0 <= w < 2 ^ 32 /\ (d_near d = false -> lo <= prev)) ->
  Forall resource_step (demand_edges B d a) /\
  Forall (fun pe => child pe.2 = mkVertex (d_type d) curr) (demand_edges B d a).
Proof using Hinv Hok Hcurr Hnew.
  intros Hu Ht Ha. unfold demand_edges. destruct a as [[prev w]|]; [|done]. rewrite Hu.
  destruct (Ha prev w eq_refl) as (HS & Hw & Hf).
  destruct (negb (d_near d) || (unsigned_diff curr prev <? B)) eqn:Eb; [|done].
  split; apply Forall_singleton; [|done].
  exists (d_type d), prev, w. split; [done|]. split; [done|]. split; [|done].
  apply orb_true_iff in Eb as [Eb|Eb]; [apply Hf; by destruct (d_near d)|].
  apply Z.ltb_lt in Eb. by apply near_live.
Qed.

Lemma serve_mid sb g o ch pa A m hh d :
  maps_ok ch pa -> same_config g0 g -> refines sb hh -> same_setup (scoreboard (core s)) sb ->
  request_ok sb (d_request d) -> (forall o i, d_request d = Unit o i -> d_type d = InstrExecute) ->
  let es := demand_edges B d (spec_step (scoreboard (core s)) hh (d_request d)).1 in
  Forall resource_step es ->
  exists sb' ch' pa', serve (mid sb g o ch pa A m) d = Ok (mid sb' g o ch' pa' A m, es) /\
    maps_ok ch' pa' /\ refines sb' (spec_step (scoreboard (core s)) hh (d_request d)).2 /\
    same_setup (scoreboard (core s)) sb'.
Proof using Hinv Hok Hcurr Hnew.
  intros HM Hg HR HSu Hrq Ht es Hes.
  destruct (serve_adv (mid sb g o ch pa A m) hh d HR Hrq Ht) as (sb' & Es & R' & S').
  change (scoreboard (core (mid sb g o ch pa A m))) with sb in *.
  change (params (core (mid sb g o ch pa A m))) with (params (core s)) in Es.
  rewrite (rc_params _ _ _ _ _ (ai_core _ _ _ _ _ _ _ Hinv)) in Es.
  rewrite (setup_spec _ _ _ _ HSu) in Es, R'. fold es in Es.
  set (s1 := set_core (mid sb g o ch pa A m) _) in Es.
  destruct (addEdges_maps s1 es) as (ch' & pa' & Ea & MG). rewrite Ea in Es.
  exists sb', ch', pa'. split; [exact Es|]. split.
  - apply (maps_ok_grown g ch ch' pa pa' es); [apply Hg|done|done|exact MG].
  - split; [exact R'|]. by eapply same_setup_trans.
Qed.

Notation sb0 := (scoreboard (core s)).

(** Whom the requests wait for. *)
Lemma unit_answer hh op prev w :
  units hh (target sb0 op) = units hs (target sb0 op) ->
  (spec_step sb0 hh (Unit op curr)).1 = Some (prev, w) ->
  exists o, units hs (target sb0 op) !! (Z.to_nat (getResourceCount sb0 (target sb0 op)) - 1)%nat = Some (prev, o) /\
    prev ∈ S /\ 0 <= w < 2 ^ 32.
Proof using Hinv.
  intros Hu. cbn. rewrite Hu. destruct (units hs _ !! _) as [[i o]|] eqn:El; [|done]. intros [= <- <-].
  exists o. split; [done|]. destruct (lg_history _ _ _ (ai_logged _ _ _ _ _ _ _ Hinv)) as [HU _].
  apply (Forall_lookup_1 _ _ _ _ (HU _) El).
Qed.
Lemma entry_answer hh q lat prev w :
  entries hh q = entries hs q ->
  (spec_step sb0 hh (Entry q curr lat)).1 = Some (prev, w) ->
  entries hs q !! (Z.to_nat (getQueueSize sb0 q) - 1)%nat = Some (prev, w) /\ prev ∈ S /\ 0 <= w < 2 ^ 32.
Proof using Hinv.
  intros Hq. cbn. rewrite Hq. intros El. split; [done|].
  destruct (lg_history _ _ _ (ai_logged _ _ _ _ _ _ _ Hinv)) as [_ HE].
  apply (Forall_lookup_1 _ _ _ _ (HE _) El).
Qed.

Lemma issue_answer prev w :
  (spec_step sb0 hs (Unit RscIssue curr)).1 = Some (prev, w) -> prev ∈ S /\ 0 <= w < 2 ^ 32 /\ lo <= prev.
Proof using Hinv Hok.
  intros Ha. pose proof (rc_board _ _ _ _ _ (ai_core _ _ _ _ _ _ _ Hinv)) as Hb.
  apply unit_answer in Ha as (o & El & HS & Hw); [|done]. split; [done|]. split; [done|].
  assert (Ht : target sb0 RscIssue = RscIssue) by (unfold target; by rewrite (su_mixed z _ Hb)).
  rewrite Ht in El. destruct (unit_lookup z _ Hb RscIssue _ _ _ _ eq_refl) as (r & Hr & Hc & _).
  unfold getResourceCount, resource_at in El. rewrite Hr in El. cbn in El. rewrite Hc in El.
  destruct (ao_sizes _ _ _ Hok) as [Hz _]. rewrite Forall_cons in Hz. destruct Hz as [Hz _].
  pose proof (ao_queue _ _ _ Hok) as HQ. rewrite Forall_cons in HQ. destruct HQ as [HQ _].
  eapply recent_live.
  - rewrite <- (lg_issue _ _ _ (ai_logged _ _ _ _ _ _ _ Hinv)), fst_lookup, El. reflexivity.
  - lia.
Qed.

Lemma queue_answer hh lat prev w :
  entries hh RscInstrQ = entries hs RscInstrQ ->
  (spec_step sb0 hh (Entry RscInstrQ curr lat)).1 = Some (prev, w) ->
  prev ∈ S /\ 0 <= w < 2 ^ 32 /\ lo <= prev.
Proof using Hinv Hok.
  intros Hq Ha. pose proof (rc_board _ _ _ _ _ (ai_core _ _ _ _ _ _ _ Hinv)) as Hb.
  apply entry_answer in Ha as (El & HS & Hw); [|done]. split; [done|]. split; [done|].
  rewrite (queue_size_setup z _ Hb RscInstrQ (instr_queue_size z) eq_refl) in El.
  destruct (ao_sizes _ _ _ Hok) as [Hz _]. rewrite !Forall_cons in Hz. destruct Hz as (_ & _ & _ & _ & _ & _ & Hz & _).
  pose proof (ao_queue _ _ _ Hok) as HQ. rewrite !Forall_cons in HQ. destruct HQ as (_ & HQ & _).
  eapply recent_live.
  - rewrite <- (lg_queue _ _ _ (ai_logged _ _ _ _ _ _ _ Hinv)), fst_lookup, El. reflexivity.
  - lia.
Qed.

(** The history after a request of [curr]. *)
Definition logs (hh : History) : Prop :=
  history_ok (fun i => i ∈ curr :: S) sb0 hh.
Lemma logs_step hh r :
  logs hh -> user r = curr -> match r with Unit _ _ => True | Entry _ _ l => 0 <= l < 2 ^ 32 end ->
  logs (spec_step sb0 hh r).2.
Proof using Hinv.
  intros Hl Hu Hr. pose proof (rc_board _ _ _ _ _ (ai_core _ _ _ _ _ _ _ Hinv)) as Hb.
  apply (spec_step_ok _ z sb0 hh r Hb Hl). split; [|done]. rewrite Hu. by left.
Qed.
Lemma logs_start : logs hs.
Proof using Hinv.
  eapply history_ok_mono; [|apply (lg_history _ _ _ (ai_logged _ _ _ _ _ _ _ Hinv))].
  intros i Hi. by right.
Qed.

Definition wait_of (m : gmap Z Z) : Z := default 0 (m !! (curr mod window (core s))).
Notation issue := (mkDemand (Unit RscIssue curr) InstrExecute false).
Notation queue := (mkDemand (Entry RscInstrQ curr (wait_of (executionCyclesOf (book (core s))))) InstrExecute false).

Lemma wait_range m : (forall j c, m !! j = Some c -> 0 <= c < 2 ^ 32) -> 0 <= wait_of m < 2 ^ 32.
Proof using. intros H. unfold wait_of. destruct (m !! _) eqn:Em; cbn; [by apply H in Em|lia]. Qed.

Lemma curr_number : 0 <= curr < UINT64_MAX.
Proof using Hinv Hcurr. pose proof (rc_count _ _ _ _ _ (ai_core _ _ _ _ _ _ _ Hinv)). unfold UINT64_MAX. lia. Qed.

(** The requests [hh] of [curr] so far, with the scoreboard and the maps after them. *)
Record underway (sb : Scoreboard) (ch : adjacency) (pa : ancestry) (hh : History) : Prop := {
  uw_maps : maps_ok ch pa;
  uw_refines : refines sb hh;
  uw_setup : same_setup sb0 sb;
  uw_logs : logs hh;
  uw_issue : (units hh RscIssue).*1 = curr :: S;
  uw_queue : (entries hh RscInstrQ).*1 = curr :: S
}.

Lemma underway_logged sb ch pa hh : underway sb ch pa hh -> logged (curr :: S) sb hh.
Proof using. intros [M R Su L I Q]. split; try assumption. by eapply history_ok_setup. Qed.

(** Edges to a vertex of [curr]. *)
Definition leading_to (v : Vertex) (es : list Edge) : Prop :=
  Forall (fun pe => resource_step pe /\ child pe.2 = v) es.

Lemma leading_rising v es :
  leading_to v es ->
  Forall (fun pe => child pe.2 = v /\ exists x, rising (phase_rank p W S s) g0 pe.1 pe.2 x) es.
Proof using Hinv Hok Hcurr Hnew Hfit Htotal.
  intros Hes. eapply Forall_impl; [exact Hes|]. intros pe [H1 H2]. split; [done|]. by apply resource_rising.
Qed.

(** The issue slot and the entry of the instruction queue. *)
Lemma first_requests o A m :
  exists sb1 ch1 pa1 p1 sb ch pa p2 hh,
    request_unit (mid sb0 g0 o (graphChildren s) (graphParents s) A m) RscIssue curr false =
      Ok (mid sb1 g0 o ch1 pa1 A m, p1) /\
    request_entry (mid sb1 g0 o ch1 pa1 A m) InstrExecute RscInstrQ curr
      (wait_of (executionCyclesOf (book (core s)))) false = Ok (mid sb g0 o ch pa A m, p2) /\
    leading_to (exec_of curr) p1 /\ leading_to (exec_of curr) p2 /\ underway sb ch pa hh /\
    (forall t, t <> RscIssue -> units hh t = units hs t) /\
    (forall q, q <> RscInstrQ -> entries hh q = entries hs q).
Proof using Hinv Hok Hcurr Hnew.
  pose proof (rc_board _ _ _ _ _ (ai_core _ _ _ _ _ _ _ Hinv)) as Hb.
  pose proof (ai_logged _ _ _ _ _ _ _ Hinv) as [L1 L2 L3 L4]. pose proof curr_number as Hcn.
  assert (HM : maps_ok (graphChildren s) (graphParents s)).
  { split; [done|intros v Hv; by apply (ai_fresh _ _ _ _ _ _ _ Hinv)|apply (ai_narrow _ _ _ _ _ _ _ Hinv)]. }
  pose proof (wait_range _ (ba_exec _ _ _ _ (rc_book _ _ _ _ _ (ai_core _ _ _ _ _ _ _ Hinv)))) as Hw.
  assert (Ht : target sb0 RscIssue = RscIssue) by (unfold target; by rewrite (su_mixed z _ Hb)).
  destruct (answer_step issue (spec_step sb0 hs (Unit RscIssue curr)).1 eq_refl ltac:(by left)) as [A1 B1].
  { intros prev w Ha. apply issue_answer in Ha. tauto. }
  destruct (serve_mid sb0 g0 o (graphChildren s) (graphParents s) A m hs issue HM) as (sb1 & ch1 & pa1 & E1 & M1 & R1 & S1);
    [done|exact L1|apply same_setup_refl|by eapply (unit_request z _ _ _ _ _ _ false Hb Hcn)|done|exact A1|].
  set (h1 := (spec_step sb0 hs (d_request issue)).2) in *.
  destruct (answer_step queue (spec_step sb0 h1 (d_request queue)).1 eq_refl ltac:(by left)) as [A2 B2].
  { intros prev w Ha. apply queue_answer in Ha; [|done]. tauto. }
  destruct (serve_mid sb1 g0 o ch1 pa1 A m h1 queue M1) as (sb2 & ch2 & pa2 & E2 & M2 & R2 & S2);
    [done|exact R1|exact S1| |done|exact A2|].
  { eapply setup_request; [exact S1|]. by eapply (queue_request z _ _ _ _ _ Hb Hcn Hw). }
  set (h2 := (spec_step sb0 h1 (d_request queue)).2) in *.
  unfold serve in E1, E2. cbn [d_request d_near d_type] in E1, E2.
  exists sb1, ch1, pa1. eexists. exists sb2, ch2, pa2. eexists. exists h2.
  split; [exact E1|]. split; [exact E2|]. clear E1 E2.
  split; [apply Forall_and; split; [exact A1|exact B1]|].
  split; [apply Forall_and; split; [exact A2|exact B2]|]. split.
  - split; [exact M2|exact R2|exact S2|..].
    + apply (logs_step h1 (d_request queue)); [|done|exact Hw].
      apply (logs_step hs (d_request issue)); [|done|done]. exact logs_start.
    + unfold h2, h1. cbn. rewrite Ht. unfold upd. rewrite decide_True by done. cbn. by rewrite L3.
    + unfold h2, h1. cbn. unfold upd. rewrite decide_True by done. cbn. by rewrite L4.
  - unfold h2, h1. cbn. rewrite Ht. unfold upd.
    split; [intros t Hne; by rewrite decide_False|intros q Hne; by rewrite decide_False].
Qed.

(** The execution unit, if the instruction needs one. *)
Lemma unit_requests sb ch pa hh o A m :
  underway sb ch pa hh -> (forall t, t <> RscIssue -> units hh t = units hs t) ->
  exists sb' ch' pa' es hh',
    match operation_of (type_at g0 curr) with
    | Some (operation_type, _) => request_unit (mid sb g0 o ch pa A m) operation_type curr true
    | None => Ok (mid sb g0 o ch pa A m, [])
    end = Ok (mid sb' g0 o ch' pa' A m, es) /\
    leading_to (exec_of curr) es /\ underway sb' ch' pa' hh' /\ entries hh' = entries hh.
Proof using Hinv Hok Hcurr Hnew.
  intros [M R Su L I Q] HU. pose proof (rc_board _ _ _ _ _ (ai_core _ _ _ _ _ _ _ Hinv)) as Hb.
  destruct (operation_of (type_at g0 curr)) as [[op lsq]|] eqn:Eo;
    [|exists sb, ch, pa, [], hh; split; [reflexivity|]; split; [constructor|]; split; [by split|done]].
  set (d := mkDemand (Unit op curr) InstrExecute true).
  pose proof (operation_target z sb0 _ op lsq Hb Eo) as Hne.
  destruct (answer_step d (spec_step sb0 hh (d_request d)).1 eq_refl ltac:(by left)) as [A3 B3].
  { intros prev w Ha. apply unit_answer in Ha as (_ & _ & HS & Hw); [done|]. by apply HU. }
  destruct (serve_mid sb g0 o ch pa A m hh d M) as (sb3 & ch3 & pa3 & E3 & M3 & R3 & S3);
    [done|exact R|exact Su|eapply setup_request; [exact Su|by apply (operation_request z _ _ _ _ _ Hb curr_number Eo)]|
     done|exact A3|].
  exists sb3, ch3, pa3. eexists. exists (spec_step sb0 hh (d_request d)).2. split; [exact E3|]. clear E3.
  split; [apply Forall_and; split; [exact A3|exact B3]|]. split; [|reflexivity].
  split; [exact M3|exact R3|exact S3|by apply logs_step| |exact Q].
  cbn. unfold upd. rewrite decide_False by done. exact I.
Qed.

(** The entry of the load or store queue. *)
Lemma lsq_requests sb g ch pa hh o A m op q :
  underway sb ch pa hh -> same_config g0 g -> (forall q, q <> RscInstrQ -> entries hh q = entries hs q) ->
  operation_of (type_at g0 curr) = Some (op, Some q) ->
  exists sb' ch' pa' es hh',
    request_entry (mid sb g o ch pa A m) MemExecute q curr (wait_of (lsCyclesOf (book (core s)))) true =
      Ok (mid sb' g o ch' pa' A m, es) /\
    leading_to (mem_of curr) es /\ underway sb' ch' pa' hh'.
Proof using Hinv Hok Hcurr Hnew.
  intros [M R Su L I Q] Hg HE Eo. pose proof (rc_board _ _ _ _ _ (ai_core _ _ _ _ _ _ _ Hinv)) as Hb.
  pose proof (wait_range _ (ba_ls _ _ _ _ (rc_book _ _ _ _ _ (ai_core _ _ _ _ _ _ _ Hinv)))) as Hw.
  set (d := mkDemand (Entry q curr (wait_of (lsCyclesOf (book (core s))))) MemExecute true).
  assert (Hq : q <> RscInstrQ /\ exists k, queue_setup z q = Some k).
  { destruct (lsq_queue _ _ _ Eo) as [->| ->]; (split; [done|by eexists]). }
  destruct Hq as [Hq (k & Hk)].
  destruct (answer_step d (spec_step sb0 hh (d_request d)).1 eq_refl ltac:(by right)) as [A4 B4].
  { intros prev w Ha. apply entry_answer in Ha as (_ & HS & Hw'); [done|]. by apply HE. }
  destruct (serve_mid sb g o ch pa A m hh d M Hg) as (sb4 & ch4 & pa4 & E4 & M4 & R4 & S4);
    [exact R|exact Su|eapply setup_request; [exact Su|by apply (queue_request z _ _ k _ _ Hb curr_number Hw)]|
     done|exact A4|].
  exists sb4, ch4, pa4. eexists. exists (spec_step sb0 hh (d_request d)).2. split; [exact E4|]. clear E4.
  split; [apply Forall_and; split; [exact A4|exact B4]|].
  split; [exact M4|exact R4|exact S4|by apply logs_step|exact I|].
  cbn. unfold upd. rewrite decide_False by done. exact Q.
Qed.

(** Scheduling [curr]: all its requests, and the two propagations. *)
Lemma schedule_instr_adv o A m fuel :
  Phase (graphChildren s) g0 o -> fuel_for W <= Z.of_nat fuel ->
  exists sb g o' ch pa hh,
    schedule_instr true fuel (mid sb0 g0 o (graphChildren s) (graphParents s) A m) curr =
      Ok (mid sb g o' ch pa A m) /\
    Phase ch g o' /\ underway sb ch pa hh.
Proof using Hinv Hok Hcurr Hnew Hfit Htotal.
  intros HP Hf.
  destruct (first_requests o A m) as (sb1 & ch1 & pa1 & p1 & sb2 & ch2 & pa2 & p2 & h2 & E1 & E2 & F1 & F2 & U2 & N2 & Q2).
  unfold schedule_instr. cbv zeta. rewrite E1. cbn [mbind res_bind].
  change (executionCyclesOf (book (core (mid sb1 g0 o ch1 pa1 A m)))) with (executionCyclesOf (book (core s))).
  change (curr mod window (core (mid sb0 g0 o (graphChildren s) (graphParents s) A m)))
    with (curr mod window (core s)).
  fold (wait_of (executionCyclesOf (book (core s)))). rewrite E2. cbn [mbind res_bind]. clear E1 E2.
  change (base (core (mid sb2 g0 o ch2 pa2 A m))) with g0.
  destruct (unit_requests sb2 ch2 pa2 h2 o A m U2 N2) as (sb3 & ch3 & pa3 & p3 & h3 & E3 & F3 & U3 & Q3).
  rewrite E3. cbn [mbind res_bind]. clear E3.
  assert (Hphase : forall sb' ch' pa' hh' g' o' ch'' es v, underway sb' ch' pa' hh' -> Phase ch'' g' o' ->
    v = exec_of curr \/ v = mem_of curr -> leading_to v es ->
    exists g'' o'', updateCriticalPath true fuel (mid sb' g' o' ch' pa' A m) es =
      Ok (mid sb' g'' o'' ch' pa' A m) /\ Phase ch' g'' o'').
  { intros sb' ch' pa' hh' g' o' ch'' es v U' P' Hv Hes.
    apply (update_phase z p W Hok E S hs s Hinv curr Hcurr Hnew total Hfit Htotal
      (mid sb' g' o' ch' pa' A m) es v fuel); [|done|by apply leading_rising|exact Hf].
    by apply (phase_maps g' o' ch'' ch' pa' (uw_maps _ _ _ _ U')). }
  destruct (Hphase sb3 ch3 pa3 h3 g0 o (graphChildren s) (p1 ++ p2 ++ p3) (exec_of curr) U3 HP) as (g4 & o4 & E4 & P4);
    [by left|by repeat (apply Forall_app; split)|].
  rewrite E4. cbn [mbind res_bind]. clear E4.
  assert (Hplain : exists sb g o' ch pa hh,
    updateCriticalPath true fuel (mid sb3 g4 o4 ch3 pa3 A m) p1 = Ok (mid sb g o' ch pa A m) /\
    Phase ch g o' /\ underway sb ch pa hh).
  { destruct (Hphase sb3 ch3 pa3 h3 g4 o4 ch3 p1 (exec_of curr) U3 P4) as (g5 & o5 & E5 & P5); [by left|done|].
    exists sb3, g5, o5, ch3, pa3, h3. done. }
  destruct (operation_of (type_at g0 curr)) as [[op [q|]]|] eqn:Eo; [|exact Hplain..].
  change (lsCyclesOf (book (core (mid sb3 g4 o4 ch3 pa3 A m)))) with (lsCyclesOf (book (core s))).
  fold (wait_of (lsCyclesOf (book (core s)))).
  destruct (lsq_requests sb3 g4 ch3 pa3 h3 o4 A m op q U3) as (sb5 & ch5 & pa5 & p5 & h5 & E5 & F5 & U5);
    [apply P4|intros q' Hq'; rewrite Q3; by apply Q2|done|].
  rewrite E5. cbn [mbind res_bind]. clear E5.
  destruct (Hphase sb5 ch5 pa5 h5 g4 o4 ch3 p5 (mem_of curr) U5 P4) as (g6 & o6 & E6 & P6); [by right|done|].
  exists sb5, g6, o6, ch5, pa5, h5. done.
Qed.
End Schedule.
