(* ===== verification/CalipersAdvancedRun.v ===== *)
(** * The runs of the sliding-window core

    The first instruction of the schedule has the shortest path, so nothing that is
    still to be scheduled leads to its execution; as instructions are fetched in order,
    it is within the instruction buffer of the oldest one.  Taking and scheduling it,
    moving the window, and the rounds of the main loop keep the invariant; a run ends
    with everything scheduled. *)

From S2P Require Import Prelude Machine CalipersCache CalipersFacts CalipersCycles CalipersPaths.
From S2P Require Import CalipersScoreboard CalipersScoreFacts CalipersO3 CalipersO3Facts.
From S2P Require Import CalipersO3Steps CalipersO3Window CalipersO3Run CalipersO3Trace.
From S2P Require Import CalipersReport CalipersAdvanced CalipersWorklist CalipersAdvancedEdges.
From S2P Require Import CalipersAdvancedInv CalipersAdvancedSchedule.

#[local] Open Scope list_scope.
#[local] Open Scope Z_scope.

Import CalG CalS CalO CalA.

(** ** Paths in program order *)

Section Order.
Context (B n : Z) (E : list Edge) (Hpo : forall i, 0 <= i < n -> in_program_order B i E).

Lemma reaches_execute i : 0 <= i < n -> reaches E (fetch_of i) (exec_of i).
Proof using Hpo.
  intros Hi. destruct (Hpo i Hi) as [P1 P2 _ _ _]. eapply rtc_l; [exact P1|]. by apply rtc_once.
Qed.
Lemma reaches_commit i : 0 <= i < n -> reaches E (exec_of i) (commit_of i).
Proof using Hpo.
  intros Hi. destruct (po_execute _ _ _ (Hpo i Hi)) as [H|[H1 H2]].
  - by apply rtc_once.
  - eapply rtc_l; [exact H1|]. by apply rtc_once.
Qed.

(** Instructions are fetched in order, also after a misprediction. *)
Lemma reaches_fetches i j : 0 <= i -> i <= j < n -> reaches E (fetch_of i) (fetch_of j).
Proof using Hpo.
  intros Hi [Hj Hn]. revert Hn. pattern j. apply Zlt_lower_bound_ind with (z := i); [|exact Hj]. clear j Hj.
  intros j IH Hj Hn. destruct (decide (j = i)) as [->|Hne]; [constructor|].
  destruct (po_next _ _ _ (Hpo j ltac:(lia)) ltac:(lia)) as [H|H];
    (eapply rtc_r; [|exact H]); [apply IH; lia|].
  transitivity (fetch_of (j - 1)); [apply IH; lia|apply reaches_execute; lia].
Qed.

(** An instruction executes before any beyond the instruction buffer. *)
Lemma reaches_beyond i j : 1 <= B -> 0 <= i -> i + B <= j < n -> reaches E (exec_of i) (exec_of j).
Proof using Hpo.
  intros HB Hi Hj. transitivity (commit_of i); [apply reaches_commit; lia|].
  pose proof (po_buffer _ _ _ (Hpo (i + B) ltac:(lia)) ltac:(lia)) as H. replace (i + B - B) with i in H by lia.
  eapply rtc_l; [exact H|].
  transitivity (fetch_of j); [apply reaches_fetches; lia|apply reaches_execute; lia].
Qed.
End Order.

(** ** Insertion *)

Lemma number_insert_elem x l y : y ∈ number_insert x l <-> y = x \/ y ∈ l.
Proof.
  induction l as [|a l IH]; cbn; [by rewrite list_elem_of_singleton, elem_of_nil; tauto|].
  destruct (Z.ltb_spec x a); [by rewrite elem_of_cons|].
  destruct (Z.ltb_spec a x); [rewrite !elem_of_cons, IH; tauto|].
  assert (x = a) as -> by lia. rewrite elem_of_cons. tauto.
Qed.
Lemma number_insert_sorted x l : StronglySorted Z.lt l -> StronglySorted Z.lt (number_insert x l).
Proof.
  induction 1 as [|a l Hl IH Ha]; cbn; [repeat constructor|].
  destruct (Z.ltb_spec x a).
  - constructor; [by constructor|]. constructor; [done|]. eapply Forall_impl; [exact Ha|]. cbn. lia.
  - destruct (Z.ltb_spec a x); [|by constructor]. constructor; [done|].
    rewrite Forall_forall in *. intros y [->|Hy]%number_insert_elem; auto.
Qed.

(** ** The first instruction *)

Section Take.
Context {CI CD BP : Type} `{!Cache CI} `{!Cache CD} `{!CacheLaws CI} `{!CacheLaws CD}.
Context `{!BranchPredictor BP}.
Notation Adv := (@O3CoreGraphAdvanced CI CD BP).
Context (z : Sizes) (p : Params) (W : Z) (Hok : adv_ok z p W).
Context (E : list Edge) (S : list Z) (hs : History) (s : Adv) (Hinv : adv_inv z p W E S hs s).
Context (Hnext : headScheduledInstr s < instrCount (core s)) (Hhead : headScheduledInstr s ∉ S).
Notation n := (instrCount (core s)).
Notation lo := (lo_of W s).
Notation g0 := (base (core s)).
Notation h := (headScheduledInstr s).
Notation B := (instrBufferSize p).

Lemma order_nonempty : scheduleOrder (core s) <> [].
Proof using Hinv Hnext Hhead.
  intros H0. pose proof (ai_order _ _ _ _ _ _ _ Hinv) as Ho.
  pose proof (sc_heads _ _ _ _ _ _ (ai_sched _ _ _ _ _ _ _ Hinv)).
  assert (Hin : (h, len_of g0 (VertexKey g0 (exec_of h))) ∈ scheduleOrder (core s)).
  { apply (oo_mem _ _ _ Ho). split; [split; [lia|exact Hhead]|reflexivity]. }
  rewrite H0 in Hin. by apply not_elem_of_nil in Hin.
Qed.

Context (curr len : Z) (rest : list (Z * Z)) (Hord : scheduleOrder (core s) = (curr, len) :: rest).

Lemma first_new : 0 <= curr < n /\ curr ∉ S.
Proof using Hinv Hord.
  pose proof (ai_order _ _ _ _ _ _ _ Hinv) as Ho. rewrite Hord in Ho.
  apply (order_ok_fst _ _ _ curr Ho). cbn. by left.
Qed.

Lemma first_least x :
  0 <= x < n -> x ∉ S -> x <> curr ->
  sched_lt (curr, len_of g0 (VertexKey g0 (exec_of curr))) (x, len_of g0 (VertexKey g0 (exec_of x))).
Proof using Hinv Hord.
  intros Hx HS Hne. pose proof (ai_order _ _ _ _ _ _ _ Hinv) as Ho. rewrite Hord in Ho.
  destruct Ho as [Hs Hm]. assert (Hl : (curr, len) ∈ (curr, len) :: rest) by (by left).
  apply Hm in Hl as [_ <-].
  assert (Hin : (x, len_of g0 (VertexKey g0 (exec_of x))) ∈ (curr, len) :: rest) by (by apply Hm).
  apply elem_of_cons in Hin as [[= Hc _]|Hin]; [done|].
  apply StronglySorted_inv in Hs as [_ Hs]. rewrite Forall_forall in Hs. by apply Hs.
Qed.

Lemma first_rest : order_ok (remaining S s curr) g0 rest.
Proof using Hinv Hord.
  pose proof (ai_order _ _ _ _ _ _ _ Hinv) as Ho. rewrite Hord in Ho. destruct Ho as [Hs Hm].
  apply StronglySorted_inv in Hs as [Hs Hlt]. split; [done|]. intros i l.
  assert (Hl : (curr, len) ∈ (curr, len) :: rest) by (by left). apply Hm in Hl as [_ Hl].
  unfold remaining. rewrite not_elem_of_cons. specialize (Hm i l). rewrite elem_of_cons in Hm. split.
  - intros Hi. destruct (proj1 Hm (or_intror Hi)) as [[Hr HS] Hlen].
    split; [|done]. split; [done|]. split; [|done]. intros ->.
    rewrite Forall_forall in Hlt. specialize (Hlt _ Hi). subst. unfold sched_lt in Hlt. cbn in Hlt. lia.
  - intros [[Hr [Hne HS]] Hlen]. destruct (proj2 Hm (conj (conj Hr HS) Hlen)) as [[= Hc _]|Hi]; [done|exact Hi].
Qed.

(** Nothing still to be scheduled leads to its execution. *)
Lemma first_paths x : 0 <= x -> x ∉ curr :: S -> ~ reaches E (exec_of x) (exec_of curr).
Proof using Hinv Hok Hord.
  intros Hx HS Hr. rewrite not_elem_of_cons in HS. destruct HS as [Hne HS]. pose proof first_new as [Hc HcS].
  pose proof (ai_program _ _ _ _ _ _ _ Hinv) as HP.
  destruct (reaches_exec _ _ _ HP _ _ Hr) as [|Hlt]; [done|].
  assert (Hxn : 0 <= x < n) by lia.
  pose proof (remaining_live z p W Hok E S hs s Hinv curr Hc HcS x) as Hlive.
  assert (Hlo : lo <= x < n) by (apply Hlive; split; [lia|]; by rewrite not_elem_of_cons).
  pose proof (reaches_length _ _ _ lo g0 (exec_of x) (exec_of curr) HP
    (ai_tight _ _ _ _ _ _ _ Hinv) (proj1 Hlo) Hr).
  pose proof (first_least x Hxn HS Hne) as Hl. unfold sched_lt in Hl. cbn in Hl. lia.
Qed.

(** It is within the instruction buffer. *)
Lemma first_stride : curr <= h + B.
Proof using Hinv Hok Hord Hhead.
  pose proof (ai_order_edges _ _ _ _ _ _ _ Hinv) as Hpo. pose proof first_new as [Hc HcS].
  pose proof (sc_heads _ _ _ _ _ _ (ai_sched _ _ _ _ _ _ _ Hinv)).
  pose proof (adv_ok_window _ _ _ Hok).
  destruct (decide (curr <= h + B)) as [|Hgt]; [done|]. exfalso. apply (first_paths h); [lia| |].
  - rewrite not_elem_of_cons. split; [lia|exact Hhead].
  - apply (reaches_beyond B n E Hpo); lia.
Qed.

(** The state in which it is scheduled. *)
Lemma first_phase : phase p W E S s curr (graphChildren s) g0 rest.
Proof using Hinv Hok Hord.
  pose proof first_new as [Hc HcS]. split; [done| |apply Hinv| |exact first_rest|apply Hinv].
  - intros v Hv. pose proof (ahead_range z p W E S hs s Hinv curr Hc v Hv).
    pose proof (ahead_unscheduled z p W E S hs s Hinv curr Hc HcS v Hv) as Hns.
    destruct (phase_window z p W Hok E S hs s Hinv curr Hc HcS) as (_ & _ & _ & _ & ? & _).
    apply (ai_live _ _ _ _ _ _ _ Hinv); [lia|exact Hns].
  - eapply ranked_mono; [|apply (ai_rank _ _ _ _ _ _ _ Hinv)].
    intros k. apply (phase_rank_le z p W Hok S s curr k).
Qed.

(** *** The invariant afterwards *)

Context (Hstride : curr <= h + B).

Lemma scheduled_first :
  scheduled B E n h (curr :: S) (number_insert curr (alreadyScheduled s)).
Proof using Hinv Hok Hord Hhead Hstride.
  pose proof (ai_sched _ _ _ _ _ _ _ Hinv) as HSc. pose proof HSc as [S1 S2 S3 S4 S5 S6 S7 S8].
  pose proof first_new as [Hc HcS]. pose proof (adv_ok_window _ _ _ Hok).
  assert (Hh : h <= curr).
  { destruct (decide (curr < h)); [|lia]. destruct HcS. apply S4. lia. }
  split; [by apply NoDup_cons| | |intros i Hi; right; by apply S4|done|by apply number_insert_sorted| |].
  - intros i [->|Hi]%elem_of_cons; [lia|by apply S2].
  - constructor; [exact S3|]. rewrite Forall_forall. intros y Hy. apply S2 in Hy. lia.
  - intros i. rewrite number_insert_elem, elem_of_cons, S7. split; [intros [->|?]; tauto|tauto].
  - intros x y Hx HxS [->|Hy]%elem_of_cons; [by apply first_paths|].
    rewrite not_elem_of_cons in HxS. apply S8; tauto.
Qed.

Lemma mid_inv sb g o ch pa m hh :
  phase p W E S s curr ch g o -> underway W S s curr sb ch pa hh ->
  adv_inv z p W E (curr :: S) hh
    (mid s sb g o ch pa (number_insert curr (alreadyScheduled s)) m).
Proof using Hinv Hok Hord Hhead Hnext Hstride.
  intros [P1 P2 P3 P4 P5 P6] HU. pose proof (underway_logged _ _ _ _ _ _ _ _ HU) as HL.
  destruct HU as [[M1 M2 M3] U2 U3 _ _ _]. pose proof first_new as [Hc HcS].
  assert (K : forall v, VertexKey g v = VertexKey g0 v) by (intros; by apply same_config_key).
  split; unfold lo_of; cbn [mid core set_schedule set_base set_scoreboard instrCount headInstr headScheduledInstr
    alreadyScheduled graphChildren graphParents base scheduleOrder analyzedWindows scoreboard].
  - destruct (ai_core _ _ _ _ _ _ _ Hinv) as [R1 R2 R3 R4 R5 R6 R7]. split; try assumption.
    + unfold window in *. cbn. destruct P1 as (-> & _). exact R1.
    + cbn. by eapply set_up_same.
  - destruct (ai_config _ _ _ _ _ _ _ Hinv) as [C1 C2]. split; [by eapply same_config_ok|].
    destruct P1 as (_ & _ & _ & _ & -> & _). exact C2.
  - apply (ai_windows _ _ _ _ _ _ _ Hinv).
  - apply (ai_program _ _ _ _ _ _ _ Hinv).
  - apply (ai_room _ _ _ _ _ _ _ Hinv).
  - apply (ai_head _ _ _ _ _ _ _ Hinv).
  - intros v Hv Hns. rewrite K. pose proof (ai_room _ _ _ _ _ _ _ Hinv).
    assert (Hns' : ~ (instrNum v ∈ S /\ (type v = InstrExecute \/ type v = MemExecute)))
      by (intros [? ?]; apply Hns; split; [by right|done]).
    rewrite M1 by (exact Hns' || (unfold lo_of; lia)).
    apply (ai_live _ _ _ _ _ _ _ Hinv); [exact Hv|exact Hns'].
  - intros v Hv. rewrite K. pose proof (ai_room _ _ _ _ _ _ _ Hinv). split; [|by apply M2].
    pose proof (lo_head z p W Hok _ _ _ _ Hinv) as (_ & Hlo & _).
    pose proof (sc_heads _ _ _ _ _ _ (ai_sched _ _ _ _ _ _ _ Hinv)).
    rewrite M1; [by apply (ai_fresh _ _ _ _ _ _ _ Hinv)|lia|].
    intros [HS _]. apply (sc_range _ _ _ _ _ _ (ai_sched _ _ _ _ _ _ _ Hinv)) in HS. lia.
  - exact M3.
  - exact P6.
  - eapply ranked_mono; [|exact P4]. intros k. apply (phase_rank_le z p W Hok S s curr k).
  - exact P5.
  - exact scheduled_first.
  - exact HL.
  - apply (ai_order_edges _ _ _ _ _ _ _ Hinv).
Qed.
End Take.

(** ** Taking and scheduling it *)

Section Step.
Context {CI CD BP : Type} `{!Cache CI} `{!Cache CD} `{!CacheLaws CI} `{!CacheLaws CD}.
Context `{!BranchPredictor BP}.
Notation Adv := (@O3CoreGraphAdvanced CI CD BP).
Context (z : Sizes) (p : Params) (W : Z) (Hok : adv_ok z p W).

(** What scheduling does not change. *)
Definition same_place (s s' : Adv) : Prop :=
  instrCount (core s') = instrCount (core s) /\ headInstr s' = headInstr s /\
  headScheduledInstr s' = headScheduledInstr s.

Lemma schedule_first E S hs (s : Adv) total fuel :
  adv_inv z p W E S hs s -> fits p W total -> instrCount (core s) <= total ->
  headScheduledInstr s < instrCount (core s) -> headScheduledInstr s ∉ S ->
  fuel_for W <= Z.of_nat fuel ->
  exists curr s1 s2 hs', take_instr s = Ok (curr, s1) /\ schedule_instr true fuel s1 curr = Ok s2 /\
    curr ∉ S /\ 0 <= curr < instrCount (core s) /\ adv_inv z p W E (curr :: S) hs' s2 /\ same_place s s2.
Proof using Hok.
  intros Hinv Hfit Htot Hnext Hhead Hf.
  pose proof (order_nonempty z p W E S hs s Hinv Hnext Hhead) as Hne.
  unfold take_instr. destruct (scheduleOrder (core s)) as [|[curr len] rest] eqn:Hord; [done|]. clear Hne.
  destruct (first_new z p W E S hs s Hinv curr len rest Hord) as [Hc HcS].
  pose proof (head_curr z p W E S hs s Hinv curr Hc HcS) as Hh.
  pose proof (rc_count _ _ _ _ _ (ai_core _ _ _ _ _ _ _ Hinv)) as Hn.
  pose proof (sc_heads _ _ _ _ _ _ (ai_sched _ _ _ _ _ _ _ Hinv)) as Hhn.
  rewrite (rc_params _ _ _ _ _ (ai_core _ _ _ _ _ _ _ Hinv)), u64_small by (unfold u64_size; lia).
  destruct (Z.ltb_spec (instrBufferSize p) (curr - headScheduledInstr s)) as [Hfar|Hnear].
  - exfalso. pose proof (first_stride z p W Hok E S hs s Hinv Hhead curr len rest Hord). lia.
  - set (m := if maxSchedInstrNum s <? curr then curr else maxSchedInstrNum s).
    set (A := number_insert curr (alreadyScheduled s)).
    destruct (schedule_instr_adv z p W Hok E S hs s Hinv curr Hc HcS total Hfit Htot rest A m fuel)
      as (sb & g & o & ch & pa & hh & Es & HP & HU);
      [exact (first_phase z p W Hok E S hs s Hinv curr len rest Hord)|exact Hf|].
    assert (Emid : set_scheduled (with_order s rest) A m =
      mid s (scoreboard (core s)) (base (core s)) rest (graphChildren s) (graphParents s) A m).
    { unfold mid, set_scheduled, with_order, set_core. destruct s as [c]. by destruct c. }
    exists curr, (mid s (scoreboard (core s)) (base (core s)) rest (graphChildren s) (graphParents s) A m),
      (mid s sb g o ch pa A m), hh.
    split; [by rewrite Emid|]. split; [exact Es|]. clear Es Emid.
    split; [done|]. split; [done|]. split; [|done].
    apply (mid_inv z p W Hok E S hs s Hinv Hnext Hhead curr len rest Hord); [lia|exact HP|exact HU].
Qed.
End Step.

(** * The scheduling rounds of the sliding-window core

    [modelResourceDependencies] schedules until the oldest instruction is, counts the
    instructions that are scheduled without a gap, and moves the window on.  It
    returns, keeps the invariant, and leaves a quarter of the window beyond the next
    instruction. *)

(** ** Counting *)

Lemma orderly_ok A : forall h,
  StronglySorted Z.lt A -> 0 <= h -> (forall i, i ∈ A -> h <= i < 2 ^ 62) ->
  let c := orderly h A in
  0 <= c /\ (forall i, h <= i < h + c -> i ∈ A) /\ h + c ∉ A /\
  (forall i, i ∈ drop (Z.to_nat c) A <-> i ∈ A /\ h + c <= i) /\
  StronglySorted Z.lt (drop (Z.to_nat c) A).
Proof.
  induction A as [|x A IH]; intros h Hs Hh Hr; cbn [orderly].
  - cbn. split; [lia|]. split; [lia|]. split; [apply not_elem_of_nil|]. split; [|constructor].
    intros i. split; [intros Hi|intros [Hi _]]; by apply not_elem_of_nil in Hi.
  - apply StronglySorted_inv in Hs as [Hs Hx]. rewrite Forall_forall in Hx.
    pose proof (Hr x ltac:(by left)) as Hxr. rewrite u64_small by (unfold u64_size; lia).
    destruct (Z.eqb_spec (x - h) 0) as [Heq|Hne].
    + assert (x = h) as -> by lia. rewrite (u64_small (h + 1)) by (unfold u64_size; lia).
      destruct (IH (h + 1) Hs ltac:(lia)) as (C1 & C2 & C3 & C4 & C5).
      { intros i Hi. pose proof (Hx i Hi). pose proof (Hr i ltac:(by right)). lia. }
      set (c := orderly (h + 1) A) in *. replace (h + (1 + c)) with (h + 1 + c) by lia.
      split; [lia|]. replace (Z.to_nat (1 + c)) with (Datatypes.S (Z.to_nat c)) by lia. cbn [drop].
      split; [|split; [|split; [|exact C5]]].
      * intros i Hi. destruct (decide (i = h)) as [->|]; [by left|]. right. apply C2. lia.
      * rewrite not_elem_of_cons. split; [lia|exact C3].
      * intros i. rewrite C4, elem_of_cons. split; [tauto|]. intros [[->|Hi] ?]; [lia|tauto].
    + split; [lia|]. split; [lia|]. cbn [Z.to_nat drop]. rewrite Z.add_0_r.
      split; [|split; [|by constructor; [|rewrite Forall_forall]]].
      * rewrite not_elem_of_cons. split; [lia|]. intros Hi. specialize (Hx h Hi). lia.
      * intros i. split; [|tauto]. intros Hi. split; [done|]. by apply Hr.
Qed.

(** ** Scheduling *)

Section Loop.
Context {CI CD BP : Type} `{!Cache CI} `{!Cache CD} `{!CacheLaws CI} `{!CacheLaws CD}.
Context `{!BranchPredictor BP}.
Notation Adv := (@O3CoreGraphAdvanced CI CD BP).
Context (z : Sizes) (p : Params) (W : Z) (Hok : adv_ok z p W).

(** [count] instructions from [h] on are scheduled, the next one is not. *)
Definition counted (h : Z) (S A : list Z) (count : Z) : Prop :=
  0 <= count /\ (forall i, h <= i < h + count -> i ∈ S) /\ h + count ∉ S /\
  (forall i, i ∈ drop (Z.to_nat count) A <-> i ∈ A /\ h + count <= i) /\
  StronglySorted Z.lt (drop (Z.to_nat count) A).

Lemma orderly_counted E S hs (s : Adv) :
  adv_inv z p W E S hs s ->
  counted (headScheduledInstr s) S (alreadyScheduled s) (orderly (headScheduledInstr s) (alreadyScheduled s)).
Proof using.
  intros Hinv. destruct (ai_sched _ _ _ _ _ _ _ Hinv) as [_ S2 _ _ S5 S6 S7 _].
  pose proof (rc_count _ _ _ _ _ (ai_core _ _ _ _ _ _ _ Hinv)).
  destruct (orderly_ok (alreadyScheduled s) (headScheduledInstr s) S6 ltac:(lia)) as (C1 & C2 & C3 & C4 & C5).
  { intros i [Hi ?]%S7. apply S2 in Hi. lia. }
  split; [done|]. split; [intros i Hi; by apply S7, C2|]. split; [|done].
  intros Hi. apply C3, S7. split; [done|lia].
Qed.

(** The schedule is empty when everything is scheduled. *)
Lemma order_empty E S hs (s : Adv) h' :
  adv_inv z p W E S hs s -> (forall i, 0 <= i < h' -> i ∈ S) -> h' ∉ S -> 0 <= h' ->
  match scheduleOrder (core s) with [] => true | _ => false end = true <-> instrCount (core s) <= h'.
Proof using.
  intros Hinv Hall Hh H0. destruct (ai_order _ _ _ _ _ _ _ Hinv) as [_ Hm].
  destruct (scheduleOrder (core s)) as [|[i l] o]; split; try done.
  - intros _. destruct (decide (instrCount (core s) <= h')); [done|]. exfalso.
    apply (not_elem_of_nil (A := Z * Z) (h', len_of (base (core s)) (VertexKey (base (core s)) (exec_of h')))).
    apply Hm. split; [split; [lia|done]|done].
  - intros Hn. exfalso. destruct (proj1 (Hm i l) ltac:(by left)) as [[Hi HS] _]. apply HS, Hall. lia.
Qed.

Context (total : Z) (Hfit : fits p W total) (fuel : nat) (Hfuel : fuel_for W <= Z.of_nat fuel).

Lemma schedule_loop_ok E n : forall S hs (s : Adv),
  adv_inv z p W E S hs s -> instrCount (core s) <= total ->
  headScheduledInstr s < instrCount (core s) -> headScheduledInstr s ∉ S ->
  total - Z.of_nat (List.length S) <= Z.of_nat n ->
  exists s' S' hs' count empty, schedule_loop true fuel n s = Ok (s', count, empty) /\
    adv_inv z p W E S' hs' s' /\ same_place s s' /\ (List.length S < List.length S')%nat /\
    counted (headScheduledInstr s) S' (alreadyScheduled s') count /\
    (empty = true <-> instrCount (core s) <= headScheduledInstr s + count).
Proof using Hok Hfit Hfuel.
  induction n as [|n IH]; intros S hs s Hinv Htot Hnext Hhead Hn.
  { exfalso. pose proof (sc_heads _ _ _ _ _ _ (ai_sched _ _ _ _ _ _ _ Hinv)).
    assert (Hsub : (headScheduledInstr s :: S) ⊆ seqZ 0 (instrCount (core s))).
    { intros i [->|Hi]%elem_of_cons; apply elem_of_seqZ; [lia|].
      apply (sc_range _ _ _ _ _ _ (ai_sched _ _ _ _ _ _ _ Hinv)) in Hi. lia. }
    apply NoDup_submseteq in Hsub; [|apply NoDup_cons; split; [done|apply (ai_sched _ _ _ _ _ _ _ Hinv)]].
    apply submseteq_length in Hsub. rewrite length_seqZ in Hsub. cbn in Hsub. lia. }
  cbn [schedule_loop].
  destruct (schedule_first z p W Hok E S hs s total fuel Hinv Hfit Htot Hnext Hhead Hfuel)
    as (curr & s1 & s2 & hs2 & Et & Es & HcS & Hc & Hinv2 & (P1 & P2 & P3)).
  rewrite Et. cbn [mbind res_bind]. rewrite Es. cbn [mbind res_bind]. clear Et Es. rewrite P3.
  destruct (Z.eqb_spec curr (headScheduledInstr s)) as [->|Hne].
  - exists s2, (headScheduledInstr s :: S), hs2.
    eexists. eexists. split; [reflexivity|]. split; [done|]. split; [done|]. split; [cbn; lia|].
    pose proof (orderly_counted _ _ _ _ Hinv2) as HC. rewrite P3 in HC. split; [done|].
    rewrite <- P1. destruct HC as (C1 & C2 & C3 & _).
    pose proof (sc_heads _ _ _ _ _ _ (ai_sched _ _ _ _ _ _ _ Hinv)).
    apply (order_empty E (headScheduledInstr s :: S) hs2 s2); [done| |done|lia]. intros i Hi.
    destruct (decide (i < headScheduledInstr s)); [|apply C2; lia].
    apply (sc_prefix _ _ _ _ _ _ (ai_sched _ _ _ _ _ _ _ Hinv2)). lia.
  - assert (Hhead2 : headScheduledInstr s2 ∉ curr :: S).
    { rewrite P3, not_elem_of_cons. split; [congruence|done]. }
    assert (Hnext2 : headScheduledInstr s2 < instrCount (core s2)) by lia.
    pose proof (order_nonempty z p W E (curr :: S) hs2 s2 Hinv2 Hnext2 Hhead2) as Hno.
    replace (match scheduleOrder (core s2) with [] => true | _ => false end) with false
      by (by destruct (scheduleOrder (core s2))).
    cbn [orb]. destruct (IH (curr :: S) hs2 s2 Hinv2) as (s' & S' & hs' & c & e & El & Hi & (Q1 & Q2 & Q3) & Hlen & HC & He);
      [lia|lia|done|cbn; lia|].
    exists s', S', hs', c, e. split; [done|]. split; [done|].
    split; [split_and!; congruence|]. split; [cbn in Hlen; lia|]. rewrite P3 in HC, He. split; [done|].
    by rewrite <- P1.
Qed.
End Loop.

(** ** Moving the window *)

Section Advance.
Context {CI CD BP : Type} `{!Cache CI} `{!Cache CD} `{!CacheLaws CI} `{!CacheLaws CD}.
Context `{!BranchPredictor BP}.
Notation Adv := (@O3CoreGraphAdvanced CI CD BP).

(** The slots of a list of vertices are emptied, the others stay. *)
Lemma clear_vertices_ok vs : forall s : Adv,
  exists ch pa, foldl clear_vertex s vs = set_edges s ch pa /\
    (forall k, k ∉ VertexKey (base (core s)) <$> vs ->
       edge_at ch k = edge_at (graphChildren s) k /\ parents_at pa k = parents_at (graphParents s) k) /\
    (forall k, k ∈ VertexKey (base (core s)) <$> vs -> edge_at ch k = [] /\ parents_at pa k = []).
Proof.
  induction vs as [|v vs IH]; intros s.
  - exists (graphChildren s), (graphParents s). split; [by destruct s|]. split; [done|].
    intros k Hk. by apply not_elem_of_nil in Hk.
  - cbn [foldl]. destruct (IH (clear_vertex s v)) as (ch & pa & -> & H1 & H2).
    exists ch, pa. split; [reflexivity|].
    change (base (core (clear_vertex s v))) with (base (core s)) in *.
    set (kv := VertexKey (base (core s)) v) in *.
    assert (Hv : forall k, edge_at (graphChildren (clear_vertex s v)) k =
        (if decide (k = kv) then [] else edge_at (graphChildren s) k) /\
      parents_at (graphParents (clear_vertex s v)) k =
        (if decide (k = kv) then [] else parents_at (graphParents s) k)).
    { intros k. unfold clear_vertex, edge_at, parents_at. cbn. fold kv. case_decide as Hk.
      - subst k. by rewrite !lookup_insert_eq.
      - rewrite !lookup_insert_ne by done. done. }
    rewrite fmap_cons. fold kv. split.
    + intros k [Hne Hk]%not_elem_of_cons. destruct (H1 k Hk) as [-> ->].
      destruct (Hv k) as [-> ->]. by rewrite !decide_False.
    + intros k [->|Hk]%elem_of_cons; [|by apply H2].
      destruct (decide (kv ∈ VertexKey (base (core s)) <$> vs)) as [Hin|Hin]; [by apply H2|].
      destruct (H1 _ Hin) as [-> ->]. destruct (Hv kv) as [-> ->]. by rewrite !decide_True.
Qed.

(** The vertices of [cnt] instructions from [first] on. *)
Definition slots (first cnt : Z) : list Vertex :=
  i ← seqZ 0 cnt; (fun t => mkVertex t (u64 (first + i))) <$> all_types.

Lemma clear_slots_fold (s : Adv) cnt :
  clear_slots s cnt = foldl clear_vertex s (slots (headInstr s - window (core s)) cnt).
Proof.
  unfold clear_slots, slots. set (first := headInstr s - window (core s)). clearbody first.
  generalize (seqZ 0 cnt). intros l. revert s. induction l as [|i l IH]; intros s; [done|].
  rewrite bind_cons, foldl_app. cbn [foldl]. rewrite IH. reflexivity.
Qed.

Lemma slots_elem first cnt v :
  0 <= first -> first + cnt < 2 ^ 63 -> v ∈ slots first cnt <-> first <= instrNum v < first + cnt.
Proof.
  intros Hf Hc. unfold slots. rewrite list_elem_of_bind. split.
  - intros (i & Hv & Hi%elem_of_seqZ). apply list_elem_of_fmap in Hv as (t & -> & _). cbn.
    rewrite u64_small by (unfold u64_size; lia). lia.
  - intros Hv. exists (instrNum v - first). rewrite elem_of_seqZ. split; [|lia].
    apply list_elem_of_fmap. exists (type v). split.
    + rewrite u64_small by (unfold u64_size; lia). destruct v; cbn. f_equal. lia.
    + unfold all_types. rewrite !elem_of_cons. destruct (type v); tauto.
Qed.

Context (z : Sizes) (p : Params) (W : Z) (Hok : adv_ok z p W).

Lemma advance_sched E S hs (s : Adv) count :
  adv_inv z p W E S hs s -> counted (headScheduledInstr s) S (alreadyScheduled s) count ->
  scheduled (instrBufferSize p) E (instrCount (core s)) (headScheduledInstr s + count) S
    (drop (Z.to_nat count) (alreadyScheduled s)) /\ count <= instrBufferSize p + 1.
Proof using Hok.
  intros Hinv (C1 & C2 & C3 & C4 & C5).
  destruct (ai_sched _ _ _ _ _ _ _ Hinv) as [S1 S2 S3 S4 S5 S6 S7 S8]. pose proof (adv_ok_window _ _ _ Hok).
  assert (Hlast : count = 0 \/ headScheduledInstr s + count - 1 ∈ S).
  { destruct (decide (count = 0)); [by left|right]. apply C2. lia. }
  split.
  - split; try assumption.
    + intros i Hi. apply S2 in Hi. lia.
    + intros i Hi. destruct (decide (i < headScheduledInstr s)); [apply S4|apply C2]; lia.
    + destruct Hlast as [|Hl]; [lia|]. apply S2 in Hl. lia.
    + intros i. rewrite C4, S7. split; [tauto|]. intros [Hi Hle]. split; [split; [done|lia]|done].
  - destruct Hlast as [|Hl]; [lia|]. apply S2 in Hl. lia.
Qed.

(** The maps of edges when [cnt] slots are emptied. *)
Record emptied (s : Adv) (cnt : Z) (ch : adjacency) (pa : ancestry) : Prop := {
  em_keep : forall k, k ∉ VertexKey (base (core s)) <$> slots (lo_of W s) cnt ->
    edge_at ch k = edge_at (graphChildren s) k /\ parents_at pa k = parents_at (graphParents s) k;
  em_clear : forall k, k ∈ VertexKey (base (core s)) <$> slots (lo_of W s) cnt ->
    edge_at ch k = [] /\ parents_at pa k = []
}.

Section Moved.
Context (E : list Edge) (S : list Z) (hs : History) (s : Adv) (Hinv : adv_inv z p W E S hs s).
Context (cnt : Z) (Hcnt : 0 <= cnt <= W).
Context (ch : adjacency) (pa : ancestry) (Hem : emptied s cnt ch pa).
Notation lo := (lo_of W s).

Lemma head_range : W <= headInstr s < 2 ^ 62 + 2 ^ 32.
Proof using Hinv Hok.
  pose proof (ai_core _ _ _ _ _ _ _ Hinv) as [_ _ _ R4 _ _ _]. pose proof (ao_window _ _ _ Hok).
  pose proof (sc_heads _ _ _ _ _ _ (ai_sched _ _ _ _ _ _ _ Hinv)).
  pose proof (window_pos z p W Hok). pose proof (Z.mul_div_le W 2 ltac:(lia)).
  destruct (ai_room _ _ _ _ _ _ _ Hinv), (ai_head _ _ _ _ _ _ _ Hinv); lia.
Qed.

Lemma emptied_slots v : v ∈ slots lo cnt <-> lo <= instrNum v < lo + cnt.
Proof using Hinv Hok Hcnt.
  pose proof head_range. pose proof (ao_window _ _ _ Hok). apply slots_elem; unfold lo_of; lia.
Qed.

Lemma emptied_live v :
  lo + cnt <= instrNum v < headInstr s ->
  edge_at ch (VertexKey (base (core s)) v) = edge_at (graphChildren s) (VertexKey (base (core s)) v) /\
  parents_at pa (VertexKey (base (core s)) v) = parents_at (graphParents s) (VertexKey (base (core s)) v).
Proof using Hinv Hok Hcnt Hem.
  intros Hv. apply (em_keep _ _ _ _ Hem). intros (u & Ek & Hu%emptied_slots)%list_elem_of_fmap.
  apply (vertex_key_inj W (window_pos z p W Hok) _ lo) in Ek; [subst; lia| |unfold lo_of in *; lia..].
  apply (rc_window _ _ _ _ _ (ai_core _ _ _ _ _ _ _ Hinv)).
Qed.

(** An emptied slot is the one of the instruction a window later. *)
Lemma emptied_new v :
  headInstr s <= instrNum v < headInstr s + cnt ->
  edge_at ch (VertexKey (base (core s)) v) = [] /\ parents_at pa (VertexKey (base (core s)) v) = [].
Proof using Hinv Hok Hcnt Hem.
  intros Hv. apply (em_clear _ _ _ _ Hem), list_elem_of_fmap.
  exists (mkVertex (type v) (instrNum v - W)). split; [|apply emptied_slots; cbn; unfold lo_of; lia].
  unfold VertexKey. cbn. f_equal. pose proof (rc_window _ _ _ _ _ (ai_core _ _ _ _ _ _ _ Hinv)) as Hw.
  unfold window in Hw. rewrite Hw. pose proof (window_pos z p W Hok).
  rewrite <- (Z.mod_add (instrNum v - W) 1 W) by lia. f_equal. lia.
Qed.

Lemma emptied_narrow : narrow ch.
Proof using Hinv Hem.
  intros k e He. destruct (decide (k ∈ VertexKey (base (core s)) <$> slots lo cnt)) as [Hk|Hk].
  - destruct (em_clear _ _ _ _ Hem k Hk) as [Hn _]. rewrite Hn in He. by apply not_elem_of_nil in He.
  - destruct (em_keep _ _ _ _ Hem k Hk) as [Hn _]. rewrite Hn in He.
    by apply (ai_narrow _ _ _ _ _ _ _ Hinv) in He.
Qed.

Lemma advance_inv count m :
  counted (headScheduledInstr s) S (alreadyScheduled s) count ->
  (cnt <> 0 -> headInstr s + cnt - (headScheduledInstr s + count) <= W / 2) ->
  adv_inv z p W E S hs
    (mkAdvanced (core s) ch pa (headInstr s + cnt) (headScheduledInstr s + count)
       (drop (Z.to_nat count) (alreadyScheduled s)) m).
Proof using Hinv Hok Hcnt Hem.
  intros HC Hhead. destruct (advance_sched _ _ _ _ _ Hinv HC) as [HS _].
  pose proof (ai_room _ _ _ _ _ _ _ Hinv) as [Hr1 Hr2]. pose proof (window_pos z p W Hok) as HW.
  assert (Hlo : lo_of W (mkAdvanced (core s) ch pa (headInstr s + cnt) (headScheduledInstr s + count)
    (drop (Z.to_nat count) (alreadyScheduled s)) m) = lo + cnt) by (unfold lo_of; cbn; lia).
  destruct HC as (Hc0 & _).
  split; rewrite ?Hlo; clear Hlo; cbn [core headInstr headScheduledInstr alreadyScheduled graphChildren graphParents].
  - apply (ai_core _ _ _ _ _ _ _ Hinv).
  - apply (ai_config _ _ _ _ _ _ _ Hinv).
  - apply (ai_windows _ _ _ _ _ _ _ Hinv).
  - apply (ai_program _ _ _ _ _ _ _ Hinv).
  - lia.
  - destruct (decide (cnt = 0)) as [->|Hne]; [|right; by apply Hhead].
    destruct (ai_head _ _ _ _ _ _ _ Hinv); [left|right]; lia.
  - intros v Hv Hns. rewrite (proj1 (emptied_live v ltac:(lia))).
    apply (ai_live _ _ _ _ _ _ _ Hinv); [lia|exact Hns].
  - intros v Hv. destruct (decide (headInstr s <= instrNum v)); [apply emptied_new; lia|].
    pose proof (ai_fresh _ _ _ _ _ _ _ Hinv v ltac:(lia)) as Hf.
    destruct (decide (lo + cnt <= instrNum v)).
    + destruct (emptied_live v ltac:(lia)) as [-> ->]. exact Hf.
    + apply (em_clear _ _ _ _ Hem), list_elem_of_fmap. exists v. split; [done|]. apply emptied_slots.
      pose proof (lo_head z p W Hok _ _ _ _ Hinv). pose proof (sc_heads _ _ _ _ _ _ (ai_sched _ _ _ _ _ _ _ Hinv)).
      lia.
  - exact emptied_narrow.
  - intros pe Hpe Hle. apply (ai_tight _ _ _ _ _ _ _ Hinv); [exact Hpe|lia].
  - eapply ranked_mono; [|apply (ai_rank _ _ _ _ _ _ _ Hinv)]. intros k.
    apply (rank_mono W HW); [apply (C_pos z p W Hok)|lia|lia].
  - apply (ai_order _ _ _ _ _ _ _ Hinv).
  - exact HS.
  - apply (ai_logged _ _ _ _ _ _ _ Hinv).
  - apply (ai_order_edges _ _ _ _ _ _ _ Hinv).
Qed.
End Moved.

Lemma advance_ok E S hs (s : Adv) count :
  adv_inv z p W E S hs s -> counted (headScheduledInstr s) S (alreadyScheduled s) count ->
  exists s' cnt, advance_heads s count = (s', cnt) /\ adv_inv z p W E S hs s' /\
    instrCount (core s') = instrCount (core s) /\ headScheduledInstr s' = headScheduledInstr s + count /\
    headInstr s' = headInstr s + cnt /\ 0 <= cnt /\ W / 4 <= headInstr s' - headScheduledInstr s'.
Proof using Hok.
  intros Hinv HC. destruct (advance_sched _ _ _ _ _ Hinv HC) as [HS _]. pose proof HC as (C1 & _).
  pose proof (sc_heads _ _ _ _ _ _ HS) as Hh. pose proof (head_range _ _ _ _ Hinv) as HH.
  pose proof (ai_room _ _ _ _ _ _ _ Hinv) as [_ Hr2]. pose proof (ao_window _ _ _ Hok) as HW32.
  pose proof (rc_window _ _ _ _ _ (ai_core _ _ _ _ _ _ _ Hinv)) as HW.
  pose proof (sc_heads _ _ _ _ _ _ (ai_sched _ _ _ _ _ _ _ Hinv)) as Hh0.
  pose proof (window_pos z p W Hok) as HWp. pose proof (Z.mul_div_le W 4 ltac:(lia)) as HW4.
  assert (Hq : W / 4 + W / 4 <= W / 2) by (apply half_le; lia).
  set (h' := headScheduledInstr s + count) in *.
  unfold advance_heads. cbv zeta. cbn [set_scheduled set_heads headScheduledInstr headInstr core alreadyScheduled
    graphChildren graphParents maxSchedInstrNum]. fold h'. rewrite HW.
  rewrite (u64_small h') by (unfold u64_size; lia). rewrite (u64_small (headInstr s - h')) by (unfold u64_size; lia).
  set (cnt := if headInstr s - h' <? W / 4 then W / 4 else 0).
  assert (Hcnt : 0 <= cnt <= W /\ (cnt <> 0 -> headInstr s + cnt - h' <= W / 2) /\
                 W / 4 <= headInstr s + cnt - h').
  { unfold cnt. destruct (Z.ltb_spec (headInstr s - h') (W / 4)); lia. }
  clearbody cnt. destruct Hcnt as (Hc1 & Hc2 & Hc3).
  set (s1 := mkAdvanced (core s) (graphChildren s) (graphParents s) (headInstr s) h'
    (drop (Z.to_nat count) (alreadyScheduled s)) (maxSchedInstrNum s)). rewrite (clear_slots_fold s1).
  assert (H1 : headInstr s1 - window (core s1) = lo_of W s) by (unfold lo_of; rewrite <- HW; reflexivity).
  rewrite H1. clear H1.
  destruct (clear_vertices_ok (slots (lo_of W s) cnt) s1) as (ch & pa & -> & Hkeep & Hclear).
  eexists. exists cnt. split; [reflexivity|]. cbn [set_heads set_edges core headScheduledInstr headInstr s1
    graphChildren graphParents alreadyScheduled maxSchedInstrNum].
  rewrite (u64_small (headInstr s + cnt)) by (unfold u64_size; lia).
  split; [|split; [done|split; [done|split; [done|split; lia]]]].
  apply (advance_inv E S hs s Hinv cnt Hc1 ch pa); [split; assumption|exact HC|exact Hc2].
Qed.
End Advance.

(** * The main loop of the sliding-window core

    Instructions are read as the window moves, one at least is scheduled in every
    round, and the loop ends when the trace does and all of it is scheduled. *)

Section Run.
Context {CI CD BP : Type} `{!Cache CI} `{!Cache CD} `{!CacheLaws CI} `{!CacheLaws CD}.
Context `{!BranchPredictor BP}.
Notation Adv := (@O3CoreGraphAdvanced CI CD BP).
Context (z : Sizes) (p : Params) (W : Z) (Hok : adv_ok z p W).
Context (total : Z) (Hfit : fits p W total).

Lemma read_instrs_ok S hs k : forall E (s : Adv) trace,
  adv_inv z p W E S hs s -> instrCount (core s) + Z.of_nat k <= headInstr s ->
  instrCount (core s) + Z.of_nat (List.length trace) = total -> Forall instr_ok trace ->
  exists es s' trace' avail, read_instrs k s trace = Ok (s', trace', avail) /\
    adv_inv z p W (E ++ es) S hs s' /\ Forall instr_ok trace' /\
    instrCount (core s') + Z.of_nat (List.length trace') = total /\
    headInstr s' = headInstr s /\ headScheduledInstr s' = headScheduledInstr s /\
    instrCount (core s) <= instrCount (core s') /\
    if avail : bool then instrCount (core s') = instrCount (core s) + Z.of_nat k else trace' = [].
Proof using All.
  induction k as [|k IH]; intros E s trace Hinv Hroom Htot Htr.
  - exists [], s, trace, true. rewrite app_nil_r. split; [reflexivity|]. split; [done|]. split; [done|].
    split; [done|]. split; [done|]. split; [done|]. lia.
  - destruct trace as [|instr trace].
    + exists [], s, [], false. rewrite app_nil_r. split; [reflexivity|]. split; [done|]. split; [done|].
      split; [done|]. split; [done|]. split; [done|]. split; [lia|done].
    + apply Forall_cons in Htr as [Hi Htr]. cbn [List.length] in Htot.
      destruct (read_instr_ok z p W Hok E S hs s instr total Hinv Hfit) as
        (es & s1 & s2 & E1 & E2 & Hinv2 & Hn2 & Hh1 & Hh2); [lia|lia|exact Hi|].
      destruct (IH (E ++ es) (next_instr s2) trace Hinv2) as
        (es' & s' & tr' & av & E3 & Hinv' & Htr' & Htot' & HH & HHs & Hn' & Hav);
        [cbn [headInstr next_instr set_core]; lia|lia|exact Htr|].
      exists (es ++ es'), s', tr', av. split.
      { cbn [read_instrs]. rewrite E1. cbn [mbind res_bind]. rewrite E2. cbn [mbind res_bind]. exact E3. }
      clear E1 E2 E3. rewrite app_assoc. split; [exact Hinv'|]. split; [exact Htr'|]. split; [exact Htot'|].
      split; [by rewrite HH|]. split; [by rewrite HHs|]. split; [lia|]. destruct av; [lia|exact Hav].
Qed.

Context (fuel : nat) (Hfuel : fuel_for W <= Z.of_nat fuel).

Lemma total_fuel : total <= Z.of_nat fuel.
Proof using Hok Hfit Hfuel.
  pose proof (adv_ok_window _ _ _ Hok). unfold fits, fuel_for, INT64_MAX in *. nia.
Qed.

(** A call of [modelResourceDependencies]. *)
Lemma round_ok E S hs (s : Adv) :
  adv_inv z p W E S hs s -> instrCount (core s) <= total ->
  headScheduledInstr s < instrCount (core s) -> headScheduledInstr s ∉ S ->
  exists s' cnt all S' hs', modelResourceDependencies true fuel s = Ok (s', cnt, all) /\
    adv_inv z p W E S' hs' s' /\ (List.length S < List.length S')%nat /\
    headScheduledInstr s' ∉ S' /\ instrCount (core s') = instrCount (core s) /\
    headInstr s' = headInstr s + cnt /\ 0 <= cnt /\ W / 4 <= headInstr s' - headScheduledInstr s' /\
    headScheduledInstr s' <= headScheduledInstr s + instrBufferSize p + 1 /\
    (all = true <-> instrCount (core s) <= headScheduledInstr s').
Proof using All.
  intros Hinv Htot Hnext Hhead. pose proof total_fuel as Hf. unfold modelResourceDependencies.
  destruct (schedule_loop_ok z p W Hok total Hfit fuel Hfuel E fuel S hs s Hinv Htot Hnext Hhead)
    as (s1 & S1 & hs1 & count & all & El & Hinv1 & (P1 & P2 & P3) & Hlen & HC & Hall).
  - lia.
  - rewrite El. cbn [mbind res_bind]. clear El. rewrite <- P3 in HC.
    destruct (advance_sched z p W Hok E S1 hs1 s1 count Hinv1 HC) as [_ Hcb].
    destruct (advance_ok z p W Hok E S1 hs1 s1 count Hinv1 HC)
      as (s' & cnt & -> & Hinv' & N1 & N2 & N3 & N4 & N5).
    exists s', cnt, all, S1, hs1. split; [reflexivity|]. split; [exact Hinv'|]. split; [exact Hlen|].
    destruct HC as (_ & _ & C3 & _). split; [by rewrite N2|]. split; [congruence|]. split; [congruence|].
    split; [exact N4|]. split; [exact N5|]. split; [lia|]. rewrite N2, P3. exact Hall.
Qed.

(** Between the rounds. *)
Record between_rounds (E : list Edge) (S : list Z) (hs : History) (s : Adv) (trace : list Instruction)
    (avail all : bool) (read_new : Z) : Prop := {
  br_inv : adv_inv z p W E S hs s;
  br_trace : Forall instr_ok trace;
  br_total : instrCount (core s) + Z.of_nat (List.length trace) = total;
  br_head : headScheduledInstr s ∉ S;
  br_room : W / 4 <= headInstr s - headScheduledInstr s;
  br_new : 0 <= read_new;
  br_avail : if avail then instrCount (core s) + read_new = headInstr s /\
                           headScheduledInstr s < instrCount (core s)
             else trace = [];
  br_all : if all then instrCount (core s) <= headScheduledInstr s
           else headScheduledInstr s < instrCount (core s)
}.

(** Reading makes the next round possible. *)
Lemma refill E S hs s trace avail all read_new :
  between_rounds E S hs s trace avail all read_new -> avail || negb all = true ->
  exists es s' trace' avail',
    (if avail && negb (read_new =? 0) then read_instrs (Z.to_nat read_new) s trace
     else Ok (s, trace, avail)) = Ok (s', trace', avail') /\
    adv_inv z p W (E ++ es) S hs s' /\ Forall instr_ok trace' /\
    instrCount (core s') + Z.of_nat (List.length trace') = total /\
    headInstr s' = headInstr s /\ headScheduledInstr s' = headScheduledInstr s /\
    headScheduledInstr s' < instrCount (core s') /\
    if avail' : bool then instrCount (core s') = headInstr s' else trace' = [].
Proof using All.
  intros [B1 B2 B3 B4 B5 B6 B7 B8] Hg.
  assert (Hnext : headScheduledInstr s < instrCount (core s)) by (destruct avail, all; tauto || discriminate).
  destruct (avail && negb (read_new =? 0)) eqn:Er.
  - apply andb_true_iff in Er as [-> Hr]. destruct B7 as [B7 _].
    destruct (read_instrs_ok S hs (Z.to_nat read_new) E s trace B1) as
      (es & s' & tr' & av & Ei & Hi & Ht & Htot & H1 & H2 & Hle & Hav); [lia|exact B3|exact B2|].
    exists es, s', tr', av. split; [exact Ei|]. clear Ei. split; [exact Hi|]. split; [exact Ht|].
    split; [exact Htot|]. split; [exact H1|]. split; [exact H2|]. split; [lia|].
    destruct av; [lia|exact Hav].
  - exists [], s, trace, avail. rewrite app_nil_r. split; [reflexivity|]. split; [exact B1|].
    split; [exact B2|]. split; [exact B3|]. split; [done|]. split; [done|]. split; [exact Hnext|].
    destruct avail; [|exact B7]. cbn in Er. apply negb_false_iff, Z.eqb_eq in Er. lia.
Qed.

(** Everything is scheduled. *)
Definition finished (E : list Edge) (S : list Z) (hs : History) (s : Adv) : Prop :=
  adv_inv z p W E S hs s /\ instrCount (core s) = total /\ headScheduledInstr s = total.

Lemma rounds_ok n : forall E S hs s trace avail all read_new,
  between_rounds E S hs s trace avail all read_new ->
  total - Z.of_nat (List.length S) <= Z.of_nat n ->
  exists E' S' hs' s', run_loop true fuel n s trace avail all read_new = Ok s' /\ finished E' S' hs' s'.
Proof using All.
  induction n as [|n IH]; intros E S hs s trace avail all read_new HB Hn;
    (destruct (avail || negb all) eqn:Hg; cbn [run_loop]; rewrite Hg;
     [|exists E, S, hs, s; split; [reflexivity|]; apply orb_false_iff in Hg as [-> Hg];
       destruct all; [|discriminate Hg]; destruct HB as [B1 _ B3 _ _ _ B7 B8]; cbn in B7, B8; subst trace;
       cbn in B3; pose proof (sc_heads _ _ _ _ _ _ (ai_sched _ _ _ _ _ _ _ B1)); split; [done|lia]]).
  - exfalso. destruct (refill _ _ _ _ _ _ _ _ HB Hg) as (es & s' & tr' & av & _ & Hi & _ & Ht & _ & Hh & Hlt & _).
    pose proof (br_head _ _ _ _ _ _ _ _ HB) as Hhead. rewrite <- Hh in Hhead.
    destruct (ai_sched _ _ _ _ _ _ _ Hi) as [S1 S2 _ _ S5 _ _ _].
    assert (Hsub : (headScheduledInstr s' :: S) ⊆ seqZ 0 (instrCount (core s'))).
    { intros i [->|Hi']%elem_of_cons; apply elem_of_seqZ; [lia|]. apply S2 in Hi'. lia. }
    apply NoDup_submseteq in Hsub; [|by apply NoDup_cons]. apply submseteq_length in Hsub.
    rewrite length_seqZ in Hsub. cbn in Hsub. lia.
  - destruct (refill _ _ _ _ _ _ _ _ HB Hg) as (es & s1 & tr1 & av & Er & Hi & Htr & Ht & HH & Hh & Hlt & Hav).
    rewrite Er. cbn [mbind res_bind]. clear Er.
    pose proof (br_head _ _ _ _ _ _ _ _ HB) as Hhead. rewrite <- Hh in Hhead.
    destruct (round_ok (E ++ es) S hs s1 Hi) as
      (s2 & cnt & all2 & S2 & hs2 & Em & Hi2 & Hlen & Hh2 & N2 & H2 & Hc2 & Hr2 & Hb2 & Ha2);
      [lia|exact Hlt|exact Hhead|].
    rewrite Em. cbn [mbind res_bind]. clear Em.
    apply (IH (E ++ es) S2 hs2); [|lia]. split; try assumption; try lia.
    + destruct av; [|exact Hav]. pose proof (br_room _ _ _ _ _ _ _ _ HB).
      pose proof (ao_buffer _ _ _ Hok). lia.
    + rewrite N2. destruct all2; [by apply Ha2|].
      destruct (decide (headScheduledInstr s2 < instrCount (core s1))); [done|].
      destruct Ha2 as [_ Ha2]. discriminate Ha2. lia.
Qed.
End Run.

(** ** Construction and the whole analysis *)

Lemma reset_slots_at m n j c :
  reset_slots m n !! j = Some c -> c = UINT32_MAX \/ m !! j = Some c.
Proof.
  unfold reset_slots. generalize (seqZ 0 n) as l. intros l. revert m.
  induction l as [|i l IH]; intros m; [by right|]. cbn [foldl]. intros [->|H]%IH; [by left|].
  destruct (decide (i = j)) as [->|Hne].
  - rewrite lookup_insert_eq in H. left. congruence.
  - rewrite lookup_insert_ne in H by done. by right.
Qed.

Section New.
Context {CI CD BP : Type} `{!Cache CI} `{!Cache CD} `{!CacheLaws CI} `{!CacheLaws CD}.
Context `{!BranchPredictor BP}.
Notation Adv := (@O3CoreGraphAdvanced CI CD BP).
Context (z : Sizes) (p : Params) (W : Z) (Hok : adv_ok z p W).

Lemma start_ranked N g : (forall k, 0 <= N k) -> fresh g -> ranked N g.
Proof using.
  intros HN [HB Hz]. split; [by apply (accounted_mono (fun _ => 0))|]. intros k. unfold len_of.
  rewrite Hz. cbn. specialize (HN k). lia.
Qed.

Lemma start_rank lo k : 0 <= lo -> 0 <= rank W (C p) lo 0 k.
Proof using Hok.
  intros Hl. unfold rank. pose proof (occupant_ge W (window_pos z p W Hok) lo k.2).
  assert (0 <= stage_no k.1) by (unfold stage_no; lia). lia.
Qed.

Lemma start_scheduled B : scheduled B [] 0 0 [] [].
Proof using.
  split; [constructor|intros i Hi; by apply not_elem_of_nil in Hi|constructor|lia|lia|constructor| |].
  - intros i. split; [intros Hi|intros [Hi _]]; by apply not_elem_of_nil in Hi.
  - intros x y _ _ Hy. by apply not_elem_of_nil in Hy.
Qed.

Lemma start_book mem_int mem_fp mem_types w : 
  let b := board mem_int mem_fp z in
  List.length w = Z.to_nat (lq_size z + sq_size z) ->
  List.length mem_types = Z.to_nat (lq_size z + sq_size z) ->
  book_adv z [] 0 (mkBook UINT64_MAX UINT64_MAX UINT64_MAX false false 0 UINT64_MAX ∅ ∅
    (reset_ld_st w (u32 (getQueueSize b RscLQ + getQueueSize b RscSQ))) mem_types 0
    (reset_slots ∅ W) (reset_slots ∅ W)).
Proof using Hok.
  intros b Hw Ht. destruct (ao_sizes _ _ _ Hok) as [HF Hsm]. rewrite !Forall_cons in HF.
  destruct HF as (_ & _ & _ & _ & _ & _ & _ & Hlq & Hsq & _).
  assert (Hs : forall j c, reset_slots ∅ W !! j = Some c -> 0 <= c < 2 ^ 32).
  { intros j c [->|H]%reset_slots_at; [by unfold UINT32_MAX|by rewrite lookup_empty in H]. }
  split; cbn; try exact Hs; [by left|done|by left| | |lia].
  - intros r i x Hr. by rewrite lookup_empty in Hr.
  - split; [|done]. unfold reset_ld_st. by rewrite length_imap.
Qed.

Lemma start_ok mem_int mem_fp mem_mix mem_types mem_max (ic : option CI) (pred : option BP) :
  List.length mem_int = Z.to_nat (int_mul_div_count z) ->
  List.length mem_fp = Z.to_nat (fp_mul_div_count z) ->
  List.length mem_types = Z.to_nat (lq_size z + sq_size z) ->
  option_ok ic ->
  exists s : Adv, O3CoreGraphAdvanced_new mem_int mem_fp mem_mix mem_types mem_max W p z ic None pred = Ok s /\
    adv_inv z p W [] [] no_requests s /\
    instrCount (core s) = 0 /\ headScheduledInstr s = 0 /\ headInstr s = W.
Proof using Hok.
  intros Li Lf Lt Hic. unfold O3CoreGraphAdvanced_new. rewrite init_scoreboard_board, res_bind_ok.
  pose proof (board_set_up mem_int mem_fp z) as Hsu. set (b := board mem_int mem_fp z) in *.
  pose proof (board_ready mem_int mem_fp z (ao_sizes _ _ _ Hok) Li Lf) as Hrd. fold b in Hrd.
  rewrite (alu_latency z b Hsu). eexists. split; [reflexivity|].
  pose proof (window_pos z p W Hok) as HW. pose proof (C_pos z p W Hok).
  assert (Hf : fresh (reset_types (reset_first (mkGraph W 20 5 20 1 ∅ ∅ ∅ ∅))))
    by (by apply reset_fresh, empty_fresh).
  split; [|done]. split; unfold lo_of; cbn [CalA.initBookKeeping set_heads set_core core headInstr headScheduledInstr
    alreadyScheduled graphChildren graphParents set_base set_book instrCount base scheduleOrder scoreboard
    analyzedWindows List.length].
  - split; try done.
    refine (start_book mem_int mem_fp mem_types
      (replicate (Z.to_nat (u32 (lq_size z + sq_size z))) (0, (0, 0))) _ Lt). rewrite length_replicate. f_equal. unfold u32. apply Z.mod_small.
    destruct (ao_sizes _ _ _ Hok) as [HF Hsm]. rewrite !Forall_cons in HF. lia.
  - split; [split; done|done].
  - done.
  - split; intros pe Hpe; by apply not_elem_of_nil in Hpe.
  - change (W <= W /\ 0 <= W). lia.
  - by left.
  - intros v Hv. change (W - W <= instrNum v < 0) in Hv. lia.
  - intros v _. unfold edge_at, parents_at. by rewrite !lookup_empty.
  - intros k e He. unfold edge_at in He. rewrite lookup_empty in He. by apply not_elem_of_nil in He.
  - intros pe Hpe. by apply not_elem_of_nil in Hpe.
  - apply start_ranked; [|exact Hf]. intros k. apply (start_rank (W - W)). lia.
  - split; [constructor|]. intros i l. split; [intros Hl; by apply not_elem_of_nil in Hl|intros [[? _] _]; lia].
  - apply start_scheduled.
  - split; [by apply ready_refines|split; constructor|done|done].
  - intros i Hi. lia.
Qed.
End New.

Section Analyse.
Context {CI CD BP : Type} `{!Cache CI} `{!Cache CD} `{!CacheLaws CI} `{!CacheLaws CD}.
Context `{!BranchPredictor BP}.
Notation Adv := (@O3CoreGraphAdvanced CI CD BP).
Context (z : Sizes) (p : Params) (W : Z) (Hok : adv_ok z p W).

Lemma analyse_adv (s : Adv) hs trace fuel :
  adv_inv z p W [] [] hs s -> instrCount (core s) = 0 -> headScheduledInstr s = 0 ->
  headInstr s = W -> trace <> [] -> Forall instr_ok trace ->
  fits p W (Z.of_nat (List.length trace)) -> fuel_for W <= Z.of_nat fuel ->
  exists E S hs' s', analyse true fuel s trace = Ok s' /\
    finished z p W (Z.of_nat (List.length trace)) E S hs' s'.
Proof using All.
  intros Hinv H0 Hh HH Hne Htr Hfit Hf. set (total := Z.of_nat (List.length trace)) in *.
  pose proof (window_pos z p W Hok) as HW.
  assert (Htot : 0 < total) by (unfold total; destruct trace; [done|cbn; lia]).
  unfold analyse. rewrite (rc_window _ _ _ _ _ (ai_core _ _ _ _ _ _ _ Hinv)).
  destruct (read_instrs_ok z p W Hok total Hfit [] hs (Z.to_nat W) [] s trace Hinv)
    as (es & s1 & tr1 & av & E1 & Hi & Ht1 & Hn1 & H1 & H2 & _ & Hav); [lia|lia|exact Htr|].
  rewrite E1. cbn [mbind res_bind]. clear E1.
  apply (rounds_ok z p W Hok total Hfit fuel Hf fuel ([] ++ es) [] hs).
  - assert (Hpos : 0 < instrCount (core s1)) by (destruct av; [lia|]; rewrite Hav in Hn1; cbn in Hn1; lia).
    split; try assumption; try lia.
    + apply not_elem_of_nil.
    + pose proof (Z.div_le_upper_bound W 4 W). lia.
    + destruct av; [lia|exact Hav].
  - cbn. pose proof (total_fuel z p W Hok total Hfit fuel Hf). lia.
Qed.

(** What the invariant says at the end. *)
Lemma finished_all total E S hs (s : Adv) :
  finished z p W total E S hs s ->
  S ≡ₚ seqZ 0 total /\ scheduleOrder (core s) = [].
Proof using.
  intros (Hinv & Hn & Hh). pose proof (ai_sched _ _ _ _ _ _ _ Hinv) as [S1 S2 _ S4 S5 _ _ _].
  split.
  - apply NoDup_Permutation; [done|apply NoDup_seqZ|]. intros i. rewrite elem_of_seqZ. split.
    + intros Hi%S2. lia.
    + intros Hi. apply S4. lia.
  - destruct (scheduleOrder (core s)) as [|[i l] o] eqn:Eo; [done|]. exfalso.
    pose proof (ai_order _ _ _ _ _ _ _ Hinv) as Ho. rewrite Eo in Ho.
    destruct (order_ok_fst _ _ _ i Ho ltac:(by left)) as [Hi HS]. apply HS, S4. lia.
Qed.

Lemma inv_balanced E S hs (s : Adv) total :
  adv_inv z p W E S hs s -> fits p W total -> instrCount (core s) <= total ->
  balanced (INT64_MAX / 6) (base (core s)).
Proof using Hok.
  intros Hinv Hfit Hn. pose proof (ai_rank _ _ _ _ _ _ _ Hinv) as [HA _].
  eapply accounted_mono; [|exact HA]. intros k. cbn beta.
  pose proof (scheduled_count _ _ _ _ _ _ (ai_sched _ _ _ _ _ _ _ Hinv)).
  pose proof (lo_head z p W Hok _ _ _ _ Hinv) as (L1 & L2 & _).
  pose proof (sc_heads _ _ _ _ _ _ (ai_sched _ _ _ _ _ _ _ Hinv)).
  destruct (rank_fits z p W Hok total (lo_of W s) (Z.of_nat (List.length S)) k Hfit) as (_ & _ & H6); [lia|lia|].
  apply Z.div_le_lower_bound; lia.
Qed.
End Analyse.
