(* ===== verification/CalipersAdvancedTheorems.v ===== *)
(** * Properties of the sliding-window core of Calipers

    The analysis of a trace ends with every instruction scheduled, none of its checks
    fails.  Propagating an edge ends and leaves every edge relaxed if the graph leads
    up; it cannot end if the graph has a cycle.  The schedule is exact at every moment
    of a run.  An empty trace is not handled. *)

From Stdlib Require Import Sorted.
From S2P Require Import Prelude Machine CalipersCache CalipersFacts CalipersCycles CalipersPaths.
From S2P Require Import CalipersScoreboard CalipersScoreFacts CalipersO3 CalipersO3Facts.
From S2P Require Import CalipersO3Steps CalipersO3Window CalipersO3Run CalipersO3Trace.
From S2P Require Import CalipersReport CalipersReportFacts CalipersO3Theorems CalipersAdvanced.
From S2P Require Import CalipersWorklist CalipersAdvancedEdges CalipersAdvancedInv.
From S2P Require Import CalipersAdvancedSchedule CalipersAdvancedRun.

#[local] Open Scope list_scope.
#[local] Open Scope Z_scope.

Import CalG CalS CalO CalA CalW.

(** ** Configurations *)

(** A configuration whose window is large enough. *)
Definition sliding_ok (c : configuration) : Prop :=
  configuration_ok c /\ adv_ok (c_sizes c) (c_params c) (c_window c).
Definition build_advanced {CI CD BP} (c : configuration) (mem_max : Z) (ic : option CI)
    (pred : option BP) : res (@O3CoreGraphAdvanced CI CD BP) :=
  O3CoreGraphAdvanced_new (c_int c) (c_fp c) (c_mix c) (c_types c) mem_max (c_window c)
    (c_params c) (c_sizes c) ic None pred.
Definition short_enough (c : configuration) (trace : list Instruction) : Prop :=
  fits (c_params c) (c_window c) (Z.of_nat (List.length trace)).

Lemma demo_sliding : sliding_ok (demo_core OOO_SLIDING_WINDOW).
Proof.
  split; [by apply demo_core_ok|]. destruct (demo_core_ok OOO_SLIDING_WINDOW ltac:(by split)) as [_ C2 C3 _ _ _].
  split; [exact C2|exact C3|cbn; unfold OOO_SLIDING_WINDOW; lia|vm_compute; discriminate| |];
    repeat (apply Forall_cons; split; [cbn; unfold OOO_SLIDING_WINDOW; lia|]); done.
Qed.

Lemma enough_fuel W : 0 < W -> fuel_for W <= Z.of_nat (Z.to_nat (fuel_for W)).
Proof. intros HW. rewrite Z2Nat.id; [lia|]. unfold fuel_for, INT64_MAX. lia. Qed.

Section Core.
Context {CI CD BP : Type} `{!Cache CI} `{!Cache CD} `{!CacheLaws CI} `{!CacheLaws CD}.
Context `{!BranchPredictor BP}.
Notation Adv := (@O3CoreGraphAdvanced CI CD BP).

Lemma build_start c mem_max (ic : option CI) (pred : option BP) :
  sliding_ok c -> option_ok ic ->
  exists s : Adv, build_advanced c mem_max ic pred = Ok s /\
    adv_inv (c_sizes c) (c_params c) (c_window c) [] [] no_requests s /\
    instrCount (core s) = 0 /\ headScheduledInstr s = 0 /\ headInstr s = c_window c.
Proof.
  intros [[_ _ _ C4 C5 C6] Hok] Hi.
  exact (start_ok _ _ _ Hok _ _ (c_mix c) _ mem_max ic pred C4 C5 C6 Hi).
Qed.

(** ** The whole analysis *)

(** Every instruction of the trace is scheduled, each takes an issue slot and an entry
    of the instruction queue once, and the report is complete. *)
Definition completed (name : string) (trace : list Instruction) (s : Adv) (text : list string) : Prop :=
  let n := Z.of_nat (List.length trace) in
  instrCount (core s) = n /\ headScheduledInstr s = n /\ scheduleOrder (core s) = [] /\
  (exists hs, refines (scoreboard (core s)) hs /\
     (units hs RscIssue).*1 ≡ₚ seqZ 0 n /\ (entries hs RscInstrQ).*1 ≡ₚ seqZ 0 n) /\
  text = summary_text name None n n (summary_of (base (core s)) n) (stats (core s)) /\
  complete (summary_of (base (core s)) n).

(** A result, or undefined behaviour on the way to it. *)
Definition or_undefined {A} (m m' : res A) : Prop := m = m' \/ m = Stop Undefined.
Lemma or_undefined_bind {A C} (m m' : res A) (f f' : A -> res C) :
  or_undefined m m' -> (forall x, or_undefined (f x) (f' x)) -> or_undefined (m ≫= f) (m' ≫= f').
Proof using. intros [->| ->] Hf; [|by right]. destruct m' as [x|e]; [apply Hf|by left]. Qed.
Lemma or_undefined_fold {A C} (f f' : A -> C -> res A) l a :
  (forall a x, or_undefined (f a x) (f' a x)) -> or_undefined (res_fold f a l) (res_fold f' a l).
Proof using.
  intros Hf. revert a. induction l as [|x l IH]; intros a; [by left|]. cbn [res_fold].
  by apply or_undefined_bind.
Qed.

(** Reading through the pointers to ended blocks is the only place where [keep] counts. *)
Lemma dereference_or keep pe : or_undefined (dereference keep pe) (dereference true pe).
Proof using. destruct keep; [by left|by right]. Qed.
Lemma update_or keep fuel (s : Adv) es :
  or_undefined (updateCriticalPath keep fuel s es) (updateCriticalPath true fuel s es).
Proof using.
  unfold updateCriticalPath. apply or_undefined_bind; [|intros [[b o] ch]; by left].
  apply or_undefined_fold. intros [[b o] ch] pe. unfold relax_parent.
  apply or_undefined_bind; [apply dereference_or|intros x; by left].
Qed.
Lemma schedule_instr_or keep fuel (s : Adv) curr :
  or_undefined (schedule_instr keep fuel s curr) (schedule_instr true fuel s curr).
Proof using.
  unfold schedule_instr. apply or_undefined_bind; [by left|]. intros [s1 p1].
  apply or_undefined_bind; [by left|]. intros [s2 p2].
  apply or_undefined_bind; [by left|]. intros [s3 p3].
  apply or_undefined_bind; [apply update_or|]. intros s4.
  destruct (operation_of _) as [[op [q|]]|]; [|apply update_or|apply update_or].
  apply or_undefined_bind; [by left|]. intros [s5 p5]. apply update_or.
Qed.
Lemma schedule_loop_or keep fuel n (s : Adv) :
  or_undefined (schedule_loop keep fuel n s) (schedule_loop true fuel n s).
Proof using.
  revert s. induction n as [|n IH]; intros s; [by left|]. cbn [schedule_loop].
  apply or_undefined_bind; [by left|]. intros [curr s1].
  apply or_undefined_bind; [apply schedule_instr_or|]. intros s2.
  cbv zeta. destruct (_ || _); [by left|apply IH].
Qed.
Lemma run_or keep fuel name (s : Adv) trace :
  or_undefined (run keep fuel name s trace) (run true fuel name s trace).
Proof using.
  unfold run. apply or_undefined_bind; [|intros s1; by left]. unfold analyse.
  apply or_undefined_bind; [by left|]. intros [[s1 t1] b1].
  generalize false as all, 0 as rn. revert s1 t1 b1. generalize fuel at 2 4 as n.
  induction n as [|n IH]; intros s1 t1 b1 all rn; cbn [run_loop]; destruct (_ || _); try (by left).
  apply or_undefined_bind; [by left|]. intros [[s2 t2] b2].
  apply or_undefined_bind; [|intros [[s3 r3] a3]; apply IH].
  unfold modelResourceDependencies. apply or_undefined_bind; [apply schedule_loop_or|].
  intros [[s3 c3] a3]. by left.
Qed.

(** C18: every instruction is scheduled in the end, provided the pointers hold.
    updateCriticalPath reads vertices and edges through pointers to variables whose
    blocks have ended (o3_core_graph_advanced.cpp:909, 929, 988, 1021), which is
    undefined; [keep] says whether their storage is still as it was.  Take a
    sliding-window core whose window is large enough for its limits and whose memory
    latencies come from the trace, and a trace that is not empty and not too long.  If
    the storage is intact ([run true]) the run completes: each worklist empties, the main
    loop ends, the checks for an impossible stride and for a missing entry of the
    schedule do not fail, whatever branches are mispredicted; then each instruction has
    taken an issue slot and a queue entry exactly once, and the report is the text of a
    summary of the critical path whose parts make up the whole.  If it is not, the run
    ends in the same way or has met the undefined behaviour of such a pointer; nothing
    else can go wrong. *)
Theorem advanced_run_completes c mem_max (ic : option CI) (pred : option BP) trace fuel name
    (Hc : sliding_ok c) (Hi : option_ok ic) (Ht : Forall instr_ok trace) (Hne : trace <> [])
    (Hfit : short_enough c trace) (Hf : fuel_for (c_window c) <= Z.of_nat fuel) :
  exists (s s' : Adv) text, build_advanced c mem_max ic pred = Ok s /\
    run true fuel name s trace = Ok (s', text) /\ completed name trace s' text /\
    forall keep, or_undefined (run keep fuel name s trace) (Ok (s', text)).
Proof.
  pose proof Hc as [_ Hok].
  destruct (build_start c mem_max ic pred Hc Hi) as (s & Es & Hinv & H1 & H2 & H3).
  destruct (analyse_adv _ _ _ Hok s _ trace fuel Hinv H1 H2 H3 Hne Ht Hfit Hf)
    as (E & S & hs & s' & Ea & Hfin).
  destruct (finished_all _ _ _ _ _ _ _ _ Hfin) as [HP Ho]. destruct Hfin as (Hi' & Hn & Hh).
  pose proof (inv_balanced _ _ _ Hok E S hs s' _ Hi' Hfit ltac:(lia)) as HB.
  assert (Hrun : exists text, run true fuel name s trace = Ok (s', text) /\ completed name trace s' text).
  { eexists. unfold run. rewrite Ea, res_bind_ok. clear Es Ea.
    rewrite (recordStats_ok (INT64_MAX / 6)) by (exact HB || vm_compute; discriminate).
    rewrite res_bind_ok, (ai_windows _ _ _ _ _ _ _ Hi'), Hn, Z.mul_0_l, Z.sub_0_r.
    pose proof (rc_count _ _ _ _ _ (ai_core _ _ _ _ _ _ _ Hi')) as Hr. rewrite Hn in Hr.
    rewrite u64_small by (unfold u64_size; lia).
    split; [reflexivity|]. split; [exact Hn|]. split; [exact Hh|]. split; [exact Ho|].
    split; [|split; [reflexivity|by eapply summary_balanced]].
    destruct (ai_logged _ _ _ _ _ _ _ Hi') as [L1 _ L3 L4]. exists hs. rewrite L3, L4.
    split; [exact L1|split; exact HP]. }
  destruct Hrun as (text & Hr & Hdone). exists s, s', text. split; [exact Es|]. split; [exact Hr|].
  split; [exact Hdone|]. intros keep. rewrite <- Hr. apply run_or.
Qed.

(** C36: an empty trace is not handled.  The main loop asks for the first entry of the
    schedule before anything was entered, which is undefined. *)
Theorem empty_trace_undefined c mem_max (ic : option CI) (pred : option BP) keep fuel name
    (Hc : sliding_ok c) (Hi : option_ok ic) :
  exists s : Adv, build_advanced c mem_max ic pred = Ok s /\
    run keep (Datatypes.S fuel) name s [] = Stop Undefined.
Proof.
  destruct (build_start c mem_max ic pred Hc Hi) as (s & Es & Hinv & H1 & H2 & H3).
  exists s. split; [exact Es|]. clear Es. destruct Hc as [_ Hok].
  pose proof (window_pos _ _ _ Hok) as HW.
  unfold run, analyse. rewrite (rc_window _ _ _ _ _ (ai_core _ _ _ _ _ _ _ Hinv)).
  assert (Hk : exists k, Z.to_nat (c_window c) = Datatypes.S k) by (exists (Z.to_nat (c_window c - 1)); lia).
  destruct Hk as (k & ->). cbn [read_instrs]. rewrite res_bind_ok.
  cbn [run_loop andb orb negb]. rewrite res_bind_ok. unfold modelResourceDependencies. cbn [schedule_loop].
  unfold take_instr. destruct (scheduleOrder (core s)) as [|[i l] o] eqn:Eo; [reflexivity|]. exfalso.
  pose proof (ai_order _ _ _ _ _ _ _ Hinv) as Ho. rewrite Eo in Ho.
  destruct (order_ok_fst _ _ _ i Ho ltac:(by left)) as [Hx _]. lia.
Qed.

(** ** Propagating edges *)

(** The graph [s] holds, with ranks, before the edges [es] into [v] are relaxed. *)
Record propagates (s : Adv) (es : list Edge) (v : Vertex) (N : key -> Z) (R : key -> Prop) (U : Z -> Prop)
    : Prop := {
  pr_region : region (graphChildren s) N R U (base (core s));
  pr_ranked : ranked N (base (core s));
  pr_order : order_ok U (base (core s)) (scheduleOrder (core s));
  pr_narrow : narrow (graphChildren s);
  pr_child : R (VertexKey (base (core s)) v);
  pr_other : forall i, U i -> VertexKey (base (core s)) (exec_of i) <> VertexKey (base (core s)) v;
  pr_edges : Forall (fun pe => child pe.2 = v /\ exists x, rising N (base (core s)) pe.1 pe.2 x) es;
  pr_settled : forall k e, e ∈ edge_at (graphChildren s) k -> tight (base (core s)) k e \/
    exists pe, pe ∈ es /\ k = VertexKey (base (core s)) pe.1 /\ e = pe.2
}.

Section Propagate.
Context (s : Adv) (es : list Edge) (v : Vertex) (N : key -> Z) (R : key -> Prop) (U : Z -> Prop).
Context (HP : propagates s es v N R U).
Notation g0 := (base (core s)).
Notation ch := (graphChildren s).

(** Only the edges out of [v] can be unsettled when those into it are relaxed. *)
Lemma relaxed_settled g1 k :
  grown_from g0 g1 -> (forall k, k <> VertexKey g0 v -> len_of g1 k = len_of g0 k) ->
  (forall pe, pe ∈ es -> len_of g0 (VertexKey g0 pe.1) + lane (weight pe.2) <= len_of g1 (VertexKey g0 v)) ->
  len_of g1 k = len_of g0 k -> settled ch g1 k.
Proof using HP.
  intros G1 O1 T1 Hk e He. destruct (pr_settled _ _ _ _ _ _ HP k e He) as [Ht|(pe & Hpe & -> & ->)].
  - exact (tight_grown g0 g1 k e G1 Hk Ht).
  - right. rewrite (grown_key g0 g1), Hk by apply G1. pose proof (T1 pe Hpe) as Ht.
    pose proof (pr_edges _ _ _ _ _ _ HP) as Hes. rewrite Forall_forall in Hes.
    destruct (Hes pe Hpe) as [Hc _]. rewrite Hc. exact Ht.
Qed.

Lemma relaxed_loop g1 fuel :
  same_config g0 g1 -> ranked N g1 -> grown_from g0 g1 ->
  (forall k, k <> VertexKey g0 v -> len_of g1 k = len_of g0 k) ->
  (forall k, k <> VertexKey g0 v -> settled ch g1 k) -> 1 + slack N g0 <= Z.of_nat fuel ->
  exists w, update_loop fuel ch (mkWork g1 (scheduleOrder (core s)) [v]) = Ok w /\
    (forall k, settled ch (w_base w) k) /\ grown_from g0 (w_base w) /\ ranked N (w_base w) /\
    order_ok U (w_base w) (w_order w).
Proof using HP.
  intros S1 R1 G1 O1 Hset Hf. set (w0 := mkWork g1 (scheduleOrder (core s)) [v]).
  assert (K : forall u, VertexKey g1 u = VertexKey g0 u) by (intros; by apply same_config_key).
  assert (Hgood : good N R U g1 w0).
  { split; cbn [w0 w_base w_order w_list]; [done|exact R1| | |split; [done|intros; lia]|done].
    - apply (order_ok_same U g0); [apply G1|intros i Hi; by apply O1, (pr_other _ _ _ _ _ _ HP)|apply HP].
    - apply Forall_singleton. rewrite K. apply HP. }
  assert (Heff : effort N w0 <= Z.of_nat fuel).
  { unfold effort. cbn [w0 w_list w_base List.length]. enough (slack N g1 <= slack N g0) by lia.
    unfold slack. rewrite (proj1 G1). apply sum_z_le. intros k _. pose proof (proj2 G1 k). lia. }
  destruct (update_loop_good ch N R U g1 fuel w0 (region_config _ _ _ _ _ _ S1 (pr_region _ _ _ _ _ _ HP)) Hgood Heff)
    as (w & Ew & [_ Wr Wo _ Wg _] & _).
  destruct (update_loop_settles ch (pr_narrow _ _ _ _ _ _ HP) (fun _ => True) fuel w0 w) as (_ & Hall & _);
    [|exact Ew|].
  { split; [exact (ranked_one_lane _ _ R1)|]. intros k _ Hk. apply Hset. intros ->. apply Hk.
    cbn. rewrite K. by left. }
  exists w. split; [exact Ew|]. split; [intros k; by apply Hall|].
  split; [exact (grown_from_trans _ _ _ G1 Wg)|]. split; [exact Wr|exact Wo].
Qed.

End Propagate.

(** C19: propagation ends and settles.  Given edges into one vertex, in a graph whose
    edges lead up some ranks, [updateCriticalPath] returns, with no more visits than
    the lengths can grow; then every edge of the graph is relaxed, if before only the
    given ones were not, lengths have only grown, and the schedule is sorted by the
    new lengths. *)
Theorem updateCriticalPath_settles (s : Adv) es v (N : key -> Z) (R : key -> Prop) (U : Z -> Prop) fuel
    (HP : propagates s es v N R U) (Hf : 1 + slack N (base (core s)) <= Z.of_nat fuel) :
  exists g o, updateCriticalPath true fuel s es = Ok (with_order (with_base s g) o) /\
    (forall k, settled (graphChildren s) g k) /\ grown_from (base (core s)) g /\
    ranked N g /\ order_ok U g o.
Proof.
  set (g0 := base (core s)).
  destruct (relax_parents_ok N g0 v es g0 None false (rg_config _ _ _ _ _ (pr_region _ _ _ _ _ _ HP))
    (same_config_refl g0) (pr_ranked _ _ _ _ _ _ HP) (pr_edges _ _ _ _ _ _ HP))
    as (g1 & c1 & E1 & S1 & R1 & G1 & O1 & C1 & T1).
  unfold updateCriticalPath. fold g0. rewrite E1, res_bind_ok. cbv zeta.
  assert (Hstay : c1 = false -> exists g o, Ok (with_base s g1) = Ok (with_order (with_base s g) o) /\
    (forall k, settled (graphChildren s) g k) /\ grown_from g0 g /\ ranked N g /\ order_ok U g o).
  { intros Hc. destruct (C1 Hc) as [_ Heq]. exists g1, (scheduleOrder (core s)).
    split; [unfold with_order, with_base, set_core; destruct s as [c]; by destruct c|].
    split; [intros k; apply (relaxed_settled s es v N R U HP); auto|].
    split; [exact G1|]. split; [exact R1|].
    apply (order_ok_same U g0); [apply G1|intros i _; apply Heq|apply HP]. }
  destruct es as [|pe0 es']; [apply Hstay; cbn in E1; congruence|].
  destruct c1; [|by apply Hstay]. clear Hstay.
  destruct (relaxed_loop s (pe0 :: es') v N R U HP g1 fuel S1 R1 G1 O1) as (w & Ew & Hw);
    [intros k Hk; apply (relaxed_settled s (pe0 :: es') v N R U HP); auto|exact Hf|].
  change (graphChildren (with_base s g1)) with (graphChildren s).
  change (scheduleOrder (core (with_base s g1))) with (scheduleOrder (core s)).
  rewrite Ew, res_bind_ok. exists (w_base w), (w_order w). split; [reflexivity|exact Hw].
Qed.

(** ** States of a run *)

(** A run reads an instruction when the window has room, and schedules when there is
    something to schedule. *)
Inductive adv_step (fuel : nat) : Adv * list Instruction -> Adv * list Instruction -> Prop :=
| step_read s instr trace s1 s2 :
    instrCount (core s) < headInstr s ->
    model s instr = Ok s1 -> calculateInstructionCriticalPath s1 = Ok s2 ->
    adv_step fuel (s, instr :: trace) (next_instr s2, trace)
| step_schedule s trace s' read_new all_scheduled :
    headScheduledInstr s < instrCount (core s) ->
    modelResourceDependencies true fuel s = Ok (s', read_new, all_scheduled) ->
    adv_step fuel (s, trace) (s', trace).

(** What holds of a state of a run: [S] are the instructions scheduled so far, newest
    first.  The schedule holds the others, each with the length of the path to its
    execution, the shortest first; [headScheduledInstr] is the first one not scheduled;
    none was scheduled more than the instruction buffer ahead of it; the slots reused
    are those of instructions that were scheduled. *)
Record run_state (c : configuration) (s : Adv) (S : list Z) : Prop := {
  rs_scheduled : NoDup S /\ forall i, i ∈ S -> 0 <= i < instrCount (core s) /\
    i <= headScheduledInstr s + instrBufferSize (c_params c);
  rs_head : headScheduledInstr s ∉ S /\ forall i, 0 <= i < headScheduledInstr s -> i ∈ S;
  rs_order : StronglySorted sched_lt (scheduleOrder (core s)) /\
    forall i l, (i, l) ∈ scheduleOrder (core s) <->
      (0 <= i < instrCount (core s) /\ i ∉ S) /\
      l = len_of (base (core s)) (VertexKey (base (core s)) (exec_of i));
  rs_ahead : StronglySorted Z.lt (alreadyScheduled s) /\
    forall i, i ∈ alreadyScheduled s <-> i ∈ S /\ headScheduledInstr s <= i;
  rs_window : headInstr s - c_window c <= headScheduledInstr s /\
    headScheduledInstr s <= instrCount (core s) <= headInstr s;
  rs_board : exists hs, refines (scoreboard (core s)) hs /\
    (units hs RscIssue).*1 = S /\ (entries hs RscInstrQ).*1 = S;
  rs_paths : forall k, 0 <= len_of (base (core s)) k <= INT64_MAX /\
    CalipersPaths.total (cycles_at (base (core s)) k) = len_of (base (core s)) k
}.

Section Reach.
Context (c : configuration) (Hc : sliding_ok c) (trace : list Instruction) (Hfit : short_enough c trace).
Context (fuel : nat) (Hf : fuel_for (c_window c) <= Z.of_nat fuel).
Notation total := (Z.of_nat (List.length trace)).

Definition reach_inv (st : Adv * list Instruction) : Prop :=
  exists E S hs, adv_inv (c_sizes c) (c_params c) (c_window c) E S hs st.1 /\
    headScheduledInstr st.1 ∉ S /\ Forall instr_ok st.2 /\
    instrCount (core st.1) + Z.of_nat (List.length st.2) = total.

Lemma step_inv st st' : reach_inv st -> adv_step fuel st st' -> reach_inv st'.
Proof using All.
  intros (E & S & hs & Hinv & Hh & Ht & Hn) Hst. destruct Hc as [_ Hok].
  destruct Hst as [s instr tr s1 s2 Hroom E1 E2|s tr s' cnt all Hlt Em]; cbn [fst snd] in *.
  - apply Forall_cons in Ht as [Hi Ht]. cbn [List.length] in Hn.
    destruct (read_instr_ok _ _ _ Hok E S hs s instr total Hinv Hfit Hroom ltac:(lia) Hi)
      as (es & s1' & s2' & F1 & F2 & Hinv' & Hn' & H1 & H2).
    assert (s1' = s1) as -> by (apply Ok_inj; congruence).
    assert (s2' = s2) as -> by (apply Ok_inj; congruence). clear E1 E2 F1 F2.
    exists (E ++ es), S, hs. split; [exact Hinv'|].
    split; [change (headScheduledInstr s2 ∉ S); by rewrite H2|]. split; [exact Ht|]. cbn [fst snd]. rewrite Hn'. lia.
  - destruct (round_ok _ _ _ Hok total Hfit fuel Hf E S hs s Hinv ltac:(lia) Hlt Hh)
      as (s2 & cnt2 & all2 & S2 & hs2 & F & Hinv2 & _ & Hh2 & Hn2 & _).
    assert (s2 = s') as -> by (rewrite Em in F; apply Ok_inj in F; congruence). clear Em F.
    exists E, S2, hs2. split; [exact Hinv2|]. split; [exact Hh2|]. split; [exact Ht|]. cbn [fst snd]. lia.
Qed.

Lemma reach_state st : reach_inv st -> exists S, run_state c st.1 S.
Proof using All.
  intros (E & S & hs & Hinv & Hh & _ & Hn). exists S. destruct Hc as [_ Hok].
  destruct (ai_sched _ _ _ _ _ _ _ Hinv) as [S1 S2 S3 S4 S5 S6 S7 S8].
  pose proof (scheduled_count _ _ _ _ _ _ (ai_sched _ _ _ _ _ _ _ Hinv)) as Hcnt.
  destruct (ai_logged _ _ _ _ _ _ _ Hinv) as [L1 _ L3 L4]. destruct (ai_order _ _ _ _ _ _ _ Hinv).
  pose proof (lo_head _ _ _ Hok _ _ _ _ Hinv) as (L5 & L6 & _). pose proof (ai_room _ _ _ _ _ _ _ Hinv).
  split; try (split; assumption); [unfold lo_of in L6; lia|by exists hs|].
  intros k. pose proof (ai_rank _ _ _ _ _ _ _ Hinv) as [HA HL]. specialize (HL k).
  destruct (rank_fits _ _ _ Hok total (lo_of (c_window c) st.1) (Z.of_nat (List.length S)) k Hfit)
    as (_ & Hr & _); [lia|lia|].
  pose proof (ranked_nonneg _ _ k (ai_rank _ _ _ _ _ _ _ Hinv)). split; [lia|]. apply (bal_total _ _ HA).
Qed.
End Reach.

(** C20: the state is consistent throughout a run.  In every state reached by reading
    instructions into the window and by calls of [modelResourceDependencies], the
    schedule holds exactly the instructions not scheduled yet, each with the present
    length of the path to its execution and the shortest first; the head is the first
    of them, nothing is scheduled more than the instruction buffer ahead of it, the
    window covers it, the scoreboard is that of the instructions scheduled, and the
    kinds of cycles of every path add up to its length. *)
Theorem advanced_run_states c mem_max (ic : option CI) (pred : option BP) trace fuel
    (Hc : sliding_ok c) (Hi : option_ok ic) (Ht : Forall instr_ok trace)
    (Hfit : short_enough c trace) (Hf : fuel_for (c_window c) <= Z.of_nat fuel) :
  exists s : Adv, build_advanced c mem_max ic pred = Ok s /\
    forall s' trace', rtc (adv_step fuel) (s, trace) (s', trace') -> exists S, run_state c s' S.
Proof.
  destruct (build_start c mem_max ic pred Hc Hi) as (s & Es & Hinv & H1 & H2 & H3).
  exists s. split; [exact Es|]. clear Es. intros s' tr' Hr.
  apply (reach_state c Hc trace Hfit fuel Hf (s', tr')).
  refine (rtc_ind_r (fun st => reach_inv c trace st) (s, trace) _ _ (s', tr') Hr).
  - exists [], [], no_requests. split; [exact Hinv|]. split; [apply not_elem_of_nil|]. split; [exact Ht|].
    cbn [fst snd]. lia.
  - intros st st' _ Hst HI. exact (step_inv c Hc trace Hfit fuel Hf st st' HI Hst).
Qed.
End Core.

(** ** Cycles *)

(** C35: a cycle keeps the worklist busy.  If the edges form a cycle of positive
    weight, and only vertices of the worklist have edges that are not relaxed, the
    worklist never empties, whatever the fuel. *)
Theorem cycle_never_settles ch w k weight fuel w' (Hch : narrow ch) (Hw : pending ch (fun _ => True) w)
    (Hk : walk ch (w_base w) k k weight) (Hpos : 0 < weight) :
  update_loop fuel ch w <> Ok w'.
Proof.
  intros E. destruct (update_loop_settles ch Hch (fun _ => True) fuel w w' Hw E) as (_ & Hs & [HA _]).
  pose proof (walk_settled ch (w_base w') k k weight (fun k => Hs k I) (walk_window _ _ _ _ _ _ HA Hk)). lia.
Qed.

(** ** Examples *)

Lemma core_trace_short : short_enough (demo_core OOO_SLIDING_WINDOW) core_trace.
Proof. vm_compute. reflexivity. Qed.

(** A branch that is mispredicted, and the load and the operation after it. *)
Definition branch_trace : list Instruction :=
  mkInstruction 4096 4 1 0 true BranchCond [] [] 0 0 0 0 0 0 :: tail core_trace.
Lemma branch_trace_ok : Forall instr_ok branch_trace.
Proof. repeat (apply Forall_cons; split; [split; cbn; done || lia|]). done. Qed.

Lemma advanced_run_completes_witness :
  exists fuel (s s' : @O3CoreGraphAdvanced unit unit unit) text,
    build_advanced (demo_core OOO_SLIDING_WINDOW) 0 None None = Ok s /\ run true fuel "t" s branch_trace = Ok (s', text) /\
    headScheduledInstr s' = 3.
Proof.
  destruct (advanced_run_completes (CI := unit) (CD := unit) (BP := unit) (demo_core OOO_SLIDING_WINDOW) 0 None None branch_trace
    (Z.to_nat (fuel_for OOO_SLIDING_WINDOW)) "t" demo_sliding I branch_trace_ok) as (s & s' & text & E & R & (_ & H & _) & _).
  - discriminate.
  - vm_compute. reflexivity.
  - apply enough_fuel. reflexivity.
  - exists (Z.to_nat (fuel_for OOO_SLIDING_WINDOW)), s, s', text. split; [exact E|]. split; [exact R|exact H].
Defined.

Lemma empty_trace_undefined_witness :
  exists s : @O3CoreGraphAdvanced unit unit unit, build_advanced (demo_core OOO_SLIDING_WINDOW) 0 None None = Ok s /\
    run true 9 "t" s [] = Stop Undefined.
Proof.
  exact (empty_trace_undefined (CI := unit) (CD := unit) (BP := unit) (demo_core OOO_SLIDING_WINDOW) 0 None None true 8 "t"
    demo_sliding I).
Defined.

(** A state after one instruction has been read. *)
Lemma advanced_run_states_witness :
  exists (s : @O3CoreGraphAdvanced unit unit unit) S, instrCount (core s) = 1 /\ run_state (demo_core OOO_SLIDING_WINDOW) s S.
Proof.
  destruct (advanced_run_states (CI := unit) (CD := unit) (BP := unit) (demo_core OOO_SLIDING_WINDOW) 0 None None core_trace
    (Z.to_nat (fuel_for OOO_SLIDING_WINDOW)) demo_sliding I core_trace_ok core_trace_short) as (s & E & H).
  - apply enough_fuel. reflexivity.
  - destruct (build_start (CI := unit) (CD := unit) (BP := unit) (demo_core OOO_SLIDING_WINDOW) 0 None None demo_sliding I)
      as (s0 & E0 & Hinv & H1 & _ & H3).
    assert (s0 = s) as -> by (apply Ok_inj; congruence). clear E0.
    destruct (read_instr_ok _ _ _ (proj2 demo_sliding) [] [] _ s (plain IntDiv [] [1]) 3 Hinv)
      as (es & s1 & s2 & F1 & F2 & _ & Hn & _).
    + vm_compute. reflexivity.
    + rewrite H1, H3. reflexivity.
    + rewrite H1. reflexivity.
    + exact (Forall_inv core_trace_ok).
    + destruct (H (next_instr s2) (tail core_trace)) as (S & HS).
      * apply rtc_once. apply (step_read _ s (plain IntDiv [] [1]) _ s1 s2); [|exact F1|exact F2].
        rewrite H1, H3. reflexivity.
      * exists (next_instr s2), S. split; [rewrite Hn, H1; reflexivity|exact HS].
Defined.

(** A worklist for the memory accesses of two loads: the second waits for the first
    because memory accepts one access at a time, the first for the second because it
    was scheduled later and the load queue has one entry. *)
Definition load_cycle : adjacency :=
  <[(3, 0) := [mkEdge (mem_of 1) [0]]]> (<[(3, 1) := [mkEdge (mem_of 0) [3]]]> ∅).
Definition load_work : Work := mkWork (mkGraph 64 20 5 20 1 ∅ ∅ ∅ ∅) [] [mem_of 0; mem_of 1].

Lemma load_cycle_edges k e :
  e ∈ edge_at load_cycle k ->
  k = (3, 0) /\ e = mkEdge (mem_of 1) [0] \/ k = (3, 1) /\ e = mkEdge (mem_of 0) [3].
Proof.
  unfold edge_at, load_cycle. destruct (decide (k = (3, 0))) as [->|H0].
  - rewrite lookup_insert_eq. intros He%list_elem_of_singleton. by left.
  - rewrite lookup_insert_ne by congruence. destruct (decide (k = (3, 1))) as [->|H1].
    + rewrite lookup_insert_eq. intros He%list_elem_of_singleton. by right.
    + rewrite lookup_insert_ne, lookup_empty by congruence. intros He. by apply not_elem_of_nil in He.
Qed.

Lemma cycle_never_settles_witness :
  walk load_cycle (w_base load_work) (3, 0) (3, 0) 3 /\
  forall fuel w', update_loop fuel load_cycle load_work <> Ok w'.
Proof.
  assert (Hwalk : walk load_cycle (w_base load_work) (3, 0) (3, 0) (0 + (3 + 0))).
  { apply (walk_cons _ _ (3, 0) (mkEdge (mem_of 1) [0]) 0); [left|reflexivity|discriminate|].
    apply (walk_cons _ _ (3, 1) (mkEdge (mem_of 0) [3]) 3); [left|reflexivity|discriminate|constructor]. }
  split; [exact Hwalk|]. intros fuel w'.
  apply (cycle_never_settles load_cycle load_work (3, 0) (0 + (3 + 0)) fuel w'); [| |exact Hwalk|lia].
  - intros k e [[_ ->]|[_ ->]]%load_cycle_edges; by eexists.
  - split; [intros k; by exists 0|]. intros k _ Hk e [[-> _]|[-> _]]%load_cycle_edges; destruct Hk; cbn.
    + by left.
    + right. by left.
Defined.

(** Three instructions: the second one is being scheduled, the third waits for it; the
    new edge is from the first one, which has the same unit. *)
Definition waiting : Edge := (exec_of 0, mkEdge (exec_of 1) [3]).
Definition three_edges : adjacency :=
  <[(2, 0) := [waiting.2]]> (<[(2, 1) := [mkEdge (exec_of 2) [0]]]> ∅).
Definition three_core : @O3CoreGraphAdvanced unit unit unit :=
  mkAdvanced (mkO3 (c_params (demo_core OOO_SLIDING_WINDOW)) (mkGraph 64 20 5 20 1 ∅ ∅ ∅ ∅)
    (board [0] [0] (c_sizes (demo_core OOO_SLIDING_WINDOW))) (mkBook 0 0 0 false false 0 0 ∅ ∅ [] [] 0 ∅ ∅)
    (mkStats [] 0 0 0 0 0 0) ∅ [(2, 0)] 3 0 None None None) three_edges ∅ 64 0 [] 0.
Definition position (k : key) : Z := Z.max 0 k.2.

Lemma three_edges_at k e :
  e ∈ edge_at three_edges k ->
  k = (2, 0) /\ e = waiting.2 \/ k = (2, 1) /\ e = mkEdge (exec_of 2) [0].
Proof.
  unfold edge_at, three_edges. destruct (decide (k = (2, 0))) as [->|H0].
  - rewrite lookup_insert_eq. intros He%list_elem_of_singleton. by left.
  - rewrite lookup_insert_ne by congruence. destruct (decide (k = (2, 1))) as [->|H1].
    + rewrite lookup_insert_eq. intros He%list_elem_of_singleton. by right.
    + rewrite lookup_insert_ne, lookup_empty by congruence. intros He. by apply not_elem_of_nil in He.
Qed.

Lemma three_propagates :
  propagates three_core [waiting] (exec_of 1) position (fun k => k = (2, 1) \/ k = (2, 2)) (fun i => i = 2).
Proof.
  assert (Hrise : forall v e x, position (VertexKey (base (core three_core)) v) + 1 =
      position (VertexKey (base (core three_core)) (child e)) -> type (child e) = InstrExecute ->
      position (VertexKey (base (core three_core)) (child e)) <= 2 -> weight e = [x] -> 0 <= x <= 3 ->
      rising position (base (core three_core)) v e x).
  { intros v e x H1 H2 H3 H4 H5. split; [|lia|lia|unfold INT64_MAX; lia].
    split; [exact H4|]. split; [unfold INT64_MAX; lia|]. rewrite H2. discriminate. }
  split; cbn [core base graphChildren scheduleOrder three_core].
  - split; [split; cbn; lia| |intros i j -> ->; reflexivity|cbn; lia].
    intros v e Hv He. apply three_edges_at in He as [[Hk ->]|[Hk ->]].
    { rewrite Hk in Hv. destruct Hv as [Hv|Hv]; discriminate Hv. }
    split; [by right|]. split; [|reflexivity]. exists 0. apply Hrise; try reflexivity; try lia.
    change (base (core three_core)) with (mkGraph 64 20 5 20 1 ∅ ∅ ∅ ∅). rewrite Hk. reflexivity.
  - apply start_ranked; [intros k; unfold position; lia|by apply empty_fresh].
  - split; [repeat constructor|]. intros i l. rewrite list_elem_of_singleton. split.
    + intros [= -> ->]. split; reflexivity.
    + intros [-> ->]. reflexivity.
  - intros k e [[_ ->]|[_ ->]]%three_edges_at; by eexists.
  - by left.
  - intros i ->. discriminate.
  - apply Forall_singleton. split; [reflexivity|]. exists 3. apply Hrise; try reflexivity; try lia.
    vm_compute. discriminate.
  - intros k e [[-> ->]|[-> ->]]%three_edges_at.
    + right. exists waiting. split; [by left|]. split; reflexivity.
    + left. right. vm_compute. discriminate.
Qed.

Lemma updateCriticalPath_settles_witness :
  exists fuel s, updateCriticalPath true fuel three_core [waiting] = Ok s /\
    forall k, settled three_edges (base (core s)) k.
Proof.
  destruct (updateCriticalPath_settles three_core [waiting] (exec_of 1) position _ _
    (Z.to_nat (1 + slack position (base (core three_core)))) three_propagates) as (g & o & E & H & _).
  - lia.
  - exists (Z.to_nat (1 + slack position (base (core three_core)))), (with_order (with_base three_core g) o).
    split; [exact E|exact H].
Defined.
