(* ===== verification/CalipersDraw.v ===== *)
(** * The picture of a window of Calipers

    infras/calipers/src/tools/visualizer.h, which [anaylzeWindow] of the out-of-order
    core calls with the option [--view], and [addEdge] on the map it is given: a map
    whose keys are the vertices as first inserted, found with [VertexEqual].
    Boost.Graph is the class [BoostPicture] of External. *)

From stdpp Require Import strings.
From S2P Require Import Prelude Machine External TraceParse ParseFacts CalipersCache CalipersFacts.
From S2P Require Import CalipersCycles CalipersPaths CalipersScoreboard CalipersScoreFacts.
From S2P Require Import CalipersO3.
From S2P Require Import CalipersO3Facts CalipersO3Steps CalipersO3Window CalipersO3Run.
From S2P Require Import CalipersO3Trace.
From S2P Require Import CalipersO3Theorems CalipersReport.

#[local] Open Scope string_scope.
#[local] Open Scope list_scope.
#[local] Open Scope Z_scope.

Import CalG CalO.

Module CalD.

(** ** The map of a window *)

(** The vertices of the program have a text too, empty but for those that stand for
    the fetch of an instruction; the analysis does not look at it. *)
Record VERTEX := mkVERTEX { place : Vertex; inst : string }.
Record OUTGOING_EDGE := mkOUTGOING { to : VERTEX; cost_of : Vector }.

(** The entries of the map, in the order in which it is gone through. *)
Definition deg_t : Type := list (VERTEX * list OUTGOING_EDGE).

Definition VertexEqual (W : Z) (lhs rhs : VERTEX) : bool :=
  bool_decide (type (place lhs) = type (place rhs)) &&
  (instrNum (place lhs) mod W =? instrNum (place rhs) mod W).

(** [operator[]] and a change of the value it refers to. *)
Fixpoint at_vertex (W : Z) (v : VERTEX) (f : list OUTGOING_EDGE -> list OUTGOING_EDGE) (deg : deg_t)
    : deg_t :=
  match deg with
  | [] => [(v, f [])]
  | (u, es) :: deg' =>
      if VertexEqual W u v then (u, f es) :: deg' else (u, es) :: at_vertex W v f deg'
  end.

Definition addEdge (W : Z) (deg : deg_t) (pe : VERTEX * OUTGOING_EDGE) : deg_t :=
  at_vertex W (to pe.2) id (at_vertex W pe.1 (fun es => es ++ [pe.2]) deg).

(** ** Properties *)

Definition name_of_vertex_type (t : VertexType) : string :=
  match t with
  | InstrFetch => "fetch"
  | InstrDispatch => "decode"
  | InstrExecute => "execute"
  | MemExecute => "memory"
  | InstrCommit => "commit"
  end.

Record vertex_property := mkVP {
  vp_type : VertexType;
  vp_inst_num : Z;
  vp_inst : string;
  vp_pos : Z * Z
}.
Record edge_property := mkEP { ep_weight : string; ep_dashed : bool }.

Definition toString (v : Vector) : string :=
  foldl (fun s x => s +:+ (show_int x +:+ " ")) "" v.

(** [erase] of what [remove_if] with [isspace] leaves behind. *)
Fixpoint erase_spaces (s : string) : string :=
  match s with
  | "" => ""
  | String c s => if isspace c then erase_spaces s else String c (erase_spaces s)
  end.

Definition property_of (v : VERTEX) : vertex_property :=
  mkVP (type (place v)) (instrNum (place v)) (inst v)
    (to_int (instrNum (place v)), - vt_num (type (place v))).

(** Dashed between vertices of the same kind that are not neighbours. *)
Definition dashed (parent child : VERTEX) : bool :=
  bool_decide (type (place parent) = type (place child)) &&
  (1 <? u64_sub (instrNum (place child)) (instrNum (place parent))).

Definition weight_text (w : Vector) : string := erase_spaces (toString w).

Definition edge_of (parent : VERTEX) (e : OUTGOING_EDGE) : edge_property :=
  mkEP (weight_text (cost_of e)) (dashed parent (to e)).

Section Draw.
Context `{G : !BoostPicture vertex_property edge_property}.

Definition get_vertex (v : vertex_property) (g : bg_t) : option nat :=
  fst <$> list_find (fun w => vp_type v = vp_type w /\ vp_inst_num v = vp_inst_num w) (bg_vertices g).

Definition add_vertex_with_property (v : vertex_property) (g : bg_t) : nat * bg_t :=
  match get_vertex v g with
  | None => bg_add_vertex v g
  | Some k => (k, g)
  end.

(** An edge that is there already is not refused. *)
Definition add_edge_with_property (from to : nat) (e : edge_property) (g : bg_t) : bg_t :=
  bg_add_edge from to e g.

Definition draw_edge (parent : VERTEX) (g : bg_t) (e : OUTGOING_EDGE) : bg_t :=
  let '(v1, g) := add_vertex_with_property (property_of parent) g in
  let '(v2, g) := add_vertex_with_property (property_of (to e)) g in
  add_edge_with_property v1 v2 (edge_of parent e) g.

Definition deg2bg (deg : deg_t) : bg_t :=
  foldl (fun g node => foldl (draw_edge node.1) g node.2) bg_empty deg.

Definition graphviz_encode (s : string) : string := s.

Definition vertex_writer (g : bg_t) (vd : nat) : string :=
  match bg_vertices g !! vd with
  | None => ""
  | Some v =>
      "[label=" +:+ quote +:+
      (if bool_decide (vp_inst v = "") then "" else vp_inst v +:+ backslash_n) +:+
      graphviz_encode (show_int (vp_inst_num v) +:+ " " +:+ name_of_vertex_type (vp_type v)) +:+
      quote +:+ ",pos=" +:+ quote +:+ show_int (vp_pos v).1 +:+ "," +:+ show_int (vp_pos v).2 +:+
      "!" +:+ quote +:+ "]"
  end.

Definition edges_writer (ed : nat * nat * edge_property) : string :=
  "[label=" +:+ quote +:+ graphviz_encode (ep_weight ed.2) +:+ quote +:+
  (if ep_dashed ed.2 then
     ",style=" +:+ quote +:+ "dashed" +:+ quote +:+ ",splines=" +:+ quote +:+ "curved" +:+ quote +:+
     ",color=" +:+ quote +:+ "red" +:+ quote +:+ "]"
   else "]").

Definition generate_dot (g : bg_t) : string :=
  bg_write_graphviz g (vertex_writer g) edges_writer "".

(** The file written after the analysis of a window, and its content. *)
Definition view (path : string) : bool := negb (String.eqb path "false").
Definition draw_window (path : string) (deg : deg_t) : option (string * string) :=
  if view path then Some (path, generate_dot (deg2bg deg)) else None.

(** ** The picture shows the edges of the map *)

Context `{HG : !BoostPictureLaws G}.

Definition vp_key (v : vertex_property) : VertexType * Z := (vp_type v, vp_inst_num v).
Definition v_key (v : VERTEX) : VertexType * Z := (type (place v), instrNum (place v)).
Definition edge_shown (x : VERTEX * OUTGOING_EDGE)
    : (VertexType * Z) * (VertexType * Z) * edge_property :=
  (v_key x.1, v_key (to x.2), edge_of x.1 x.2).

(** The picture [g] shows the edges [L]. *)
Definition pictured (g : bg_t) (L : list (VERTEX * OUTGOING_EDGE)) : Prop :=
  drawn vp_key edge_shown g L.

Definition entries (deg : deg_t) : list (VERTEX * OUTGOING_EDGE) :=
  deg ≫= (fun node => (fun e => (node.1, e)) <$> node.2).

Lemma vertex_found v g k : get_vertex v g = Some k -> vp_key <$> bg_vertices g !! k = Some (vp_key v).
Proof using. apply find_key_some. intros w [Ht Hs]. unfold vp_key. by rewrite Ht, Hs. Qed.
Lemma vertex_absent v g : get_vertex v g = None -> vp_key v ∉ vp_key <$> bg_vertices g.
Proof using. apply find_key_none. intros w Hk. unfold vp_key in Hk. by injection Hk. Qed.

Definition connection (x : VERTEX * OUTGOING_EDGE) : vertex_property * vertex_property * edge_property :=
  (property_of x.1, property_of (to x.2), edge_of x.1 x.2).

(** One entry after the other. *)
Lemma deg2bg_entries deg : deg2bg deg = foldl (connect get_vertex) bg_empty (connection <$> entries deg).
Proof using.
  unfold deg2bg. generalize bg_empty. induction deg as [|[u es] deg IH]; intros g; [done|].
  unfold entries. cbn [mbind list_bind foldl fst snd]. rewrite fmap_app, foldl_app, IH. f_equal.
  clear IH. revert g. induction es as [|e es IH]; intros g; [done|]. csimpl. by rewrite <- IH.
Qed.

Lemma deg2bg_pictured deg : pictured (deg2bg deg) (entries deg).
Proof using HG.
  rewrite deg2bg_entries.
  assert (H : forall xs g L, pictured g L ->
    pictured (foldl (connect get_vertex) g (connection <$> xs)) (xs ++ L)).
  { induction xs as [|x xs IH]; intros g L Hd; [done|]. csimpl.
    apply (connect_ok vp_key edge_shown get_vertex vertex_found vertex_absent g L (connection x) x
      eq_refl) in Hd.
    apply IH in Hd. eapply drawn_perm; [|exact Hd]. symmetry. apply Permutation_middle. }
  rewrite <- (app_nil_r (entries deg)) at 2. apply H, drawn_empty.
Qed.

(** What holds of the properties of both ends of every edge holds of every vertex. *)
Lemma deg2bg_all (P : vertex_property -> Prop) deg :
  Forall (fun x => P (property_of x.1) /\ P (property_of (to x.2))) (entries deg) ->
  Forall P (bg_vertices (deg2bg deg)).
Proof using HG.
  rewrite deg2bg_entries. assert (H0 : Forall P (bg_vertices bg_empty)) by (by rewrite bg_empty_vertices).
  revert H0. generalize bg_empty. induction (entries deg) as [|x xs IH]; intros g Hg Hx; [done|].
  apply Forall_cons in Hx as [[Hp Hc] Hx]. csimpl. apply IH; [|done]. by apply connect_all.
Qed.

(** Vertices lie in different places while the numbers fit into an [int]. *)
Lemma places_differ deg :
  Forall (fun x => 0 <= instrNum (place x.1) < 2 ^ 31 /\ 0 <= instrNum (place (to x.2)) < 2 ^ 31)
    (entries deg) ->
  NoDup (vp_pos <$> bg_vertices (deg2bg deg)).
Proof using HG.
  intros Hn. destruct (deg2bg_pictured deg) as [Hd _ _].
  set (P v := vp_pos v = (vp_inst_num v, - vt_num (vp_type v))).
  assert (HP : Forall P (bg_vertices (deg2bg deg))).
  { apply deg2bg_all. eapply Forall_impl; [exact Hn|]. intros x [H1 H2].
    unfold P. cbn. by rewrite !to_int_small. }
  assert (Hf : vp_pos <$> bg_vertices (deg2bg deg) =
    (fun k => (k.2, - vt_num k.1)) <$> (vp_key <$> bg_vertices (deg2bg deg))).
  { rewrite <- list_fmap_compose. apply list_fmap_ext. intros i v Hv.
    rewrite Forall_forall in HP. apply (HP v), (list_elem_of_lookup_2 _ _ _ Hv). }
  rewrite Hf. apply NoDup_fmap_2_strong; [|exact Hd].
  intros [t i] [t' i'] _ _ [= -> Ht]. f_equal. destruct t, t'; first [reflexivity|cbn in Ht; lia].
Qed.
End Draw.

(** ** The map holds the graph of the window *)

Definition erase_edge (e : OUTGOING_EDGE) : OutgoingEdge := mkEdge (place (to e)) (cost_of e).
Definition erase (x : VERTEX * OUTGOING_EDGE) : Edge := (place x.1, erase_edge x.2).
Definition as_map (g : Graph) (deg : deg_t) : adjacency :=
  list_to_map (map (fun node => (VertexKey g (place node.1), map erase_edge node.2)) deg).
Definition keys (g : Graph) (deg : deg_t) : list key :=
  map (fun node => VertexKey g (place node.1)) deg.

Section Map.
Context {CI CD BP : Type} (s : @O3CoreGraph CI CD BP).
Let g := base s.
Notation W := (AnalysisWindow g).

Lemma VertexEqual_key u v : VertexEqual W u v = true <-> VertexKey g (place u) = VertexKey g (place v).
Proof.
  unfold VertexEqual, VertexKey. rewrite andb_true_iff, bool_decide_eq_true, Z.eqb_eq. split.
  - by intros [-> ->].
  - intros [= Ht ->]. split; [|done].
    destruct (type (place u)), (type (place v)); first [reflexivity|cbn in Ht; lia].
Qed.

Lemma as_map_at v f f' deg :
  (forall es, map erase_edge (f es) = f' (map erase_edge es)) ->
  as_map g (at_vertex W v f deg) =
  <[VertexKey g (place v) := f' (edge_at (as_map g deg) (VertexKey g (place v)))]> (as_map g deg).
Proof.
  intros Hf. unfold as_map, edge_at. induction deg as [|[u es] deg IH].
  - cbn. by rewrite lookup_empty, Hf.
  - cbn [at_vertex]. destruct (VertexEqual W u v) eqn:E.
    + apply VertexEqual_key in E. csimpl. rewrite E, Hf, lookup_insert_eq. cbn [default].
      by rewrite insert_insert_eq.
    + assert (Hk : VertexKey g (place u) <> VertexKey g (place v)).
      { intros Hk. apply VertexEqual_key in Hk. congruence. }
      csimpl. rewrite IH, lookup_insert_ne by done. by rewrite insert_insert_ne.
Qed.

(** [addEdge] on the map is [addEdge] of the core. *)
Lemma as_map_addEdge deg pe :
  as_map g (addEdge W deg pe) = graph (CalO.addEdge (set_graph s (as_map g deg)) (erase pe)).
Proof.
  unfold addEdge. rewrite (as_map_at _ _ id), (as_map_at _ _ (fun es => es ++ [erase_edge pe.2])).
  - reflexivity.
  - intros es. by rewrite map_app.
  - reflexivity.
Qed.

Lemma keys_at v f deg : keys g (at_vertex W v f deg) =
  if decide (VertexKey g (place v) ∈ keys g deg) then keys g deg else keys g deg ++ [VertexKey g (place v)].
Proof.
  unfold keys. induction deg as [|[u es] deg IH]; [done|]. cbn [at_vertex].
  destruct (VertexEqual W u v) eqn:E; csimpl.
  - apply VertexEqual_key in E. rewrite decide_True; [done|]. apply elem_of_cons. by left.
  - assert (Hk : VertexKey g (place v) <> VertexKey g (place u)).
    { intros Hk. symmetry in Hk. apply VertexEqual_key in Hk. congruence. }
    rewrite IH. destruct (decide (_ ∈ map _ deg)) as [Hin|Hin].
    + rewrite decide_True; [done|]. by right.
    + rewrite decide_False; [done|]. intros [?|?]%elem_of_cons; done.
Qed.
Lemma keys_nodup_at v f deg : NoDup (keys g deg) -> NoDup (keys g (at_vertex W v f deg)).
Proof.
  intros Hn. rewrite keys_at. case_decide as Hin; [done|]. apply NoDup_app. split; [done|].
  split; [|apply NoDup_singleton]. intros k Hk Hv%list_elem_of_singleton. by subst.
Qed.

(** The map after a list of edges, in whatever order it is gone through. *)
Lemma added_map (nes : list (VERTEX * OUTGOING_EDGE)) deg :
  deg ≡ₚ foldl (addEdge W) [] nes ->
  forall k, edge_at (as_map g deg) k = out_edges g (erase <$> nes) k.
Proof.
  assert (H : forall (nes : list (VERTEX * OUTGOING_EDGE)) deg, NoDup (keys g deg) ->
    NoDup (keys g (foldl (addEdge W) deg nes)) /\
    forall k, edge_at (as_map g (foldl (addEdge W) deg nes)) k =
      edge_at (as_map g deg) k ++ out_edges g (erase <$> nes) k).
  { clear nes deg. induction nes as [|pe nes IH]; intros deg Hn.
    - split; [done|]. intros k. by rewrite app_nil_r.
    - destruct (IH (addEdge W deg pe)) as [H1 H2]; [by do 2 apply keys_nodup_at|]. split; [exact H1|].
      intros k. cbn [foldl]. rewrite H2, as_map_addEdge, addEdge_out, <- app_assoc.
      change (erase <$> pe :: nes) with ([erase pe] ++ (erase <$> nes)). by rewrite out_edges_app. }
  intros Hp k. destruct (H nes [] NoDup_nil_2) as [H1 H2].
  transitivity (edge_at (as_map g (foldl (addEdge W) [] nes)) k); [|exact (H2 k)].
  f_equal. unfold as_map. apply list_to_map_proper.
  - unfold fmap. rewrite map_map. cbn. change (NoDup (keys g deg)). unfold keys. by rewrite Hp.
  - by rewrite Hp.
Qed.
End Map.

(** ** Edges within a window *)

Definition inside (st n : Z) (v : VERTEX) : Prop := st <= instrNum (place v) < n.
Definition node_inside (st n : Z) (node : VERTEX * list OUTGOING_EDGE) : Prop :=
  inside st n node.1 /\ Forall (fun e => inside st n (to e)) node.2.
Definition ends_inside (st n : Z) (pe : VERTEX * OUTGOING_EDGE) : Prop :=
  inside st n pe.1 /\ inside st n (to pe.2).

Section Window.
Context (W st n : Z) (HW : 0 < W) (H0 : 0 <= st) (Hst : st mod W = 0) (Hn : n <= st + W).

Lemma same_place u v : inside st n u -> inside st n v -> VertexEqual W u v = true -> place u = place v.
Proof using HW H0 Hst Hn.
  unfold inside, VertexEqual. destruct u as [[t i] a], v as [[t' j] b]. cbn. intros Hi Hj.
  rewrite andb_true_iff, bool_decide_eq_true, Z.eqb_eq. intros [-> Hm]. f_equal.
  rewrite !(slot_of W st) in Hm by lia. lia.
Qed.

(** Inserting leaves the entries inside, and adds what it should. *)
Lemma at_vertex_inside v f deg :
  inside st n v -> (forall es, Forall (fun e => inside st n (to e)) es -> Forall (fun e => inside st n (to e)) (f es)) ->
  Forall (node_inside st n) deg -> Forall (node_inside st n) (at_vertex W v f deg).
Proof using.
  intros Hv Hf. induction deg as [|[u es] deg IH]; intros Hd; cbn [at_vertex].
  - apply Forall_singleton. split; [done|]. apply Hf, Forall_nil_2.
  - apply Forall_cons in Hd as [[Hu He] Hd]. destruct (VertexEqual W u v); apply Forall_cons.
    + split; [|done]. split; [done|]. by apply Hf.
    + split; [by split|]. by apply IH.
Qed.

Lemma at_vertex_id v deg : entries (at_vertex W v id deg) = entries deg.
Proof using.
  unfold entries. induction deg as [|[u es] deg IH]; [done|]. cbn [at_vertex].
  destruct (VertexEqual W u v); [done|]. csimpl. by rewrite IH.
Qed.

Lemma edge_shown_place u v e : place u = place v -> edge_shown (u, e) = edge_shown (v, e).
Proof using. intros H. unfold edge_shown, v_key, edge_of, dashed. cbn. by rewrite H. Qed.

Lemma at_vertex_snoc v e deg :
  inside st n v -> Forall (node_inside st n) deg ->
  edge_shown <$> entries (at_vertex W v (fun es => es ++ [e]) deg) ≡ₚ
  (edge_shown <$> entries deg) ++ [edge_shown (v, e)].
Proof using HW H0 Hst Hn.
  intros Hv. unfold entries. induction deg as [|[u es] deg IH]; intros Hd; [done|].
  apply Forall_cons in Hd as [[Hu _] Hd]. cbn [at_vertex]. destruct (VertexEqual W u v) eqn:E; csimpl.
  - rewrite !fmap_app. cbn. rewrite (edge_shown_place u v e (same_place u v Hu Hv E)).
    rewrite <- !app_assoc. f_equiv. apply Permutation_app_comm.
  - rewrite !fmap_app, IH by done. by rewrite app_assoc.
Qed.

(** The picture of the map shows the edges that were added. *)
Lemma added_entries (nes : list (VERTEX * OUTGOING_EDGE)) :
  Forall (ends_inside st n) nes ->
  Forall (node_inside st n) (foldl (addEdge W) [] nes) /\
  edge_shown <$> entries (foldl (addEdge W) [] nes) ≡ₚ edge_shown <$> nes.
Proof using HW H0 Hst Hn.
  assert (H : forall nes deg, Forall (ends_inside st n) nes -> Forall (node_inside st n) deg ->
    Forall (node_inside st n) (foldl (addEdge W) deg nes) /\
    edge_shown <$> entries (foldl (addEdge W) deg nes) ≡ₚ
      (edge_shown <$> entries deg) ++ (edge_shown <$> nes)).
  { clear nes. induction nes as [|pe nes IH]; intros deg He Hd; [by rewrite app_nil_r|].
    apply Forall_cons in He as [[H1 H2] He]. cbn [foldl].
    assert (Hd1 : Forall (node_inside st n) (at_vertex W pe.1 (fun es => es ++ [pe.2]) deg)).
    { apply at_vertex_inside; [done| |done]. intros es Hes. apply Forall_app. split; [done|].
      by apply Forall_singleton. }
    destruct (IH (addEdge W deg pe) He) as [I1 I2]; [by apply at_vertex_inside|].
    split; [exact I1|]. rewrite I2. unfold addEdge. rewrite at_vertex_id, at_vertex_snoc by done.
    rewrite <- app_assoc. by destruct pe. }
  intros He. exact (H nes [] He (Forall_nil_2 _)).
Qed.

Context `{G : !BoostPicture vertex_property edge_property} `{HG : !BoostPictureLaws G}.

Lemma window_drawn (nes : list (VERTEX * OUTGOING_EDGE)) deg :
  n <= 2 ^ 31 -> Forall (ends_inside st n) nes -> deg ≡ₚ foldl (addEdge W) [] nes ->
  pictured (deg2bg deg) nes /\ NoDup (vp_pos <$> bg_vertices (deg2bg deg)).
Proof using HW H0 Hst Hn HG.
  intros Hn31 He Hp. destruct (added_entries nes He) as [H1 H2]. split.
  - apply (drawn_same vp_key edge_shown _ (entries deg)); [|apply deg2bg_pictured].
    rewrite <- H2. unfold entries. by rewrite Hp.
  - apply places_differ. rewrite <- Hp in H1. unfold entries. apply Forall_forall.
    intros [u e] (node & Hx & Hin)%list_elem_of_bind. apply list_elem_of_fmap in Hx as (e' & [= -> ->] & He').
    rewrite Forall_forall in H1. destruct (H1 node Hin) as [Hu Hes]. rewrite Forall_forall in Hes.
    specialize (Hes e' He'). unfold inside in *. cbn [fst snd]. lia.
Qed.
End Window.

(** ** Labels *)

Lemma erase_spaces_app a b : erase_spaces (a +:+ b) = erase_spaces a +:+ erase_spaces b.
Proof.
  induction a as [|c a IH]; [done|]. cbn [erase_spaces String.append]. change ((String c a) +:+ b) with (String c (a +:+ b)).
  cbn [erase_spaces]. destruct (isspace c); [done|]. by rewrite IH.
Qed.
Lemma erase_spaces_none s : no_space s -> erase_spaces s = s.
Proof.
  induction s as [|c s IH]; intros Hs; [done|]. apply no_space_cons in Hs as [Hc Hs].
  cbn. by rewrite Hc, IH.
Qed.

(** With one lane the label is the weight. *)
Lemma weight_text_one w : weight_text [w] = show_int w.
Proof.
  unfold weight_text, toString. cbn [foldl]. change ("" +:+ (show_int w +:+ " ")) with (show_int w +:+ " ").
  rewrite erase_spaces_app, erase_spaces_none by exact (show_int_no_space w). apply string_app_nil_r.
Qed.
End CalD.

Import CalD.

Section Analysed.
Context {CI CD BP : Type} `{!Cache CI} `{!Cache CD} `{!CacheLaws CI} `{!CacheLaws CD}.
Context `{!BranchPredictor BP}.
Context `{G : !BoostPicture vertex_property edge_property} `{HG : !BoostPictureLaws G}.
Notation O3 := (@O3CoreGraph CI CD BP).

(** The edges of a window, those of the resources included, lie in it. *)
Lemma window_edges_inside z W st b0 es (s : O3) g1 l (nes : list (VERTEX * OUTGOING_EDGE)) :
  window_inv z W st b0 es s -> scheduled st s g1 l -> erase <$> nes = es ++ resource_edges s l ->
  Forall (ends_inside st (instrCount s)) nes /\
  Forall (fun x => exists w, cost_of x.2 = [w] /\ 0 <= w < 2 ^ 32) nes.
Proof using Cache0 Cache1 CacheLaws0 CacheLaws1 BranchPredictor0.
  intros Hw Sc Hnes. destruct (scheduled_inside _ _ _ _ _ _ Hw _ _ Sc) as [Hin _].
  destruct (resource_edges_ok _ _ _ _ _ _ Hw l Hin) as [RE _].
  assert (HA : Forall (fun pe : Edge => (st <= instrNum pe.1 < instrCount s /\
      st <= instrNum (child pe.2) < instrCount s) /\ exists w, weight pe.2 = [w] /\ 0 <= w < 2 ^ 32)
    (es ++ resource_edges s l)).
  { apply Forall_app. split.
    - apply Forall_forall. intros pe Hpe. destruct (edge_inside _ _ _ _ _ _ Hw pe Hpe) as (H1 & H2 & _).
      split; [by split|]. pose proof (wi_edges _ _ _ _ _ _ Hw) as HF. rewrite Forall_forall in HF.
      destruct (fw_weight _ _ _ (HF pe Hpe)) as (w & E & Hr & _). exists w. by split.
    - eapply Forall_impl; [exact RE|]. intros pe [R1 R2 _ R4]. split; [by split|exact R4]. }
  rewrite <- Hnes, Forall_fmap in HA.
  split; (eapply Forall_impl; [exact HA|]); intros x [H1 H2]; [exact H1|exact H2].
Qed.

(** C40: the picture of a window.  Once the first window has been analysed, the map
    handed to the drawing, whatever the texts of its vertices and in whatever order
    it is gone through, holds the graph of the core; the picture has one edge for each
    edge that was added, of the program and of the resources, between the vertices that
    stand for its ends, and labelled with its weight; no two vertices stand for the
    same event, and no two lie in the same place. *)
Theorem window_picture c (ic : option CI) (dc : option CD) (pred : option BP) trace
    (Hc : configuration_ok c) (Hi : option_ok ic) (Hd : option_ok dc)
    (Ht : Forall instr_ok trace) (Hl : Z.of_nat (List.length trace) <= c_window c)
    (Hb : Z.of_nat (List.length trace) <= 56000000) :
  exists (s s1 s2 : O3) es l, build c ic dc pred = Ok s /\ model_all s trace = Ok s1 /\
    anaylzeWindow s1 = Ok s2 /\ (forall k, edge_at (graph s1) k = out_edges (base s1) es k) /\
    l.*1 ≡ₚ seqZ 0 (Z.of_nat (List.length trace)) /\
    forall (nes : list (VERTEX * OUTGOING_EDGE)) deg,
      erase <$> nes = es ++ resource_edges s1 l ->
      deg ≡ₚ foldl (CalD.addEdge (c_window c)) [] nes ->
      (forall k, edge_at (as_map (base s2) deg) k = edge_at (graph s2) k) /\
      pictured (deg2bg deg) nes /\ NoDup (vp_pos <$> bg_vertices (deg2bg deg)) /\
      Forall (fun x => exists w, cost_of x.2 = [w] /\ ep_weight (edge_of x.1 x.2) = show_int w) nes.
Proof using HG Cache0 Cache1 CacheLaws0 CacheLaws1 BranchPredictor0.
  destruct (build_ok c ic dc pred Hc Hi Hd) as (s & E & Hw & Hf & Hs & Ha & Hn).
  destruct (model_all_ok (c_sizes c) (c_window c) 0 (base s) [] s trace Hw) as (es & s1 & R & Hw1 & Hn1);
    [lia|exact Ht|]. cbn [app] in Hw1. rewrite Hn, Z.add_0_l in Hn1.
  destruct (window_base _ _ _ _ _ _ Hw1) as (HS & HF & HA).
  destruct (analyse_ok _ _ _ _ _ _ Hw1 0 0 (HS _ _ Hs))
    as (g1 & l & s2 & E2 & Sc & _ & _ & _ & Hg & An);
    [congruence|rewrite Hn1; unfold INT64_MAX; lia|rewrite Hn1; unfold INT64_MAX; lia|].
  pose proof (sc_all _ _ _ _ Sc) as Hp. rewrite Hn1, Z.sub_0_r in Hp.
  destruct (window_facts _ _ _ _ _ _ Hw1) as (HW & H0 & Hm & Haw & Hcnt).
  assert (HWb : AnalysisWindow (base s2) = c_window c).
  { destruct (an_config _ _ _ _ An) as (-> & _). exact Haw. }
  exists s, s1, s2, es, l. split; [exact E|]. split; [exact R|]. split; [exact E2|].
  split; [apply Hw1|]. split; [exact Hp|]. intros nes deg Hnes Hdeg.
  destruct (window_edges_inside _ _ _ _ _ _ _ _ _ Hw1 Sc Hnes) as [Hin Hwt].
  destruct (window_drawn (c_window c) 0 (instrCount s1) HW H0 Hm ltac:(lia) nes deg ltac:(lia) Hin Hdeg)
    as [D1 D2].
  split; [|split; [exact D1|split; [exact D2|]]].
  - intros k. rewrite Hg, <- Hnes. apply added_map. by rewrite HWb.
  - eapply Forall_impl; [exact Hwt|]. intros x (w & Hx & _). exists w. split; [exact Hx|].
    unfold edge_of. cbn [ep_weight]. rewrite Hx. apply weight_text_one.
Qed.
End Analysed.

(** Vertices without texts. *)
Definition untitled (pe : Edge) : VERTEX * OUTGOING_EDGE :=
  (mkVERTEX pe.1 "", mkOUTGOING (mkVERTEX (child pe.2) "") (weight pe.2)).
Lemma untitled_erase (es : list Edge) : erase <$> (untitled <$> es) = es.
Proof. induction es as [|[p [c w]] es IH]; [done|]. csimpl. by rewrite IH. Qed.

Lemma window_picture_witness :
  exists (s s1 s2 : @O3CoreGraph unit unit unit) nes deg,
    build (demo_core 4) no_cache no_cache no_cache = Ok s /\ model_all s core_trace = Ok s1 /\
    anaylzeWindow s1 = Ok s2 /\
    (forall k, edge_at (as_map (base s2) deg) k = edge_at (graph s2) k) /\
    pictured (G := bgl_ref vertex_property edge_property) (deg2bg deg) nes.
Proof.
  destruct (window_picture (G := bgl_ref vertex_property edge_property)
    (demo_core 4) no_cache no_cache no_cache core_trace
    (demo_core_ok 4 ltac:(lia)) I I core_trace_ok ltac:(cbn; lia) ltac:(cbn; lia))
    as (s & s1 & s2 & es & l & E & R & E2 & _ & _ & H).
  set (nes := untitled <$> es ++ resource_edges s1 l).
  destruct (H nes (foldl (CalD.addEdge 4) [] nes) (untitled_erase _) (Permutation_refl _))
    as (H1 & H2 & _).
  exists s, s1, s2, nes, (foldl (CalD.addEdge 4) [] nes).
  split; [exact E|]. split; [exact R|]. split; [exact E2|]. split; [exact H1|exact H2].
Defined.
